(* ===== verification/_CoqProject ===== *)
-Q . S2P
Prelude.v
MinMax.v
Float32.v
Float64.v
RttStats.v
Congestion.v
Olia.v
LinkedList.v
ByteOrder.v
PacketNumber.v
PacketNumberGenerator.v
Frames.v
AckRanges.v
AckFrame.v
PathsFrame.v
PublicHeader.v
HandshakeMessage.v
Unpacker.v
ReceivedPackets.v
FrameSorter.v
FlowControl.v
ConnectionParameters.v
StreamToPath.v
StreamTree.v
Stream.v
StreamsMap.v
StreamFramer.v
PacketPacker.v
SentPackets.v
PathController.v
Session.v
Scheduler.v
SessionSafety.v
SchedulerSafety.v
SendSafety.v
SessionRun.v
SchedulerLaws.v
Endpoints.v
