(* ===== verification/Prelude.v ===== *)
(** * Verification of the multipath QUIC transport of [src/rlmp-quic]

    ** The program

    [src/rlmp-quic] is a Go implementation of QUIC with several paths per connection.  A UDP
    payload is a public header and an encrypted packet; the decrypted packet is a sequence of
    frames.  A server ([server.go]) finds the session of a datagram by its connection ID, or creates one when it supports the
    version that the client ([client.go]) offers.  On receipt the session ([session.go]) finds or creates the path the packet belongs to
    ([path_manager.go]); the path completes the packet number ([internal/protocol/packet_number.go]),
    the payload is cut into frames ([packet_unpacker.go]) and the session hands each frame to the
    component it concerns: STREAM frames to their stream ([streams_map.go], [stream.go],
    [stream_frame_sorter.go]) and to flow control ([internal/flowcontrol]), ACK and CLOSE_PATH frames
    to the sent packet handler of the path they name ([ackhandler/sent_packet_handler.go]), which
    informs its congestion controller ([congestion]); the packet number itself goes to the received packet
    handler of the path ([ackhandler/received_packet_handler.go]), which decides when an ACK is sent
    and what it says.  On sending, streams wait in a tree ([stream_tree.go]) until the
    scheduler ([scheduler.go]) puts them on paths ([streamToPath.go]): by latency, by estimated time, or as an
    external agent answers.  It then lets every path with streams send in turn: the framer cuts their data into
    frames ([stream_framer.go]), the packer builds packets ([packet_packer.go]), and the sent packet handler keeps
    each packet until it is acknowledged or given up for retransmission.

    ** The files

    All paths are relative to [src/rlmp-quic].

    - [Prelude]: machine integers, errors and panics, the monads of readers, writers and
      stateful calls, record updates, shared lemmas and tactics.
    - [MinMax], [ByteOrder], [LinkedList]: [internal/utils/minmax.go], [byteorder*.go] with
      [float16.go], and the generated ring lists over a heap of elements.  The interface [ByteOrder] is a
      record of operations; the class [ByteOrderLaws] states what the codecs rely on, and both byte
      orders are instances.
    - [Float32], [Float64]: single- and double-precision arithmetic, the second one with infinities and NaN.
    - [RttStats], [Congestion], [Olia]: [congestion/rtt_stats.go] and [bdw_stats.go]; [cubic.go],
      [cubic_sender.go], [prr_sender.go], [hybrid_slow_start.go]; [olia.go], [olia_sender.go].
    - [PacketNumber], [PacketNumberGenerator]: [internal/protocol/packet_number.go], [version.go];
      [packet_number_generator.go].
    - [Frames]: the frames of [internal/wire] other than the following ones, one Module per frame.
    - [AckRanges], [AckFrame]: [internal/wire/ack_frame.go], [close_path_frame.go]; the block
      section that the two files share is modelled once.
    - [PathsFrame]: [internal/wire/paths_frame.go] with the text of IPv4 addresses and ports.
    - [PublicHeader]: [internal/wire/public_header.go], [version_negotiation.go].
    - [HandshakeMessage], [ConnectionParameters]: [internal/handshake/handshake_message.go],
      [internal/wire/public_reset.go]; [internal/handshake/connection_parameters_manager.go].
    - [Unpacker]: [internal/wire/frame.go] as a sum type, [packet_unpacker.go].
    - [ReceivedPackets]: [ackhandler/received_packet_history.go], [received_packet_handler.go].
    - [FrameSorter]: [stream_frame_sorter.go].
    - [FlowControl]: [internal/flowcontrol/flow_controller.go], [flow_control_manager.go].
    - [StreamToPath], [StreamTree]: [streamToPath.go], [stream_tree.go].
    - [Stream], [StreamsMap], [StreamFramer], [PacketPacker]: [stream.go], [streams_map.go],
      [stream_framer.go], [packet_packer.go].
    - [SentPackets], [PathController]: [ackhandler/sent_packet_handler.go], [packet.go],
      [retransmittable.go], [stop_waiting_manager.go]; the handler with its cubic controller.
    - [Session], [Scheduler]: [session.go], [path.go], [path_manager.go], [conn.go]; [scheduler.go] with the
      parts of [streams_map.go] it calls and the end of the run loop.
    - [SessionSafety], [SchedulerSafety], [SendSafety]: receiving and sending keep the session well formed.
      [SchedulerSafety] shows once that whatever [sendPacket] does to the session is made of a few kinds of steps;
      a property of sending follows from what these steps do.
    - [SessionRun], [SchedulerLaws]: the runs of a session, and what the scheduler does with streams.
    - [Endpoints]: [server.go], [client.go] and the configurations of [interface.go].

    ** How code becomes definitions

    A Go struct is a record with the fields of the struct, a method is a function from the state
    (and its arguments) to the new state and an [outcome]: [Ret], [Err] with the error value, or
    [Panic] where Go panics (an index out of range, a nil dereference) or blocks for good on a channel.  A
    method that changes its receiver before it returns an error does so in the model.  The methods of the
    session, of paths and of the stream tree are written in the monad [Call] of such functions, with the
    Hoare rules [call_ok].  Integers are [Z], with
    [uN w] wherever the Go expression can wrap around; [int64] and [time.Duration] are reduced by
    [i64] where that matters.  A [time.Time] is a number of nanoseconds, the zero time is 0, and
    each call of [time.Now()] is an argument.  A [bytes.Reader] is the list of the unread
    bytes, a [bytes.Buffer] the list of the bytes written.  A linked list is the list of its
    values from front to back, except in [LinkedList], which is about the pointers.  Maps are
    [gmap]; where the source ranges over a map, the order is an argument.  A call of a stream that blocks
    returns that it waits and is resumed later.  The texts that [fmt] builds from numbers are left
    out of some error values.

    Code outside the sources is an argument: decryption ([Open]), the crypto setup, sockets and
    random bytes ([environment] in [Session]), the generated names of error codes ([codeString]), what
    package [net] makes of IPv6 text ([parseIPv6]).  The sent packet handler, paths and the session are proved
    against the class [SendAlgorithm], which has no laws: the theorems hold for every congestion
    controller.  [cubic_controller] is its instance for cubic, with the laws of [CongestionInvariant].

    ** What the theorems show

    - The session.  In every reachable state the parts of the session fit together, and no packet
      makes the run loop panic (C1); the steps include what the scheduler does and sends, and calls of
      the application that make no stream depend exclusively on another one or on one with a larger ID ([forward]).  A
      server keeps this true of all its sessions, whatever arrives (C3).  The frames that [frame_ok] excludes are those of
      C37, stream IDs next to the end of their range, and new addresses for a client
      that creates paths; a diversification nonce must be one that the crypto setup of a client takes
      ([SetDiversificationNonce]).  A cycle of dependencies overflows the stack (C38).
    - Endpoints.  A datagram only touches the connection it names and never makes a server panic
      (C15), nor a client with a well formed session (C16), which switches its version at most
      once ([client_switches_once]); client and server agree on a
      version (C4).
    - Data.  What one side writes to a stream the other side reads, whatever is lost, reordered or
      retransmitted (C2); the framer takes data within the windows and has flow control count exactly that data
      (C12), in rounds over the streams ([round_robin_visits]); the sorter delivers
      in order, each byte once, and never holds back the next byte (C24).
    - Packets.  A packed packet fits and is unpacked to the same frames, up to what the wire does not carry
      (C5); packing takes from the queues and the framer what it puts into the packet and nothing else
      (C29); payloads round trip through the unpacker
      (C11), and unpacking arbitrary bytes yields well-formed frames
      only (C25).
    - Wire formats.  ACK frames, public headers and handshake messages are parsed back as they
      were written (C17, C33, C31), for ACK frames
      up to the rounding of times and the ranges that do not fit.  The other frames have such lemmas in their files.
    - Receiving.  The history implements a set of packet numbers, whatever the order of arrival
      (C23); an ACK reports exactly the packets received
      (C10) and is scheduled in time (C34).
    - Sending.  No packet is lost from the books (C6); ACKs remove and queue
      exactly the right packets, by the round-trip time that is estimated then (C14); alarms retransmit (C35).
    - Congestion control.  Windows stay within their bounds (C8,
      C7, C26); a loss event reduces the window once
      (C28); the cubic target grows ([cubic_target_grows]) and its loop
      ends ([cubic_loop_ends]); the epsilons of the coupled controller balance (C27);
      round-trip times are estimated as intended in single precision (C36).
    - Flow control and parameters.  The counters of the connection are the sums over the streams
      and neither side exceeds a window that was granted, whatever the peer updates (C9); both sides agree on the parameters (C32).
    - Streams and lists.  The streams map keeps its counters and limits (C13);
      the stream-to-path map is a relation (C30); the stream tree offers each waiting
      stream once (C21); the ring lists implement lists (C22).
    - Scheduling.  Sending never moves a stream from one path to another and leaves the paths open or closed (C18); the
      data of lost forward-secure packets is sent again, in order (C19); streams are put on the usable path with the
      lowest latency (C20).
    - Deviations.  C39, C40, C37 and
      C38, and the lemmas [dependencies_lose_streams], [stream_eof_truncates],
      [UpdateSendWindow_shrinks], [failed_switch_panics], [removed_stream_fails], [client_limits_ineffective],
      [ping_drops_frames] and [cubic_epoch_jump], state what the code does where it does not do what it seems to mean.

    The properties of stateful components are about every state reachable from the initial one by
    a step relation ([handler_step], [sorter_step], [fc_step], [sent_step], [session_step] and so
    on) whose steps are the component's operations.  The conditions on a step say what its caller
    guarantees: packet numbers below 2^48 at the receiver, stream offsets below 2^62, frames of one
    stream that agree on its bytes and its end, reads of bytes that arrived, ranges that passed the parser, packet numbers that are not used up.

    ** Bounds and fuel

    The loop of the 16-bit float halves its offset from 16 to 0 and has fuel 6.  The versions of
    a version negotiation packet are read with one more than the number of unread bytes as fuel;
    each round takes four of them.  The frame loop of the unpacker has the length of the payload
    as fuel, and every frame parser consumes at least its type byte (the relation [preads]), so
    the fuel does not run out.  Decimal numbers are written with fuel for 20 digits, which is what
    a 64-bit number has.  The loop that retransmits all packets has the length of the
    history as fuel and removes one packet per round.  The loop of cubic has [growFuel], which
    [cubic_loop_ends] shows to be enough; the cube root runs over its 22 bits.  Reading from a stream
    has [readFuel], one round per queued frame.  Opening the streams up to an ID has the number of IDs as fuel.  Recursion
    in the stream tree has the number of nodes plus one as fuel ([Tree.depth]), which is enough when parents have smaller IDs
    ([print_ordered]); running out is the panic of a stack overflow, and on a cycle no fuel is enough (C38).  The loop over the packets that wait for
    retransmission has one more than their number as fuel, which C19 shows to be enough; the
    loops over the queues of the framer likewise.  The rounds of [sendPacket], which goes on while packets are
    sent, are bounded by an argument; the theorems hold for every number of rounds.  All other loops are structural.

    ** What is not modelled

    The functions of [scheduler.go] and [streams_map.go] without callers (other schedulers, variants that send the
    data of one stream, versions of [sendPacket] in comments) are not modelled.  The answer of the agent and the random
    number that chooses a stream are arguments.  The handshake exchange is not modelled.  The select statements of the session, the client and
    the server are goroutines around sockets and timers; their cases are modelled as operations, the
    set-up of sockets and certificates and the queue of accepted sessions are left out.  Cryptography,
    the HTTP layer, sockets, logging, the learning service in Python and its middleware are outside: they are
    libraries or input and output.  Locks and goroutines are left out: each operation is one atomic step, and
    nothing is shown about calls that run at the same time; the one lock that is modelled is the mutex of the
    streams map where the scheduler takes it twice (C40). *)
From stdpp Require Export base list numbers strings sets gmap.

Open Scope Z_scope.

(** ** Machine integers

    A Go value of type [uintN] is an integer in [0 <= z < 2^N]; every
    conversion and every arithmetic operation of the source that can leave
    this range is written with [uN N], the reduction modulo [2^N]. *)

Definition uN (w z : Z) : Z := z `mod` 2 ^ w.

Declare Scope go_scope.
Delimit Scope go_scope with go.
Abbreviation u8 := (uN 8).
Abbreviation u16 := (uN 16).
Abbreviation u32 := (uN 32).
Abbreviation u64 := (uN 64).
Notation "a +64 b" := (u64 (a + b)) (at level 50, left associativity) : go_scope.
Notation "a -64 b" := (u64 (a - b)) (at level 50, left associativity) : go_scope.
Notation "a *64 b" := (u64 (a * b)) (at level 40, left associativity) : go_scope.
Notation "a '<<64' b" := (u64 (Z.shiftl a b)) (at level 40, left associativity) : go_scope.
Open Scope go_scope.

Definition in_range (w z : Z) : Prop := 0 <= z < 2 ^ w.
Abbreviation is_u8 := (in_range 8).
Abbreviation is_u16 := (in_range 16).
Abbreviation is_u32 := (in_range 32).
Abbreviation is_u64 := (in_range 64).

(** Signed 64-bit values ([int64], and with it [time.Duration]). *)
Definition i64 (z : Z) : Z := (z + 2 ^ 63) `mod` 2 ^ 64 - 2 ^ 63.
Definition is_i64 (z : Z) : Prop := - 2 ^ 63 <= z < 2 ^ 63.

(** A [time.Time] is a number of nanoseconds, its zero value is 0; a
    [time.Duration] is an [int64] number of nanoseconds. *)
Definition Microsecond : Z := 1000.

(** [t.Sub(u)] saturates. *)
Definition TimeSub (t u : Z) : Z := Z.max (- 2 ^ 63) (Z.min (2 ^ 63 - 1) (t - u)).

Lemma uN_small w z : in_range w z -> uN w z = z.
Proof. apply Z.mod_small. Qed.

Lemma uN_range w z : 0 <= w -> in_range w (uN w z).
Proof. intros. apply Z.mod_pos_bound. lia. Qed.

Lemma u8_range z : is_u8 (u8 z). Proof. by apply uN_range. Qed.
Lemma u16_range z : is_u16 (u16 z). Proof. by apply uN_range. Qed.
Lemma u32_range z : is_u32 (u32 z). Proof. by apply uN_range. Qed.
Lemma u64_range z : is_u64 (u64 z). Proof. by apply uN_range. Qed.

Lemma i64_small z : is_i64 z -> i64 z = z.
Proof. unfold is_i64, i64. intros. rewrite Z.mod_small; lia. Qed.

(** Only the last reduction of a chain matters. *)
Lemma u64_sub_sub a b c : u64 (u64 (a - b) - c) = u64 (a - b - c).
Proof. unfold uN. by rewrite Zminus_mod_idemp_l. Qed.

Lemma u64_sub_l a b : u64 (u64 a - b) = u64 (a - b).
Proof. unfold uN. by rewrite Zminus_mod_idemp_l. Qed.

Lemma u64_sub_idemp a b : u64 (a - u64 b) = u64 (a - b).
Proof. unfold uN. by rewrite Zminus_mod_idemp_r. Qed.

Lemma u64_add_idemp a b : u64 (u64 a + b) = u64 (a + b).
Proof. unfold uN. by rewrite Zplus_mod_idemp_l. Qed.

(** ** Errors and outcomes

    A Go [error] is [errors.New(s)], a [*qerr.QuicError], a bare
    [qerr.ErrorCode], or one of the two errors of package [io]. *)
Inductive error : Type :=
  | EOF
  | ErrUnexpectedEOF
  | ErrorString (s : string)
  | ErrorCode (code : Z)
  | QuicError (code : Z) (msg : string).

#[export] Instance error_eq_dec : EqDecision error.
Proof. solve_decision. Defined.

(** A call returns, returns an error, or panics. *)
Inductive outcome (A : Type) : Type :=
  | Ret (a : A)
  | Err (e : error)
  | Panic (why : string).
Arguments Ret {A} a.
Arguments Err {A} e.
Arguments Panic {A} why.

#[export] Instance outcome_ret : MRet outcome := @Ret.
#[export] Instance outcome_bind : MBind outcome := fun A B k m =>
  match m with
  | Ret a => k a
  | Err e => Err e
  | Panic s => Panic s
  end.

Definition returns {A} (o : outcome A) : Prop := exists a, o = Ret a.

(** ** The byte reader

    [*bytes.Reader] is the list of the bytes that are left. *)
Definition Parser (A : Type) : Type := list Z -> outcome (A * list Z).

#[export] Instance parser_ret : MRet Parser := fun A a bs => Ret (a, bs).
#[export] Instance parser_bind : MBind Parser := fun A B k p bs =>
  match p bs with
  | Ret (a, rest) => k a rest
  | Err e => Err e
  | Panic s => Panic s
  end.

Definition fail {A} (e : error) : Parser A := fun _ => Err e.

(** The value a parser returns, injected into another type. *)
Definition pmap {A B} (f : A -> B) (p : Parser A) : Parser B := a ← p; mret (f a).
Notation "f <$$> p" := (pmap f p) (at level 61, left associativity).

(** [r.ReadByte()] *)
Definition ReadByte : Parser Z := fun bs =>
  match bs with
  | [] => Err EOF
  | b :: rest => Ret (b, rest)
  end.

(** [r.Len()] *)
Definition Len : Parser Z := fun bs => Ret (Z.of_nat (length bs), bs).

(** [io.ReadFull(r, buf)] with [len(buf) = n] *)
Definition ReadFull (n : Z) : Parser (list Z) := fun bs =>
  if n <=? Z.of_nat (length bs) then
    Ret (take (Z.to_nat n) bs, drop (Z.to_nat n) bs)
  else match bs with
       | [] => Err EOF
       | _ => Err ErrUnexpectedEOF
       end.

(** ** The byte writer

    [*bytes.Buffer] is only appended to; a [Writer] is what a call appends
    together with how it ends, so the bytes written before an error are kept. *)
Definition Writer (A : Type) : Type := (list Z * outcome A)%type.

#[export] Instance writer_ret : MRet Writer := fun A a => ([], Ret a).
#[export] Instance writer_bind : MBind Writer := fun A B k w =>
  match w with
  | (o, Ret a) => let '(o', r) := k a in (o ++ o', r)
  | (o, Err e) => (o, Err e)
  | (o, Panic s) => (o, Panic s)
  end.

Definition write (bs : list Z) : Writer unit := (bs, Ret tt).
Definition WriteByte (b : Z) : Writer unit := write [b].
Definition werror {A} (e : error) : Writer A := ([], Err e).
Definition wpanic {A} (s : string) : Writer A := ([], Panic s).

Definition is_bytes (bs : list Z) : Prop := Forall is_u8 bs.

(** ** Tactics *)

(** Remove the reductions [uN w z] whose argument is in range. *)
Ltac usmall :=
  repeat match goal with
  | |- context [uN ?w ?z] => rewrite (uN_small w z) by (unfold in_range in *; lia)
  end.

Ltac usmall_in H :=
  repeat match type of H with
  | context [uN ?w ?z] => rewrite (uN_small w z) in H by (unfold in_range in *; lia)
  end.

(** ** Running parsers and writers *)
Lemma parser_bind_ret {A B} (p : Parser A) (k : A -> Parser B) bs a rest :
  p bs = Ret (a, rest) -> mbind k p bs = k a rest.
Proof. unfold mbind, parser_bind. by intros ->. Qed.

Lemma ReadByte_cons b rest : ReadByte (b :: rest) = Ret (b, rest).
Proof. done. Qed.

Lemma ReadFull_app n bs rest :
  n = Z.of_nat (length bs) -> ReadFull n (bs ++ rest) = Ret (bs, rest).
Proof.
  intros ->. unfold ReadFull. rewrite length_app.
  destruct (Z.leb_spec (Z.of_nat (length bs)) (Z.of_nat (length bs + length rest))); [|lia].
  by rewrite Nat2Z.id, take_app_length, drop_app_length.
Qed.

(** [pstep H] runs the first read of a parser with the equation [H] and solves
    the range condition of the value read. *)
Ltac solve_range := solve [assumption | done | unfold in_range in *; lia].
Tactic Notation "pstep" uconstr(H) :=
  erewrite parser_bind_ret by (rewrite <- ?app_assoc; eapply H; solve_range).

(** [pbyte] runs a [ReadByte] on a non-empty input. *)
Ltac pbyte := rewrite (parser_bind_ret ReadByte) with (1 := ReadByte_cons _ _).

(** [wrun] normalises a writer whose steps all succeed. *)
Ltac wrun := cbv [mbind writer_bind write WriteByte mret writer_ret]; cbn [app].

Lemma andb_land_testbit a n : (Z.land a (2 ^ n) =? 0) = negb (Z.testbit a n).
Proof.
  destruct (Z.testbit a n) eqn:E; cbn.
  - apply Z.eqb_neq. intros H.
    assert (Z.testbit (Z.land a (2 ^ n)) n = false) by (by rewrite H, Z.bits_0).
    destruct (Z.lt_ge_cases n 0); [rewrite Z.testbit_neg_r in E by lia; done|].
    rewrite Z.land_spec, E, Z.pow2_bits_true in H0 by lia. done.
  - apply Z.eqb_eq. apply Z.bits_inj'. intros m Hm. rewrite Z.land_spec, Z.bits_0.
    destruct (Z.eq_dec m n) as [->|]; [by rewrite E|].
    destruct (Z.lt_ge_cases n 0); [rewrite (Z.pow_neg_r 2 n), Z.bits_0 by lia; apply andb_false_r|].
    rewrite Z.pow2_bits_false by lia. apply andb_false_r.
Qed.

(** ** Parsers on arbitrary input

    [psafe p Q]: on every byte sequence [p] does not panic; when it returns a
    value, the value satisfies [Q] and what is left is a suffix of the input. *)
Definition psafe {A} (p : Parser A) (Q : A -> Prop) : Prop :=
  forall bs, is_bytes bs ->
  match p bs with
  | Ret (a, rest) => Q a /\ is_bytes rest /\ rest `suffix_of` bs
  | Err _ => True
  | Panic _ => False
  end.

Lemma psafe_ret {A} (a : A) (Q : A -> Prop) : Q a -> psafe (mret a) Q.
Proof. intros Ha bs Hbs. cbn. by repeat split. Qed.

Lemma psafe_fail {A} e (Q : A -> Prop) : psafe (fail e) Q.
Proof. intros bs Hbs. done. Qed.

Lemma psafe_bind {A B} (p : Parser A) (k : A -> Parser B) Q R :
  psafe p Q -> (forall a, Q a -> psafe (k a) R) -> psafe (mbind k p) R.
Proof.
  intros Hp Hk bs Hbs. specialize (Hp bs Hbs). unfold mbind, parser_bind.
  destruct (p bs) as [[a rest]| |]; [|done..].
  destruct Hp as (Ha & Hrest & Hsuf). specialize (Hk a Ha rest Hrest).
  destruct (k a rest) as [[b rest']| |]; [|done..].
  destruct Hk as (Hb & Hrest' & Hsuf'). repeat split; [done..|]. by etrans.
Qed.

Lemma psafe_weaken {A} (p : Parser A) (Q R : A -> Prop) :
  psafe p Q -> (forall a, Q a -> R a) -> psafe p R.
Proof.
  intros Hp HQ bs Hbs. specialize (Hp bs Hbs).
  destruct (p bs) as [[a rest]| |]; [|done..]. naive_solver.
Qed.

Lemma psafe_ReadByte : psafe ReadByte is_u8.
Proof.
  intros [|b bs] Hbs; [done|]. apply Forall_cons in Hbs as [Hb Hbs]. cbn.
  repeat split; try apply Hb; [done|]. by exists [b].
Qed.

Lemma psafe_Len : psafe Len (fun n => 0 <= n).
Proof. intros bs Hbs. cbn. repeat split; [lia|done..]. Qed.

Lemma psafe_ReadFull n :
  psafe (ReadFull n) (fun bs => is_bytes bs /\ (0 <= n -> Z.of_nat (length bs) = n)).
Proof.
  intros bs Hbs. unfold ReadFull. destruct (Z.leb_spec n (Z.of_nat (length bs))).
  - unfold is_bytes. repeat split; [by apply Forall_take| |by apply Forall_drop|].
    + intros. rewrite length_take. lia.
    + exists (take (Z.to_nat n) bs). by rewrite take_drop.
  - by destruct bs.
Qed.

Create HintDb psafe.
#[export] Hint Resolve psafe_ret psafe_fail psafe_ReadByte psafe_Len psafe_ReadFull : psafe.

(** [pnext x H] runs the next read of a parser on arbitrary input: it reads [x]
    of which [H] holds. *)
Tactic Notation "pnext" simple_intropattern(x) simple_intropattern(H) :=
  eapply psafe_bind; [solve [eauto with psafe]|intros x H; cbv beta iota].

(** A parser that moreover reads at least one byte. *)
Definition preads {A} (p : Parser A) (Q : A -> Prop) : Prop :=
  psafe p Q /\ forall bs a rest, is_bytes bs -> p bs = Ret (a, rest) ->
    (length rest < length bs)%nat.

Lemma preads_bind {A} (k : Z -> Parser A) Q :
  (forall b, is_u8 b -> psafe (k b) Q) -> preads (mbind k ReadByte) Q.
Proof.
  intros Hk. split; [eapply psafe_bind; [apply psafe_ReadByte|done]|].
  intros [|b bs] a rest Hbs; [done|]. apply Forall_cons in Hbs as [Hb Hbs].
  rewrite (parser_bind_ret ReadByte) with (1 := ReadByte_cons b bs). intros Hr.
  specialize (Hk b Hb bs Hbs). rewrite Hr in Hk. destruct Hk as (_ & _ & Hs).
  apply suffix_length in Hs. cbn. lia.
Qed.

Lemma preads_weaken {A} (p : Parser A) (Q R : A -> Prop) :
  preads p Q -> (forall a, Q a -> R a) -> preads p R.
Proof. intros [Hp Hr] H. split; [by eapply psafe_weaken|done]. Qed.

Lemma preads_pmap {A B} (f : A -> B) (p : Parser A) (Q : B -> Prop) :
  preads p (fun a => Q (f a)) -> preads (f <$$> p) Q.
Proof.
  intros [Hp Hr]. split.
  - eapply psafe_bind; [apply Hp|]. intros a Ha. by apply psafe_ret.
  - intros bs b rest Hbs. unfold pmap, mbind, parser_bind.
    destruct (p bs) as [[a rest']| |] eqn:E; [|done..]. intros [= <- <-]. by eapply Hr.
Qed.

Lemma preads_fail {A} e (Q : A -> Prop) : preads (fail e) Q.
Proof. split; [apply psafe_fail|done]. Qed.

Tactic Notation "pfirst" simple_intropattern(x) simple_intropattern(H) :=
  apply preads_bind; intros x H; cbv beta iota.
Create HintDb preads.

(** ** Assignment to a field

    [h <| f := v |>] is the record [h] with its field [f] set to [v].  [field_setter eta] builds the
    instance of a field from [eta], the record rebuilt from its projections. *)
Class Setter {R A} (f : R -> A) := setField : A -> R -> R.
Notation "h <| f := v |>" := (setField (f := f) v h)
  (at level 12, f at next level, left associativity, format "h  <| f  :=  v |>").

Ltac field_setter eta :=
  match goal with
  | |- @Setter ?R ?A ?f =>
      let rebuilt := constr:(fun h : R => ltac:(
        let body := eval cbv beta delta [eta] in (eta h) in
        let abstracted := eval pattern (f h) in body in
        match abstracted with ?F _ => exact F end)) in
      exact (fun (v : A) (h : R) => rebuilt h v)
  end.

(** ** Calls that change a state

    A method of an object with the state [S]: the state afterwards and how the call ends.  A call that
    returns an error or panics has changed the state up to that point. *)
Definition Call (S A : Type) : Type := S -> S * outcome A.

#[export] Instance call_ret S : MRet (Call S) := fun A a s => (s, Ret a).
#[export] Instance call_bind S : MBind (Call S) := fun A B k m s =>
  match m s with
  | (s', Ret a) => k a s'
  | (s', Err e) => (s', Err e)
  | (s', Panic why) => (s', Panic why)
  end.

Definition get {S} : Call S S := fun s => (s, Ret s).
Definition update {S} (f : S -> S) : Call S unit := fun s => (f s, Ret tt).
Definition lift {S A} (r : outcome A) : Call S A := fun s => (s, r).
Definition raise {S A} (e : error) : Call S A := lift (Err e).
Definition crash {S A} (why : string) : Call S A := lift (Panic why).
Definition nilDereference {S A} : Call S A := crash "invalid memory address or nil pointer dereference".
Definition when {S} (b : bool) (m : Call S unit) : Call S unit := if b then m else mret tt.

(** [if err := m(); err != nil { return handler(err) }] *)
Definition onError {S A} (m : Call S A) (handler : error -> Call S A) : Call S A := fun s =>
  match m s with (s', Err e) => handler e s' | r => r end.

(** [for _, x := range l { m(x) }], left at the first error *)
Fixpoint forEach {S A} (l : list A) (m : A -> Call S unit) : Call S unit :=
  match l with
  | [] => mret tt
  | x :: l' => m x;; forEach l' m
  end.

(** [call_ok P m Q E]: from a state in [P] the call does not panic; it returns a value with [Q], or an
    error with [E]. *)
Definition call_ok {S A} (P : S -> Prop) (m : Call S A) (Q : A -> S -> Prop) (E : error -> S -> Prop) : Prop :=
  forall s, P s ->
  match m s with
  | (s', Ret a) => Q a s'
  | (s', Err e) => E e s'
  | (_, Panic _) => False
  end.

Lemma call_bind_ret {S A B} (m : Call S A) (k : A -> Call S B) s s' a :
  m s = (s', Ret a) -> mbind k m s = k a s'.
Proof. intros H. unfold mbind, call_bind. by rewrite H. Qed.

Section CallOk.
Context {S : Type}.
Implicit Types P I : S -> Prop.
Implicit Types E : error -> S -> Prop.

Lemma call_ok_ret {A} (a : A) P (Q : A -> S -> Prop) E : (forall s, P s -> Q a s) -> call_ok P (mret a) Q E.
Proof. intros H s Hs. cbn. auto. Qed.

Lemma call_ok_bind {A B} (m : Call S A) (k : A -> Call S B) P Q R E :
  call_ok P m Q E -> (forall a, call_ok (Q a) (k a) R E) -> call_ok P (mbind k m) R E.
Proof.
  intros Hm Hk s Hs. specialize (Hm s Hs). unfold mbind, call_bind.
  destruct (m s) as [s' [a| |]]; [|done..]. by apply Hk.
Qed.

Lemma call_ok_weaken {A} (m : Call S A) P P' (Q Q' : A -> S -> Prop) E E' :
  call_ok P' m Q' E' -> (forall s, P s -> P' s) -> (forall a s, Q' a s -> Q a s) ->
  (forall e s, E' e s -> E e s) -> call_ok P m Q E.
Proof.
  intros Hm HP HQ HE s Hs. specialize (Hm s (HP s Hs)). destruct (m s) as [s' [a| |]]; auto.
Qed.

Lemma call_ok_get P (Q : S -> S -> Prop) E : (forall s, P s -> Q s s) -> call_ok P get Q E.
Proof. intros H s Hs. cbn. auto. Qed.

(** The state that was read is a fixed one. *)
Lemma call_ok_with {A} (k : S -> Call S A) P Q E :
  (forall s, P s -> call_ok (fun s' => s' = s) (k s) Q E) -> call_ok P (mbind k get) Q E.
Proof. intros H s Hs. exact (H s Hs s eq_refl). Qed.

Lemma call_ok_update f P (Q : unit -> S -> Prop) E : (forall s, P s -> Q tt (f s)) -> call_ok P (update f) Q E.
Proof. intros H s Hs. cbn. auto. Qed.

Lemma call_ok_raise {A} e P (Q : A -> S -> Prop) E : (forall s, P s -> E e s) -> call_ok P (raise e) Q E.
Proof. intros H s Hs. cbn. auto. Qed.

Lemma call_ok_lift {A} (r : outcome A) P (Q : A -> S -> Prop) E :
  (forall s, P s -> match r with Ret a => Q a s | Err e => E e s | Panic _ => False end) -> call_ok P (lift r) Q E.
Proof. intros H s Hs. specialize (H s Hs). cbn. by destruct r. Qed.

Lemma call_ok_forEach {A} (l : list A) (m : A -> Call S unit) I E :
  (forall x, x ∈ l -> call_ok I (m x) (fun _ => I) E) -> call_ok I (forEach l m) (fun _ => I) E.
Proof.
  induction l as [|x l IH]; intros H; cbn [forEach]; [by apply call_ok_ret|].
  eapply call_ok_bind; [apply H; set_solver|]. intros []. apply IH. intros y Hy. apply H. set_solver.
Qed.

Lemma call_ok_when (b : bool) (m : Call S unit) I E :
  (b = true -> call_ok I m (fun _ => I) E) -> call_ok I (when b m) (fun _ => I) E.
Proof. destruct b; intros H; [by apply H|by apply call_ok_ret]. Qed.

Lemma call_ok_onError {A} (m : Call S A) handler P (Q : A -> S -> Prop) E E' :
  call_ok P m Q E' -> (forall e, call_ok (E' e) (handler e) Q E) -> call_ok P (onError m handler) Q E.
Proof.
  intros Hm Hh s Hs. specialize (Hm s Hs). unfold onError.
  destruct (m s) as [s' [a|e|]]; [done| |done]. by apply Hh.
Qed.
End CallOk.

(** [within R m]: however the call ends, the state changes as [R] allows; [always P m]: it stays in [P]. *)
Definition within {S A} (R : S -> S -> Prop) (m : Call S A) : Prop := forall s, R s (m s).1.
Definition stays {S} (P : S -> Prop) (s s' : S) : Prop := P s -> P s'.
Notation always P m := (within (stays P) m).

#[export] Instance stays_preorder {S} (P : S -> Prop) : PreOrder (stays P).
Proof. split; unfold stays; [intros s; auto|intros s1 s2 s3; auto]. Qed.

Section Within.
Context {S : Type} (R : S -> S -> Prop) `{!PreOrder R}.

Lemma within_lift {A} (r : outcome A) : within R (lift r).
Proof. intros s. cbn. reflexivity. Qed.

Lemma within_ret {A} (a : A) : within R (mret a).
Proof. apply within_lift. Qed.

Lemma within_raise {A} e : within R (@raise S A e).
Proof. apply within_lift. Qed.

Lemma within_crash {A} why : within R (@crash S A why).
Proof. apply within_lift. Qed.

Lemma within_nil {A} : within R (@nilDereference S A).
Proof. apply within_lift. Qed.

Lemma within_update f : (forall s, R s (f s)) -> within R (update f).
Proof. intros H s. apply H. Qed.

(** What the first call returns may depend on the state it leaves. *)
Lemma within_bind_post {A B} (m : Call S A) (k : A -> Call S B) s :
  R s (m s).1 -> (forall s' a, m s = (s', Ret a) -> R s' (k a s').1) -> R s (mbind k m s).1.
Proof.
  intros Hm Hk. unfold mbind, call_bind. destruct (m s) as [s' [a| |]] eqn:E; [|exact Hm..].
  etransitivity; [exact Hm|]. by apply Hk.
Qed.

Lemma within_bind {A B} (m : Call S A) (k : A -> Call S B) :
  within R m -> (forall a, within R (k a)) -> within R (mbind k m).
Proof. intros Hm Hk s. apply within_bind_post; [apply Hm|]. intros s' a _. apply Hk. Qed.

Lemma within_get {A} (k : S -> Call S A) : (forall s, R s (k s s).1) -> within R (mbind k get).
Proof. intros H s. apply H. Qed.

Lemma within_when b (m : Call S unit) : (b = true -> within R m) -> within R (when b m).
Proof. destruct b; intros H; [by apply H|apply within_ret]. Qed.

Lemma within_onError {A} (m : Call S A) handler :
  within R m -> (forall e, within R (handler e)) -> within R (onError m handler).
Proof.
  intros Hm Hh s. unfold onError. specialize (Hm s). destruct (m s) as [s' [a|e|]]; [done| |done].
  etransitivity; [exact Hm|]. apply Hh.
Qed.

Lemma within_forEach {A} (l : list A) (m : A -> Call S unit) : (forall x, within R (m x)) -> within R (forEach l m).
Proof. intros H. induction l as [|x l IH]; cbn [forEach]; [apply within_ret|]. apply within_bind; auto. Qed.
End Within.

Create HintDb within discriminated.
#[export] Hint Extern 0 (PreOrder _) => typeclasses eauto : within.
#[export] Hint Resolve within_lift within_ret within_raise within_crash within_nil : within.

(** ** Lists *)
Lemma existsb_false {A} (f : A -> bool) (l : list A) :
  (forall x, x ∈ l -> f x = false) -> existsb f l = false.
Proof.
  induction l as [|x l IH]; intros H; [done|]. cbn.
  rewrite (H x), IH by set_solver. done.
Qed.

Lemma existsb_elem {A} (f : A -> bool) (l : list A) :
  existsb f l = true <-> exists x, x ∈ l /\ f x = true.
Proof.
  rewrite existsb_exists. split; intros (x & Hx & Hf); exists x; by rewrite list_elem_of_In in *.
Qed.
