(* ===== verification/MinMax.v ===== *)
(** * Minima and maxima

    Models [internal/utils/minmax.go].  The functions differ in the branch they take for equal
    arguments; [minmax] rewrites them to [Z.min], [Z.max] and [Z.abs], which [lia] understands. *)
From S2P Require Import Prelude.

Module utils.
Definition InfDuration : Z := 2 ^ 63 - 1.
Definition Max (a b : Z) : Z := if a <? b then b else a.
Definition MaxUint32 (a b : Z) : Z := if a <? b then b else a.
Definition MaxUint64 (a b : Z) : Z := if a <? b then b else a.
Definition MinUint64 (a b : Z) : Z := if a <? b then a else b.
Definition Min (a b : Z) : Z := if a <? b then a else b.
Definition MinUint32 (a b : Z) : Z := if a <? b then a else b.
Definition MinInt64 (a b : Z) : Z := if a <? b then a else b.
Definition MaxInt64 (a b : Z) : Z := if b <? a then a else b.
Definition MinByteCount (a b : Z) : Z := if a <? b then a else b.
Definition MaxByteCount (a b : Z) : Z := if b <? a then a else b.
Definition MaxDuration (a b : Z) : Z := if b <? a then a else b.
Definition MinDuration (a b : Z) : Z := if b <? a then b else a.
Definition AbsDuration (d : Z) : Z := if 0 <=? d then d else i64 (- d).
Definition MinTime (a b : Z) : Z := if b <? a then b else a.
Definition MaxTime (a b : Z) : Z := if b <? a then a else b.
Definition MaxPacketNumber (a b : Z) : Z := if b <? a then a else b.
Definition MinPacketNumber (a b : Z) : Z := if a <? b then a else b.
End utils.

Lemma ltb_max a b : (if a <? b then b else a) = Z.max a b.
Proof. destruct (Z.ltb_spec a b); lia. Qed.
Lemma ltb_max' a b : (if b <? a then a else b) = Z.max a b.
Proof. destruct (Z.ltb_spec b a); lia. Qed.
Lemma ltb_min a b : (if a <? b then a else b) = Z.min a b.
Proof. destruct (Z.ltb_spec a b); lia. Qed.
Lemma ltb_min' a b : (if b <? a then b else a) = Z.min a b.
Proof. destruct (Z.ltb_spec b a); lia. Qed.

(** The absolute value of every duration but the smallest one, whose negation wraps around. *)
Lemma AbsDuration_abs d : - 2 ^ 63 < d < 2 ^ 63 -> utils.AbsDuration d = Z.abs d.
Proof.
  intros Hd. unfold utils.AbsDuration. destruct (Z.leb_spec 0 d); [lia|].
  rewrite i64_small by (unfold is_i64; lia). lia.
Qed.

Ltac minmax :=
  unfold utils.Max, utils.MaxUint32, utils.MaxUint64, utils.MinUint64, utils.Min, utils.MinUint32,
    utils.MinInt64, utils.MaxInt64, utils.MinByteCount, utils.MaxByteCount, utils.MaxDuration,
    utils.MinDuration, utils.MinTime, utils.MaxTime, utils.MaxPacketNumber,
    utils.MinPacketNumber in *;
  rewrite ?ltb_max, ?ltb_max', ?ltb_min, ?ltb_min' in *.
