(* ===== verification/Float32.v ===== *)
(** * Single-precision arithmetic

    Go's [float32] as the code uses it: a value is a rational number, and every operation computes
    the exact result and rounds it to the nearest number with 24 significant bits, ties to even, as
    IEEE 754 prescribes.  The exponent is unbounded: the numbers of the congestion controller stay far
    from overflow (2^128) and from subnormal numbers (2^-126).  A product and a sum are rounded
    separately, as the compiler does on amd64 (it fuses them on some other machines). *)
From Stdlib Require Import QArith Qround Qabs Qpower Lqa.
From S2P Require Import Prelude.

Open Scope Q_scope.

Definition pow2 (e : Z) : Q := (2 # 1) ^ e.

(** The nearest integer, ties to even. *)
Definition nearest (x : Q) : Z :=
  let q := Qfloor x in
  match Qcompare (x - inject_Z q) (1 # 2) with
  | Lt => q
  | Gt => (q + 1)%Z
  | Eq => if Z.even q then q else (q + 1)%Z
  end.

(** [x / 2^exponent x] is between 2^23 and 2^24. *)
Definition exponent (x : Q) : Z :=
  let k := (Z.log2 (Qnum x) - Z.log2 (Zpos (Qden x)))%Z in
  if Qle_bool (pow2 k) x then (k - 23)%Z else (k - 24)%Z.

Definition roundPositive (x : Q) : Q := inject_Z (nearest (x / pow2 (exponent x))) * pow2 (exponent x).

Definition round32 (x : Q) : Q :=
  let x := Qred x in
  if Z.eqb (Qnum x) 0 then 0
  else if Z.ltb 0 (Qnum x) then Qred (roundPositive x)
  else Qred (- roundPositive (- x)).

Module f32.
Definition t : Type := Q.
Definition ofZ (z : Z) : t := round32 (inject_Z z).
Definition add (x y : t) : t := round32 (x + y).
Definition sub (x y : t) : t := round32 (x - y).
Definition mul (x y : t) : t := round32 (x * y).
Definition div (x y : t) : t := round32 (x / y).
(** [int64(x)]: towards zero *)
Definition trunc (x : t) : Z := let y := Qred x in Z.quot (Qnum y) (Zpos (Qden y)).
End f32.

(** ** Powers of two *)
Lemma pow2_pos e : 0 < pow2 e.
Proof. unfold pow2. apply Qpower_0_lt. reflexivity. Qed.

Lemma pow2_plus a b : pow2 (a + b) == pow2 a * pow2 b.
Proof. unfold pow2. apply Qpower_plus. discriminate. Qed.

Lemma pow2_Z e : (0 <= e)%Z -> pow2 e == inject_Z (2 ^ e).
Proof. intros He. unfold pow2. rewrite Zpower_Qpower by done. reflexivity. Qed.

Lemma pow2_S e : pow2 (e + 1) == 2 * pow2 e.
Proof. rewrite pow2_plus. change (pow2 1) with (2 # 1). ring. Qed.

Lemma pow2_le a b : (a <= b)%Z -> pow2 a <= pow2 b.
Proof.
  intros H. replace b with (a + (b - a))%Z by lia. rewrite pow2_plus.
  rewrite <- (Qmult_1_r (pow2 a)) at 1. apply Qmult_le_l; [apply pow2_pos|].
  rewrite pow2_Z by lia. change 1 with (inject_Z 1). rewrite <- Zle_Qle.
  pose proof (Z.pow_pos_nonneg 2 (b - a)). lia.
Qed.

Lemma pow2_lt_inv a b : pow2 a < pow2 b -> (a < b)%Z.
Proof.
  intros H. destruct (Z.lt_ge_cases a b) as [|Hge]; [done|]. exfalso.
  pose proof (pow2_le b a Hge) as Hle. apply (Qlt_irrefl (pow2 a)). eapply Qlt_le_trans; eassumption.
Qed.

Lemma pow2_nonzero e : ~ pow2 e == 0.
Proof. intros H. by apply (Qlt_not_eq _ _ (pow2_pos e)). Qed.

(** ** Rounding *)
Lemma nearest_error x : Qabs (inject_Z (nearest x) - x) <= 1 # 2.
Proof.
  pose proof (Qfloor_le x) as H1. pose proof (Qlt_floor x) as H2. unfold nearest.
  rewrite inject_Z_plus in H2. change (inject_Z 1) with 1 in H2. apply Qabs_Qle_condition.
  destruct (Qcompare_spec (x - inject_Z (Qfloor x)) (1 # 2)) as [H|H|H]; try destruct (Z.even _);
    rewrite ?inject_Z_plus; change (inject_Z 1) with 1; lra.
Qed.

Lemma nearest_int z : nearest (inject_Z z) = z.
Proof.
  unfold nearest. rewrite Qfloor_Z. destruct (Qcompare_spec (inject_Z z - inject_Z z) (1 # 2)); [|done|]; lra.
Qed.

Lemma nearest_comp x y : x == y -> nearest x = nearest y.
Proof.
  intros H. unfold nearest. rewrite (Qfloor_comp _ _ H).
  assert (Hc : Qcompare (x - inject_Z (Qfloor y)) (1 # 2) = Qcompare (y - inject_Z (Qfloor y)) (1 # 2)).
  { apply Qcompare_comp; [|reflexivity]. by rewrite H. }
  by rewrite Hc.
Qed.

(** The quotient of two numbers between powers of two. *)
Lemma log2_bounds n : (0 < n)%Z -> pow2 (Z.log2 n) <= inject_Z n /\ inject_Z n < pow2 (Z.log2 n + 1).
Proof.
  intros Hn. pose proof (Z.log2_spec n Hn) as [H1 H2]. pose proof (Z.log2_nonneg n).
  rewrite !pow2_Z by lia. rewrite <- Zle_Qle, <- Zlt_Qlt. lia.
Qed.

Lemma exponent_spec x : 0 < x -> pow2 (exponent x + 23) <= x /\ x < pow2 (exponent x + 24).
Proof.
  intros Hx. assert (Hn : (0 < Qnum x)%Z) by (unfold Qlt in Hx; cbn in Hx; lia).
  destruct (log2_bounds _ Hn) as [N1 N2]. destruct (log2_bounds (Zpos (Qden x)) ltac:(lia)) as [D1 D2].
  set (ln := Z.log2 (Qnum x)) in *. set (ld := Z.log2 (Zpos (Qden x))) in *.
  assert (Hd : 0 < inject_Z (Zpos (Qden x))) by reflexivity.
  assert (Hxd : x * inject_Z (Zpos (Qden x)) == inject_Z (Qnum x)).
  { destruct x as [n d]. unfold Qeq, inject_Z. cbn. lia. }
  assert (U : x < pow2 (ln - ld + 1)).
  { apply (Qmult_lt_r _ _ (inject_Z (Zpos (Qden x)))); [done|]. rewrite Hxd.
    eapply Qlt_le_trans; [exact N2|]. replace (ln + 1)%Z with (ln - ld + 1 + ld)%Z by lia. rewrite pow2_plus.
    apply Qmult_le_l; [apply pow2_pos|done]. }
  assert (L : pow2 (ln - ld - 1) < x).
  { apply (Qmult_lt_r _ _ (inject_Z (Zpos (Qden x)))); [done|]. rewrite Hxd.
    eapply Qlt_le_trans; [|exact N1]. replace ln with (ln - ld - 1 + (ld + 1))%Z at 2 by lia. rewrite pow2_plus.
    apply Qmult_lt_l; [apply pow2_pos|done]. }
  unfold exponent. fold ln ld. destruct (Qle_bool (pow2 (ln - ld)) x) eqn:E.
  - apply Qle_bool_iff in E. replace (ln - ld - 23 + 23)%Z with (ln - ld)%Z by lia.
    replace (ln - ld - 23 + 24)%Z with (ln - ld + 1)%Z by lia. done.
  - assert (Hlt : x < pow2 (ln - ld)).
    { apply Qnot_le_lt. intros H. apply Qle_bool_iff in H. congruence. }
    replace (ln - ld - 24 + 23)%Z with (ln - ld - 1)%Z by lia. replace (ln - ld - 24 + 24)%Z with (ln - ld)%Z by lia.
    split; [by apply Qlt_le_weak|done].
Qed.

Lemma roundPositive_error x : 0 < x -> Qabs (roundPositive x - x) <= x * pow2 (- 24).
Proof.
  intros Hx. destruct (exponent_spec x Hx) as [L _]. unfold roundPositive. set (e := exponent x) in *.
  pose proof (pow2_pos e) as He. pose proof (pow2_nonzero e) as Hne.
  pose proof (nearest_error (x / pow2 e)) as Hr.
  assert (Heq : inject_Z (nearest (x / pow2 e)) * pow2 e - x ==
    (inject_Z (nearest (x / pow2 e)) - x / pow2 e) * pow2 e) by (field; done).
  rewrite Heq, Qabs_Qmult, (Qabs_pos (pow2 e)) by (by apply Qlt_le_weak).
  apply (Qle_trans _ ((1 # 2) * pow2 e)).
  - apply Qmult_le_compat_r; [done|by apply Qlt_le_weak].
  - apply (Qle_trans _ (pow2 (e + 23) * pow2 (- 24))).
    + rewrite <- pow2_plus. replace (e + 23 + -24)%Z with (e + (-1))%Z by lia. rewrite pow2_plus.
      change (pow2 (-1)) with (1 # 2). lra.
    + apply Qmult_le_compat_r; [done|apply Qlt_le_weak, pow2_pos].
Qed.

Lemma roundPositive_exact m k : (0 < m < 2 ^ 24)%Z -> roundPositive (inject_Z m * pow2 k) == inject_Z m * pow2 k.
Proof.
  intros Hm. set (x := inject_Z m * pow2 k).
  assert (Hx : 0 < x).
  { unfold x. apply Qmult_lt_0_compat; [|apply pow2_pos]. change 0 with (inject_Z 0). rewrite <- Zlt_Qlt. lia. }
  destruct (exponent_spec x Hx) as [L _]. unfold roundPositive. set (e := exponent x) in *.
  assert (Hke : (e <= k)%Z).
  { destruct (Z.le_gt_cases e k) as [|Hgt]; [done|]. exfalso.
    assert (Hlt : x < pow2 (24 + k)).
    { unfold x. rewrite pow2_plus. apply Qmult_lt_r; [apply pow2_pos|]. rewrite pow2_Z by lia. rewrite <- Zlt_Qlt. lia. }
    assert (pow2 (e + 23) < pow2 (24 + k)) by (eapply Qle_lt_trans; eassumption).
    pose proof (pow2_lt_inv _ _ H). lia. }
  assert (Hint : x / pow2 e == inject_Z (m * 2 ^ (k - e))).
  { unfold x. replace k with (k - e + e)%Z at 1 by lia. rewrite pow2_plus, (pow2_Z (k - e)), inject_Z_mult by lia.
    field. apply pow2_nonzero. }
  rewrite (nearest_comp _ _ Hint), nearest_int, <- Hint. field. apply pow2_nonzero.
Qed.

#[export] Instance round32_Proper : Proper (Qeq ==> eq) round32.
Proof. intros x y H. unfold round32. by rewrite (Qred_complete _ _ H). Qed.

#[export] Instance round32_Qeq : Proper (Qeq ==> Qeq) round32.
Proof. intros x y H. by rewrite (round32_Proper _ _ H). Qed.

Lemma exponent_unique x a b :
  pow2 (a + 23) <= x -> x < pow2 (a + 24) -> pow2 (b + 23) <= x -> x < pow2 (b + 24) -> a = b.
Proof.
  intros A1 A2 B1 B2. pose proof (pow2_lt_inv _ _ (Qle_lt_trans _ _ _ A1 B2)).
  pose proof (pow2_lt_inv _ _ (Qle_lt_trans _ _ _ B1 A2)). lia.
Qed.

Lemma roundPositive_comp x y : 0 < x -> x == y -> roundPositive x == roundPositive y.
Proof.
  intros Hx H. assert (Hy : 0 < y) by (by rewrite <- H).
  destruct (exponent_spec x Hx) as [X1 X2]. destruct (exponent_spec y Hy) as [Y1 Y2].
  assert (Y1' : pow2 (exponent y + 23) <= x) by lra. assert (Y2' : x < pow2 (exponent y + 24)) by lra.
  unfold roundPositive. rewrite (exponent_unique x _ _ X1 X2 Y1' Y2').
  rewrite (nearest_comp (x / pow2 (exponent y)) (y / pow2 (exponent y))); [reflexivity|]. by rewrite H.
Qed.

Lemma round32_positive x : 0 < x -> round32 x == roundPositive x.
Proof.
  intros Hx. assert (Hr : 0 < Qred x) by (by rewrite Qred_correct). unfold round32.
  assert (Hn : (0 < Qnum (Qred x))%Z) by (unfold Qlt in Hr; cbn in Hr; lia).
  destruct (Z.eqb_spec (Qnum (Qred x)) 0); [lia|]. destruct (Z.ltb_spec 0 (Qnum (Qred x))); [|lia].
  rewrite Qred_correct. apply roundPositive_comp; [done|apply Qred_correct].
Qed.

(** Rounding moves a number by at most 2^-24 of its size. *)
Lemma round32_error x : 0 < x -> Qabs (round32 x - x) <= x * pow2 (- 24).
Proof. intros Hx. rewrite round32_positive by done. by apply roundPositive_error. Qed.

Lemma round32_zero x : x == 0 -> round32 x = 0.
Proof. intros H. unfold round32. by rewrite (Qred_complete _ _ H). Qed.

(** A number with 24 significant bits is not changed. *)
Lemma round32_exact m k : (0 <= m < 2 ^ 24)%Z -> round32 (inject_Z m * pow2 k) == inject_Z m * pow2 k.
Proof.
  intros Hm. destruct (Z.eq_dec m 0%Z) as [->|Hne].
  - rewrite round32_zero; change (inject_Z 0) with 0; ring.
  - rewrite round32_positive; [apply roundPositive_exact; lia|].
    apply Qmult_lt_0_compat; [|apply pow2_pos]. change 0 with (inject_Z 0). rewrite <- Zlt_Qlt. lia.
Qed.

(** The two sides of [round32_error], for a bound [u] that is larger than 2^-24. *)
Lemma round32_bounds x : 0 < x -> x * (1 - (1 # 16777216)) <= round32 x /\ round32 x <= x * (1 + (1 # 16777216)).
Proof.
  intros Hx. pose proof (round32_error x Hx) as H. change (pow2 (-24)) with (1 # 16777216) in H.
  apply Qabs_Qle_condition in H. lra.
Qed.

Lemma ofZ_exact z : (0 <= z < 2 ^ 24)%Z -> f32.ofZ z == inject_Z z.
Proof.
  intros Hz. unfold f32.ofZ. pose proof (round32_exact z 0 Hz) as H. change (pow2 0) with 1 in H.
  rewrite Qmult_1_r in H. done.
Qed.

#[export] Instance trunc_Proper : Proper (Qeq ==> eq) f32.trunc.
Proof. intros x y H. unfold f32.trunc. by rewrite (Qred_complete _ _ H). Qed.

Lemma trunc_floor x : 0 <= x -> f32.trunc x = Qfloor x.
Proof.
  intros Hx. unfold f32.trunc. rewrite <- (Qfloor_comp _ _ (Qred_correct x)).
  assert (Hr : 0 <= Qred x) by (by rewrite Qred_correct). destruct (Qred x) as [n d].
  unfold Qle in Hr. cbn in *. apply Z.quot_div_nonneg; lia.
Qed.

Lemma trunc_bounds x : 0 <= x -> inject_Z (f32.trunc x) <= x /\ x < inject_Z (f32.trunc x) + 1.
Proof.
  intros Hx. rewrite trunc_floor by done. split; [apply Qfloor_le|].
  pose proof (Qlt_floor x) as H. by rewrite inject_Z_plus in H.
Qed.

(** The quotient of integers that is a number with a power of two as its denominator. *)
Lemma trunc_pow2 m k : (0 <= m)%Z -> (0 <= k)%Z -> f32.trunc (inject_Z m * pow2 (- k)) = (m / 2 ^ k)%Z.
Proof.
  intros Hm Hk. assert (Hp : (0 < 2 ^ k)%Z) by (apply Z.pow_pos_nonneg; lia).
  assert (Heq : inject_Z m * pow2 (- k) == m # Z.to_pos (2 ^ k)).
  { rewrite Qmake_Qdiv. unfold pow2. rewrite Qpower_opp. rewrite Z2Pos.id by done.
    change ((2 # 1) ^ k) with (pow2 k). rewrite pow2_Z by done. reflexivity. }
  rewrite Heq, trunc_floor by (unfold Qle; cbn; lia). unfold Qfloor. by rewrite Z2Pos.id.
Qed.
