(* ===== verification/Float64.v ===== *)
(** * Double-precision arithmetic

    Go's [float64] is the binary64 format of IEEE 754, with infinities and NaN; its operations are those
    of [SpecFloat] of the Standard Library, which round to the nearest number, ties to even. *)
From Stdlib Require Import SpecFloat QArith.
From S2P Require Import Prelude Float32.

Notation float64 := spec_float.

Module f64.
Definition prec : Z := 53.
Definition emax : Z := 1024.
Definition zero : float64 := S754_zero false.

(** [float64(z)] *)
Definition ofZ (z : Z) : float64 := binary_normalize prec emax z 0 false.
(** [float64(x)] for a [float32], which is a quotient of two integers that are doubles *)
Definition of32 (x : f32.t) : float64 := SFdiv prec emax (ofZ (Qnum x)) (ofZ (Zpos (Qden x))).

Definition add : float64 -> float64 -> float64 := SFadd prec emax.
Definition sub : float64 -> float64 -> float64 := SFsub prec emax.
Definition mul : float64 -> float64 -> float64 := SFmul prec emax.
Definition div : float64 -> float64 -> float64 := SFdiv prec emax.
Definition ltb (x y : float64) : bool := SFltb x y.
Definition leb (x y : float64) : bool := SFleb x y.
Definition eqb (x y : float64) : bool := SFeqb x y.

Definition positive (x : float64) : bool := ltb zero x.

(** [d.Seconds()] of package [time] *)
Definition seconds (d : Z) : float64 :=
  add (ofZ (Z.quot d 1000000000)) (div (ofZ (Z.rem d 1000000000)) (ofZ 1000000000)).
End f64.

(** ** Signs *)

(** A number that is not above zero, or NaN. *)
Definition notPositive (x : float64) : Prop :=
  match x with
  | S754_infinity s => s = true
  | S754_finite s _ _ => s = true
  | _ => True
  end.

Lemma notPositive_spec x : notPositive x -> f64.positive x = false.
Proof. by destruct x as [[]|[]| |[] ? ?]. Qed.

Lemma round_sign prec emax s m e :
  match binary_round prec emax s m e with
  | S754_infinity s' => s' = s
  | S754_finite s' _ _ => s' = s
  | _ => True
  end.
Proof. unfold binary_round, binary_round_aux. by repeat (case_match; simplify_eq). Qed.

(** Subtracting an integer that is not negative does not make a number positive. *)
Lemma notPositive_sub x n : notPositive x -> (0 <= n)%Z -> notPositive (f64.sub x (f64.ofZ n)).
Proof.
  intros Hx Hn. assert (Hy : match f64.ofZ n with
    | S754_infinity s => s = false | S754_finite s _ _ => s = false | _ => True end).
  { unfold f64.ofZ, binary_normalize. destruct n as [|n|n]; [done| |lia]. apply round_sign. }
  unfold f64.sub, SFsub. destruct x as [sx|sx| |sx mx ex], (f64.ofZ n) as [sy|sy| |sy my ey];
    cbn in *; subst; try done; try (by repeat case_match).
  apply round_sign.
Qed.
