(* ===== verification/RttStats.v ===== *)
(** * Round-trip times

    Models [congestion/rtt_stats.go] and [congestion/bdw_stats.go].  Durations and points in time are
    in nanoseconds; the zero point in time is 0. *)
From S2P Require Import Prelude MinMax Float32.
From Stdlib Require Import QArith Qround.

Open Scope Z_scope.
Open Scope go_scope.

Definition initialRTTus : Z := 100 * 1000.
Definition rttAlpha : f32.t := 1 # 8.
Definition oneMinusAlpha : f32.t := 7 # 8.
Definition rttBeta : f32.t := 1 # 4.
Definition oneMinusBeta : f32.t := 3 # 4.
Definition halfWindow : f32.t := 1 # 2.
Definition quarterWindow : f32.t := 1 # 4.

(** [time.Microsecond] *)
Definition us : Z := 1000.

Record rttSample := mkSample { smp_rtt : Z; smp_time : Z }.

Record RTTStats := mkRTTStats {
  rs_initialRTTus : Z;
  recentMinRTTwindow : Z;
  rs_minRTT : Z;
  rs_latestRTT : Z;
  rs_smoothedRTT : Z;
  rs_meanDeviation : Z;
  numMinRTTsamplesRemaining : Z;
  newMinRTT : rttSample;
  recentMinRTT : rttSample;
  halfWindowRTT : rttSample;
  quarterWindowRTT : rttSample
}.

Definition eta_rtt (r : RTTStats) : RTTStats :=
  mkRTTStats (rs_initialRTTus r) (recentMinRTTwindow r) (rs_minRTT r) (rs_latestRTT r) (rs_smoothedRTT r)
    (rs_meanDeviation r) (numMinRTTsamplesRemaining r) (newMinRTT r) (recentMinRTT r) (halfWindowRTT r)
    (quarterWindowRTT r).
#[export] Instance set_rs_initialRTTus : Setter rs_initialRTTus := ltac:(field_setter eta_rtt).
#[export] Instance set_recentMinRTTwindow : Setter recentMinRTTwindow := ltac:(field_setter eta_rtt).
#[export] Instance set_rs_minRTT : Setter rs_minRTT := ltac:(field_setter eta_rtt).
#[export] Instance set_rs_latestRTT : Setter rs_latestRTT := ltac:(field_setter eta_rtt).
#[export] Instance set_rs_smoothedRTT : Setter rs_smoothedRTT := ltac:(field_setter eta_rtt).
#[export] Instance set_rs_meanDeviation : Setter rs_meanDeviation := ltac:(field_setter eta_rtt).
#[export] Instance set_numMinRTT : Setter numMinRTTsamplesRemaining := ltac:(field_setter eta_rtt).
#[export] Instance set_newMinRTT : Setter newMinRTT := ltac:(field_setter eta_rtt).
#[export] Instance set_recentMinRTT : Setter recentMinRTT := ltac:(field_setter eta_rtt).
#[export] Instance set_halfWindowRTT : Setter halfWindowRTT := ltac:(field_setter eta_rtt).
#[export] Instance set_quarterWindowRTT : Setter quarterWindowRTT := ltac:(field_setter eta_rtt).

Definition noSample : rttSample := mkSample 0 0.

(** [&RTTStats{}], as a path starts with *)
Definition zeroRTTStats : RTTStats := mkRTTStats 0 0 0 0 0 0 0 noSample noSample noSample noSample.

Definition NewRTTStatsWithSmoothedRTT (smoothedRTT : Z) : RTTStats :=
  zeroRTTStats <| rs_smoothedRTT := smoothedRTT |>.

Definition NewRTTStats : RTTStats :=
  zeroRTTStats <| rs_initialRTTus := initialRTTus |> <| recentMinRTTwindow := utils.InfDuration |>.

Module RTT.
(** A part of the window: [time.Duration(float32(window/time.Microsecond)*part) * time.Microsecond] *)
Definition partOf (window : Z) (part : f32.t) : Z :=
  i64 (f32.trunc (f32.mul (f32.ofZ (window ÷ us)) part) * us).

Definition updateRecentMinRTT (sample now : Z) (r : RTTStats) : RTTStats :=
  let this := mkSample sample now in
  let r :=
    if 0 <? numMinRTTsamplesRemaining r then
      let r := r <| numMinRTTsamplesRemaining := numMinRTTsamplesRemaining r - 1 |> in
      let r := if (smp_rtt (newMinRTT r) =? 0) || (sample <=? smp_rtt (newMinRTT r))
               then r <| newMinRTT := this |> else r in
      if numMinRTTsamplesRemaining r =? 0
      then r <| recentMinRTT := newMinRTT r |> <| halfWindowRTT := newMinRTT r |>
             <| quarterWindowRTT := newMinRTT r |>
      else r
    else r in
  let r :=
    if (smp_rtt (recentMinRTT r) =? 0) || (sample <=? smp_rtt (recentMinRTT r))
    then r <| recentMinRTT := this |> <| halfWindowRTT := this |> <| quarterWindowRTT := this |>
    else if sample <=? smp_rtt (halfWindowRTT r)
    then r <| halfWindowRTT := this |> <| quarterWindowRTT := this |>
    else if sample <=? smp_rtt (quarterWindowRTT r) then r <| quarterWindowRTT := this |>
    else r in
  if smp_time (recentMinRTT r) <? now - recentMinRTTwindow r
  then r <| recentMinRTT := halfWindowRTT r |> <| halfWindowRTT := quarterWindowRTT r |>
         <| quarterWindowRTT := this |>
  else if smp_time (halfWindowRTT r) <? now - partOf (recentMinRTTwindow r) halfWindow
  then r <| halfWindowRTT := quarterWindowRTT r |> <| quarterWindowRTT := this |>
  else if smp_time (quarterWindowRTT r) <? now - partOf (recentMinRTTwindow r) quarterWindow
  then r <| quarterWindowRTT := this |>
  else r.

(** The weighted sums of the two averages, in microseconds. *)
Definition smoothed (old sample : Z) : Z :=
  i64 (f32.trunc (f32.add (f32.mul (f32.ofZ (old ÷ us)) oneMinusAlpha) (f32.mul (f32.ofZ (sample ÷ us)) rttAlpha)) * us).
Definition deviation (old smoothedRTT sample : Z) : Z :=
  i64 (f32.trunc (f32.add (f32.mul oneMinusBeta (f32.ofZ (old ÷ us)))
         (f32.mul rttBeta (f32.ofZ (utils.AbsDuration (i64 (smoothedRTT - sample)) ÷ us)))) * us).

Definition UpdateRTT (sendDelta ackDelay now : Z) (r : RTTStats) : RTTStats :=
  if (sendDelta =? utils.InfDuration) || (sendDelta <=? 0) then r
  else
    let r := if (rs_minRTT r =? 0) || (sendDelta <? rs_minRTT r) then r <| rs_minRTT := sendDelta |> else r in
    let r := updateRecentMinRTT sendDelta now r in
    let sample := if ackDelay <? sendDelta then i64 (sendDelta - ackDelay) else sendDelta in
    let r := r <| rs_latestRTT := sample |> in
    if rs_smoothedRTT r =? 0
    then r <| rs_smoothedRTT := sample |> <| rs_meanDeviation := sample ÷ 2 |>
    else r <| rs_meanDeviation := deviation (rs_meanDeviation r) (rs_smoothedRTT r) sample |>
           <| rs_smoothedRTT := smoothed (rs_smoothedRTT r) sample |>.

Definition SampleNewRecentMinRTT (numSamples : Z) (r : RTTStats) : RTTStats :=
  r <| numMinRTTsamplesRemaining := numSamples |> <| newMinRTT := noSample |>.

Definition OnConnectionMigration (r : RTTStats) : RTTStats :=
  mkRTTStats initialRTTus utils.InfDuration 0 0 0 0 0 (newMinRTT r) noSample noSample noSample.

Definition ExpireSmoothedMetrics (r : RTTStats) : RTTStats :=
  let r := r <| rs_meanDeviation := utils.MaxDuration (rs_meanDeviation r)
                  (utils.AbsDuration (i64 (rs_smoothedRTT r - rs_latestRTT r))) |> in
  r <| rs_smoothedRTT := utils.MaxDuration (rs_smoothedRTT r) (rs_latestRTT r) |>.

Definition UpdateSessionRTT (smoothedRTT : Z) (r : RTTStats) : RTTStats := r <| rs_smoothedRTT := smoothedRTT |>.
Definition SetRecentMinRTTwindow (window : Z) (r : RTTStats) : RTTStats := r <| recentMinRTTwindow := window |>.
End RTT.

(** ** Bandwidth *)
Record BDWStats := mkBDWStats {
  bandwidth : Z;
  compareWindow : list Z;
  bdw_roundRobinIndex : Z
}.

Definition NewBDWStats (bandwidth : Z) : BDWStats := mkBDWStats bandwidth (replicate 10 0) 0.
Definition GetBandwidth (b : BDWStats) : Z := bandwidth b / 1048576.

(** The update is disabled: the constant [disable] is true. *)
Definition UpdateBDW (sentDelta sentDelay : Z) (b : BDWStats) : BDWStats := b.

(** [BandwidthFromDelta]: [None] is a division by zero. *)
Definition BandwidthFromDelta (bytes delta : Z) : option Z :=
  if u64 delta =? 0 then None
  else Some (u64 (u64 (bytes * 1000000000) / u64 delta * 8)).

(** ** The averages *)

(** A weighted sum of numbers below [2^(24-k)] is exact. *)
Lemma weighted_exact (w x y k : Z) (cw cx : f32.t) :
  (cw == inject_Z w * pow2 (- k))%Q -> (cx == pow2 (- k))%Q -> 0 <= k -> 0 <= w -> 0 <= x -> 0 <= y ->
  x < 2 ^ 24 -> w * x < 2 ^ 24 -> w * x + y < 2 ^ 24 ->
  f32.trunc (f32.add (f32.mul (f32.ofZ x) cw) (f32.mul (f32.ofZ y) cx)) = (w * x + y) / 2 ^ k.
Proof.
  intros Hw Hx Hk Hw0 Hx0 Hy0 Hxm Hm Hs.
  assert (E1 : (f32.mul (f32.ofZ x) cw == inject_Z (w * x) * pow2 (- k))%Q).
  { unfold f32.mul. rewrite ofZ_exact by lia. rewrite <- (round32_exact (w * x) (- k)) by lia.
    apply round32_Qeq. rewrite Hw, inject_Z_mult. ring. }
  assert (E2 : (f32.mul (f32.ofZ y) cx == inject_Z y * pow2 (- k))%Q).
  { unfold f32.mul. rewrite ofZ_exact by nia. rewrite <- (round32_exact y (- k)) by nia.
    apply round32_Qeq. rewrite Hx. ring. }
  rewrite <- trunc_pow2 by nia. apply trunc_Proper. unfold f32.add.
  rewrite <- (round32_exact (w * x + y) (- k)) by nia. apply round32_Qeq. rewrite E1, E2, inject_Z_plus. ring.
Qed.

Lemma mul_comm x y : f32.mul x y = f32.mul y x.
Proof. unfold f32.mul. apply round32_Proper. ring. Qed.

(** Below 2^21 microseconds (two seconds) the smoothed round-trip time is 7/8 of the old value and 1/8
    of the sample, rounded down to a microsecond, without any rounding error. *)
Lemma smoothed_exact a b :
  0 <= a < 2 ^ 21 * us -> 0 <= b < 2 ^ 21 * us -> RTT.smoothed a b = (7 * (a / us) + b / us) / 8 * us.
Proof.
  intros Ha Hb. unfold RTT.smoothed, us in *. rewrite !Z.quot_div_nonneg by lia.
  assert (0 <= a / 1000 < 2 ^ 21) by (split; [apply Z.div_pos; lia|apply Z.div_lt_upper_bound; lia]).
  assert (0 <= b / 1000 < 2 ^ 21) by (split; [apply Z.div_pos; lia|apply Z.div_lt_upper_bound; lia]).
  rewrite (weighted_exact 7 (a / 1000) (b / 1000) 3) by (done || lia).
  change (2 ^ 3) with 8. unfold i64.
  assert (0 <= (7 * (a / 1000) + b / 1000) / 8 < 2 ^ 21)
    by (split; [apply Z.div_pos; lia|apply Z.div_lt_upper_bound; lia]).
  rewrite Z.mod_small by lia. lia.
Qed.

Lemma deviation_exact d s x :
  0 <= d < 2 ^ 21 * us -> 0 <= s < 2 ^ 21 * us -> 0 <= x < 2 ^ 21 * us ->
  RTT.deviation d s x = (3 * (d / us) + Z.abs (s - x) / us) / 4 * us.
Proof.
  intros Hd Hs Hx. unfold RTT.deviation, us in *. rewrite (mul_comm oneMinusBeta), (mul_comm rttBeta).
  assert (Ha : utils.AbsDuration (i64 (s - x)) = Z.abs (s - x)).
  { assert (i64 (s - x) = s - x) as -> by (unfold i64; rewrite Z.mod_small; lia).
    unfold utils.AbsDuration. destruct (Z.leb_spec 0 (s - x)); [lia|].
    unfold i64. rewrite Z.mod_small; lia. }
  rewrite Ha, !Z.quot_div_nonneg by lia.
  assert (0 <= d / 1000 < 2 ^ 21) by (split; [apply Z.div_pos; lia|apply Z.div_lt_upper_bound; lia]).
  assert (0 <= Z.abs (s - x) / 1000 < 2 ^ 21) by (split; [apply Z.div_pos; lia|apply Z.div_lt_upper_bound; lia]).
  rewrite (weighted_exact 3 (d / 1000) (Z.abs (s - x) / 1000) 2) by (done || lia).
  change (2 ^ 2) with 4. unfold i64.
  assert (0 <= (3 * (d / 1000) + Z.abs (s - x) / 1000) / 4 < 2 ^ 21)
    by (split; [apply Z.div_pos; lia|apply Z.div_lt_upper_bound; lia]).
  rewrite Z.mod_small by lia. lia.
Qed.

(** ** Sequences of samples *)

(** The measured time, the acknowledgement delay and the time of the measurement. *)
Definition measurement : Type := (Z * Z * Z)%type.
Definition valid_measurement (u : measurement) : Prop :=
  let '(sendDelta, ackDelay, _) := u in 0 < sendDelta < 2 ^ 21 * us /\ 0 <= ackDelay < 2 ^ 62.
Definition sampleOf (u : measurement) : Z :=
  let '(sendDelta, ackDelay, _) := u in if ackDelay <? sendDelta then sendDelta - ackDelay else sendDelta.
Definition update (r : RTTStats) (u : measurement) : RTTStats :=
  let '(sendDelta, ackDelay, now) := u in RTT.UpdateRTT sendDelta ackDelay now r.

(** The three recent minima are in ascending order and not below [lo]. *)
Definition recent_ok (lo : Z) (r : RTTStats) : Prop :=
  numMinRTTsamplesRemaining r = 0 /\
  (smp_rtt (recentMinRTT r) = 0 \/
   lo <= smp_rtt (recentMinRTT r) <= smp_rtt (halfWindowRTT r) /\ smp_rtt (halfWindowRTT r) <= smp_rtt (quarterWindowRTT r)).

Record same_averages (r r' : RTTStats) : Prop := {
  sa_min : rs_minRTT r' = rs_minRTT r;
  sa_latest : rs_latestRTT r' = rs_latestRTT r;
  sa_smoothed : rs_smoothedRTT r' = rs_smoothedRTT r;
  sa_deviation : rs_meanDeviation r' = rs_meanDeviation r
}.

Lemma updateRecentMinRTT_ok lo sample now r :
  0 < lo -> lo <= sample -> recent_ok lo r ->
  let r' := RTT.updateRecentMinRTT sample now r in
  recent_ok lo r' /\ smp_rtt (recentMinRTT r') <> 0 /\ same_averages r r'.
Proof.
  intros Hlo Hs [Hn Hr]. unfold RTT.updateRecentMinRTT. rewrite Hn. cbn [Z.ltb Z.compare].
  set (r1 := if _ || _ then _ else _).
  assert (H1 : numMinRTTsamplesRemaining r1 = 0 /\ same_averages r r1 /\
    lo <= smp_rtt (recentMinRTT r1) <= smp_rtt (halfWindowRTT r1) /\
    smp_rtt (halfWindowRTT r1) <= smp_rtt (quarterWindowRTT r1) <= sample).
  { unfold r1. destruct (Z.eqb_spec (smp_rtt (recentMinRTT r)) 0); cbn [orb].
    - cbn. split_and!; try done; lia.
    - destruct Hr as [|[Hr1 Hr2]]; [done|].
      destruct (Z.leb_spec sample (smp_rtt (recentMinRTT r))); [cbn; split_and!; try done; lia|].
      destruct (Z.leb_spec sample (smp_rtt (halfWindowRTT r))); [cbn; split_and!; try done; lia|].
      destruct (Z.leb_spec sample (smp_rtt (quarterWindowRTT r))); cbn; split_and!; try done; lia. }
  clearbody r1. destruct H1 as (Hn1 & [A1 A2 A3 A4] & (B1 & B2) & B3 & B4).
  unfold recent_ok. repeat case_match; cbn; split_and!; try done; try lia; try (right; lia).
Qed.

(** The estimates after measurements whose samples are between [lo] and [hi] microseconds and whose
    smallest time is [least]. *)
Record estimates (lo hi least : Z) (r : RTTStats) : Prop := {
  es_min : rs_minRTT r = least;
  es_recent : recent_ok least r;
  es_smoothed : 0 <= rs_smoothedRTT r < 2 ^ 21 * us /\ lo <= rs_smoothedRTT r / us <= hi;
  es_deviation : 0 <= rs_meanDeviation r < 2 ^ 21 * us /\ rs_meanDeviation r / us <= hi
}.

Lemma div_us x hi : 0 <= x -> x / us <= hi -> 0 <= x < (hi + 1) * us.
Proof. unfold us. intros Hx Hd. pose proof (Z.mod_pos_bound x 1000). pose proof (Z.div_mod x 1000). lia. Qed.

Lemma us_div x hi : 0 <= x < (hi + 1) * us -> x / us <= hi.
Proof. unfold us. intros Hx. assert (x / 1000 < hi + 1) by (apply Z.div_lt_upper_bound; lia). lia. Qed.

Lemma smoothed_range lo hi a b :
  0 <= a < 2 ^ 21 * us -> 0 <= b < 2 ^ 21 * us -> lo <= a / us <= hi -> lo <= b / us <= hi ->
  0 <= RTT.smoothed a b < 2 ^ 21 * us /\ lo <= RTT.smoothed a b / us <= hi.
Proof.
  intros Ha Hb Hla Hlb. rewrite smoothed_exact by done. unfold us in *. rewrite Z.div_mul by lia.
  assert (0 <= a / 1000 < 2 ^ 21) by (split; [apply Z.div_pos; lia|apply Z.div_lt_upper_bound; lia]).
  assert (0 <= b / 1000 < 2 ^ 21) by (split; [apply Z.div_pos; lia|apply Z.div_lt_upper_bound; lia]).
  assert (0 <= (7 * (a / 1000) + b / 1000) / 8 < 2 ^ 21)
    by (split; [apply Z.div_pos; lia|apply Z.div_lt_upper_bound; lia]).
  split; [lia|]. split; [apply Z.div_le_lower_bound; lia|].
  assert ((7 * (a / 1000) + b / 1000) / 8 < hi + 1) by (apply Z.div_lt_upper_bound; lia). lia.
Qed.

Lemma deviation_range hi d s x :
  0 <= d < 2 ^ 21 * us -> 0 <= s < 2 ^ 21 * us -> 0 <= x < 2 ^ 21 * us ->
  d / us <= hi -> s / us <= hi -> x / us <= hi ->
  0 <= RTT.deviation d s x < 2 ^ 21 * us /\ RTT.deviation d s x / us <= hi.
Proof.
  intros Hd Hs Hx Hld Hls Hlx. rewrite deviation_exact by done.
  assert (Ha : Z.abs (s - x) / us <= hi).
  { apply us_div. pose proof (div_us s hi). pose proof (div_us x hi). lia. }
  unfold us in *. rewrite Z.div_mul by lia.
  assert (0 <= d / 1000 < 2 ^ 21) by (split; [apply Z.div_pos; lia|apply Z.div_lt_upper_bound; lia]).
  assert (0 <= Z.abs (s - x) / 1000 < 2 ^ 21) by (split; [apply Z.div_pos; lia|apply Z.div_lt_upper_bound; lia]).
  assert (0 <= (3 * (d / 1000) + Z.abs (s - x) / 1000) / 4 < 2 ^ 21)
    by (split; [apply Z.div_pos; lia|apply Z.div_lt_upper_bound; lia]).
  split; [lia|]. assert ((3 * (d / 1000) + Z.abs (s - x) / 1000) / 4 < hi + 1) by (apply Z.div_lt_upper_bound; lia). lia.
Qed.

Definition timeOf (u : measurement) : Z := u.1.1.

Lemma sampleOf_range u : valid_measurement u -> 0 < sampleOf u <= timeOf u /\ timeOf u < 2 ^ 21 * us.
Proof. destruct u as [[d a] n]. unfold valid_measurement, sampleOf, timeOf, us. cbn. intros. case_match; lia. Qed.

(** [UpdateRTT] on a valid measurement. *)
Lemma update_eq r u :
  valid_measurement u ->
  let r0 := if (rs_minRTT r =? 0) || (timeOf u <? rs_minRTT r) then r <| rs_minRTT := timeOf u |> else r in
  let r1 := RTT.updateRecentMinRTT (timeOf u) u.2 r0 in
  update r u =
  if rs_smoothedRTT r1 =? 0
  then r1 <| rs_latestRTT := sampleOf u |> <| rs_smoothedRTT := sampleOf u |> <| rs_meanDeviation := sampleOf u ÷ 2 |>
  else r1 <| rs_latestRTT := sampleOf u |>
        <| rs_meanDeviation := RTT.deviation (rs_meanDeviation r1) (rs_smoothedRTT r1) (sampleOf u) |>
        <| rs_smoothedRTT := RTT.smoothed (rs_smoothedRTT r1) (sampleOf u) |>.
Proof.
  destruct u as [[d a] n]. unfold valid_measurement, us. intros [Hd Ha]. unfold update, RTT.UpdateRTT, sampleOf, timeOf.
  cbn [fst snd]. unfold utils.InfDuration. destruct (Z.eqb_spec d (2 ^ 63 - 1)); [lia|].
  destruct (Z.leb_spec d 0); [lia|]. cbn [orb].
  assert (i64 (d - a) = d - a) as -> by (unfold i64; rewrite Z.mod_small; lia). done.
Qed.

Lemma update_averages lo hi least r u :
  estimates lo hi least r -> valid_measurement u -> lo <= sampleOf u / us <= hi -> 0 < least ->
  estimates lo hi (Z.min least (timeOf u)) (update r u) /\ rs_latestRTT (update r u) = sampleOf u /\
  smp_rtt (recentMinRTT (update r u)) <> 0 /\
  (rs_smoothedRTT r <> 0 -> rs_smoothedRTT (update r u) = (7 * (rs_smoothedRTT r / us) + sampleOf u / us) / 8 * us).
Proof.
  intros [Hmin [Hn Hrec] [Hs1 Hs2] [Hd1 Hd2]] Hv Hb Hl. rewrite update_eq by done.
  pose proof (sampleOf_range u Hv) as [Hsm Htm]. set (x := sampleOf u) in *. clearbody x.
  rewrite Hmin. destruct (Z.eqb_spec least 0); [lia|]. cbn [orb].
  set (r0 := if timeOf u <? least then _ else _).
  assert (H0 : rs_minRTT r0 = Z.min least (timeOf u) /\ recent_ok (Z.min least (timeOf u)) r0 /\
    rs_smoothedRTT r0 = rs_smoothedRTT r /\ rs_meanDeviation r0 = rs_meanDeviation r).
  { unfold r0, recent_ok. destruct (Z.ltb_spec (timeOf u) least); cbn; split_and!; try done; try lia;
      (destruct Hrec as [|Hrec]; [by left|right; lia]). }
  clearbody r0. destruct H0 as (M0 & R0 & S0 & D0).
  destruct (updateRecentMinRTT_ok (Z.min least (timeOf u)) (timeOf u) u.2 r0) as (R1 & Hne & [A1 _ A3 A4]); [lia|lia|done|].
  set (r1 := RTT.updateRecentMinRTT (timeOf u) u.2 r0) in *. clearbody r1.
  rewrite A3, S0. destruct (Z.eqb_spec (rs_smoothedRTT r) 0) as [E|E].
  - split; [|done]. split; cbn; [congruence|exact R1|lia|].
    rewrite Z.quot_div_nonneg by lia. unfold us in *.
    assert (0 <= x / 2 <= x) by (split; [apply Z.div_pos; lia|apply Z.div_le_upper_bound; lia]).
    split; [lia|]. assert (x / 2 / 1000 <= x / 1000) by (apply Z.div_le_mono; lia). lia.
  - split; [|split; [done|split; [done|]]].
    + split; cbn; [congruence|exact R1|apply smoothed_range; lia|]. rewrite A4, D0. apply deviation_range; lia.
    + intros _. cbn. by rewrite smoothed_exact by lia.
Qed.

Lemma first_estimates lo hi u :
  valid_measurement u -> lo <= sampleOf u / us <= hi ->
  estimates lo hi (timeOf u) (update zeroRTTStats u) /\ rs_latestRTT (update zeroRTTStats u) = sampleOf u /\
  smp_rtt (recentMinRTT (update zeroRTTStats u)) <> 0.
Proof.
  intros Hv Hb. rewrite update_eq by done. pose proof (sampleOf_range u Hv) as [Hsm Htm].
  set (x := sampleOf u) in *. clearbody x. cbn [rs_minRTT zeroRTTStats Z.eqb orb].
  set (r0 := zeroRTTStats <| rs_minRTT := timeOf u |>).
  destruct (updateRecentMinRTT_ok (timeOf u) (timeOf u) u.2 r0) as (R1 & Hne & [A1 _ A3 A4]); [lia|lia|by split; [|left]|].
  set (r1 := RTT.updateRecentMinRTT (timeOf u) u.2 r0) in *. clearbody r1. rewrite A3. cbn [rs_smoothedRTT r0].
  split; [|done]. split; cbn; [by rewrite A1|exact R1|lia|]. rewrite Z.quot_div_nonneg by lia. unfold us in *.
  assert (0 <= x / 2 <= x) by (split; [apply Z.div_pos; lia|apply Z.div_le_upper_bound; lia]).
  split; [lia|]. assert (x / 2 / 1000 <= x / 1000) by (apply Z.div_le_mono; lia). lia.
Qed.

Definition leastTime (ms : list measurement) (u : measurement) : Z := foldl (fun m v => Z.min m (timeOf v)) (timeOf u) ms.

Lemma leastTime_spec ms u :
  (leastTime ms u = timeOf u \/ exists v, v ∈ ms /\ leastTime ms u = timeOf v) /\
  leastTime ms u <= timeOf u /\ Forall (fun v => leastTime ms u <= timeOf v) ms.
Proof.
  induction ms as [|v ms (IH1 & IH2 & IH3)] using rev_ind; [by split; [left|split]|].
  unfold leastTime in *. rewrite foldl_app. cbn [foldl]. set (m := foldl _ _ ms) in *. split; [|split].
  - destruct (Z.min_spec m (timeOf v)) as [[_ ->]|[_ ->]].
    + destruct IH1 as [|(w & ? & ?)]; [by left|right]. exists w. split; [set_solver|done].
    + right. exists v. split; [set_solver|done].
  - lia.
  - apply Forall_app_2; [|repeat constructor; lia]. eapply Forall_impl; [exact IH3|]. cbn. intros. lia.
Qed.

Lemma estimates_run lo hi u ms :
  Forall valid_measurement (u :: ms) -> Forall (fun v => lo <= sampleOf v / us <= hi) (u :: ms) ->
  let r := foldl update zeroRTTStats (u :: ms) in
  estimates lo hi (leastTime ms u) r /\ rs_latestRTT r = sampleOf (List.last ms u) /\ smp_rtt (recentMinRTT r) <> 0.
Proof.
  intros Hv Hb. apply Forall_cons in Hv as [Hu Hv]. apply Forall_cons in Hb as [Hbu Hb].
  induction ms as [|v ms IH] using rev_ind; [by apply first_estimates|].
  apply Forall_app in Hv as [Hv [Hvv _]%Forall_cons]. apply Forall_app in Hb as [Hb [Hbv _]%Forall_cons].
  destruct (IH Hv Hb) as (He & _ & _). cbn [foldl] in *. rewrite foldl_app. cbn [foldl].
  assert (Hpos : 0 < leastTime ms u).
  { destruct (leastTime_spec ms u) as [[->|(w & Hw & ->)] _].
    - destruct (sampleOf_range u Hu). lia.
    - rewrite Forall_forall in Hv. destruct (sampleOf_range w (Hv w Hw)). lia. }
  destruct (update_averages lo hi _ _ v He Hvv Hbv Hpos) as (He' & Hl & Hn & _).
  unfold leastTime in *. rewrite foldl_app. cbn [foldl]. rewrite List.last_last. done.
Qed.

(** C36: After any non-empty run of [UpdateRTT] with positive round trips below 2^21
    microseconds (two seconds), computed in single precision as the code does, [minRTT] is the
    smallest round trip measured; [latestRTT] is the last one less its ack
    delay; the smoothed round trip, in whole microseconds, lies between any
    bounds the corrected samples obey, and the deviation is at most the upper
    one; the three recent minima are present, ordered, and no lower than the
    overall minimum.  Each further sample moves a non-zero average to exactly
    (7 old + new) / 8 in integer microseconds. *)
Theorem rtt_estimates lo hi u ms
  (Hv : Forall valid_measurement (u :: ms)) (Hb : Forall (fun v => lo <= sampleOf v / us <= hi) (u :: ms)) :
  let r := foldl update zeroRTTStats (u :: ms) in
  ((exists v, v ∈ u :: ms /\ rs_minRTT r = timeOf v) /\ Forall (fun v => rs_minRTT r <= timeOf v) (u :: ms)) /\
  rs_latestRTT r = sampleOf (List.last ms u) /\
  lo <= rs_smoothedRTT r / us <= hi /\ 0 <= rs_meanDeviation r / us <= hi /\
  rs_minRTT r <= smp_rtt (recentMinRTT r) <= smp_rtt (halfWindowRTT r) /\
  smp_rtt (halfWindowRTT r) <= smp_rtt (quarterWindowRTT r) /\
  forall v, valid_measurement v -> lo <= sampleOf v / us <= hi -> rs_smoothedRTT r <> 0 ->
    rs_smoothedRTT (update r v) = (7 * (rs_smoothedRTT r / us) + sampleOf v / us) / 8 * us.
Proof.
  destruct (estimates_run lo hi u ms Hv Hb) as (He & Hl & Hn). intros r. fold r in He, Hl, Hn.
  destruct (leastTime_spec ms u) as (H1 & H2 & H3). pose proof He as [Hmin [_ Hrec] Hs Hd]. rewrite Hmin.
  split; [split|]; [| |split; [done|split; [|split; [|split; [|split]]]]].
  - destruct H1 as [H1|(v & ? & H1)]; [exists u|exists v]; (split; [set_solver|done]).
  - by constructor.
  - lia.
  - split; [apply Z.div_pos; unfold us; lia|lia].
  - destruct Hrec as [|]; [done|lia].
  - destruct Hrec as [|]; [done|lia].
  - intros v Hvv Hbv Hnz. refine (proj2 (proj2 (proj2 (update_averages lo hi _ r v He Hvv Hbv _))) Hnz).
    apply Forall_cons in Hv as [Hu Hv]. destruct H1 as [->|(w & Hw & ->)].
    + destruct (sampleOf_range u Hu). lia.
    + rewrite Forall_forall in Hv. destruct (sampleOf_range w (Hv w Hw)). lia.
Qed.

(** Three round trips of 100, 80 and 120 ms, the last with 5 ms of ack delay. *)
Lemma rtt_estimates_witness :
  let ms := [((80 * 1000000, 0), 2); ((120 * 1000000, 5 * 1000000), 3)] in
  let r := foldl update zeroRTTStats (((100 * 1000000, 0), 1) :: ms) in
  rs_minRTT r = 80 * 1000000 /\ 80000 <= rs_smoothedRTT r / us <= 115000 /\ rs_smoothedRTT r = 99687000.
Proof.
  intros ms r.
  destruct (rtt_estimates 80000 115000 ((100 * 1000000, 0), 1) ms) as (_ & _ & H & _);
    [repeat constructor; cbn; lia|repeat constructor; vm_compute; congruence|].
  split; [vm_compute; reflexivity|]. split; [exact H|vm_compute; reflexivity].
Defined.
