(* ===== verification/Congestion.v ===== *)
(** * Cubic congestion control

    Models [congestion/hybrid_slow_start.go], [congestion/prr_sender.go], [congestion/cubic.go],
    [congestion/cubic_sender.go] and [congestion/stats.go].  Windows are in packets, durations and
    points in time in nanoseconds, the zero point in time is 0.  The clock a [Cubic] holds is the
    argument [now] of the operations that read it (each reads it once at most), the round-trip times
    it shares with the path are the argument [rtt]. *)
From S2P Require Import Prelude MinMax Float32 RttStats.
From Stdlib Require Import QArith Qround Lqa.

Open Scope Z_scope.
Open Scope go_scope.

Definition DefaultTCPMSS : Z := 1460.

(** ** Hybrid slow start *)
Definition hybridStartLowWindow : Z := 16.
Definition hybridStartMinSamples : Z := 8.
Definition hybridStartDelayFactorExp : Z := 3.
Definition hybridStartDelayMinThresholdUs : Z := 4000.
Definition hybridStartDelayMaxThresholdUs : Z := 16000.

Record HybridSlowStart := mkHybridSlowStart {
  endPacketNumber : Z;
  hs_lastSentPacketNumber : Z;
  started : bool;
  currentMinRTT : Z;
  rttSampleCount : Z;
  hystartFound : bool
}.

Definition eta_hybrid (s : HybridSlowStart) : HybridSlowStart :=
  mkHybridSlowStart (endPacketNumber s) (hs_lastSentPacketNumber s) (started s) (currentMinRTT s)
    (rttSampleCount s) (hystartFound s).
#[export] Instance set_endPacketNumber : Setter endPacketNumber := ltac:(field_setter eta_hybrid).
#[export] Instance set_hs_lastSent : Setter hs_lastSentPacketNumber := ltac:(field_setter eta_hybrid).
#[export] Instance set_started : Setter started := ltac:(field_setter eta_hybrid).
#[export] Instance set_currentMinRTT : Setter currentMinRTT := ltac:(field_setter eta_hybrid).
#[export] Instance set_rttSampleCount : Setter rttSampleCount := ltac:(field_setter eta_hybrid).
#[export] Instance set_hystartFound : Setter hystartFound := ltac:(field_setter eta_hybrid).

Definition zeroHybridSlowStart : HybridSlowStart := mkHybridSlowStart 0 0 false 0 0 false.

Module Hybrid.
Definition StartReceiveRound (lastSent : Z) (s : HybridSlowStart) : HybridSlowStart :=
  s <| endPacketNumber := lastSent |> <| currentMinRTT := 0 |> <| rttSampleCount := 0 |> <| started := true |>.

Definition IsEndOfRound (ack : Z) (s : HybridSlowStart) : bool := endPacketNumber s <? ack.

(** The increase of the round trip, in nanoseconds, that ends slow start. *)
Definition increaseThreshold (minRTT : Z) : Z :=
  let thresholdUs := Z.shiftr (minRTT ÷ us) hybridStartDelayFactorExp in
  let thresholdUs := utils.MinInt64 thresholdUs hybridStartDelayMaxThresholdUs in
  utils.MaxInt64 thresholdUs hybridStartDelayMinThresholdUs * us.

Definition ShouldExitSlowStart (latestRTT minRTT congestionWindow : Z) (s : HybridSlowStart)
    : HybridSlowStart * bool :=
  let s := if started s then s else StartReceiveRound (hs_lastSentPacketNumber s) s in
  if hystartFound s then (s, true)
  else
    let s := s <| rttSampleCount := u32 (rttSampleCount s + 1) |> in
    let s :=
      if rttSampleCount s <=? hybridStartMinSamples then
        if (currentMinRTT s =? 0) || (latestRTT <? currentMinRTT s)
        then s <| currentMinRTT := latestRTT |> else s
      else s in
    let s :=
      if rttSampleCount s =? hybridStartMinSamples then
        if i64 (minRTT + increaseThreshold minRTT) <? currentMinRTT s
        then s <| hystartFound := true |> else s
      else s in
    (s, (hybridStartLowWindow <=? congestionWindow) && hystartFound s).

Definition OnPacketSent (packetNumber : Z) (s : HybridSlowStart) : HybridSlowStart :=
  s <| hs_lastSentPacketNumber := packetNumber |>.

Definition OnPacketAcked (ackedPacketNumber : Z) (s : HybridSlowStart) : HybridSlowStart :=
  if IsEndOfRound ackedPacketNumber s then s <| started := false |> else s.

Definition Restart (s : HybridSlowStart) : HybridSlowStart :=
  s <| started := false |> <| hystartFound := false |>.
End Hybrid.

(** ** Proportional rate reduction *)
Record PrrSender := mkPrrSender {
  bytesSentSinceLoss : Z;
  bytesDeliveredSinceLoss : Z;
  ackCountSinceLoss : Z;
  bytesInFlightBeforeLoss : Z
}.

Definition zeroPrrSender : PrrSender := mkPrrSender 0 0 0 0.

Module Prr.
Definition OnPacketSent (sentBytes : Z) (p : PrrSender) : PrrSender :=
  mkPrrSender (bytesSentSinceLoss p +64 sentBytes) (bytesDeliveredSinceLoss p) (ackCountSinceLoss p)
    (bytesInFlightBeforeLoss p).

Definition OnPacketLost (bytesInFlight : Z) (p : PrrSender) : PrrSender := mkPrrSender 0 0 0 bytesInFlight.

Definition OnPacketAcked (ackedBytes : Z) (p : PrrSender) : PrrSender :=
  mkPrrSender (bytesSentSinceLoss p) (bytesDeliveredSinceLoss p +64 ackedBytes) (ackCountSinceLoss p +64 1)
    (bytesInFlightBeforeLoss p).

Definition TimeUntilSend (congestionWindow bytesInFlight slowstartThreshold : Z) (p : PrrSender) : Z :=
  if (bytesSentSinceLoss p =? 0) || (bytesInFlight <? DefaultTCPMSS) then 0
  else if bytesInFlight <? congestionWindow then
    if bytesDeliveredSinceLoss p +64 (ackCountSinceLoss p *64 DefaultTCPMSS) <=? bytesSentSinceLoss p
    then utils.InfDuration else 0
  else if bytesSentSinceLoss p *64 bytesInFlightBeforeLoss p <? bytesDeliveredSinceLoss p *64 slowstartThreshold
  then 0 else utils.InfDuration.
End Prr.

(** ** Cubic *)
Definition cubeScale : Z := 40.
Definition cubeCongestionWindowScale : Z := 410.
Definition cubeFactor : Z := Z.shiftl 1 cubeScale / cubeCongestionWindowScale.
Definition defaultNumConnections : Z := 2.
Definition beta : f32.t := round32 (7 # 10).
Definition betaLastMax : f32.t := round32 (85 # 100).
Definition shiftQuicCubicEpochWhenAppLimited : bool := true.
Definition maxCubicTimeInterval : Z := 30 * 1000000.

Record Cubic := mkCubic {
  cu_numConnections : Z;
  epoch : Z;
  appLimitedStartTime : Z;
  lastUpdateTime : Z;
  lastCongestionWindow : Z;
  lastMaxCongestionWindow : Z;
  ackedPacketsCount : Z;
  estimatedTCPcongestionWindow : Z;
  originPointCongestionWindow : Z;
  timeToOriginPoint : Z;
  lastTargetCongestionWindow : Z
}.

Definition eta_cubic (c : Cubic) : Cubic :=
  mkCubic (cu_numConnections c) (epoch c) (appLimitedStartTime c) (lastUpdateTime c) (lastCongestionWindow c)
    (lastMaxCongestionWindow c) (ackedPacketsCount c) (estimatedTCPcongestionWindow c)
    (originPointCongestionWindow c) (timeToOriginPoint c) (lastTargetCongestionWindow c).
#[export] Instance set_cu_numConnections : Setter cu_numConnections := ltac:(field_setter eta_cubic).
#[export] Instance set_epoch : Setter epoch := ltac:(field_setter eta_cubic).
#[export] Instance set_appLimited : Setter appLimitedStartTime := ltac:(field_setter eta_cubic).
#[export] Instance set_lastUpdateTime : Setter lastUpdateTime := ltac:(field_setter eta_cubic).
#[export] Instance set_lastCongestionWindow : Setter lastCongestionWindow := ltac:(field_setter eta_cubic).
#[export] Instance set_lastMax : Setter lastMaxCongestionWindow := ltac:(field_setter eta_cubic).
#[export] Instance set_ackedPacketsCount : Setter ackedPacketsCount := ltac:(field_setter eta_cubic).
#[export] Instance set_estimated : Setter estimatedTCPcongestionWindow := ltac:(field_setter eta_cubic).
#[export] Instance set_originPoint : Setter originPointCongestionWindow := ltac:(field_setter eta_cubic).
#[export] Instance set_timeToOriginPoint : Setter timeToOriginPoint := ltac:(field_setter eta_cubic).
#[export] Instance set_lastTarget : Setter lastTargetCongestionWindow := ltac:(field_setter eta_cubic).

(** [uint64(math.Cbrt(float64(x)))]: the cube root rounded down.  The conversion is exact below 2^53;
    there [math.Cbrt], which is within 0.667 units of the last place and exact for cubes, has the same
    integer part as the real cube root. *)
Fixpoint cbrtBits (bits : nat) (x root : Z) : Z :=
  match bits with
  | O => root
  | S n =>
      let next := root + 2 ^ Z.of_nat n in
      cbrtBits n x (if next ^ 3 <=? x then next else root)
  end.
Definition Cbrt (x : Z) : Z := cbrtBits 22 x 0.
Arguments Cbrt : simpl never.

Module CubicAlg.
Definition Reset (c : Cubic) : Cubic := mkCubic (cu_numConnections c) 0 0 0 0 0 0 0 0 0 0.

Definition NewCubic : Cubic := Reset (mkCubic defaultNumConnections 0 0 0 0 0 0 0 0 0 0).

(** The method [beta] *)
Definition backoff (c : Cubic) : f32.t :=
  let n := f32.ofZ (cu_numConnections c) in
  f32.div (f32.add (f32.sub n (f32.ofZ 1)) beta) n.

Definition alpha (c : Cubic) : f32.t :=
  let b := backoff c in
  let n := f32.ofZ (cu_numConnections c) in
  f32.div (f32.mul (f32.mul (f32.mul (f32.ofZ 3) n) n) (f32.sub (f32.ofZ 1) b)) (f32.add (f32.ofZ 1) b).

Definition OnApplicationLimited (now : Z) (c : Cubic) : Cubic :=
  if shiftQuicCubicEpochWhenAppLimited then
    if appLimitedStartTime c =? 0 then c <| appLimitedStartTime := now |> else c
  else c <| epoch := 0 |>.

Definition CongestionWindowAfterPacketLoss (currentCongestionWindow : Z) (c : Cubic) : Cubic * Z :=
  let c :=
    if currentCongestionWindow <? lastMaxCongestionWindow c
    then c <| lastMaxCongestionWindow := u64 (f32.trunc (f32.mul betaLastMax (f32.ofZ currentCongestionWindow))) |>
    else c <| lastMaxCongestionWindow := currentCongestionWindow |> in
  let c := c <| epoch := 0 |> in
  (c, u64 (f32.trunc (f32.mul (f32.ofZ currentCongestionWindow) (backoff c)))).

(** The branch on [c.epoch.IsZero()] *)
Definition startOrShiftEpoch (currentCongestionWindow currentTime : Z) (c : Cubic) : Cubic :=
  if epoch c =? 0 then
    let c := c <| epoch := currentTime |> <| ackedPacketsCount := 1 |>
               <| estimatedTCPcongestionWindow := currentCongestionWindow |> in
    if lastMaxCongestionWindow c <=? currentCongestionWindow
    then c <| timeToOriginPoint := 0 |> <| originPointCongestionWindow := currentCongestionWindow |>
    else c <| timeToOriginPoint :=
                u32 (Cbrt (cubeFactor *64 (lastMaxCongestionWindow c -64 currentCongestionWindow))) |>
           <| originPointCongestionWindow := lastMaxCongestionWindow c |>
  else if shiftQuicCubicEpochWhenAppLimited && negb (appLimitedStartTime c =? 0) then
    let shift := TimeSub currentTime (appLimitedStartTime c) in
    c <| epoch := epoch c + shift |> <| appLimitedStartTime := 0 |>
  else c.

(** The window of the cubic function. *)
Definition cubicTarget (currentTime delayMin : Z) (c : Cubic) : Z :=
  let elapsedTime := i64 (Z.shiftl (TimeSub (currentTime + delayMin) (epoch c) ÷ us) 10) ÷ 1000000 in
  let offset := i64 (timeToOriginPoint c - elapsedTime) in
  let offset := if offset <? 0 then i64 (- offset) else offset in
  let deltaCongestionWindow :=
    u64 (Z.shiftr (i64 (cubeCongestionWindowScale * offset * offset * offset)) cubeScale) in
  if timeToOriginPoint c <? elapsedTime
  then originPointCongestionWindow c +64 deltaCongestionWindow
  else originPointCongestionWindow c -64 deltaCongestionWindow.

Definition requiredAckCount (c : Cubic) : Z :=
  u64 (f32.trunc (f32.div (f32.ofZ (estimatedTCPcongestionWindow c)) (alpha c))).

(** The loop that grows the window of the emulated TCP connections *)
Fixpoint growEstimate (fuel : nat) (c : Cubic) : Cubic :=
  match fuel with
  | O => c
  | S fuel =>
      if ackedPacketsCount c <? requiredAckCount c then c
      else growEstimate fuel
             (c <| ackedPacketsCount := ackedPacketsCount c -64 requiredAckCount c |>
                <| estimatedTCPcongestionWindow := estimatedTCPcongestionWindow c +64 1 |>)
  end.

(** Iterations of the loop: at most one for each packet counted, and as many as there are connections
    while one acknowledgement is worth more than a packet ([growEstimate_exits]). *)
Definition growFuel (c : Cubic) : nat := S (Z.to_nat (ackedPacketsCount c) + Z.to_nat (cu_numConnections c)).

Definition CongestionWindowAfterAck (now currentCongestionWindow delayMin : Z) (c : Cubic) : Cubic * Z :=
  let c := c <| ackedPacketsCount := ackedPacketsCount c +64 1 |> in
  if (lastCongestionWindow c =? currentCongestionWindow) && (TimeSub now (lastUpdateTime c) <=? maxCubicTimeInterval)
  then (c, utils.MaxPacketNumber (lastTargetCongestionWindow c) (estimatedTCPcongestionWindow c))
  else
    let c := c <| lastCongestionWindow := currentCongestionWindow |> <| lastUpdateTime := now |> in
    let c := startOrShiftEpoch currentCongestionWindow now c in
    let targetCongestionWindow := cubicTarget now delayMin c in
    let c := growEstimate (growFuel c) c in
    let c := c <| lastTargetCongestionWindow := targetCongestionWindow |> in
    (c, if targetCongestionWindow <? estimatedTCPcongestionWindow c
        then estimatedTCPcongestionWindow c else targetCongestionWindow).

Definition SetNumConnections (n : Z) (c : Cubic) : Cubic := c <| cu_numConnections := n |>.
End CubicAlg.

(** ** The sender *)
Record connectionStats := mkConnectionStats { slowstartPacketsLost : Z; slowstartBytesLost : Z }.

Definition maxBurstBytes : Z := 3 * DefaultTCPMSS.
Definition defaultMinimumCongestionWindow : Z := 2.
Definition renoBeta : f32.t := round32 (7 # 10).

Record cubicSender := mkCubicSender {
  hybridSlowStart : HybridSlowStart;
  prr : PrrSender;
  cs_stats : connectionStats;
  cubic : Cubic;
  reno : bool;
  largestSentPacketNumber : Z;
  largestAckedPacketNumber : Z;
  largestSentAtLastCutback : Z;
  congestionWindow : Z;
  slowstartThreshold : Z;
  lastCutbackExitedSlowstart : bool;
  slowStartLargeReduction : bool;
  minCongestionWindow : Z;
  maxTCPCongestionWindow : Z;
  numConnections : Z;
  congestionWindowCount : Z;
  initialCongestionWindow : Z;
  initialMaxCongestionWindow : Z
}.

Definition eta_sender (c : cubicSender) : cubicSender :=
  mkCubicSender (hybridSlowStart c) (prr c) (cs_stats c) (cubic c) (reno c) (largestSentPacketNumber c)
    (largestAckedPacketNumber c) (largestSentAtLastCutback c) (congestionWindow c) (slowstartThreshold c)
    (lastCutbackExitedSlowstart c) (slowStartLargeReduction c) (minCongestionWindow c)
    (maxTCPCongestionWindow c) (numConnections c) (congestionWindowCount c) (initialCongestionWindow c)
    (initialMaxCongestionWindow c).
#[export] Instance set_hybridSlowStart : Setter hybridSlowStart := ltac:(field_setter eta_sender).
#[export] Instance set_prr : Setter prr := ltac:(field_setter eta_sender).
#[export] Instance set_cs_stats : Setter cs_stats := ltac:(field_setter eta_sender).
#[export] Instance set_cubic : Setter cubic := ltac:(field_setter eta_sender).
#[export] Instance set_largestSent : Setter largestSentPacketNumber := ltac:(field_setter eta_sender).
#[export] Instance set_largestAcked : Setter largestAckedPacketNumber := ltac:(field_setter eta_sender).
#[export] Instance set_atLastCutback : Setter largestSentAtLastCutback := ltac:(field_setter eta_sender).
#[export] Instance set_congestionWindow : Setter congestionWindow := ltac:(field_setter eta_sender).
#[export] Instance set_threshold : Setter slowstartThreshold := ltac:(field_setter eta_sender).
#[export] Instance set_exitedSlowstart : Setter lastCutbackExitedSlowstart := ltac:(field_setter eta_sender).
#[export] Instance set_largeReduction : Setter slowStartLargeReduction := ltac:(field_setter eta_sender).
#[export] Instance set_maxTCP : Setter maxTCPCongestionWindow := ltac:(field_setter eta_sender).
#[export] Instance set_numConnections : Setter numConnections := ltac:(field_setter eta_sender).
#[export] Instance set_windowCount : Setter congestionWindowCount := ltac:(field_setter eta_sender).

Definition NewCubicSender (reno : bool) (initialCongestionWindow initialMaxCongestionWindow : Z) : cubicSender :=
  mkCubicSender zeroHybridSlowStart zeroPrrSender (mkConnectionStats 0 0) CubicAlg.NewCubic reno 0 0 0
    initialCongestionWindow initialMaxCongestionWindow false false defaultMinimumCongestionWindow
    initialMaxCongestionWindow defaultNumConnections 0 initialCongestionWindow initialMaxCongestionWindow.

Module Sender.
Definition InRecovery (c : cubicSender) : bool :=
  (largestAckedPacketNumber c <=? largestSentAtLastCutback c) && negb (largestAckedPacketNumber c =? 0).

Definition GetCongestionWindow (c : cubicSender) : Z := congestionWindow c *64 DefaultTCPMSS.
Definition GetSlowStartThreshold (c : cubicSender) : Z := slowstartThreshold c *64 DefaultTCPMSS.
Definition InSlowStart (c : cubicSender) : bool := GetCongestionWindow c <? GetSlowStartThreshold c.

Definition TimeUntilSend (bytesInFlight : Z) (c : cubicSender) : Z :=
  if InRecovery c
  then Prr.TimeUntilSend (GetCongestionWindow c) bytesInFlight (GetSlowStartThreshold c) (prr c)
  else if bytesInFlight <? GetCongestionWindow c then 0 else utils.InfDuration.

(** The result is whether the bytes in flight changed. *)
Definition OnPacketSent (packetNumber bytes : Z) (isRetransmittable : bool) (c : cubicSender) : cubicSender * bool :=
  if negb isRetransmittable then (c, false)
  else
    let c := if InRecovery c then c <| prr := Prr.OnPacketSent bytes (prr c) |> else c in
    let c := c <| largestSentPacketNumber := packetNumber |> in
    (c <| hybridSlowStart := Hybrid.OnPacketSent packetNumber (hybridSlowStart c) |>, true).

Definition ExitSlowstart (c : cubicSender) : cubicSender := c <| slowstartThreshold := congestionWindow c |>.

Definition MaybeExitSlowStart (rtt : RTTStats) (c : cubicSender) : cubicSender :=
  if InSlowStart c then
    let '(h, exit) := Hybrid.ShouldExitSlowStart (rs_latestRTT rtt) (rs_minRTT rtt)
                        (GetCongestionWindow c / DefaultTCPMSS) (hybridSlowStart c) in
    let c := c <| hybridSlowStart := h |> in
    if exit then ExitSlowstart c else c
  else c.

Definition isCwndLimited (bytesInFlight : Z) (c : cubicSender) : bool :=
  let congestionWindow := GetCongestionWindow c in
  if congestionWindow <=? bytesInFlight then true
  else
    let availableBytes := congestionWindow -64 bytesInFlight in
    let slowStartLimited := InSlowStart c && (congestionWindow / 2 <? bytesInFlight) in
    slowStartLimited || (availableBytes <=? maxBurstBytes).

Definition maybeIncreaseCwnd (now : Z) (rtt : RTTStats) (bytesInFlight : Z) (c : cubicSender) : cubicSender :=
  if negb (isCwndLimited bytesInFlight c) then c <| cubic := CubicAlg.OnApplicationLimited now (cubic c) |>
  else if maxTCPCongestionWindow c <=? congestionWindow c then c
  else if InSlowStart c then c <| congestionWindow := congestionWindow c +64 1 |>
  else if reno c then
    let c := c <| congestionWindowCount := congestionWindowCount c +64 1 |> in
    if congestionWindow c <=? congestionWindowCount c *64 numConnections c
    then c <| congestionWindow := congestionWindow c +64 1 |> <| congestionWindowCount := 0 |>
    else c
  else
    let '(cu, window) := CubicAlg.CongestionWindowAfterAck now (congestionWindow c) (rs_minRTT rtt) (cubic c) in
    c <| cubic := cu |> <| congestionWindow := utils.MinPacketNumber (maxTCPCongestionWindow c) window |>.

Definition OnPacketAcked (now : Z) (rtt : RTTStats) (ackedPacketNumber ackedBytes bytesInFlight : Z)
    (c : cubicSender) : cubicSender :=
  let c := c <| largestAckedPacketNumber :=
                  utils.MaxPacketNumber ackedPacketNumber (largestAckedPacketNumber c) |> in
  if InRecovery c then c <| prr := Prr.OnPacketAcked ackedBytes (prr c) |>
  else
    let c := maybeIncreaseCwnd now rtt bytesInFlight c in
    if InSlowStart c
    then c <| hybridSlowStart := Hybrid.OnPacketAcked ackedPacketNumber (hybridSlowStart c) |>
    else c.

Definition RenoBeta (c : cubicSender) : f32.t :=
  let n := f32.ofZ (numConnections c) in
  f32.div (f32.add (f32.sub n (f32.ofZ 1)) renoBeta) n.

(** A packet sent before the last reduction is lost too: counted, and with the large reduction of slow
    start the window shrinks by one for every full packet. *)
Definition lostAgain (lostBytes : Z) (c : cubicSender) : cubicSender :=
  if lastCutbackExitedSlowstart c then
    let bytesLost := slowstartBytesLost (cs_stats c) +64 lostBytes in
    let packetsLost := slowstartPacketsLost (cs_stats c) +64 1 in
    let c := c <| cs_stats := mkConnectionStats packetsLost bytesLost |> in
    if slowStartLargeReduction c then
      let c :=
        if (packetsLost =? 1) || ((bytesLost -64 lostBytes) / DefaultTCPMSS <? bytesLost / DefaultTCPMSS)
        then c <| congestionWindow := utils.MaxPacketNumber (congestionWindow c -64 1) (minCongestionWindow c) |>
        else c in
      c <| slowstartThreshold := congestionWindow c |>
    else c
  else c.

(** The reduced window, before the minimum is enforced. *)
Definition reduceWindow (c : cubicSender) : cubicSender :=
  if slowStartLargeReduction c && InSlowStart c then c <| congestionWindow := congestionWindow c -64 1 |>
  else if reno c
  then c <| congestionWindow := u64 (f32.trunc (f32.mul (f32.ofZ (congestionWindow c)) (RenoBeta c))) |>
  else
    let '(cu, window) := CubicAlg.CongestionWindowAfterPacketLoss (congestionWindow c) (cubic c) in
    c <| cubic := cu |> <| congestionWindow := window |>.

Definition OnPacketLost (packetNumber lostBytes bytesInFlight : Z) (c : cubicSender) : cubicSender :=
  if packetNumber <=? largestSentAtLastCutback c then lostAgain lostBytes c
  else
    let c := c <| lastCutbackExitedSlowstart := InSlowStart c |> in
    let c :=
      if InSlowStart c
      then c <| cs_stats := mkConnectionStats (slowstartPacketsLost (cs_stats c) +64 1)
                              (slowstartBytesLost (cs_stats c)) |>
      else c in
    let c := c <| prr := Prr.OnPacketLost bytesInFlight (prr c) |> in
    let c := reduceWindow c in
    let c :=
      if congestionWindow c <? minCongestionWindow c
      then c <| congestionWindow := minCongestionWindow c |> else c in
    c <| slowstartThreshold := congestionWindow c |>
      <| largestSentAtLastCutback := largestSentPacketNumber c |>
      <| congestionWindowCount := 0 |>.

(** [None] is a division by zero. *)
Definition BandwidthEstimate (rtt : RTTStats) (c : cubicSender) : option Z :=
  let srtt := rs_smoothedRTT rtt in
  if srtt =? 0 then Some 0 else BandwidthFromDelta (GetCongestionWindow c) srtt.

Definition SetNumEmulatedConnections (n : Z) (c : cubicSender) : cubicSender :=
  let c := c <| numConnections := utils.Max n 1 |> in
  c <| cubic := CubicAlg.SetNumConnections (numConnections c) (cubic c) |>.

Definition OnRetransmissionTimeout (packetsRetransmitted : bool) (c : cubicSender) : cubicSender :=
  let c := c <| largestSentAtLastCutback := 0 |> in
  if negb packetsRetransmitted then c
  else
    c <| hybridSlowStart := Hybrid.Restart (hybridSlowStart c) |>
      <| cubic := CubicAlg.Reset (cubic c) |>
      <| slowstartThreshold := congestionWindow c / 2 |>
      <| congestionWindow := minCongestionWindow c |>.

Definition OnConnectionMigration (c : cubicSender) : cubicSender :=
  mkCubicSender (Hybrid.Restart (hybridSlowStart c)) zeroPrrSender (cs_stats c) (CubicAlg.Reset (cubic c)) (reno c)
    0 0 0 (initialCongestionWindow c) (initialMaxCongestionWindow c) false (slowStartLargeReduction c)
    (minCongestionWindow c) (initialMaxCongestionWindow c) (numConnections c) 0 (initialCongestionWindow c)
    (initialMaxCongestionWindow c).

Definition SetSlowStartLargeReduction (enabled : bool) (c : cubicSender) : cubicSender :=
  c <| slowStartLargeReduction := enabled |>.

(** [RetransmissionDelay], the same for both senders *)
Definition RetransmissionDelay (rtt : RTTStats) : Z :=
  if rs_smoothedRTT rtt =? 0 then 0
  else i64 (rs_smoothedRTT rtt + i64 (rs_meanDeviation rtt * 4)).
End Sender.

(** ** The cube root *)
Lemma cube_mono a b : 0 <= a <= b -> a ^ 3 <= b ^ 3.
Proof. intros. apply Z.pow_le_mono_l. lia. Qed.

Lemma cbrtBits_spec bits : forall x root,
  0 <= root -> root ^ 3 <= x < (root + 2 ^ Z.of_nat bits) ^ 3 ->
  let r := cbrtBits bits x root in root <= r /\ r ^ 3 <= x < (r + 1) ^ 3.
Proof.
  induction bits as [|n IH]; intros x root Hr [H1 H2]; cbn [cbrtBits].
  - change (2 ^ Z.of_nat 0) with 1 in H2. lia.
  - rewrite Nat2Z.inj_succ, Z.pow_succ_r in H2 by lia.
    assert (0 < 2 ^ Z.of_nat n) by (apply Z.pow_pos_nonneg; lia).
    destruct (Z.leb_spec ((root + 2 ^ Z.of_nat n) ^ 3) x) as [Hle|Hlt].
    + destruct (IH x (root + 2 ^ Z.of_nat n)) as [Hm Hs]; [lia|split; [done|]|split; [lia|exact Hs]].
      by replace (root + 2 ^ Z.of_nat n + 2 ^ Z.of_nat n) with (root + 2 * 2 ^ Z.of_nat n) by lia.
    + by apply IH.
Qed.

Lemma Cbrt_spec x : 0 <= x < 2 ^ 66 -> 0 <= Cbrt x /\ Cbrt x ^ 3 <= x < (Cbrt x + 1) ^ 3.
Proof. intros Hx. apply (cbrtBits_spec 22 x 0); [lia|]. change ((0 + 2 ^ Z.of_nat 22) ^ 3) with (2 ^ 66). lia. Qed.

(** ** The factors, for up to a hundred emulated connections *)
Definition maxConnections : Z := 100.

Lemma backoff_num c c' : cu_numConnections c = cu_numConnections c' -> CubicAlg.backoff c = CubicAlg.backoff c'.
Proof. unfold CubicAlg.backoff. by intros ->. Qed.

Lemma alpha_num c c' : cu_numConnections c = cu_numConnections c' -> CubicAlg.alpha c = CubicAlg.alpha c'.
Proof. intros E. unfold CubicAlg.alpha. by rewrite (backoff_num _ _ E), E. Qed.

(** A fact about the factors holds when it is computed for each number of connections. *)
Lemma connections_compute (P : Cubic -> bool) :
  (forall c c', cu_numConnections c = cu_numConnections c' -> P c = P c') ->
  forallb (fun n => P (CubicAlg.NewCubic <| cu_numConnections := Z.of_nat n |>)) (seq 1 100) = true ->
  forall c, 1 <= cu_numConnections c <= maxConnections -> P c = true.
Proof.
  unfold maxConnections. intros HP H c Hn. rewrite forallb_forall in H.
  rewrite <- (H (Z.to_nat (cu_numConnections c))) by (apply in_seq; lia). apply HP. cbn [cu_numConnections setField].
  cbn. lia.
Qed.

Lemma alpha_low c : 1 <= cu_numConnections c <= maxConnections -> ((1 # 2) <= CubicAlg.alpha c)%Q.
Proof.
  intros Hn. apply Qle_bool_iff. revert c Hn. apply connections_compute; [|vm_compute; reflexivity].
  intros c c' E. by rewrite (alpha_num _ _ E).
Qed.

Lemma alpha_high c :
  1 <= cu_numConnections c <= maxConnections -> (CubicAlg.alpha c <= (3 # 5) * inject_Z (cu_numConnections c))%Q.
Proof.
  intros Hn. apply Qle_bool_iff. revert c Hn. apply connections_compute; [|vm_compute; reflexivity].
  intros c c' E. by rewrite (alpha_num _ _ E), E.
Qed.

Lemma backoff_low c : 1 <= cu_numConnections c <= maxConnections -> ((1 # 2) <= CubicAlg.backoff c)%Q.
Proof.
  intros Hn. apply Qle_bool_iff. revert c Hn. apply connections_compute; [|vm_compute; reflexivity].
  intros c c' E. by rewrite (backoff_num _ _ E).
Qed.

Lemma backoff_high c : 1 <= cu_numConnections c <= maxConnections -> (CubicAlg.backoff c <= (999 # 1000))%Q.
Proof.
  intros Hn. apply Qle_bool_iff. revert c Hn. apply connections_compute; [|vm_compute; reflexivity].
  intros c c' E. by rewrite (backoff_num _ _ E).
Qed.

(** ** The estimate of the TCP window *)
Lemma ofZ_bounds z : 0 < z ->
  (inject_Z z * (1 - (1 # 16777216)) <= f32.ofZ z /\ f32.ofZ z <= inject_Z z * (1 + (1 # 16777216)))%Q.
Proof. intros Hz. apply round32_bounds. change 0%Q with (inject_Z 0). by rewrite <- Zlt_Qlt. Qed.

Lemma trunc_le x z : (0 <= x)%Q -> (x < inject_Z (z + 1))%Q -> f32.trunc x <= z.
Proof.
  intros Hx Hz. destruct (trunc_bounds x Hx) as [H1 _]. assert (H : (inject_Z (f32.trunc x) < inject_Z (z + 1))%Q).
  { eapply Qle_lt_trans; eassumption. }
  rewrite <- Zlt_Qlt in H. lia.
Qed.

Lemma trunc_ge x z : (0 <= x)%Q -> (inject_Z z <= x)%Q -> z <= f32.trunc x.
Proof.
  intros Hx Hz. rewrite trunc_floor by done. rewrite <- (Qfloor_Z z). by apply Qfloor_resp_le.
Qed.

(** The quotient of the estimate and the factor is positive, below 2^64, and at least 1 once the estimate
    has a packet for each connection. *)
Lemma quotient_bounds e n (a : Q) :
  0 < e < 2 ^ 61 -> 1 <= n -> ((1 # 2) <= a)%Q -> (a <= (3 # 5) * inject_Z n)%Q ->
  let q := f32.trunc (f32.div (f32.ofZ e) a) in 0 <= q < 2 ^ 64 /\ (n <= e -> 1 <= q).
Proof.
  intros He Hn Ha1 Ha2 q. destruct (ofZ_bounds e) as [E1 E2]; [lia|].
  assert (Hep : (1 <= inject_Z e)%Q) by (change 1%Q with (inject_Z 1); rewrite <- Zle_Qle; lia).
  assert (Heu : (inject_Z e < inject_Z (2 ^ 61))%Q) by (rewrite <- Zlt_Qlt; lia).
  set (x := f32.ofZ e) in *. set (E := inject_Z e) in *.
  assert (Hx : (0 < x)%Q) by lra.
  assert (Hd : (0 < x / a)%Q) by (apply Qlt_shift_div_l; lra).
  assert (Hu : (x / a <= 2 * x)%Q) by (apply Qle_shift_div_r; [lra|nra]).
  destruct (round32_bounds _ Hd) as [R1 R2]. fold (f32.div x a) in R1, R2. set (y := f32.div x a) in *.
  assert (Hy : (0 <= y)%Q) by lra. split; [split|].
  - apply (trunc_ge y 0); [done|]. change (inject_Z 0) with 0%Q. done.
  - assert (q <= 2 ^ 64 - 1); [|lia]. apply trunc_le; [done|].
    change (inject_Z (2 ^ 64 - 1 + 1)) with (8 * inject_Z (2 ^ 61))%Q. lra.
  - intros Hge. assert (Hne : (inject_Z n <= E)%Q) by (unfold E; by rewrite <- Zle_Qle).
    assert (Hl : ((3 # 2) <= x / a)%Q) by (apply Qle_shift_div_l; lra).
    apply (trunc_ge y 1); [done|]. change (inject_Z 1) with 1%Q. lra.
Qed.

Lemma required_bounds c :
  1 <= cu_numConnections c <= maxConnections -> 0 <= estimatedTCPcongestionWindow c < 2 ^ 61 ->
  0 <= CubicAlg.requiredAckCount c /\
  (cu_numConnections c <= estimatedTCPcongestionWindow c -> 1 <= CubicAlg.requiredAckCount c).
Proof.
  intros Hn He. split; [apply u64_range|intros Hge].
  pose proof (alpha_low c Hn) as A1. pose proof (alpha_high c Hn) as A2. unfold CubicAlg.requiredAckCount.
  destruct (quotient_bounds (estimatedTCPcongestionWindow c) (cu_numConnections c) (CubicAlg.alpha c)) as [Q1 Q2];
    [lia|lia|done|done|]. rewrite uN_small by exact Q1. by apply Q2.
Qed.

(** What the loop keeps, and that it ends by its [break]. *)
Record grown (c c' : Cubic) : Prop := {
  gr_estimate : estimatedTCPcongestionWindow c <= estimatedTCPcongestionWindow c';
  gr_acked : 0 <= ackedPacketsCount c';
  gr_total : estimatedTCPcongestionWindow c' + ackedPacketsCount c' <=
             Z.max (estimatedTCPcongestionWindow c) (cu_numConnections c) + ackedPacketsCount c;
  gr_rest : c' = c <| ackedPacketsCount := ackedPacketsCount c' |>
                   <| estimatedTCPcongestionWindow := estimatedTCPcongestionWindow c' |>
}.

Lemma growEstimate_spec fuel : forall c,
  1 <= cu_numConnections c <= maxConnections -> 0 <= estimatedTCPcongestionWindow c -> 0 <= ackedPacketsCount c ->
  Z.max (estimatedTCPcongestionWindow c) (cu_numConnections c) + ackedPacketsCount c < 2 ^ 60 ->
  let c' := CubicAlg.growEstimate fuel c in
  grown c c' /\
  (ackedPacketsCount c + Z.max 0 (cu_numConnections c - estimatedTCPcongestionWindow c) < Z.of_nat fuel ->
   ackedPacketsCount c' < CubicAlg.requiredAckCount c').
Proof.
  induction fuel as [|fuel IH]; intros c Hn He Ha Hs; cbn [CubicAlg.growEstimate].
  { split; [split; [lia|lia|lia|by destruct c]|lia]. }
  destruct (required_bounds c) as [R0 R1]; [lia|lia|].
  destruct (Z.ltb_spec (ackedPacketsCount c) (CubicAlg.requiredAckCount c)) as [Hlt|Hge].
  { split; [split; [lia|lia|lia|by destruct c]|done]. }
  set (r := CubicAlg.requiredAckCount c) in *. clearbody r.
  assert (E1 : ackedPacketsCount c -64 r = ackedPacketsCount c - r) by (apply uN_small; unfold in_range; lia).
  assert (E2 : estimatedTCPcongestionWindow c +64 1 = estimatedTCPcongestionWindow c + 1)
    by (apply uN_small; unfold in_range; lia).
  rewrite E1, E2. set (c1 := setField _ (setField _ c)).
  assert (P1 : cu_numConnections c1 = cu_numConnections c) by reflexivity.
  assert (P2 : ackedPacketsCount c1 = ackedPacketsCount c - r) by reflexivity.
  assert (P3 : estimatedTCPcongestionWindow c1 = estimatedTCPcongestionWindow c + 1) by reflexivity.
  destruct (IH c1) as [[G1 G2 G3 G4] Hx]; [lia|lia|lia|lia|].
  rewrite P1, P2, P3 in *. set (c2 := CubicAlg.growEstimate fuel c1) in *. clearbody c2. split; [split|].
  - lia.
  - lia.
  - lia.
  - rewrite G4. by destruct c.
  - intros Hf. apply Hx. lia.
Qed.

(** ** The window of the cubic function *)

(** [bound] limits the packets counted and estimated; a window computed before has an estimate. *)
Record cubic_ok (bound : Z) (c : Cubic) : Prop := {
  ck_num : 1 <= cu_numConnections c <= maxConnections;
  ck_estimate : 0 <= estimatedTCPcongestionWindow c;
  ck_acked : 0 <= ackedPacketsCount c;
  ck_total : estimatedTCPcongestionWindow c + ackedPacketsCount c <= bound;
  ck_started : lastCongestionWindow c <> 0 \/ epoch c <> 0 -> 2 <= estimatedTCPcongestionWindow c
}.

Lemma cubic_ok_mono b b' c : cubic_ok b c -> b <= b' -> cubic_ok b' c.
Proof. intros [] ?. split; try done. lia. Qed.

Lemma cubic_ok_Reset b c : cubic_ok b c -> cubic_ok b (CubicAlg.Reset c).
Proof. intros []. split; cbn; lia. Qed.

Lemma cubic_ok_AppLimited b now c : cubic_ok b c -> cubic_ok b (CubicAlg.OnApplicationLimited now c).
Proof. intros []. unfold CubicAlg.OnApplicationLimited. cbn [shiftQuicCubicEpochWhenAppLimited]. case_match; by split. Qed.

Lemma cubic_ok_loss b w c : cubic_ok b c -> cubic_ok b (CubicAlg.CongestionWindowAfterPacketLoss w c).1.
Proof.
  intros [? ? ? ? Hs]. unfold CubicAlg.CongestionWindowAfterPacketLoss. cbn [fst].
  case_match; (split; [done..|cbn; intros [?|?]; [apply Hs; by left|done]]).
Qed.

(** The parts of the state the loop depends on, once the epoch is set. *)
Lemma startOrShiftEpoch_ok b w now c :
  0 <= ackedPacketsCount c -> estimatedTCPcongestionWindow c + ackedPacketsCount c <= b ->
  (epoch c <> 0 -> 2 <= estimatedTCPcongestionWindow c) -> 2 <= w ->
  let c' := CubicAlg.startOrShiftEpoch w now c in
  cu_numConnections c' = cu_numConnections c /\ 2 <= estimatedTCPcongestionWindow c' /\ 0 <= ackedPacketsCount c' /\
  estimatedTCPcongestionWindow c' + ackedPacketsCount c' <= Z.max b (w + 1).
Proof.
  intros ? ? Hs Hw. unfold CubicAlg.startOrShiftEpoch.
  destruct (Z.eqb_spec (epoch c) 0) as [E|E]; [case_match; cbn; lia|].
  pose proof (Hs E). case_match; cbn; lia.
Qed.

Lemma cubicTarget_range now delay c : 0 <= CubicAlg.cubicTarget now delay c < 2 ^ 64.
Proof. unfold CubicAlg.cubicTarget. case_match; apply u64_range. Qed.

Lemma cubic_ok_ack b now w delay c :
  cubic_ok b c -> 2 <= w <= b -> b + maxConnections + 1 < 2 ^ 60 ->
  let '(c', w') := CubicAlg.CongestionWindowAfterAck now w delay c in
  cubic_ok (b + maxConnections + 1) c' /\ 2 <= w'.
Proof.
  intros Hok Hw Hb. pose proof Hok as [Hn He Ha Ht Hs]. unfold CubicAlg.CongestionWindowAfterAck.
  rewrite (uN_small 64 (_ + 1)) by (unfold in_range, maxConnections in *; lia).
  set (c1 := c <| ackedPacketsCount := _ |>). assert (H1 : cubic_ok (b + 1) c1) by (split; cbn; [done|lia|lia|lia|done]).
  destruct ((lastCongestionWindow c1 =? w) && _) eqn:Ec.
  - apply andb_true_iff in Ec as [Ew _]. apply Z.eqb_eq in Ew.
    assert (2 <= estimatedTCPcongestionWindow c1) by (apply (ck_started _ _ H1); left; lia).
    split; [eapply cubic_ok_mono; [exact H1|unfold maxConnections; lia]|minmax; lia].
  - set (c2 := c1 <| lastCongestionWindow := w |> <| lastUpdateTime := now |>).
    destruct (startOrShiftEpoch_ok (b + 1) w now c2) as (Q1 & Q2 & Q3 & Q4);
      [exact (ck_acked _ _ H1)|exact (ck_total _ _ H1)|intros E; exact (ck_started _ _ H1 (or_intror E))|lia|].
    change (cu_numConnections c2) with (cu_numConnections c) in Q1.
    set (c3 := CubicAlg.startOrShiftEpoch w now c2) in *. clearbody c3.
    destruct (growEstimate_spec (CubicAlg.growFuel c3) c3) as [[G1 G2 G3 G4] _];
      [lia|lia|lia|unfold maxConnections in *; lia|].
    set (c4 := CubicAlg.growEstimate _ c3) in *. clearbody c4.
    assert (Hn4 : cu_numConnections c4 = cu_numConnections c3) by (rewrite G4; done).
    split; [split; cbn|]; unfold maxConnections in *; [lia|lia|lia|lia|lia|].
    change (estimatedTCPcongestionWindow (c4 <| lastTargetCongestionWindow := _ |>)) with (estimatedTCPcongestionWindow c4).
    rewrite ltb_max. lia.
Qed.

(** ** Reductions *)
Lemma reduced_range w (b : Q) :
  0 < w < 2 ^ 24 -> ((1 # 2) <= b)%Q -> (b <= 999 # 1000)%Q ->
  0 <= u64 (f32.trunc (f32.mul (f32.ofZ w) b)) <= w.
Proof.
  intros Hw Hb1 Hb2.
  assert (Hw1 : (1 <= inject_Z w)%Q) by (change 1%Q with (inject_Z 1); rewrite <- Zle_Qle; lia).
  assert (E : (f32.ofZ w == inject_Z w)%Q) by (apply ofZ_exact; lia).
  set (x := f32.ofZ w) in *. set (W := inject_Z w) in *.
  assert (Hm : (0 < x * b)%Q) by nra. assert (Hu : (x * b <= (999 # 1000) * W)%Q) by nra.
  destruct (round32_bounds _ Hm) as [R1 R2]. fold (f32.mul x b) in R1, R2. set (y := f32.mul x b) in *.
  assert (Hy : (0 <= y)%Q) by lra.
  assert (0 <= f32.trunc y) by (apply (trunc_ge y 0); [done|exact Hy]).
  assert (f32.trunc y <= w).
  { apply trunc_le; [done|]. rewrite inject_Z_plus. fold W. change (inject_Z 1) with 1%Q. lra. }
  rewrite uN_small by (unfold in_range; lia). lia.
Qed.

Lemma RenoBeta_backoff c : numConnections c = cu_numConnections (cubic c) -> Sender.RenoBeta c = CubicAlg.backoff (cubic c).
Proof. unfold Sender.RenoBeta, CubicAlg.backoff. by intros ->. Qed.

(** ** Runs of the sender *)
Inductive sender_op :=
  | OpSent (packetNumber bytes : Z) (isRetransmittable : bool)
  | OpAcked (now : Z) (rtt : RTTStats) (packetNumber bytes bytesInFlight : Z)
  | OpLost (packetNumber bytes bytesInFlight : Z)
  | OpMaybeExit (rtt : RTTStats)
  | OpTimeout (packetsRetransmitted : bool)
  | OpMigration
  | OpConnections (n : Z)
  | OpLargeReduction (enabled : bool).

Definition perform (c : cubicSender) (o : sender_op) : cubicSender :=
  match o with
  | OpSent pn bytes retransmittable => (Sender.OnPacketSent pn bytes retransmittable c).1
  | OpAcked now rtt pn bytes inFlight => Sender.OnPacketAcked now rtt pn bytes inFlight c
  | OpLost pn bytes inFlight => Sender.OnPacketLost pn bytes inFlight c
  | OpMaybeExit rtt => Sender.MaybeExitSlowStart rtt c
  | OpTimeout retransmitted => Sender.OnRetransmissionTimeout retransmitted c
  | OpMigration => Sender.OnConnectionMigration c
  | OpConnections n => Sender.SetNumEmulatedConnections n c
  | OpLargeReduction enabled => Sender.SetSlowStartLargeReduction enabled c
  end.

(** At most a hundred connections are emulated. *)
Definition op_ok (o : sender_op) : Prop := match o with OpConnections n => n <= maxConnections | _ => True end.

Record sender_ok (max bound : Z) (c : cubicSender) : Prop := {
  so_window : 2 <= congestionWindow c <= max;
  so_threshold : 1 <= slowstartThreshold c <= max;
  so_min : minCongestionWindow c = 2;
  so_max : maxTCPCongestionWindow c = max;
  so_initial : 2 <= initialCongestionWindow c <= max;
  so_initialMax : initialMaxCongestionWindow c = max;
  so_num : numConnections c = cu_numConnections (cubic c);
  so_cubic : cubic_ok bound (cubic c)
}.

Lemma sender_ok_new max reno initial :
  2 <= initial <= max -> sender_ok max max (NewCubicSender reno initial max).
Proof. intros H. split; cbn; try done; try lia. split; cbn; unfold maxConnections, defaultNumConnections; lia. Qed.

Section SenderInvariant.
Variables (max bound : Z).
Hypotheses (Hmax : max < 2 ^ 24) (Hle : max <= bound) (Hbound : bound + maxConnections + 1 < 2 ^ 60).

Lemma bytes_small w : 0 <= w <= max -> w *64 DefaultTCPMSS = w * DefaultTCPMSS.
Proof. intros. apply uN_small. unfold in_range, DefaultTCPMSS. lia. Qed.

Lemma InSlowStart_eq c : sender_ok max bound c -> Sender.InSlowStart c = (congestionWindow c <? slowstartThreshold c).
Proof.
  intros []. unfold Sender.InSlowStart, Sender.GetCongestionWindow, Sender.GetSlowStartThreshold.
  rewrite !bytes_small by lia. unfold DefaultTCPMSS.
  destruct (Z.ltb_spec (congestionWindow c) (slowstartThreshold c)); [apply Z.ltb_lt|apply Z.ltb_ge]; lia.
Qed.

Lemma sender_ok_mono b b' c : sender_ok max b c -> b <= b' -> sender_ok max b' c.
Proof. intros [] ?. split; try done. by eapply cubic_ok_mono. Qed.

(** The window and the state of the cubic function change, nothing else of the invariant. *)
Lemma sender_ok_window b w cu c :
  sender_ok max b c -> 2 <= w <= max -> cu_numConnections cu = cu_numConnections (cubic c) -> cubic_ok b cu ->
  sender_ok max b (c <| cubic := cu |> <| congestionWindow := w |>).
Proof. intros [] ? E ?. split; cbn; try done; try lia. Qed.

Lemma AfterAck_num now w delay c :
  cu_numConnections (CubicAlg.CongestionWindowAfterAck now w delay c).1 = cu_numConnections c.
Proof.
  unfold CubicAlg.CongestionWindowAfterAck. case_match; [done|]. cbn [fst].
  assert (G : forall fuel c, cu_numConnections (CubicAlg.growEstimate fuel c) = cu_numConnections c).
  { induction fuel as [|fuel IH]; intros c'; cbn [CubicAlg.growEstimate]; [done|]. case_match; [done|]. by rewrite IH. }
  cbn [cu_numConnections setField set_lastTarget]. rewrite G. unfold CubicAlg.startOrShiftEpoch. by repeat case_match.
Qed.

Lemma maybeIncrease_ok now rtt inFlight c :
  sender_ok max bound c -> sender_ok max (bound + maxConnections + 1) (Sender.maybeIncreaseCwnd now rtt inFlight c).
Proof.
  intros H. pose proof H as []. assert (0 < maxConnections) by done.
  apply (sender_ok_mono _ (bound + maxConnections + 1)) in H; [|lia]. unfold Sender.maybeIncreaseCwnd.
  destruct (negb _).
  { destruct H. split; try done; [|by apply cubic_ok_AppLimited]. cbn. unfold CubicAlg.OnApplicationLimited. by repeat case_match. }
  destruct (Z.leb_spec (maxTCPCongestionWindow c) (congestionWindow c)); [done|].
  assert (E : congestionWindow c +64 1 = congestionWindow c + 1) by (apply uN_small; unfold in_range; lia).
  destruct (Sender.InSlowStart c); [rewrite E; destruct H; split; cbn; try done; lia|].
  destruct (reno c).
  - case_match; destruct H; (split; cbn; try done); rewrite E; lia.
  - pose proof (cubic_ok_ack bound now (congestionWindow c) (rs_minRTT rtt) (cubic c)) as Ha.
    pose proof (AfterAck_num now (congestionWindow c) (rs_minRTT rtt) (cubic c)) as Hn.
    destruct (CubicAlg.CongestionWindowAfterAck _ _ _ _) as [cu w]. destruct Ha as [Hc Hw]; [done|lia|done|].
    apply sender_ok_window; [done|minmax; lia|done|done].
Qed.

Lemma acked_ok now rtt pn bytes inFlight c :
  sender_ok max bound c -> sender_ok max (bound + maxConnections + 1) (Sender.OnPacketAcked now rtt pn bytes inFlight c).
Proof.
  intros H. unfold Sender.OnPacketAcked. set (c1 := c <| largestAckedPacketNumber := _ |>).
  assert (H1 : sender_ok max bound c1) by (destruct H; by split).
  destruct (Sender.InRecovery c1).
  - apply (sender_ok_mono _ (bound + maxConnections + 1)) in H1; [|unfold maxConnections; lia]. destruct H1. by split.
  - pose proof (maybeIncrease_ok now rtt inFlight c1 H1) as H2. destruct (Sender.InSlowStart _); [|done].
    destruct H2. by split.
Qed.

Lemma lostAgain_ok bytes c : sender_ok max bound c -> sender_ok max bound (Sender.lostAgain bytes c).
Proof.
  intros H. unfold Sender.lostAgain. destruct (lastCutbackExitedSlowstart c); [|done].
  set (c1 := c <| cs_stats := _ |>). assert (H1 : sender_ok max bound c1) by (destruct H; by split).
  destruct (slowStartLargeReduction c1); [|done]. destruct H1. cbv zeta.
  assert (E : congestionWindow c1 -64 1 = congestionWindow c1 - 1) by (apply uN_small; unfold in_range; lia).
  assert (Hw : 2 <= utils.MaxPacketNumber (congestionWindow c1 -64 1) (minCongestionWindow c1) <= max)
    by (rewrite E, so_min0; minmax; lia).
  set (w := utils.MaxPacketNumber _ _) in *. clearbody w c1. case_match; split; cbn; try done; lia.
Qed.

Lemma reduceWindow_ok c :
  sender_ok max bound c ->
  let c' := Sender.reduceWindow c in
  0 <= congestionWindow c' <= congestionWindow c /\
  c' = c <| cubic := cubic c' |> <| congestionWindow := congestionWindow c' |> /\
  cu_numConnections (cubic c') = cu_numConnections (cubic c) /\ cubic_ok bound (cubic c').
Proof.
  intros []. pose proof so_cubic0 as [Hn _ _ _ _]. unfold Sender.reduceWindow.
  assert (E : congestionWindow c -64 1 = congestionWindow c - 1) by (apply uN_small; unfold in_range; lia).
  destruct (slowStartLargeReduction c && _); [rewrite E; cbn; split; [lia|]; split; [by destruct c|done]|].
  pose proof (backoff_low _ Hn). pose proof (backoff_high _ Hn).
  destruct (reno c).
  - rewrite RenoBeta_backoff by done. split; [apply reduced_range; [lia|done|done]|]. split; [by destruct c|done].
  - destruct (CubicAlg.CongestionWindowAfterPacketLoss _ _) as [cu w] eqn:El.
    pose proof (cubic_ok_loss bound (congestionWindow c) (cubic c) so_cubic0) as Hc. rewrite El in Hc.
    unfold CubicAlg.CongestionWindowAfterPacketLoss in El. injection El as Ecu Ew. cbn.
    assert (Hnum : cu_numConnections cu = cu_numConnections (cubic c)) by (rewrite <- Ecu; by case_match).
    split; [|split; [by destruct c|done]]. rewrite <- Ew. rewrite Ecu, (backoff_num cu (cubic c) Hnum).
    apply reduced_range; [lia|done|done].
Qed.

Lemma lost_ok pn bytes inFlight c :
  sender_ok max bound c -> sender_ok max bound (Sender.OnPacketLost pn bytes inFlight c).
Proof.
  intros H. unfold Sender.OnPacketLost. destruct (pn <=? _); [by apply lostAgain_ok|].
  set (c1 := c <| lastCutbackExitedSlowstart := _ |>).
  set (c2 := if Sender.InSlowStart c1 then _ else c1). set (c3 := c2 <| prr := _ |>).
  assert (H3 : sender_ok max bound c3).
  { assert (sender_ok max bound c2) as [] by (unfold c2; case_match; destruct H; by split). by split. }
  clearbody c3. destruct (reduceWindow_ok c3 H3) as (Hw & E & En & Hc).
  set (c4 := Sender.reduceWindow c3) in *. clearbody c4. set (w := congestionWindow c4) in *. set (cu := cubic c4) in *.
  rewrite E. clearbody w cu. clear E c4. destruct H3. cbv zeta. cbn. case_match; split; cbn; try done; try lia; congruence.
Qed.
End SenderInvariant.

Definition is_ack (o : sender_op) : bool := match o with OpAcked _ _ _ _ _ => true | _ => false end.

Lemma perform_same max bound c o :
  max < 2 ^ 24 -> is_ack o = false -> op_ok o -> sender_ok max bound c -> sender_ok max bound (perform c o).
Proof.
  intros Hmax Ha Ho H. destruct o as [pn b r|now rtt pn b f|pn b f|rtt|r| |n|e]; cbn [perform]; [|done|..].
  - unfold Sender.OnPacketSent. destruct (negb r); [done|]. cbn. destruct H. case_match; by split.
  - by apply lost_ok.
  - unfold Sender.MaybeExitSlowStart. case_match; [|done]. destruct (Hybrid.ShouldExitSlowStart _ _ _ _) as [h exit].
    destruct H. case_match; split; cbn; try done; lia.
  - unfold Sender.OnRetransmissionTimeout. case_match; destruct H; [by split|]. split; cbn; try done; try lia.
    + split; [apply Z.div_le_lower_bound; lia|apply Z.div_le_upper_bound; lia].
    + by apply cubic_ok_Reset.
  - destruct H. split; cbn; try done; try lia. by apply cubic_ok_Reset.
  - destruct H. cbn in Ho. split; cbn; try done.
    destruct so_cubic0. split; cbn; try done. minmax. unfold maxConnections in *. lia.
  - destruct H. by split.
Qed.

Lemma perform_ok max bound c o :
  max < 2 ^ 24 -> max <= bound -> bound + maxConnections + 1 < 2 ^ 60 -> op_ok o ->
  sender_ok max bound c -> sender_ok max (bound + maxConnections + 1) (perform c o).
Proof.
  intros Hmax Hle Hb Ho H. destruct (is_ack o) eqn:E.
  - destruct o; try done. by apply acked_ok.
  - eapply sender_ok_mono; [by apply perform_same|unfold maxConnections; lia].
Qed.

Lemma run_ok max ops : forall bound c,
  max < 2 ^ 24 -> max <= bound -> bound + Z.of_nat (length ops) * (maxConnections + 1) < 2 ^ 60 ->
  Forall op_ok ops -> sender_ok max bound c ->
  sender_ok max (bound + Z.of_nat (length ops) * (maxConnections + 1)) (foldl perform c ops).
Proof.
  induction ops as [|o ops IH]; intros bound c Hmax Hle Hb Ho H; cbn [foldl length] in *.
  { eapply sender_ok_mono; [exact H|lia]. }
  apply Forall_cons in Ho as [Ho Hos]. unfold maxConnections in *. rewrite Nat2Z.inj_succ in *.
  pose proof (perform_ok max bound c o Hmax Hle ltac:(unfold maxConnections; lia) Ho H) as H1.
  eapply sender_ok_mono; [apply (IH _ _ Hmax) in H1; [exact H1|..]|]; unfold maxConnections in *; try lia. done.
Qed.

(** C8: whatever sequence of packets sent, acknowledged and lost, of timeouts, migrations, slow start
    exits and settings a new cubic sender sees, in Cubic or Reno mode and for any clock and round-trip
    times, its congestion window stays between two packets and the maximum it was created with, its slow
    start threshold between one packet and that maximum; the byte counts of both do not overflow. *)
Theorem cubic_window_bounds max reno initial ops
  (Hi : 2 <= initial <= max) (Hmax : max < 2 ^ 24) (Ho : Forall op_ok ops) (Hn : Z.of_nat (length ops) < 2 ^ 50) :
  let c := foldl perform (NewCubicSender reno initial max) ops in
  2 <= congestionWindow c <= max /\ 1 <= slowstartThreshold c <= max /\
  Sender.GetCongestionWindow c = congestionWindow c * DefaultTCPMSS /\
  Sender.GetSlowStartThreshold c = slowstartThreshold c * DefaultTCPMSS.
Proof.
  intros c. assert (H : sender_ok max (max + Z.of_nat (length ops) * (maxConnections + 1)) c).
  { apply run_ok; [done|lia|unfold maxConnections; lia|done|by apply sender_ok_new]. }
  destruct H. split; [done|]. split; [done|]. unfold Sender.GetCongestionWindow, Sender.GetSlowStartThreshold.
  split; apply (bytes_small max); lia.
Qed.

(** The parameters of a path: 32 packets at first, 2500 at most. *)
Lemma cubic_window_bounds_witness :
  let ops := [OpSent 1 1400 true; OpAcked 1000 zeroRTTStats 1 1400 46720; OpLost 2 1400 0; OpTimeout true] in
  let c := foldl perform (NewCubicSender false 32 2500) ops in
  2 <= congestionWindow c <= 2500 /\ congestionWindow c = 2 /\ slowstartThreshold c = 14.
Proof.
  intros ops c. destruct (cubic_window_bounds 2500 false 32 ops) as [H _];
    [lia|lia|repeat constructor|vm_compute; reflexivity|].
  split; [exact H|]. vm_compute. split; reflexivity.
Defined.

(** The loop of [CongestionWindowAfterAck] ends: for up to a hundred emulated connections
    and fewer than 2^60 packets, it reaches its [break] within as many iterations as packets are
    counted and connections emulated, and more iterations do not change the result. *)
Theorem cubic_loop_ends c fuel
  (Hn : 1 <= cu_numConnections c <= maxConnections) (He : 0 <= estimatedTCPcongestionWindow c)
  (Ha : 0 <= ackedPacketsCount c)
  (Hs : Z.max (estimatedTCPcongestionWindow c) (cu_numConnections c) + ackedPacketsCount c < 2 ^ 60)
  (Hf : (CubicAlg.growFuel c <= fuel)%nat) :
  let c' := CubicAlg.growEstimate fuel c in
  ackedPacketsCount c' < CubicAlg.requiredAckCount c' /\ c' = CubicAlg.growEstimate (CubicAlg.growFuel c) c /\
  estimatedTCPcongestionWindow c <= estimatedTCPcongestionWindow c'.
Proof.
  assert (Hx : forall f, (CubicAlg.growFuel c <= f)%nat ->
    ackedPacketsCount (CubicAlg.growEstimate f c) < CubicAlg.requiredAckCount (CubicAlg.growEstimate f c)).
  { intros f Hle. apply (growEstimate_spec f c Hn He Ha Hs). unfold CubicAlg.growFuel in Hle. lia. }
  assert (Hmore : forall f g c, ackedPacketsCount (CubicAlg.growEstimate f c) < CubicAlg.requiredAckCount (CubicAlg.growEstimate f c) ->
    CubicAlg.growEstimate (f + g) c = CubicAlg.growEstimate f c).
  { induction f as [|f IH]; intros g c1; cbn [CubicAlg.growEstimate plus].
    - intros Hlt. destruct g; cbn [CubicAlg.growEstimate]; [done|].
      by rewrite (proj2 (Z.ltb_lt _ _) Hlt).
    - destruct (_ <? _); [done|apply IH]. }
  intros c'. split; [by apply Hx|]. split; [|apply (growEstimate_spec fuel c Hn He Ha Hs)].
  unfold c'. replace fuel with (CubicAlg.growFuel c + (fuel - CubicAlg.growFuel c))%nat by lia.
  apply Hmore, Hx. lia.
Qed.

(** Forty acknowledgements on an estimate of ten packets, two connections emulated. *)
Lemma cubic_loop_ends_witness :
  let c := CubicAlg.NewCubic <| estimatedTCPcongestionWindow := 10 |> <| ackedPacketsCount := 40 |> in
  let c' := CubicAlg.growEstimate 1000 c in
  ackedPacketsCount c' < CubicAlg.requiredAckCount c' /\ estimatedTCPcongestionWindow c' = 13 /\ ackedPacketsCount c' = 7.
Proof.
  intros c c'. destruct (cubic_loop_ends c 1000) as [H _];
    [vm_compute; split; discriminate|vm_compute; discriminate|vm_compute; discriminate|vm_compute; reflexivity|
     apply Nat.leb_le; vm_compute; reflexivity|].
  split; [exact H|]. vm_compute. split; reflexivity.
Defined.

(** ** One reduction for each loss event *)

(** With two connections emulated the window shrinks to 17/20, rounded down. *)
Lemma backoff_exact c w :
  cu_numConnections c = 2 -> 2 <= w <= 2500 -> u64 (f32.trunc (f32.mul (f32.ofZ w) (CubicAlg.backoff c))) = 17 * w / 20.
Proof.
  intros Hn Hw. rewrite (backoff_num c CubicAlg.NewCubic) by (by rewrite Hn). apply Z.eqb_eq.
  assert (H : forallb (fun n => u64 (f32.trunc (f32.mul (f32.ofZ (Z.of_nat n)) (CubicAlg.backoff CubicAlg.NewCubic)))
    =? 17 * Z.of_nat n / 20) (seq 2 2499) = true) by (vm_compute; reflexivity).
  rewrite forallb_forall in H. rewrite <- (Z2Nat.id w) by lia. apply H. apply in_seq. lia.
Qed.

(** What can happen while the packets up to [top] are recovered. *)
Definition recovery_op (top : Z) (o : sender_op) : Prop :=
  match o with
  | OpSent _ _ _ | OpMaybeExit _ => True
  | OpAcked _ _ pn _ _ => 0 < pn <= top
  | OpLost pn _ _ => pn <= top
  | _ => False
  end.

Record recovering (top w : Z) (c : cubicSender) : Prop := {
  rc_cutback : largestSentAtLastCutback c = top;
  rc_acked : 0 <= largestAckedPacketNumber c <= top;
  rc_large : slowStartLargeReduction c = false;
  rc_window : congestionWindow c = w;
  rc_threshold : slowstartThreshold c = w
}.

Lemma recovering_perform top w c o : recovery_op top o -> recovering top w c -> recovering top w (perform c o).
Proof.
  intros Ho []. destruct o as [pn b r|now rtt pn b f|pn b f|rtt|r| |n|e]; cbn in Ho; try done; cbn [perform].
  - unfold Sender.OnPacketSent. destruct (negb r); [done|]. cbn. case_match; by split.
  - unfold Sender.OnPacketAcked. set (c1 := c <| largestAckedPacketNumber := _ |>).
    assert (Hl : 0 < largestAckedPacketNumber c1 <= top) by (cbn; minmax; lia).
    assert (Hr : Sender.InRecovery c1 = true).
    { unfold Sender.InRecovery. apply andb_true_iff. split; [apply Z.leb_le; cbn in *; lia|].
      apply negb_true_iff, Z.eqb_neq. lia. }
    rewrite Hr. split; try done. cbn in *. lia.
  - unfold Sender.OnPacketLost. rewrite (proj2 (Z.leb_le _ _)) by lia. unfold Sender.lostAgain.
    destruct (lastCutbackExitedSlowstart c); [|done]. cbn. rewrite rc_large0. by split.
  - unfold Sender.MaybeExitSlowStart.
    assert (Sender.InSlowStart c = false) as ->; [|done].
    unfold Sender.InSlowStart, Sender.GetCongestionWindow, Sender.GetSlowStartThreshold.
    rewrite rc_window0, rc_threshold0. apply Z.ltb_irrefl.
Qed.

Lemma loss_reduces max bound c pn bytes inFlight :
  max <= 2500 -> sender_ok max bound c -> slowStartLargeReduction c = false -> numConnections c = 2 ->
  largestSentAtLastCutback c < pn -> 0 <= largestAckedPacketNumber c <= largestSentPacketNumber c ->
  recovering (largestSentPacketNumber c) (Z.max 2 (17 * congestionWindow c / 20)) (Sender.OnPacketLost pn bytes inFlight c).
Proof.
  intros Hmax [] Hl Hn Hpn Ha. unfold Sender.OnPacketLost. rewrite (proj2 (Z.leb_gt _ _)) by done.
  set (c1 := c <| lastCutbackExitedSlowstart := _ |>).
  set (c2 := if Sender.InSlowStart c1 then _ else c1). set (c3 := c2 <| prr := _ |>).
  assert (P : largestSentPacketNumber c3 = largestSentPacketNumber c /\
    largestAckedPacketNumber c3 = largestAckedPacketNumber c /\ slowStartLargeReduction c3 = false /\
    congestionWindow c3 = congestionWindow c /\ minCongestionWindow c3 = 2 /\ numConnections c3 = 2 /\
    cu_numConnections (cubic c3) = 2).
  { unfold c3, c2. case_match; (split_and!; try done); cbn; congruence. }
  clearbody c3. destruct P as (P1 & P2 & P3 & P4 & P5 & P6 & P7). unfold Sender.reduceWindow. rewrite P3. cbn [andb].
  assert (E : u64 (f32.trunc (f32.mul (f32.ofZ (congestionWindow c3)) (CubicAlg.backoff (cubic c3)))) =
              17 * congestionWindow c / 20) by (rewrite P4; apply backoff_exact; [done|lia]).
  destruct (reno c3).
  - rewrite RenoBeta_backoff, E by congruence. cbn [congestionWindow setField set_congestionWindow].
    set (w := 17 * congestionWindow c / 20). clearbody w. cbn. rewrite P5.
    destruct (Z.ltb_spec w 2); split; cbn; try done; lia.
  - destruct (CubicAlg.CongestionWindowAfterPacketLoss _ _) as [cu w] eqn:El.
    unfold CubicAlg.CongestionWindowAfterPacketLoss in El. injection El as Ecu Ew.
    assert (Ew' : w = 17 * congestionWindow c / 20).
    { rewrite <- Ew, Ecu, (backoff_num cu (cubic c3)); [exact E|]. rewrite <- Ecu. by case_match. }
    clear Ew Ecu. subst w. set (w := 17 * congestionWindow c / 20). clearbody w. cbn. rewrite P5.
    destruct (Z.ltb_spec w 2); split; cbn; try done; lia.
Qed.

(** C28: losing a packet sent since the last reduction shrinks the window of a reachable sender to 17/20
    (two packets at least), and the threshold with it, in Cubic and in Reno mode alike; then, until a
    packet sent later is acknowledged or lost, no further loss shrinks it and no acknowledgement grows it,
    however many there are and whatever is sent in between. *)
Theorem one_reduction_per_loss_event max reno initial before pn bytes inFlight after
  (Hi : 2 <= initial <= max) (Hmax : max <= 2500) (Ho : Forall op_ok before) (Hlen : Z.of_nat (length before) < 2 ^ 50) :
  let c := foldl perform (NewCubicSender reno initial max) before in
  slowStartLargeReduction c = false -> numConnections c = 2 ->
  0 <= largestAckedPacketNumber c <= largestSentPacketNumber c -> largestSentAtLastCutback c < pn ->
  Forall (recovery_op (largestSentPacketNumber c)) after ->
  let c' := foldl perform (Sender.OnPacketLost pn bytes inFlight c) after in
  congestionWindow c' = Z.max 2 (17 * congestionWindow c / 20) /\ slowstartThreshold c' = congestionWindow c'.
Proof.
  intros c Hl Hn Ha Hpn Hafter c'.
  assert (H : sender_ok max (max + Z.of_nat (length before) * (maxConnections + 1)) c).
  { apply run_ok; [lia|lia|unfold maxConnections; lia|done|by apply sender_ok_new]. }
  pose proof (loss_reduces max _ c pn bytes inFlight Hmax H Hl Hn Hpn Ha) as Hr.
  assert (Hr' : recovering (largestSentPacketNumber c) (Z.max 2 (17 * congestionWindow c / 20)) c').
  { unfold c'. revert Hr. generalize (Sender.OnPacketLost pn bytes inFlight c).
    induction Hafter as [|o after Ho' _ IH]; intros d Hd; [done|]. cbn [foldl]. by apply IH, recovering_perform. }
  destruct Hr'. by split; [|congruence].
Qed.

(** Packets 1 to 3 are sent, 2 and 3 are lost, 1 is acknowledged: 32 packets become 27. *)
Lemma one_reduction_per_loss_event_witness :
  let before := [OpSent 1 1400 true; OpSent 2 1400 true; OpSent 3 1400 true] in
  let c := foldl perform (NewCubicSender false 32 2500) before in
  let c' := foldl perform (Sender.OnPacketLost 2 1400 2800 c)
              [OpLost 3 1400 1400; OpAcked 1000 zeroRTTStats 1 1400 0; OpSent 4 1400 true] in
  congestionWindow c' = 27 /\ slowstartThreshold c' = congestionWindow c'.
Proof.
  intros before c c'.
  refine (one_reduction_per_loss_event 2500 false 32 before 2 1400 2800
    [OpLost 3 1400 1400; OpAcked 1000 zeroRTTStats 1 1400 0; OpSent 4 1400 true] _ _ _ _ _ _ _ _ _);
    [lia|lia|repeat constructor|vm_compute; reflexivity|vm_compute; reflexivity|vm_compute; reflexivity| |vm_compute; reflexivity|].
  - vm_compute. split; discriminate.
  - repeat constructor; vm_compute; discriminate.
Defined.

(** ** Growth within an epoch *)

(** Time since the start of the epoch, in 1024ths of a second. *)
Definition ticks (d : Z) : Z := d / 1000 * 1024 / 1000000.
Definition cubeDelta (offset : Z) : Z := 410 * offset ^ 3 / 2 ^ 40.

Lemma ticks_mono d d' : d <= d' -> ticks d <= ticks d'.
Proof. intros. unfold ticks. apply Z.div_le_mono; [lia|]. apply Z.mul_le_mono_nonneg_r; [lia|]. apply Z.div_le_mono; lia. Qed.

Lemma ticks_range d : 0 <= d <= 250 * 1000000000 -> 0 <= ticks d < 2 ^ 18.
Proof.
  intros Hd. split; [unfold ticks; apply Z.div_pos; [|lia]; apply Z.mul_nonneg_nonneg; [apply Z.div_pos|]; lia|].
  pose proof (ticks_mono d (250 * 1000000000)). change (ticks (250 * 1000000000)) with 256000 in *. lia.
Qed.

Lemma cubeDelta_mono a b : 0 <= a <= b -> cubeDelta a <= cubeDelta b.
Proof. intros. unfold cubeDelta. apply Z.div_le_mono; [lia|]. pose proof (cube_mono a b). lia. Qed.

Lemma cubeDelta_range a : 0 <= a < 2 ^ 18 -> 0 <= cubeDelta a < 2 ^ 23 /\ 0 <= 410 * a ^ 3 < 2 ^ 63.
Proof.
  intros Ha. pose proof (cube_mono a (2 ^ 18 - 1) ltac:(lia)). pose proof (cube_mono 0 a ltac:(lia)).
  change ((2 ^ 18 - 1) ^ 3) with 18014192351838207 in *. change (0 ^ 3) with 0 in *.
  unfold cubeDelta. split; [split; [apply Z.div_pos; lia|apply Z.div_lt_upper_bound; lia]|lia].
Qed.

Lemma cubicTarget_eq now delay c :
  0 <= now + delay - epoch c <= 250 * 1000000000 -> 0 <= timeToOriginPoint c < 2 ^ 18 ->
  0 <= originPointCongestionWindow c < 2 ^ 60 -> cubeDelta (timeToOriginPoint c) <= originPointCongestionWindow c ->
  let e := ticks (now + delay - epoch c) in
  CubicAlg.cubicTarget now delay c =
  if timeToOriginPoint c <? e then originPointCongestionWindow c + cubeDelta (e - timeToOriginPoint c)
  else originPointCongestionWindow c - cubeDelta (timeToOriginPoint c - e).
Proof.
  intros Hd Hk Ho Hk2 e. pose proof (ticks_range _ Hd) as He. fold e in He. unfold CubicAlg.cubicTarget, TimeSub, us.
  replace (Z.max _ _) with (now + delay - epoch c) by lia. set (d := now + delay - epoch c) in *.
  assert (Ee : i64 (Z.shiftl (d ÷ 1000) 10) ÷ 1000000 = e).
  { rewrite (Z.quot_div_nonneg d 1000), Z.shiftl_mul_pow2 by lia. change (2 ^ 10) with 1024.
    assert (0 <= d / 1000 <= 250000000) by (split; [apply Z.div_pos; lia|apply Z.div_le_upper_bound; lia]).
    rewrite i64_small by (unfold is_i64; lia). by rewrite Z.quot_div_nonneg by lia. }
  rewrite Ee. clearbody e. clear Ee d Hd. set (K := timeToOriginPoint c) in *. clearbody K.
  rewrite (i64_small (K - e)) by (unfold is_i64; lia).
  set (off := if K - e <? 0 then i64 (- (K - e)) else K - e).
  assert (Hoff : off = Z.abs (K - e)).
  { unfold off. destruct (Z.ltb_spec (K - e) 0); [rewrite i64_small by (unfold is_i64; lia)|]; lia. }
  clearbody off. subst off. destruct (cubeDelta_range (Z.abs (K - e))) as [Hdr Hc]; [lia|].
  assert (Ed : u64 (Z.shiftr (i64 (cubeCongestionWindowScale * Z.abs (K - e) * Z.abs (K - e) * Z.abs (K - e))) cubeScale)
              = cubeDelta (Z.abs (K - e))).
  { unfold cubeCongestionWindowScale, cubeScale.
    replace (410 * Z.abs (K - e) * Z.abs (K - e) * Z.abs (K - e)) with (410 * Z.abs (K - e) ^ 3) by ring.
    rewrite i64_small by (unfold is_i64; lia). rewrite Z.shiftr_div_pow2 by lia. fold (cubeDelta (Z.abs (K - e))).
    apply uN_small. unfold in_range. lia. }
  rewrite Ed. destruct (Z.ltb_spec K e).
  - replace (Z.abs (K - e)) with (e - K) in * by lia. apply uN_small. unfold in_range. lia.
  - replace (Z.abs (K - e)) with (K - e) in * by lia. pose proof (cubeDelta_mono (K - e) K ltac:(lia)).
    apply uN_small. unfold in_range. lia.
Qed.

(** The time to the origin is chosen so that the curve starts at the current window. *)
Lemma start_of_epoch w now c :
  epoch c = 0 -> now <> 0 -> 0 <= w < 2 ^ 20 -> 0 <= lastMaxCongestionWindow c < 2 ^ 20 ->
  let c' := CubicAlg.startOrShiftEpoch w now c in
  epoch c' = now /\ originPointCongestionWindow c' = Z.max w (lastMaxCongestionWindow c) /\
  0 <= timeToOriginPoint c' < 2 ^ 18 /\
  cubeDelta (timeToOriginPoint c') <= originPointCongestionWindow c' - w.
Proof.
  intros He Hnow Hw Hl. unfold CubicAlg.startOrShiftEpoch. rewrite He. cbn [Z.eqb].
  cbn [lastMaxCongestionWindow setField set_epoch set_ackedPacketsCount set_estimated].
  destruct (Z.leb_spec (lastMaxCongestionWindow c) w) as [Hle|Hgt].
  { cbn. split_and!; try done; try lia. change (cubeDelta 0) with 0. lia. }
  cbn. set (m := lastMaxCongestionWindow c) in *. clearbody m.
  rewrite (uN_small 64 (m - w)) by (unfold in_range; lia). change cubeFactor with 2681735677.
  rewrite (uN_small 64 (2681735677 * (m - w))) by (unfold in_range; lia).
  destruct (Cbrt_spec (2681735677 * (m - w))) as (K0 & K1 & K2); [lia|].
  set (K := Cbrt (2681735677 * (m - w))) in *. clearbody K.
  assert (HK : K < 2 ^ 18).
  { destruct (Z.lt_ge_cases K (2 ^ 18)) as [|Hge]; [done|]. pose proof (cube_mono (2 ^ 18) K ltac:(lia)).
    change ((2 ^ 18) ^ 3) with (2 ^ 54) in *. lia. }
  rewrite uN_small by (unfold in_range; lia). split_and!; try done; try lia.
  unfold cubeDelta. apply Z.div_le_upper_bound; lia.
Qed.

(** In an epoch that starts at window [w], after a loss at window [lastMaxCongestionWindow], the
    cubic target never falls below [w] and never decreases as time passes; it stays at or below the larger
    of the two windows until the time to the origin point and at or above it afterwards.  This holds for
    250 seconds, the time the 64-bit product [410 * offset^3] is exact for. *)
Theorem cubic_target_grows w now t1 t2 delay c
  (He : epoch c = 0) (Hnow : now <> 0) (Hw : 0 <= w < 2 ^ 20) (Hl : 0 <= lastMaxCongestionWindow c < 2 ^ 20)
  (Hd : 0 <= delay) (Ht : now <= t1 <= t2) (Hlen : t2 + delay - now <= 250 * 1000000000) :
  let c' := CubicAlg.startOrShiftEpoch w now c in
  let origin := Z.max w (lastMaxCongestionWindow c) in
  w <= CubicAlg.cubicTarget t1 delay c' <= CubicAlg.cubicTarget t2 delay c' /\
  (ticks (t1 + delay - now) <= timeToOriginPoint c' -> CubicAlg.cubicTarget t1 delay c' <= origin) /\
  (timeToOriginPoint c' <= ticks (t1 + delay - now) -> origin <= CubicAlg.cubicTarget t1 delay c').
Proof.
  intros c' origin. destruct (start_of_epoch w now c He Hnow Hw Hl) as (E1 & E2 & E3 & E4).
  fold c' in E1, E2, E3, E4. rewrite !cubicTarget_eq by lia. rewrite E1, E2 in *. fold origin in E4 |- *.
  set (K := timeToOriginPoint c') in *. clearbody K.
  pose proof (ticks_range (t1 + delay - now) ltac:(lia)). pose proof (ticks_range (t2 + delay - now) ltac:(lia)).
  pose proof (ticks_mono (t1 + delay - now) (t2 + delay - now) ltac:(lia)).
  set (a := ticks (t1 + delay - now)) in *. set (b := ticks (t2 + delay - now)) in *. clearbody a b.
  destruct (Z.ltb_spec K a), (Z.ltb_spec K b); try lia.
  - pose proof (cubeDelta_mono (a - K) (b - K) ltac:(lia)). destruct (cubeDelta_range (a - K)); [lia|]. lia.
  - destruct (cubeDelta_range (b - K)); [lia|]. destruct (cubeDelta_range (K - a)); [lia|].
    pose proof (cubeDelta_mono (K - a) K ltac:(lia)).
    split; [lia|]. split; [lia|]. intros. replace (K - a) with 0 by lia. change (cubeDelta 0) with 0. lia.
  - pose proof (cubeDelta_mono (K - b) (K - a) ltac:(lia)). pose proof (cubeDelta_mono (K - a) K ltac:(lia)).
    destruct (cubeDelta_range (K - b)); [lia|]. split; [lia|]. split; [lia|].
    intros. replace (K - a) with 0 by lia. change (cubeDelta 0) with 0. lia.
Qed.

(** A loss at 100 packets, an epoch from 85 packets: after one second 95 packets, after six 107. *)
Lemma cubic_target_grows_witness :
  let c := CubicAlg.NewCubic <| lastMaxCongestionWindow := 100 |> in
  let c' := CubicAlg.startOrShiftEpoch 85 1000 c in
  85 <= CubicAlg.cubicTarget 1000001000 0 c' <= CubicAlg.cubicTarget 6000001000 0 c' /\
  CubicAlg.cubicTarget 1000001000 0 c' = 95 /\ CubicAlg.cubicTarget 6000001000 0 c' = 107.
Proof.
  intros c c'. destruct (cubic_target_grows 85 1000 1000001000 6000001000 0 c) as [H _];
    [reflexivity|lia|lia|cbn; lia|lia|lia|lia|]. split; [exact H|]. vm_compute. split; reflexivity.
Defined.

(** ** The epoch of an application-limited sender *)

Definition second : Z := 1000000000.

Lemma growEstimate_rest fuel : forall c, exists a e,
  CubicAlg.growEstimate fuel c = c <| ackedPacketsCount := a |> <| estimatedTCPcongestionWindow := e |>.
Proof.
  induction fuel as [|fuel IH]; intros c; cbn [CubicAlg.growEstimate].
  - exists (ackedPacketsCount c), (estimatedTCPcongestionWindow c). by destruct c.
  - case_match; [exists (ackedPacketsCount c), (estimatedTCPcongestionWindow c); by destruct c|].
    destruct (IH (c <| ackedPacketsCount := ackedPacketsCount c -64 CubicAlg.requiredAckCount c |>
      <| estimatedTCPcongestionWindow := estimatedTCPcongestionWindow c +64 1 |>)) as (a & e & ->).
    exists a, e. by destruct c.
Qed.

(** An acknowledgement that is not answered from the last one. *)
Lemma afterAck_slow now w delay c :
  lastUpdateTime c + maxCubicTimeInterval < now ->
  let c1 := CubicAlg.startOrShiftEpoch w now
    (c <| ackedPacketsCount := ackedPacketsCount c +64 1 |> <| lastCongestionWindow := w |> <| lastUpdateTime := now |>) in
  let c' := (CubicAlg.CongestionWindowAfterAck now w delay c).1 in
  epoch c' = epoch c1 /\ appLimitedStartTime c' = appLimitedStartTime c1 /\ lastUpdateTime c' = lastUpdateTime c1 /\
  timeToOriginPoint c' = timeToOriginPoint c1 /\ originPointCongestionWindow c' = originPointCongestionWindow c1 /\
  CubicAlg.cubicTarget now delay c1 <= (CubicAlg.CongestionWindowAfterAck now w delay c).2.
Proof.
  intros Ht c1 c'. unfold c', CubicAlg.CongestionWindowAfterAck.
  assert (Hs : (TimeSub now (lastUpdateTime (c <| ackedPacketsCount := ackedPacketsCount c +64 1 |>)) <=? maxCubicTimeInterval) = false).
  { apply Z.leb_gt. cbn. unfold TimeSub, maxCubicTimeInterval in *. lia. }
  rewrite Hs, andb_false_r. cbv zeta. fold c1.
  destruct (growEstimate_rest (CubicAlg.growFuel c1) c1) as (a & e & ->). clearbody c1.
  cbn [fst snd]. split_and!; try reflexivity. case_match; [|lia]. cbn in *. apply Z.ltb_lt in H. lia.
Qed.

Lemma ticks_quot d : 0 <= d <= 250 * second -> i64 (Z.shiftl (- d ÷ us) 10) ÷ 1000000 = - ticks d.
Proof.
  unfold second, us, ticks. intros Hd. rewrite Z.quot_opp_l, (Z.quot_div_nonneg d 1000) by lia.
  rewrite Z.shiftl_mul_pow2 by lia. change (2 ^ 10) with 1024.
  assert (0 <= d / 1000 <= 250000000) by (split; [apply Z.div_pos; lia|apply Z.div_le_upper_bound; lia]).
  rewrite i64_small by (unfold is_i64; lia).
  replace (- (d / 1000) * 1024) with (- (d / 1000 * 1024)) by lia. by rewrite Z.quot_opp_l, Z.quot_div_nonneg by lia.
Qed.

(** Before the start of the epoch the target lies below the origin; far enough below, it wraps around. *)
Lemma cubicTarget_wraps now delay c d :
  now + delay - epoch c = - d -> 19 * second <= d <= 200 * second -> 0 <= timeToOriginPoint c < 20000 ->
  0 <= originPointCongestionWindow c <= 2500 -> 2 ^ 63 <= CubicAlg.cubicTarget now delay c.
Proof.
  intros He Hd HK Ho. unfold CubicAlg.cubicTarget. unfold TimeSub. rewrite He.
  replace (Z.max _ _) with (- d) by (unfold second in *; lia). rewrite ticks_quot by (unfold second in *; lia).
  pose proof (ticks_mono (19 * second) d ltac:(lia)) as T1. pose proof (ticks_mono d (200 * second) ltac:(lia)) as T2.
  change (ticks (19 * second)) with 19456 in T1. change (ticks (200 * second)) with 204800 in T2.
  set (t := ticks d) in *. set (K := timeToOriginPoint c) in *. clearbody t K.
  rewrite (i64_small (K - - t)) by (unfold is_i64; lia). rewrite (proj2 (Z.ltb_ge (K - - t) 0)) by lia.
  rewrite (proj2 (Z.ltb_ge K (- t))) by lia. set (o := K - - t). destruct (cubeDelta_range o) as [R1 R2]; [lia|].
  unfold cubeCongestionWindowScale, cubeScale. replace (410 * o * o * o) with (410 * o ^ 3) by ring.
  rewrite i64_small by (unfold is_i64; lia). rewrite Z.shiftr_div_pow2 by lia. fold (cubeDelta o).
  rewrite (uN_small 64 (cubeDelta o)) by (unfold in_range; lia).
  pose proof (cubeDelta_mono 19456 o ltac:(lia)) as D. change (cubeDelta 19456) with 2746 in D.
  unfold uN. replace (originPointCongestionWindow c - cubeDelta o)
    with (originPointCongestionWindow c - cubeDelta o + 2 ^ 64 + (-1) * 2 ^ 64) by lia.
  rewrite Z.mod_add, Z.mod_small by lia. lia.
Qed.

(** The time at which a sender became limited by its application survives a loss.  When 20 seconds
    or more pass until the first acknowledgement of the new epoch, the next one shifts the epoch by that
    time although it began later, to a point after the present; the cubic target, below the origin point by
    more than its value, wraps around and the window after the acknowledgement is 2^63 packets or more (the
    sender takes its maximum), for any windows up to 2500 packets and round trips up to a second. *)
Theorem cubic_epoch_jump w w' t0 t1 t2 delay c
  (He : epoch c = 0) (H0 : appLimitedStartTime c = t0) (Hp : 0 < t0) (Hu : lastUpdateTime c <= t0)
  (H1 : t0 + 20 * second <= t1 <= t0 + 200 * second) (H2 : t1 + maxCubicTimeInterval < t2 < 2 ^ 62)
  (Hd : 0 <= delay <= second) (Hw : 0 <= w <= 2500) (Hl : 0 <= lastMaxCongestionWindow c <= 2500) :
  let c1 := (CubicAlg.CongestionWindowAfterAck t1 w delay c).1 in
  2 ^ 63 <= (CubicAlg.CongestionWindowAfterAck t2 w' delay c1).2.
Proof.
  intros c1. destruct (afterAck_slow t1 w delay c) as (E1 & E2 & E3 & E4 & E5 & _);
    [unfold maxCubicTimeInterval, second in *; lia|]. fold c1 in E1, E2, E3, E4, E5.
  set (cs := c <| ackedPacketsCount := _ |> <| lastCongestionWindow := _ |> <| lastUpdateTime := _ |>) in *.
  destruct (start_of_epoch w t1 cs) as (S1 & S2 & S3 & S4); [done|lia|lia|change (lastMaxCongestionWindow cs) with (lastMaxCongestionWindow c); lia|].
  change (lastMaxCongestionWindow cs) with (lastMaxCongestionWindow c) in S2.
  assert (Ha : appLimitedStartTime (CubicAlg.startOrShiftEpoch w t1 cs) = t0).
  { unfold CubicAlg.startOrShiftEpoch. change (epoch cs) with (epoch c). rewrite He. cbn [Z.eqb]. by case_match. }
  assert (Hlu : lastUpdateTime (CubicAlg.startOrShiftEpoch w t1 cs) = t1).
  { unfold CubicAlg.startOrShiftEpoch. change (epoch cs) with (epoch c). rewrite He. cbn [Z.eqb]. by case_match. }
  rewrite S1 in E1. rewrite Ha in E2. rewrite Hlu in E3. rewrite S2 in S4, E5. rewrite <- E4 in S3, S4. clear S1 S2 Ha Hlu E4.
  destruct (afterAck_slow t2 w' delay c1) as (_ & _ & _ & _ & _ & Hw2); [lia|].
  etransitivity; [|exact Hw2]. clear Hw2. set (ct := c1 <| ackedPacketsCount := _ |> <| lastCongestionWindow := _ |> <| lastUpdateTime := _ |>).
  unfold CubicAlg.startOrShiftEpoch. change (epoch ct) with (epoch c1). change (appLimitedStartTime ct) with (appLimitedStartTime c1).
  rewrite E1, E2. rewrite (proj2 (Z.eqb_neq t1 0)) by lia. rewrite (proj2 (Z.eqb_neq t0 0)) by lia.
  cbn [andb negb shiftQuicCubicEpochWhenAppLimited].
  assert (HK : timeToOriginPoint c1 < 20000).
  { destruct (Z.lt_ge_cases (timeToOriginPoint c1) 20000) as [|Hge]; [done|].
    pose proof (cubeDelta_mono 20000 (timeToOriginPoint c1) ltac:(lia)) as D. change (cubeDelta 20000) with 2983 in D. lia. }
  apply (cubicTarget_wraps _ _ _ (t1 - t0 - delay)); cbn [epoch timeToOriginPoint originPointCongestionWindow setField set_epoch set_appLimited].
  - unfold TimeSub. change (epoch ct) with (epoch c1). unfold second, maxCubicTimeInterval in *. lia.
  - unfold second in *. lia.
  - change (timeToOriginPoint ct) with (timeToOriginPoint c1). lia.
  - change (originPointCongestionWindow ct) with (originPointCongestionWindow c1). lia.
Qed.

(** A sender that waited for its application 20 seconds before it lost a packet: its window goes from 32
    packets over 27 and 28 to the maximum of 2500. *)
Lemma cubic_epoch_jump_witness :
  let lost := foldl perform (NewCubicSender false 32 2500)
    [OpSent 1 1400 true; OpAcked (100 * second) zeroRTTStats 1 1400 0; OpSent 2 1400 true; OpSent 3 1400 true;
     OpLost 2 1400 0; OpSent 4 1400 true] in
  let c1 := (CubicAlg.CongestionWindowAfterAck (120 * second) 27 0 (cubic lost)).1 in
  let acked := perform lost (OpAcked (120 * second) zeroRTTStats 4 1400 100000) in
  2 ^ 63 <= (CubicAlg.CongestionWindowAfterAck (121 * second) 28 0 c1).2 /\
  congestionWindow lost = 27 /\ congestionWindow acked = 28 /\
  congestionWindow (perform acked (OpAcked (121 * second) zeroRTTStats 4 1400 100000)) = 2500.
Proof.
  intros lost c1 acked. split.
  - refine (cubic_epoch_jump 27 28 (100 * second) (120 * second) (121 * second) 0 (cubic lost) _ _ _ _ _ _ _ _ _);
      vm_compute; try reflexivity; try (split; discriminate); try discriminate. split; [reflexivity|reflexivity].
  - vm_compute. split; [reflexivity|split; reflexivity].
Defined.
