(* ===== verification/Olia.v ===== *)
(** * Coupled congestion control

    Models [congestion/olia.go] and [congestion/olia_sender.go].  The senders of the paths of a connection
    share a map from path IDs to senders; a sender changes the epsilons of all of them when it computes
    its window.  The map is the state of the operations that use it; [order n] is the order in which the
    [n]-th loop over the map visits the paths, which Go leaves open. *)
From S2P Require Import Prelude MinMax Float32 RttStats Congestion.
From Stdlib Require Import QArith Lqa.
From stdpp Require Import gmap.

Open Scope Z_scope.
Open Scope go_scope.

Definition scale : Z := 10.

(** ** The algorithm *)
Record OliaState := mkOlia {
  loss1 : Z;
  loss2 : Z;
  loss3 : Z;
  epsilonNum : Z;
  epsilonDen : Z;
  sndCwndCnt : Z
}.

Definition eta_olia (o : OliaState) : OliaState :=
  mkOlia (loss1 o) (loss2 o) (loss3 o) (epsilonNum o) (epsilonDen o) (sndCwndCnt o).
#[export] Instance set_loss1 : Setter loss1 := ltac:(field_setter eta_olia).
#[export] Instance set_loss2 : Setter loss2 := ltac:(field_setter eta_olia).
#[export] Instance set_loss3 : Setter loss3 := ltac:(field_setter eta_olia).
#[export] Instance set_epsilonNum : Setter epsilonNum := ltac:(field_setter eta_olia).
#[export] Instance set_epsilonDen : Setter epsilonDen := ltac:(field_setter eta_olia).
#[export] Instance set_sndCwndCnt : Setter sndCwndCnt := ltac:(field_setter eta_olia).

Module Olia.
Definition NewOlia (ackedBytes : Z) : OliaState := mkOlia ackedBytes ackedBytes ackedBytes 0 1 0.
Definition oliaScale (val scale : Z) : Z := val <<64 scale.
Definition Reset (o : OliaState) : OliaState := mkOlia 0 0 0 0 1 0.

Definition SmoothedBytesBetweenLosses (o : OliaState) : Z :=
  utils.MaxByteCount (loss3 o -64 loss2 o) (loss2 o -64 loss1 o).

Definition UpdateAckedSinceLastLoss (ackedBytes : Z) (o : OliaState) : OliaState :=
  o <| loss3 := loss3 o +64 ackedBytes |>.

Definition OnPacketLost (o : OliaState) : OliaState := o <| loss1 := loss2 o |> <| loss2 := loss3 o |>.

(** The counter of a thousandth of a packet after an acknowledgement. *)
Definition stepCount (currentCongestionWindow rate cwndScaled : Z) (o : OliaState) : Z :=
  let incDen := epsilonDen o *64 currentCongestionWindow *64 rate in
  let incDen := if incDen =? 0 then 1 else incDen in
  let square := epsilonDen o *64 cwndScaled *64 cwndScaled in
  if epsilonNum o =? -1 then
    if square <? rate
    then i64 (sndCwndCnt o - i64 (oliaScale (rate -64 square) scale / incDen))
    else i64 (sndCwndCnt o + i64 (oliaScale (square -64 rate) scale / incDen))
  else i64 (sndCwndCnt o + i64 (oliaScale ((u64 (epsilonNum o) *64 rate) +64 square) scale / incDen)).

Definition CongestionWindowAfterAck (currentCongestionWindow rate cwndScaled : Z) (o : OliaState) : OliaState * Z :=
  let count := stepCount currentCongestionWindow rate cwndScaled o in
  let o := o <| sndCwndCnt := count |> in
  if Z.shiftl 1 scale - 1 <=? count then (o <| sndCwndCnt := 0 |>, currentCongestionWindow +64 1)
  else if count <=? 0 - Z.shiftl 1 scale + 1
  then (o <| sndCwndCnt := 0 |>, utils.MaxPacketNumber 1 (currentCongestionWindow -64 1))
  else (o, currentCongestionWindow).
End Olia.

(** ** The senders *)
Record OliaSender := mkOliaSender {
  os_hybridSlowStart : HybridSlowStart;
  os_prr : PrrSender;
  os_rttStats : RTTStats;
  os_stats : connectionStats;
  olia : OliaState;
  os_largestSentPacketNumber : Z;
  os_largestAckedPacketNumber : Z;
  os_largestSentAtLastCutback : Z;
  os_congestionWindow : Z;
  os_slowstartThreshold : Z;
  os_lastCutbackExitedSlowstart : bool;
  os_slowStartLargeReduction : bool;
  os_minCongestionWindow : Z;
  os_maxTCPCongestionWindow : Z;
  os_numConnections : Z;
  os_congestionWindowCount : Z;
  os_initialCongestionWindow : Z;
  os_initialMaxCongestionWindow : Z
}.

Definition eta_os (o : OliaSender) : OliaSender :=
  mkOliaSender (os_hybridSlowStart o) (os_prr o) (os_rttStats o) (os_stats o) (olia o) (os_largestSentPacketNumber o)
    (os_largestAckedPacketNumber o) (os_largestSentAtLastCutback o) (os_congestionWindow o) (os_slowstartThreshold o)
    (os_lastCutbackExitedSlowstart o) (os_slowStartLargeReduction o) (os_minCongestionWindow o)
    (os_maxTCPCongestionWindow o) (os_numConnections o) (os_congestionWindowCount o) (os_initialCongestionWindow o)
    (os_initialMaxCongestionWindow o).
#[export] Instance set_os_hybrid : Setter os_hybridSlowStart := ltac:(field_setter eta_os).
#[export] Instance set_os_prr : Setter os_prr := ltac:(field_setter eta_os).
#[export] Instance set_os_rttStats : Setter os_rttStats := ltac:(field_setter eta_os).
#[export] Instance set_os_stats : Setter os_stats := ltac:(field_setter eta_os).
#[export] Instance set_os_olia : Setter olia := ltac:(field_setter eta_os).
#[export] Instance set_os_largestSent : Setter os_largestSentPacketNumber := ltac:(field_setter eta_os).
#[export] Instance set_os_largestAcked : Setter os_largestAckedPacketNumber := ltac:(field_setter eta_os).
#[export] Instance set_os_cutback : Setter os_largestSentAtLastCutback := ltac:(field_setter eta_os).
#[export] Instance set_os_window : Setter os_congestionWindow := ltac:(field_setter eta_os).
#[export] Instance set_os_threshold : Setter os_slowstartThreshold := ltac:(field_setter eta_os).
#[export] Instance set_os_exited : Setter os_lastCutbackExitedSlowstart := ltac:(field_setter eta_os).
#[export] Instance set_os_large : Setter os_slowStartLargeReduction := ltac:(field_setter eta_os).
#[export] Instance set_os_num : Setter os_numConnections := ltac:(field_setter eta_os).
#[export] Instance set_os_count : Setter os_congestionWindowCount := ltac:(field_setter eta_os).

Definition NewOliaSender (rttStats : RTTStats) (initialCongestionWindow initialMaxCongestionWindow : Z) : OliaSender :=
  mkOliaSender zeroHybridSlowStart zeroPrrSender rttStats (mkConnectionStats 0 0) (Olia.NewOlia 0) 0 0 0
    initialCongestionWindow initialMaxCongestionWindow false false defaultMinimumCongestionWindow
    initialMaxCongestionWindow defaultNumConnections 0 initialCongestionWindow initialMaxCongestionWindow.

(** [oliaSenders] *)
Abbreviation Senders := (gmap Z OliaSender).

(** The senders in the order a loop visits them. *)
Definition visit (order : list Z) (m : Senders) : list OliaSender := omap (fun id => m !! id) order.

Module OliaS.
Definition GetCongestionWindow (o : OliaSender) : Z := os_congestionWindow o *64 DefaultTCPMSS.
Definition GetSlowStartThreshold (o : OliaSender) : Z := os_slowstartThreshold o *64 DefaultTCPMSS.
Definition InRecovery (o : OliaSender) : bool :=
  (os_largestAckedPacketNumber o <=? os_largestSentAtLastCutback o) && negb (os_largestAckedPacketNumber o =? 0).
Definition InSlowStart (o : OliaSender) : bool := GetCongestionWindow o <? GetSlowStartThreshold o.

Definition TimeUntilSend (bytesInFlight : Z) (o : OliaSender) : Z :=
  if InRecovery o
  then Prr.TimeUntilSend (GetCongestionWindow o) bytesInFlight (GetSlowStartThreshold o) (os_prr o)
  else if bytesInFlight <? GetCongestionWindow o then 0 else utils.InfDuration.

Definition OnPacketSent (packetNumber bytes : Z) (isRetransmittable : bool) (o : OliaSender) : OliaSender * bool :=
  if negb isRetransmittable then (o, false)
  else
    let o := if InRecovery o then o <| os_prr := Prr.OnPacketSent bytes (os_prr o) |> else o in
    let o := o <| os_largestSentPacketNumber := packetNumber |> in
    (o <| os_hybridSlowStart := Hybrid.OnPacketSent packetNumber (os_hybridSlowStart o) |>, true).

Definition ExitSlowstart (o : OliaSender) : OliaSender := o <| os_slowstartThreshold := os_congestionWindow o |>.

Definition MaybeExitSlowStart (o : OliaSender) : OliaSender :=
  if InSlowStart o then
    let '(h, exit) := Hybrid.ShouldExitSlowStart (rs_latestRTT (os_rttStats o)) (rs_minRTT (os_rttStats o))
                        (GetCongestionWindow o / DefaultTCPMSS) (os_hybridSlowStart o) in
    let o := o <| os_hybridSlowStart := h |> in
    if exit then ExitSlowstart o else o
  else o.

Definition isCwndLimited (bytesInFlight : Z) (o : OliaSender) : bool :=
  let congestionWindow := GetCongestionWindow o in
  if congestionWindow <=? bytesInFlight then true
  else
    let availableBytes := congestionWindow -64 bytesInFlight in
    let slowStartLimited := InSlowStart o && (congestionWindow / 2 <? bytesInFlight) in
    slowStartLimited || (availableBytes <=? maxBurstBytes).

(** *** The coupling *)
Definition getMaxCwnd (l : list OliaSender) : Z :=
  foldl (fun bestCwnd os => utils.MaxPacketNumber bestCwnd (os_congestionWindow os)) 0 l.

Definition getRate (l : list OliaSender) (pathRTT : Z) : Z :=
  let rate := foldl (fun rate os =>
    let scaledNum := Olia.oliaScale (os_congestionWindow os) scale *64 u64 pathRTT in
    let srtt := rs_smoothedRTT (os_rttStats os) in
    if negb (srtt =? 0) then rate +64 (scaledNum / u64 srtt) else rate) 1 l in
  rate *64 rate.

(** [os.rttStats.SmoothedRTT() * os.rttStats.SmoothedRTT()] *)
Definition squaredRTT (os : OliaSender) : Z := i64 (rs_smoothedRTT (os_rttStats os) * rs_smoothedRTT (os_rttStats os)).
Definition bytesBetween (os : OliaSender) : Z := Olia.SmoothedBytesBetweenLosses (olia os).

(** The comparison of a path with the best one, [best] holding [bestRTT] and [bestBytes]. *)
Definition asGood (best : Z * Z) (os : OliaSender) : bool :=
  i64 (i64 (snd best) * squaredRTT os) <=? i64 (i64 (bytesBetween os) * fst best).

Definition findBest (l : list OliaSender) : Z * Z :=
  foldl (fun best os => if asGood best os then (squaredRTT os, bytesBetween os) else best) (0, 0) l.

(** The sizes of M and of B \ M, 8 bits each. *)
Definition countSets (maxCwnd : Z) (best : Z * Z) (l : list OliaSender) : Z * Z :=
  foldl (fun '(M, BNotM) os =>
    if os_congestionWindow os =? maxCwnd then (u8 (M + 1), BNotM)
    else if asGood best os then (M, u8 (BNotM + 1)) else (M, BNotM)) (0, 0) l.

Definition setEpsilon (maxCwnd : Z) (best : Z * Z) (M BNotM len : Z) (os : OliaSender) : OliaSender :=
  let put num den := os <| olia := olia os <| epsilonNum := num |> <| epsilonDen := den |> |> in
  if BNotM =? 0 then put 0 1
  else if (os_congestionWindow os <? maxCwnd) && asGood best os then put 1 (u32 (u32 len * u32 BNotM))
  else if os_congestionWindow os =? maxCwnd then put (-1) (u32 (u32 len * u32 M))
  else put 0 1.

Definition getEpsilon (order : nat -> list Z) (m : Senders) : Senders :=
  let maxCwnd := getMaxCwnd (visit (order 0%nat) m) in
  let best := findBest (visit (order 1%nat) m) in
  let '(M, BNotM) := countSets maxCwnd best (visit (order 2%nat) m) in
  foldl (fun m' id => alter (setEpsilon maxCwnd best M BNotM (Z.of_nat (size m))) id m') m (order 3%nat).

(** The sender of path [id] is the receiver of the method; it is in the map. *)
Definition maybeIncreaseCwnd (order : nat -> list Z) (bytesInFlight : Z) (id : Z) (m : Senders) : Senders :=
  match m !! id with
  | None => m
  | Some o =>
      if negb (isCwndLimited bytesInFlight o) then m
      else if os_maxTCPCongestionWindow o <=? os_congestionWindow o then m
      else if InSlowStart o then <[id := o <| os_congestionWindow := os_congestionWindow o +64 1 |>]> m
      else
        let m := getEpsilon order m in
        let rate := getRate (visit (order 4%nat) m) (rs_smoothedRTT (os_rttStats o)) in
        let cwndScaled := Olia.oliaScale (os_congestionWindow o) scale in
        alter (fun o =>
          let '(ol, window) := Olia.CongestionWindowAfterAck (os_congestionWindow o) rate cwndScaled (olia o) in
          o <| olia := ol |> <| os_congestionWindow := utils.MinPacketNumber (os_maxTCPCongestionWindow o) window |>) id m
  end.

Definition OnPacketAcked (order : nat -> list Z) (ackedPacketNumber ackedBytes bytesInFlight : Z) (id : Z)
    (m : Senders) : Senders :=
  match m !! id with
  | None => m
  | Some o =>
      let o := o <| os_largestAckedPacketNumber :=
                      utils.MaxPacketNumber ackedPacketNumber (os_largestAckedPacketNumber o) |> in
      if InRecovery o then <[id := o <| os_prr := Prr.OnPacketAcked ackedBytes (os_prr o) |>]> m
      else
        let o := o <| olia := Olia.UpdateAckedSinceLastLoss ackedBytes (olia o) |> in
        let m := maybeIncreaseCwnd order bytesInFlight id (<[id := o]> m) in
        alter (fun o =>
          if InSlowStart o
          then o <| os_hybridSlowStart := Hybrid.OnPacketAcked ackedPacketNumber (os_hybridSlowStart o) |>
          else o) id m
  end.

(** *** Losses and timeouts *)
Definition RenoBeta (o : OliaSender) : f32.t :=
  let n := f32.ofZ (os_numConnections o) in
  f32.div (f32.add (f32.sub n (f32.ofZ 1)) renoBeta) n.

Definition lostAgain (lostBytes : Z) (o : OliaSender) : OliaSender :=
  if os_lastCutbackExitedSlowstart o then
    let bytesLost := slowstartBytesLost (os_stats o) +64 lostBytes in
    let packetsLost := slowstartPacketsLost (os_stats o) +64 1 in
    let o := o <| os_stats := mkConnectionStats packetsLost bytesLost |> in
    if os_slowStartLargeReduction o then
      let o :=
        if (packetsLost =? 1) || ((bytesLost -64 lostBytes) / DefaultTCPMSS <? bytesLost / DefaultTCPMSS)
        then o <| os_congestionWindow := utils.MaxPacketNumber (os_congestionWindow o -64 1) (os_minCongestionWindow o) |>
        else o in
      o <| os_slowstartThreshold := os_congestionWindow o |>
    else o
  else o.

Definition OnPacketLost (packetNumber lostBytes bytesInFlight : Z) (o : OliaSender) : OliaSender :=
  if packetNumber <=? os_largestSentAtLastCutback o then lostAgain lostBytes o
  else
    let o := o <| os_lastCutbackExitedSlowstart := InSlowStart o |> in
    let o :=
      if InSlowStart o
      then o <| os_stats := mkConnectionStats (slowstartPacketsLost (os_stats o) +64 1)
                              (slowstartBytesLost (os_stats o)) |>
      else o in
    let o := o <| os_prr := Prr.OnPacketLost bytesInFlight (os_prr o) |> in
    let o := o <| olia := Olia.OnPacketLost (olia o) |> in
    let o :=
      if os_slowStartLargeReduction o && InSlowStart o
      then o <| os_congestionWindow := os_congestionWindow o -64 1 |>
      else o <| os_congestionWindow := u64 (f32.trunc (f32.mul (f32.ofZ (os_congestionWindow o)) (RenoBeta o))) |> in
    let o :=
      if os_congestionWindow o <? os_minCongestionWindow o
      then o <| os_congestionWindow := os_minCongestionWindow o |> else o in
    o <| os_slowstartThreshold := os_congestionWindow o |>
      <| os_largestSentAtLastCutback := os_largestSentPacketNumber o |>
      <| os_congestionWindowCount := 0 |>.

Definition SetNumEmulatedConnections (n : Z) (o : OliaSender) : OliaSender := o <| os_numConnections := utils.Max n 1 |>.

Definition OnRetransmissionTimeout (packetsRetransmitted : bool) (o : OliaSender) : OliaSender :=
  let o := o <| os_largestSentAtLastCutback := 0 |> in
  if negb packetsRetransmitted then o
  else
    o <| os_hybridSlowStart := Hybrid.Restart (os_hybridSlowStart o) |>
      <| olia := Olia.Reset (olia o) |>
      <| os_slowstartThreshold := os_congestionWindow o / 2 |>
      <| os_congestionWindow := os_minCongestionWindow o |>.

Definition OnConnectionMigration (o : OliaSender) : OliaSender :=
  mkOliaSender (Hybrid.Restart (os_hybridSlowStart o)) zeroPrrSender (os_rttStats o) (os_stats o) (Olia.Reset (olia o))
    0 0 0 (os_initialCongestionWindow o) (os_initialMaxCongestionWindow o) false (os_slowStartLargeReduction o)
    (os_minCongestionWindow o) (os_initialMaxCongestionWindow o) (os_numConnections o) 0 (os_initialCongestionWindow o)
    (os_initialMaxCongestionWindow o).

Definition SetSlowStartLargeReduction (enabled : bool) (o : OliaSender) : OliaSender :=
  o <| os_slowStartLargeReduction := enabled |>.

Definition BandwidthEstimate (o : OliaSender) : option Z :=
  let srtt := rs_smoothedRTT (os_rttStats o) in
  if srtt =? 0 then Some 0 else BandwidthFromDelta (GetCongestionWindow o) srtt.
End OliaS.

(** ** Loops over the map *)

(** [o] visits every path of the map once. *)
Definition visits_all (m : Senders) (o : list Z) : Prop := NoDup o /\ forall id, id ∈ o <-> is_Some (m !! id).

Lemma elem_of_visit m o os : visits_all m o -> os ∈ visit o m <-> exists id, m !! id = Some os.
Proof.
  intros [_ Hv]. unfold visit. rewrite list_elem_of_omap. split.
  - intros (id & _ & H). by exists id.
  - intros (id & H). exists id. split; [apply Hv; by rewrite H|done].
Qed.

Lemma visit_perm m o o' : visits_all m o -> visits_all m o' -> visit o m ≡ₚ visit o' m.
Proof.
  intros [N1 H1] [N2 H2]. assert (P : o ≡ₚ o') by (apply NoDup_Permutation; [done|done|intros x; by rewrite H1, H2]).
  unfold visit. by rewrite P.
Qed.

Lemma visit_length m o : visits_all m o -> length (visit o m) = size m.
Proof.
  intros [N H]. assert (P : o ≡ₚ (map_to_list m).*1).
  { apply NoDup_Permutation; [done|apply NoDup_fst_map_to_list|]. intros x. rewrite H, list_elem_of_fmap. split.
    - intros [y Hy]. exists (x, y). split; [done|by apply elem_of_map_to_list].
    - intros ([x' y] & -> & Hy). apply elem_of_map_to_list in Hy. by exists y. }
  unfold visit. rewrite P, <- length_map_to_list. clear P N H.
  assert (G : forall l : list (Z * OliaSender), (forall p, p ∈ l -> m !! p.1 = Some p.2) ->
    length (omap (fun id => m !! id) l.*1) = length l).
  { induction l as [|p l IH]; intros Hl; [done|]. cbn. rewrite (Hl p) by set_solver. cbn. f_equal. apply IH. set_solver. }
  apply G. intros [k v] Hp. by apply elem_of_map_to_list in Hp.
Qed.

(** Changing every visited sender. *)
Lemma foldl_alter_lookup (f : OliaSender -> OliaSender) o : forall (m : Senders) k, NoDup o ->
  foldl (fun m' id => alter f id m') m o !! k = if decide (k ∈ o) then f <$> m !! k else m !! k.
Proof.
  induction o as [|id o IH]; intros m k N; cbn [foldl]; [by rewrite decide_False by set_solver|].
  apply NoDup_cons in N as [Hid N]. rewrite IH by done. destruct (decide (k = id)) as [->|Hne].
  - rewrite decide_False by done. rewrite decide_True by set_solver. apply lookup_alter_eq.
  - rewrite lookup_alter_ne by congruence. destruct (decide (k ∈ o)); [rewrite decide_True by set_solver|rewrite decide_False by set_solver]; done.
Qed.

Lemma getEpsilon_map order m :
  visits_all m (order 3%nat) ->
  let maxCwnd := OliaS.getMaxCwnd (visit (order 0%nat) m) in
  let best := OliaS.findBest (visit (order 1%nat) m) in
  let counts := OliaS.countSets maxCwnd best (visit (order 2%nat) m) in
  OliaS.getEpsilon order m = OliaS.setEpsilon maxCwnd best counts.1 counts.2 (Z.of_nat (size m)) <$> m.
Proof.
  intros [N Hv] mx best counts. unfold OliaS.getEpsilon. fold mx best. fold counts. destruct counts as [M B].
  apply map_eq. intros k. rewrite foldl_alter_lookup by done. rewrite lookup_fmap. cbn [fst snd].
  case_decide as Hk; [done|]. destruct (m !! k) eqn:E; [|done]. exfalso. apply Hk, Hv. by rewrite E.
Qed.

Lemma visit_fmap f o m : visit o (f <$> m) = f <$> visit o m.
Proof.
  unfold visit. induction o as [|id o IH]; [done|]. cbn. rewrite lookup_fmap. destruct (m !! id); cbn; [f_equal|]; done.
Qed.

(** ** The largest window *)
Lemma getMaxCwnd_spec l :
  (forall os, os ∈ l -> 0 <= os_congestionWindow os) ->
  (forall os, os ∈ l -> os_congestionWindow os <= OliaS.getMaxCwnd l) /\
  (l <> [] -> exists os, os ∈ l /\ os_congestionWindow os = OliaS.getMaxCwnd l).
Proof.
  unfold OliaS.getMaxCwnd. induction l as [|x l IH] using rev_ind; intros Hp; [set_solver|].
  rewrite foldl_app. cbn [foldl]. set (b := foldl _ 0 l) in *. destruct IH as [I1 I2]; [set_solver|]. minmax. split.
  - intros os [Hos| ->%list_elem_of_singleton]%elem_of_app; [specialize (I1 os Hos); lia|lia].
  - intros _. destruct (Z.le_ge_cases b (os_congestionWindow x)) as [Hle|Hge].
    + exists x. split; [set_solver|lia].
    + destruct (decide (l = [])) as [->|Hne].
      * exists x. split; [set_solver|]. specialize (Hp x ltac:(set_solver)). cbn in b. subst b. lia.
      * destruct (I2 Hne) as (os & ? & ?). exists os. split; [set_solver|lia].
Qed.

Lemma getMaxCwnd_perm l l' :
  (forall os, os ∈ l -> 0 <= os_congestionWindow os) -> l ≡ₚ l' -> OliaS.getMaxCwnd l = OliaS.getMaxCwnd l'.
Proof.
  intros Hp H. destruct (decide (l = [])) as [->|Hne]; [by apply Permutation_nil in H as ->|].
  assert (Hne' : l' <> []) by (intros ->; by apply Permutation_nil_r in H).
  assert (Hp' : forall os, os ∈ l' -> 0 <= os_congestionWindow os) by (intros os; rewrite <- H; apply Hp).
  destruct (getMaxCwnd_spec l Hp) as [A1 A2]. destruct (getMaxCwnd_spec l' Hp') as [B1 B2].
  destruct (A2 Hne) as (x & Hx & Ex). destruct (B2 Hne') as (y & Hy & Ey).
  rewrite H in Hx. rewrite <- H in Hy. specialize (B1 x Hx). specialize (A1 y Hy). lia.
Qed.

(** ** The sizes of the sets *)
Definition inM (maxCwnd : Z) (os : OliaSender) : bool := os_congestionWindow os =? maxCwnd.
Definition inBNotM (maxCwnd : Z) (best : Z * Z) (os : OliaSender) : bool := negb (inM maxCwnd os) && OliaS.asGood best os.
Definition count (P : OliaSender -> bool) (l : list OliaSender) : Z := Z.of_nat (length (List.filter P l)).

Lemma count_snoc P l x : count P (l ++ [x]) = count P l + if P x then 1 else 0.
Proof. unfold count. rewrite List.filter_app, length_app. cbn. destruct (P x); cbn; lia. Qed.

Lemma count_le P l : 0 <= count P l <= Z.of_nat (length l).
Proof. unfold count. pose proof (List.filter_length_le P l). lia. Qed.

Lemma count_perm P l l' : l ≡ₚ l' -> count P l = count P l'.
Proof.
  intros H. unfold count. f_equal. apply Permutation_length. induction H; cbn; repeat case_match; try done.
  - by constructor.
  - by constructor.
  - by etransitivity.
Qed.

Lemma countSets_eq mx best l :
  (length l <= 255)%nat -> OliaS.countSets mx best l = (count (inM mx) l, count (inBNotM mx best) l).
Proof.
  unfold OliaS.countSets. induction l as [|x l IH] using rev_ind; intros Hl; [done|].
  rewrite length_app in Hl. cbn in Hl. rewrite foldl_app. cbn [foldl]. rewrite IH by lia. rewrite !count_snoc.
  pose proof (count_le (inM mx) l). pose proof (count_le (inBNotM mx best) l).
  change (inBNotM mx best x) with (negb (os_congestionWindow x =? mx) && OliaS.asGood best x).
  change (inM mx x) with (os_congestionWindow x =? mx).
  destruct (_ =? mx); cbn [negb andb].
  - rewrite uN_small by (unfold in_range; lia). f_equal. lia.
  - destruct (OliaS.asGood best x); [rewrite uN_small by (unfold in_range; lia)|]; f_equal; lia.
Qed.

(** ** The epsilons *)
Definition epsilon (os : OliaSender) : Q := (inject_Z (epsilonNum (olia os)) / inject_Z (epsilonDen (olia os)))%Q.
Definition sumEpsilon (l : list OliaSender) : Q := foldr (fun os acc => epsilon os + acc)%Q 0%Q l.

(** The epsilon a path gets, [b] paths being in B \ M and [n] in all. *)
Lemma setEpsilon_epsilon mx best M B len os :
  B <> 0 -> os_congestionWindow os <= mx ->
  epsilon (OliaS.setEpsilon mx best M B len os) =
  if inBNotM mx best os then (inject_Z 1 / inject_Z (u32 (u32 len * u32 B)))%Q
  else if inM mx os then (inject_Z (-1) / inject_Z (u32 (u32 len * u32 M)))%Q else (inject_Z 0 / inject_Z 1)%Q.
Proof.
  intros HB Hle. unfold OliaS.setEpsilon, inBNotM, inM. rewrite (proj2 (Z.eqb_neq B 0)) by done.
  destruct (Z.eqb_spec (os_congestionWindow os) mx) as [E|E].
  - rewrite (proj2 (Z.ltb_ge _ _)) by lia. done.
  - rewrite (proj2 (Z.ltb_lt _ _)) by lia. cbn [andb negb]. by destruct (OliaS.asGood best os).
Qed.

Lemma setEpsilon_sign mx best M B len os :
  os_congestionWindow os <= mx ->
  let os' := OliaS.setEpsilon mx best M B len os in
  (0 < epsilonNum (olia os') -> os_congestionWindow os < mx) /\ (epsilonNum (olia os') < 0 -> os_congestionWindow os = mx).
Proof.
  intros Hle. unfold OliaS.setEpsilon. destruct (B =? 0); [by cbn|].
  destruct (Z.ltb_spec (os_congestionWindow os) mx).
  { rewrite (proj2 (Z.eqb_neq _ mx)) by lia. destruct (OliaS.asGood best os); cbn; lia. }
  cbn [andb]. rewrite (proj2 (Z.eqb_eq _ mx)) by lia. cbn. split; intros; lia.
Qed.

Lemma sum_zero mx best M len l : (sumEpsilon (OliaS.setEpsilon mx best M 0 len <$> l) == 0)%Q.
Proof. induction l as [|x l IH]; cbn; [done|]. unfold sumEpsilon in IH. rewrite IH. reflexivity. Qed.

Lemma sum_set mx best M B len l :
  B <> 0 -> (forall os, os ∈ l -> os_congestionWindow os <= mx) ->
  (sumEpsilon (OliaS.setEpsilon mx best M B len <$> l) ==
   inject_Z (count (inBNotM mx best) l) * (inject_Z 1 / inject_Z (u32 (u32 len * u32 B)))
   + inject_Z (count (inM mx) l) * (inject_Z (-1) / inject_Z (u32 (u32 len * u32 M))))%Q.
Proof.
  intros HB. set (x := (inject_Z 1 / inject_Z (u32 (u32 len * u32 B)))%Q).
  set (y := (inject_Z (-1) / inject_Z (u32 (u32 len * u32 M)))%Q).
  induction l as [|os l IH]; intros Hl; [cbn; unfold count; cbn; ring|].
  cbn [fmap list_fmap sumEpsilon foldr]. fold (sumEpsilon (OliaS.setEpsilon mx best M B len <$> l)).
  rewrite IH by set_solver. rewrite setEpsilon_epsilon; [|done|apply Hl; set_solver]. fold x y.
  assert (C : forall P, count P (os :: l) = count P l + if P os then 1 else 0).
  { intros P. unfold count. cbn. destruct (P os); cbn; lia. }
  rewrite !C. assert (Hd : inBNotM mx best os = true -> inM mx os = false).
  { unfold inBNotM. intros [H _]%andb_true_iff. by apply negb_true_iff. }
  destruct (inBNotM mx best os); [rewrite Hd by done|destruct (inM mx os)]; rewrite !inject_Z_plus; cbn [inject_Z]; unfold Qdiv; ring.
Qed.

Lemma count_pos P l x : x ∈ l -> P x = true -> 0 < count P l.
Proof.
  intros Hx HP. unfold count. assert (H : x ∈ List.filter P l) by (apply list_elem_of_In, filter_In; by split; [apply list_elem_of_In|]).
  destruct (List.filter P l); [by apply not_elem_of_nil in H|cbn; lia].
Qed.

Lemma balance n a b :
  0 < n <= 255 -> 0 < a <= n -> 0 < b <= n ->
  (inject_Z b * (inject_Z 1 / inject_Z (u32 (u32 n * u32 b))) + inject_Z a * (inject_Z (-1) / inject_Z (u32 (u32 n * u32 a))) == 0)%Q.
Proof.
  intros Hn Ha Hb. rewrite !(uN_small 32 n), !(uN_small 32 a), !(uN_small 32 b) by (unfold in_range; lia).
  rewrite !uN_small by (unfold in_range; nia). rewrite !inject_Z_mult.
  assert (~ inject_Z n == 0)%Q by (change 0%Q with (inject_Z 0); rewrite inject_Z_injective; lia).
  assert (~ inject_Z a == 0)%Q by (change 0%Q with (inject_Z 0); rewrite inject_Z_injective; lia).
  assert (~ inject_Z b == 0)%Q by (change 0%Q with (inject_Z 0); rewrite inject_Z_injective; lia).
  change (inject_Z (-1)) with (- (1))%Q. change (inject_Z 1) with 1%Q. field. done.
Qed.

(** C27: when a sender recomputes the coupling, with any orders of the loops over the paths, the
    epsilons of all paths of the connection sum to zero: what the best paths with small windows gain is
    what the paths with the largest window give.  Only the latter have a negative epsilon and only paths
    below the largest window a positive one, and no window changes.  For up to 255 paths, the range of the
    8-bit counters. *)
Theorem olia_epsilons_balance order (m : Senders) o
  (Hm : (0 < size m <= 255)%nat) (Hp : forall id os, m !! id = Some os -> 0 <= os_congestionWindow os)
  (Hord : forall n, visits_all m (order n)) (Ho : visits_all m o) :
  let m' := OliaS.getEpsilon order m in
  let mx := OliaS.getMaxCwnd (visit o m) in
  (sumEpsilon (visit o m') == 0)%Q /\
  forall id os', m' !! id = Some os' -> exists os, m !! id = Some os /\
    os' = os <| olia := olia os <| epsilonNum := epsilonNum (olia os') |> <| epsilonDen := epsilonDen (olia os') |> |> /\
    (0 < epsilonNum (olia os') -> os_congestionWindow os < mx) /\
    (epsilonNum (olia os') < 0 -> os_congestionWindow os = mx).
Proof.
  intros m' mx. set (l := visit o m).
  assert (Hpl : forall os, os ∈ l -> 0 <= os_congestionWindow os).
  { intros os (id & H)%elem_of_visit; [by eapply Hp|done]. }
  assert (Hl : Z.of_nat (length l) = Z.of_nat (size m)) by (unfold l; by rewrite visit_length).
  assert (Hmx : OliaS.getMaxCwnd (visit (order 0%nat) m) = mx).
  { symmetry. apply getMaxCwnd_perm; [done|by apply visit_perm]. }
  pose proof (getEpsilon_map order m (Hord 3%nat)) as E. cbv zeta in E. rewrite Hmx in E. fold m' in E.
  set (best := OliaS.findBest _) in E. clearbody best.
  rewrite countSets_eq in E by (rewrite visit_length by done; lia). cbn [fst snd] in E.
  rewrite !(count_perm _ _ l (visit_perm m (order 2%nat) o (Hord 2%nat) Ho)) in E.
  destruct (getMaxCwnd_spec l Hpl) as [Mx1 Mx2]. fold mx in Mx1, Mx2.
  set (a := count (inM mx) l) in *. set (b := count (inBNotM mx best) l) in *.
  assert (Ha : 0 < a).
  { destruct Mx2 as (x & Hx & Ex); [intros ->; cbn in Hl; lia|]. eapply count_pos; [exact Hx|]. by apply Z.eqb_eq. }
  pose proof (count_le (inM mx) l). pose proof (count_le (inBNotM mx best) l). fold a b in H, H0. split.
  - rewrite E, visit_fmap. fold l. destruct (Z.eq_dec b 0) as [Eb|Eb]; [rewrite Eb; apply sum_zero|].
    rewrite sum_set by done. fold a b. apply balance; lia.
  - intros id os' H'. rewrite E, lookup_fmap in H'. destruct (m !! id) as [os|] eqn:Hos; [|done].
    injection H' as <-. exists os. split; [done|].
    assert (Hle : os_congestionWindow os <= mx) by (apply Mx1, elem_of_visit; [done|by exists id]).
    split; [|apply setEpsilon_sign; done].
    unfold OliaS.setEpsilon. repeat case_match; by destruct os as [? ? ? ? [] ? ? ? ? ? ? ? ? ? ? ? ? ?].
Qed.

(** Two paths of 10 and 20 packets, the first with more bytes between its losses. *)
Definition ex_sender (window bytes : Z) : OliaSender :=
  NewOliaSender (NewRTTStatsWithSmoothedRTT 50000000) window 2500
    <| olia := mkOlia 0 0 bytes 0 1 0 |> <| os_slowstartThreshold := 2 |>.
Definition ex_senders : Senders := {[ 1 := ex_sender 10 90000; 3 := ex_sender 20 30000 ]}.
Definition ex_ids : list Z := [1; 3].
Definition ex_order (n : nat) : list Z := if Nat.even n then [1; 3] else [3; 1].

Lemma ex_lookup id os :
  ex_senders !! id = Some os -> (id = 1 /\ os = ex_sender 10 90000) \/ (id = 3 /\ os = ex_sender 20 30000).
Proof.
  unfold ex_senders. rewrite lookup_insert_Some. intros [[<- <-]|[Hne H]]; [by left|].
  apply lookup_singleton_Some in H as [<- <-]. by right.
Qed.

Lemma ex_visits o : o = [1; 3] \/ o = [3; 1] -> visits_all ex_senders o.
Proof.
  intros Ho. assert (N : NoDup o) by (destruct Ho as [->| ->]; repeat constructor; set_solver). split; [done|].
  intros id. transitivity (id = 1 \/ id = 3); [destruct Ho as [->| ->]; set_solver|]. split.
  - intros [->| ->]; by eexists.
  - intros [os H]. apply ex_lookup in H as [[-> _]|[-> _]]; [by left|by right].
Qed.

Lemma olia_epsilons_balance_witness :
  let m' := OliaS.getEpsilon ex_order ex_senders in
  (sumEpsilon (visit ex_ids m') == 0)%Q /\
  (fun os => (epsilonNum (olia os), epsilonDen (olia os))) <$> visit ex_ids m' = [(1, 2); (-1, 2)].
Proof.
  intros m'. split; [|vm_compute; reflexivity].
  refine (proj1 (olia_epsilons_balance ex_order ex_senders ex_ids _ _ _ _)).
  - split; [apply Nat.ltb_lt|apply Nat.leb_le]; vm_compute; reflexivity.
  - intros id os [[_ ->]|[_ ->]]%ex_lookup; vm_compute; discriminate.
  - intros n. apply ex_visits. unfold ex_order. destruct (Nat.even n); [by left|by right].
  - apply ex_visits. by left.
Defined.

(** ** Runs of the senders *)

(** The quotient an acknowledgement adds to the counter. *)
Definition increment (w rate : Z) (o : OliaState) : Z :=
  let incDen := epsilonDen o *64 w *64 rate in
  let square := epsilonDen o *64 Olia.oliaScale w scale *64 Olia.oliaScale w scale in
  Olia.oliaScale (if epsilonNum o =? -1 then square -64 rate else (u64 (epsilonNum o) *64 rate) +64 square) scale
    / (if incDen =? 0 then 1 else incDen).

(** The acknowledgement does not overflow the counter. *)
Definition increment_fits (order : nat -> list Z) (id : Z) (m : Senders) : Prop :=
  forall os, OliaS.getEpsilon order m !! id = Some os ->
  increment (os_congestionWindow os)
    (OliaS.getRate (visit (order 4%nat) (OliaS.getEpsilon order m)) (rs_smoothedRTT (os_rttStats os))) (olia os) < 2 ^ 62.

(** The senders when the acknowledged packet is counted. *)
Definition counted (pn bytes id : Z) (m : Senders) : Senders :=
  alter (fun o => o <| os_largestAckedPacketNumber := utils.MaxPacketNumber pn (os_largestAckedPacketNumber o) |>
                    <| olia := Olia.UpdateAckedSinceLastLoss bytes (olia o) |>) id m.

Inductive olia_op :=
  | OSent (packetNumber bytes : Z) (isRetransmittable : bool)
  | OLost (packetNumber bytes bytesInFlight : Z)
  | OMaybeExit
  | OTimeout (packetsRetransmitted : bool)
  | OMigration
  | OConnections (n : Z)
  | OLargeReduction (enabled : bool)
  | ORtt (rtt : RTTStats).

Definition applyOp (op : olia_op) (o : OliaSender) : OliaSender :=
  match op with
  | OSent pn bytes retransmittable => (OliaS.OnPacketSent pn bytes retransmittable o).1
  | OLost pn bytes inFlight => OliaS.OnPacketLost pn bytes inFlight o
  | OMaybeExit => OliaS.MaybeExitSlowStart o
  | OTimeout retransmitted => OliaS.OnRetransmissionTimeout retransmitted o
  | OMigration => OliaS.OnConnectionMigration o
  | OConnections n => OliaS.SetNumEmulatedConnections n o
  | OLargeReduction enabled => OliaS.SetSlowStartLargeReduction enabled o
  | ORtt rtt => o <| os_rttStats := rtt |>
  end.

(** A path is opened, a sender is told something about its own packets or its round-trip times change, or
    a packet is acknowledged.  With [fits] the counters of the acknowledgements do not overflow. *)
Inductive olia_step (fits : bool) (initial max : Z) : Senders -> Senders -> Prop :=
  | step_open m id rtt : m !! id = None -> olia_step fits initial max m (<[id := NewOliaSender rtt initial max]> m)
  | step_own m id op :
      (forall n, op = OConnections n -> n <= maxConnections) ->
      olia_step fits initial max m (alter (applyOp op) id m)
  | step_acked m id order pn bytes inFlight :
      (forall n, visits_all m (order n)) ->
      (fits = true -> increment_fits order id (counted pn bytes id m)) ->
      olia_step fits initial max m (OliaS.OnPacketAcked order pn bytes inFlight id m).

Section OliaInvariant.
Variables (fits : bool) (initial max : Z).
Hypotheses (Hinit : 2 <= initial <= max) (Hmax : max < 2 ^ 24).

Definition lowest : Z := if fits then 2 else 1.

Record olia_ok (o : OliaSender) : Prop := {
  oo_window : lowest <= os_congestionWindow o <= max;
  oo_threshold : 0 <= os_slowstartThreshold o <= max;
  oo_min : os_minCongestionWindow o = 2;
  oo_max : os_maxTCPCongestionWindow o = max;
  oo_initial : os_initialCongestionWindow o = initial;
  oo_initialMax : os_initialMaxCongestionWindow o = max;
  oo_num : 1 <= os_numConnections o <= maxConnections;
  oo_count : -1023 < sndCwndCnt (olia o) < 1023
}.

Definition senders_ok (m : Senders) : Prop := forall id o, m !! id = Some o -> olia_ok o.

Lemma lowest_range : 1 <= lowest <= 2.
Proof. unfold lowest. destruct fits; lia. Qed.

Lemma olia_ok_new rtt : olia_ok (NewOliaSender rtt initial max).
Proof. pose proof lowest_range. split; cbn; unfold defaultMinimumCongestionWindow, defaultNumConnections, maxConnections; lia. Qed.

Lemma OliaRenoBeta o c : os_numConnections o = cu_numConnections c -> OliaS.RenoBeta o = CubicAlg.backoff c.
Proof. unfold OliaS.RenoBeta, CubicAlg.backoff. by intros ->. Qed.

Lemma lostAgain_olia bytes o : olia_ok o -> olia_ok (OliaS.lostAgain bytes o).
Proof.
  pose proof lowest_range as Hlow. intros H. unfold OliaS.lostAgain. destruct (os_lastCutbackExitedSlowstart o); [|done].
  set (o1 := o <| os_stats := _ |>). assert (H1 : olia_ok o1) by (destruct H; by split).
  destruct (os_slowStartLargeReduction o1); [|done]. destruct H1. cbv zeta.
  assert (E : os_congestionWindow o1 -64 1 = os_congestionWindow o1 - 1) by (apply uN_small; unfold in_range; lia).
  assert (Hw : 2 <= utils.MaxPacketNumber (os_congestionWindow o1 -64 1) (os_minCongestionWindow o1) <= max)
    by (rewrite E, oo_min0; minmax; lia).
  set (w := utils.MaxPacketNumber _ _) in *. clearbody w o1. case_match; split; cbn; try done; lia.
Qed.

Lemma lost_olia pn bytes inFlight o : olia_ok o -> olia_ok (OliaS.OnPacketLost pn bytes inFlight o).
Proof.
  pose proof lowest_range. intros H0. unfold OliaS.OnPacketLost. destruct (pn <=? _); [by apply lostAgain_olia|].
  set (o1 := o <| os_lastCutbackExitedSlowstart := _ |>). set (o2 := if OliaS.InSlowStart o1 then _ else o1).
  set (o3 := o2 <| os_prr := _ |>). set (o4 := o3 <| olia := _ |>).
  assert (H4 : olia_ok o4).
  { assert (olia_ok o2) as [] by (unfold o2; case_match; destruct H0; by split). by split. }
  clearbody o4. clear o1 o2 o3. destruct H4.
  set (n := CubicAlg.NewCubic <| cu_numConnections := os_numConnections o4 |>).
  assert (Hn : 1 <= cu_numConnections n <= maxConnections) by exact oo_num0.
  pose proof (backoff_low n Hn) as B1. pose proof (backoff_high n Hn) as B2.
  rewrite (OliaRenoBeta o4 n eq_refl).
  pose proof (reduced_range (os_congestionWindow o4) (CubicAlg.backoff n) ltac:(lia) B1 B2) as Hr.
  set (w := u64 (f32.trunc _)) in *. clearbody w. clear B1 B2.
  assert (E : os_congestionWindow o4 -64 1 = os_congestionWindow o4 - 1) by (apply uN_small; unfold in_range; lia).
  rewrite E. destruct (os_slowStartLargeReduction o4 && _); cbn; case_match; split; cbn; try done; lia.
Qed.

Lemma own_olia op o : (forall n, op = OConnections n -> n <= maxConnections) -> olia_ok o -> olia_ok (applyOp op o).
Proof.
  pose proof lowest_range. intros Hop H0. destruct op as [pn b r|pn b f| |r| |n|e|rtt]; cbn [applyOp].
  - unfold OliaS.OnPacketSent. destruct (negb r); [done|]. cbn. destruct H0. case_match; by split.
  - by apply lost_olia.
  - unfold OliaS.MaybeExitSlowStart. case_match; [|done]. destruct (Hybrid.ShouldExitSlowStart _ _ _ _) as [h exit].
    destruct H0. case_match; split; cbn; try done; lia.
  - unfold OliaS.OnRetransmissionTimeout. case_match; destruct H0; [by split|].
    assert (0 <= os_congestionWindow o / 2 <= max) by (split; [apply Z.div_pos; lia|apply Z.div_le_upper_bound; lia]).
    split; cbn; try done; lia.
  - destruct H0. split; cbn; try done; lia.
  - destruct H0. specialize (Hop n eq_refl). unfold maxConnections in *. split; cbn; try done. minmax. unfold maxConnections. lia.
  - destruct H0. by split.
  - destruct H0. by split.
Qed.

(** *** Acknowledgements *)
Lemma countSets_some mx best l :
  (OliaS.countSets mx best l).2 <> 0 -> exists os, os ∈ l /\ os_congestionWindow os <> mx.
Proof.
  unfold OliaS.countSets. induction l as [|x l IH] using rev_ind; [done|]. rewrite foldl_app. cbn [foldl].
  destruct (foldl _ (0, 0) l) as [M B]. intros H. destruct (Z.eqb_spec (os_congestionWindow x) mx) as [E|E].
  - destruct (IH H) as (os & ? & ?). exists os. split; [set_solver|done].
  - exists x. split; [set_solver|done].
Qed.

Lemma setEpsilon_same mx best M B len o :
  let o' := OliaS.setEpsilon mx best M B len o in
  (olia_ok o -> olia_ok o') /\ os_congestionWindow o' = os_congestionWindow o /\
  (epsilonNum (olia o') = -1 -> B <> 0 /\ os_congestionWindow o = mx).
Proof.
  unfold OliaS.setEpsilon. destruct (Z.eqb_spec B 0) as [E|E].
  { split; [intros []; by split|]. split; [done|]. by cbn. }
  destruct (_ && _). { split; [intros []; by split|]. split; [done|]. by cbn. }
  destruct (Z.eqb_spec (os_congestionWindow o) mx); (split; [intros []; by split|split; [done|by cbn]]).
Qed.

Lemma getEpsilon_ok order m : (forall n, visits_all m (order n)) -> senders_ok m -> senders_ok (OliaS.getEpsilon order m).
Proof.
  intros Hv Hok id o H. rewrite getEpsilon_map in H by done. rewrite lookup_fmap in H.
  destruct (m !! id) as [o0|] eqn:E; [|done]. injection H as <-. apply setEpsilon_same. by eapply Hok.
Qed.

(** A sender whose epsilon is negative has more packets than another one. *)
Lemma getEpsilon_negative order m id o :
  (forall n, visits_all m (order n)) -> senders_ok m -> OliaS.getEpsilon order m !! id = Some o ->
  epsilonNum (olia o) = -1 -> lowest + 1 <= os_congestionWindow o.
Proof.
  intros Hv Hok H Hneg. pose proof lowest_range as Hlow. rewrite getEpsilon_map in H by done. rewrite lookup_fmap in H.
  destruct (m !! id) as [o0|] eqn:E; [|done]. injection H as <-.
  destruct (setEpsilon_same (OliaS.getMaxCwnd (visit (order 0%nat) m)) (OliaS.findBest (visit (order 1%nat) m))
    (OliaS.countSets (OliaS.getMaxCwnd (visit (order 0%nat) m)) (OliaS.findBest (visit (order 1%nat) m)) (visit (order 2%nat) m)).1
    (OliaS.countSets (OliaS.getMaxCwnd (visit (order 0%nat) m)) (OliaS.findBest (visit (order 1%nat) m)) (visit (order 2%nat) m)).2
    (Z.of_nat (size m)) o0) as (_ & Ew & Hn). destruct (Hn Hneg) as [HB Hmx]. rewrite Ew, Hmx.
  destruct (countSets_some _ _ _ HB) as (x & Hx & Hne). apply elem_of_visit in Hx as [idx Hx]; [|done].
  pose proof (oo_window _ (Hok idx x Hx)).
  assert (Hp : forall os, os ∈ visit (order 0%nat) m -> 0 <= os_congestionWindow os).
  { intros os (i & Hi)%elem_of_visit; [|done]. pose proof (oo_window _ (Hok i os Hi)). lia. }
  destruct (getMaxCwnd_spec _ Hp) as [M1 _]. pose proof (M1 x ltac:(apply elem_of_visit; [done|by exists idx])). lia.
Qed.

Lemma afterAck_window w rate ol :
  lowest <= w < max -> -1023 < sndCwndCnt ol < 1023 ->
  (epsilonNum ol = -1 -> lowest + 1 <= w) -> (fits = true -> increment w rate ol < 2 ^ 62) ->
  let '(ol', w') := Olia.CongestionWindowAfterAck w rate (Olia.oliaScale w scale) ol in
  lowest <= w' <= max /\ -1023 < sndCwndCnt ol' < 1023.
Proof.
  intros Hw Hc Hneg Hfit. pose proof lowest_range as Hlow. unfold Olia.CongestionWindowAfterAck.
  change (Z.shiftl 1 scale - 1) with 1023. change (0 - Z.shiftl 1 scale + 1) with (-1023).
  rewrite (uN_small 64 (w + 1)), (uN_small 64 (w - 1)) by (unfold in_range; lia).
  destruct (Z.leb_spec 1023 (Olia.stepCount w rate (Olia.oliaScale w scale) ol)) as [H1|H1]; [cbn; lia|].
  destruct (Z.leb_spec (Olia.stepCount w rate (Olia.oliaScale w scale) ol) (-1023)) as [H2|H2]; [|cbn; lia].
  cbn [sndCwndCnt setField set_sndCwndCnt]. minmax. split; [|cbn; lia]. split; [|lia].
  destruct (Z.eq_dec lowest 1) as [El|El]; [lia|]. assert (Hf : fits = true) by (unfold lowest in El; by destruct fits).
  specialize (Hfit Hf). destruct (Z.eq_dec (epsilonNum ol) (-1)) as [En|En]; [specialize (Hneg En); lia|]. exfalso.
  revert H2 Hfit. unfold Olia.stepCount, increment. rewrite (proj2 (Z.eqb_neq _ _)) by done.
  set (q := _ / (if _ =? 0 then 1 else _)).
  assert (0 <= q).
  { apply Z.div_pos; [apply u64_range|]. pose proof (u64_range (epsilonDen ol *64 w * rate)) as R. unfold in_range in R.
    destruct (Z.eqb_spec (epsilonDen ol *64 w *64 rate) 0); lia. }
  clearbody q. intros H2 Hq. rewrite (i64_small q) in H2 by (unfold is_i64; lia).
  rewrite i64_small in H2 by (unfold is_i64; lia). lia.
Qed.

Lemma maybeIncrease_olia order inFlight id m :
  (forall n, visits_all m (order n)) -> (fits = true -> increment_fits order id m) ->
  senders_ok m -> senders_ok (OliaS.maybeIncreaseCwnd order inFlight id m).
Proof.
  intros Hv Hfit Hok. unfold OliaS.maybeIncreaseCwnd. destruct (m !! id) as [o|] eqn:Eo; [|done].
  destruct (negb _); [done|]. destruct (Z.leb_spec (os_maxTCPCongestionWindow o) (os_congestionWindow o)) as [|Hlt]; [done|].
  pose proof (Hok id o Eo) as Ho. pose proof lowest_range as Hlow. destruct (OliaS.InSlowStart o).
  { intros id' o'. rewrite lookup_insert_Some. intros [[<- <-]|[_ H']]; [|by eapply Hok]. destruct Ho.
    split; cbn; try done. rewrite uN_small by (unfold in_range; lia). lia. }
  set (m1 := OliaS.getEpsilon order m). pose proof (getEpsilon_ok order m Hv Hok) as Hok1. fold m1 in Hok1.
  intros id' o' H'. apply lookup_alter_Some in H' as [(<- & o1 & E1 & ->)|[_ H']]; [|by eapply Hok1].
  pose proof (Hok1 id o1 E1) as []. pose proof (getEpsilon_negative order m id o1 Hv Hok E1) as Hneg.
  assert (Ew : os_congestionWindow o = os_congestionWindow o1 /\ os_rttStats o = os_rttStats o1).
  { unfold m1 in E1. rewrite getEpsilon_map, lookup_fmap, Eo in E1 by done. injection E1 as <-. cbn. unfold OliaS.setEpsilon. repeat case_match; done. }
  destruct Ew as [Ew Er]. rewrite Ew, Er in *. destruct Ho. rewrite Ew in *.
  set (rate := OliaS.getRate _ _).
  pose proof (afterAck_window (os_congestionWindow o1) rate (olia o1) ltac:(lia) oo_count0 Hneg) as Ha.
  assert (Hf : fits = true -> increment (os_congestionWindow o1) rate (olia o1) < 2 ^ 62) by (intros Hf; by apply Hfit).
  specialize (Ha Hf). destruct (Olia.CongestionWindowAfterAck _ _ _ _) as [ol w]. destruct Ha as [Hw Hc].
  split; cbn; try done. rewrite oo_max0. minmax. lia.
Qed.

Lemma visits_insert m id o l : is_Some (m !! id) -> visits_all m l -> visits_all (<[id := o]> m) l.
Proof.
  intros Hid [N H]. split; [done|]. intros k. rewrite H, lookup_insert_is_Some'. split; [by right|intros [<-|]; done].
Qed.

Lemma acked_olia order pn bytes inFlight id m :
  (forall n, visits_all m (order n)) -> (fits = true -> increment_fits order id (counted pn bytes id m)) ->
  senders_ok m -> senders_ok (OliaS.OnPacketAcked order pn bytes inFlight id m).
Proof.
  intros Hv Hfit Hok. unfold OliaS.OnPacketAcked. destruct (m !! id) as [o|] eqn:Eo; [|done].
  pose proof (Hok id o Eo) as Ho. set (o1 := o <| os_largestAckedPacketNumber := _ |>).
  assert (H1 : olia_ok o1) by (destruct Ho; by split).
  assert (Hi : forall o', olia_ok o' -> senders_ok (<[id := o']> m)).
  { intros o' Ho' i x. rewrite lookup_insert_Some. intros [[<- <-]|[_ H']]; [done|by eapply Hok]. }
  destruct (OliaS.InRecovery o1); [apply Hi; destruct H1; by split|].
  set (o2 := o1 <| olia := _ |>). assert (H2 : olia_ok o2) by (destruct H1; by split).
  assert (Ec : counted pn bytes id m = <[id := o2]> m).
  { unfold counted. apply map_eq. intros k. destruct (decide (k = id)) as [->|Hne].
    - by rewrite lookup_alter_eq, lookup_insert_eq, Eo.
    - by rewrite lookup_alter_ne, lookup_insert_ne by congruence. }
  rewrite Ec in Hfit.
  pose proof (maybeIncrease_olia order inFlight id (<[id := o2]> m)) as H3.
  specialize (H3 ltac:(intros n; apply visits_insert; [by rewrite Eo|done]) Hfit (Hi o2 H2)).
  intros i x H'. apply lookup_alter_Some in H' as [(<- & o3 & E3 & ->)|[_ H']]; [|by eapply H3].
  pose proof (H3 id o3 E3) as H4. destruct (OliaS.InSlowStart o3); [destruct H4; by split|done].
Qed.

Lemma olia_step_ok m m' : olia_step fits initial max m m' -> senders_ok m -> senders_ok m'.
Proof.
  intros Hs Hok. destruct Hs as [m id rtt Hn|m id op Hop|m id order pn bytes inFlight Hv Hfit].
  - intros i x. rewrite lookup_insert_Some. intros [[<- <-]|[_ H]]; [apply olia_ok_new|by eapply Hok].
  - intros i x H. apply lookup_alter_Some in H as [(<- & o & Eo & ->)|[_ H]]; [|by eapply Hok].
    apply own_olia; [done|by eapply Hok].
  - by apply acked_olia.
Qed.

Lemma olia_reachable_ok m : rtc (olia_step fits initial max) ∅ m -> senders_ok m.
Proof.
  intros H. assert (Hg : forall a b, rtc (olia_step fits initial max) a b -> senders_ok a -> senders_ok b).
  { intros a b Hab. induction Hab as [|a b c Hab _ IH]; [done|]. intros Ha. apply IH. by eapply olia_step_ok. }
  apply (Hg ∅ m H). intros id o Hl. by rewrite lookup_empty in Hl.
Qed.
End OliaInvariant.

(** C26: in every run of the coupled senders of a connection (paths opened at any time, packets sent,
    acknowledged and lost on any path, timeouts, changing round-trip times, any order of the loops
    over the shared map) each window is between one packet and the maximum; it is even two packets or more,
    the minimum the code enforces after losses, when no acknowledgement overflows the counter of a sender:
    only the path with the strictly largest window shrinks for the others.  A threshold never exceeds the
    maximum. *)
Theorem olia_window_bounds fits initial max m id o
  (Hinit : 2 <= initial <= max) (Hmax : max < 2 ^ 24) (Hr : rtc (olia_step fits initial max) ∅ m)
  (Ho : m !! id = Some o) :
  (if fits then 2 else 1) <= os_congestionWindow o <= max /\ 0 <= os_slowstartThreshold o <= max /\
  OliaS.GetCongestionWindow o = os_congestionWindow o * DefaultTCPMSS.
Proof.
  pose proof (olia_reachable_ok fits initial max Hinit Hmax m Hr id o Ho) as []. pose proof (lowest_range fits).
  split; [done|]. split; [done|]. unfold OliaS.GetCongestionWindow. apply (bytes_small max); lia.
Qed.

(** Two paths are opened; the first is acknowledged a packet in slow start. *)
Definition ex_open : Senders := <[3 := NewOliaSender zeroRTTStats 32 2500]> (<[1 := NewOliaSender zeroRTTStats 32 2500]> ∅).
Definition ex_acked : Senders := OliaS.OnPacketAcked ex_order 7 1400 46720 1 ex_open.

Lemma ex_open_visits n : visits_all ex_open (ex_order n).
Proof.
  assert (K : forall id, is_Some (ex_open !! id) <-> id = 1 \/ id = 3).
  { intros id. unfold ex_open. rewrite !lookup_insert_is_Some', lookup_empty. split; [|naive_solver].
    intros [?|[?|[x Hx]]]; [by right|by left|done]. }
  split; [unfold ex_order; destruct (Nat.even n); repeat constructor; set_solver|].
  intros id. rewrite K. unfold ex_order. destruct (Nat.even n); set_solver.
Qed.

Lemma ex_acked_reachable : rtc (olia_step true 32 2500) ∅ ex_acked.
Proof.
  eapply rtc_l; [apply (step_open _ _ _ ∅ 1 zeroRTTStats); apply lookup_empty|].
  eapply rtc_l; [apply (step_open _ _ _ _ 3 zeroRTTStats); vm_compute; reflexivity|].
  eapply rtc_l; [|apply rtc_refl]. apply (step_acked true 32 2500 ex_open 1 ex_order 7 1400 46720 ex_open_visits).
  intros _ os Hos. assert (E : Some os = OliaS.getEpsilon ex_order (counted 7 1400 1 ex_open) !! 1) by done.
  vm_compute in E. injection E as ->. vm_compute. reflexivity.
Qed.

Lemma olia_window_bounds_witness :
  (forall o, ex_acked !! 1 = Some o -> 2 <= os_congestionWindow o <= 2500) /\
  os_congestionWindow <$> ex_acked !! 1 = Some 33.
Proof.
  split; [|vm_compute; reflexivity]. intros o Ho.
  exact (proj1 (olia_window_bounds true 32 2500 ex_acked 1 o ltac:(lia) ltac:(lia) ex_acked_reachable Ho)).
Defined.

(** ** A path of its own *)
Lemma visits_single id o l : visits_all {[ id := o ]} l -> l = [id].
Proof.
  intros [N H]. assert (P : l ≡ₚ [id]).
  { apply NoDup_Permutation; [done|apply NoDup_singleton|]. intros k. rewrite H, list_elem_of_singleton.
    destruct (decide (k = id)) as [->|Hne].
    - rewrite lookup_singleton_eq. split; [done|by eexists].
    - rewrite lookup_singleton_ne by congruence. split; [by intros [? ?]|done]. }
  by apply Permutation_singleton_r in P.
Qed.

Lemma getEpsilon_single id o order :
  (forall n, visits_all {[ id := o ]} (order n)) -> 0 <= os_congestionWindow o ->
  OliaS.getEpsilon order {[ id := o ]} =
  {[ id := o <| olia := olia o <| epsilonNum := 0 |> <| epsilonDen := 1 |> |> ]}.
Proof.
  intros Hv Hw. rewrite getEpsilon_map by done. rewrite map_fmap_singleton.
  rewrite !(visits_single id o (order _)) by done. unfold visit. cbn [omap list_omap]. rewrite lookup_singleton_eq.
  unfold OliaS.getMaxCwnd, OliaS.countSets. cbn [foldl].
  assert (E : utils.MaxPacketNumber 0 (os_congestionWindow o) = os_congestionWindow o) by (minmax; lia).
  rewrite E, Z.eqb_refl. done.
Qed.

(** The rate of a single path is the square of its scaled window, and the increment the 1024th part of a
    packet for each packet of the window, rounded down. *)
Lemma increment_single w srtt :
  1024 <= w <= 2500 -> 0 < srtt < 2 ^ 40 ->
  let rate := (1 +64 ((w <<64 scale) *64 u64 srtt) / u64 srtt) *64 (1 +64 ((w <<64 scale) *64 u64 srtt) / u64 srtt) in
  Olia.oliaScale ((u64 0 *64 rate) +64 (1 *64 (w <<64 scale) *64 (w <<64 scale))) scale
    / (if 1 *64 w *64 rate =? 0 then 1 else 1 *64 w *64 rate) = 0.
Proof.
  intros Hw Hs. unfold Olia.oliaScale. rewrite !Z.shiftl_mul_pow2 by done. change (2 ^ scale) with 1024.
  rewrite (uN_small 64 srtt) by (unfold in_range; lia). rewrite (uN_small 64 (w * 1024)) by (unfold in_range; lia).
  rewrite (uN_small 64 (w * 1024 * srtt)) by (unfold in_range; nia). rewrite Z.div_mul by lia.
  rewrite (uN_small 64 (1 + w * 1024)) by (unfold in_range; lia).
  set (x := w * 1024). assert (Hx : 1048576 <= x <= 2560000) by lia.
  rewrite (uN_small 64 ((1 + x) * (1 + x))) by (unfold in_range; nia). set (r := (1 + x) * (1 + x)).
  assert (Hr : x * x < r <= 6553610000000) by (unfold r; nia). change (u64 0) with 0. change (u64 (0 * r)) with 0.
  rewrite (uN_small 64 (1 * w)) by (unfold in_range; lia). rewrite (uN_small 64 (1 * w * r)) by (unfold in_range; nia).
  rewrite (uN_small 64 (1 * x)) by (unfold in_range; lia). rewrite (uN_small 64 (1 * x * x)) by (unfold in_range; nia).
  rewrite (uN_small 64 (0 + 1 * x * x)) by (unfold in_range; nia).
  rewrite (uN_small 64 ((0 + 1 * x * x) * 1024)) by (unfold in_range; nia).
  rewrite (proj2 (Z.eqb_neq (1 * w * r) 0)) by nia. apply Z.div_small. nia.
Qed.

(** The acknowledgement changes nothing when the increment is zero. *)
Lemma afterAck_stalls w srtt ol :
  1024 <= w <= 2500 -> 0 < srtt < 2 ^ 40 -> epsilonNum ol = 0 -> epsilonDen ol = 1 -> -1023 < sndCwndCnt ol < 1023 ->
  let rate := (1 +64 (Olia.oliaScale w scale *64 u64 srtt) / u64 srtt) *64 (1 +64 (Olia.oliaScale w scale *64 u64 srtt) / u64 srtt) in
  Olia.CongestionWindowAfterAck w rate (Olia.oliaScale w scale) ol = (ol, w).
Proof.
  intros Hw Hs En Ed Hc rate. unfold Olia.CongestionWindowAfterAck.
  assert (E : Olia.stepCount w rate (Olia.oliaScale w scale) ol = sndCwndCnt ol).
  { unfold Olia.stepCount. rewrite En, Ed. cbn [Z.eqb]. set (q := _ / _).
    assert (Hq : q = 0) by exact (increment_single w srtt Hw Hs). rewrite Hq.
    change (i64 0) with 0. rewrite Z.add_0_r. apply i64_small. unfold is_i64. lia. }
  rewrite E. change (Z.shiftl 1 scale - 1) with 1023. change (0 - Z.shiftl 1 scale + 1) with (-1023).
  rewrite (proj2 (Z.leb_gt 1023 _)), (proj2 (Z.leb_gt _ (-1023))) by lia. by destruct ol.
Qed.

(** The counter of the coupled window has a resolution of 1/1024 packet, so a window of 1024 packets
    or more no longer grows in congestion avoidance: on a connection whose only coupled path has such a
    window, no acknowledgement changes the window or the counter, although the maximum is 2500. *)
Theorem olia_growth_stops id o order pn bytes inFlight
  (Hv : forall n, visits_all {[ id := o ]} (order n)) (Hw : 1024 <= os_congestionWindow o < 2500)
  (Hmax : os_maxTCPCongestionWindow o = 2500) (Ht : 0 <= os_slowstartThreshold o <= os_congestionWindow o)
  (Hs : 0 < rs_smoothedRTT (os_rttStats o) < 2 ^ 40) (Hc : -1023 < sndCwndCnt (olia o) < 1023) :
  exists o', OliaS.OnPacketAcked order pn bytes inFlight id {[ id := o ]} !! id = Some o' /\
    os_congestionWindow o' = os_congestionWindow o /\ sndCwndCnt (olia o') = sndCwndCnt (olia o).
Proof.
  unfold OliaS.OnPacketAcked. rewrite lookup_singleton_eq. set (o1 := o <| os_largestAckedPacketNumber := _ |>).
  destruct (OliaS.InRecovery o1).
  { eexists. split; [apply lookup_insert_eq|done]. }
  set (o2 := o1 <| olia := _ |>). rewrite insert_singleton_eq.
  assert (Hv2 : forall n, visits_all {[ id := o2 ]} (order n)).
  { intros n. rewrite (visits_single id o (order n)) by done. split; [apply NoDup_singleton|]. intros k.
    rewrite list_elem_of_singleton, lookup_singleton_is_Some. split; congruence. }
  assert (Hm : exists o3, OliaS.maybeIncreaseCwnd order inFlight id {[ id := o2 ]} = {[ id := o3 ]} /\
    os_congestionWindow o3 = os_congestionWindow o /\ sndCwndCnt (olia o3) = sndCwndCnt (olia o)).
  { unfold OliaS.maybeIncreaseCwnd. rewrite lookup_singleton_eq.
    destruct (negb _); [by exists o2|]. destruct (_ <=? _); [by exists o2|].
    assert (OliaS.InSlowStart o2 = false) as ->.
    { unfold OliaS.InSlowStart, OliaS.GetCongestionWindow, OliaS.GetSlowStartThreshold. apply Z.ltb_ge.
      change (os_slowstartThreshold o2) with (os_slowstartThreshold o). change (os_congestionWindow o2) with (os_congestionWindow o).
      rewrite !(bytes_small 2500) by lia. unfold DefaultTCPMSS. lia. }
    rewrite getEpsilon_single by (done || (cbn; lia)). set (o3 := o2 <| olia := _ |>).
    rewrite (visits_single id o2 (order 4%nat)) by done. unfold visit. cbn [omap list_omap]. rewrite lookup_singleton_eq.
    unfold OliaS.getRate. cbn [foldl]. change (rs_smoothedRTT (os_rttStats o3)) with (rs_smoothedRTT (os_rttStats o)).
    change (rs_smoothedRTT (os_rttStats o2)) with (rs_smoothedRTT (os_rttStats o)).
    change (os_congestionWindow o3) with (os_congestionWindow o). change (os_congestionWindow o2) with (os_congestionWindow o).
    rewrite (proj2 (Z.eqb_neq (rs_smoothedRTT (os_rttStats o)) 0)) by lia. cbn [negb].
    rewrite alter_singleton_eq. change (os_congestionWindow o3) with (os_congestionWindow o).
    rewrite (afterAck_stalls (os_congestionWindow o) (rs_smoothedRTT (os_rttStats o)) (olia o3)) by (done || lia).
    eexists. split; [reflexivity|]. cbn. split; [minmax; lia|done]. }
  destruct Hm as (o3 & -> & Hw3 & Hc3). rewrite alter_singleton_eq. eexists. split; [apply lookup_singleton_eq|].
  by destruct (OliaS.InSlowStart o3).
Qed.

(** A path of 1500 packets with 50 ms of round trip. *)
Lemma olia_growth_stops_witness :
  let o := ex_sender 1500 0 in
  exists o', OliaS.OnPacketAcked (fun _ => [1]) 7 1400 4000000 1 {[ 1 := o ]} !! 1 = Some o' /\
    os_congestionWindow o' = os_congestionWindow o /\ sndCwndCnt (olia o') = sndCwndCnt (olia o).
Proof.
  intros o. apply (olia_growth_stops 1 o (fun _ => [1]) 7 1400 4000000).
  - intros _. split; [apply NoDup_singleton|]. intros k. rewrite list_elem_of_singleton, lookup_singleton_is_Some. split; congruence.
  - split; [vm_compute; discriminate|vm_compute; reflexivity].
  - reflexivity.
  - split; vm_compute; discriminate.
  - split; vm_compute; reflexivity.
  - split; vm_compute; reflexivity.
Defined.
