(* ===== verification/LinkedList.v ===== *)
(** * The doubly linked lists

    Models [internal/utils/packetinterval_linkedlist.go]; [byteinterval_linkedlist.go] and
    [ackhandler/packet_linkedlist.go] are the same generated code at another value type.  The store
    holds the elements by address; a list is a ring through the element [root] that is a field of
    the list itself.  The ring is shown to implement sequences: this is what the models of the
    received packets, of the sent packets and of the gaps of a stream rely on when they use lists. *)
From S2P Require Import Prelude.

(** ** The store *)

(** The address of the field [root] of a list, or of an element allocated on its own. *)
Inductive pointer :=
  | Root (l : Z)
  | Elt (a : Z).

#[export] Instance pointer_eq_dec : EqDecision pointer.
Proof. solve_decision. Defined.

#[export] Instance pointer_countable : Countable pointer.
Proof.
  refine (inj_countable'
    (fun p => match p with Root l => inl l | Elt a => inr a end)
    (fun x => match x with inl l => Root l | inr a => Elt a end) _).
  by intros [].
Defined.

Section Store.
Context {V : Type}.

Record Element := mkElement {
  next : option pointer;
  prev : option pointer;
  list_ : option Z;
  Value : V
}.

Definition eta_element (e : Element) : Element :=
  mkElement (next e) (prev e) (list_ e) (Value e).
#[export] Instance set_next : Setter next := ltac:(field_setter eta_element).
#[export] Instance set_prev : Setter prev := ltac:(field_setter eta_element).
#[export] Instance set_list : Setter list_ := ltac:(field_setter eta_element).
#[export] Instance set_Value : Setter Value := ltac:(field_setter eta_element).

(** [len] is the field of that name of each list; [fresh_] is the next free address. *)
Record store := mkStore {
  elements : gmap pointer Element;
  len : gmap Z Z;
  fresh_ : Z
}.
End Store.
Arguments Element V : clear implicits.
Arguments store V : clear implicits.

(** Code that reads and writes the store. *)
Definition Heap (V A : Type) : Type := store V -> outcome (A * store V).

#[export] Instance heap_ret {V} : MRet (Heap V) := fun A a st => Ret (a, st).
#[export] Instance heap_bind {V} : MBind (Heap V) := fun A B k m st =>
  match m st with
  | Ret (a, st') => k a st'
  | Err e => Err e
  | Panic s => Panic s
  end.

Module LinkedList.
Section Operations.
Context {V : Type}.
Implicit Types (l : Z) (e mark : pointer) (v : V).

(** A pointer that must not be nil. *)
Definition deref (p : option pointer) : Heap V pointer := fun st =>
  match p with
  | Some p => Ret (p, st)
  | None => Panic "nil pointer dereference"
  end.

Definition load (p : pointer) : Heap V (Element V) := fun st =>
  match elements st !! p with
  | Some x => Ret (x, st)
  | None => Panic "nil pointer dereference"
  end.

Definition assign (p : pointer) (f : Element V -> Element V) : Heap V unit := fun st =>
  match elements st !! p with
  | Some x => Ret (tt, mkStore (<[p := f x]> (elements st)) (len st) (fresh_ st))
  | None => Panic "nil pointer dereference"
  end.

Definition getLen l : Heap V Z := fun st =>
  match len st !! l with
  | Some n => Ret (n, st)
  | None => Panic "nil pointer dereference"
  end.

Definition setLen l (n : Z) : Heap V unit := fun st =>
  Ret (tt, mkStore (elements st) (<[l := n]> (len st)) (fresh_ st)).

(** [&Element{Value: v}] *)
Definition alloc v : Heap V pointer := fun st =>
  let p := Elt (fresh_ st) in
  Ret (p, mkStore (<[p := mkElement None None None v]> (elements st)) (len st) (fresh_ st + 1)).

(** *** Elements *)
Definition Next e : Heap V (option pointer) :=
  x ← load e;
  mret (match list_ x with
        | Some l => if decide (next x = Some (Root l)) then None else next x
        | None => None
        end).

Definition Prev e : Heap V (option pointer) :=
  x ← load e;
  mret (match list_ x with
        | Some l => if decide (prev x = Some (Root l)) then None else prev x
        | None => None
        end).

(** *** Lists *)
Definition Init l : Heap V unit :=
  assign (Root l) (fun x => x <| next := Some (Root l) |>);;
  assign (Root l) (fun x => x <| prev := Some (Root l) |>);;
  setLen l 0.

(** [new(List)] at the address [l]; [zero] is the zero value of the element type. *)
Definition newZero (zero : V) l : Heap V unit := fun st =>
  Ret (tt, mkStore (<[Root l := mkElement None None None zero]> (elements st))
             (<[l := 0]> (len st)) (fresh_ st)).

Definition New (zero : V) l : Heap V unit := newZero zero l;; Init l.

Definition Len l : Heap V Z := getLen l.

Definition Front l : Heap V (option pointer) :=
  n ← getLen l;
  if n =? 0 then mret None else r ← load (Root l); mret (next r).

Definition Back l : Heap V (option pointer) :=
  n ← getLen l;
  if n =? 0 then mret None else r ← load (Root l); mret (prev r).

Definition lazyInit l : Heap V unit :=
  r ← load (Root l);
  match next r with
  | None => Init l
  | Some _ => mret tt
  end.

Definition insert l e (at_ : pointer) : Heap V pointer :=
  x ← load at_;
  let n := next x in
  assign at_ (fun x => x <| next := Some e |>);;
  assign e (fun x => x <| prev := Some at_ |>);;
  assign e (fun x => x <| next := n |>);;
  n ← deref n;
  assign n (fun x => x <| prev := Some e |>);;
  assign e (fun x => x <| list_ := Some l |>);;
  k ← getLen l;
  setLen l (k + 1);;
  mret e.

Definition insertValue l v (at_ : pointer) : Heap V pointer :=
  e ← alloc v;
  insert l e at_.

Definition remove l e : Heap V pointer :=
  x ← load e;
  p ← deref (prev x);
  assign p (fun y => y <| next := next x |>);;
  x ← load e;
  n ← deref (next x);
  assign n (fun y => y <| prev := prev x |>);;
  assign e (fun x => x <| next := None |>);;
  assign e (fun x => x <| prev := None |>);;
  assign e (fun x => x <| list_ := None |>);;
  k ← getLen l;
  setLen l (k - 1);;
  mret e.

Definition Remove l e : Heap V V :=
  x ← load e;
  (if decide (list_ x = Some l) then remove l e;; mret tt else mret tt);;
  x ← load e;
  mret (Value x).

Definition PushFront l v : Heap V pointer :=
  lazyInit l;;
  insertValue l v (Root l).

Definition PushBack l v : Heap V pointer :=
  lazyInit l;;
  r ← load (Root l);
  at_ ← deref (prev r);
  insertValue l v at_.

Definition InsertBefore l v mark : Heap V (option pointer) :=
  m ← load mark;
  if decide (list_ m = Some l) then
    at_ ← deref (prev m);
    e ← insertValue l v at_;
    mret (Some e)
  else mret None.

Definition InsertAfter l v mark : Heap V (option pointer) :=
  m ← load mark;
  if decide (list_ m = Some l) then
    e ← insertValue l v mark;
    mret (Some e)
  else mret None.

Definition MoveToFront l e : Heap V unit :=
  x ← load e;
  r ← load (Root l);
  if decide (list_ x = Some l /\ next r <> Some e) then
    e ← remove l e;
    insert l e (Root l);;
    mret tt
  else mret tt.

Definition MoveToBack l e : Heap V unit :=
  x ← load e;
  r ← load (Root l);
  if decide (list_ x = Some l /\ prev r <> Some e) then
    e ← remove l e;
    r ← load (Root l);
    at_ ← deref (prev r);
    insert l e at_;;
    mret tt
  else mret tt.

(** [l.insert(l.remove(e), mark.prev)]: the call is made before [mark.prev] is read. *)
Definition MoveBefore l e mark : Heap V unit :=
  x ← load e;
  m ← load mark;
  if decide (list_ x = Some l /\ e <> mark /\ list_ m = Some l) then
    e ← remove l e;
    m ← load mark;
    at_ ← deref (prev m);
    insert l e at_;;
    mret tt
  else mret tt.

Definition MoveAfter l e mark : Heap V unit :=
  x ← load e;
  m ← load mark;
  if decide (list_ x = Some l /\ e <> mark /\ list_ m = Some l) then
    e ← remove l e;
    insert l e mark;;
    mret tt
  else mret tt.

(** [for i, e := other.Len(), other.Front(); i > 0; i, e = i-1, e.Next()], [i] iterations *)
Fixpoint pushBackLoop l (i : nat) (e : option pointer) : Heap V unit :=
  match i with
  | O => mret tt
  | S i' =>
      e ← deref e;
      x ← load e;
      r ← load (Root l);
      at_ ← deref (prev r);
      insertValue l (Value x) at_;;
      e ← Next e;
      pushBackLoop l i' e
  end.

Definition PushBackList l other : Heap V unit :=
  lazyInit l;;
  i ← getLen other;
  e ← Front other;
  pushBackLoop l (Z.to_nat i) e.

Fixpoint pushFrontLoop l (i : nat) (e : option pointer) : Heap V unit :=
  match i with
  | O => mret tt
  | S i' =>
      e ← deref e;
      x ← load e;
      insertValue l (Value x) (Root l);;
      e ← Prev e;
      pushFrontLoop l i' e
  end.

Definition PushFrontList l other : Heap V unit :=
  lazyInit l;;
  i ← getLen other;
  e ← Back other;
  pushFrontLoop l (Z.to_nat i) e.
End Operations.
End LinkedList.

(** ** What the fields of the store say *)
Section Views.
Context {V : Type}.
Implicit Types (st : store V) (p q : pointer).

Definition nxt st p : option pointer := elements st !! p ≫= next.
Definition prv st p : option pointer := elements st !! p ≫= prev.
Definition own st p : option Z := elements st !! p ≫= list_.
Definition val st p : option V := Value <$> elements st !! p.
Definition has st p : Prop := is_Some (elements st !! p).

(** The stores the assignments lead to. *)
Definition upd p (f : Element V -> Element V) st : store V :=
  mkStore (alter f p (elements st)) (len st) (fresh_ st).
Definition withLen (l n : Z) st : store V :=
  mkStore (elements st) (<[l := n]> (len st)) (fresh_ st).
Definition allocated v st : store V :=
  mkStore (<[Elt (fresh_ st) := mkElement None None None v]> (elements st)) (len st)
    (fresh_ st + 1).

Lemma heap_bind_ret {A B} (m : Heap V A) (k : A -> Heap V B) st a st' :
  m st = Ret (a, st') -> mbind k m st = k a st'.
Proof. unfold mbind, heap_bind. by intros ->. Qed.

Lemma assign_has p f st : has st p -> LinkedList.assign p f st = Ret (tt, upd p f st).
Proof.
  intros [x Hx]. unfold LinkedList.assign, upd. rewrite Hx. do 3 f_equal.
  apply map_eq. intros q. destruct (decide (p = q)) as [->|].
  - by rewrite lookup_insert_eq, lookup_alter_eq, Hx.
  - by rewrite lookup_insert_ne, lookup_alter_ne.
Qed.

Lemma load_has p st : has st p -> exists x, LinkedList.load p st = Ret (x, st) /\
  next x = nxt st p /\ prev x = prv st p /\ list_ x = own st p /\ Some (Value x) = val st p.
Proof.
  intros [x Hx]. exists x. unfold LinkedList.load, nxt, prv, own, val. by rewrite Hx.
Qed.

Lemma has_upd p f st q : has (upd p f st) q <-> has st q.
Proof.
  unfold has, upd; cbn. rewrite lookup_alter, <- !not_eq_None_Some.
  case_decide; [subst|done]. by rewrite fmap_None.
Qed.

Lemma upd_view {A} (g : Element V -> option A) p f st q :
  has st p ->
  elements (upd p f st) !! q ≫= g =
  if decide (q = p) then elements st !! p ≫= g ∘ f else elements st !! q ≫= g.
Proof.
  intros [x Hx]. cbn. case_decide as Hq; [subst|].
  - by rewrite lookup_alter_eq, Hx.
  - by rewrite lookup_alter_ne.
Qed.

Lemma upd_other {A} (g : Element V -> A) p f st q :
  (forall x, g (f x) = g x) -> g <$> elements (upd p f st) !! q = g <$> elements st !! q.
Proof.
  intros Hg. cbn. rewrite lookup_alter. case_decide; [subst|done].
  destruct (elements st !! q); cbn; [by rewrite Hg|done].
Qed.

Lemma upd_other_view {A} (g : Element V -> option A) p f st q :
  (forall x, g (f x) = g x) -> elements (upd p f st) !! q ≫= g = elements st !! q ≫= g.
Proof.
  intros Hg. cbn. rewrite lookup_alter. case_decide; [subst|done].
  destruct (elements st !! q); cbn; [by rewrite Hg|done].
Qed.

Lemma nxt_set p v st q :
  has st p -> nxt (upd p (fun x => x <| next := v |>) st) q = if decide (q = p) then v else nxt st q.
Proof. intros Hp. unfold nxt. rewrite upd_view by done. by destruct Hp as [x ->]. Qed.
Lemma prv_set p v st q :
  has st p -> prv (upd p (fun x => x <| prev := v |>) st) q = if decide (q = p) then v else prv st q.
Proof. intros Hp. unfold prv. rewrite upd_view by done. by destruct Hp as [x ->]. Qed.
Lemma own_set p v st q :
  has st p -> own (upd p (fun x => x <| list_ := v |>) st) q = if decide (q = p) then v else own st q.
Proof. intros Hp. unfold own. rewrite upd_view by done. by destruct Hp as [x ->]. Qed.

Lemma prv_next p v st q : prv (upd p (fun x => x <| next := v |>) st) q = prv st q.
Proof. by apply upd_other_view. Qed.
Lemma own_next p v st q : own (upd p (fun x => x <| next := v |>) st) q = own st q.
Proof. by apply upd_other_view. Qed.
Lemma val_next p v st q : val (upd p (fun x => x <| next := v |>) st) q = val st q.
Proof. by apply upd_other. Qed.
Lemma nxt_prev p v st q : nxt (upd p (fun x => x <| prev := v |>) st) q = nxt st q.
Proof. by apply upd_other_view. Qed.
Lemma own_prev p v st q : own (upd p (fun x => x <| prev := v |>) st) q = own st q.
Proof. by apply upd_other_view. Qed.
Lemma val_prev p v st q : val (upd p (fun x => x <| prev := v |>) st) q = val st q.
Proof. by apply upd_other. Qed.
Lemma nxt_list p v st q : nxt (upd p (fun x => x <| list_ := v |>) st) q = nxt st q.
Proof. by apply upd_other_view. Qed.
Lemma prv_list p v st q : prv (upd p (fun x => x <| list_ := v |>) st) q = prv st q.
Proof. by apply upd_other_view. Qed.
Lemma val_list p v st q : val (upd p (fun x => x <| list_ := v |>) st) q = val st q.
Proof. by apply upd_other. Qed.
Lemma setLen_ret l n st : LinkedList.setLen l n st = Ret (tt, withLen l n st).
Proof. done. Qed.
Lemma getLen_ret l n st : len st !! l = Some n -> LinkedList.getLen l st = Ret (n, st).
Proof. unfold LinkedList.getLen. by intros ->. Qed.
Lemma deref_ret p st : LinkedList.deref (V := V) (Some p) st = Ret (p, st).
Proof. done. Qed.

Lemma nxt_withLen l n st p : nxt (withLen l n st) p = nxt st p. Proof. done. Qed.
Lemma prv_withLen l n st p : prv (withLen l n st) p = prv st p. Proof. done. Qed.
Lemma own_withLen l n st p : own (withLen l n st) p = own st p. Proof. done. Qed.
Lemma val_withLen l n st p : val (withLen l n st) p = val st p. Proof. done. Qed.
Lemma has_withLen l n st p : has (withLen l n st) p <-> has st p. Proof. done. Qed.
End Views.

#[export] Hint Rewrite @prv_next @own_next @val_next @nxt_prev @own_prev @val_prev @nxt_list
  @prv_list @val_list @nxt_withLen @prv_withLen @own_withLen @val_withLen : views.

(** [views] evaluates the fields of a store after assignments to elements it has. *)
Ltac has_it := repeat first [apply has_upd | apply has_withLen]; assumption.
Ltac views :=
  repeat (autorewrite with views; first [rewrite nxt_set by has_it | rewrite prv_set by has_it
                                        |rewrite own_set by has_it]);
  autorewrite with views.

(** [hstep H] runs the next operation on the store with the equation [H]. *)
Tactic Notation "hstep" uconstr(H) := erewrite heap_bind_ret by (eapply H; has_it).
Tactic Notation "hload" hyp(Hp) ident(x) simple_intropattern(Hx) :=
  let E := fresh in let F := fresh in
  destruct (load_has _ _ Hp) as (x & E & F); rewrite (heap_bind_ret _ _ _ _ _ E); clear E;
  cbv beta; destruct F as Hx.

(** ** Linking and unlinking an element *)
Section Links.
Context {V : Type}.
Implicit Types (st : store V) (p q e n : pointer) (l : Z).

(** What [insert] and [remove] leave alone. *)
Record same_objects st st' (l k : Z) : Prop := {
  so_val : forall p, val st' p = val st p;
  so_has : forall p, has st' p <-> has st p;
  so_len : len st' = <[l := k]> (len st);
  so_fresh : fresh_ st' = fresh_ st
}.

Lemma insert_spec l e at_ n k st :
  has st e -> has st at_ -> has st n -> nxt st at_ = Some n -> len st !! l = Some k ->
  e <> at_ -> e <> n ->
  exists st', LinkedList.insert l e at_ st = Ret (e, st') /\ same_objects st st' l (k + 1) /\
    (forall p, nxt st' p = if decide (p = e) then Some n else
                           if decide (p = at_) then Some e else nxt st p) /\
    (forall p, prv st' p = if decide (p = n) then Some e else
                           if decide (p = e) then Some at_ else prv st p) /\
    (forall p, own st' p = if decide (p = e) then Some l else own st p).
Proof.
  intros He Hat Hn Hnext Hlen Hne Hne'. unfold LinkedList.insert.
  hload Hat x (-> & _). rewrite Hnext.
  do 3 hstep assign_has. hstep deref_ret. do 2 hstep assign_has.
  erewrite heap_bind_ret by (apply getLen_ret; exact Hlen).
  rewrite (heap_bind_ret _ _ _ _ _ (setLen_ret _ _ _)).
  eexists. split; [done|]. split; [split|split; [|split]]; try done.
  - intros p. by views.
  - intros p. rewrite has_withLen. by rewrite !has_upd.
  - intros p. views. repeat case_decide; congruence.
  - intros p. by views.
  - intros p. by views.
Qed.

Lemma remove_spec l e p' n k st :
  has st e -> has st p' -> has st n -> nxt st e = Some n -> prv st e = Some p' ->
  len st !! l = Some k -> e <> p' -> e <> n ->
  exists st', LinkedList.remove l e st = Ret (e, st') /\ same_objects st st' l (k - 1) /\
    (forall p, nxt st' p = if decide (p = e) then None else
                           if decide (p = p') then Some n else nxt st p) /\
    (forall p, prv st' p = if decide (p = e) then None else
                           if decide (p = n) then Some p' else prv st p) /\
    (forall p, own st' p = if decide (p = e) then None else own st p).
Proof.
  intros He Hp Hn Hnext Hprev Hlen Hne Hne'. unfold LinkedList.remove.
  hload He x (Hxn & -> & _). rewrite Hprev. hstep deref_ret. hstep assign_has.
  rewrite Hxn, Hnext.
  assert (He' : has (upd p' (fun y => y <| next := Some n |>) st) e) by has_it.
  hload He' y (-> & -> & _). views. rewrite decide_False, Hnext, Hprev by done.
  hstep deref_ret. do 4 hstep assign_has.
  erewrite heap_bind_ret by (apply getLen_ret; exact Hlen).
  rewrite (heap_bind_ret _ _ _ _ _ (setLen_ret _ _ _)).
  eexists. split; [done|]. split; [split|split; [|split]]; try done.
  - intros p. by views.
  - intros p. rewrite has_withLen. by rewrite !has_upd.
  - intros p. by views.
  - intros p. by views.
  - intros p. by views.
Qed.
End Links.

(** ** Segments of a ring *)
Section Segments.
Context {V : Type}.
Implicit Types (st : store V) (p q e n r x : pointer) (xs ys : list pointer).

Definition linked st p q : Prop := nxt st p = Some q /\ prv st q = Some p.

(** From [p] through the elements [xs] to [q]. *)
Fixpoint seg st p xs q : Prop :=
  match xs with
  | [] => linked st p q
  | x :: xs' => linked st p x /\ seg st x xs' q
  end.

(** The last pointer of [p :: xs] and the first of [ys ++ [q]]. *)
Fixpoint lastOf p xs : pointer := match xs with [] => p | x :: xs' => lastOf x xs' end.
Definition firstOf ys q : pointer := match ys with [] => q | y :: _ => y end.

Lemma lastOf_elem p xs : lastOf p xs ∈ p :: xs.
Proof. revert p. induction xs as [|x xs IH]; intros p; cbn; [set_solver|]. specialize (IH x). set_solver. Qed.

Lemma lastOf_snoc p xs x : lastOf p (xs ++ [x]) = x.
Proof. revert p. induction xs as [|y xs IH]; intros p; cbn; [done|]. apply IH. Qed.

Lemma seg_app st p xs y ys q : seg st p (xs ++ y :: ys) q <-> seg st p xs y /\ seg st y ys q.
Proof. revert p. induction xs as [|x xs IH]; intros p; cbn; [done|]. rewrite IH. tauto. Qed.

Lemma seg_first st p xs q : seg st p xs q -> nxt st p = Some (firstOf xs q).
Proof. destruct xs; cbn; unfold linked; tauto. Qed.

Lemma seg_last st p xs q : seg st p xs q -> prv st q = Some (lastOf p xs).
Proof.
  revert p. induction xs as [|x xs IH]; intros p; cbn; [unfold linked; tauto|]. intros [_ H]. by apply IH.
Qed.

Lemma seg_ext st st' p xs q :
  (forall x, x ∈ p :: xs -> nxt st' x = nxt st x) -> (forall x, x ∈ xs ++ [q] -> prv st' x = prv st x) ->
  seg st p xs q -> seg st' p xs q.
Proof.
  revert p. induction xs as [|x xs IH]; intros p Hn Hp; cbn; unfold linked.
  - rewrite (Hn p), (Hp q) by set_solver. done.
  - rewrite (Hn p), (Hp x) by set_solver. intros [? ?]. split; [done|].
    apply IH; [| |done]; set_solver.
Qed.

(** The last link of a segment moves to another target. *)
Lemma seg_retarget st st' p xs q q' :
  seg st p xs q -> NoDup (p :: xs) ->
  (forall x, x ∈ p :: xs -> x <> lastOf p xs -> nxt st' x = nxt st x) ->
  (forall x, x ∈ xs -> prv st' x = prv st x) ->
  linked st' (lastOf p xs) q' -> seg st' p xs q'.
Proof.
  revert p. induction xs as [|x xs IH]; intros p; cbn; [done|].
  intros [[Hl1 Hl2] Hseg] Hnd Hn Hp Hlast. apply NoDup_cons in Hnd as [Hnot Hnd].
  assert (p <> lastOf x xs) by (intros ->; apply Hnot, lastOf_elem).
  split; [split; [rewrite Hn; set_solver|rewrite Hp; set_solver]|].
  apply IH; [done..| | |done]; set_solver.
Qed.

Lemma firstOf_elem ys q : firstOf ys q ∈ ys ++ [q].
Proof. destruct ys; cbn; set_solver. Qed.

Lemma firstOf_not x xs ys q : x ∈ xs -> q ∉ xs -> (forall y, y ∈ xs -> y ∉ ys) -> x <> firstOf ys q.
Proof.
  intros Hx Hq Hd Heq. pose proof (firstOf_elem ys q) as Hf. rewrite <- Heq in Hf.
  apply elem_of_app in Hf as [Hf| ->%list_elem_of_singleton]; [by apply (Hd x)|done].
Qed.

Lemma lastOf_not x p xs ys : x ∈ ys -> p ∉ ys -> (forall y, y ∈ xs -> y ∉ ys) -> x <> lastOf p xs.
Proof.
  intros Hx Hp Hd Heq. pose proof (lastOf_elem p xs) as Hl. rewrite <- Heq in Hl.
  apply elem_of_cons in Hl as [->|Hl]; [done|by apply (Hd x)].
Qed.

(** A new element between [xs] and [ys]. *)
Lemma seg_insert st st' p xs ys q e :
  seg st p (xs ++ ys) q -> NoDup (p :: xs ++ ys) -> q ∉ xs ++ ys -> e ∉ p :: q :: xs ++ ys ->
  (forall x, nxt st' x = if decide (x = e) then Some (firstOf ys q) else
                         if decide (x = lastOf p xs) then Some e else nxt st x) ->
  (forall x, prv st' x = if decide (x = firstOf ys q) then Some e else
                         if decide (x = e) then Some (lastOf p xs) else prv st x) ->
  seg st' p (xs ++ e :: ys) q.
Proof.
  intros Hseg Hnd Hq He Hn Hp.
  apply NoDup_cons in Hnd as [Hpn Hnd]. apply NoDup_app in Hnd as (Hxs & Hdisj & Hys).
  rewrite not_elem_of_app in Hpn, Hq. destruct Hpn as [Hpx Hpy], Hq as [Hqx Hqy].
  rewrite !not_elem_of_cons, not_elem_of_app in He. destruct He as (Hep & Heq & Hex & Hey).
  assert (Hle : lastOf p xs <> e) by (apply not_eq_sym, (lastOf_not e p xs [e]); set_solver).
  assert (Hfe : firstOf ys q <> e) by (apply not_eq_sym, (firstOf_not e [e] ys q); set_solver).
  assert (linked st' (lastOf p xs) e /\ linked st' e (firstOf ys q)) as [L1 L2].
  { unfold linked. rewrite !Hn, !Hp. by repeat case_decide. }
  apply seg_app. split.
  - apply (seg_retarget st _ _ _ (firstOf ys q)).
    + destruct ys as [|y ys]; [by rewrite app_nil_r in Hseg|]. by apply seg_app in Hseg as [? _].
    + by apply NoDup_cons.
    + intros x Hx Hne. rewrite Hn, !decide_False; [done|done|].
      intros ->. apply elem_of_cons in Hx as [->|]; done.
    + intros x Hx. rewrite Hp, !decide_False; [done|by intros ->|by apply (firstOf_not x xs)].
    + done.
  - destruct ys as [|y ys]; [done|]. split; [done|]. apply seg_app in Hseg as [_ Hseg].
    apply NoDup_cons in Hys as [Hy _]. revert Hseg. apply seg_ext; intros x Hx.
    + rewrite Hn, !decide_False; [done|by apply (lastOf_not x p xs (y :: ys))|by intros ->].
    + apply elem_of_app in Hx as [Hx| ->%list_elem_of_singleton]; cbn in Hp; rewrite Hp, !decide_False;
        try done; intros ->; clear -Hx Hy Hey Hqy || clear -Hqy Heq; set_solver.
Qed.

Lemma seg_remove st st' p xs e ys q :
  seg st p (xs ++ e :: ys) q -> NoDup (p :: xs ++ e :: ys) -> q ∉ xs ++ e :: ys ->
  (forall x, nxt st' x = if decide (x = e) then None else
                         if decide (x = lastOf p xs) then Some (firstOf ys q) else nxt st x) ->
  (forall x, prv st' x = if decide (x = e) then None else
                         if decide (x = firstOf ys q) then Some (lastOf p xs) else prv st x) ->
  seg st' p (xs ++ ys) q.
Proof.
  intros Hseg Hnd Hq Hn Hp. apply seg_app in Hseg as [Hseg1 Hseg2].
  apply NoDup_cons in Hnd as [Hpn Hnd]. apply NoDup_app in Hnd as (Hxs & Hdisj & Hys).
  apply NoDup_cons in Hys as [He Hys].
  rewrite not_elem_of_app, not_elem_of_cons in Hpn, Hq.
  destruct Hpn as (Hpx & Hpe & Hpy), Hq as (Hqx & Hqe & Hqy).
  assert (Hex : e ∉ xs) by (clear -Hdisj; set_solver).
  assert (Hdxy : forall y, y ∈ xs -> y ∉ ys) by (clear -Hdisj; set_solver).
  assert (Hle : lastOf p xs <> e) by (apply not_eq_sym, (lastOf_not e p xs [e]); set_solver).
  assert (Hfe : firstOf ys q <> e) by (apply not_eq_sym, (firstOf_not e [e] ys q); set_solver).
  assert (Hseg1' : seg st' p xs (firstOf ys q)).
  { apply (seg_retarget st _ _ _ e); [done|by apply NoDup_cons| | |].
    - intros x Hx Hne. rewrite Hn, !decide_False; [done|done|].
      intros ->. apply elem_of_cons in Hx as [->|]; done.
    - intros x Hx. rewrite Hp, !decide_False; [done|by apply (firstOf_not x xs)|by intros ->].
    - unfold linked. rewrite Hn, Hp. by repeat case_decide. }
  destruct ys as [|y ys]; [by rewrite app_nil_r|]. apply seg_app. split; [done|].
  destruct Hseg2 as [_ Hseg2]. apply NoDup_cons in Hys as [Hy _].
  revert Hseg2. apply seg_ext; intros x Hx.
  - rewrite Hn, !decide_False; [done|by apply (lastOf_not x p xs (y :: ys))|by intros ->].
  - apply elem_of_app in Hx as [Hx| ->%list_elem_of_singleton]; cbn in Hp; rewrite Hp, !decide_False;
      try done; intros ->; clear -Hx Hy He || clear -Hqy Hqe; set_solver.
Qed.
Lemma seg_last_next st p xs q : seg st p xs q -> nxt st (lastOf p xs) = Some q.
Proof. revert p. induction xs as [|x xs IH]; intros p; cbn; [unfold linked; tauto|]. intros [_ H]. by apply IH. Qed.

Lemma seg_split st p xs ys q : seg st p (xs ++ ys) q -> seg st p xs (firstOf ys q).
Proof. destruct ys as [|y ys]; [by rewrite app_nil_r|]. by intros [? _]%seg_app. Qed.
End Segments.

(** ** Lists as sequences

    The abstract state: the value of each element, the sequence of the elements of each list, the
    next free address.  Elements are known by their address. *)
Section Spec.
Context {V : Type}.

Record sequences := mkSeqs {
  vals : gmap Z V;
  seqs : gmap Z (list Z);
  nextAddr : Z
}.

Definition emptySeqs : sequences := mkSeqs ∅ ∅ 0.
Definition emptyStore : store V := mkStore ∅ ∅ 0.

(** The calls of the package; [CNext] and [CPrev] name the list that holds the element. *)
Inductive call :=
  | CNew (l : Z) | CZero (l : Z)
  | CLen (l : Z) | CFront (l : Z) | CBack (l : Z) | CNext (l e : Z) | CPrev (l e : Z)
  | CRemove (l e : Z) | CPushFront (l : Z) (v : V) | CPushBack (l : Z) (v : V)
  | CInsertBefore (l : Z) (v : V) (mark : Z) | CInsertAfter (l : Z) (v : V) (mark : Z)
  | CMoveToFront (l e : Z) | CMoveToBack (l e : Z)
  | CMoveBefore (l e mark : Z) | CMoveAfter (l e mark : Z)
  | CPushBackList (l other : Z) | CPushFrontList (l other : Z).

Inductive reply :=
  | RUnit
  | RInt (n : Z)
  | RElement (e : option pointer)
  | RValue (v : V).

(** The calls on the store. *)
Definition run (zero : V) (c : call) : Heap V reply :=
  match c with
  | CNew l => LinkedList.New zero l;; mret RUnit
  | CZero l => LinkedList.newZero zero l;; mret RUnit
  | CLen l => n ← LinkedList.Len l; mret (RInt n)
  | CFront l => e ← LinkedList.Front l; mret (RElement e)
  | CBack l => e ← LinkedList.Back l; mret (RElement e)
  | CNext _ e => e ← LinkedList.Next (Elt e); mret (RElement e)
  | CPrev _ e => e ← LinkedList.Prev (Elt e); mret (RElement e)
  | CRemove l e => v ← LinkedList.Remove l (Elt e); mret (RValue v)
  | CPushFront l v => e ← LinkedList.PushFront l v; mret (RElement (Some e))
  | CPushBack l v => e ← LinkedList.PushBack l v; mret (RElement (Some e))
  | CInsertBefore l v mark => e ← LinkedList.InsertBefore l v (Elt mark); mret (RElement e)
  | CInsertAfter l v mark => e ← LinkedList.InsertAfter l v (Elt mark); mret (RElement e)
  | CMoveToFront l e => LinkedList.MoveToFront l (Elt e);; mret RUnit
  | CMoveToBack l e => LinkedList.MoveToBack l (Elt e);; mret RUnit
  | CMoveBefore l e mark => LinkedList.MoveBefore l (Elt e) (Elt mark);; mret RUnit
  | CMoveAfter l e mark => LinkedList.MoveAfter l (Elt e) (Elt mark);; mret RUnit
  | CPushBackList l other => LinkedList.PushBackList l other;; mret RUnit
  | CPushFrontList l other => LinkedList.PushFrontList l other;; mret RUnit
  end.

(** The sequences the calls stand for. *)
Fixpoint insBefore (m a : Z) (s : list Z) : list Z :=
  match s with
  | [] => []
  | x :: s' => if x =? m then a :: x :: s' else x :: insBefore m a s'
  end.

Fixpoint insAfter (m a : Z) (s : list Z) : list Z :=
  match s with
  | [] => []
  | x :: s' => if x =? m then x :: a :: s' else x :: insAfter m a s'
  end.

Definition without (e : Z) (s : list Z) : list Z := filter (fun x => x <> e) s.

(** The element behind [e]. *)
Fixpoint behind (e : Z) (s : list Z) : option Z :=
  match s with
  | [] => None
  | x :: s' => if x =? e then head s' else behind e s'
  end.

Definition seqOf (ab : sequences) (l : Z) : list Z := default [] (seqs ab !! l).
Definition setSeq (l : Z) (s : list Z) (ab : sequences) : sequences :=
  mkSeqs (vals ab) (<[l := s]> (seqs ab)) (nextAddr ab).
Definition allocVal (v : V) (ab : sequences) : sequences :=
  mkSeqs (<[nextAddr ab := v]> (vals ab)) (seqs ab) (nextAddr ab + 1).

Definition pushFrontSeq (l : Z) (ab : sequences) (v : V) : sequences :=
  setSeq l (nextAddr ab :: seqOf ab l) (allocVal v ab).
Definition pushBackSeq (l : Z) (ab : sequences) (v : V) : sequences :=
  setSeq l (seqOf ab l ++ [nextAddr ab]) (allocVal v ab).

Definition valuesOf (ab : sequences) (s : list Z) : list V := omap (fun a => vals ab !! a) s.

Definition spec (c : call) (ab : sequences) : option reply * sequences :=
  match c with
  | CNew l | CZero l => (Some RUnit, setSeq l [] ab)
  | CLen l => (Some (RInt (Z.of_nat (length (seqOf ab l)))), ab)
  | CFront l => (Some (RElement (Elt <$> head (seqOf ab l))), ab)
  | CBack l => (Some (RElement (Elt <$> last (seqOf ab l))), ab)
  | CNext l e => (Some (RElement (Elt <$> behind e (seqOf ab l))), ab)
  | CPrev l e => (Some (RElement (Elt <$> behind e (reverse (seqOf ab l)))), ab)
  | CRemove l e => (RValue <$> vals ab !! e, setSeq l (without e (seqOf ab l)) ab)
  | CPushFront l v => (Some (RElement (Some (Elt (nextAddr ab)))), pushFrontSeq l ab v)
  | CPushBack l v => (Some (RElement (Some (Elt (nextAddr ab)))), pushBackSeq l ab v)
  | CInsertBefore l v m =>
      if decide (m ∈ seqOf ab l)
      then (Some (RElement (Some (Elt (nextAddr ab)))),
            setSeq l (insBefore m (nextAddr ab) (seqOf ab l)) (allocVal v ab))
      else (Some (RElement None), ab)
  | CInsertAfter l v m =>
      if decide (m ∈ seqOf ab l)
      then (Some (RElement (Some (Elt (nextAddr ab)))),
            setSeq l (insAfter m (nextAddr ab) (seqOf ab l)) (allocVal v ab))
      else (Some (RElement None), ab)
  | CMoveToFront l e =>
      (Some RUnit, if decide (e ∈ seqOf ab l) then setSeq l (e :: without e (seqOf ab l)) ab else ab)
  | CMoveToBack l e =>
      (Some RUnit, if decide (e ∈ seqOf ab l) then setSeq l (without e (seqOf ab l) ++ [e]) ab else ab)
  | CMoveBefore l e m =>
      (Some RUnit, if decide (e ∈ seqOf ab l /\ e <> m /\ m ∈ seqOf ab l)
                   then setSeq l (insBefore m e (without e (seqOf ab l))) ab else ab)
  | CMoveAfter l e m =>
      (Some RUnit, if decide (e ∈ seqOf ab l /\ e <> m /\ m ∈ seqOf ab l)
                   then setSeq l (insAfter m e (without e (seqOf ab l))) ab else ab)
  | CPushBackList l other =>
      (Some RUnit, foldl (pushBackSeq l) ab (valuesOf ab (seqOf ab other)))
  | CPushFrontList l other =>
      (Some RUnit, foldl (pushFrontSeq l) ab (valuesOf ab (reverse (seqOf ab other))))
  end.

Definition isList (ab : sequences) (l : Z) : Prop := is_Some (seqs ab !! l).
Definition isElem (ab : sequences) (e : Z) : Prop := is_Some (vals ab !! e).
Definition inSome (ab : sequences) (e : Z) : Prop := exists l s, seqs ab !! l = Some s /\ e ∈ s.

(** The calls a program can make: on lists and elements that exist; a new list has a new address. *)
Definition valid (ab : sequences) (c : call) : Prop :=
  match c with
  | CNew l | CZero l => ~ isList ab l
  | CLen l | CFront l | CBack l | CPushFront l _ | CPushBack l _ => isList ab l
  | CNext l e | CPrev l e => isElem ab e /\ isList ab l /\ (inSome ab e -> e ∈ seqOf ab l)
  | CRemove l e | CMoveToFront l e | CMoveToBack l e => isList ab l /\ isElem ab e
  | CInsertBefore l _ m | CInsertAfter l _ m => isList ab l /\ isElem ab m
  | CMoveBefore l e m | CMoveAfter l e m => isList ab l /\ isElem ab e /\ isElem ab m
  | CPushBackList l other | CPushFrontList l other => isList ab l /\ isList ab other
  end.
End Spec.
Arguments sequences V : clear implicits.
Arguments call V : clear implicits.
Arguments reply V : clear implicits.

(** ** The ring implements the sequences *)
Section Simulation.
Context {V : Type}.
Implicit Types (st : store V) (ab : sequences V) (l a e m : Z) (s xs ys : list Z).

Definition ring st l s : Prop := seg st (Root l) (Elt <$> s) (Root l).

Record sim st ab : Prop := {
  sim_fresh : fresh_ st = nextAddr ab;
  sim_val : forall a, val st (Elt a) = vals ab !! a;
  sim_bound : forall a, isElem ab a -> a < nextAddr ab;
  sim_len : forall l, len st !! l = (fun s => Z.of_nat (length s)) <$> seqs ab !! l;
  sim_root : forall l, has st (Root l) <-> isList ab l;
  sim_ring : forall l s, seqs ab !! l = Some s ->
    ring st l s \/ s = [] /\ nxt st (Root l) = None /\ prv st (Root l) = None;
  sim_own : forall a l, own st (Elt a) = Some l <-> exists s, seqs ab !! l = Some s /\ a ∈ s;
  sim_nodup : forall l s, seqs ab !! l = Some s -> NoDup s;
  sim_elem : forall l s a, seqs ab !! l = Some s -> a ∈ s -> isElem ab a
}.

Lemma has_val st a ab : sim st ab -> has st (Elt a) <-> isElem ab a.
Proof. intros H. unfold isElem. rewrite <- (sim_val _ _ H). unfold val. by rewrite fmap_is_Some. Qed.

Lemma elt_elem (a : Z) s : Elt a ∈ Elt <$> s <-> a ∈ s.
Proof. rewrite list_elem_of_fmap. split; [intros (? & [= ->] & ?); done|eauto]. Qed.

Lemma root_elt l s : Root l ∉ Elt <$> s.
Proof. rewrite list_elem_of_fmap. by intros (? & ? & ?). Qed.

Lemma elt_nodup s : NoDup s -> NoDup (Elt <$> s).
Proof. apply NoDup_fmap_2. by intros ?? [= ->]. Qed.

(** Two lists have no element in common. *)
Lemma sim_disjoint st ab l l' s s' a :
  sim st ab -> seqs ab !! l = Some s -> seqs ab !! l' = Some s' -> a ∈ s -> a ∈ s' -> l = l'.
Proof.
  intros H Hl Hl' Ha Ha'. assert (own st (Elt a) = Some l) as H1 by (apply (sim_own _ _ H); eauto).
  assert (own st (Elt a) = Some l') as H2 by (apply (sim_own _ _ H); eauto). congruence.
Qed.

(** A ring is not touched when none of its pointers is. *)
Lemma ring_ext st st' l s :
  (forall x, x = Root l \/ x ∈ Elt <$> s -> nxt st' x = nxt st x /\ prv st' x = prv st x) ->
  ring st l s -> ring st' l s.
Proof.
  intros Hx. apply seg_ext; intros x Hin; apply Hx.
  - by apply elem_of_cons in Hin.
  - apply elem_of_app in Hin as [?|?%list_elem_of_singleton]; tauto.
Qed.
(** The element [a] was linked into, moved in or unlinked from the list [l]. *)
Lemma sim_relink st st' ab l s s' a :
  sim st ab -> seqs ab !! l = Some s -> same_objects st st' l (Z.of_nat (length s')) ->
  ring st' l s' -> NoDup s' -> isElem ab a -> (forall b, b <> a -> b ∈ s' <-> b ∈ s) ->
  (forall l' s'', seqs ab !! l' = Some s'' -> l' <> l -> a ∉ s'') ->
  (forall x, x <> Root l -> x ∉ Elt <$> s -> x <> Elt a ->
     nxt st' x = nxt st x /\ prv st' x = prv st x) ->
  (forall p, p <> Elt a -> own st' p = own st p) ->
  (a ∈ s' -> own st' (Elt a) = Some l) -> (a ∉ s' -> own st' (Elt a) = None) ->
  sim st' (setSeq l s' ab).
Proof.
  intros H Hl [Hval Hhas Hlen Hfr] Hring Hnd Ha Hmem Hother Hframe Hown Hin Hout.
  assert (Hlook : forall l', seqs (setSeq l s' ab) !! l' =
                             if decide (l' = l) then Some s' else seqs ab !! l').
  { intros l'. cbn. case_decide; [subst; apply lookup_insert_eq|by rewrite lookup_insert_ne]. }
  split; cbn [vals nextAddr setSeq].
  - by rewrite Hfr, (sim_fresh _ _ H).
  - intros b. rewrite Hval. apply (sim_val _ _ H).
  - apply (sim_bound _ _ H).
  - intros l'. rewrite Hlen, Hlook. case_decide; [subst; by rewrite lookup_insert_eq|].
    rewrite lookup_insert_ne by done. apply (sim_len _ _ H).
  - intros l'. rewrite Hhas, (sim_root _ _ H). unfold isList. rewrite Hlook. case_decide; [subst|done].
    rewrite Hl. split; eauto.
  - intros l' t. rewrite Hlook. case_decide as Hll; [intros [= <-]; subst; by left|]. intros Ht.
    assert (Hsame : forall x, x = Root l' \/ x ∈ Elt <$> t -> nxt st' x = nxt st x /\ prv st' x = prv st x).
    { intros x [->|(b & -> & Hb)%list_elem_of_fmap]; apply Hframe.
      - congruence.
      - apply root_elt.
      - done.
      - done.
      - rewrite elt_elem. intros Hb'. apply Hll. by apply (sim_disjoint st ab l' l t s b).
      - intros [= ->]. by apply (Hother l' t). }
    destruct (sim_ring _ _ H l' t Ht) as [Hr|(-> & Hn & Hp)].
    + left. by apply (ring_ext st).
    + right. destruct (Hsame (Root l')) as [-> ->]; [by left|done].
  - intros b l'. rewrite Hlook. destruct (decide (b = a)) as [->|Hb].
    + destruct (decide (a ∈ s')) as [Has|Has].
      * rewrite Hin by done. case_decide as Hll; [subst; split; [eauto|done]|]. split; [congruence|].
        intros (t & Ht & Hat). exfalso. by apply (Hother l' t).
      * rewrite Hout by done. split; [done|]. case_decide as Hll; intros (t & Ht & Hat); exfalso.
        -- congruence.
        -- by apply (Hother l' t).
    + rewrite Hown by congruence. rewrite (sim_own _ _ H). case_decide; [subst|done].
      rewrite Hl. split; intros (t & [= <-] & Hbt); eexists; (split; [done|]); by apply Hmem.
  - intros l' t. rewrite Hlook. case_decide; [intros [= <-]; done|apply (sim_nodup _ _ H)].
  - intros l' t b. rewrite Hlook. case_decide; [intros [= <-]|apply (sim_elem _ _ H)].
    intros Hb. destruct (decide (b = a)) as [->|Hba]; [done|]. apply (sim_elem _ _ H l s); [done|].
    by apply Hmem.
Qed.
Lemma has_ring st ab l s x :
  sim st ab -> seqs ab !! l = Some s -> x ∈ Root l :: (Elt <$> s) -> has st x.
Proof.
  intros H Hl [->|(a & -> & Ha)%list_elem_of_fmap]%elem_of_cons.
  - apply (sim_root _ _ H). by exists s.
  - apply (has_val st a ab H). by apply (sim_elem _ _ H l s).
Qed.

Lemma sim_seq_len st ab l s : sim st ab -> seqs ab !! l = Some s -> len st !! l = Some (Z.of_nat (length s)).
Proof. intros H Hl. by rewrite (sim_len _ _ H), Hl. Qed.

Lemma lastOf_fmap l xs x : x = lastOf (Root l) (Elt <$> xs) -> x ∈ Root l :: (Elt <$> xs).
Proof. intros ->. apply lastOf_elem. Qed.

Lemma nodup_ring l s : NoDup s -> NoDup (Root l :: (Elt <$> s)).
Proof. intros. apply NoDup_cons. split; [apply root_elt|by apply elt_nodup]. Qed.

Lemma insert_sim st ab l xs ys a :
  sim st ab -> seqs ab !! l = Some (xs ++ ys) -> ring st l (xs ++ ys) ->
  isElem ab a -> ~ inSome ab a ->
  exists st', LinkedList.insert l (Elt a) (lastOf (Root l) (Elt <$> xs)) st = Ret (Elt a, st') /\
    sim st' (setSeq l (xs ++ a :: ys) ab) /\ ring st' l (xs ++ a :: ys).
Proof.
  intros H Hl Hring Ha Hfree. unfold ring in Hring. rewrite fmap_app in Hring.
  assert (Hnot : a ∉ xs ++ ys) by (intros Hin; apply Hfree; by exists l, (xs ++ ys)).
  assert (Hnd : NoDup (xs ++ ys)) by by apply (sim_nodup _ _ H l).
  pose proof (lastOf_elem (Root l) (Elt <$> xs)) as Hat.
  pose proof (firstOf_elem (Elt <$> ys) (Root l)) as Hn.
  set (at_ := lastOf (Root l) (Elt <$> xs)) in *. set (n := firstOf (Elt <$> ys) (Root l)) in *.
  assert (Hat' : at_ ∈ Root l :: (Elt <$> xs ++ ys)) by (rewrite fmap_app; clear -Hat; set_solver).
  assert (Hn' : n ∈ Root l :: (Elt <$> xs ++ ys)) by (rewrite fmap_app; clear -Hn; set_solver).
  assert (Hne : forall x, x ∈ Root l :: (Elt <$> xs ++ ys) -> x <> Elt a).
  { intros x Hx ->. apply elem_of_cons in Hx as [|Hx]; [done|]. by apply Hnot, elt_elem. }
  destruct (insert_spec l (Elt a) at_ n (Z.of_nat (length (xs ++ ys))) st)
    as (st' & Hrun & Hso & Hnx & Hpv & Hown).
  { by apply (has_val st a ab). }
  { by apply (has_ring st ab l (xs ++ ys)). }
  { by apply (has_ring st ab l (xs ++ ys)). }
  { by apply seg_last_next, seg_split. }
  { by apply (sim_seq_len st ab). }
  { by apply not_eq_sym, Hne. }
  { by apply not_eq_sym, Hne. }
  exists st'. split; [done|].
  assert (Hring' : ring st' l (xs ++ a :: ys)).
  { unfold ring. rewrite fmap_app, fmap_cons. apply (seg_insert st); try done.
    - rewrite <- fmap_app. by apply nodup_ring.
    - rewrite <- fmap_app. apply root_elt.
    - rewrite <- fmap_app, !not_elem_of_cons. by rewrite elt_elem. }
  split; [|done]. apply (sim_relink st st' ab l (xs ++ ys) _ a); try done.
  - replace (Z.of_nat (length (xs ++ a :: ys))) with (Z.of_nat (length (xs ++ ys)) + 1); [done|].
    rewrite !length_app. cbn. lia.
  - rewrite <- Permutation_middle. by apply NoDup_cons.
  - intros b Hb. rewrite !elem_of_app, elem_of_cons. naive_solver.
  - intros l' s' Hs' _ Hin. apply Hfree. by exists l', s'.
  - intros x Hr Hx Hxa. rewrite Hnx, Hpv. rewrite !decide_False; try done; intros ->;
      by apply elem_of_cons in Hat' as [], Hn' as [].
  - intros x Hx. by rewrite Hown, decide_False.
  - intros _. by rewrite Hown, decide_True.
  - intros Hin. exfalso. apply Hin. set_solver.
Qed.

Lemma remove_sim st ab l xs a ys :
  sim st ab -> seqs ab !! l = Some (xs ++ a :: ys) ->
  exists st', LinkedList.remove l (Elt a) st = Ret (Elt a, st') /\
    sim st' (setSeq l (xs ++ ys) ab) /\ ring st' l (xs ++ ys).
Proof.
  intros H Hl. assert (Hring : ring st l (xs ++ a :: ys)).
  { destruct (sim_ring _ _ H l _ Hl) as [|[Hnil _]]; [done|]. by destruct xs. }
  unfold ring in Hring. rewrite fmap_app, fmap_cons in Hring.
  pose proof (sim_nodup _ _ H l _ Hl) as Hnd.
  assert (Hnot : a ∉ xs ++ ys).
  { rewrite <- Permutation_middle in Hnd. by apply NoDup_cons in Hnd as [? _]. }
  pose proof (lastOf_elem (Root l) (Elt <$> xs)) as Hp.
  pose proof (firstOf_elem (Elt <$> ys) (Root l)) as Hn.
  set (p := lastOf (Root l) (Elt <$> xs)) in *. set (n := firstOf (Elt <$> ys) (Root l)) in *.
  assert (Hp' : p ∈ Root l :: (Elt <$> xs ++ ys)) by (rewrite fmap_app; clear -Hp; set_solver).
  assert (Hn' : n ∈ Root l :: (Elt <$> xs ++ ys)) by (rewrite fmap_app; clear -Hn; set_solver).
  assert (Hsub : forall x, x ∈ Root l :: (Elt <$> xs ++ ys) -> x ∈ Root l :: (Elt <$> xs ++ a :: ys)).
  { intros x. rewrite !fmap_app, fmap_cons. clear. set_solver. }
  assert (Hne : forall x, x ∈ Root l :: (Elt <$> xs ++ ys) -> x <> Elt a).
  { intros x Hx ->. apply elem_of_cons in Hx as [|Hx]; [done|]. by apply Hnot, elt_elem. }
  pose proof Hring as [Hs1 Hs2]%seg_app.
  destruct (remove_spec l (Elt a) p n (Z.of_nat (length (xs ++ a :: ys))) st)
    as (st' & Hrun & Hso & Hnx & Hpv & Hown).
  { apply (has_ring st ab l (xs ++ a :: ys)); [done..|]. rewrite fmap_app, fmap_cons. clear. set_solver. }
  { apply (has_ring st ab l (xs ++ a :: ys)); [done..|]. by apply Hsub. }
  { apply (has_ring st ab l (xs ++ a :: ys)); [done..|]. by apply Hsub. }
  { by apply seg_first in Hs2. }
  { by apply seg_last in Hs1. }
  { by apply (sim_seq_len st ab). }
  { by apply not_eq_sym, Hne. }
  { by apply not_eq_sym, Hne. }
  exists st'. split; [done|].
  assert (Hring' : ring st' l (xs ++ ys)).
  { unfold ring. rewrite fmap_app. apply (seg_remove st _ _ _ (Elt a)); try done.
    - rewrite <- fmap_cons, <- fmap_app. by apply nodup_ring.
    - rewrite <- fmap_cons, <- fmap_app. apply root_elt. }
  split; [|done]. apply (sim_relink st st' ab l (xs ++ a :: ys) _ a); try done.
  - replace (Z.of_nat (length (xs ++ ys))) with (Z.of_nat (length (xs ++ a :: ys)) - 1); [done|].
    rewrite !length_app. cbn. lia.
  - rewrite <- Permutation_middle in Hnd. by apply NoDup_cons in Hnd as [_ ?].
  - apply (sim_elem _ _ H l (xs ++ a :: ys)); [done|set_solver].
  - intros b Hb. rewrite !elem_of_app, elem_of_cons. naive_solver.
  - intros l' s' Hs' Hne' Hin. apply Hne'. apply (sim_disjoint st ab l' l s' (xs ++ a :: ys) a); set_solver.
  - intros x Hr Hx Hxa. apply Hsub in Hp', Hn'. rewrite Hnx, Hpv. rewrite !decide_False; try done; intros ->;
      by apply elem_of_cons in Hp' as [], Hn' as [].
  - intros x Hx. by rewrite Hown, decide_False.
  - intros _. by rewrite Hown, decide_True.
Qed.
(** *** Allocation and initialisation *)
Lemma alloc_view {A} (g : Element V -> option A) v st p :
  g (mkElement None None None v) = elements st !! Elt (fresh_ st) ≫= g ->
  elements (allocated v st) !! p ≫= g = elements st !! p ≫= g.
Proof.
  intros Hg. cbn. rewrite lookup_insert. case_decide; [subst|done]. by rewrite <- Hg.
Qed.

Lemma alloc_sim st ab v :
  sim st ab ->
  let a := nextAddr ab in
  LinkedList.alloc v st = Ret (Elt a, allocated v st) /\ sim (allocated v st) (allocVal v ab) /\
  ~ inSome (allocVal v ab) a /\ isElem (allocVal v ab) a /\
  (forall l s, ring st l s -> ring (allocated v st) l s).
Proof.
  intros H a. assert (Hnone : elements st !! Elt (fresh_ st) = None).
  { apply eq_None_not_Some. intros Hs. apply (has_val st _ ab H) in Hs.
    apply (sim_bound _ _ H) in Hs. rewrite (sim_fresh _ _ H) in Hs. lia. }
  assert (Hnx : forall p, nxt (allocated v st) p = nxt st p) by (intros; by apply alloc_view; rewrite Hnone).
  assert (Hpv : forall p, prv (allocated v st) p = prv st p) by (intros; by apply alloc_view; rewrite Hnone).
  assert (Hown : forall p, own (allocated v st) p = own st p) by (intros; by apply alloc_view; rewrite Hnone).
  assert (Hring : forall l s, ring st l s -> ring (allocated v st) l s) by (intros l s; by apply ring_ext).
  split; [unfold LinkedList.alloc, allocated; subst a; by rewrite (sim_fresh _ _ H)|].
  split; [|split; [|split; [exists v; apply lookup_insert_eq|done]]].
  - split; cbn [vals seqs nextAddr allocVal].
    + cbn. by rewrite (sim_fresh _ _ H).
    + intros b. unfold val. cbn. rewrite !lookup_insert, (sim_fresh _ _ H).
      destruct (decide (nextAddr ab = b)) as [->|Hb].
      * by rewrite decide_True.
      * rewrite decide_False by congruence. apply (sim_val _ _ H).
    + intros b. unfold isElem. cbn. rewrite lookup_insert. case_decide; [lia|].
      intros Hb. apply (sim_bound _ _ H) in Hb. lia.
    + apply (sim_len _ _ H).
    + intros l. pose proof (sim_root _ _ H l) as Hr. unfold has, isList in *. cbn. by rewrite lookup_insert_ne.
    + intros l s Hl. rewrite Hnx, Hpv. destruct (sim_ring _ _ H l s Hl); [left; by apply Hring|by right].
    + intros b l. rewrite Hown. apply (sim_own _ _ H).
    + apply (sim_nodup _ _ H).
    + intros l s b Hl Hb. unfold isElem. cbn. rewrite lookup_insert. case_decide; [done|].
      by apply (sim_elem _ _ H l s).
  - intros (l & s & Hl & Hin). cbn in Hl. apply (sim_elem _ _ H l s), (sim_bound _ _ H) in Hin; [|done].
    subst a. lia.
Qed.

Lemma lazyInit_sim st ab l s :
  sim st ab -> seqs ab !! l = Some s ->
  exists st', LinkedList.lazyInit l st = Ret (tt, st') /\ sim st' ab /\ ring st' l s.
Proof.
  intros H Hl. assert (Hr : has st (Root l)) by (apply (sim_root _ _ H); by exists s).
  unfold LinkedList.lazyInit. hload Hr x (-> & _).
  destruct (sim_ring _ _ H l s Hl) as [Hring|(-> & Hn & _)].
  { rewrite (seg_first _ _ _ _ Hring). by exists st. }
  rewrite Hn. unfold LinkedList.Init. do 2 hstep assign_has. rewrite setLen_ret.
  eexists. split; [done|].
  set (st1 := upd (Root l) _ st). set (st2 := upd (Root l) _ st1).
  assert (Hnx : forall p, nxt st2 p = if decide (p = Root l) then Some (Root l) else nxt st p).
  { intros p. subst st1 st2. by views. }
  assert (Hpv : forall p, prv st2 p = if decide (p = Root l) then Some (Root l) else prv st p).
  { intros p. subst st1 st2. by views. }
  assert (Hring : ring (withLen l 0 st2) l []).
  { split; autorewrite with views; [rewrite Hnx|rewrite Hpv]; by rewrite decide_True. }
  split; [|done]. split.
  - apply (sim_fresh _ _ H).
  - intros a. autorewrite with views. subst st1 st2. autorewrite with views. apply (sim_val _ _ H).
  - apply (sim_bound _ _ H).
  - intros l'. cbn. rewrite lookup_insert. case_decide; [subst; by rewrite Hl|apply (sim_len _ _ H)].
  - intros l'. rewrite has_withLen. subst st1 st2. rewrite !has_upd. apply (sim_root _ _ H).
  - intros l' s' Hl'. destruct (decide (l' = l)) as [->|Hne]; [left; by replace s' with (@nil Z) by congruence|].
    destruct (sim_ring _ _ H l' s' Hl') as [Hr'|(-> & Hn' & Hp')].
    + left. revert Hr'. apply ring_ext. intros y Hy. autorewrite with views. rewrite Hnx, Hpv.
      assert (y <> Root l); [|by rewrite !decide_False].
      destruct Hy as [->|Hy]; [congruence|]. intros ->. by apply root_elt in Hy.
    + right. autorewrite with views. rewrite Hnx, Hpv, !decide_False by congruence. done.
  - intros a l'. autorewrite with views. subst st1 st2. autorewrite with views. apply (sim_own _ _ H).
  - apply (sim_nodup _ _ H).
  - apply (sim_elem _ _ H).
Qed.
Lemma insertValue_sim st ab l xs ys v :
  sim st ab -> seqs ab !! l = Some (xs ++ ys) -> ring st l (xs ++ ys) ->
  exists st', LinkedList.insertValue l v (lastOf (Root l) (Elt <$> xs)) st
              = Ret (Elt (nextAddr ab), st') /\
    sim st' (setSeq l (xs ++ nextAddr ab :: ys) (allocVal v ab)) /\
    ring st' l (xs ++ nextAddr ab :: ys).
Proof.
  intros H Hl Hring. destruct (alloc_sim st ab v H) as (Hrun & H' & Hfree & Ha & Hr).
  unfold LinkedList.insertValue. rewrite (heap_bind_ret _ _ _ _ _ Hrun).
  by apply insert_sim; [| |apply Hr| |].
Qed.

(** *** Positions *)
Lemma own_in st ab l s e : sim st ab -> seqs ab !! l = Some s -> own st (Elt e) = Some l <-> e ∈ s.
Proof.
  intros H Hl. rewrite (sim_own _ _ H). rewrite Hl. split; [intros (? & [= <-] & ?); done|eauto].
Qed.

Lemma split_at e s :
  e ∈ s -> NoDup s -> exists xs ys, s = xs ++ e :: ys /\ e ∉ xs /\ e ∉ ys.
Proof.
  intros (xs & ys & ->)%list_elem_of_split Hnd. exists xs, ys. split; [done|].
  rewrite <- Permutation_middle, NoDup_cons, not_elem_of_app in Hnd. tauto.
Qed.

Lemma insBefore_at m a xs ys : m ∉ xs -> insBefore m a (xs ++ m :: ys) = xs ++ a :: m :: ys.
Proof.
  induction xs as [|x xs IH]; cbn; intros Hm; [by rewrite Z.eqb_refl|].
  apply not_elem_of_cons in Hm as [Hx Hm]. destruct (Z.eqb_spec x m); [done|]. by rewrite IH.
Qed.

Lemma insAfter_at m a xs ys : m ∉ xs -> insAfter m a (xs ++ m :: ys) = xs ++ m :: a :: ys.
Proof.
  induction xs as [|x xs IH]; cbn; intros Hm; [by rewrite Z.eqb_refl|].
  apply not_elem_of_cons in Hm as [Hx Hm]. destruct (Z.eqb_spec x m); [done|]. by rewrite IH.
Qed.

Lemma behind_at e xs ys : e ∉ xs -> behind e (xs ++ e :: ys) = head ys.
Proof.
  induction xs as [|x xs IH]; cbn; intros He; [by rewrite Z.eqb_refl|].
  apply not_elem_of_cons in He as [Hx He]. destruct (Z.eqb_spec x e); [done|]. by rewrite IH.
Qed.

Lemma behind_not e s : e ∉ s -> behind e s = None.
Proof.
  induction s as [|x s IH]; cbn; intros He; [done|].
  apply not_elem_of_cons in He as [Hx He]. destruct (Z.eqb_spec x e); [done|]. by rewrite IH.
Qed.

Lemma without_not e s : e ∉ s -> without e s = s.
Proof.
  intros He. induction s as [|x s IH]; [done|]. apply not_elem_of_cons in He as [Hx He].
  unfold without in *. rewrite filter_cons_True by done. by rewrite IH.
Qed.

Lemma without_at e xs ys : e ∉ xs -> e ∉ ys -> without e (xs ++ e :: ys) = xs ++ ys.
Proof.
  intros. unfold without. rewrite filter_app, filter_cons_False by auto.
  change (without e xs ++ without e ys = xs ++ ys). by rewrite !without_not.
Qed.

Lemma setSeq_id ab l s : seqs ab !! l = Some s -> setSeq l s ab = ab.
Proof. intros Hl. unfold setSeq. rewrite insert_id by done. by destruct ab. Qed.

Lemma setSeq_setSeq ab l s s' : setSeq l s' (setSeq l s ab) = setSeq l s' ab.
Proof. unfold setSeq. cbn. by rewrite insert_insert_eq. Qed.

Lemma seqOf_eq ab l s : seqs ab !! l = Some s -> seqOf ab l = s.
Proof. unfold seqOf. by intros ->. Qed.

(** The pointers the elements of a ring hold. *)
Lemma ring_at st ab l xs e ys :
  sim st ab -> seqs ab !! l = Some (xs ++ e :: ys) ->
  nxt st (Elt e) = Some (firstOf (Elt <$> ys) (Root l)) /\
  prv st (Elt e) = Some (lastOf (Root l) (Elt <$> xs)).
Proof.
  intros H Hl. destruct (sim_ring _ _ H l _ Hl) as [Hr|[? _]]; [|by destruct xs].
  unfold ring in Hr. rewrite fmap_app, fmap_cons in Hr. apply seg_app in Hr as [H1 H2].
  split; [by apply seg_first in H2|by apply seg_last in H1].
Qed.

Lemma firstOf_nil ys l : (if decide (Some (firstOf (Elt <$> ys) (Root l)) = Some (Root l))
  then None else Some (firstOf (Elt <$> ys) (Root l))) = Elt <$> head ys.
Proof. destruct ys; cbn; [by rewrite decide_True|by rewrite decide_False]. Qed.

Lemma lastOf_last xs l : (if decide (Some (lastOf (Root l) (Elt <$> xs)) = Some (Root l))
  then None else Some (lastOf (Root l) (Elt <$> xs))) = Elt <$> last xs.
Proof.
  destruct xs as [|x xs _] using rev_ind; cbn; [by rewrite decide_True|].
  rewrite fmap_app, last_snoc. cbn. rewrite lastOf_snoc. by rewrite decide_False.
Qed.

(** *** The calls *)
Lemma removed_free st ab l xs e ys :
  sim st ab -> seqs ab !! l = Some (xs ++ e :: ys) -> ~ inSome (setSeq l (xs ++ ys) ab) e.
Proof.
  intros H Hl (l' & s & Hl' & Hin). cbn in Hl'. rewrite lookup_insert in Hl'.
  pose proof (sim_nodup _ _ H l _ Hl) as Hnd. case_decide as Hll.
  - injection Hl' as <-. rewrite <- Permutation_middle in Hnd. by apply NoDup_cons in Hnd as [? _].
  - apply Hll. apply (sim_disjoint st ab l l' (xs ++ e :: ys) s e); [done..|set_solver|done].
Qed.

(** Taking an element out and putting it back at [xs' ++ _ ++ ys']. *)
Lemma move_sim st ab l xs e ys :
  sim st ab -> seqs ab !! l = Some (xs ++ e :: ys) ->
  exists st1, LinkedList.remove l (Elt e) st = Ret (Elt e, st1) /\
    sim st1 (setSeq l (xs ++ ys) ab) /\ ring st1 l (xs ++ ys) /\
    forall xs' ys', xs ++ ys = xs' ++ ys' ->
    exists st', LinkedList.insert l (Elt e) (lastOf (Root l) (Elt <$> xs')) st1 = Ret (Elt e, st') /\
      sim st' (setSeq l (xs' ++ e :: ys') ab).
Proof.
  intros H Hl. destruct (remove_sim st ab l xs e ys H Hl) as (st1 & Hrun & H1 & Hr).
  exists st1. split; [done|]. split; [done|]. split; [done|]. intros xs' ys' Heq.
  rewrite Heq in H1, Hr.
  destruct (insert_sim st1 (setSeq l (xs' ++ ys') ab) l xs' ys' e) as (st' & Hrun' & H' & _).
  - done.
  - cbn. apply lookup_insert_eq.
  - done.
  - apply (sim_elem _ _ H l (xs ++ e :: ys)); [done|set_solver].
  - rewrite <- Heq. by apply (removed_free st).
  - exists st'. rewrite setSeq_setSeq in H'. done.
Qed.
(** A call ends with a value and a store that still represents the sequences. *)
Definition simulated {A} (m : Heap V A) (st : store V) (a : A) (ab : sequences V) : Prop :=
  exists st', m st = Ret (a, st') /\ sim st' ab.

Lemma simulated_map {A B} (m : Heap V A) (f : A -> B) st (x : A) ab :
  simulated m st x ab -> simulated (y ← m; mret (f y)) st (f x) ab.
Proof. intros (st' & Hm & H). exists st'. by rewrite (heap_bind_ret _ _ _ _ _ Hm). Qed.

Lemma simulated_read {A B} (m : Heap V A) (f : A -> B) st (x : A) ab :
  sim st ab -> m st = Ret (x, st) -> simulated (y ← m; mret (f y)) st (f x) ab.
Proof. intros. apply simulated_map. by exists st. Qed.

Lemma PushFront_sim st ab l v :
  sim st ab -> isList ab l ->
  simulated (LinkedList.PushFront l v) st (Elt (nextAddr ab)) (pushFrontSeq l ab v).
Proof.
  intros H [s Hl]. destruct (lazyInit_sim st ab l s H Hl) as (st1 & Hrun & H1 & Hr).
  destruct (insertValue_sim st1 ab l [] s v H1 Hl Hr) as (st2 & Hrun2 & H2 & _).
  exists st2. unfold LinkedList.PushFront, pushFrontSeq. rewrite (seqOf_eq _ _ _ Hl).
  rewrite (heap_bind_ret _ _ _ _ _ Hrun). done.
Qed.

Lemma pushBack_core st ab l s v :
  sim st ab -> seqs ab !! l = Some s -> ring st l s ->
  exists st', (r ← LinkedList.load (Root l); at_ ← LinkedList.deref (prev r);
     LinkedList.insertValue l v at_) st = Ret (Elt (nextAddr ab), st') /\
    sim st' (pushBackSeq l ab v) /\ ring st' l (s ++ [nextAddr ab]).
Proof.
  intros H Hl Hr. assert (Hroot : has st (Root l)) by (apply (sim_root _ _ H); by exists s).
  hload Hroot x (_ & -> & _). rewrite (seg_last _ _ _ _ Hr).
  rewrite (heap_bind_ret _ _ _ _ _ (deref_ret _ _)).
  destruct (insertValue_sim st ab l s [] v H) as (st' & Hrun & H' & Hr'); [by rewrite app_nil_r..|].
  exists st'. unfold pushBackSeq. by rewrite (seqOf_eq _ _ _ Hl).
Qed.

Lemma PushBack_sim st ab l v :
  sim st ab -> isList ab l ->
  simulated (LinkedList.PushBack l v) st (Elt (nextAddr ab)) (pushBackSeq l ab v).
Proof.
  intros H [s Hl]. destruct (lazyInit_sim st ab l s H Hl) as (st1 & Hrun & H1 & Hr).
  destruct (pushBack_core st1 ab l s v H1 Hl Hr) as (st2 & Hrun2 & H2 & _).
  exists st2. unfold LinkedList.PushBack. by rewrite (heap_bind_ret _ _ _ _ _ Hrun).
Qed.

Lemma InsertBefore_sim st ab l v m s :
  sim st ab -> seqs ab !! l = Some s -> m ∈ s -> 
  simulated (LinkedList.InsertBefore l v (Elt m)) st (Some (Elt (nextAddr ab)))
    (setSeq l (insBefore m (nextAddr ab) s) (allocVal v ab)).
Proof.
  intros H Hl Hm. assert (Hhas : has st (Elt m)) by (apply (has_val st m ab H); by apply (sim_elem _ _ H l s)).
  unfold LinkedList.InsertBefore, simulated. hload Hhas x (_ & -> & -> & _).
  rewrite decide_True by (by apply (own_in st ab l s)).
  destruct (split_at m s Hm (sim_nodup _ _ H l s Hl)) as (xs & ys & -> & Hxs & Hys).
  destruct (ring_at st ab l xs m ys H Hl) as [_ ->]. rewrite (heap_bind_ret _ _ _ _ _ (deref_ret _ _)).
  destruct (insertValue_sim st ab l xs (m :: ys) v H Hl) as (st' & Hrun & H' & _).
  { destruct (sim_ring _ _ H l _ Hl) as [|[? _]]; [done|by destruct xs]. }
  exists st'. rewrite (heap_bind_ret _ _ _ _ _ Hrun). by rewrite insBefore_at.
Qed.

Lemma InsertAfter_sim st ab l v m s :
  sim st ab -> seqs ab !! l = Some s -> m ∈ s ->
  simulated (LinkedList.InsertAfter l v (Elt m)) st (Some (Elt (nextAddr ab)))
    (setSeq l (insAfter m (nextAddr ab) s) (allocVal v ab)).
Proof.
  intros H Hl Hm. assert (Hhas : has st (Elt m)) by (apply (has_val st m ab H); by apply (sim_elem _ _ H l s)).
  unfold LinkedList.InsertAfter, simulated. hload Hhas x (_ & _ & -> & _).
  rewrite decide_True by (by apply (own_in st ab l s)).
  destruct (split_at m s Hm (sim_nodup _ _ H l s Hl)) as (xs & ys & -> & Hxs & Hys).
  destruct (insertValue_sim st ab l (xs ++ [m]) ys v H) as (st' & Hrun & H' & _).
  { by rewrite <- app_assoc. }
  { rewrite <- app_assoc. destruct (sim_ring _ _ H l _ Hl) as [|[? _]]; [done|by destruct xs]. }
  rewrite fmap_app in Hrun. cbn in Hrun. rewrite lastOf_snoc in Hrun.
  exists st'. rewrite (heap_bind_ret _ _ _ _ _ Hrun). rewrite insAfter_at by done.
  by rewrite <- app_assoc in H'.
Qed.

Lemma Remove_sim st ab l e v :
  sim st ab -> isList ab l -> vals ab !! e = Some v ->
  simulated (LinkedList.Remove l (Elt e)) st v (setSeq l (without e (seqOf ab l)) ab).
Proof.
  intros H [s Hl] Hv. assert (Hhas : has st (Elt e)) by (apply (has_val st e ab H); by exists v).
  rewrite (seqOf_eq _ _ _ Hl). unfold LinkedList.Remove, simulated. hload Hhas x (_ & _ & -> & _).
  assert (Hfin : forall st' ab', sim st' ab' -> vals ab' = vals ab ->
    (x ← LinkedList.load (Elt e); mret (Value x)) st' = Ret (v, st')).
  { intros st' ab' H' Hvals. assert (Hh : has st' (Elt e)).
    { apply (has_val st' e ab' H'). unfold isElem. rewrite Hvals. by exists v. }
    hload Hh y (_ & _ & _ & Hy). rewrite (sim_val _ _ H'), Hvals, Hv in Hy. by injection Hy as ->. }
  destruct (decide (e ∈ s)) as [He|He].
  - rewrite decide_True by (by apply (own_in st ab l s)).
    destruct (split_at e s He (sim_nodup _ _ H l s Hl)) as (xs & ys & -> & Hxs & Hys).
    destruct (remove_sim st ab l xs e ys H Hl) as (st' & Hrun & H' & _).
    rewrite without_at by done. exists st'. split; [|done].
    erewrite heap_bind_ret by (by rewrite (heap_bind_ret _ _ _ _ _ Hrun)).
    by apply (Hfin _ _ H').
  - rewrite decide_False by (by rewrite (own_in st ab l s)). rewrite without_not by done.
    rewrite setSeq_id by done. exists st. split; [|done].
    erewrite heap_bind_ret by done. by apply (Hfin st ab).
Qed.
Lemma newZero_sim zero st ab l :
  sim st ab -> ~ isList ab l ->
  exists st', LinkedList.newZero zero l st = Ret (tt, st') /\ sim st' (setSeq l [] ab) /\
    nxt st' (Root l) = None.
Proof.
  intros H Hl. eexists. split; [done|].
  assert (Hnone : elements st !! Root l = None).
  { apply eq_None_not_Some. intros Hs. by apply Hl, (sim_root _ _ H). }
  set (st' := mkStore _ _ _).
  assert (Hview : forall {A} (g : Element V -> option A) p,
    p <> Root l -> elements st' !! p ≫= g = elements st !! p ≫= g).
  { intros A g p Hp. cbn. by rewrite lookup_insert_ne. }
  assert (Hl' : seqs ab !! l = None) by (by apply eq_None_not_Some).
  split; [|unfold nxt, st'; cbn; by rewrite lookup_insert_eq].
  split; cbn [vals nextAddr setSeq].
  - apply (sim_fresh _ _ H).
  - intros a. unfold val. cbn. rewrite lookup_insert_ne by done. apply (sim_val _ _ H).
  - apply (sim_bound _ _ H).
  - intros l'. cbn. rewrite !lookup_insert. case_decide; [done|apply (sim_len _ _ H)].
  - intros l'. unfold has, isList. cbn. rewrite !lookup_insert.
    destruct (decide (l = l')) as [->|Hne]; [rewrite decide_True by done; split; eauto|].
    rewrite decide_False by congruence. apply (sim_root _ _ H).
  - intros l' s. cbn [seqs setSeq]. rewrite lookup_insert. case_decide as Hll.
    + intros [= <-]. subst. right. unfold nxt, prv. cbn. by rewrite lookup_insert_eq.
    + intros Hs. assert (Root l' <> Root l) by congruence.
      destruct (sim_ring _ _ H l' s Hs) as [Hr|(-> & Hn & Hp)].
      * left. revert Hr. apply ring_ext. intros x Hx. split; apply Hview;
          (destruct Hx as [->|Hx]; [done|]; intros ->; by apply root_elt in Hx).
      * right. unfold nxt, prv in *. by rewrite !Hview.
  - intros a l'. unfold own. rewrite Hview by done. rewrite (sim_own _ _ H a l').
    cbn [seqs setSeq]. rewrite lookup_insert. case_decide; [subst|done].
    split; intros (s & Hs & Ha); [congruence|]. injection Hs as <-. by apply not_elem_of_nil in Ha.
  - intros l' s. cbn [seqs setSeq]. rewrite lookup_insert.
    case_decide; [intros [= <-]; constructor|apply (sim_nodup _ _ H)].
  - intros l' s a. cbn [seqs setSeq]. rewrite lookup_insert.
    case_decide; [intros [= <-] Ha; by apply not_elem_of_nil in Ha|apply (sim_elem _ _ H)].
Qed.

Lemma New_sim zero st ab l :
  sim st ab -> ~ isList ab l -> simulated (LinkedList.New zero l) st tt (setSeq l [] ab).
Proof.
  intros H Hl. destruct (newZero_sim zero st ab l H Hl) as (st1 & Hrun & H1 & Hn).
  assert (Hs : seqs (setSeq l [] ab) !! l = Some []) by (cbn; apply lookup_insert_eq).
  destruct (lazyInit_sim st1 _ l [] H1 Hs) as (st2 & Hrun2 & H2 & _).
  exists st2. split; [|done]. unfold LinkedList.New. rewrite (heap_bind_ret _ _ _ _ _ Hrun).
  rewrite <- Hrun2. unfold LinkedList.lazyInit.
  assert (Hroot : has st1 (Root l)) by (apply (sim_root _ _ H1); by exists []).
  hload Hroot x (-> & _). by rewrite Hn.
Qed.

Lemma ends_sim st ab l s :
  sim st ab -> seqs ab !! l = Some s ->
  LinkedList.Front l st = Ret (Elt <$> head s, st) /\ LinkedList.Back l st = Ret (Elt <$> last s, st).
Proof.
  intros H Hl. assert (Hroot : has st (Root l)) by (apply (sim_root _ _ H); by exists s).
  unfold LinkedList.Front, LinkedList.Back.
  rewrite !(heap_bind_ret _ _ _ _ _ (getLen_ret l _ st (sim_seq_len st ab l s H Hl))).
  destruct s as [|x s'] eqn:Hs; [done|]. rewrite <- Hs in Hl.
  destruct (sim_ring _ _ H l _ Hl) as [Hr|[? _]]; [|congruence]. rewrite Hs in Hr.
  destruct (Z.eqb_spec (Z.of_nat (length (x :: s'))) 0) as [E|_]; [cbn in E; lia|].
  split; hload Hroot y (Hn & Hp & _); [rewrite Hn|rewrite Hp].
  - by rewrite (seg_first _ _ _ _ Hr).
  - rewrite (seg_last _ _ _ _ Hr). rewrite <- lastOf_last with (l := l).
    rewrite decide_False; [done|]. intros [= E]. pose proof (lastOf_elem (Elt x) (Elt <$> s')) as Hin.
    change (lastOf (Elt x) (Elt <$> s') = Root l) in E. rewrite E in Hin. rewrite <- fmap_cons in Hin. by apply root_elt in Hin.
Qed.

Lemma neighbours_sim st ab l e :
  sim st ab -> isElem ab e -> isList ab l -> (inSome ab e -> e ∈ seqOf ab l) ->
  LinkedList.Next (Elt e) st = Ret (Elt <$> behind e (seqOf ab l), st) /\
  LinkedList.Prev (Elt e) st = Ret (Elt <$> behind e (reverse (seqOf ab l)), st).
Proof.
  intros H He [s Hl] Hin. rewrite (seqOf_eq _ _ _ Hl) in *.
  assert (Hhas : has st (Elt e)) by by apply (has_val st e ab H).
  unfold LinkedList.Next, LinkedList.Prev. destruct (decide (e ∈ s)) as [Hes|Hes].
  - assert (Hown : own st (Elt e) = Some l) by by apply (own_in st ab l s).
    destruct (split_at e s Hes (sim_nodup _ _ H l s Hl)) as (xs & ys & -> & Hxs & Hys).
    destruct (ring_at st ab l xs e ys H Hl) as [Hn Hp].
    rewrite reverse_app, reverse_cons, <- app_assoc. cbn [app].
    rewrite !behind_at by (by rewrite ?elem_of_reverse).
    split; hload Hhas x (Hxn & Hxp & -> & _); rewrite Hown; [rewrite Hxn, Hn|rewrite Hxp, Hp].
    + by rewrite firstOf_nil.
    + by rewrite lastOf_last, head_reverse.
  - rewrite !behind_not by (by rewrite ?elem_of_reverse).
    assert (Hown : own st (Elt e) = None).
    { apply eq_None_not_Some. intros [l' Hl']. apply (sim_own _ _ H) in Hl' as (s' & Hs' & Hes').
      apply Hes, Hin. by exists l', s'. }
    split; hload Hhas x (_ & _ & -> & _); by rewrite Hown.
Qed.
(** *** Moving elements *)
Lemma MoveToFront_sim st ab l e s :
  sim st ab -> seqs ab !! l = Some s -> isElem ab e ->
  simulated (LinkedList.MoveToFront l (Elt e)) st tt
    (if decide (e ∈ s) then setSeq l (e :: without e s) ab else ab).
Proof.
  intros H Hl He. assert (Hhas : has st (Elt e)) by by apply (has_val st e ab H).
  assert (Hroot : has st (Root l)) by (apply (sim_root _ _ H); by exists s).
  unfold LinkedList.MoveToFront, simulated. hload Hhas x (_ & _ & -> & _). hload Hroot r (-> & _).
  pose proof (own_in st ab l s e H Hl) as Hown.
  destruct (decide (e ∈ s)) as [Hes|Hes]; [|rewrite decide_False by (intros [Ho _]; by apply Hes, Hown); by exists st].
  destruct (split_at e s Hes (sim_nodup _ _ H l s Hl)) as (xs & ys & -> & Hxs & Hys).
  rewrite without_at by done.
  assert (Hr : ring st l (xs ++ e :: ys)) by (destruct (sim_ring _ _ H l _ Hl) as [|[? _]]; [done|by destruct xs]).
  case_decide as Hc.
  - destruct (move_sim st ab l xs e ys H Hl) as (st1 & Hrun & _ & _ & Hmove).
    destruct (Hmove [] (xs ++ ys) eq_refl) as (st2 & Hrun2 & H2). exists st2.
    by rewrite (heap_bind_ret _ _ _ _ _ Hrun), (heap_bind_ret _ _ _ _ _ Hrun2).
  - exists st. split; [done|]. rewrite (seg_first _ _ _ _ Hr) in Hc.
    destruct xs as [|y xs]; cbn in Hc |- *; [by rewrite setSeq_id|].
    exfalso. apply Hc. split; [by apply Hown|]. intros [= ->]. apply Hxs. set_solver.
Qed.

Lemma MoveToBack_sim st ab l e s :
  sim st ab -> seqs ab !! l = Some s -> isElem ab e ->
  simulated (LinkedList.MoveToBack l (Elt e)) st tt
    (if decide (e ∈ s) then setSeq l (without e s ++ [e]) ab else ab).
Proof.
  intros H Hl He. assert (Hhas : has st (Elt e)) by by apply (has_val st e ab H).
  assert (Hroot : has st (Root l)) by (apply (sim_root _ _ H); by exists s).
  unfold LinkedList.MoveToBack, simulated. hload Hhas x (_ & _ & -> & _). hload Hroot r (_ & -> & _).
  pose proof (own_in st ab l s e H Hl) as Hown.
  destruct (decide (e ∈ s)) as [Hes|Hes]; [|rewrite decide_False by (intros [Ho _]; by apply Hes, Hown); by exists st].
  destruct (split_at e s Hes (sim_nodup _ _ H l s Hl)) as (xs & ys & -> & Hxs & Hys).
  rewrite without_at by done.
  assert (Hr : ring st l (xs ++ e :: ys)) by (destruct (sim_ring _ _ H l _ Hl) as [|[? _]]; [done|by destruct xs]).
  case_decide as Hc.
  - destruct (move_sim st ab l xs e ys H Hl) as (st1 & Hrun & H1 & Hr1 & Hmove).
    destruct (Hmove (xs ++ ys) []) as (st2 & Hrun2 & H2); [by rewrite app_nil_r|]. exists st2.
    rewrite (heap_bind_ret _ _ _ _ _ Hrun).
    assert (Hroot1 : has st1 (Root l)).
    { apply (sim_root _ _ H1). exists (xs ++ ys). cbn. apply lookup_insert_eq. }
    hload Hroot1 y (_ & -> & _). rewrite (seg_last _ _ _ _ Hr1).
    by rewrite (heap_bind_ret _ _ _ _ _ (deref_ret _ _)), (heap_bind_ret _ _ _ _ _ Hrun2).
  - exists st. split; [done|]. rewrite (seg_last _ _ _ _ Hr) in Hc.
    destruct ys as [|y ys _] using rev_ind; [by rewrite app_nil_r, setSeq_id|].
    exfalso. apply Hc. split; [by apply Hown|]. rewrite app_comm_cons, app_assoc, fmap_app. change (Elt <$> [y]) with [Elt y]. rewrite lastOf_snoc.
    intros [= ->]. apply Hys. set_solver.
Qed.

(** Both moves next to a mark: the element goes out, then in beside the mark. *)
Lemma move_beside_sim st ab l e m s :
  sim st ab -> seqs ab !! l = Some s -> e ∈ s -> e <> m -> m ∈ s ->
  exists st1, LinkedList.remove l (Elt e) st = Ret (Elt e, st1) /\
  exists p, has st1 (Elt m) /\ prv st1 (Elt m) = Some p /\
    (exists st', LinkedList.insert l (Elt e) p st1 = Ret (Elt e, st') /\
       sim st' (setSeq l (insBefore m e (without e s)) ab)) /\
    (exists st', LinkedList.insert l (Elt e) (Elt m) st1 = Ret (Elt e, st') /\
       sim st' (setSeq l (insAfter m e (without e s)) ab)).
Proof.
  intros H Hl He Hne Hm.
  destruct (split_at e s He (sim_nodup _ _ H l s Hl)) as (xs & ys & -> & Hxs & Hys).
  rewrite without_at by done.
  destruct (move_sim st ab l xs e ys H Hl) as (st1 & Hrun & H1 & Hr1 & Hmove).
  assert (Hl1 : seqs (setSeq l (xs ++ ys) ab) !! l = Some (xs ++ ys)) by (cbn; apply lookup_insert_eq).
  assert (Hm1 : m ∈ xs ++ ys) by (clear -Hm Hne; set_solver).
  destruct (split_at m _ Hm1 (sim_nodup _ _ H1 l _ Hl1)) as (us & vs & Heq & Hus & Hvs).
  exists st1. split; [done|]. exists (lastOf (Root l) (Elt <$> us)).
  split; [apply (has_ring st1 _ l (xs ++ ys) _ H1 Hl1); rewrite elem_of_cons, elt_elem; by right|].
  rewrite Heq in *. split; [by apply (ring_at st1 _ l us m vs H1)|].
  rewrite insBefore_at, insAfter_at by done. split.
  - by apply Hmove.
  - destruct (Hmove (us ++ [m]) vs) as (st' & Hrun' & H'); [by rewrite <- app_assoc|].
    rewrite fmap_app in Hrun'. cbn in Hrun'. rewrite lastOf_snoc in Hrun'.
    rewrite <- app_assoc in H'. by exists st'.
Qed.

Lemma MoveBeside_sim st ab l e m s :
  sim st ab -> seqs ab !! l = Some s -> isElem ab e -> isElem ab m ->
  simulated (LinkedList.MoveBefore l (Elt e) (Elt m)) st tt
    (if decide (e ∈ s /\ e <> m /\ m ∈ s) then setSeq l (insBefore m e (without e s)) ab else ab) /\
  simulated (LinkedList.MoveAfter l (Elt e) (Elt m)) st tt
    (if decide (e ∈ s /\ e <> m /\ m ∈ s) then setSeq l (insAfter m e (without e s)) ab else ab).
Proof.
  intros H Hl He Hm. assert (Hhas : has st (Elt e)) by by apply (has_val st e ab H).
  assert (Hhasm : has st (Elt m)) by by apply (has_val st m ab H).
  pose proof (own_in st ab l s e H Hl) as Hoe. pose proof (own_in st ab l s m H Hl) as Hom.
  unfold LinkedList.MoveBefore, LinkedList.MoveAfter, simulated.
  destruct (decide (e ∈ s /\ e <> m /\ m ∈ s)) as [Hc|Hc].
  - destruct Hc as (Hes & Hne & Hms).
    destruct (move_beside_sim st ab l e m s H Hl Hes Hne Hms)
      as (st1 & Hrun & p & Hh1 & Hp & (st2 & Hrun2 & H2) & (st3 & Hrun3 & H3)).
    split.
    + exists st2. split; [|done]. hload Hhas x (_ & _ & -> & _). hload Hhasm y (_ & _ & -> & _).
      rewrite decide_True by (rewrite Hoe, Hom; split; [done|]; split; [congruence|done]).
      rewrite (heap_bind_ret _ _ _ _ _ Hrun). hload Hh1 z (_ & -> & _). rewrite Hp.
      by rewrite (heap_bind_ret _ _ _ _ _ (deref_ret _ _)), (heap_bind_ret _ _ _ _ _ Hrun2).
    + exists st3. split; [|done]. hload Hhas x (_ & _ & -> & _). hload Hhasm y (_ & _ & -> & _).
      rewrite decide_True by (rewrite Hoe, Hom; split; [done|]; split; [congruence|done]).
      by rewrite (heap_bind_ret _ _ _ _ _ Hrun), (heap_bind_ret _ _ _ _ _ Hrun3).
  - split; exists st; (split; [|done]); hload Hhas x (_ & _ & -> & _); hload Hhasm y (_ & _ & -> & _);
      (rewrite decide_False; [done|]); rewrite Hoe, Hom; intros (? & ? & ?); apply Hc;
      (split; [done|]); (split; [congruence|done]).
Qed.
(** *** Copying a list *)
Lemma valuesOf_alloc st ab v rs o s l s0 :
  sim st ab -> seqs ab !! o = Some s -> (forall a, a ∈ rs -> a ∈ s) ->
  valuesOf (setSeq l s0 (allocVal v ab)) rs = valuesOf ab rs.
Proof.
  intros H Hl Hrs. unfold valuesOf. apply list_omap_ext. apply Forall_Forall2_diag, Forall_forall.
  intros a Ha. cbn. rewrite lookup_insert_ne; [done|].
  intros <-. apply Hrs, (sim_elem _ _ H o s), (sim_bound _ _ H) in Ha; [lia|done].
Qed.

Lemma copied_seq ab l other v s s' so :
  seqs ab !! l = Some s -> seqs ab !! other = Some so ->
  seqs (setSeq l s' (allocVal v ab)) !! other = Some (if decide (l = other) then s' else so).
Proof.
  intros Hl Ho. cbn. rewrite lookup_insert. by case_decide.
Qed.

(** The element [r] of [other], whose sequence is [before ++ r :: rest]. *)
Lemma copy_step st ab other before r rest :
  sim st ab -> seqs ab !! other = Some (before ++ r :: rest) ->
  has st (Elt r) /\ (exists v, vals ab !! r = Some v) /\
  LinkedList.Next (Elt r) st = Ret (Elt <$> head rest, st) /\
  LinkedList.Prev (Elt r) st = Ret (Elt <$> last before, st).
Proof.
  intros H Ho. assert (Hr : isElem ab r) by (apply (sim_elem _ _ H other (before ++ r :: rest)); [done|set_solver]).
  pose proof (sim_nodup _ _ H other _ Ho) as Hnd.
  rewrite <- Permutation_middle, NoDup_cons, not_elem_of_app in Hnd. destruct Hnd as [[Hb Hre] _].
  destruct (neighbours_sim st ab other r H Hr) as [Hn Hp].
  { by eexists. }
  { intros _. rewrite (seqOf_eq _ _ _ Ho). set_solver. }
  rewrite (seqOf_eq _ _ _ Ho) in Hn, Hp. rewrite behind_at in Hn by done.
  rewrite reverse_app, reverse_cons, <- app_assoc in Hp. cbn [app] in Hp.
  rewrite behind_at, head_reverse in Hp by (by rewrite elem_of_reverse).
  split; [by apply (has_val st r ab H)|]. split; [exact Hr|done].
Qed.

Lemma pushBackLoop_sim l (other : Z) (rs : list Z) : forall st ab before extra s (e : option pointer),
  sim st ab -> seqs ab !! l = Some s -> ring st l s ->
  seqs ab !! other = Some (before ++ rs ++ extra) -> (rs <> [] -> e = Elt <$> head rs) ->
  simulated (LinkedList.pushBackLoop l (length rs) e) st tt
    (foldl (pushBackSeq l) ab (valuesOf ab rs)).
Proof.
  induction rs as [|r rs IH]; intros st ab before extra s e H Hl Hring Ho He; [by exists st|].
  rewrite He by done. cbn [length LinkedList.pushBackLoop head fmap option_fmap option_map].
  destruct (copy_step st ab other before r (rs ++ extra) H Ho) as (Hr & (v & Hv) & _).
  unfold simulated. rewrite (heap_bind_ret _ _ _ _ _ (deref_ret _ _)). hload Hr x (_ & _ & _ & Hx).
  rewrite (sim_val _ _ H), Hv in Hx. injection Hx as Hx. rewrite Hx.
  destruct (pushBack_core st ab l s v H Hl Hring) as (st1 & Hrun & H1 & Hr1).
  assert (Hroot : has st (Root l)) by (apply (sim_root _ _ H); by exists s).
  destruct (load_has _ _ Hroot) as (y & Hload & _ & Hy & _).
  rewrite (heap_bind_ret _ _ _ _ _ Hload), Hy, (seg_last _ _ _ _ Hring),
    (heap_bind_ret _ _ _ _ _ (deref_ret _ _)) in Hrun.
  rewrite (heap_bind_ret _ _ _ _ _ Hload), Hy, (seg_last _ _ _ _ Hring),
    (heap_bind_ret _ _ _ _ _ (deref_ret _ _)), (heap_bind_ret _ _ _ _ _ Hrun).
  assert (Hs1 : pushBackSeq l ab v = setSeq l (s ++ [nextAddr ab]) (allocVal v ab)).
  { unfold pushBackSeq. by rewrite (seqOf_eq _ _ _ Hl). }
  assert (Ho1 : exists extra', seqs (pushBackSeq l ab v) !! other = Some (before ++ r :: rs ++ extra')).
  { rewrite Hs1, (copied_seq ab l other v s _ _ Hl Ho). case_decide as Hlo; [|by exists extra].
    exists (extra ++ [nextAddr ab]). subst. assert (s = before ++ (r :: rs) ++ extra) as -> by congruence.
    by rewrite <- !app_assoc. }
  destruct Ho1 as [extra' Ho1].
  destruct (copy_step st1 _ other before r (rs ++ extra') H1 Ho1) as (_ & _ & Hn & _).
  rewrite (heap_bind_ret _ _ _ _ _ Hn).
  destruct (IH st1 (pushBackSeq l ab v) (before ++ [r]) extra' (s ++ [nextAddr ab])
    (Elt <$> head (rs ++ extra'))) as (st2 & Hrun2 & H2).
  - done.
  - rewrite Hs1. cbn. apply lookup_insert_eq.
  - done.
  - by rewrite <- app_assoc.
  - by destruct rs.
  - exists st2. split; [done|]. unfold valuesOf at 1. cbn [omap list_omap]. rewrite Hv. cbn [foldl].
    rewrite Hs1 in H2 at 2. rewrite (valuesOf_alloc st ab v rs other _ _ _ H Ho) in H2; [done|].
    clear. set_solver.
Qed.

Lemma pushFrontLoop_sim l (other : Z) (rs : list Z) : forall st ab before extra s (e : option pointer),
  sim st ab -> seqs ab !! l = Some s -> ring st l s ->
  seqs ab !! other = Some (extra ++ reverse rs ++ before) -> (rs <> [] -> e = Elt <$> head rs) ->
  simulated (LinkedList.pushFrontLoop l (length rs) e) st tt
    (foldl (pushFrontSeq l) ab (valuesOf ab rs)).
Proof.
  induction rs as [|r rs IH]; intros st ab before extra s e H Hl Hring Ho He; [by exists st|].
  rewrite He by done. cbn [length LinkedList.pushFrontLoop head fmap option_fmap option_map].
  rewrite reverse_cons, <- app_assoc in Ho. cbn [app] in Ho. rewrite app_assoc in Ho.
  destruct (copy_step st ab other _ r before H Ho) as (Hr & (v & Hv) & _).
  unfold simulated. rewrite (heap_bind_ret _ _ _ _ _ (deref_ret _ _)). hload Hr x (_ & _ & _ & Hx).
  rewrite (sim_val _ _ H), Hv in Hx. injection Hx as Hx. rewrite Hx.
  destruct (insertValue_sim st ab l [] s v H Hl Hring) as (st1 & Hrun & H1 & Hr1).
  cbn [fmap list_fmap lastOf app] in Hrun, H1, Hr1. rewrite (heap_bind_ret _ _ _ _ _ Hrun).
  assert (Hs1 : pushFrontSeq l ab v = setSeq l (nextAddr ab :: s) (allocVal v ab)).
  { unfold pushFrontSeq. by rewrite (seqOf_eq _ _ _ Hl). }
  rewrite <- Hs1 in H1.
  assert (Ho1 : exists extra', seqs (pushFrontSeq l ab v) !! other = Some ((extra' ++ reverse rs) ++ r :: before)).
  { rewrite Hs1, (copied_seq ab l other v s _ _ Hl Ho). case_decide as Hlo; [|by exists extra].
    exists (nextAddr ab :: extra). subst. assert (s = (extra ++ reverse rs) ++ r :: before) as -> by congruence.
    done. }
  destruct Ho1 as [extra' Ho1].
  destruct (copy_step st1 _ other _ r before H1 Ho1) as (_ & _ & _ & Hp).
  rewrite (heap_bind_ret _ _ _ _ _ Hp).
  destruct (IH st1 (pushFrontSeq l ab v) (r :: before) extra' (nextAddr ab :: s)
    (Elt <$> last (extra' ++ reverse rs))) as (st2 & Hrun2 & H2).
  - done.
  - rewrite Hs1. cbn. apply lookup_insert_eq.
  - done.
  - by rewrite <- app_assoc in Ho1.
  - intros Hne. destruct rs as [|r' rs]; [done|]. by rewrite reverse_cons, app_assoc, last_snoc.
  - exists st2. split; [done|]. unfold valuesOf at 1. cbn [omap list_omap]. rewrite Hv. cbn [foldl].
    rewrite Hs1 in H2 at 2. rewrite (valuesOf_alloc st ab v rs other _ _ _ H Ho) in H2; [done|].
    intros a Ha. rewrite !elem_of_app, elem_of_reverse. tauto.
Qed.
Lemma PushList_sim st ab l other :
  sim st ab -> isList ab l -> isList ab other ->
  simulated (LinkedList.PushBackList l other) st tt
    (foldl (pushBackSeq l) ab (valuesOf ab (seqOf ab other))) /\
  simulated (LinkedList.PushFrontList l other) st tt
    (foldl (pushFrontSeq l) ab (valuesOf ab (reverse (seqOf ab other)))).
Proof.
  intros H [s Hl] [so Ho]. rewrite (seqOf_eq _ _ _ Ho).
  destruct (lazyInit_sim st ab l s H Hl) as (st1 & Hrun & H1 & Hr).
  destruct (ends_sim st1 ab other so H1 Ho) as [Hfront Hback].
  unfold LinkedList.PushBackList, LinkedList.PushFrontList, simulated.
  rewrite !(heap_bind_ret _ _ _ _ _ Hrun),
    !(heap_bind_ret _ _ _ _ _ (getLen_ret other _ st1 (sim_seq_len st1 ab other so H1 Ho))).
  rewrite (heap_bind_ret _ _ _ _ _ Hfront), (heap_bind_ret _ _ _ _ _ Hback), !Nat2Z.id. split.
  - apply (pushBackLoop_sim l other so st1 ab [] [] s); try done. by rewrite app_nil_r.
  - rewrite <- (length_reverse so).
    apply (pushFrontLoop_sim l other (reverse so) st1 ab [] [] s); try done.
    + by rewrite reverse_involutive, app_nil_r.
    + by rewrite head_reverse.
Qed.

Lemma run_sim zero st ab c :
  sim st ab -> valid ab c ->
  exists r, (spec c ab).1 = Some r /\ simulated (run zero c) st r (spec c ab).2.
Proof.
  intros H Hv. destruct c; cbn [spec run valid fst snd] in *.
  - eexists. split; [done|]. by apply (simulated_map _ (fun _ => RUnit) _ tt), New_sim.
  - eexists. split; [done|]. apply (simulated_map _ (fun _ => RUnit) _ tt).
    destruct (newZero_sim zero st ab l H Hv) as (st' & ? & ? & _). by exists st'.
  - destruct Hv as [s Hl]. eexists. split; [done|]. rewrite (seqOf_eq _ _ _ Hl).
    by apply (simulated_read _ RInt), getLen_ret, (sim_seq_len st ab).
  - destruct Hv as [s Hl]. eexists. split; [done|]. rewrite (seqOf_eq _ _ _ Hl).
    by apply (simulated_read _ RElement), (ends_sim st ab).
  - destruct Hv as [s Hl]. eexists. split; [done|]. rewrite (seqOf_eq _ _ _ Hl).
    by apply (simulated_read _ RElement), (ends_sim st ab).
  - destruct Hv as (He & Hl & Hin). eexists. split; [done|]. by apply (simulated_read _ RElement), neighbours_sim.
  - destruct Hv as (He & Hl & Hin). eexists. split; [done|]. by apply (simulated_read _ RElement), (neighbours_sim st ab l).
  - destruct Hv as (Hl & v & Hval). eexists. split; [by rewrite Hval|].
    by apply (simulated_map _ RValue), Remove_sim.
  - eexists. split; [done|]. by apply (simulated_map _ (fun p : pointer => RElement (Some p))), PushFront_sim.
  - eexists. split; [done|]. by apply (simulated_map _ (fun p : pointer => RElement (Some p))), PushBack_sim.
  - destruct Hv as [[s Hl] He]. rewrite (seqOf_eq _ _ _ Hl). destruct (decide (mark ∈ s)) as [Hm|Hm].
    + eexists. split; [done|]. by apply (simulated_map _ RElement), (InsertBefore_sim st ab l v mark s).
    + eexists. split; [done|]. apply (simulated_read _ RElement); [done|].
      assert (Hhas : has st (Elt mark)) by by apply (has_val st mark ab H).
      unfold LinkedList.InsertBefore. hload Hhas x (_ & _ & -> & _).
      by rewrite decide_False by (by rewrite (own_in st ab l s)).
  - destruct Hv as [[s Hl] He]. rewrite (seqOf_eq _ _ _ Hl). destruct (decide (mark ∈ s)) as [Hm|Hm].
    + eexists. split; [done|]. by apply (simulated_map _ RElement), (InsertAfter_sim st ab l v mark s).
    + eexists. split; [done|]. apply (simulated_read _ RElement); [done|].
      assert (Hhas : has st (Elt mark)) by by apply (has_val st mark ab H).
      unfold LinkedList.InsertAfter. hload Hhas x (_ & _ & -> & _).
      by rewrite decide_False by (by rewrite (own_in st ab l s)).
  - destruct Hv as [[s Hl] He]. eexists. split; [done|]. rewrite (seqOf_eq _ _ _ Hl).
    by apply (simulated_map _ (fun _ => RUnit) _ tt), MoveToFront_sim.
  - destruct Hv as [[s Hl] He]. eexists. split; [done|]. rewrite (seqOf_eq _ _ _ Hl).
    by apply (simulated_map _ (fun _ => RUnit) _ tt), MoveToBack_sim.
  - destruct Hv as ([s Hl] & He & Hm). eexists. split; [done|]. rewrite (seqOf_eq _ _ _ Hl).
    by apply (simulated_map _ (fun _ => RUnit) _ tt), MoveBeside_sim.
  - destruct Hv as ([s Hl] & He & Hm). eexists. split; [done|]. rewrite (seqOf_eq _ _ _ Hl).
    by apply (simulated_map _ (fun _ => RUnit) _ tt), (MoveBeside_sim st ab l e mark s).
  - destruct Hv as [Hl Ho]. eexists. split; [done|]. by apply (simulated_map _ (fun _ => RUnit) _ tt), PushList_sim.
  - destruct Hv as [Hl Ho]. eexists. split; [done|]. by apply (simulated_map _ (fun _ => RUnit) _ tt), (PushList_sim st ab l other).
Qed.

Lemma sim_empty : sim emptyStore emptySeqs.
Proof.
  split; try done.
  - intros a. unfold isElem. cbn. rewrite lookup_empty. by intros [].
  - intros l. unfold has, isList. cbn. rewrite !lookup_empty. split; by intros [].
  - intros a l. unfold own. cbn. rewrite !lookup_empty. split; [done|]. intros (s & ? & _). done.
Qed.
End Simulation.

(** ** Programs that use the lists *)
Section Programs.
Context {V : Type} (zero : V).

Fixpoint runAll (cs : list (call V)) : Heap V (list (reply V)) :=
  match cs with
  | [] => mret []
  | c :: cs' => r ← run zero c; rs ← runAll cs'; mret (r :: rs)
  end.

Fixpoint specAll (cs : list (call V)) (ab : sequences V) : list (option (reply V)) :=
  match cs with
  | [] => []
  | c :: cs' => (spec c ab).1 :: specAll cs' (spec c ab).2
  end.

Fixpoint validAll (ab : sequences V) (cs : list (call V)) : Prop :=
  match cs with
  | [] => True
  | c :: cs' => valid ab c /\ validAll (spec c ab).2 cs'
  end.

Lemma runAll_sim cs st ab :
  sim st ab -> validAll ab cs ->
  exists rs st', runAll cs st = Ret (rs, st') /\ specAll cs ab = Some <$> rs.
Proof.
  revert st ab. induction cs as [|c cs IH]; intros st ab H Hv; [by exists [], st|].
  destruct Hv as [Hc Hv]. destruct (run_sim zero st ab c H Hc) as (r & Hr & st1 & Hrun & H1).
  destruct (IH st1 _ H1 Hv) as (rs & st2 & Hrun2 & Hrs). exists (r :: rs), st2. cbn.
  by rewrite (heap_bind_ret _ _ _ _ _ Hrun), (heap_bind_ret _ _ _ _ _ Hrun2), Hr, Hrs.
Qed.

(** C22: The doubly linked ring implements sequences.  Every sequence of calls on any number of lists
    (new or zero-valued, elements inserted, moved and removed in any order, lists copied into each
    other or into themselves) returns without a nil dereference, and every answer (elements,
    neighbours, values, lengths) is the one the sequences give. *)
Theorem linked_list_refines (cs : list (call V)) :
  validAll emptySeqs cs ->
  exists rs st, runAll cs emptyStore = Ret (rs, st) /\ specAll cs emptySeqs = Some <$> rs.
Proof. intros Hv. apply runAll_sim; [apply sim_empty|done]. Qed.
End Programs.

Definition sampleCalls : list (call Z) :=
  [CNew 1; CPushBack 1 10; CPushBack 1 20; CPushFront 1 5; CMoveToBack 1 2; CRemove 1 0;
   CInsertAfter 1 15 1; CPushBackList 1 1; CFront 1; CLen 1].

Lemma sampleCalls_valid : validAll emptySeqs sampleCalls.
Proof. repeat split; try (by eexists); by intros [? ?]. Qed.

Lemma linked_list_refines_witness :
  validAll emptySeqs sampleCalls /\
  exists rs st, runAll 0 sampleCalls emptyStore = Ret (rs, st) /\
    Some <$> rs !! 9%nat = Some (Some (RInt 6)).
Proof.
  split; [exact sampleCalls_valid|].
  destruct (linked_list_refines 0 _ sampleCalls_valid) as (rs & st & Hrun & Hspec). exists rs, st.
  split; [exact Hrun|]. rewrite <- list_lookup_fmap, <- Hspec. vm_compute. reflexivity.
Defined.
