(* ===== verification/ByteOrder.v ===== *)
(** * Byte orders and the 16-bit float

    Models [internal/utils/byteorder.go], [byteorder_little_endian.go],
    [byteorder_big_endian.go] and [float16.go].  The Go interface [ByteOrder]
    is a record of operations; [ByteOrderLaws] is what the frame codecs rely on. *)
From S2P Require Import Prelude.

(** ** The interface [ByteOrder] *)
Record ByteOrder := {
  ReadUintN : Z -> Parser Z;
  ReadUint64 : Parser Z;
  ReadUint32 : Parser Z;
  ReadUint16 : Parser Z;
  WriteUint64 : Z -> Writer unit;
  WriteUint56 : Z -> Writer unit;
  WriteUint48 : Z -> Writer unit;
  WriteUint40 : Z -> Writer unit;
  WriteUint32 : Z -> Writer unit;
  WriteUint24 : Z -> Writer unit;
  WriteUint16 : Z -> Writer unit
}.

(** ** Little endian *)
Module littleEndian.

Fixpoint ReadUintN_loop (n : nat) (i res : Z) : Parser Z :=
  match n with
  | O => mret res
  | S n' =>
      bt ← ReadByte;
      ReadUintN_loop n' (i + 1) (Z.lxor res (bt <<64 u8 (i * 8)))
  end.

Definition ReadUintN (length : Z) : Parser Z :=
  ReadUintN_loop (Z.to_nat length) 0 0.

Definition ReadUint64 : Parser Z :=
  b1 ← ReadByte; b2 ← ReadByte; b3 ← ReadByte; b4 ← ReadByte;
  b5 ← ReadByte; b6 ← ReadByte; b7 ← ReadByte; b8 ← ReadByte;
  mret (b1 +64 b2 <<64 8 +64 b3 <<64 16 +64 b4 <<64 24 +64 b5 <<64 32
        +64 b6 <<64 40 +64 b7 <<64 48 +64 b8 <<64 56).

Definition ReadUint32 : Parser Z :=
  b1 ← ReadByte; b2 ← ReadByte; b3 ← ReadByte; b4 ← ReadByte;
  mret (u32 (u32 (u32 (b1 + u32 (Z.shiftl b2 8)) + u32 (Z.shiftl b3 16))
             + u32 (Z.shiftl b4 24))).

Definition ReadUint16 : Parser Z :=
  b1 ← ReadByte; b2 ← ReadByte;
  mret (u16 (b1 + u16 (Z.shiftl b2 8))).

Definition WriteUint64 (i : Z) : Writer unit :=
  write [u8 i; u8 (i ≫ 8); u8 (i ≫ 16); u8 (i ≫ 24);
         u8 (i ≫ 32); u8 (i ≫ 40); u8 (i ≫ 48); u8 (i ≫ 56)].

Definition WriteUint56 (i : Z) : Writer unit :=
  if 2 ^ 56 <=? i then wpanic "doesn't fit into 56 bits"
  else write [u8 i; u8 (i ≫ 8); u8 (i ≫ 16); u8 (i ≫ 24);
              u8 (i ≫ 32); u8 (i ≫ 40); u8 (i ≫ 48)].

Definition WriteUint48 (i : Z) : Writer unit :=
  if 2 ^ 48 <=? i then wpanic "doesn't fit into 48 bits"
  else write [u8 i; u8 (i ≫ 8); u8 (i ≫ 16); u8 (i ≫ 24); u8 (i ≫ 32); u8 (i ≫ 40)].

Definition WriteUint40 (i : Z) : Writer unit :=
  if 2 ^ 40 <=? i then wpanic "doesn't fit into 40 bits"
  else write [u8 i; u8 (i ≫ 8); u8 (i ≫ 16); u8 (i ≫ 24); u8 (i ≫ 32)].

Definition WriteUint32 (i : Z) : Writer unit :=
  write [u8 i; u8 (i ≫ 8); u8 (i ≫ 16); u8 (i ≫ 24)].

Definition WriteUint24 (i : Z) : Writer unit :=
  if 2 ^ 24 <=? i then wpanic "doesn't fit into 24 bits"
  else write [u8 i; u8 (i ≫ 8); u8 (i ≫ 16)].

Definition WriteUint16 (i : Z) : Writer unit :=
  write [u8 i; u8 (i ≫ 8)].

End littleEndian.

Definition LittleEndian : ByteOrder :=
  {| ReadUintN := littleEndian.ReadUintN; ReadUint64 := littleEndian.ReadUint64;
     ReadUint32 := littleEndian.ReadUint32; ReadUint16 := littleEndian.ReadUint16;
     WriteUint64 := littleEndian.WriteUint64; WriteUint56 := littleEndian.WriteUint56;
     WriteUint48 := littleEndian.WriteUint48; WriteUint40 := littleEndian.WriteUint40;
     WriteUint32 := littleEndian.WriteUint32; WriteUint24 := littleEndian.WriteUint24;
     WriteUint16 := littleEndian.WriteUint16 |}.

(** ** Big endian *)
Module bigEndian.

Fixpoint ReadUintN_loop (n : nat) (length i res : Z) : Parser Z :=
  match n with
  | O => mret res
  | S n' =>
      bt ← ReadByte;
      ReadUintN_loop n' length (i + 1)
        (Z.lxor res (bt <<64 u8 (u8 (u8 (length - 1) - i) * 8)))
  end.

Definition ReadUintN (length : Z) : Parser Z :=
  ReadUintN_loop (Z.to_nat length) length 0 0.

Definition ReadUint64 : Parser Z :=
  b8 ← ReadByte; b7 ← ReadByte; b6 ← ReadByte; b5 ← ReadByte;
  b4 ← ReadByte; b3 ← ReadByte; b2 ← ReadByte; b1 ← ReadByte;
  mret (b1 +64 b2 <<64 8 +64 b3 <<64 16 +64 b4 <<64 24 +64 b5 <<64 32
        +64 b6 <<64 40 +64 b7 <<64 48 +64 b8 <<64 56).

Definition ReadUint32 : Parser Z :=
  b4 ← ReadByte; b3 ← ReadByte; b2 ← ReadByte; b1 ← ReadByte;
  mret (u32 (u32 (u32 (b1 + u32 (Z.shiftl b2 8)) + u32 (Z.shiftl b3 16))
             + u32 (Z.shiftl b4 24))).

Definition ReadUint16 : Parser Z :=
  b2 ← ReadByte; b1 ← ReadByte;
  mret (u16 (b1 + u16 (Z.shiftl b2 8))).

Definition WriteUint64 (i : Z) : Writer unit :=
  write [u8 (i ≫ 56); u8 (i ≫ 48); u8 (i ≫ 40); u8 (i ≫ 32);
         u8 (i ≫ 24); u8 (i ≫ 16); u8 (i ≫ 8); u8 i].

Definition WriteUint56 (i : Z) : Writer unit :=
  if 2 ^ 56 <=? i then wpanic "doesn't fit into 56 bits"
  else write [u8 (i ≫ 48); u8 (i ≫ 40); u8 (i ≫ 32);
              u8 (i ≫ 24); u8 (i ≫ 16); u8 (i ≫ 8); u8 i].

Definition WriteUint48 (i : Z) : Writer unit :=
  if 2 ^ 48 <=? i then wpanic "doesn't fit into 48 bits"
  else write [u8 (i ≫ 40); u8 (i ≫ 32); u8 (i ≫ 24); u8 (i ≫ 16); u8 (i ≫ 8); u8 i].

Definition WriteUint40 (i : Z) : Writer unit :=
  if 2 ^ 40 <=? i then wpanic "doesn't fit into 40 bits"
  else write [u8 (i ≫ 32); u8 (i ≫ 24); u8 (i ≫ 16); u8 (i ≫ 8); u8 i].

Definition WriteUint32 (i : Z) : Writer unit :=
  write [u8 (i ≫ 24); u8 (i ≫ 16); u8 (i ≫ 8); u8 i].

Definition WriteUint24 (i : Z) : Writer unit :=
  if 2 ^ 24 <=? i then wpanic "doesn't fit into 24 bits"
  else write [u8 (i ≫ 16); u8 (i ≫ 8); u8 i].

Definition WriteUint16 (i : Z) : Writer unit :=
  write [u8 (i ≫ 8); u8 i].

End bigEndian.

Definition BigEndian : ByteOrder :=
  {| ReadUintN := bigEndian.ReadUintN; ReadUint64 := bigEndian.ReadUint64;
     ReadUint32 := bigEndian.ReadUint32; ReadUint16 := bigEndian.ReadUint16;
     WriteUint64 := bigEndian.WriteUint64; WriteUint56 := bigEndian.WriteUint56;
     WriteUint48 := bigEndian.WriteUint48; WriteUint40 := bigEndian.WriteUint40;
     WriteUint32 := bigEndian.WriteUint32; WriteUint24 := bigEndian.WriteUint24;
     WriteUint16 := bigEndian.WriteUint16 |}.

(** ** [GetByteOrder] *)
Definition Version39 : Z := 39.

Definition GetByteOrder (v : Z) : ByteOrder :=
  if v <? Version39 then LittleEndian else BigEndian.

(** ** The reference encodings *)

(** The [n] low bytes of [v], least significant first. *)
Fixpoint le_bytes (n : nat) (v : Z) : list Z :=
  match n with
  | O => []
  | S n' => u8 v :: le_bytes n' (v ≫ 8)
  end.

Definition be_bytes (n : nat) (v : Z) : list Z := reverse (le_bytes n v).

Fixpoint le_val (bs : list Z) : Z :=
  match bs with
  | [] => 0
  | b :: bs' => b + 2 ^ 8 * le_val bs'
  end.

(** The encoding a version uses. *)
Definition enc (version : Z) (n : nat) (v : Z) : list Z :=
  if version <? Version39 then le_bytes n v else be_bytes n v.

Lemma length_le_bytes n v : length (le_bytes n v) = n.
Proof. revert v; induction n; intros; simpl; auto. Qed.

Lemma le_bytes_is_bytes n v : is_bytes (le_bytes n v).
Proof.
  revert v; induction n; intros; constructor; [apply u8_range | apply IHn].
Qed.

Lemma le_val_le_bytes n v : le_val (le_bytes n v) = v `mod` 2 ^ (8 * Z.of_nat n).
Proof.
  revert v; induction n as [|n IH]; intros v.
  - cbn [le_val le_bytes]. by rewrite Z.mod_1_r.
  - cbn [le_val le_bytes]. rewrite IH, Z.shiftr_div_pow2 by lia. unfold uN.
    replace (8 * Z.of_nat (S n)) with (8 + 8 * Z.of_nat n) by lia.
    rewrite Z.pow_add_r, Z.rem_mul_r by lia. lia.
Qed.

Lemma le_val_small n v : in_range (8 * Z.of_nat n) v -> le_val (le_bytes n v) = v.
Proof. intros. rewrite le_val_le_bytes. by apply Z.mod_small. Qed.

Lemma le_val_range bs : is_bytes bs -> in_range (8 * Z.of_nat (length bs)) (le_val bs).
Proof.
  unfold in_range. induction 1 as [|b bs Hb _ IH]; cbn [le_val length]; [lia|].
  replace (8 * Z.of_nat (S (length bs))) with (8 + 8 * Z.of_nat (length bs)) by lia.
  rewrite Z.pow_add_r by lia. unfold in_range in Hb. nia.
Qed.

Lemma le_val_snoc bs b : le_val (bs ++ [b]) = le_val bs + 2 ^ (8 * Z.of_nat (length bs)) * b.
Proof.
  induction bs as [|c bs IH].
  - cbn [app le_val length]. lia.
  - cbn [app le_val length]. rewrite IH.
    replace (8 * Z.of_nat (S (length bs))) with (8 + 8 * Z.of_nat (length bs)) by lia.
    rewrite Z.pow_add_r by lia. lia.
Qed.

(** Xor of two numbers that share no bit is their sum. *)
Lemma lxor_disjoint a b k :
  0 <= k -> in_range k a -> Z.lxor a (b * 2 ^ k) = a + b * 2 ^ k.
Proof.
  intros Hk Ha. rewrite <- Z.add_nocarry_lxor; [done|].
  apply Z.bits_inj'. intros n Hn. rewrite Z.land_spec, Z.bits_0.
  destruct (Z.lt_ge_cases n k) as [Hlt|Hge].
  - rewrite Z.mul_pow2_bits_low by lia. apply andb_false_r.
  - rewrite <- (Z.mod_small a (2 ^ k)) by done.
    by rewrite Z.mod_pow2_bits_high by lia.
Qed.

(** A shifted byte is added without wrap-around below 64 bits. *)
Lemma shl_byte b k : is_u8 b -> 0 <= k <= 56 -> b <<64 k = b * 2 ^ k.
Proof.
  intros Hb Hk. rewrite Z.shiftl_mul_pow2 by lia. apply uN_small.
  unfold in_range in *. assert (2 ^ k <= 2 ^ 56) by (apply Z.pow_le_mono_r; lia).
  split; [lia|]. nia.
Qed.

Lemma le_ReadUintN_loop bs i res rest :
  is_bytes bs -> 0 <= i -> i + Z.of_nat (length bs) <= 8 -> in_range (8 * i) res ->
  littleEndian.ReadUintN_loop (length bs) i res (bs ++ rest)
  = Ret (res + 2 ^ (8 * i) * le_val bs, rest).
Proof.
  intros Hbs. revert i res.
  induction Hbs as [|b bs Hb _ IH]; intros i res Hi Hlen Hres.
  - cbn. unfold mret, parser_ret. do 2 f_equal. lia.
  - cbn [length littleEndian.ReadUintN_loop app le_val] in *.
    unfold mbind, parser_bind, ReadByte at 1.
    assert (Hsh : u8 (i * 8) = 8 * i) by (usmall; lia).
    rewrite Hsh, shl_byte, lxor_disjoint by (done || lia).
    replace (8 * (i + 1)) with (8 * i + 8) in IH by lia.
    rewrite (IH (i + 1)) by
      (try lia; unfold in_range in *; replace (8 * (i + 1)) with (8 * i + 8) by lia;
       rewrite Z.pow_add_r by lia; nia).
    do 2 f_equal. replace (8 * (i + 1)) with (8 * i + 8) by lia.
    rewrite Z.pow_add_r by lia. lia.
Qed.

(** One step of the big-endian loop, on the bytes not yet read counted by [k]. *)
Lemma be_xor_step b r k :
  is_u8 b -> 0 <= k ->
  Z.lxor (b * 2 ^ k) (r * 2 ^ (k + 8)) = (r * 2 ^ 8 + b) * 2 ^ k.
Proof.
  intros. replace (r * 2 ^ (k + 8)) with (r * 2 ^ 8 * 2 ^ k) by (rewrite Z.pow_add_r by lia; lia).
  rewrite <- (Z.shiftl_mul_pow2 b k), <- (Z.shiftl_mul_pow2 (r * 2 ^ 8) k) by lia.
  rewrite <- Z.shiftl_lxor, lxor_disjoint, Z.shiftl_mul_pow2 by (done || lia). lia.
Qed.

Lemma be_ReadUintN_loop bs len i r rest :
  is_bytes bs -> 0 <= i -> len = i + Z.of_nat (length bs) -> len <= 8 -> 0 <= r ->
  bigEndian.ReadUintN_loop (length bs) len i (r * 2 ^ (8 * Z.of_nat (length bs))) (bs ++ rest)
  = Ret (r * 2 ^ (8 * Z.of_nat (length bs)) + le_val (reverse bs), rest).
Proof.
  intros Hbs. revert i r.
  induction Hbs as [|b bs Hb _ IH]; intros i r Hi Hlen Hlen8 Hr.
  - cbn. unfold mret, parser_ret. do 2 f_equal. lia.
  - cbn [length bigEndian.ReadUintN_loop app le_val] in *.
    unfold mbind, parser_bind, ReadByte at 1.
    set (k := 8 * Z.of_nat (length bs)).
    assert (Hsh : u8 (u8 (u8 (len - 1) - i) * 8) = k)
      by (unfold k; usmall; lia).
    rewrite Hsh, shl_byte, Z.lxor_comm by (done || lia).
    replace (8 * Z.of_nat (S (length bs))) with (k + 8) by lia.
    rewrite (be_xor_step b r k), (IH (i + 1)) by (try done; unfold in_range in *; lia).
    do 2 f_equal. rewrite reverse_cons, le_val_snoc, length_reverse. fold k.
    rewrite (Z.pow_add_r 2 k 8) by lia. lia.
Qed.

Lemma le_ReadUintN n v rest :
  (n <= 8)%nat -> in_range (8 * Z.of_nat n) v ->
  littleEndian.ReadUintN (Z.of_nat n) (le_bytes n v ++ rest) = Ret (v, rest).
Proof.
  intros Hn Hv. unfold littleEndian.ReadUintN. rewrite Nat2Z.id.
  rewrite <- (length_le_bytes n v) at 1.
  rewrite le_ReadUintN_loop by
    (auto using le_bytes_is_bytes; rewrite ?length_le_bytes; unfold in_range; lia).
  rewrite le_val_small by done. do 2 f_equal. lia.
Qed.

Lemma be_ReadUintN n v rest :
  (n <= 8)%nat -> in_range (8 * Z.of_nat n) v ->
  bigEndian.ReadUintN (Z.of_nat n) (be_bytes n v ++ rest) = Ret (v, rest).
Proof.
  intros Hn Hv. unfold bigEndian.ReadUintN. rewrite Nat2Z.id.
  assert (Hl : length (be_bytes n v) = n)
    by (unfold be_bytes; by rewrite length_reverse, length_le_bytes).
  rewrite <- Hl at 1. change 0 with (0 * 2 ^ (8 * Z.of_nat (length (be_bytes n v)))) at 2.
  rewrite be_ReadUintN_loop; try lia.
  - unfold be_bytes at 2. rewrite reverse_involutive, le_val_small by done.
    do 2 f_equal.
  - unfold be_bytes, is_bytes. apply Forall_reverse, le_bytes_is_bytes.
Qed.

(** ** What the codecs rely on *)
Class ByteOrderLaws (bo : ByteOrder) (e : nat -> Z -> list Z) : Prop := {
  enc_length n v : length (e n v) = n;
  enc_is_bytes n v : is_bytes (e n v);
  enc_1 v : e 1%nat v = [u8 v];
  ReadUintN_enc n v rest : (n <= 8)%nat -> in_range (8 * Z.of_nat n) v ->
    ReadUintN bo (Z.of_nat n) (e n v ++ rest) = Ret (v, rest);
  ReadUint64_enc v rest : is_u64 v -> ReadUint64 bo (e 8%nat v ++ rest) = Ret (v, rest);
  ReadUint32_enc v rest : is_u32 v -> ReadUint32 bo (e 4%nat v ++ rest) = Ret (v, rest);
  ReadUint16_enc v rest : is_u16 v -> ReadUint16 bo (e 2%nat v ++ rest) = Ret (v, rest);
  WriteUint64_enc v : WriteUint64 bo v = write (e 8%nat v);
  WriteUint56_enc v : v < 2 ^ 56 -> WriteUint56 bo v = write (e 7%nat v);
  WriteUint48_enc v : v < 2 ^ 48 -> WriteUint48 bo v = write (e 6%nat v);
  WriteUint40_enc v : v < 2 ^ 40 -> WriteUint40 bo v = write (e 5%nat v);
  WriteUint32_enc v : WriteUint32 bo v = write (e 4%nat v);
  WriteUint24_enc v : v < 2 ^ 24 -> WriteUint24 bo v = write (e 3%nat v);
  WriteUint16_enc v : WriteUint16 bo v = write (e 2%nat v)
}.

(** Reading fixed-width integers byte by byte computes the positional value. *)
Lemma sum64_le_val b1 b2 b3 b4 b5 b6 b7 b8 :
  is_bytes [b1; b2; b3; b4; b5; b6; b7; b8] ->
  b1 +64 b2 <<64 8 +64 b3 <<64 16 +64 b4 <<64 24 +64 b5 <<64 32
  +64 b6 <<64 40 +64 b7 <<64 48 +64 b8 <<64 56 = le_val [b1; b2; b3; b4; b5; b6; b7; b8].
Proof.
  unfold is_bytes. rewrite !Forall_cons. unfold in_range. intros.
  destruct_and!. rewrite !shl_byte by (unfold in_range; lia). usmall.
  cbn [le_val]. lia.
Qed.

Lemma sum32_le_val b1 b2 b3 b4 :
  is_bytes [b1; b2; b3; b4] ->
  u32 (u32 (u32 (b1 + u32 (Z.shiftl b2 8)) + u32 (Z.shiftl b3 16)) + u32 (Z.shiftl b4 24))
  = le_val [b1; b2; b3; b4].
Proof.
  unfold is_bytes. rewrite !Forall_cons. unfold in_range. intros.
  destruct_and!. rewrite !Z.shiftl_mul_pow2 by lia. usmall. cbn [le_val]. lia.
Qed.

Lemma sum16_le_val b1 b2 :
  is_bytes [b1; b2] -> u16 (b1 + u16 (Z.shiftl b2 8)) = le_val [b1; b2].
Proof.
  unfold is_bytes. rewrite !Forall_cons. unfold in_range. intros.
  destruct_and!. rewrite !Z.shiftl_mul_pow2 by lia. usmall. cbn [le_val]. lia.
Qed.

Ltac solve_write :=
  intros; unfold be_bytes, write, reverse;
  repeat case_match; try lia;
  cbn [le_bytes rev_append]; rewrite ?Z.shiftr_shiftr by lia; reflexivity.

Ltac run_reads :=
  cbv [ReadUint64 ReadUint32 ReadUint16 LittleEndian littleEndian.ReadUint64
       littleEndian.ReadUint32 littleEndian.ReadUint16 BigEndian bigEndian.ReadUint64
       bigEndian.ReadUint32 bigEndian.ReadUint16 mbind parser_bind ReadByte mret
       parser_ret be_bytes le_bytes reverse rev_append app].

#[export] Instance LittleEndian_laws : ByteOrderLaws LittleEndian le_bytes.
Proof.
  split.
  - apply length_le_bytes.
  - apply le_bytes_is_bytes.
  - done.
  - apply le_ReadUintN.
  - intros v rest Hv. rewrite <- (le_val_small 8 v Hv) at 2.
    run_reads. by rewrite sum64_le_val by apply (le_bytes_is_bytes 8 v).
  - intros v rest Hv. rewrite <- (le_val_small 4 v Hv) at 2.
    run_reads. by rewrite sum32_le_val by apply (le_bytes_is_bytes 4 v).
  - intros v rest Hv. rewrite <- (le_val_small 2 v Hv) at 2.
    run_reads. by rewrite sum16_le_val by apply (le_bytes_is_bytes 2 v).
  - cbn [WriteUint64 LittleEndian]; unfold littleEndian.WriteUint64; solve_write.
  - cbn [WriteUint56 LittleEndian]; unfold littleEndian.WriteUint56; solve_write.
  - cbn [WriteUint48 LittleEndian]; unfold littleEndian.WriteUint48; solve_write.
  - cbn [WriteUint40 LittleEndian]; unfold littleEndian.WriteUint40; solve_write.
  - cbn [WriteUint32 LittleEndian]; unfold littleEndian.WriteUint32; solve_write.
  - cbn [WriteUint24 LittleEndian]; unfold littleEndian.WriteUint24; solve_write.
  - cbn [WriteUint16 LittleEndian]; unfold littleEndian.WriteUint16; solve_write.
Qed.

#[export] Instance BigEndian_laws : ByteOrderLaws BigEndian be_bytes.
Proof.
  split.
  - intros. unfold be_bytes. by rewrite length_reverse, length_le_bytes.
  - intros. unfold be_bytes, is_bytes. apply Forall_reverse, le_bytes_is_bytes.
  - done.
  - apply be_ReadUintN.
  - intros v rest Hv. rewrite <- (le_val_small 8 v Hv) at 2.
    run_reads. by rewrite sum64_le_val by apply (le_bytes_is_bytes 8 v).
  - intros v rest Hv. rewrite <- (le_val_small 4 v Hv) at 2.
    run_reads. by rewrite sum32_le_val by apply (le_bytes_is_bytes 4 v).
  - intros v rest Hv. rewrite <- (le_val_small 2 v Hv) at 2.
    run_reads. by rewrite sum16_le_val by apply (le_bytes_is_bytes 2 v).
  - cbn [WriteUint64 BigEndian]; unfold bigEndian.WriteUint64; solve_write.
  - cbn [WriteUint56 BigEndian]; unfold bigEndian.WriteUint56; solve_write.
  - cbn [WriteUint48 BigEndian]; unfold bigEndian.WriteUint48; solve_write.
  - cbn [WriteUint40 BigEndian]; unfold bigEndian.WriteUint40; solve_write.
  - cbn [WriteUint32 BigEndian]; unfold bigEndian.WriteUint32; solve_write.
  - cbn [WriteUint24 BigEndian]; unfold bigEndian.WriteUint24; solve_write.
  - cbn [WriteUint16 BigEndian]; unfold bigEndian.WriteUint16; solve_write.
Qed.

#[export] Instance GetByteOrder_laws v : ByteOrderLaws (GetByteOrder v) (enc v).
Proof. unfold GetByteOrder, enc. destruct (v <? Version39); apply _. Qed.

(** ** The unsigned 16-bit float *)
Definition uFloat16MantissaBits : Z := 11.
Definition uFloat16MantissaEffectiveBits : Z := 12.
Definition uFloat16MaxExponent : Z := 30.
Definition uFloat16MaxValue : Z :=
  Z.shiftl (Z.shiftl 1 uFloat16MantissaEffectiveBits - 1) uFloat16MaxExponent.

(** The value of a wire word: the part of [readUfloat16] after [ReadUint16]. *)
Definition ufloat16_value (val : Z) : Z :=
  let res := val in
  if res <? Z.shiftl 1 uFloat16MantissaEffectiveBits then res
  else
    let exponent := val ≫ uFloat16MantissaBits in
    let exponent := u16 (exponent - 1) in
    let res := res -64 (exponent <<64 uFloat16MantissaBits) in
    res <<64 exponent.

Definition readUfloat16 (bo : ByteOrder) : Parser Z :=
  val ← ReadUint16 bo; mret (ufloat16_value val).

(** [for offset := uint16(16); offset > 0; offset /= 2]: with fuel 6 the loop
    always reaches [offset = 0]. *)
Fixpoint ufloat16_shift (fuel : nat) (offset exponent value : Z) : Z * Z :=
  match fuel with
  | O => (exponent, value)
  | S fuel' =>
      if 0 <? offset then
        if Z.shiftl 1 (uFloat16MantissaBits + offset) <=? value
        then ufloat16_shift fuel' (offset `div` 2) (u16 (exponent + offset)) (value ≫ offset)
        else ufloat16_shift fuel' (offset `div` 2) exponent value
      else (exponent, value)
  end.

(** The wire word of a value: the part of [writeUfloat16] before [WriteUint16]. *)
Definition ufloat16_word (value : Z) : Z :=
  if value <? Z.shiftl 1 uFloat16MantissaEffectiveBits then u16 value
  else if uFloat16MaxValue <=? value then 2 ^ 16 - 1
  else
    let '(exponent, value) := ufloat16_shift 6 16 0 value in
    u16 (u16 value + u16 (Z.shiftl exponent uFloat16MantissaBits)).

Definition writeUfloat16 (bo : ByteOrder) (value : Z) : Writer unit :=
  WriteUint16 bo (ufloat16_word value).

Definition ReadUfloat16 := readUfloat16.
Definition WriteUfloat16 := writeUfloat16.

(** One halving step keeps [value = v >> exponent] and brings [value] from
    below [2^(11 + 2 offset)] to below [2^(11 + offset)]. *)
Definition shift_inv (v offset exponent value : Z) : Prop :=
  0 <= exponent /\ value = v ≫ exponent /\ 2 ^ 11 <= value < 2 ^ (11 + 2 * offset).

Lemma ufloat16_shift_step v o o' e value fuel :
  o `div` 2 = o' ->
  o = 16 \/ o = 8 \/ o = 4 \/ o = 2 \/ o = 1 ->
  e < 2 ^ 15 -> shift_inv v o e value ->
  exists e' value', e <= e' <= e + o /\
    2 ^ 11 <= value' < 2 ^ (11 + o) /\ value' = v ≫ e' /\
    ufloat16_shift (S fuel) o e value = ufloat16_shift fuel o' e' value'.
Proof.
  intros <- Ho He (He0 & -> & Hlo & Hhi). cbn [ufloat16_shift].
  destruct (Z.ltb_spec 0 o); [|lia].
  rewrite Z.shiftl_1_l. unfold uFloat16MantissaBits.
  destruct (Z.leb_spec (2 ^ (11 + o)) (v ≫ e)) as [Hge|Hlt].
  - exists (e + o), ((v ≫ e) ≫ o). rewrite (uN_small 16 (e + o)) by (unfold in_range; lia).
    rewrite Z.shiftr_shiftr by lia. repeat split; try lia.
    + rewrite <- Z.shiftr_shiftr by lia. rewrite (Z.shiftr_div_pow2 (v ≫ e)) by lia.
      apply Z.div_le_lower_bound; [lia|]. rewrite <- Z.pow_add_r by lia.
      by replace (o + 11) with (11 + o) by lia.
    + rewrite <- Z.shiftr_shiftr by lia. rewrite (Z.shiftr_div_pow2 (v ≫ e)) by lia.
      apply Z.div_lt_upper_bound; [lia|]. rewrite <- Z.pow_add_r by lia.
      by replace (o + (11 + o)) with (11 + 2 * o) by lia.
  - exists e, (v ≫ e). repeat split; lia.
Qed.

Lemma ufloat16_shift_spec v :
  2 ^ 12 <= v < 2 ^ 42 ->
  exists e, 1 <= e <= 30 /\ ufloat16_shift 6 16 0 v = (e, v ≫ e) /\
    2 ^ 11 <= v ≫ e < 2 ^ 12.
Proof.
  intros Hv.
  destruct (ufloat16_shift_step v 16 8 0 v 5) as (e1 & v1 & ? & ? & ? & ->);
    [done|lia..|by repeat split; try lia|].
  destruct (ufloat16_shift_step v 8 4 e1 v1 4) as (e2 & v2 & ? & ? & ? & ->);
    [done|lia..|by repeat split; lia|].
  destruct (ufloat16_shift_step v 4 2 e2 v2 3) as (e3 & v3 & ? & ? & ? & ->);
    [done|lia..|by repeat split; lia|].
  destruct (ufloat16_shift_step v 2 1 e3 v3 2) as (e4 & v4 & ? & ? & ? & ->);
    [done|lia..|by repeat split; lia|].
  destruct (ufloat16_shift_step v 1 0 e4 v4 1) as (e5 & v5 & ? & ? & Hv5 & ->);
    [done|lia..|by repeat split; lia|].
  exists e5. cbn. rewrite Hv5. rewrite Z.shiftr_div_pow2 in Hv5 by lia.
  assert (He5 : 2 ^ 11 <= v `div` 2 ^ e5 < 2 ^ 12) by (cbn in *; lia).
  rewrite Z.shiftr_div_pow2 by lia. split; [|done].
  assert (2 ^ 11 * 2 ^ e5 <= v) by (pose proof (Z.mul_div_le v (2 ^ e5)); nia).
  split.
  - destruct (Z.eq_dec e5 0) as [->|]; [|lia]. rewrite Z.div_1_r in He5. lia.
  - destruct (Z.le_gt_cases e5 30); [done|].
    assert (2 ^ 31 <= 2 ^ e5) by (apply Z.pow_le_mono_r; lia). lia.
Qed.

(** Words with a positive exponent decode to mantissa times power of two. *)
Lemma ufloat16_value_normal m e :
  2 ^ 11 <= m < 2 ^ 12 -> 1 <= e <= 30 ->
  ufloat16_value (m + e * 2 ^ 11) = m * 2 ^ e.
Proof.
  intros Hm He. unfold ufloat16_value.
  change (Z.shiftl 1 uFloat16MantissaEffectiveBits) with (2 ^ 12).
  destruct (Z.ltb_spec (m + e * 2 ^ 11) (2 ^ 12)); [lia|].
  assert (Hx : (m + e * 2 ^ 11) ≫ uFloat16MantissaBits = e + 1).
  { unfold uFloat16MantissaBits. rewrite Z.shiftr_div_pow2 by lia.
    rewrite Z.div_add by lia. replace (m `div` 2 ^ 11) with 1; [lia|].
    apply (Z.div_unique m (2 ^ 11) 1 (m - 2 ^ 11)); lia. }
  rewrite Hx. replace (e + 1 - 1) with e by lia. rewrite (uN_small 16 e) by (unfold in_range; lia).
  unfold uFloat16MantissaBits. rewrite !Z.shiftl_mul_pow2 by lia.
  rewrite (uN_small 64 (e * 2 ^ 11)) by (unfold in_range; lia).
  replace (m + e * 2 ^ 11 - e * 2 ^ 11) with m by lia.
  rewrite (uN_small 64 m) by (unfold in_range; lia). apply uN_small. unfold in_range.
  assert (2 ^ e <= 2 ^ 30) by (apply Z.pow_le_mono_r; lia). nia.
Qed.

(** What a receiver reads for a written value. *)
Definition ufloat16_round (v : Z) : Z := ufloat16_value (ufloat16_word v).

Lemma ufloat16_word_range v : 0 <= v -> is_u16 (ufloat16_word v).
Proof.
  intros. unfold ufloat16_word. repeat case_match; try apply u16_range.
  unfold in_range; lia.
Qed.

Lemma ufloat16_word_normal v :
  2 ^ 12 <= v < uFloat16MaxValue ->
  exists e, 1 <= e <= 30 /\ 2 ^ 11 <= v ≫ e < 2 ^ 12 /\ ufloat16_word v = v ≫ e + e * 2 ^ 11.
Proof.
  intros Hv. change uFloat16MaxValue with (4095 * 2 ^ 30) in Hv.
  destruct (ufloat16_shift_spec v) as (e & He & Hs & Hm); [lia|].
  exists e. repeat split; try lia. unfold ufloat16_word.
  change (Z.shiftl 1 uFloat16MantissaEffectiveBits) with (2 ^ 12).
  change uFloat16MaxValue with (4095 * 2 ^ 30).
  destruct (Z.ltb_spec v (2 ^ 12)); [lia|].
  destruct (Z.leb_spec (4095 * 2 ^ 30) v); [lia|].
  rewrite Hs. unfold uFloat16MantissaBits. rewrite Z.shiftl_mul_pow2 by lia. usmall. done.
Qed.

(** A value written as a 16-bit float and read back, in the byte order of any
    version, is exact below 4096, clamps to the largest float from
    [uFloat16MaxValue] on, and in between is rounded down by less than one part
    in 2^11; the bytes that follow are left unread. *)
Theorem ufloat16_roundtrip version v rest :
  is_u64 v ->
  exists bs r,
    WriteUfloat16 (GetByteOrder version) v = (bs, Ret tt) /\ length bs = 2%nat /\
    ReadUfloat16 (GetByteOrder version) (bs ++ rest) = Ret (r, rest) /\
    (v < 2 ^ 12 -> r = v) /\
    (uFloat16MaxValue <= v -> r = uFloat16MaxValue) /\
    (2 ^ 12 <= v < uFloat16MaxValue -> r <= v < r + r `div` 2 ^ 11).
Proof.
  intros Hv. exists (enc version 2 (ufloat16_word v)), (ufloat16_round v).
  unfold WriteUfloat16, writeUfloat16, ReadUfloat16, readUfloat16.
  rewrite WriteUint16_enc, enc_length. unfold mbind, parser_bind.
  rewrite ReadUint16_enc by (apply ufloat16_word_range; unfold in_range in Hv; lia).
  repeat split.
  - intros Hlt. unfold ufloat16_round, ufloat16_word.
    change (Z.shiftl 1 uFloat16MantissaEffectiveBits) with (2 ^ 12).
    destruct (Z.ltb_spec v (2 ^ 12)); [|lia]. usmall.
    unfold ufloat16_value.
    change (Z.shiftl 1 uFloat16MantissaEffectiveBits) with (2 ^ 12).
    by destruct (Z.ltb_spec v (2 ^ 12)); [|lia].
  - intros Hge. unfold ufloat16_round, ufloat16_word.
    change uFloat16MaxValue with (4095 * 2 ^ 30) in *.
    destruct (Z.ltb_spec v (Z.shiftl 1 uFloat16MantissaEffectiveBits)) as [Hlt|_].
    + change (Z.shiftl 1 uFloat16MantissaEffectiveBits) with (2 ^ 12) in Hlt. lia.
    + by destruct (Z.leb_spec (4095 * 2 ^ 30) v); [|lia].
  - unfold ufloat16_round. intros.
    destruct (ufloat16_word_normal v) as (e & He & Hm & ->); [done|].
    rewrite ufloat16_value_normal by done. rewrite Z.shiftr_div_pow2 by lia.
    pose proof (Z.mul_div_le v (2 ^ e)). lia.
  - unfold ufloat16_round. intros.
    destruct (ufloat16_word_normal v) as (e & He & Hm & ->); [done|].
    rewrite ufloat16_value_normal, Z.shiftr_div_pow2 in * by done || lia.
    assert (Hp : 0 < 2 ^ e) by lia.
    assert (Hq : 2 ^ e <= (v `div` 2 ^ e * 2 ^ e) `div` 2 ^ 11)
      by (apply Z.div_le_lower_bound; [lia|]; nia).
    pose proof (Z.mod_pos_bound v (2 ^ e)). pose proof (Z.div_mod v (2 ^ e)). lia.
Qed.

Lemma ufloat16_roundtrip_witness :
  exists bs r,
    WriteUfloat16 (GetByteOrder 39) 1000003 = (bs, Ret tt) /\ length bs = 2%nat /\
    ReadUfloat16 (GetByteOrder 39) (bs ++ [7]) = Ret (r, [7]) /\
    (1000003 < 2 ^ 12 -> r = 1000003) /\
    (uFloat16MaxValue <= 1000003 -> r = uFloat16MaxValue) /\
    (2 ^ 12 <= 1000003 < uFloat16MaxValue -> r <= 1000003 < r + r `div` 2 ^ 11).
Proof. apply (ufloat16_roundtrip 39 1000003 [7]). unfold in_range. lia. Defined.

(** A word above the fast path is a mantissa with its hidden bit and an exponent. *)
Lemma ufloat16_word_split w :
  is_u16 w -> 2 ^ 12 <= w ->
  exists m e, 1 <= e <= 30 /\ 2 ^ 11 <= m < 2 ^ 12 /\ w = m + e * 2 ^ 11.
Proof.
  unfold in_range. intros Hw Hge.
  exists (w - (w `div` 2 ^ 11 - 1) * 2 ^ 11), (w `div` 2 ^ 11 - 1).
  assert (2 <= w `div` 2 ^ 11) by (apply Z.div_le_lower_bound; lia).
  assert (w `div` 2 ^ 11 < 32) by (apply Z.div_lt_upper_bound; lia).
  pose proof (Z.div_mod w (2 ^ 11)). pose proof (Z.mod_pos_bound w (2 ^ 11)). lia.
Qed.

(** A power-of-two scaling of a normalised mantissa determines the exponent. *)
Lemma mantissa_exponent_unique m e e' :
  2 ^ 11 <= m < 2 ^ 12 -> 0 <= e -> 0 <= e' ->
  2 ^ 11 <= (m * 2 ^ e) `div` 2 ^ e' < 2 ^ 12 -> e' = e.
Proof.
  intros Hm He He' Hq.
  pose proof (Z.div_mod (m * 2 ^ e) (2 ^ e')). pose proof (Z.mod_pos_bound (m * 2 ^ e) (2 ^ e')).
  destruct (Z.lt_trichotomy e' e) as [Hlt|[->|Hgt]]; [|done|].
  - assert (2 ^ (e' + 1) <= 2 ^ e) by (apply Z.pow_le_mono_r; lia).
    rewrite Z.pow_add_r in * by lia. nia.
  - assert (2 ^ (e + 1) <= 2 ^ e') by (apply Z.pow_le_mono_r; lia).
    rewrite Z.pow_add_r in * by lia. nia.
Qed.

(** Every 16-bit word is the encoding of the value it decodes to, so the float
    format has no redundant words. *)
Theorem ufloat16_canonical w :
  is_u16 w -> ufloat16_word (ufloat16_value w) = w.
Proof.
  intros Hw. destruct (Z.lt_ge_cases w (2 ^ 12)) as [Hlt|Hge].
  - unfold ufloat16_value. change (Z.shiftl 1 uFloat16MantissaEffectiveBits) with (2 ^ 12).
    destruct (Z.ltb_spec w (2 ^ 12)); [|lia]. unfold ufloat16_word.
    change (Z.shiftl 1 uFloat16MantissaEffectiveBits) with (2 ^ 12).
    destruct (Z.ltb_spec w (2 ^ 12)); [|lia]. by usmall.
  - destruct (ufloat16_word_split w Hw Hge) as (m & e & He & Hm & ->).
    rewrite ufloat16_value_normal by done.
    destruct (Z.eq_dec (m * 2 ^ e) uFloat16MaxValue) as [Heq|Hne].
    + rewrite Heq. change uFloat16MaxValue with (4095 * 2 ^ 30) in Heq.
      change (ufloat16_word uFloat16MaxValue) with 65535.
      destruct (Z.eq_dec e 30) as [->|]; [lia|].
      assert (2 ^ e <= 2 ^ 29) by (apply Z.pow_le_mono_r; lia). nia.
    + assert (Hup : 2 ^ 11 * 2 ^ e <= m * 2 ^ e < 2 ^ 12 * 2 ^ e) by nia.
      assert (2 ^ e <= 2 ^ 30) by (apply Z.pow_le_mono_r; lia).
      assert (2 ^ 1 <= 2 ^ e) by (apply Z.pow_le_mono_r; lia).
      destruct (ufloat16_word_normal (m * 2 ^ e)) as (e' & He' & Hm' & ->).
      { change uFloat16MaxValue with (4095 * 2 ^ 30) in *. nia. }
      rewrite Z.shiftr_div_pow2 in * by lia.
      rewrite (mantissa_exponent_unique m e e'), Z.div_mul by (done || lia). lia.
Qed.

Lemma ufloat16_canonical_witness : ufloat16_word (ufloat16_value 44000) = 44000.
Proof. apply (ufloat16_canonical 44000). unfold in_range. lia. Defined.

(** ** The laws at the byte order of a version, in the form the codecs use *)
Section AtVersion.
Context (version : Z).

Lemma readN n len v rest :
  len = Z.of_nat n -> (n <= 8)%nat -> in_range (8 * len) v ->
  ReadUintN (GetByteOrder version) len (enc version n v ++ rest) = Ret (v, rest).
Proof. intros ->. apply ReadUintN_enc. Qed.

Lemma read64 v rest :
  is_u64 v -> ReadUint64 (GetByteOrder version) (enc version 8 v ++ rest) = Ret (v, rest).
Proof. apply ReadUint64_enc. Qed.

Lemma read32 v rest :
  is_u32 v -> ReadUint32 (GetByteOrder version) (enc version 4 v ++ rest) = Ret (v, rest).
Proof. apply ReadUint32_enc. Qed.

Lemma read16 v rest :
  is_u16 v -> ReadUint16 (GetByteOrder version) (enc version 2 v ++ rest) = Ret (v, rest).
Proof. apply ReadUint16_enc. Qed.

Lemma read_float v rest :
  0 <= v ->
  ReadUfloat16 (GetByteOrder version) (enc version 2 (ufloat16_word v) ++ rest)
  = Ret (ufloat16_round v, rest).
Proof.
  intros. unfold ReadUfloat16, readUfloat16.
  by rewrite (parser_bind_ret _ _ _ _ _ (read16 _ _ (ufloat16_word_range v H))).
Qed.
End AtVersion.

(** ** Reading arbitrary bytes *)
Lemma psafe_le_loop n i res :
  0 <= i -> i + Z.of_nat n <= 8 -> in_range (8 * i) res ->
  psafe (littleEndian.ReadUintN_loop n i res) (in_range (8 * (i + Z.of_nat n))).
Proof.
  revert i res. induction n as [|n IH]; intros i res Hi Hn Hres.
  - apply psafe_ret. by replace (i + Z.of_nat 0) with i by lia.
  - cbn [littleEndian.ReadUintN_loop]. eapply psafe_bind; [apply psafe_ReadByte|].
    intros b Hb. assert (Hsh : u8 (i * 8) = 8 * i) by (usmall; lia).
    rewrite Hsh, shl_byte, lxor_disjoint by (done || lia).
    replace (8 * (i + Z.of_nat (S n))) with (8 * (i + 1 + Z.of_nat n)) by lia.
    apply IH; [lia..|]. unfold in_range in *. replace (8 * (i + 1)) with (8 * i + 8) by lia.
    rewrite Z.pow_add_r by lia. nia.
Qed.

Lemma psafe_be_loop n len i r :
  0 <= i -> len = i + Z.of_nat n -> len <= 8 -> in_range (8 * i) r ->
  psafe (bigEndian.ReadUintN_loop n len i (r * 2 ^ (8 * Z.of_nat n))) (in_range (8 * len)).
Proof.
  revert i r. induction n as [|n IH]; intros i r Hi Hlen Hlen8 Hr.
  - apply psafe_ret. replace len with i by lia. unfold in_range in *. lia.
  - cbn [bigEndian.ReadUintN_loop]. eapply psafe_bind; [apply psafe_ReadByte|].
    intros b Hb. set (k := 8 * Z.of_nat n).
    assert (Hsh : u8 (u8 (u8 (len - 1) - i) * 8) = k) by (unfold k; usmall; lia).
    rewrite Hsh, shl_byte, Z.lxor_comm by (done || lia).
    replace (8 * Z.of_nat (S n)) with (k + 8) by lia.
    rewrite (be_xor_step b r k) by (done || unfold in_range in *; lia).
    apply IH; [lia..|]. unfold in_range in *. replace (8 * (i + 1)) with (8 * i + 8) by lia.
    rewrite Z.pow_add_r by lia. nia.
Qed.

Lemma psafe_ReadUintN version n :
  0 <= n <= 8 -> psafe (ReadUintN (GetByteOrder version) n) (in_range (8 * n)).
Proof.
  intros Hn. unfold GetByteOrder. destruct (version <? Version39); cbn [ReadUintN LittleEndian BigEndian].
  - unfold littleEndian.ReadUintN.
    eapply psafe_weaken; [apply psafe_le_loop; unfold in_range; lia|].
    intros a. by replace (0 + Z.of_nat (Z.to_nat n)) with n by lia.
  - unfold bigEndian.ReadUintN.
    change 0 with (0 * 2 ^ (8 * Z.of_nat (Z.to_nat n))) at 2.
    apply psafe_be_loop; unfold in_range; lia.
Qed.

Lemma psafe_ReadUint16 version : psafe (ReadUint16 (GetByteOrder version)) is_u16.
Proof.
  unfold GetByteOrder. destruct (version <? Version39); cbn [ReadUint16 LittleEndian BigEndian].
  all: unfold littleEndian.ReadUint16, bigEndian.ReadUint16.
  all: do 2 (eapply psafe_bind; [apply psafe_ReadByte|]; intros ? ?).
  all: apply psafe_ret, u16_range.
Qed.

Lemma psafe_ReadUint32 version : psafe (ReadUint32 (GetByteOrder version)) is_u32.
Proof.
  unfold GetByteOrder. destruct (version <? Version39); cbn [ReadUint32 LittleEndian BigEndian].
  all: unfold littleEndian.ReadUint32, bigEndian.ReadUint32.
  all: do 4 (eapply psafe_bind; [apply psafe_ReadByte|]; intros ? ?).
  all: apply psafe_ret, u32_range.
Qed.

Lemma psafe_ReadUint64 version : psafe (ReadUint64 (GetByteOrder version)) is_u64.
Proof.
  unfold GetByteOrder. destruct (version <? Version39); cbn [ReadUint64 LittleEndian BigEndian].
  all: unfold littleEndian.ReadUint64, bigEndian.ReadUint64.
  all: do 8 (eapply psafe_bind; [apply psafe_ReadByte|]; intros ? ?).
  all: apply psafe_ret, u64_range.
Qed.

Lemma ufloat16_value_range w : is_u16 w -> 0 <= ufloat16_value w <= uFloat16MaxValue.
Proof.
  intros Hw.
  change uFloat16MaxValue with (4095 * 2 ^ 30).
  destruct (Z.lt_ge_cases w (2 ^ 12)) as [Hlt|Hge].
  - unfold ufloat16_value. change (Z.shiftl 1 uFloat16MantissaEffectiveBits) with (2 ^ 12).
    unfold in_range in Hw. destruct (Z.ltb_spec w (2 ^ 12)); lia.
  - destruct (ufloat16_word_split w Hw Hge) as (m & e & He & Hm & ->).
    rewrite ufloat16_value_normal by done.
    assert (2 ^ e <= 2 ^ 30) by (apply Z.pow_le_mono_r; lia). nia.
Qed.

Lemma psafe_ReadUfloat16 version :
  psafe (ReadUfloat16 (GetByteOrder version)) (fun v => 0 <= v <= uFloat16MaxValue).
Proof.
  eapply psafe_bind; [apply psafe_ReadUint16|].
  intros w Hw. by apply psafe_ret, ufloat16_value_range.
Qed.

#[export] Hint Resolve psafe_ReadUint16 psafe_ReadUint32 psafe_ReadUint64
  psafe_ReadUfloat16 : psafe.
