(* ===== verification/PacketNumber.v ===== *)
(** * Packet numbers and version numbers

    Models [internal/protocol/packet_number.go] and [internal/protocol/version.go]
    together with the constants of [internal/protocol/protocol.go] they use. *)
From S2P Require Import Prelude.

(** ** Lengths of packet numbers *)
Definition PacketNumberLenInvalid : Z := 0.
Definition PacketNumberLen1 : Z := 1.
Definition PacketNumberLen2 : Z := 2.
Definition PacketNumberLen4 : Z := 4.
Definition PacketNumberLen6 : Z := 6.

Definition valid_len (l : Z) : Prop :=
  l = PacketNumberLen1 \/ l = PacketNumberLen2 \/ l = PacketNumberLen4 \/ l = PacketNumberLen6.

(** ** [InferPacketNumber] *)
Definition delta (a b : Z) : Z := if a <? b then b -64 a else a -64 b.

Definition closestTo (target a b : Z) : Z :=
  if delta target a <? delta target b then a else b.

Definition InferPacketNumber (packetNumberLength lastPacketNumber wirePacketNumber : Z) : Z :=
  let epochDelta := 1 <<64 u8 (packetNumberLength * 8) in
  let epoch := Z.land lastPacketNumber (u64 (Z.lnot (epochDelta -64 1))) in
  let prevEpochBegin := epoch -64 epochDelta in
  let nextEpochBegin := epoch +64 epochDelta in
  closestTo (lastPacketNumber +64 1)
    (epoch +64 wirePacketNumber)
    (closestTo (lastPacketNumber +64 1)
       (prevEpochBegin +64 wirePacketNumber) (nextEpochBegin +64 wirePacketNumber)).

Definition GetPacketNumberLengthForPublicHeader (packetNumber leastUnacked : Z) : Z :=
  let diff := packetNumber -64 leastUnacked in
  if diff <? Z.shiftl 2 (PacketNumberLen2 * 8 - 2) then PacketNumberLen2
  else if diff <? Z.shiftl 2 (PacketNumberLen4 * 8 - 2) then PacketNumberLen4
  else PacketNumberLen6.

Definition GetPacketNumberLength (packetNumber : Z) : Z :=
  if packetNumber <? Z.shiftl 1 (PacketNumberLen1 * 8) then PacketNumberLen1
  else if packetNumber <? Z.shiftl 1 (PacketNumberLen2 * 8) then PacketNumberLen2
  else if packetNumber <? Z.shiftl 1 (PacketNumberLen4 * 8) then PacketNumberLen4
  else PacketNumberLen6.

Lemma GetPacketNumberLength_valid p : valid_len (GetPacketNumberLength p).
Proof. unfold GetPacketNumberLength, valid_len. repeat case_match; tauto. Qed.

(** The chosen length is enough for every 48-bit packet number. *)
Lemma GetPacketNumberLength_fits p :
  in_range 48 p -> in_range (8 * GetPacketNumberLength p) p.
Proof.
  unfold GetPacketNumberLength, in_range, PacketNumberLen1, PacketNumberLen2,
    PacketNumberLen4, PacketNumberLen6.
  rewrite !Z.shiftl_1_l. intros ?. repeat case_match; lia.
Qed.

(** ** Correctness of the inference *)

(** Masking with the complement of [D - 1] rounds down to a multiple of [D = 2^k]. *)
Lemma mask_epoch p k :
  0 <= k < 64 -> is_u64 p ->
  Z.land p (u64 (Z.lnot (2 ^ k - 1))) = p - p `mod` 2 ^ k.
Proof.
  intros Hk Hp.
  assert (Hd : p - p `mod` 2 ^ k = Z.ldiff p (Z.ones k)).
  { rewrite <- Z.land_ones by lia.
    rewrite Z.sub_nocarry_ldiff.
    - apply Z.bits_inj'. intros n Hn. rewrite !Z.ldiff_spec, Z.land_spec.
      destruct (Z.testbit p n), (Z.testbit (Z.ones k) n); done.
    - apply Z.bits_inj'. intros n Hn. rewrite Z.ldiff_spec, Z.land_spec, Z.bits_0.
      destruct (Z.testbit p n), (Z.testbit (Z.ones k) n); done. }
  rewrite Hd. apply Z.bits_inj'. intros n Hn.
  rewrite Z.land_spec, Z.ldiff_spec. unfold uN.
  replace (2 ^ k - 1) with (Z.ones k) by (rewrite Z.ones_equiv; lia).
  destruct (Z.lt_ge_cases n 64).
  - rewrite Z.mod_pow2_bits_low, Z.lnot_spec by lia. done.
  - assert (Z.testbit p n = false) as ->.
    { rewrite <- (Z.mod_small p (2 ^ 64)) by done. apply Z.mod_pow2_bits_high. lia. }
    done.
Qed.

Lemma delta_abs a b : is_u64 a -> is_u64 b -> delta a b = Z.abs (a - b).
Proof. unfold delta, in_range. intros. case_match; usmall; lia. Qed.

Lemma closestTo_l t a b :
  is_u64 t -> is_u64 a -> is_u64 b -> Z.abs (t - a) < Z.abs (t - b) -> closestTo t a b = a.
Proof.
  intros. unfold closestTo. rewrite !delta_abs by done. by case_match; [|lia].
Qed.

Lemma closestTo_r t a b :
  is_u64 t -> is_u64 a -> is_u64 b -> Z.abs (t - b) < Z.abs (t - a) -> closestTo t a b = b.
Proof.
  intros. unfold closestTo. rewrite !delta_abs by done. by case_match; [lia|].
Qed.

(** [prev] or [next] is a 64-bit number away from the target when the epoch is 0. *)
Lemma closestTo_cases t a b :
  is_u64 t -> is_u64 a -> is_u64 b ->
  (closestTo t a b = a /\ Z.abs (t - a) < Z.abs (t - b)) \/
  (closestTo t a b = b /\ Z.abs (t - b) <= Z.abs (t - a)).
Proof.
  intros. unfold closestTo. rewrite !delta_abs by done.
  destruct (Z.ltb_spec (Z.abs (t - a)) (Z.abs (t - b))); [left|right]; lia.
Qed.

Section Infer.
Context (len last pn : Z).
Context (Hlen : valid_len len) (Hlast : 0 <= last < 2 ^ 62) (Hpn : 0 <= pn).
Let D := 2 ^ (8 * len).
Context (Hclose : 2 * Z.abs (pn - (last + 1)) < D).

Lemma infer_D : 2 ^ 8 <= D <= 2 ^ 48.
Proof. unfold D. destruct Hlen as [-> | [-> | [-> | ->]]]; vm_compute; split; discriminate. Qed.

(** The packet number lies in the epoch of [last], the one before or the one after. *)
Lemma infer_epochs :
  exists q, last - last `mod` D = q * D /\ 0 <= q /\
    (pn = q * D + pn `mod` D \/ pn = (q - 1) * D + pn `mod` D \/
     pn = (q + 1) * D + pn `mod` D).
Proof.
  pose proof infer_D as HD.
  pose proof (Z.div_mod last D). pose proof (Z.mod_pos_bound last D).
  pose proof (Z.div_mod pn D). pose proof (Z.mod_pos_bound pn D).
  exists (last `div` D). repeat split; [lia|apply Z.div_pos; lia|].
  assert (pn `div` D = last `div` D \/ pn `div` D = last `div` D - 1 \/
          pn `div` D = last `div` D + 1) by nia.
  nia.
Qed.

Lemma infer_correct : InferPacketNumber len last (pn `mod` D) = pn.
Proof.
  pose proof infer_D as HD. destruct infer_epochs as (q & Hq & Hq0 & Hcase).
  pose proof (Z.mod_pos_bound pn D) as Hw. pose proof (Z.mod_pos_bound last D) as Hl.
  unfold InferPacketNumber.
  assert (He : 1 <<64 u8 (len * 8) = D).
  { unfold D. destruct Hlen as [-> | [-> | [-> | ->]]]; reflexivity. }
  rewrite He. rewrite (uN_small 64 (D - 1)) by (unfold in_range; lia).
  assert (Hep : Z.land last (u64 (Z.lnot (D - 1))) = q * D).
  { unfold D. rewrite mask_epoch; [fold D; lia| |unfold in_range; lia].
    destruct Hlen as [-> | [-> | [-> | ->]]]; vm_compute; split; (discriminate || reflexivity). }
  rewrite Hep. clear He Hep.
  set (w := pn `mod` D) in *. set (t := last + 1).
  assert (Ht : u64 t = t) by (unfold t; by usmall).
  assert (Hc : q * D +64 w = q * D + w) by (by usmall).
  assert (Hn : q * D +64 D +64 w = (q + 1) * D + w) by (usmall; lia).
  rewrite Ht, Hc, Hn.
  assert (Hp : q * D -64 D +64 w = (q - 1) * D + w \/
               (q = 0 /\ q * D -64 D +64 w = 2 ^ 64 - D + w)).
  { destruct (Z.eq_dec q 0) as [->|]; [right|left].
    - split; [done|]. unfold uN. rewrite Z.add_mod_idemp_l by lia.
      rewrite <- (Z.mod_add _ 1), Z.mod_small by lia. lia.
    - assert (1 * D <= q * D) by (apply Z.mul_le_mono_nonneg_r; lia). usmall. lia. }
  set (prev := q * D -64 D +64 w) in *.
  assert (Hpr : is_u64 prev) by apply u64_range.
  assert (Htr : is_u64 t) by (unfold in_range, t; lia).
  assert (Hcr : is_u64 (q * D + w)) by (unfold in_range; lia).
  assert (Hnr : is_u64 ((q + 1) * D + w)) by (unfold in_range; lia).
  destruct (closestTo_cases t prev ((q + 1) * D + w)) as [[-> ?]|[-> ?]]; try done;
  [destruct (closestTo_cases t (q * D + w) prev) as [[-> ?]|[-> ?]]
  |destruct (closestTo_cases t (q * D + w) ((q + 1) * D + w)) as [[-> ?]|[-> ?]]];
  try done; unfold t in *; lia.
Qed.
End Infer.

(** The header length leaves at least half of the number space on each side. *)
Lemma header_len_spec pn leastUnacked :
  0 <= leastUnacked <= pn -> pn < 2 ^ 64 -> pn - leastUnacked < 2 ^ 47 ->
  valid_len (GetPacketNumberLengthForPublicHeader pn leastUnacked) /\
  2 * (pn - leastUnacked) < 2 ^ (8 * GetPacketNumberLengthForPublicHeader pn leastUnacked).
Proof.
  intros. unfold GetPacketNumberLengthForPublicHeader, valid_len, PacketNumberLen1,
    PacketNumberLen2, PacketNumberLen4, PacketNumberLen6.
  rewrite !Z.shiftl_mul_pow2 by lia. usmall.
  repeat case_match; split; try tauto; lia.
Qed.

(** A packet number sent with the length [GetPacketNumberLengthForPublicHeader]
    chooses is recovered by [InferPacketNumber] from its low bytes, for every
    receiver whose largest received packet number is at least [leastUnacked - 1]
    and not so far above the packet that the half range is exceeded: no packet
    is delivered under a wrong number. *)
Theorem header_packet_number_recovered pn leastUnacked last :
  1 <= leastUnacked <= pn -> pn - leastUnacked < 2 ^ 47 ->
  leastUnacked - 1 <= last < 2 ^ 62 ->
  let len := GetPacketNumberLengthForPublicHeader pn leastUnacked in
  2 * (last + 1 - pn) < 2 ^ (8 * len) ->
  InferPacketNumber len last (pn `mod` 2 ^ (8 * len)) = pn.
Proof.
  intros Hlu Hdiff Hlast len Hahead.
  assert (pn < 2 ^ 64).
  { assert (pn <= last + 2 ^ 47) by lia. lia. }
  destruct (header_len_spec pn leastUnacked) as [Hv Hd]; [lia..|].
  fold len in Hv, Hd. apply infer_correct; try done; lia.
Qed.

Lemma header_packet_number_recovered_witness :
  InferPacketNumber (GetPacketNumberLengthForPublicHeader 66000 65000) 65500
    (66000 `mod` 2 ^ (8 * GetPacketNumberLengthForPublicHeader 66000 65000)) = 66000.
Proof.
  apply (header_packet_number_recovered 66000 65000 65500); vm_compute; by repeat split.
Defined.

(** [InferPacketNumber] returns the number that is congruent to the wire number
    and closest to the expected one: any packet number within half an epoch of
    [last + 1] is recovered, for each of the four lengths, also in the first
    epoch where the previous epoch would begin below zero. *)
Theorem infer_packet_number len last pn :
  valid_len len -> 0 <= last < 2 ^ 62 -> 0 <= pn ->
  2 * Z.abs (pn - (last + 1)) < 2 ^ (8 * len) ->
  InferPacketNumber len last (pn `mod` 2 ^ (8 * len)) = pn.
Proof. intros. by apply infer_correct. Qed.

Lemma infer_packet_number_witness : InferPacketNumber 1 300 (260 `mod` 2 ^ (8 * 1)) = 260.
Proof. apply (infer_packet_number 1 300 260); [by left | lia | lia | by vm_compute]. Defined.

(** ** Version numbers *)
Definition VersionUnsupported : Z := -1.
Definition VersionUnknown : Z := -2.
Definition VersionMP : Z := 512.
Definition VersionWhatever : Z := 0.

(** ['Q' + ((v/100%10)+'0')<<8 + ((v/10%10)+'0')<<16 + ((v%10)+'0')<<24] *)
Definition VersionNumberToTag (vn : Z) : Z :=
  let v := u32 vn in
  u32 (u32 (u32 (81 + u32 (Z.shiftl ((v `div` 100) `mod` 10 + 48) 8))
            + u32 (Z.shiftl ((v `div` 10) `mod` 10 + 48) 16))
       + u32 (Z.shiftl (v `mod` 10 + 48) 24)).

Definition VersionTagToNumber (v : Z) : Z :=
  u32 (u32 (u32 (u32 (Z.land (v ≫ 8) 255 - 48) * 100)
            + u32 (u32 (Z.land (v ≫ 16) 255 - 48) * 10))
       + u32 (Z.land (v ≫ 24) 255 - 48)).

Fixpoint IsSupportedVersion (supported : list Z) (v : Z) : bool :=
  match supported with
  | [] => false
  | t :: rest => if t =? v then true else IsSupportedVersion rest v
  end.

(** The two nested loops of [ChooseSupportedVersion]. *)
Fixpoint chooseInner (ourVer : Z) (theirs : list Z) : option Z :=
  match theirs with
  | [] => None
  | theirVer :: rest => if ourVer =? theirVer then Some ourVer else chooseInner ourVer rest
  end.

Fixpoint ChooseSupportedVersion (ours theirs : list Z) : Z :=
  match ours with
  | [] => VersionUnsupported
  | ourVer :: rest =>
      match chooseInner ourVer theirs with
      | Some v => v
      | None => ChooseSupportedVersion rest theirs
      end
  end.

Lemma version_tag_small vn :
  0 <= vn < 1000 -> VersionTagToNumber (VersionNumberToTag vn) = vn /\
                    is_u32 (VersionNumberToTag vn).
Proof.
  intros Hv.
  assert (Hall : forallb (fun n =>
    (VersionTagToNumber (VersionNumberToTag (Z.of_nat n)) =? Z.of_nat n) &&
    (0 <=? VersionNumberToTag (Z.of_nat n)) &&
    (VersionNumberToTag (Z.of_nat n) <? 2 ^ 32)) (seq 0 1000) = true) by (by vm_compute).
  rewrite forallb_forall in Hall.
  specialize (Hall (Z.to_nat vn)). rewrite in_seq in Hall. rewrite Z2Nat.id in Hall by lia.
  unfold in_range. lia.
Qed.

Lemma chooseInner_spec v theirs : chooseInner v theirs = if decide (v ∈ theirs) then Some v else None.
Proof.
  induction theirs as [|t ts IH]; [done|]. cbn [chooseInner].
  destruct (Z.eqb_spec v t) as [->|Hne].
  - rewrite decide_True by set_solver. done.
  - rewrite IH. destruct (decide (v ∈ ts)), (decide (v ∈ t :: ts)); set_solver.
Qed.

(** Version negotiation picks the first of our versions, in our order of
    preference, that the peer offers, and reports [VersionUnsupported] exactly
    when there is none. *)
Theorem ChooseSupportedVersion_first ours theirs :
  (exists pre v post, ours = pre ++ v :: post /\ v ∈ theirs /\
     (forall u, u ∈ pre -> u ∉ theirs) /\ ChooseSupportedVersion ours theirs = v) \/
  ((forall u, u ∈ ours -> u ∉ theirs) /\
   ChooseSupportedVersion ours theirs = VersionUnsupported).
Proof.
  induction ours as [|o ours IH]; [right; set_solver|].
  cbn [ChooseSupportedVersion]. rewrite chooseInner_spec. case_decide as Hd.
  - left. exists [], o, ours. set_solver.
  - destruct IH as [(pre & v & post & -> & Hv & Hpre & Hres) | [Hnone Hres]].
    + left. exists (o :: pre), v, post. repeat split; try done. set_solver.
    + right. split; [set_solver|done].
Qed.
