(* ===== verification/PacketNumberGenerator.v ===== *)
(** * The packet number generator

    Models [packet_number_generator.go].  The random bytes of [crypto/rand] are an argument of the
    calls that may draw them; [None] is a failed read. *)
From S2P Require Import Prelude.

Record packetNumberGenerator := mkGenerator {
  averagePeriod : Z;
  png_next : Z;
  nextToSkip : Z
}.

Definition newPacketNumberGenerator (averagePeriod : Z) : packetNumberGenerator :=
  mkGenerator averagePeriod 1 0.

Module Generator.
Definition Peek (p : packetNumberGenerator) : Z := png_next p.

Definition getRandomNumber (rand : option (Z * Z)) : option Z :=
  '(b0, b1) ← rand; Some (u16 (u16 (Z.shiftl b0 8) + b1)).

(** [math.MaxUint16 / 2] is the constant 32767; after an error the generator is unchanged. *)
Definition generateNewSkip (rand : option (Z * Z)) (p : packetNumberGenerator)
    : packetNumberGenerator :=
  match getRandomNumber rand with
  | None => p
  | Some num =>
      let skip := (num *64 (averagePeriod p -64 1)) `div` 32767 in
      mkGenerator (averagePeriod p) (png_next p) (png_next p +64 2 +64 skip)
  end.

Definition Pop (rand : option (Z * Z)) (p : packetNumberGenerator) : Z * packetNumberGenerator :=
  let next := png_next p in
  let p := mkGenerator (averagePeriod p) (png_next p +64 1) (nextToSkip p) in
  (next,
   if png_next p =? nextToSkip p
   then generateNewSkip rand (mkGenerator (averagePeriod p) (png_next p +64 1) (nextToSkip p))
   else p).

(** The numbers of successive calls. *)
Fixpoint popAll (rands : list (option (Z * Z))) (p : packetNumberGenerator) : list Z :=
  match rands with
  | [] => []
  | r :: rands' => let '(n, p') := Pop r p in n :: popAll rands' p'
  end.
End Generator.

(** ** Generators far from a wrap-around *)
Definition png_ok (p : packetNumberGenerator) : Prop :=
  1 <= averagePeriod p < 2 ^ 32 /\ 0 < png_next p < 2 ^ 62.

Definition is_rand (rand : option (Z * Z)) : Prop :=
  forall b0 b1, rand = Some (b0, b1) -> is_u8 b0 /\ is_u8 b1.

Lemma generateNewSkip_spec rand p :
  1 <= averagePeriod p < 2 ^ 32 -> 0 < png_next p < 2 ^ 63 -> is_rand rand ->
  png_next (Generator.generateNewSkip rand p) = png_next p /\
  averagePeriod (Generator.generateNewSkip rand p) = averagePeriod p /\
  (nextToSkip (Generator.generateNewSkip rand p) = nextToSkip p \/
   png_next p + 2 <= nextToSkip (Generator.generateNewSkip rand p)
     <= png_next p + 2 + 65535 * (averagePeriod p - 1) / 32767).
Proof.
  intros Ha Hn Hr. unfold Generator.generateNewSkip, Generator.getRandomNumber.
  destruct rand as [[b0 b1]|]; cbn [mbind option_bind]; [|auto].
  destruct (Hr b0 b1 eq_refl) as [H0 H1]. pose proof (u16_range (u16 (Z.shiftl b0 8) + b1)) as Hnum.
  set (num := u16 _) in *. unfold in_range in Hnum. cbn [png_next averagePeriod nextToSkip].
  split; [done|]. split; [done|]. right.
  assert (Hm : 0 <= num * (averagePeriod p - 1) <= 65535 * (averagePeriod p - 1)) by nia.
  rewrite (uN_small 64 (averagePeriod p - 1)) by (unfold in_range; lia).
  rewrite (uN_small 64 (num * _)) by (unfold in_range; lia).
  assert (Hd : 0 <= num * (averagePeriod p - 1) / 32767 <= 65535 * (averagePeriod p - 1) / 32767).
  { split; [apply Z.div_pos; lia|]. apply Z.div_le_mono; lia. }
  assert (65535 * (averagePeriod p - 1) / 32767 <= 65535 * (averagePeriod p - 1))
    by (apply Z.div_le_upper_bound; lia).
  usmall. lia.
Qed.

(** One call: the number returned is the next one, and the number behind it is skipped only when it
    is [nextToSkip]; a new [nextToSkip] leaves a gap to the number skipped now. *)
Lemma Pop_spec rand p :
  png_ok p -> is_rand rand ->
  let '(n, p') := Generator.Pop rand p in
  n = png_next p /\ averagePeriod p' = averagePeriod p /\
  ((nextToSkip p <> n + 1 /\ png_next p' = n + 1 /\ nextToSkip p' = nextToSkip p) \/
   (nextToSkip p = n + 1 /\ png_next p' = n + 2 /\ nextToSkip p' <> n + 3)).
Proof.
  intros Hok Hr. pose proof Hok as [Ha Hn]. unfold Generator.Pop. cbn [png_next nextToSkip averagePeriod].
  usmall. destruct (Z.eqb_spec (png_next p + 1) (nextToSkip p)) as [E|E].
  - pose proof (generateNewSkip_spec rand (mkGenerator (averagePeriod p) (png_next p + 1 + 1) (nextToSkip p)))
      as Hg. destruct Hg as (H1 & H2 & H3); [cbn; lia|cbn; lia|done|].
    cbn [png_next averagePeriod nextToSkip] in *.
    split; [done|]. split; [done|]. right. split; [done|]. split; [lia|]. lia.
  - cbn. split; [done|]. split; [done|]. left. split; [congruence|]. done.
Qed.

(** The numbers of a generator go up by one or two: no number is used twice, and two consecutive
    numbers are never both skipped. *)
Lemma popAll_increasing rands : forall p,
  png_ok p -> Forall is_rand rands -> png_next p + 2 * Z.of_nat (length rands) < 2 ^ 62 ->
  forall i n m, Generator.popAll rands p !! i = Some n -> Generator.popAll rands p !! S i = Some m ->
  n < m <= n + 2.
Proof.
  induction rands as [|r rands IH]; intros p Hp Hr Hl i n m; [done|].
  apply Forall_cons in Hr as [Hr Hrs]. pose proof (Pop_spec r p Hp Hr) as Hpop. cbn [Generator.popAll length] in *.
  destruct (Generator.Pop r p) as [k p']. destruct Hpop as (-> & Ha & Hn).
  assert (Hp' : png_ok p') by (destruct Hp as [? ?]; split; [by rewrite Ha|lia]).
  destruct i as [|i]; cbn [lookup list_lookup]; [|apply (IH p' Hp' Hrs); lia].
  intros [= <-]. destruct rands as [|r' rands']; [done|]. intros [= <-]. lia.
Qed.

Lemma popAll_counts rands : forall period n,
  0 < n -> n + Z.of_nat (length rands) < 2 ^ 64 ->
  Generator.popAll rands (mkGenerator period n 0) = seqZ n (Z.of_nat (length rands)).
Proof.
  induction rands as [|r rands IH]; intros period n Hn Hl; [done|].
  cbn [Generator.popAll length] in *. unfold Generator.Pop. cbn [png_next nextToSkip averagePeriod].
  usmall. destruct (Z.eqb_spec (n + 1) 0); [lia|].
  rewrite seqZ_cons by lia. f_equal. rewrite IH by lia. unfold Z.succ, Z.pred. f_equal. lia.
Qed.

(** The numbers of a new generator are 1, 2, 3, ...: every packet of a path gets a number of its
    own, in ascending order, until the 64-bit counter wraps around.  No number is ever skipped,
    whatever the random source returns, because the constructor leaves [nextToSkip] at zero. *)
Theorem generator_counts (period : Z) (rands : list (option (Z * Z))) :
  Z.of_nat (length rands) < 2 ^ 64 - 1 ->
  Generator.popAll rands (newPacketNumberGenerator period) = seqZ 1 (Z.of_nat (length rands)).
Proof. intros Hl. apply popAll_counts; lia. Qed.

Lemma generator_counts_witness :
  Generator.popAll [None; Some (255, 255); Some (0, 1)] (newPacketNumberGenerator 500) = [1; 2; 3].
Proof. apply (generator_counts 500 [None; Some (255, 255); Some (0, 1)]). cbn. lia. Defined.
