(* ===== verification/Frames.v ===== *)
(** * The frames of package [wire], the ACK, CLOSE_PATH and PATHS frames excepted

    Models [internal/wire/{stream,rst_stream,window_update,blocked,ping,goaway,
    connection_close,stop_waiting,add_address}_frame.go].  For every frame: its
    record, [Parse...], [Write], [MinLength]; then that parsing inverts writing
    and that [MinLength] is the number of bytes written. *)
From S2P Require Import Prelude ByteOrder PacketNumber.

(** ** Constants *)
Definition MaxPacketSize : Z := 1350.

Module qerr.
Definition InvalidStreamData : Z := 46.
Definition InvalidConnectionCloseData : Z := 7.
Definition InvalidGoawayData : Z := 8.
Definition InvalidStopWaitingData : Z := 60.
Definition EmptyStreamFrameNoFin : Z := 50.
Definition InvalidPacketHeader : Z := 3.
Definition InvalidVersionNegotiationPacket : Z := 10.
Definition CryptoTooManyEntries : Z := 30.
Definition CryptoInvalidValueLength : Z := 31.
Definition InvalidCryptoMessageParameter : Z := 34.
End qerr.

(** ** RST_STREAM *)
Record RstStreamFrame := mkRstStreamFrame {
  rst_StreamID : Z;
  rst_ErrorCode : Z;
  rst_ByteOffset : Z
}.

Module RstStream.
Definition Write (f : RstStreamFrame) (version : Z) : Writer unit :=
  WriteByte 0x01;;
  WriteUint32 (GetByteOrder version) (rst_StreamID f);;
  WriteUint64 (GetByteOrder version) (rst_ByteOffset f);;
  WriteUint32 (GetByteOrder version) (rst_ErrorCode f);;
  mret tt.

Definition MinLength (f : RstStreamFrame) : outcome Z := Ret (1 + 4 + 8 + 4).

Definition Parse (version : Z) : Parser RstStreamFrame :=
  ReadByte;;
  sid ← ReadUint32 (GetByteOrder version);
  byteOffset ← ReadUint64 (GetByteOrder version);
  errorCode ← ReadUint32 (GetByteOrder version);
  mret (mkRstStreamFrame sid errorCode byteOffset).
End RstStream.

(** ** WINDOW_UPDATE *)
Record WindowUpdateFrame := mkWindowUpdateFrame {
  wu_StreamID : Z;
  wu_ByteOffset : Z
}.

Module WindowUpdate.
Definition Write (f : WindowUpdateFrame) (version : Z) : Writer unit :=
  WriteByte 0x4;;
  WriteUint32 (GetByteOrder version) (wu_StreamID f);;
  WriteUint64 (GetByteOrder version) (wu_ByteOffset f);;
  mret tt.

Definition MinLength (f : WindowUpdateFrame) : outcome Z := Ret (1 + 4 + 8).

Definition Parse (version : Z) : Parser WindowUpdateFrame :=
  ReadByte;;
  sid ← ReadUint32 (GetByteOrder version);
  byteOffset ← ReadUint64 (GetByteOrder version);
  mret (mkWindowUpdateFrame sid byteOffset).
End WindowUpdate.

(** ** BLOCKED *)
Record BlockedFrame := mkBlockedFrame { bl_StreamID : Z }.

Module Blocked.
Definition Write (f : BlockedFrame) (version : Z) : Writer unit :=
  WriteByte 0x05;;
  WriteUint32 (GetByteOrder version) (bl_StreamID f);;
  mret tt.

Definition MinLength (f : BlockedFrame) : outcome Z := Ret (1 + 4).

Definition Parse (version : Z) : Parser BlockedFrame :=
  ReadByte;;
  sid ← ReadUint32 (GetByteOrder version);
  mret (mkBlockedFrame sid).
End Blocked.

(** ** PING *)
Inductive PingFrame := mkPingFrame.

Module Ping.
Definition Parse (version : Z) : Parser PingFrame := ReadByte;; mret mkPingFrame.

Definition Write (f : PingFrame) (version : Z) : Writer unit := WriteByte 0x07;; mret tt.

Definition MinLength (f : PingFrame) : outcome Z := Ret 1.
End Ping.

(** ** GOAWAY *)
Record GoawayFrame := mkGoawayFrame {
  ga_ErrorCode : Z;
  ga_LastGoodStream : Z;
  ga_ReasonPhrase : list Z
}.

Module Goaway.
Definition Parse (version : Z) : Parser GoawayFrame :=
  ReadByte;;
  errorCode ← ReadUint32 (GetByteOrder version);
  lastGoodStream ← ReadUint32 (GetByteOrder version);
  reasonPhraseLen ← ReadUint16 (GetByteOrder version);
  if u16 MaxPacketSize <? reasonPhraseLen
  then fail (QuicError qerr.InvalidGoawayData "reason phrase too long")
  else
    reasonPhrase ← ReadFull reasonPhraseLen;
    mret (mkGoawayFrame errorCode lastGoodStream reasonPhrase).

Definition Write (f : GoawayFrame) (version : Z) : Writer unit :=
  WriteByte 0x03;;
  WriteUint32 (GetByteOrder version) (ga_ErrorCode f);;
  WriteUint32 (GetByteOrder version) (ga_LastGoodStream f);;
  WriteUint16 (GetByteOrder version) (u16 (Z.of_nat (length (ga_ReasonPhrase f))));;
  write (ga_ReasonPhrase f);;
  mret tt.

Definition MinLength (f : GoawayFrame) : outcome Z :=
  Ret (1 + 4 + 4 + 2 + Z.of_nat (length (ga_ReasonPhrase f))).
End Goaway.

(** ** CONNECTION_CLOSE *)
Record ConnectionCloseFrame := mkConnectionCloseFrame {
  cc_ErrorCode : Z;
  cc_ReasonPhrase : list Z
}.

Module ConnectionClose.
Definition Parse (version : Z) : Parser ConnectionCloseFrame :=
  ReadByte;;
  errorCode ← ReadUint32 (GetByteOrder version);
  reasonPhraseLen ← ReadUint16 (GetByteOrder version);
  if u16 MaxPacketSize <? reasonPhraseLen
  then fail (QuicError qerr.InvalidConnectionCloseData "reason phrase too long")
  else
    reasonPhrase ← ReadFull reasonPhraseLen;
    mret (mkConnectionCloseFrame errorCode reasonPhrase).

Definition MinLength (f : ConnectionCloseFrame) : outcome Z :=
  Ret (1 + 4 + 2 + Z.of_nat (length (cc_ReasonPhrase f))).

Definition Write (f : ConnectionCloseFrame) (version : Z) : Writer unit :=
  WriteByte 0x02;;
  WriteUint32 (GetByteOrder version) (cc_ErrorCode f);;
  (if 2 ^ 16 - 1 <? Z.of_nat (length (cc_ReasonPhrase f))
   then werror (ErrorString "ConnectionFrame: ReasonPhrase too long")
   else
     let reasonPhraseLen := u16 (Z.of_nat (length (cc_ReasonPhrase f))) in
     WriteUint16 (GetByteOrder version) reasonPhraseLen;;
     write (cc_ReasonPhrase f);;
     mret tt).
End ConnectionClose.

(** ** STOP_WAITING *)
Record StopWaitingFrame := mkStopWaitingFrame {
  sw_LeastUnacked : Z;
  sw_PacketNumberLen : Z;
  sw_PacketNumber : Z
}.

Module StopWaiting.
Definition errLeastUnackedHigherThanPacketNumber : error :=
  ErrorString "StopWaitingFrame: LeastUnacked can't be greater than the packet number".
Definition errPacketNumberNotSet : error := ErrorString "StopWaitingFrame: PacketNumber not set".
Definition errPacketNumberLenNotSet : error := ErrorString "StopWaitingFrame: PacketNumberLen not set".

Definition Write (f : StopWaitingFrame) (version : Z) : Writer unit :=
  if sw_PacketNumber f =? 0 then werror errPacketNumberNotSet
  else if sw_PacketNumber f <? sw_LeastUnacked f then werror errLeastUnackedHigherThanPacketNumber
  else
    WriteByte 0x06;;
    let leastUnackedDelta := sw_PacketNumber f -64 sw_LeastUnacked f in
    match sw_PacketNumberLen f with
    | 1 => WriteByte (u8 leastUnackedDelta)
    | 2 => WriteUint16 (GetByteOrder version) (u16 leastUnackedDelta)
    | 4 => WriteUint32 (GetByteOrder version) (u32 leastUnackedDelta)
    | 6 => WriteUint48 (GetByteOrder version) (Z.land leastUnackedDelta (2 ^ 48 - 1))
    | _ => werror errPacketNumberLenNotSet
    end.

Definition MinLength (f : StopWaitingFrame) : outcome Z :=
  if sw_PacketNumberLen f =? PacketNumberLenInvalid then Err errPacketNumberLenNotSet
  else Ret (1 + sw_PacketNumberLen f).

Definition Parse (packetNumber packetNumberLen version : Z) : Parser StopWaitingFrame :=
  ReadByte;;
  leastUnackedDelta ← ReadUintN (GetByteOrder version) packetNumberLen;
  if packetNumber <=? leastUnackedDelta
  then fail (QuicError qerr.InvalidStopWaitingData "invalid LeastUnackedDelta")
  else mret (mkStopWaitingFrame (packetNumber -64 leastUnackedDelta) 0 0).
End StopWaiting.

(** ** ADD_ADDRESS *)

(** [net.IP] is a byte slice of length 4 or 16 (or anything else, which both
    conversions refuse). *)
Module net.
Definition v4InV6Prefix : list Z := [0; 0; 0; 0; 0; 0; 0; 0; 0; 0; 0xff; 0xff].

Definition IPv4 (a b c d : Z) : list Z := v4InV6Prefix ++ [a; b; c; d].

Definition To4 (ip : list Z) : option (list Z) :=
  if Nat.eqb (length ip) 4 then Some ip
  else if Nat.eqb (length ip) 16 && bool_decide (take 12 ip = v4InV6Prefix)
  then Some (drop 12 ip)
  else None.

Definition To16 (ip : list Z) : option (list Z) :=
  match ip with
  | [a; b; c; d] => Some (IPv4 a b c d)
  | _ => if Nat.eqb (length ip) 16 then Some ip else None
  end.
End net.

Record AddAddressFrame := mkAddAddressFrame {
  aa_IPVersion : Z;
  aa_IP : list Z;
  aa_Port : Z
}.

Module AddAddress.
Definition ErrUnknownIPVersion : error := ErrorString "AddAddressFrame: unknown IP version".
Definition errInconsistentAddrIPVersion : error :=
  ErrorString "internal inconsistency: Addr does not match IP version".

(** [for i := 0; i < n; i++ { b.WriteByte(ip[i]) }] *)
Definition writeIP (ip : option (list Z)) (n : nat) : Writer unit :=
  match ip with
  | None => werror errInconsistentAddrIPVersion
  | Some ip => write (take n ip)
  end.

Definition Write (f : AddAddressFrame) (version : Z) : Writer unit :=
  WriteByte 0x10;;
  WriteByte (aa_IPVersion f);;
  match aa_IPVersion f with
  | 4 => writeIP (net.To4 (aa_IP f)) 4
  | 6 => writeIP (net.To16 (aa_IP f)) 16
  | _ => werror ErrUnknownIPVersion
  end;;
  WriteUint16 (GetByteOrder version) (u16 (aa_Port f));;
  mret tt.

(** [for i := 0; i < n; i++ { ip[i], err = r.ReadByte() }] *)
Fixpoint readBytes (n : nat) : Parser (list Z) :=
  match n with
  | O => mret []
  | S n' => b ← ReadByte; bs ← readBytes n'; mret (b :: bs)
  end.

Definition Parse (version : Z) : Parser AddAddressFrame :=
  ReadByte;;
  ipv ← ReadByte;
  ip ← match ipv with
       | 4 =>
           a ← ReadByte; b ← ReadByte; c ← ReadByte; d ← ReadByte;
           mret (net.IPv4 a b c d)
       | 6 => readBytes 16
       | _ => fail ErrUnknownIPVersion
       end : Parser (list Z);
  port ← ReadUint16 (GetByteOrder version);
  mret (mkAddAddressFrame ipv ip port).

Definition MinLength (f : AddAddressFrame) : outcome Z :=
  match aa_IPVersion f with
  | 4 => Ret (1 + 1 + 4 + 2)
  | 6 => Ret (1 + 1 + 16 + 2)
  | _ => Err ErrUnknownIPVersion
  end.
End AddAddress.

(** ** STREAM *)
Record StreamFrame := mkStreamFrame {
  StreamID : Z;
  FinBit : bool;
  DataLenPresent : bool;
  Offset : Z;
  Data : list Z
}.

Definition DataLen (f : StreamFrame) : Z := Z.of_nat (length (Data f)).

Module Stream.
Definition errInvalidStreamIDLen : error := ErrorString "StreamFrame: Invalid StreamID length".
Definition errInvalidOffsetLen : error := ErrorString "StreamFrame: Invalid offset length".

Definition Parse (version : Z) : Parser StreamFrame :=
  typeByte ← ReadByte;
  let finBit := 0 <? Z.land typeByte 0x40 in
  let dataLenPresent := 0 <? Z.land typeByte 0x20 in
  let offsetLen := Z.land typeByte 0x1c ≫ 2 in
  let offsetLen := if negb (offsetLen =? 0) then offsetLen + 1 else offsetLen in
  let streamIDLen := Z.land typeByte 0x3 + 1 in
  sid ← ReadUintN (GetByteOrder version) streamIDLen;
  offset ← ReadUintN (GetByteOrder version) offsetLen;
  dataLen ← (if dataLenPresent then ReadUint16 (GetByteOrder version) else mret 0);
  if u16 MaxPacketSize <? dataLen
  then fail (QuicError qerr.InvalidStreamData "data len too large")
  else
    rlen ← Len;
    let dataLen := if negb dataLenPresent then u16 rlen else dataLen in
    data ← (if negb (dataLen =? 0) then ReadFull dataLen else mret []);
    let frame := mkStreamFrame (u32 sid) finBit dataLenPresent offset data in
    if Offset frame +64 DataLen frame <? Offset frame
    then fail (QuicError qerr.InvalidStreamData "data overflows maximum offset")
    else if negb (FinBit frame) && (DataLen frame =? 0)
    then fail (ErrorCode qerr.EmptyStreamFrameNoFin)
    else mret frame.

Definition calculateStreamIDLength (f : StreamFrame) : Z :=
  if StreamID f <? Z.shiftl 1 8 then 1
  else if StreamID f <? Z.shiftl 1 16 then 2
  else if StreamID f <? Z.shiftl 1 24 then 3
  else 4.

Definition getOffsetLength (f : StreamFrame) : Z :=
  if Offset f =? 0 then 0
  else if Offset f <? Z.shiftl 1 16 then 2
  else if Offset f <? Z.shiftl 1 24 then 3
  else if Offset f <? Z.shiftl 1 32 then 4
  else if Offset f <? Z.shiftl 1 40 then 5
  else if Offset f <? Z.shiftl 1 48 then 6
  else if Offset f <? Z.shiftl 1 56 then 7
  else 8.

(** The flags of [Write]: FIN, data length, offset length and stream ID length. *)
Definition typeByte (finBit dataLenPresent : bool) (offsetLength streamIDLen : Z) : Z :=
  let typeByte := 0x80 in
  let typeByte := if finBit then Z.lxor typeByte 0x40 else typeByte in
  let typeByte := if dataLenPresent then Z.lxor typeByte 0x20 else typeByte in
  let typeByte :=
    if 0 <? offsetLength
    then Z.lxor typeByte (u8 (Z.shiftl (u8 (u8 offsetLength - 1)) 2)) else typeByte in
  Z.lxor typeByte (u8 (streamIDLen - 1)).

Definition Write (f : StreamFrame) (version : Z) : Writer unit :=
  if (Z.of_nat (length (Data f)) =? 0) && negb (FinBit f)
  then werror (ErrorString "StreamFrame: attempting to write empty frame without FIN")
  else
    let offsetLength := getOffsetLength f in
    let streamIDLen := calculateStreamIDLength f in
    WriteByte (typeByte (FinBit f) (DataLenPresent f) offsetLength streamIDLen);;
    match streamIDLen with
    | 1 => WriteByte (u8 (StreamID f))
    | 2 => WriteUint16 (GetByteOrder version) (u16 (StreamID f))
    | 3 => WriteUint24 (GetByteOrder version) (StreamID f)
    | 4 => WriteUint32 (GetByteOrder version) (StreamID f)
    | _ => werror errInvalidStreamIDLen
    end;;
    match offsetLength with
    | 0 => mret tt
    | 2 => WriteUint16 (GetByteOrder version) (u16 (Offset f))
    | 3 => WriteUint24 (GetByteOrder version) (u32 (Offset f))
    | 4 => WriteUint32 (GetByteOrder version) (u32 (Offset f))
    | 5 => WriteUint40 (GetByteOrder version) (Offset f)
    | 6 => WriteUint48 (GetByteOrder version) (Offset f)
    | 7 => WriteUint56 (GetByteOrder version) (Offset f)
    | 8 => WriteUint64 (GetByteOrder version) (Offset f)
    | _ => werror errInvalidOffsetLen
    end;;
    (if DataLenPresent f
     then WriteUint16 (GetByteOrder version) (u16 (Z.of_nat (length (Data f)))) else mret tt);;
    write (Data f);;
    mret tt.

Definition MinLength (f : StreamFrame) : outcome Z :=
  let length := 1 +64 calculateStreamIDLength f +64 getOffsetLength f in
  Ret (if DataLenPresent f then length +64 2 else length).
End Stream.

(** ** Round trips *)

(** Writing succeeds, [MinLength] announces the number of bytes written, and
    parsing the bytes gives the frame back and leaves what follows unread. *)
Definition codec_ok {F} (wr : F -> Writer unit) (len : F -> outcome Z) (parse : Parser F)
    (f : F) : Prop :=
  exists bs, wr f = (bs, Ret tt) /\ is_bytes bs /\ len f = Ret (Z.of_nat (length bs)) /\
    forall rest, parse (bs ++ rest) = Ret (f, rest).

Lemma enc_Forall version n v : Forall is_u8 (enc version n v).
Proof. apply enc_is_bytes. Qed.

Lemma length_enc version n v : length (enc version n v) = n.
Proof. apply enc_length. Qed.

Create Rewrite HintDb codec.
#[export] Hint Rewrite @length_app @length_cons @length_nil length_enc : codec.

(** The two side goals of a codec: bytes are bytes, and the length is right. *)
Ltac solve_bytes :=
  unfold is_bytes;
  repeat (assumption || apply Forall_nil_2 || apply Forall_app_2 || apply Forall_cons_2 ||
          apply enc_Forall || apply u8_range);
  unfold in_range; try lia.
Ltac solve_len := f_equal; autorewrite with codec; lia.

Section Simple.
Context (version : Z).

Lemma rst_stream_codec f :
  is_u32 (rst_StreamID f) -> is_u64 (rst_ByteOffset f) -> is_u32 (rst_ErrorCode f) ->
  codec_ok (fun f => RstStream.Write f version) RstStream.MinLength (RstStream.Parse version) f.
Proof.
  intros. unfold codec_ok, RstStream.Write, RstStream.MinLength, RstStream.Parse.
  rewrite !WriteUint32_enc, WriteUint64_enc. wrun.
  eexists; split; [done|]. split; [solve_bytes|]. split; [solve_len|].
  intros rest. cbn [app]. pbyte.
  pstep read32. pstep read64.
  pstep read32. by destruct f.
Qed.

Lemma window_update_codec f :
  is_u32 (wu_StreamID f) -> is_u64 (wu_ByteOffset f) ->
  codec_ok (fun f => WindowUpdate.Write f version) WindowUpdate.MinLength
    (WindowUpdate.Parse version) f.
Proof.
  intros. unfold codec_ok, WindowUpdate.Write, WindowUpdate.MinLength, WindowUpdate.Parse.
  rewrite WriteUint32_enc, WriteUint64_enc. wrun.
  eexists; split; [done|]. split; [solve_bytes|]. split; [solve_len|].
  intros rest. cbn [app]. pbyte.
  pstep read32. pstep read64. by destruct f.
Qed.

Lemma blocked_codec f :
  is_u32 (bl_StreamID f) ->
  codec_ok (fun f => Blocked.Write f version) Blocked.MinLength (Blocked.Parse version) f.
Proof.
  intros. unfold codec_ok, Blocked.Write, Blocked.MinLength, Blocked.Parse.
  rewrite WriteUint32_enc. wrun.
  eexists; split; [done|]. split; [solve_bytes|]. split; [solve_len|].
  intros rest. cbn [app]. pbyte. pstep read32. by destruct f.
Qed.

Lemma ping_codec f :
  codec_ok (fun f => Ping.Write f version) Ping.MinLength (Ping.Parse version) f.
Proof. eexists; split; [done|]. split; [solve_bytes|]. split; [done|]. by destruct f. Qed.

Lemma goaway_codec f :
  is_u32 (ga_ErrorCode f) -> is_u32 (ga_LastGoodStream f) -> is_bytes (ga_ReasonPhrase f) ->
  Z.of_nat (length (ga_ReasonPhrase f)) <= MaxPacketSize ->
  codec_ok (fun f => Goaway.Write f version) Goaway.MinLength (Goaway.Parse version) f.
Proof.
  unfold MaxPacketSize. intros. unfold codec_ok, Goaway.Write, Goaway.MinLength, Goaway.Parse.
  usmall. rewrite !WriteUint32_enc, WriteUint16_enc. wrun.
  eexists; split; [done|]. split; [solve_bytes|]. split; [solve_len|].
  intros rest. cbn [app]. pbyte.
  pstep read32. pstep read32.
  pstep read16.
  unfold MaxPacketSize. usmall. case_match; [lia|].
  pstep ReadFull_app. by destruct f.
Qed.

Lemma connection_close_codec f :
  is_u32 (cc_ErrorCode f) -> is_bytes (cc_ReasonPhrase f) ->
  Z.of_nat (length (cc_ReasonPhrase f)) <= MaxPacketSize ->
  codec_ok (fun f => ConnectionClose.Write f version) ConnectionClose.MinLength
    (ConnectionClose.Parse version) f.
Proof.
  unfold MaxPacketSize. intros.
  unfold codec_ok, ConnectionClose.Write, ConnectionClose.MinLength, ConnectionClose.Parse.
  case_match; [lia|]. usmall. rewrite !WriteUint32_enc, WriteUint16_enc. wrun.
  eexists; split; [done|]. split; [solve_bytes|]. split; [solve_len|].
  intros rest. cbn [app]. pbyte.
  pstep read32. pstep read16.
  unfold MaxPacketSize. usmall. case_match; [lia|].
  pstep ReadFull_app. by destruct f.
Qed.
End Simple.

(** A byte-counted integer: [n] bytes hold every value below [2^(8n)]. *)
Lemma writeLen_spec version len v (other : Writer unit) :
  valid_len len -> in_range (8 * len) v ->
  match len with
  | 1 => WriteByte (u8 v)
  | 2 => WriteUint16 (GetByteOrder version) (u16 v)
  | 4 => WriteUint32 (GetByteOrder version) (u32 v)
  | 6 => WriteUint48 (GetByteOrder version) (Z.land v (2 ^ 48 - 1))
  | _ => other
  end = write (enc version (Z.to_nat len) v).
Proof.
  unfold in_range. intros [-> | [-> | [-> | ->]]] Hv.
  - unfold WriteByte. change (Z.to_nat PacketNumberLen1) with 1%nat. by rewrite enc_1.
  - change (0 <= v < 2 ^ 16) in Hv. cbn. usmall. apply WriteUint16_enc.
  - change (0 <= v < 2 ^ 32) in Hv. cbn. usmall. apply WriteUint32_enc.
  - change (0 <= v < 2 ^ 48) in Hv. change (2 ^ 48 - 1) with (Z.ones 48).
    rewrite Z.land_ones, Z.mod_small by lia. apply WriteUint48_enc. lia.
Qed.

Lemma valid_len_nat len :
  valid_len len -> len = Z.of_nat (Z.to_nat len) /\ (Z.to_nat len <= 8)%nat /\ 1 <= len <= 6.
Proof.
  unfold valid_len, PacketNumberLen1, PacketNumberLen2, PacketNumberLen4, PacketNumberLen6.
  intros [-> | [-> | [-> | ->]]]; lia.
Qed.

Lemma stop_waiting_roundtrip version f rest :
  valid_len (sw_PacketNumberLen f) ->
  1 <= sw_LeastUnacked f <= sw_PacketNumber f -> sw_PacketNumber f < 2 ^ 64 ->
  sw_PacketNumber f - sw_LeastUnacked f < 2 ^ (8 * sw_PacketNumberLen f) ->
  exists bs, StopWaiting.Write f version = (bs, Ret tt) /\ is_bytes bs /\
    StopWaiting.MinLength f = Ret (Z.of_nat (length bs)) /\
    StopWaiting.Parse (sw_PacketNumber f) (sw_PacketNumberLen f) version (bs ++ rest)
    = Ret (mkStopWaitingFrame (sw_LeastUnacked f) 0 0, rest).
Proof.
  intros Hlen Hlu Hpn Hdelta. unfold StopWaiting.Write, StopWaiting.MinLength, StopWaiting.Parse.
  pose proof (valid_len_nat _ Hlen) as (Hn & Hn8 & Hl).
  destruct (Z.eqb_spec (sw_PacketNumber f) 0); [lia|].
  destruct (Z.ltb_spec (sw_PacketNumber f) (sw_LeastUnacked f)); [lia|].
  usmall. rewrite writeLen_spec by (done || unfold in_range; lia). wrun.
  eexists; split; [done|]. split; [solve_bytes|]. split.
  { unfold PacketNumberLenInvalid. destruct (Z.eqb_spec (sw_PacketNumberLen f) 0); [lia|].
    solve_len. }
  cbn [app]. pbyte. pstep readN. case_match; [lia|]. usmall.
  cbv [mret parser_ret]. do 3 f_equal. lia.
Qed.

Lemma readBytes_app n bs rest :
  length bs = n -> AddAddress.readBytes n (bs ++ rest) = Ret (bs, rest).
Proof.
  revert bs. induction n; intros [|b bs] Hl; try done.
  cbn [AddAddress.readBytes app]. pbyte.
  erewrite parser_bind_ret by (apply IHn; cbn in Hl; lia). done.
Qed.

(** The address is in the form [ParseAddAddressFrame] produces. *)
Definition wf_AddAddress (f : AddAddressFrame) : Prop :=
  is_u16 (aa_Port f) /\ is_bytes (aa_IP f) /\
  ((aa_IPVersion f = 4 /\ exists a b c d, aa_IP f = net.IPv4 a b c d) \/
   (aa_IPVersion f = 6 /\ length (aa_IP f) = 16%nat)).

Lemma add_address_codec version f :
  wf_AddAddress f ->
  codec_ok (fun f => AddAddress.Write f version) AddAddress.MinLength (AddAddress.Parse version) f.
Proof.
  intros (Hp & Hb & [[Hv (a & b & c & d & Hip)] | [Hv Hl]]);
    unfold codec_ok, AddAddress.Write, AddAddress.MinLength, AddAddress.Parse;
    rewrite Hv, WriteUint16_enc; usmall.
  - rewrite Hip in *. change (net.To4 (net.IPv4 a b c d)) with (Some [a; b; c; d]).
    apply Forall_app in Hb as [_ Hb].
    wrun. cbn [AddAddress.writeIP take write app].
    eexists; split; [done|]. split.
    { change (is_bytes ([16; 4] ++ [a; b; c; d] ++ enc version 2 (aa_Port f) ++ [])). solve_bytes. }
    split; [solve_len|]. intros rest. cbn [app]. do 2 pbyte.
    erewrite parser_bind_ret by done. cbv beta. pstep read16. destruct f; cbn in *; by subst.
  - assert (Ht : net.To16 (aa_IP f) = Some (aa_IP f)).
    { unfold net.To16. rewrite Hl. by repeat (case_match; try done). }
    rewrite Ht. wrun. cbn [AddAddress.writeIP].
    rewrite take_ge by lia. unfold write. cbn [app].
    eexists; split; [done|]. split; [solve_bytes|]. split.
    { f_equal. autorewrite with codec. rewrite Hl. done. }
    intros rest. cbn [app]. do 2 pbyte.
    erewrite parser_bind_ret by (rewrite <- app_assoc; by apply readBytes_app).
    pstep read16. destruct f; cbn in *; by subst.
Qed.

(** *** STREAM frames *)
Lemma streamIDLength_spec f :
  is_u32 (StreamID f) ->
  exists n, Stream.calculateStreamIDLength f = Z.of_nat n /\ (1 <= n <= 4)%nat /\
    in_range (8 * Z.of_nat n) (StreamID f).
Proof.
  unfold Stream.calculateStreamIDLength, in_range. rewrite !Z.shiftl_1_l. intros.
  destruct (Z.ltb_spec (StreamID f) (2 ^ 8)); [exists 1%nat; lia|].
  destruct (Z.ltb_spec (StreamID f) (2 ^ 16)); [exists 2%nat; lia|].
  destruct (Z.ltb_spec (StreamID f) (2 ^ 24)); [exists 3%nat; lia|].
  exists 4%nat; lia.
Qed.

Lemma offsetLength_spec f :
  is_u64 (Offset f) ->
  exists n, Stream.getOffsetLength f = Z.of_nat n /\ (n = 0 \/ 2 <= n <= 8)%nat /\
    in_range (8 * Z.of_nat n) (Offset f).
Proof.
  unfold Stream.getOffsetLength, in_range. rewrite !Z.shiftl_1_l. intros.
  destruct (Z.eqb_spec (Offset f) 0); [exists 0%nat; lia|].
  destruct (Z.ltb_spec (Offset f) (2 ^ 16)); [exists 2%nat; lia|].
  destruct (Z.ltb_spec (Offset f) (2 ^ 24)); [exists 3%nat; lia|].
  destruct (Z.ltb_spec (Offset f) (2 ^ 32)); [exists 4%nat; lia|].
  destruct (Z.ltb_spec (Offset f) (2 ^ 40)); [exists 5%nat; lia|].
  destruct (Z.ltb_spec (Offset f) (2 ^ 48)); [exists 6%nat; lia|].
  destruct (Z.ltb_spec (Offset f) (2 ^ 56)); [exists 7%nat; lia|].
  exists 8%nat; lia.
Qed.

Lemma typeByte_spec finBit dlp ofl sn :
  (ofl = 0 \/ 2 <= ofl <= 8)%nat -> (1 <= sn <= 4)%nat ->
  let tb := Stream.typeByte finBit dlp (Z.of_nat ofl) (Z.of_nat sn) in
  is_u8 tb /\ Z.land tb 0x80 = 0x80 /\
  (0 <? Z.land tb 0x40) = finBit /\ (0 <? Z.land tb 0x20) = dlp /\
  (if negb (Z.land tb 0x1c ≫ 2 =? 0) then Z.land tb 0x1c ≫ 2 + 1 else Z.land tb 0x1c ≫ 2)
  = Z.of_nat ofl /\ Z.land tb 0x3 + 1 = Z.of_nat sn.
Proof.
  intros Hon Hsn.
  assert (sn = 1 \/ sn = 2 \/ sn = 3 \/ sn = 4)%nat as Hs by lia.
  assert (ofl = 0 \/ ofl = 2 \/ ofl = 3 \/ ofl = 4 \/ ofl = 5 \/ ofl = 6 \/ ofl = 7 \/ ofl = 8)%nat
    as Ho by lia.
  clear Hon Hsn. destruct_or! Hs; destruct_or! Ho; subst; destruct finBit, dlp; vm_compute; done.
Qed.

Lemma writeStreamID_spec version f n :
  Stream.calculateStreamIDLength f = Z.of_nat n -> (1 <= n <= 4)%nat ->
  in_range (8 * Z.of_nat n) (StreamID f) ->
  match Stream.calculateStreamIDLength f with
  | 1 => WriteByte (u8 (StreamID f))
  | 2 => WriteUint16 (GetByteOrder version) (u16 (StreamID f))
  | 3 => WriteUint24 (GetByteOrder version) (StreamID f)
  | 4 => WriteUint32 (GetByteOrder version) (StreamID f)
  | _ => werror Stream.errInvalidStreamIDLen
  end = write (enc version n (StreamID f)).
Proof.
  intros -> Hn Hr. unfold in_range in Hr.
  assert (n = 1 \/ n = 2 \/ n = 3 \/ n = 4)%nat as Hc by lia.
  destruct_or! Hc; subst; cbn.
  - unfold WriteByte. by rewrite enc_1.
  - usmall. apply WriteUint16_enc.
  - apply WriteUint24_enc. lia.
  - apply WriteUint32_enc.
Qed.

Lemma writeOffset_spec version f n :
  Stream.getOffsetLength f = Z.of_nat n -> (n = 0 \/ 2 <= n <= 8)%nat ->
  in_range (8 * Z.of_nat n) (Offset f) ->
  match Stream.getOffsetLength f with
  | 0 => mret tt
  | 2 => WriteUint16 (GetByteOrder version) (u16 (Offset f))
  | 3 => WriteUint24 (GetByteOrder version) (u32 (Offset f))
  | 4 => WriteUint32 (GetByteOrder version) (u32 (Offset f))
  | 5 => WriteUint40 (GetByteOrder version) (Offset f)
  | 6 => WriteUint48 (GetByteOrder version) (Offset f)
  | 7 => WriteUint56 (GetByteOrder version) (Offset f)
  | 8 => WriteUint64 (GetByteOrder version) (Offset f)
  | _ => werror Stream.errInvalidOffsetLen
  end = write (enc version n (Offset f)).
Proof.
  intros -> Hn Hr. unfold in_range in Hr.
  assert (n = 0 \/ n = 2 \/ n = 3 \/ n = 4 \/ n = 5 \/ n = 6 \/ n = 7 \/ n = 8)%nat as Hc by lia.
  destruct_or! Hc; subst; cbn.
  - unfold enc. by destruct (version <? Version39).
  - usmall. apply WriteUint16_enc.
  - usmall. apply WriteUint24_enc. lia.
  - usmall. apply WriteUint32_enc.
  - apply WriteUint40_enc. lia.
  - apply WriteUint48_enc. lia.
  - apply WriteUint56_enc. lia.
  - apply WriteUint64_enc.
Qed.

(** A stream frame the receiver accepts: what [Write] can express and the data
    fits into a packet and below the maximal offset. *)
Definition wf_StreamFrame (f : StreamFrame) : Prop :=
  is_u32 (StreamID f) /\ is_u64 (Offset f) /\ is_bytes (Data f) /\
  DataLen f <= MaxPacketSize /\ Offset f + DataLen f < 2 ^ 64 /\
  (FinBit f = true \/ Data f <> []).

Lemma read_data data n rest :
  n = Z.of_nat (length data) ->
  (if negb (n =? 0) then ReadFull n else mret []) (data ++ rest) = Ret (data, rest).
Proof.
  intros ->. destruct (Z.eqb_spec (Z.of_nat (length data)) 0); cbn [negb].
  - by destruct data; [|cbn [length] in *; lia].
  - by apply ReadFull_app.
Qed.

Lemma stream_codec version f rest :
  wf_StreamFrame f -> DataLenPresent f = true \/ rest = [] ->
  exists bs hdr, Stream.Write f version = (bs, Ret tt) /\ is_bytes bs /\
    Z.land (hd 0 bs) 0x80 = 0x80 /\
    Stream.MinLength f = Ret hdr /\ hdr + DataLen f = Z.of_nat (length bs) /\
    Stream.Parse version (bs ++ rest) = Ret (f, rest).
Proof.
  intros (Hsid & Hoff & Hdata & Hmax & Hov & Hne) Hrest.
  unfold DataLen, MaxPacketSize in *.
  destruct (streamIDLength_spec f Hsid) as (sn & Hsl & Hsn & Hsr).
  destruct (offsetLength_spec f Hoff) as (ofl & Hol & Hon & Hor).
  unfold Stream.Write, Stream.MinLength. rewrite (writeStreamID_spec version f sn),
    (writeOffset_spec version f ofl) by done. rewrite Hsl, Hol, WriteUint16_enc.
  destruct (typeByte_spec (FinBit f) (DataLenPresent f) ofl sn Hon Hsn)
    as (Htb & H80 & Hfin & Hdlp & Hol' & Hsl').
  set (tb := Stream.typeByte (FinBit f) (DataLenPresent f) (Z.of_nat ofl) (Z.of_nat sn)) in *.
  clearbody tb.
  assert (Hemp : (Z.of_nat (length (Data f)) =? 0) && negb (FinBit f) = false).
  { destruct Hne as [-> | Hne]; [apply andb_false_r|].
    destruct (Z.eqb_spec (Z.of_nat (length (Data f))) 0); [|done].
    destruct (Data f); [done|cbn [length] in *; lia]. }
  rewrite Hemp. usmall.
  set (dl := if DataLenPresent f then enc version 2 (Z.of_nat (length (Data f))) else []).
  exists (tb :: enc version sn (StreamID f) ++ enc version ofl (Offset f) ++ dl ++ Data f).
  eexists. split; [|split; [|split; [|split; [|split]]]].
  - subst dl. destruct (DataLenPresent f); wrun; by rewrite ?app_nil_r.
  - subst dl. destruct (DataLenPresent f); solve_bytes.
  - done.
  - reflexivity.
  - subst dl. destruct (DataLenPresent f); autorewrite with codec; usmall; lia.
  - cbn [app]. unfold Stream.Parse. pbyte. rewrite Hfin, Hdlp, Hol', Hsl'.
    pstep readN. pstep readN.
    destruct (DataLenPresent f) eqn:Hd; subst dl; cbn [app].
    + pstep read16. unfold MaxPacketSize. rewrite (uN_small 16 1350) by (unfold in_range; lia).
      destruct (Z.ltb_spec 1350 (Z.of_nat (length (Data f)))); [lia|].
      erewrite parser_bind_ret by reflexivity. cbn [negb].
      pstep read_data. unfold DataLen. cbn. usmall. destruct (Z.ltb_spec (Offset f + Z.of_nat (length (Data f))) (Offset f)); [lia|].
      rewrite andb_comm, Hemp. destruct f; cbn in *; by subst.
    + destruct Hrest as [?| ->]; [done|]. rewrite !app_nil_r.
      erewrite parser_bind_ret by reflexivity. unfold MaxPacketSize.
      rewrite (uN_small 16 1350) by (unfold in_range; lia). change (1350 <? 0) with false. cbv iota.
      erewrite parser_bind_ret by reflexivity. cbn [negb]. usmall.
      rewrite <- (app_nil_r (Data f)) at 3. pstep read_data.
      unfold DataLen. cbn. usmall. destruct (Z.ltb_spec (Offset f + Z.of_nat (length (Data f))) (Offset f)); [lia|].
      rewrite andb_comm, Hemp. destruct f; cbn in *; by subst.
Qed.

(** ** Arbitrary input *)
Lemma preads_RstStream version :
  preads (RstStream.Parse version)
    (fun f => is_u32 (rst_StreamID f) /\ is_u64 (rst_ByteOffset f) /\ is_u32 (rst_ErrorCode f)).
Proof. unfold RstStream.Parse. pfirst ? ?. do 3 pnext ? ?. by apply psafe_ret. Qed.

Lemma preads_WindowUpdate version :
  preads (WindowUpdate.Parse version) (fun f => is_u32 (wu_StreamID f) /\ is_u64 (wu_ByteOffset f)).
Proof. unfold WindowUpdate.Parse. pfirst ? ?. do 2 pnext ? ?. by apply psafe_ret. Qed.

Lemma preads_Blocked version : preads (Blocked.Parse version) (fun f => is_u32 (bl_StreamID f)).
Proof. unfold Blocked.Parse. pfirst ? ?. pnext ? ?. by apply psafe_ret. Qed.

Lemma preads_Ping version : preads (Ping.Parse version) (fun _ => True).
Proof. unfold Ping.Parse. pfirst ? ?. by apply psafe_ret. Qed.

Lemma preads_Goaway version :
  preads (Goaway.Parse version) (fun f => is_u32 (ga_ErrorCode f) /\ is_u32 (ga_LastGoodStream f) /\
    is_bytes (ga_ReasonPhrase f) /\ Z.of_nat (length (ga_ReasonPhrase f)) <= MaxPacketSize).
Proof.
  unfold Goaway.Parse. pfirst ? ?. do 3 pnext ? ?. case_match; [apply psafe_fail|].
  pnext ? [Hb Hl]. apply psafe_ret. cbn. unfold in_range in *.
  rewrite (uN_small 16) in * by (unfold in_range, MaxPacketSize; lia).
  split; [done|]. split; [done|]. split; [done|]. rewrite Hl; lia.
Qed.

Lemma preads_ConnectionClose version :
  preads (ConnectionClose.Parse version) (fun f => is_u32 (cc_ErrorCode f) /\
    is_bytes (cc_ReasonPhrase f) /\ Z.of_nat (length (cc_ReasonPhrase f)) <= MaxPacketSize).
Proof.
  unfold ConnectionClose.Parse. pfirst ? ?. do 2 pnext ? ?. case_match; [apply psafe_fail|].
  pnext ? [Hb Hl]. apply psafe_ret. cbn. unfold in_range in *.
  rewrite (uN_small 16) in * by (unfold in_range, MaxPacketSize; lia).
  split; [done|]. split; [done|]. rewrite Hl; lia.
Qed.

Lemma preads_StopWaiting pn len version :
  is_u64 pn -> 0 <= len <= 8 ->
  preads (StopWaiting.Parse pn len version) (fun f => 1 <= sw_LeastUnacked f <= pn).
Proof.
  intros Hpn Hlen. unfold StopWaiting.Parse. pfirst ? ?.
  eapply psafe_bind; [by apply psafe_ReadUintN|]. intros d Hd. cbv beta.
  case_match; [apply psafe_fail|]. apply psafe_ret. cbn. unfold in_range in *. usmall. lia.
Qed.

Lemma preads_AddAddress version :
  preads (AddAddress.Parse version) (fun f => is_u16 (aa_Port f)).
Proof.
  unfold AddAddress.Parse. pfirst ? ?. pnext ? ?.
  eapply psafe_bind with (Q := fun _ => True); [|intros ? _; pnext ? ?; by apply psafe_ret].
  assert (Hbytes : forall n, psafe (AddAddress.readBytes n) (fun _ => True)).
  { induction n as [|n IH]; cbn [AddAddress.readBytes]; [by apply psafe_ret|].
    pnext ? ?. eapply psafe_bind; [apply IH|]. intros ? _. by apply psafe_ret. }
  repeat case_match; try apply psafe_fail; [apply Hbytes|].
  do 4 pnext ? ?. by apply psafe_ret.
Qed.

(** What the parser guarantees of a STREAM frame. *)
Record parsed_stream (f : StreamFrame) : Prop := {
  ps_id : is_u32 (StreamID f);
  ps_offset : is_u64 (Offset f);
  ps_bytes : is_bytes (Data f);
  ps_end : Offset f + DataLen f < 2 ^ 64;
  ps_len : DataLenPresent f = true -> DataLen f <= MaxPacketSize;
  ps_content : FinBit f = true \/ 0 < DataLen f
}.

Lemma offsetLen_range tb :
  0 <= (if negb (Z.land tb 0x1c ≫ 2 =? 0) then Z.land tb 0x1c ≫ 2 + 1 else Z.land tb 0x1c ≫ 2) <= 8.
Proof.
  rewrite Z.shiftr_land. change (0x1c ≫ 2) with (Z.ones 3). rewrite Z.land_ones by lia.
  pose proof (Z.mod_pos_bound (tb ≫ 2) (2 ^ 3) eq_refl) as Hb. change (2 ^ 3) with 8 in *.
  case_match; lia.
Qed.

Lemma streamIDLen_range tb : 0 <= Z.land tb 0x3 + 1 <= 4.
Proof.
  change 0x3 with (Z.ones 2). rewrite Z.land_ones by lia.
  pose proof (Z.mod_pos_bound tb (2 ^ 2) eq_refl) as Hb. change (2 ^ 2) with 4 in *. lia.
Qed.

Lemma preads_Stream version : preads (Stream.Parse version) parsed_stream.
Proof.
  unfold Stream.Parse. pfirst tb Htb. cbv zeta.
  set (dlp := 0 <? Z.land tb 0x20). set (ofl := if negb _ then _ else _).
  assert (Hofl : 0 <= ofl <= 8) by apply offsetLen_range.
  pose proof (streamIDLen_range tb) as Hsl.
  eapply psafe_bind; [apply psafe_ReadUintN; lia|]. intros sid _.
  eapply psafe_bind; [by apply psafe_ReadUintN|]. intros off Hoff.
  assert (Hoff64 : is_u64 off).
  { unfold in_range in *. assert (2 ^ (8 * ofl) <= 2 ^ 64) by (apply Z.pow_le_mono_r; lia). lia. }
  eapply psafe_bind with (Q := is_u16).
  { destruct dlp; [apply psafe_ReadUint16|apply psafe_ret; unfold in_range; lia]. }
  intros dl Hdl. rewrite (uN_small 16 MaxPacketSize) by (unfold in_range, MaxPacketSize; lia).
  destruct (Z.ltb_spec MaxPacketSize dl) as [|Hmax]; [apply psafe_fail|]. pnext n Hn.
  set (len := if negb dlp then u16 n else dl).
  assert (Hlen : is_u16 len) by (subst len; destruct dlp; [done|apply u16_range]).
  eapply psafe_bind with (Q := fun d => is_bytes d /\ Z.of_nat (length d) = len).
  { destruct (Z.eqb_spec len 0) as [->|]; cbn [negb]; [apply psafe_ret; split; [constructor|done]|].
    eapply psafe_weaken; [apply psafe_ReadFull|]. intros d [Hd Hl].
    split; [done|apply Hl]. unfold in_range in Hlen. lia. }
  intros data [Hb Hl]. cbn [Offset DataLen FinBit].
  unfold DataLen. cbn [Data]. rewrite Hl. unfold in_range in Hoff64, Hlen.
  destruct (Z.ltb_spec (off +64 len) off) as [|Hov]; [apply psafe_fail|].
  destruct (negb (0 <? Z.land tb 0x40) && (len =? 0)) eqn:Hne; [apply psafe_fail|].
  apply psafe_ret. split; cbn; unfold DataLen; cbn; rewrite ?Hl.
  - apply u32_range.
  - done.
  - done.
  - destruct (Z.lt_ge_cases (off + len) (2 ^ 64)) as [|Hge]; [done|]. exfalso.
    assert (off +64 len = off + len - 2 ^ 64) as Heq; [|lia].
    unfold uN. rewrite <- (Z.mod_small (off + len - 2 ^ 64) (2 ^ 64)) by lia.
    rewrite <- (Z_mod_plus_full (off + len) (-1)). by f_equal.
  - intros Hd. subst len. by rewrite Hd.
  - destruct (0 <? Z.land tb 0x40); [by left|right]. cbn in Hne. lia.
Qed.

#[export] Hint Resolve preads_RstStream preads_WindowUpdate preads_Blocked preads_Ping preads_Goaway
  preads_ConnectionClose preads_AddAddress preads_Stream : preads.
