(* ===== verification/AckRanges.v ===== *)
(** * ACK ranges

    Models the code [internal/wire/ack_frame.go] and
    [internal/wire/close_path_frame.go] have in common: the validation of a list of
    ranges, its block encoding (gaps of more than 255 packets take several
    blocks), the decoding loop and the acknowledgement test. *)
From S2P Require Import Prelude ByteOrder PacketNumber Frames.

Record AckRange := mkAckRange { First : Z; Last : Z }.

#[export] Instance AckRange_eq_dec : EqDecision AckRange.
Proof. solve_decision. Defined.

Definition ErrInvalidAckRanges : error :=
  ErrorString "AckFrame: ACK frame contains invalid ACK ranges".
Definition ErrInvalidFirstAckRange : error :=
  ErrorString "AckFrame: ACK frame has invalid first ACK range".
Definition errInconsistentAckLargestAcked : error :=
  ErrorString "internal inconsistency: LargestAcked does not match ACK ranges".
Definition errInconsistentAckLowestAcked : error :=
  ErrorString "internal inconsistency: LowestAcked does not match ACK ranges".

(** ** Validation *)

(** The second loop of [validateAckRanges]: [prev] is [f.AckRanges[i-1]]. *)
Fixpoint validOrder (prev : AckRange) (ranges : list AckRange) : bool :=
  match ranges with
  | [] => true
  | r :: rest =>
      if First prev <=? First r then false
      else if First prev <=? Last r +64 1 then false
      else validOrder r rest
  end.

Definition validateAckRanges (ranges : list AckRange) (largestAcked : Z) : bool :=
  match ranges with
  | [] => true
  | [_] => false
  | r :: rest =>
      if negb (Last r =? largestAcked) then false
      else if existsb (fun r => Last r <? First r) ranges then false
      else validOrder r rest
  end.

(** ** Block counting *)

(** The number of blocks the gap below [prev] takes. *)
Definition gapBetween (prev r : AckRange) : Z := First prev -64 Last r -64 1.

Definition blocksFor (gap : Z) : Z :=
  let num := gap `div` 0xFF +64 1 in
  if gap `mod` 0xFF =? 0 then num -64 1 else num.

Fixpoint numWritable_loop (numRanges : Z) (prev : AckRange) (ranges : list AckRange) : Z :=
  match ranges with
  | [] => numRanges
  | r :: rest =>
      let rangeLength := blocksFor (gapBetween prev r) in
      if numRanges +64 rangeLength <? 0xFF
      then numWritable_loop (numRanges +64 rangeLength) r rest
      else numRanges
  end.

Definition numWritableNackRanges (ranges : list AckRange) : Z :=
  match ranges with
  | [] => 0
  | r :: rest => numWritable_loop 0 r rest +64 1
  end.

(** ** Length of the block length field *)
Definition rangeLength (r : AckRange) : Z := Last r -64 First r +64 1.

Fixpoint maxRangeLength (acc : Z) (ranges : list AckRange) : Z :=
  match ranges with
  | [] => acc
  | r :: rest => maxRangeLength (if acc <? rangeLength r then rangeLength r else acc) rest
  end.

Definition getMissingSequenceNumberDeltaLen (ranges : list AckRange) (largest lowest : Z) : Z :=
  let max :=
    match ranges with
    | [] => largest -64 lowest +64 1
    | _ => maxRangeLength 0 ranges
    end in
  if max <=? 0xFF then PacketNumberLen1
  else if max <=? 0xFFFF then PacketNumberLen2
  else if max <=? 0xFFFFFFFF then PacketNumberLen4
  else PacketNumberLen6.

(** ** Acknowledgement test *)
Definition AcksPacket (ranges : list AckRange) (largest lowest p : Z) : bool :=
  if (p <? lowest) || (largest <? p) then false
  else match ranges with
       | [] => (lowest <=? p) && (p <=? largest)
       | _ => existsb (fun r => (First r <=? p) && (p <=? Last r)) ranges
       end.

(** ** Encoding *)
Section Encode.
(** [wl] writes a block length in the chosen number of bytes. *)
Context (wl : Z -> Writer unit).

(** The blocks of a gap of more than 255 packets: [k] are left to write. *)
Fixpoint writeLongBlocks (k : nat) (gap len : Z) : Writer unit :=
  match k with
  | O => mret tt
  | S k' =>
      let '(lengthWritten, gapWritten) :=
        match k' with
        | O => (len, u8 (1 +64 (gap -64 1) `mod` 255))
        | _ => (0, 0xFF)
        end in
      WriteByte gapWritten;; wl lengthWritten;; writeLongBlocks k' gap len
  end.

(** The loop over [f.AckRanges[1:]]; it returns [numRangesWritten]. *)
Fixpoint writeBlocks (numRanges written : Z) (prev : AckRange) (ranges : list AckRange)
    : Writer Z :=
  match ranges with
  | [] => mret written
  | r :: rest =>
      let len := Last r -64 First r +64 1 in
      let gap := First prev -64 Last r -64 1 in
      let num := blocksFor gap in
      written ← (if num =? 1
                 then WriteByte (u8 gap);; wl len;; mret (written +64 1)
                 else writeLongBlocks (Z.to_nat num) gap len;; mret (written +64 num));
      if numRanges <=? written then mret written
      else writeBlocks numRanges written r rest
  end.
End Encode.

(** [switch missingSequenceNumberDeltaLen { ... }]; the CLOSE_PATH frame does not
    mask the 48-bit value. *)
Definition writeBlockLength (mask : bool) (version len v : Z) : Writer unit :=
  match len with
  | 1 => WriteByte (u8 v)
  | 2 => WriteUint16 (GetByteOrder version) (u16 v)
  | 4 => WriteUint32 (GetByteOrder version) (u32 v)
  | 6 => WriteUint48 (GetByteOrder version) (if mask then Z.land v (2 ^ 48 - 1) else v)
  | _ => mret tt
  end.

(** From [firstAckBlockLength] to the consistency check of the block count. *)
Definition encodeAcked (wl : Z -> Writer unit) (inconsistent : error)
    (ranges : list AckRange) (largest lowest numRanges : Z) : Writer unit :=
  numRangesWritten ←
    match ranges with
    | [] => wl (largest -64 lowest +64 1);; mret 0
    | r :: rest =>
        if negb (largest =? Last r) then werror errInconsistentAckLargestAcked
        else if negb (lowest =? First (default r (last ranges)))
        then werror errInconsistentAckLowestAcked
        else
          wl (largest -64 First r +64 1);;
          writeBlocks wl numRanges 1 r rest
    end;
  if negb (numRanges =? numRangesWritten) then werror inconsistent else mret tt.

(** ** Decoding *)

(** [frame.AckRanges[len(frame.AckRanges)-1]] *)
Definition lastRange (ranges : list AckRange) : Parser AckRange := fun bs =>
  match last ranges with
  | Some r => Ret (r, bs)
  | None => Panic "index out of range"
  end.

Definition setLast (ranges : list AckRange) (r : AckRange) : list AckRange :=
  removelast ranges ++ [r].

Definition decodeBlock (ranges : list AckRange) (inLongBlock complete : bool) (gap len : Z)
    : Parser (list AckRange * bool) :=
  l ← lastRange ranges;
  let '(ranges, complete) :=
    if inLongBlock
    then (setLast ranges (mkAckRange (First l -64 (gap +64 len)) (Last l -64 gap)), complete)
    else
      let last := First l -64 gap -64 1 in
      (ranges ++ [mkAckRange (last -64 len +64 1) last], false) in
  mret (ranges, if 0 <? len then true else complete).

(** The loop [for i := uint8(0); i < numAckBlocks; i++]. *)
Fixpoint decodeBlocks (version deltaLen : Z) (n : nat) (ranges : list AckRange)
    (inLongBlock complete : bool) : Parser (list AckRange * bool) :=
  match n with
  | O => mret (ranges, complete)
  | S n' =>
      gap ← ReadByte;
      ackBlockLength ← ReadUintN (GetByteOrder version) deltaLen;
      st ← decodeBlock ranges inLongBlock complete gap ackBlockLength;
      decodeBlocks version deltaLen n' st.1 (ackBlockLength =? 0) st.2
  end.

(** From the first block on: the ranges and [frame.LowestAcked]. *)
Definition decodeRanges (version deltaLen numAckBlocks largestAcked ackBlockLength : Z)
    : Parser (list AckRange * Z) :=
  st ← decodeBlocks version deltaLen (Z.to_nat numAckBlocks)
         [mkAckRange (largestAcked -64 ackBlockLength +64 1) largestAcked] false false;
  let ranges := if negb st.2 then removelast st.1 else st.1 in
  l ← lastRange ranges;
  mret (ranges, First l).

(** From the first block length to the validation of the ranges: the ranges and
    [frame.LowestAcked]. *)
Definition decodeAcked (version deltaLen : Z) (hasMissingRanges : bool)
    (numAckBlocks largestAcked : Z) : Parser (list AckRange * Z) :=
  ackBlockLength ← ReadUintN (GetByteOrder version) deltaLen;
  if (0 <? largestAcked) && (ackBlockLength <? 1) then fail ErrInvalidFirstAckRange
  else if largestAcked <? ackBlockLength then fail ErrInvalidAckRanges
  else
    st ← (if hasMissingRanges
          then decodeRanges version deltaLen numAckBlocks largestAcked ackBlockLength
          else mret ([], if largestAcked =? 0 then 0 else largestAcked +64 1 -64 ackBlockLength));
    if negb (validateAckRanges st.1 largestAcked) then fail ErrInvalidAckRanges else mret st.

(** ** Specification of ranges *)

(** The ranges descend below [bound], each non-empty, none adjacent to the one
    before. *)
Fixpoint descending (bound : Z) (ranges : list AckRange) : Prop :=
  match ranges with
  | [] => True
  | r :: rest => 0 <= First r <= Last r /\ Last r + 1 < bound /\ descending (First r) rest
  end.

(** Ranges in the form the receiver of packets reports them: one interval, or at
    least two ranges that start with [largest] and end with [lowest]. *)
Definition wf_ranges (ranges : list AckRange) (largest lowest : Z) : Prop :=
  in_range 48 largest /\
  match ranges with
  | [] => 1 <= lowest <= largest
  | r :: rest =>
      rest <> [] /\ Last r = largest /\ First r <= Last r /\ descending (First r) rest /\
      exists l, last ranges = Some l /\ First l = lowest
  end.

(** The packets a list of ranges stands for. *)
Definition acked (ranges : list AckRange) (largest lowest p : Z) : Prop :=
  match ranges with
  | [] => lowest <= p <= largest
  | _ => exists r, r ∈ ranges /\ First r <= p <= Last r
  end.

Lemma descending_In bound ranges r :
  descending bound ranges -> r ∈ ranges -> 0 <= First r <= Last r /\ Last r + 1 < bound.
Proof.
  revert bound. induction ranges as [|r' rest IH]; intros bound Hd Hr; [set_solver|].
  destruct Hd as (Hr' & Hb & Hd). apply elem_of_cons in Hr as [->|Hr]; [lia|].
  apply (IH (First r')) in Hr; [lia|done].
Qed.

(** ** Counting blocks *)
Lemma blocksFor_spec gap :
  1 <= gap < 2 ^ 63 ->
  blocksFor gap = (gap - 1) `div` 255 + 1 /\
  gap = 255 * (blocksFor gap - 1) + (1 + (gap - 1) `mod` 255) /\ 1 <= blocksFor gap < 2 ^ 63.
Proof.
  intros Hg. unfold blocksFor.
  assert (0 <= gap `div` 255 < 2 ^ 63)
    by (split; [apply Z.div_pos; lia|apply Z.div_lt_upper_bound; lia]).
  assert (Hnum : (if gap `mod` 255 =? 0 then gap `div` 255 +64 1 -64 1 else gap `div` 255 +64 1)
                 = (gap - 1) `div` 255 + 1).
  { rewrite (uN_small 64 (_ + _)) by (unfold in_range; lia).
    rewrite uN_small by (unfold in_range; lia).
    destruct (Z.eqb_spec (gap `mod` 255) 0).
    - assert ((gap - 1) `div` 255 = gap `div` 255 - 1); [|lia].
      symmetry. apply (Z.div_unique _ _ _ 254); [lia|].
      pose proof (Z.div_mod gap 255). lia.
    - assert ((gap - 1) `div` 255 = gap `div` 255); [|lia].
      symmetry. apply (Z.div_unique _ _ _ (gap `mod` 255 - 1)).
      + pose proof (Z.mod_pos_bound gap 255). lia.
      + pose proof (Z.div_mod gap 255). lia. }
  rewrite Hnum. pose proof (Z.div_mod (gap - 1) 255).
  assert (0 <= (gap - 1) `div` 255 <= gap - 1)
    by (split; [apply Z.div_pos; lia|apply Z.div_le_upper_bound; lia]).
  lia.
Qed.

Lemma gapBetween_spec prev r :
  0 <= Last r -> Last r + 1 < First prev -> First prev < 2 ^ 63 ->
  gapBetween prev r = First prev - Last r - 1 /\ 1 <= gapBetween prev r < 2 ^ 63.
Proof. intros. unfold gapBetween. usmall. lia. Qed.

(** The prefix of the ranges that fits into one frame. *)
Fixpoint fitting (acc : Z) (prev : AckRange) (ranges : list AckRange) : list AckRange :=
  match ranges with
  | [] => []
  | r :: rest =>
      let acc' := acc + blocksFor (gapBetween prev r) in
      if acc' <? 0xFF then r :: fitting acc' r rest else []
  end.

Fixpoint totalBlocks (prev : AckRange) (ranges : list AckRange) : Z :=
  match ranges with
  | [] => 0
  | r :: rest => blocksFor (gapBetween prev r) + totalBlocks r rest
  end.

Section Counting.
Local Lemma step_blocks prev r bound rest :
  First prev < 2 ^ 48 -> descending (First prev) (r :: rest) -> bound = First prev ->
  1 <= blocksFor (gapBetween prev r) < 2 ^ 63 /\ First r < 2 ^ 48 /\ descending (First r) rest.
Proof.
  intros Hp (Hr & Hb & Hd) ->. split; [|split; [lia|done]].
  apply blocksFor_spec, gapBetween_spec; lia.
Qed.

Lemma numWritable_fitting acc prev ranges :
  0 <= acc < 0xFF -> First prev < 2 ^ 48 -> descending (First prev) ranges ->
  numWritable_loop acc prev ranges = acc + totalBlocks prev (fitting acc prev ranges) /\
  acc + totalBlocks prev (fitting acc prev ranges) < 0xFF /\
  (fitting acc prev ranges <> [] -> 0 < totalBlocks prev (fitting acc prev ranges)).
Proof.
  revert acc prev. induction ranges as [|r rest IH]; intros acc prev Hacc Hp Hd.
  - cbn. repeat split; try lia. done.
  - destruct (step_blocks prev r (First prev) rest Hp Hd eq_refl) as (Hb & Hr & Hd').
    cbn [numWritable_loop fitting].
    rewrite (uN_small 64 (acc + blocksFor (gapBetween prev r))) by (unfold in_range; lia).
    destruct (Z.ltb_spec (acc + blocksFor (gapBetween prev r)) 0xFF); cbn [totalBlocks].
    + destruct (IH (acc + blocksFor (gapBetween prev r)) r) as (-> & Hlt & Hpos); [lia|done..|].
      assert (0 <= totalBlocks r (fitting (acc + blocksFor (gapBetween prev r)) r rest)).
      { destruct (fitting _ r rest) eqn:E; [cbn; lia|]. rewrite <- E in *.
        assert (fitting (acc + blocksFor (gapBetween prev r)) r rest <> []) by congruence.
        rewrite E in *. specialize (Hpos ltac:(done)). lia. }
      split; [lia|]. split; [lia|]. lia.
    + repeat split; try lia. done.
Qed.

Lemma fitting_prefix acc prev ranges : fitting acc prev ranges `prefix_of` ranges.
Proof.
  revert acc prev. induction ranges as [|r rest IH]; intros; [done|].
  cbn [fitting]. case_match; [by apply prefix_cons|apply prefix_nil].
Qed.

Lemma descending_prefix bound xs ys :
  xs `prefix_of` ys -> descending bound ys -> descending bound xs.
Proof.
  intros [zs ->]. revert bound. induction xs as [|x xs IH]; intros bound; [done|].
  cbn. intros (? & ? & ?). auto.
Qed.
End Counting.

(** ** Decoding inverts encoding *)
Section Roundtrip.
Context (version : Z) (dl : nat) (Hdl : (dl <= 8)%nat).
Context (wl : Z -> Writer unit).
Context (Hwl : forall v, in_range (8 * Z.of_nat dl) v -> wl v = write (enc version dl v)).

Local Abbreviation decode := (decodeBlocks version (Z.of_nat dl)).

(** Close an equation of two decodings that differ in the bounds of the last range. *)
Local Ltac range_eq :=
  match goal with
  | |- decodeBlocks _ _ _ (_ ++ [mkAckRange ?a ?b]) _ _ _ =
       decodeBlocks _ _ _ (_ ++ [mkAckRange ?c ?d]) _ _ _ =>
      replace a with c by (cbv zeta in *; lia); replace b with d by (cbv zeta in *; lia); done
  end.

Lemma writeBlocks_zero_range : in_range (8 * Z.of_nat dl) 0.
Proof. unfold in_range. lia. Qed.

(** Running one block. *)
Lemma decode_step n ranges l inLong c gap len rest :
  last ranges = Some l -> in_range (8 * Z.of_nat dl) len ->
  decode (S n) ranges inLong c (gap :: enc version dl len ++ rest) =
  decode n
    (if inLong
     then setLast ranges (mkAckRange (First l -64 (gap +64 len)) (Last l -64 gap))
     else ranges ++ [mkAckRange (First l -64 gap -64 1 -64 len +64 1) (First l -64 gap -64 1)])
    (len =? 0)
    (if 0 <? len then true else if inLong then c else false) rest.
Proof.
  intros Hl Hlen. cbn [decodeBlocks]. pbyte. pstep readN.
  unfold decodeBlock. rewrite (parser_bind_ret _ _ rest (if inLong
     then setLast ranges (mkAckRange (First l -64 (gap +64 len)) (Last l -64 gap))
     else ranges ++ [mkAckRange (First l -64 gap -64 1 -64 len +64 1) (First l -64 gap -64 1)],
     if 0 <? len then true else if inLong then c else false) rest); [done|].
  erewrite parser_bind_ret; [|unfold lastRange; by rewrite Hl]. by destruct inLong.
Qed.

Lemma setLast_snoc pre (r r' : AckRange) : setLast (pre ++ [r]) r' = pre ++ [r'].
Proof. unfold setLast. by rewrite removelast_last. Qed.

Lemma writeLongBlocks_SS k gap len :
  writeLongBlocks wl (S (S k)) gap len
  = (WriteByte 0xFF;; wl 0;; writeLongBlocks wl (S k) gap len).
Proof. done. Qed.

(** The blocks that are left of a long gap, when the unfinished range ends at [x]. *)
Lemma decode_longBlocks k n pre x gap len c rest bs :
  (1 <= k)%nat -> 1 <= gap < 2 ^ 63 -> 1 <= len -> in_range (8 * Z.of_nat dl) len ->
  let g := 255 * (Z.of_nat k - 1) + (1 + (gap - 1) `mod` 255) in
  g + len <= x + 1 -> x < 2 ^ 63 ->
  writeLongBlocks wl k gap len = (bs, Ret tt) ->
  decode (k + n) (pre ++ [mkAckRange (x + 1) x]) true c (bs ++ rest) =
  decode n (pre ++ [mkAckRange (x - g - len + 1) (x - g)]) false true rest.
Proof.
  intros Hk Hgap Hlen Hlr. revert x c bs Hk.
  induction k as [|k IH]; [lia|]; intros x c bs _ g Hx Hx63 Hw; unfold g in *; clear g.
  pose proof (Z.mod_pos_bound (gap - 1) 255) as Hm.
  cbn [writeLongBlocks] in Hw. rewrite (uN_small 64 (gap - 1)) in Hw by (unfold in_range; lia).
  destruct k as [|k].
  - rewrite Hwl in Hw by done. cbn [writeLongBlocks] in Hw. usmall_in Hw.
    cbv [mbind writer_bind write WriteByte mret writer_ret] in Hw.
    cbn [app] in Hw. injection Hw as <-. rewrite app_nil_r.
    cbn [app Nat.add]. rewrite (decode_step _ _ (mkAckRange (x + 1) x)) by (done || by rewrite last_snoc).
    rewrite setLast_snoc. cbn [First Last]. usmall.
    destruct (Z.eqb_spec len 0); [lia|]. destruct (Z.ltb_spec 0 len); [|lia].
    range_eq.
  - rewrite Hwl in Hw by apply writeBlocks_zero_range.
    destruct (writeLongBlocks wl (S k) gap len) as [bs' res] eqn:E.
    cbv [mbind writer_bind write WriteByte] in Hw. injection Hw as <- ->.
    cbn [app Nat.add]. rewrite <- app_assoc, (decode_step _ _ (mkAckRange (x + 1) x))
      by (done || (by rewrite last_snoc) || apply writeBlocks_zero_range).
    rewrite setLast_snoc. cbn [First Last]. usmall.
    replace (x + 1 - (255 + 0)) with (x - 255 + 1) by lia.
    rewrite (IH (x - 255) _ bs') by (lia || done).
    range_eq.
Qed.
(** What the encoder writes for one range. *)
Definition writeRange (gap len : Z) : Writer unit :=
  if blocksFor gap =? 1 then WriteByte (u8 gap);; wl len;; mret tt
  else writeLongBlocks wl (Z.to_nat (blocksFor gap)) gap len.

Lemma writeLongBlocks_ok k gap len :
  in_range (8 * Z.of_nat dl) len ->
  exists bs, writeLongBlocks wl k gap len = (bs, Ret tt) /\ is_bytes bs /\
    length bs = (k * S dl)%nat.
Proof.
  intros Hlen. induction k as [|k (bs & IH & Hb & Hl)]; [eexists; repeat split; solve_bytes|].
  cbn [writeLongBlocks]. rewrite IH. destruct k.
  - rewrite Hwl by done. wrun. eexists; split; [done|]. split; [solve_bytes|].
    autorewrite with codec. rewrite Hl. lia.
  - rewrite Hwl by apply writeBlocks_zero_range. wrun. eexists; split; [done|].
    split; [solve_bytes|]. autorewrite with codec. rewrite Hl. lia.
Qed.

Lemma writeRange_ok gap len :
  1 <= gap < 2 ^ 63 -> in_range (8 * Z.of_nat dl) len ->
  exists bs, writeRange gap len = (bs, Ret tt) /\ is_bytes bs /\
    Z.of_nat (length bs) = blocksFor gap * Z.of_nat (S dl).
Proof.
  intros Hgap Hlen. unfold writeRange. pose proof (blocksFor_spec gap Hgap) as (_ & _ & Hb).
  destruct (Z.eqb_spec (blocksFor gap) 1) as [->|].
  - rewrite Hwl by done. wrun. eexists; split; [done|]. split; [solve_bytes|].
    autorewrite with codec. lia.
  - destruct (writeLongBlocks_ok (Z.to_nat (blocksFor gap)) gap len Hlen) as (bs & -> & ? & Hl).
    exists bs. repeat split; try done. rewrite Hl. lia.
Qed.

Lemma decode_range n pre prev r c bs rest :
  0 <= First r <= Last r -> Last r + 1 < First prev -> First prev < 2 ^ 48 ->
  in_range (8 * Z.of_nat dl) (Last r - First r + 1) ->
  writeRange (gapBetween prev r) (Last r - First r + 1) = (bs, Ret tt) ->
  decode (Z.to_nat (blocksFor (gapBetween prev r)) + n) (pre ++ [prev]) false c (bs ++ rest)
  = decode n ((pre ++ [prev]) ++ [r]) false true rest.
Proof.
  intros Hr Hp Hp48 Hlen. destruct (gapBetween_spec prev r) as [-> _]; [lia..|].
  intros Hw. set (gap := First prev - Last r - 1) in *.
  set (len := Last r - First r + 1) in *.
  assert (Hgap : 1 <= gap < 2 ^ 63) by lia.
  pose proof (blocksFor_spec gap Hgap) as (Hnum & Hsum & Hpos).
  pose proof (Z.mod_pos_bound (gap - 1) 255) as Hm.
  unfold writeRange in Hw. destruct (Z.eqb_spec (blocksFor gap) 1) as [E1|E1].
  - rewrite Hwl in Hw by done. rewrite E1 in *.
    cbv [mbind writer_bind write WriteByte mret writer_ret] in Hw. cbn [app] in Hw.
    injection Hw as <-. rewrite app_nil_r. usmall.
    change (Z.to_nat 1 + n)%nat with (S n). cbn [app].
    rewrite (decode_step _ _ prev) by (done || by rewrite last_snoc).
    rewrite u64_add_idemp. usmall.
    destruct (Z.eqb_spec len 0); [lia|]. destruct (Z.ltb_spec 0 len); [|lia].
    destruct r as [f l]; cbn [First Last] in *. range_eq.
  - destruct (Z.to_nat (blocksFor gap)) as [|[|k]] eqn:Ek; try lia.
    rewrite writeLongBlocks_SS, Hwl in Hw by apply writeBlocks_zero_range.
    destruct (writeLongBlocks wl (S k) gap len) as [bs' res] eqn:E.
    cbv [mbind writer_bind write WriteByte] in Hw. injection Hw as <- ->.
    cbn [app Nat.add]. rewrite <- app_assoc, (decode_step _ _ prev)
      by (done || (by rewrite last_snoc) || apply writeBlocks_zero_range).
    usmall. replace (First prev - 255 - 1 - 0 + 1) with ((First prev - 256) + 1) by lia.
    replace (First prev - 255 - 1) with (First prev - 256) by lia.
    change (S (k + n)) with (S k + n)%nat. cbn [Z.eqb Z.ltb Z.compare].
    rewrite (decode_longBlocks (S k) n (pre ++ [prev]) (First prev - 256) gap len _ rest bs')
      by (done || lia).
    destruct r as [f l]; cbn [First Last] in *. range_eq.
Qed.
Lemma writeBlocks_cons numRanges written prev r rest bs :
  writeRange (gapBetween prev r) (Last r -64 First r +64 1) = (bs, Ret tt) ->
  blocksFor (gapBetween prev r) < 2 ^ 63 -> 0 <= written < 2 ^ 63 ->
  1 <= blocksFor (gapBetween prev r) ->
  writeBlocks wl numRanges written prev (r :: rest) =
  (let w := written + blocksFor (gapBetween prev r) in
   if numRanges <=? w then (bs, Ret w)
   else let '(bs', res) := writeBlocks wl numRanges w r rest in (bs ++ bs', res)).
Proof.
  intros Hw Hb Hwr Hb1. cbn [writeBlocks]. fold (gapBetween prev r).
  unfold writeRange in Hw. destruct (Z.eqb_spec (blocksFor (gapBetween prev r)) 1) as [E|E].
  - rewrite E. usmall. cbv [mbind writer_bind write WriteByte mret writer_ret] in *.
    destruct (wl _) as [o [[]| |]]; cbn [app] in *; simplify_eq.
    destruct (numRanges <=? written + 1); rewrite ?app_nil_r; done.
  - rewrite Hw. usmall. cbv [mbind writer_bind mret writer_ret].
    rewrite app_nil_r. destruct (numRanges <=? _); rewrite ?app_nil_r; done.
Qed.

Lemma totalBlocks_nonneg prev ranges :
  First prev < 2 ^ 48 -> descending (First prev) ranges -> 0 <= totalBlocks prev ranges.
Proof.
  revert prev. induction ranges as [|r rest IH]; intros prev Hp Hd; [done|].
  destruct (step_blocks prev r (First prev) rest Hp Hd eq_refl) as (? & ? & ?).
  cbn [totalBlocks]. specialize (IH r ltac:(done) ltac:(done)). lia.
Qed.

Lemma blocks_roundtrip ranges acc prev pre c n rest :
  0 <= acc < 0xFF -> First prev < 2 ^ 48 -> descending (First prev) ranges ->
  (forall r, r ∈ ranges -> in_range (8 * Z.of_nat dl) (Last r - First r + 1)) ->
  ranges = [] \/ fitting acc prev ranges <> [] ->
  let fs := fitting acc prev ranges in
  let total := totalBlocks prev fs in
  exists bs, writeBlocks wl (acc + total + 1) (acc + 1) prev ranges
             = (bs, Ret (acc + total + 1)) /\ is_bytes bs /\
    Z.of_nat (length bs) = total * Z.of_nat (S dl) /\
    decode (Z.to_nat total + n) (pre ++ [prev]) false c (bs ++ rest)
    = decode n ((pre ++ [prev]) ++ fs) false (if bool_decide (fs = []) then c else true) rest.
Proof.
  revert acc prev pre c. induction ranges as [|r rs IH];
    intros acc prev pre c Hacc Hp Hd Hlens Hne fs total.
  { exists []. subst total fs. cbn. rewrite !app_nil_r. repeat split; try done.
    - by rewrite Z.add_0_r.
    - solve_bytes. }
  destruct Hne as [?|Hne]; [done|]. subst fs total.
  destruct (numWritable_fitting acc prev (r :: rs) Hacc Hp Hd) as (_ & Htot & _).
  destruct (step_blocks prev r (First prev) rs Hp Hd eq_refl) as (Hb & Hr & Hd').
  pose proof Hd as (Hr1 & Hr2 & _).
  destruct (gapBetween_spec prev r) as [Hg Hg63]; [lia..|].
  assert (Hlr : in_range (8 * Z.of_nat dl) (Last r - First r + 1)) by (apply Hlens; set_solver).
  destruct (writeRange_ok (gapBetween prev r) (Last r - First r + 1) Hg63 Hlr)
    as (bs & Hw & Hbs & Hlbs).
  assert (Hlen64 : Last r -64 First r +64 1 = Last r - First r + 1) by (by usmall).
  cbn [fitting] in *. destruct (Z.ltb_spec (acc + blocksFor (gapBetween prev r)) 0xFF); [|done].
  cbn [totalBlocks] in *. set (acc' := acc + blocksFor (gapBetween prev r)) in *.
  set (fs := fitting acc' r rs) in *.
  rewrite (writeBlocks_cons _ _ prev r rs bs) by (rewrite ?Hlen64; done || lia). cbv zeta.
  assert (Hnn : 0 <= totalBlocks r fs)
    by (apply totalBlocks_nonneg; [done|]; eapply descending_prefix; [apply fitting_prefix|done]).
  assert (Hacc' : 0 <= acc' < 0xFF) by lia.
  destruct (numWritable_fitting acc' r rs) as (_ & _ & Hpos); [done..|]. fold fs in Hpos.
  rewrite bool_decide_eq_false_2 by done.
  rewrite Z2Nat.inj_add, <- Nat.add_assoc by lia.
  destruct (decide (fs = [])) as [Hfs|Hfs].
  - exists bs. rewrite Hfs in *. cbn [totalBlocks] in *.
    destruct (Z.leb_spec (acc + (blocksFor (gapBetween prev r) + 0) + 1)
                (acc + 1 + blocksFor (gapBetween prev r))); [|lia].
    repeat split; [do 2 f_equal; lia|done|lia|].
    by rewrite (decode_range _ pre prev r c bs) by (done || lia).
  - destruct (Z.leb_spec (acc + (blocksFor (gapBetween prev r) + totalBlocks r fs) + 1)
                (acc + 1 + blocksFor (gapBetween prev r))); [specialize (Hpos Hfs); lia|].
    destruct (IH acc' r (pre ++ [prev]) true) as (bs' & Hw' & Hb' & Hl' & Hdec);
      [done..|set_solver|by right|].
    fold fs in Hw', Hl', Hdec.
    replace (acc + (blocksFor (gapBetween prev r) + totalBlocks r fs) + 1)
      with (acc' + totalBlocks r fs + 1) by lia.
    replace (acc + 1 + blocksFor (gapBetween prev r)) with (acc' + 1) by lia.
    rewrite Hw'. exists (bs ++ bs'). repeat split; [solve_bytes|rewrite length_app; lia|].
    rewrite <- app_assoc, (decode_range _ pre prev r c bs), Hdec by (done || lia).
    rewrite bool_decide_eq_false_2 by done. by rewrite <- !app_assoc.
Qed.
End Roundtrip.

(** ** Decoding arbitrary bytes *)

(** A range as the decoder builds it: [len] packets up to [Last], computed
    modulo 2^64. *)
Definition built (r : AckRange) : Prop :=
  is_u64 (Last r) /\
  exists len, in_range 48 len /\ First r = u64 (Last r - len + 1) /\
    (len = 0 -> in_range 48 (Last r)).

(** The loop invariant of [decodeBlocks]: every range but a last unfinished one
    is [built]; an unfinished one is empty. *)
Definition decoding (ranges : list AckRange) (inLong complete : bool) : Prop :=
  exists pre l, ranges = pre ++ [l] /\ Forall built pre /\
    (if inLong then pre <> [] /\ complete = false /\ is_u64 (Last l) /\ First l = u64 (Last l + 1)
     else built l).

Lemma decodeBlock_inv ranges inLong c gap len :
  decoding ranges inLong c -> is_u8 gap -> in_range 48 len ->
  psafe (decodeBlock ranges inLong c gap len)
    (fun st => decoding st.1 (len =? 0) st.2 /\ (st.2 = negb (len =? 0))).
Proof.
  intros (pre & l & -> & Hpre & Hl) Hgap Hlen bs Hbs.
  unfold decodeBlock. erewrite parser_bind_ret; [|unfold lastRange; by rewrite last_snoc].
  unfold in_range in *.
  assert (Hpos : (0 <? len) = negb (len =? 0)) by lia.
  destruct inLong; cbn [mret parser_ret].
  - destruct Hl as (Hne & -> & Hlu & Hlf). rewrite setLast_snoc, Hpos.
    cbn -[uN]. repeat split; try done; [|by destruct (len =? 0)].
    exists pre, (mkAckRange (First l -64 (gap +64 len)) (Last l -64 gap)).
    repeat split; try done. cbn [First Last]. rewrite Hlf.
    assert (Heq : u64 (Last l + 1) -64 (gap +64 len) = u64 (u64 (Last l - gap) - len + 1)).
    { unfold uN. rewrite Zminus_mod_idemp_l, Zminus_mod_idemp_r.
      rewrite <- (Z.add_mod_idemp_l (_ - len)), Zminus_mod_idemp_l, Z.add_mod_idemp_l by lia.
      f_equal. lia. }
    rewrite Heq. destruct (Z.eqb_spec len 0) as [->|Hn]; cbn [negb].
    + repeat split; [done|apply u64_range..|]. f_equal. lia.
    + split; [apply u64_range|]. exists len. unfold in_range. repeat split; try lia.
  - rewrite Hpos. cbn -[uN].
    repeat split; try done; [|by destruct (len =? 0)].
    exists (pre ++ [l]), (mkAckRange (First l -64 gap -64 1 -64 len +64 1) (First l -64 gap -64 1)).
    repeat split; [apply Forall_app; split; [done|by constructor]|]. cbn [First Last].
    rewrite u64_add_idemp.
    destruct (Z.eqb_spec len 0) as [->|Hn]; cbn [negb].
    + repeat split; [by destruct pre|apply u64_range..|]. f_equal. lia.
    + split; [apply u64_range|]. exists len. unfold in_range. repeat split; try lia.
Qed.

Lemma decodeBlocks_inv version dl n ranges inLong c :
  0 <= dl <= 6 -> decoding ranges inLong c -> c = negb inLong \/ (0 < n)%nat ->
  psafe (decodeBlocks version dl n ranges inLong c)
    (fun st => decoding st.1 (negb st.2) st.2).
Proof.
  intros Hdl. revert ranges inLong c. induction n as [|n IH]; intros ranges inLong c Hinv Hc.
  - apply psafe_ret. destruct Hc as [-> |]; [|lia]. cbn. by rewrite negb_involutive.
  - cbn [decodeBlocks].
    eapply psafe_bind; [apply psafe_ReadByte|]. intros gap Hgap.
    eapply psafe_bind; [apply psafe_ReadUintN; lia|]. intros len Hlen.
    assert (in_range 48 len).
    { unfold in_range in *. assert (2 ^ (8 * dl) <= 2 ^ 48) by (apply Z.pow_le_mono_r; lia). lia. }
    eapply psafe_bind; [by apply decodeBlock_inv|].
    intros [rs c'] [Hinv' Hc']. cbn [fst snd] in *. subst c'. apply IH; [done|by left].
Qed.

Lemma lastRange_snoc pre l : psafe (lastRange (pre ++ [l])) (fun r => r = l).
Proof. intros bs Hbs. unfold lastRange. rewrite last_snoc. by repeat split. Qed.

(** The ranges the decoder hands to [validateAckRanges]. *)
Lemma decodeRanges_inv version dl numBlocks largest first :
  0 <= dl <= 6 -> 1 <= numBlocks -> in_range 48 largest -> 0 <= first <= largest ->
  psafe (decodeRanges version dl numBlocks largest first)
    (fun st => exists pre l, st.1 = pre ++ [l] /\ st.2 = First l /\ Forall built st.1).
Proof.
  intros Hdl Hn Hl Hf. unfold decodeRanges. unfold in_range in Hl.
  eapply psafe_bind.
  { apply decodeBlocks_inv; [done| |right; lia].
    exists [], (mkAckRange (largest -64 first +64 1) largest).
    split; [done|]. split; [constructor|]. split; cbn [First Last]; [unfold in_range; lia|].
    exists first. unfold in_range. rewrite u64_add_idemp. repeat split; lia. }
  intros [rs c] (pre & l & Hrs & Hpre & Hlast). cbn [fst snd] in *. subst rs.
  destruct c; cbn [negb] in *.
  - eapply psafe_bind; [apply lastRange_snoc|]. intros r ->. apply psafe_ret.
    exists pre, l. repeat split; try done. apply Forall_app. split; [done|by constructor].
  - destruct Hlast as (Hne & _). rewrite removelast_last.
    destruct (exists_last Hne) as (pre' & l' & ->).
    eapply psafe_bind; [apply lastRange_snoc|]. intros r ->. apply psafe_ret.
    by exists pre', l'.
Qed.

(** ** Validation *)
Lemma built_nonempty r :
  built r -> First r <= Last r -> 0 <= First r /\ Last r - First r < 2 ^ 48.
Proof.
  unfold built, in_range. intros (Hl & len & Hlen & Hf & Hz) Hle. rewrite Hf in *. unfold uN in *.
  destruct (Z.eq_dec len 0) as [->|].
  - specialize (Hz eq_refl). rewrite Z.mod_small in Hle by lia. lia.
  - destruct (Z.le_gt_cases 0 (Last r - len + 1)).
    + rewrite Z.mod_small in * by lia. lia.
    + rewrite <- (Z.mod_add _ 1), Z.mod_small in Hle by lia. lia.
Qed.

Lemma validOrder_descending prev ranges :
  in_range 48 (First prev) -> Forall built ranges ->
  existsb (fun r => Last r <? First r) ranges = false ->
  validOrder prev ranges = true -> descending (First prev) ranges.
Proof.
  revert prev. induction ranges as [|r rest IH]; intros prev Hp Hb Hex Hv; [done|].
  apply Forall_cons in Hb as [Hr Hb]. cbn in Hex. apply orb_false_iff in Hex as [Hle Hex].
  cbn [validOrder] in Hv.
  destruct (Z.leb_spec (First prev) (First r)); [done|].
  destruct (Z.leb_spec (First prev) (Last r +64 1)) as [|Hord]; [done|].
  destruct (built_nonempty r Hr) as [Hr0 Hr48]; [lia|].
  unfold in_range in *. destruct Hr as [Hlu _]. unfold in_range in Hlu.
  assert (Hlast : Last r + 1 < 2 ^ 64) by lia.
  rewrite uN_small in Hord by (unfold in_range; lia).
  cbn. repeat split; try lia. apply IH; try done; unfold in_range; lia.
Qed.

(** What the decoder accepts is in the form the encoder expects. *)
Lemma validated_wf ranges largest pre l :
  Forall built ranges -> in_range 48 largest -> ranges = pre ++ [l] ->
  validateAckRanges ranges largest = true -> wf_ranges ranges largest (First l).
Proof.
  intros Hb Hlg Hpre Hv. split; [done|]. destruct ranges as [|r rest]; [by destruct pre|].
  cbn [validateAckRanges] in Hv. destruct rest as [|r' rest]; [done|].
  destruct (Z.eqb_spec (Last r) largest) as [Hlast|]; [|done]. cbn [negb] in Hv.
  destruct (existsb _ _) eqn:Hex; [done|]. cbn [existsb] in Hex.
  apply orb_false_iff in Hex as [Hle Hex].
  apply Forall_cons in Hb as [Hr Hb]. destruct (built_nonempty r Hr) as [Hr0 Hr48]; [lia|].
  split; [done|]. split; [done|]. split; [lia|]. split.
  - apply validOrder_descending; try done. unfold in_range in *. lia.
  - exists l. by rewrite Hpre, last_snoc.
Qed.

Lemma descending_validOrder prev ranges :
  First prev < 2 ^ 48 -> descending (First prev) ranges -> validOrder prev ranges = true.
Proof.
  revert prev. induction ranges as [|r rest IH]; intros prev Hp Hd; [done|].
  destruct Hd as (Hr & Hb & Hd). cbn [validOrder].
  destruct (Z.leb_spec (First prev) (First r)); [lia|]. usmall.
  destruct (Z.leb_spec (First prev) (Last r + 1)); [lia|]. apply IH; [lia|done].
Qed.

Lemma wf_validated ranges largest lowest :
  wf_ranges ranges largest lowest -> validateAckRanges ranges largest = true.
Proof.
  intros [Hlg Hwf]. destruct ranges as [|r [|r' rest]]; [done|naive_solver|].
  destruct Hwf as (_ & Hlast & Hle & Hd & _). unfold validateAckRanges.
  rewrite Hlast, Z.eqb_refl. cbn [negb]. unfold in_range in Hlg.
  rewrite existsb_false.
  - apply descending_validOrder; [lia|done].
  - intros x [->|Hx]%elem_of_cons; [lia|]. pose proof (descending_In _ _ _ Hd Hx). lia.
Qed.

(** ** The acknowledgement test *)
Lemma wf_descending ranges largest lowest :
  wf_ranges ranges largest lowest -> descending (largest + 2) ranges.
Proof.
  intros [Hlg Hwf]. destruct ranges as [|r [|r' rest]]; [done|naive_solver|].
  destruct Hwf as (_ & <- & Hle & Hd & _). pose proof Hd as (Hr' & ? & _).
  cbn in *. repeat split; try lia; naive_solver.
Qed.

Lemma descending_last bound ranges r l :
  descending bound ranges -> r ∈ ranges -> last ranges = Some l -> First l <= First r.
Proof.
  intros Hd Hr Hl. revert bound Hd. induction ranges as [|a rs IH]; intros bound Hd; [set_solver|].
  destruct Hd as (Ha & Hb & Hd). rewrite last_cons in Hl.
  destruct (last rs) as [l'|] eqn:El; simplify_eq.
  - apply elem_of_cons in Hr as [->|Hr]; [|by apply (IH Hr eq_refl (First a))].
    assert (Hin : l ∈ rs) by (apply last_Some in El as [? ->]; set_solver).
    pose proof (descending_In _ _ _ Hd Hin). lia.
  - apply last_None in El as ->. set_solver by lia.
Qed.

Lemma wf_bounds ranges largest lowest r :
  wf_ranges ranges largest lowest -> r ∈ ranges -> lowest <= First r /\ Last r <= largest.
Proof.
  intros Hwf Hr. pose proof (wf_descending _ _ _ Hwf) as Hd.
  pose proof (descending_In _ _ _ Hd Hr).
  destruct Hwf as [_ Hwf]. destruct ranges as [|r0 rest]; [set_solver|].
  destruct Hwf as (_ & _ & _ & _ & l & Hl & <-).
  pose proof (descending_last _ _ _ _ Hd Hr Hl). lia.
Qed.

Lemma AcksPacket_acked ranges largest lowest p :
  wf_ranges ranges largest lowest ->
  AcksPacket ranges largest lowest p = true <-> acked ranges largest lowest p.
Proof.
  intros Hwf. unfold AcksPacket, acked.
  destruct ((p <? lowest) || (largest <? p)) eqn:Hout.
  - split; [done|]. intros Ha. exfalso. destruct ranges as [|r rest]; [lia|].
    destruct Ha as (r' & Hr' & Hp). pose proof (wf_bounds _ _ _ _ Hwf Hr'). lia.
  - destruct ranges as [|r rest]; [lia|]. rewrite existsb_elem. split; intros (r' & ? & ?);
    exists r'; (split; [done|lia]).
Qed.

(** ** The block section as a whole *)

(** The ranges that fit into a frame, and the lowest packet they acknowledge. *)
Definition reported (ranges : list AckRange) : list AckRange :=
  match ranges with
  | [] => []
  | r :: rest => r :: fitting 0 r rest
  end.

Definition lowestOf (ranges : list AckRange) (lowest : Z) : Z :=
  match last ranges with
  | Some l => First l
  | None => lowest
  end.

(** The gap below the highest range leaves room for a second range. *)
Definition first_gap_fits (ranges : list AckRange) : Prop :=
  match ranges with
  | r :: r' :: _ => First r - Last r' - 1 <= 254 * 255
  | _ => True
  end.

Lemma rangeLength_spec ranges largest lowest r :
  wf_ranges ranges largest lowest -> r ∈ ranges ->
  rangeLength r = Last r - First r + 1 /\ 1 <= Last r - First r + 1 < 2 ^ 48.
Proof.
  intros [Hlg Hwf] Hr. unfold rangeLength, in_range in *.
  destruct ranges as [|r0 [|r1 rest]]; [set_solver|naive_solver|].
  destruct Hwf as (_ & Hl & Hle & Hd & _). pose proof Hd as (Hr1 & Hb & _).
  apply elem_of_cons in Hr as [->|Hr].
  - usmall. lia.
  - pose proof (descending_In _ _ _ Hd Hr). usmall. lia.
Qed.

Lemma maxRangeLength_ge acc ranges :
  acc <= maxRangeLength acc ranges /\
  forall r, r ∈ ranges -> rangeLength r <= maxRangeLength acc ranges.
Proof.
  revert acc. induction ranges as [|r rest IH]; intros acc; cbn [maxRangeLength]; [set_solver by lia|].
  destruct (IH (if acc <? rangeLength r then rangeLength r else acc)) as [Hacc Hrest].
  destruct (Z.ltb_spec acc (rangeLength r)); split; try lia;
    intros r' [->|Hr']%elem_of_cons; (lia || by apply Hrest).
Qed.

(** The chosen length field holds every length of the frame. *)
Lemma deltaLen_spec ranges largest lowest :
  wf_ranges ranges largest lowest ->
  let dl := getMissingSequenceNumberDeltaLen ranges largest lowest in
  valid_len dl /\
  match ranges with
  | [] => in_range (8 * dl) (largest - lowest + 1)
  | _ => forall r, r ∈ ranges -> in_range (8 * dl) (Last r - First r + 1)
  end.
Proof.
  intros Hwf. unfold getMissingSequenceNumberDeltaLen.
  set (max := match ranges with [] => _ | _ => _ end).
  assert (Hmax : match ranges with
    | [] => max = largest - lowest + 1 /\ 1 <= max < 2 ^ 48
    | _ => forall r, r ∈ ranges -> 1 <= Last r - First r + 1 < 2 ^ 48 /\ Last r - First r + 1 <= max
    end).
  { subst max. destruct ranges as [|r0 rest].
    - destruct Hwf as [Hlg Hwf]. unfold in_range in *. usmall. lia.
    - intros r Hr. destruct (rangeLength_spec _ _ _ _ Hwf Hr) as [He Hb].
      destruct (maxRangeLength_ge 0 (r0 :: rest)) as [_ Hge]. specialize (Hge r Hr). lia. }
  clearbody max. unfold in_range, valid_len, PacketNumberLen1, PacketNumberLen2,
    PacketNumberLen4, PacketNumberLen6.
  destruct (Z.leb_spec max 0xFF); [|destruct (Z.leb_spec max 0xFFFF);
    [|destruct (Z.leb_spec max 0xFFFFFFFF)]]; cbv zeta; (split; [by auto|]);
    destruct ranges; try (intros r Hr; specialize (Hmax r Hr)); cbn [Z.mul Pos.mul]; lia.
Qed.

Lemma writeBlockLength_spec mask version len v :
  valid_len len -> in_range (8 * len) v ->
  writeBlockLength mask version len v = write (enc version (Z.to_nat len) v).
Proof.
  intros Hl Hv. rewrite <- (writeLen_spec version len v (mret tt)) by done.
  unfold writeBlockLength. destruct mask; [done|].
  destruct Hl as [-> | [-> | [-> | ->]]]; try done.
  cbn -[Z.land Z.sub]. change (2 ^ 48 - 1) with (Z.ones 48).
  by rewrite Z.land_ones, Z.mod_small by (done || apply Hv).
Qed.

Lemma first_gap_fitting r r' rest :
  First r < 2 ^ 48 -> descending (First r) (r' :: rest) ->
  first_gap_fits (r :: r' :: rest) <-> fitting 0 r (r' :: rest) <> [].
Proof.
  unfold first_gap_fits.
  intros Hr (Hr' & Hb & _). destruct (gapBetween_spec r r') as [Hg Hg63]; [lia..|].
  destruct (blocksFor_spec _ Hg63) as (Hn & _ & Hpos). rewrite Hg in *. cbn [fitting].
  rewrite Hg, Hn in *. destruct (Z.ltb_spec (0 + ((First r - Last r' - 1 - 1) `div` 255 + 1)) 0xFF)
    as [Hlt|Hge].
  - split; [done|]. intros _.
    assert ((First r - Last r' - 1 - 1) `div` 255 < 254) by lia.
    pose proof (Z.div_mod (First r - Last r' - 1 - 1) 255).
    pose proof (Z.mod_pos_bound (First r - Last r' - 1 - 1) 255). lia.
  - split; [|done]. intros Hle.
    assert ((First r - Last r' - 1 - 1) `div` 255 < 254) by (apply Z.div_lt_upper_bound; lia). lia.
Qed.

(** The reported prefix is itself a well-formed list of ranges. *)
Lemma reported_wf ranges largest lowest :
  wf_ranges ranges largest lowest -> first_gap_fits ranges ->
  wf_ranges (reported ranges) largest (lowestOf (reported ranges) lowest).
Proof.
  intros [Hlg Hwf] Hfit. split; [done|]. destruct ranges as [|r [|r' rest]]; [done|naive_solver|].
  destruct Hwf as (_ & Hl & Hle & Hd & _). unfold in_range in Hlg.
  apply first_gap_fitting in Hfit; [|lia|done].
  unfold reported, lowestOf. repeat split; try done.
  - eapply descending_prefix; [apply fitting_prefix|done].
  - destruct (fitting 0 r (r' :: rest)) as [|f fs] eqn:E; [done|].
    destruct (last (r :: f :: fs)) as [l|] eqn:El; [by exists l|].
    by apply last_None in El.
Qed.

(** ** Round trip of the block section *)
Lemma decodeRanges_run version dl n largest first bs rs rest l lowest :
  decodeBlocks version dl (Z.to_nat n) [mkAckRange (largest -64 first +64 1) largest]
    false false bs = Ret ((rs, true), rest) ->
  last rs = Some l -> lowest = First l ->
  decodeRanges version dl n largest first bs = Ret ((rs, lowest), rest).
Proof.
  intros Hdec Hl ->. unfold decodeRanges. erewrite parser_bind_ret by exact Hdec.
  cbn [fst snd negb]. erewrite parser_bind_ret; [done|]. unfold lastRange. by rewrite Hl.
Qed.

Section BlockSection.
Context (mask : bool) (version : Z) (inconsistent : error).
Context (ranges : list AckRange) (largest lowest : Z).
Hypothesis Hwf : wf_ranges ranges largest lowest.

Let dl := getMissingSequenceNumberDeltaLen ranges largest lowest.
Let wl := writeBlockLength mask version dl.

Lemma section_dl : dl = Z.of_nat (Z.to_nat dl) /\ (Z.to_nat dl <= 8)%nat /\ 1 <= dl <= 6.
Proof. apply valid_len_nat. by apply (deltaLen_spec ranges largest lowest). Qed.

Lemma section_wl v :
  in_range (8 * Z.of_nat (Z.to_nat dl)) v -> wl v = write (enc version (Z.to_nat dl) v).
Proof.
  destruct section_dl as [<- _]. intros. apply writeBlockLength_spec; [|done].
  by apply (deltaLen_spec ranges largest lowest).
Qed.

Lemma encode_single :
  ranges = [] ->
  exists bs, encodeAcked wl inconsistent ranges largest lowest 0 = (bs, Ret tt) /\
    is_bytes bs /\ Z.of_nat (length bs) = dl /\
    forall rest, decodeAcked version dl false 0 largest (bs ++ rest) = Ret (([], lowest), rest).
Proof.
  intros Hr. destruct (deltaLen_spec _ _ _ Hwf) as [_ Hlen]. fold dl in Hlen.
  destruct section_dl as (Hn & Hn8 & Hdl). pose proof Hwf as Hwf'.
  rewrite Hr in Hwf', Hlen. destruct Hwf' as [Hlg Hlo].
  unfold in_range in Hlg. rewrite Hr. unfold encodeAcked. usmall.
  rewrite section_wl by (by rewrite <- Hn). wrun. eexists; split; [done|].
  split; [solve_bytes|]. split; [autorewrite with codec; lia|].
  intros rest. unfold decodeAcked. pstep readN. cbn [app].
  destruct (Z.ltb_spec 0 largest); [|lia]. destruct (Z.ltb_spec (largest - lowest + 1) 1); [lia|].
  destruct (Z.ltb_spec largest (largest - lowest + 1)); [lia|]. cbn [andb].
  destruct (Z.eqb_spec largest 0); [lia|]. usmall.
  replace (largest + 1 - (largest - lowest + 1)) with lowest by lia. done.
Qed.

(** The first range: its length is written before the blocks. *)
Lemma encode_ranges r rest0 :
  ranges = r :: rest0 ->
  exists bs0, is_bytes bs0 /\ Z.of_nat (length bs0) = dl /\
    (forall numRanges, encodeAcked wl inconsistent ranges largest lowest numRanges =
      let '(bs, res) := writeBlocks wl numRanges 1 r rest0 in
      (bs0 ++ bs, match res with
                  | Ret w => if negb (numRanges =? w) then Err inconsistent else Ret tt
                  | Err e => Err e
                  | Panic s => Panic s
                  end)) /\
    (forall numBlocks rest, decodeAcked version dl true numBlocks largest (bs0 ++ rest) =
      (st ← decodeRanges version dl numBlocks largest (largest - First r + 1);
       if negb (validateAckRanges st.1 largest) then fail ErrInvalidAckRanges else mret st) rest).
Proof.
  intros Hr. destruct (deltaLen_spec _ _ _ Hwf) as [_ Hlen]. fold dl in Hlen.
  destruct section_dl as (Hn & Hn8 & Hdl). pose proof Hwf as Hwf'.
  rewrite Hr in Hwf', Hlen. specialize (Hlen r ltac:(set_solver)).
  assert (First r <= largest /\ 1 <= First r) as Hr1.
  { destruct Hwf' as (_ & Hne & <- & Hle & Hd & _). destruct rest0 as [|r1 rest0]; [done|].
    destruct Hd as (? & ? & _). lia. }
  destruct Hwf' as (Hlg & _ & Hlast & _ & _ & l & Hl & Hlo). unfold in_range in Hlg.
  rewrite Hlast in Hlen. exists (enc version (Z.to_nat dl) (largest - First r + 1)).
  split; [apply enc_is_bytes|]. split; [rewrite length_enc; lia|]. split.
  - intros numRanges. rewrite Hr. unfold encodeAcked. rewrite Hl. cbn [from_option id].
    rewrite Hlast, Hlo, !Z.eqb_refl. cbn [negb]. usmall. rewrite section_wl by (by rewrite <- Hn).
    cbv [mbind writer_bind write mret writer_ret werror].
    destruct (writeBlocks wl numRanges 1 r rest0) as [bs [w| |]]; [|done..].
    destruct (negb _); by rewrite app_nil_r.
  - intros numBlocks rest. unfold decodeAcked. pstep readN.
    destruct (Z.ltb_spec (largest - First r + 1) 1); [lia|].
    destruct (Z.ltb_spec largest (largest - First r + 1)); [lia|]. by rewrite andb_false_r.
Qed.

Lemma encode_blocks r rest0 :
  ranges = r :: rest0 -> first_gap_fits ranges ->
  let n := numWritableNackRanges ranges in
  2 <= n <= 0xFF /\
  exists bs, encodeAcked wl inconsistent ranges largest lowest n = (bs, Ret tt) /\
    is_bytes bs /\ Z.of_nat (length bs) = dl + (n - 1) * (1 + dl) /\
    forall rest, decodeAcked version dl true (n - 1) largest (bs ++ rest)
      = Ret ((reported ranges, lowestOf (reported ranges) lowest), rest).
Proof.
  intros Hr Hfit n. destruct (encode_ranges r rest0 Hr) as (bs0 & Hb0 & Hl0 & Henc & Hdec).
  destruct section_dl as (Hn & Hn8 & Hdl). destruct (deltaLen_spec _ _ _ Hwf) as [_ Hlen].
  pose proof (reported_wf _ _ _ Hwf Hfit) as Hrep. fold dl in Hlen. pose proof Hwf as Hwf'.
  rewrite Hr in Hwf', Hlen, Hfit, Hrep |- *.
  destruct Hwf' as (Hlg & Hne & Hlast & Hle & Hd & _). unfold in_range in Hlg.
  destruct rest0 as [|r' rest0]; [done|]. apply first_gap_fitting in Hfit; [|lia|done].
  destruct (numWritable_fitting 0 r (r' :: rest0)) as (Hnum & Htot & Hpos); [lia..|done|].
  specialize (Hpos Hfit). set (total := totalBlocks r (fitting 0 r (r' :: rest0))) in *.
  assert (Hnt : n = total + 1).
  { unfold n. rewrite Hr. cbn [numWritableNackRanges]. rewrite Hnum. usmall. lia. }
  split; [lia|].
  destruct (blocks_roundtrip version (Z.to_nat dl) Hn8 wl section_wl (r' :: rest0) 0 r [] false 0)
    with (rest := @nil Z) as (bs & Hw & Hb & Hl & _);
    [lia..|done|rewrite <- Hn; set_solver|by right|]. fold total in Hw, Hl.
  rewrite Hr in Henc. specialize (Henc n). rewrite Hnt in Henc |- *. rewrite !Z.add_0_l in Hw.
  rewrite Hw, Z.eqb_refl in Henc. exists (bs0 ++ bs). split; [done|]. split; [solve_bytes|].
  split; [rewrite length_app; lia|]. intros rest. rewrite <- app_assoc, Hdec.
  pose proof Hrep as (_ & _ & _ & _ & _ & l & Hl' & _). pose proof Hd as (Hr' & Hrr' & _).
  erewrite parser_bind_ret; [|eapply decodeRanges_run with (rs := reported (r :: r' :: rest0))].
  - cbn [fst]. by rewrite (wf_validated _ _ _ Hrep).
  - destruct (blocks_roundtrip version (Z.to_nat dl) Hn8 wl section_wl (r' :: rest0) 0 r [] false 0)
      with (rest := rest) as (bs' & Hw' & _ & _ & Hdecode);
      [lia..|done|rewrite <- Hn; set_solver|by right|].
    fold total in Hw', Hdecode. rewrite !Z.add_0_l, Hw in Hw'. injection Hw' as <-.
    rewrite Nat.add_0_r, <- Hn, bool_decide_eq_false_2 in Hdecode by done.
    rewrite <- Hlast. replace (total + 1 - 1) with total by lia.
    replace (Last r -64 (Last r - First r + 1) +64 1) with (First r) by (usmall; lia).
    destruct r. apply Hdecode.
  - exact Hl'.
  - by unfold lowestOf; rewrite Hl'.
Qed.

(** A first gap of 254 * 255 packets or more: the loop writes all its blocks
    although none was counted. *)
Lemma encode_first_gap r r' rest0 :
  ranges = r :: r' :: rest0 -> ~ first_gap_fits ranges ->
  numWritableNackRanges ranges = 1 /\
  exists bs, encodeAcked wl inconsistent ranges largest lowest 1 = (bs, Err inconsistent).
Proof.
  intros Hr Hfit. destruct (encode_ranges r _ Hr) as (bs0 & _ & _ & Henc & _).
  destruct section_dl as (Hn & Hn8 & Hdl). destruct (deltaLen_spec _ _ _ Hwf) as [_ Hlen].
  fold dl in Hlen. pose proof Hwf as Hwf'. rewrite Hr in Hwf', Hlen, Hfit.
  destruct Hwf' as (Hlg & Hne & Hlast & Hle & Hd & _). unfold in_range in Hlg.
  rewrite first_gap_fitting in Hfit by (lia || done). pose proof Hd as (Hr' & Hrr' & _).
  destruct (numWritable_fitting 0 r (r' :: rest0)) as (Hnum & _ & _); [lia..|done|].
  destruct (fitting 0 r (r' :: rest0)) eqn:Ef; [|by destruct Hfit]. cbn [totalBlocks] in Hnum.
  split; [rewrite Hr; cbn [numWritableNackRanges]; by rewrite Hnum|].
  destruct (step_blocks r r' (First r) rest0) as (Hb & _); [lia|done..|].
  destruct (gapBetween_spec r r') as [_ Hg63]; [lia..|].
  destruct (writeRange_ok version (Z.to_nat dl) Hn8 wl section_wl (gapBetween r r')
    (Last r' - First r' + 1)) as (bs & Hw & _); [done|rewrite <- Hn; apply Hlen; set_solver|].
  exists (bs0 ++ bs). erewrite Henc, writeBlocks_cons with (bs := bs) (wl := wl);
    [|done || lia || (usmall; done)..].
  cbv zeta. destruct (Z.leb_spec 1 (1 + blocksFor (gapBetween r r'))); [|lia].
  destruct (Z.eqb_spec 1 (1 + blocksFor (gapBetween r r'))); [lia|done].
Qed.
End BlockSection.

(** What the decoder accepts: well-formed ranges, or the acknowledgement of
    packet 0 alone. *)
Definition accepted (ranges : list AckRange) (largest lowest : Z) : Prop :=
  wf_ranges ranges largest lowest \/ (ranges = [] /\ largest = 0 /\ lowest = 0).

Lemma psafe_decodeAcked version dl hasMissing numBlocks largest :
  0 <= dl <= 6 -> in_range 48 largest -> (hasMissing = true -> 1 <= numBlocks) ->
  psafe (decodeAcked version dl hasMissing numBlocks largest)
    (fun st => accepted st.1 largest st.2 /\ (st.1 = [] <-> hasMissing = false)).
Proof.
  intros Hdl Hlg Hn. unfold decodeAcked. pose proof Hlg as Hlg'. unfold in_range in Hlg'.
  eapply psafe_bind; [apply psafe_ReadUintN; lia|]. intros len Hlen. unfold in_range in Hlen.
  destruct ((0 <? largest) && (len <? 1)) eqn:E1; [apply psafe_fail|].
  destruct (Z.ltb_spec largest len); [apply psafe_fail|].
  destruct hasMissing.
  - eapply psafe_bind; [apply decodeRanges_inv; [done|by apply Hn|done|lia]|].
    intros [rs lo] (pre & l & Hrs & Hlo & Hb). cbn [fst snd] in *.
    destruct (validateAckRanges rs largest) eqn:Hv; [|apply psafe_fail]. apply psafe_ret.
    subst lo. split; [|by subst; destruct pre]. left. by eapply validated_wf.
  - eapply psafe_bind; [by apply (psafe_ret _ (eq ([], if largest =? 0 then 0
      else largest +64 1 -64 len)))|]. intros ? <-. apply psafe_ret. split; [|done].
    cbn [fst snd]. destruct (Z.eqb_spec largest 0) as [->|]; [by right|]. left. split; [done|].
    usmall. lia.
Qed.

Lemma AcksPacket_accepted ranges largest lowest p :
  accepted ranges largest lowest ->
  AcksPacket ranges largest lowest p = true <-> acked ranges largest lowest p.
Proof.
  intros [Hwf|(-> & -> & ->)]; [by apply AcksPacket_acked|]. unfold AcksPacket, acked.
  destruct ((p <? 0) || (0 <? p)) eqn:E; [split; [done|lia]|lia].
Qed.
