(* ===== verification/AckFrame.v ===== *)
(** * The ACK and CLOSE_PATH frames

    Models [internal/wire/ack_frame.go] and [internal/wire/close_path_frame.go] on top of
    the block section of [AckRanges.v]: the frames, [Parse...], [Write],
    [MinLength] and the acknowledgement test. *)
From S2P Require Import Prelude ByteOrder PacketNumber Frames AckRanges.

Definition InitialPathID : Z := 0.

(** ** ACK *)
Record AckFrame := mkAckFrame {
  PathID : Z;
  LargestAcked : Z;
  LowestAcked : Z;
  AckRanges : list AckRange;
  PacketReceivedTime : Z;
  DelayTime : Z
}.

Definition HasMissingRanges (ranges : list AckRange) : bool :=
  match ranges with [] => false | _ => true end.

(** [2 * bits], or 1 for no bits. *)
Definition lenOfBits (bits : Z) : Z := if 2 * bits =? 0 then 1 else 2 * bits.

Module Ack.
(** The time stamps that follow the first one. *)
Fixpoint skipTimestamps (version : Z) (n : nat) : Parser unit :=
  match n with
  | O => mret tt
  | S n' => ReadByte;; ReadUint16 (GetByteOrder version);; skipTimestamps version n'
  end.

Definition Parse (version : Z) : Parser AckFrame :=
  typeByte ← ReadByte;
  let hasMissingRanges := Z.land typeByte 0x20 =? 0x20 in
  let largestAckedLen := lenOfBits (Z.land typeByte 0x0C ≫ 2) in
  let missingSequenceNumberDeltaLen := lenOfBits (Z.land typeByte 0x03) in
  pathID ← (if Z.land typeByte 0x10 =? 0x10 then ReadByte else mret 0);
  largestAcked ← ReadUintN (GetByteOrder version) largestAckedLen;
  delay ← ReadUfloat16 (GetByteOrder version);
  numAckBlocks ← (if hasMissingRanges then ReadByte else mret 0);
  if hasMissingRanges && (numAckBlocks =? 0) then fail ErrInvalidAckRanges
  else
    st ← decodeAcked version missingSequenceNumberDeltaLen hasMissingRanges
           numAckBlocks largestAcked;
    numTimestamp ← ReadByte;
    (if 0 <? numTimestamp
     then ReadByte;; ReadUint32 (GetByteOrder version);;
          skipTimestamps version (Z.to_nat (numTimestamp - 1))
     else mret tt);;
    mret (mkAckFrame pathID largestAcked st.2 st.1 0 (i64 (delay * Microsecond))).

Definition typeByte (largestAckedLen deltaLen : Z) (missing hasPath : bool) : Z :=
  let typeByte := 0x40 in
  let typeByte :=
    if negb (largestAckedLen =? PacketNumberLen1)
    then Z.lxor typeByte (u8 (Z.shiftl (largestAckedLen `div` 2) 2)) else typeByte in
  let typeByte :=
    if negb (deltaLen =? PacketNumberLen1) then Z.lxor typeByte (deltaLen `div` 2) else typeByte in
  let typeByte := if missing then Z.lor typeByte 0x20 else typeByte in
  if hasPath then Z.lor typeByte 0x10 else typeByte.

Definition errInconsistentNumber : error :=
  ErrorString "BUG: Inconsistent number of ACK ranges written".

(** [Write] at time [now]; the frame keeps the delay it announces. *)
Definition Write (f : AckFrame) (now version : Z) : AckFrame * Writer unit :=
  let delay := TimeSub now (PacketReceivedTime f) in
  (mkAckFrame (PathID f) (LargestAcked f) (LowestAcked f) (AckRanges f) (PacketReceivedTime f) delay,
   let largestAckedLen := GetPacketNumberLength (LargestAcked f) in
   let deltaLen :=
     getMissingSequenceNumberDeltaLen (AckRanges f) (LargestAcked f) (LowestAcked f) in
   let hasPath := negb (PathID f =? InitialPathID) in
   WriteByte (typeByte largestAckedLen deltaLen (HasMissingRanges (AckRanges f)) hasPath);;
   (if hasPath then WriteByte (PathID f) else mret tt);;
   writeBlockLength true version largestAckedLen (LargestAcked f);;
   WriteUfloat16 (GetByteOrder version) (u64 (delay `quot` Microsecond));;
   numRanges ← (if HasMissingRanges (AckRanges f)
                then
                  let numRanges := numWritableNackRanges (AckRanges f) in
                  if 0xFF <? numRanges then wpanic "AckFrame: Too many ACK ranges"
                  else WriteByte (u8 (numRanges -64 1));; mret numRanges
                else mret 0);
   encodeAcked (writeBlockLength true version deltaLen) errInconsistentNumber
     (AckRanges f) (LargestAcked f) (LowestAcked f) numRanges;;
   WriteByte 0;;
   mret tt).

Definition MinLength (f : AckFrame) : outcome Z :=
  let length := 1 + 2 + 1 in
  let length := length +64 GetPacketNumberLength (LargestAcked f) in
  let deltaLen :=
    getMissingSequenceNumberDeltaLen (AckRanges f) (LargestAcked f) (LowestAcked f) in
  let length :=
    if HasMissingRanges (AckRanges f)
    then length +64 (1 + deltaLen) *64 numWritableNackRanges (AckRanges f)
    else length +64 deltaLen in
  Ret (if negb (PathID f =? InitialPathID) then length +64 1 else length).

Definition AcksPacket (f : AckFrame) (p : Z) : bool :=
  AckRanges.AcksPacket (AckRanges f) (LargestAcked f) (LowestAcked f) p.
End Ack.

(** ** CLOSE_PATH *)
Record ClosePathFrame := mkClosePathFrame {
  cp_PathID : Z;
  cp_LargestAcked : Z;
  cp_LowestAcked : Z;
  cp_AckRanges : list AckRange
}.

Module ClosePath.
Definition flags (largestAckedLen deltaLen : Z) (missing : bool) : Z :=
  let flags := 0x00 in
  let flags := if missing then Z.lor flags 0x10 else flags in
  let flags :=
    if negb (largestAckedLen =? PacketNumberLen1)
    then Z.lxor flags (u8 (Z.shiftl (largestAckedLen `div` 2) 2)) else flags in
  if negb (deltaLen =? PacketNumberLen1) then Z.lxor flags (deltaLen `div` 2) else flags.

Definition errInconsistentNumber : error :=
  ErrorString "BUG: Inconsistent number of ACK ranges written in ClosePath".

Definition Write (f : ClosePathFrame) (version : Z) : Writer unit :=
  WriteByte 0x11;;
  WriteByte (cp_PathID f);;
  let largestAckedLen := GetPacketNumberLength (cp_LargestAcked f) in
  let deltaLen :=
    getMissingSequenceNumberDeltaLen (cp_AckRanges f) (cp_LargestAcked f) (cp_LowestAcked f) in
  WriteByte (flags largestAckedLen deltaLen (HasMissingRanges (cp_AckRanges f)));;
  numRanges ← (if HasMissingRanges (cp_AckRanges f)
               then
                 let numRanges := numWritableNackRanges (cp_AckRanges f) in
                 if 0xFF <? numRanges then wpanic "ClosePathFrame: Too many ACK ranges"
                 else WriteByte (u8 (numRanges -64 1));; mret numRanges
               else mret 0);
  writeBlockLength false version largestAckedLen (cp_LargestAcked f);;
  encodeAcked (writeBlockLength false version deltaLen) errInconsistentNumber
    (cp_AckRanges f) (cp_LargestAcked f) (cp_LowestAcked f) numRanges;;
  mret tt.

Definition Parse (version : Z) : Parser ClosePathFrame :=
  ReadByte;;
  pathID ← ReadByte;
  flags ← ReadByte;
  let hasMissingRanges := Z.land flags 0x10 =? 0x10 in
  let largestAckedLen := lenOfBits (Z.land flags 0x0C ≫ 2) in
  let missingSequenceNumberDeltaLen := lenOfBits (Z.land flags 0x03) in
  numAckBlocks ← (if hasMissingRanges then ReadByte else mret 0);
  if hasMissingRanges && (numAckBlocks =? 0) then fail ErrInvalidAckRanges
  else
    largestAcked ← ReadUintN (GetByteOrder version) largestAckedLen;
    st ← decodeAcked version missingSequenceNumberDeltaLen hasMissingRanges
           numAckBlocks largestAcked;
    mret (mkClosePathFrame pathID largestAcked st.2 st.1).

Definition MinLength (f : ClosePathFrame) : outcome Z :=
  let length := 1 + 1 + 1 in
  let length := length +64 GetPacketNumberLength (cp_LargestAcked f) in
  let deltaLen :=
    getMissingSequenceNumberDeltaLen (cp_AckRanges f) (cp_LargestAcked f) (cp_LowestAcked f) in
  Ret (if HasMissingRanges (cp_AckRanges f)
       then length +64 (1 + deltaLen) *64 numWritableNackRanges (cp_AckRanges f)
       else length +64 deltaLen).

Definition AcksPacket (f : ClosePathFrame) (p : Z) : bool :=
  AckRanges.AcksPacket (cp_AckRanges f) (cp_LargestAcked f) (cp_LowestAcked f) p.
End ClosePath.

(** ** Round trips *)

(** What the two frames need of the block section. *)
Lemma section_roundtrip mask version inconsistent ranges largest lowest :
  wf_ranges ranges largest lowest -> first_gap_fits ranges ->
  let dl := getMissingSequenceNumberDeltaLen ranges largest lowest in
  let missing := HasMissingRanges ranges in
  let n := numWritableNackRanges ranges in
  (missing = true -> 2 <= n <= 0xFF) /\
  exists bs,
    encodeAcked (writeBlockLength mask version dl) inconsistent ranges largest lowest
      (if missing then n else 0) = (bs, Ret tt) /\ is_bytes bs /\
    Z.of_nat (length bs) = (if missing then dl + (n - 1) * (1 + dl) else dl) /\
    forall rest, decodeAcked version dl missing (if missing then n - 1 else 0) largest (bs ++ rest)
      = Ret ((reported ranges, lowestOf (reported ranges) lowest), rest).
Proof.
  intros Hwf Hfit. destruct ranges as [|r rest0] eqn:Hr; cbv zeta; cbn [HasMissingRanges].
  - split; [done|]. by apply (encode_single mask version inconsistent [] largest lowest Hwf).
  - destruct (encode_blocks mask version inconsistent (r :: rest0) largest lowest Hwf r rest0)
      as [Hn Hbs]; [done..|]. by split.
Qed.

Lemma Ack_typeByte_spec a b missing hasPath :
  valid_len a -> valid_len b ->
  let tb := Ack.typeByte a b missing hasPath in
  is_u8 tb /\ Z.land tb 0xC0 = 0x40 /\
  (Z.land tb 0x20 =? 0x20) = missing /\ (Z.land tb 0x10 =? 0x10) = hasPath /\
  lenOfBits (Z.land tb 0x0C ≫ 2) = a /\ lenOfBits (Z.land tb 0x03) = b.
Proof.
  intros Ha Hb. unfold valid_len in *.
  destruct_or! Ha; destruct_or! Hb; subst; destruct missing, hasPath; vm_compute; done.
Qed.

Lemma ClosePath_flags_spec a b missing :
  valid_len a -> valid_len b ->
  let fl := ClosePath.flags a b missing in
  is_u8 fl /\ (Z.land fl 0x10 =? 0x10) = missing /\
  lenOfBits (Z.land fl 0x0C ≫ 2) = a /\ lenOfBits (Z.land fl 0x03) = b.
Proof.
  intros Ha Hb. unfold valid_len in *.
  destruct_or! Ha; destruct_or! Hb; subst; destruct missing; vm_compute; done.
Qed.

Lemma largestAcked_spec mask version p :
  in_range 48 p ->
  let len := GetPacketNumberLength p in
  len = Z.of_nat (Z.to_nat len) /\ (Z.to_nat len <= 8)%nat /\ 1 <= len <= 6 /\
  in_range (8 * len) p /\
  writeBlockLength mask version len p = write (enc version (Z.to_nat len) p).
Proof.
  intros Hp len. pose proof (GetPacketNumberLength_valid p) as Hv.
  destruct (valid_len_nat _ Hv) as (? & ? & ?). pose proof (GetPacketNumberLength_fits p Hp).
  split_and!; try done; try (unfold len; lia). by apply writeBlockLength_spec.
Qed.

Lemma writeFloat_enc version v :
  WriteUfloat16 (GetByteOrder version) v = write (enc version 2 (ufloat16_word v)).
Proof. apply WriteUint16_enc. Qed.

(** A byte that is present or not. *)
Definition optByte (present : bool) (b : Z) : list Z := if present then [b] else [].

Lemma optByte_read (present : bool) b rest :
  (if present then ReadByte else mret 0 : Parser Z) (optByte present b ++ rest)
  = Ret (if present then b else 0, rest).
Proof. by destruct present. Qed.

Lemma psafe_optByte (present : bool) : psafe (if present then ReadByte else mret 0 : Parser Z) is_u8.
Proof. destruct present; [apply psafe_ReadByte|]. by apply psafe_ret. Qed.

Lemma lenOfBits_range x : 0 <= x <= 3 -> 0 <= lenOfBits x <= 6.
Proof. intros. unfold lenOfBits. destruct (Z.eqb_spec (2 * x) 0); lia. Qed.

Lemma psafe_ReadLen version x :
  0 <= x <= 3 -> psafe (ReadUintN (GetByteOrder version) (lenOfBits x)) (in_range 48).
Proof.
  intros Hx%lenOfBits_range.
  eapply psafe_weaken; [apply psafe_ReadUintN; lia|]. unfold in_range. intros v Hv.
  assert (2 ^ (8 * lenOfBits x) <= 2 ^ 48) by (apply Z.pow_le_mono_r; lia). lia.
Qed.

(** The two-bit fields of a type byte. *)
Lemma low_bits tb : 0 <= Z.land tb 0x03 <= 3.
Proof.
  change (Z.land tb 0x03) with (Z.land tb (Z.ones 2)). rewrite Z.land_ones by lia.
  pose proof (Z.mod_pos_bound tb (2 ^ 2) eq_refl) as Hb. change (2 ^ 2) with 4 in *. lia.
Qed.

Lemma mid_bits tb : 0 <= Z.land tb 0x0C ≫ 2 <= 3.
Proof. rewrite Z.shiftr_land. apply low_bits. Qed.

Lemma psafe_skipTimestamps version n : psafe (Ack.skipTimestamps version n) (fun _ => True).
Proof.
  induction n; cbn [Ack.skipTimestamps]; [by apply psafe_ret|]. by do 2 pnext ? _.
Qed.

#[local] Hint Resolve psafe_optByte psafe_ReadLen psafe_skipTimestamps low_bits mid_bits : psafe.

Lemma optByte_bytes present b : (present = true -> is_u8 b) -> is_bytes (optByte present b).
Proof. destruct present; intros; unfold is_bytes; repeat constructor; naive_solver. Qed.

Lemma writeNumRanges (missing : bool) n why :
  (missing = true -> 2 <= n <= 0xFF) ->
  (if missing
   then if 0xFF <? n then wpanic why else WriteByte (u8 (n -64 1));; mret n
   else mret 0 : Writer Z) = (optByte missing (n - 1), Ret (if missing then n else 0)).
Proof.
  intros Hn. destruct missing; [|done]. specialize (Hn eq_refl).
  destruct (Z.ltb_spec 0xFF n); [lia|]. by usmall.
Qed.

(** The microseconds of the delay as the receiver of the frame sees them. *)
Definition announcedDelay (f : AckFrame) (now : Z) : Z :=
  ufloat16_round (u64 (TimeSub now (PacketReceivedTime f) `quot` Microsecond)) * Microsecond.

Lemma ufloat16_round_i64 v : 0 <= v -> is_i64 (ufloat16_round v * Microsecond).
Proof.
  intros. unfold ufloat16_round.
  pose proof (ufloat16_value_range (ufloat16_word v) (ufloat16_word_range v H)) as Hr.
  change uFloat16MaxValue with (4095 * 2 ^ 30) in Hr. unfold is_i64, Microsecond. lia.
Qed.

(** The frame the receiver of an ACK reads. *)
Definition receivedAck (f : AckFrame) (now : Z) : AckFrame :=
  mkAckFrame (PathID f) (LargestAcked f) (lowestOf (reported (AckRanges f)) (LowestAcked f))
    (reported (AckRanges f)) 0 (announcedDelay f now).

Lemma ack_codec version now f :
  is_u8 (PathID f) -> wf_ranges (AckRanges f) (LargestAcked f) (LowestAcked f) ->
  first_gap_fits (AckRanges f) ->
  exists bs, (Ack.Write f now version).2 = (bs, Ret tt) /\ is_bytes bs /\
    Z.land (hd 0 bs) 0xc0 = 0x40 /\ Ack.MinLength f = Ret (Z.of_nat (length bs)) /\
    forall rest, Ack.Parse version (bs ++ rest) = Ret (receivedAck f now, rest).
Proof.
  intros Hpath Hwf Hfit. unfold receivedAck, announcedDelay, Ack.Write. cbn [snd].
  destruct (largestAcked_spec true version (LargestAcked f)) as (HL & HL8 & HL6 & HLr & HLw);
    [apply Hwf|].
  set (delay := u64 (TimeSub now (PacketReceivedTime f) `quot` Microsecond)).
  assert (Hdelay : 0 <= delay) by apply u64_range.
  destruct (section_roundtrip true version Ack.errInconsistentNumber _ _ _ Hwf Hfit)
    as (Hn & bs & Henc & Hbs & Hlen & Hdec).
  destruct (deltaLen_spec _ _ _ Hwf) as [Hdl _]. pose proof (valid_len_nat _ Hdl) as (_ & _ & Hdl6).
  unfold Ack.MinLength.
  set (dl := getMissingSequenceNumberDeltaLen _ _ _) in *.
  set (L := GetPacketNumberLength (LargestAcked f)) in *.
  set (missing := HasMissingRanges (AckRanges f)) in *.
  set (hasPath := negb (PathID f =? InitialPathID)).
  destruct (Ack_typeByte_spec L dl missing hasPath) as (Htb & Hty & Hm & Hp & HLb & Hdb);
    [apply GetPacketNumberLength_valid|done|].
  set (tb := Ack.typeByte L dl missing hasPath) in *. clearbody tb.
  set (n := numWritableNackRanges (AckRanges f)) in *.
  exists (tb :: optByte hasPath (PathID f) ++ enc version (Z.to_nat L) (LargestAcked f) ++
    enc version 2 (ufloat16_word delay) ++ optByte missing (n - 1) ++ bs ++ [0]).
  split_and!.
  - rewrite HLw, writeFloat_enc, writeNumRanges by done.
    cbv [mbind writer_bind write WriteByte mret writer_ret]. rewrite Henc.
    destruct hasPath; cbn [optByte app]; rewrite <- ?app_assoc; done.
  - unfold is_bytes. solve_bytes; apply optByte_bytes; [done|]. intros Hmiss.
    specialize (Hn Hmiss). unfold in_range. lia.
  - done.
  - f_equal. autorewrite with codec. destruct missing, hasPath; cbn [optByte length] in *;
      try (specialize (Hn eq_refl); assert (0 <= (1 + dl) * n <= 7 * 255) by nia); usmall; lia.
  - intros rest. unfold Ack.Parse. cbn [app]. pbyte. rewrite Hm, Hp, HLb, Hdb. pstep optByte_read.
    pstep readN. pstep read_float. pstep optByte_read.
    assert (Hz : missing && ((if missing then n - 1 else 0) =? 0) = false)
      by (destruct missing; [specialize (Hn eq_refl)|]; lia). rewrite Hz.
    pstep Hdec. cbn [app]. pbyte. cbn [Z.ltb Z.compare fst snd].
    rewrite i64_small by (by apply ufloat16_round_i64).
    replace (if hasPath then PathID f else 0) with (PathID f); [done|].
    subst hasPath. unfold InitialPathID. by destruct (Z.eqb_spec (PathID f) 0).
Qed.

(** C17: Writing an ACK frame whose ranges are well formed and whose first gap leaves room for a
    second range succeeds, takes exactly [MinLength] bytes, and
    [ParseAckFrame] reads back the same path, the same largest packet number, the longest prefix of
    the ranges that fits into 255 blocks, and the delay rounded to 16 bits;
    what follows the frame is left unread. *)
Theorem ack_roundtrip version now f rest :
  is_u8 (PathID f) -> wf_ranges (AckRanges f) (LargestAcked f) (LowestAcked f) ->
  first_gap_fits (AckRanges f) ->
  exists bs, (Ack.Write f now version).2 = (bs, Ret tt) /\ is_bytes bs /\
    Ack.MinLength f = Ret (Z.of_nat (length bs)) /\
    Ack.Parse version (bs ++ rest) = Ret (receivedAck f now, rest).
Proof.
  intros Hpath Hwf Hfit.
  destruct (ack_codec version now f Hpath Hwf Hfit) as (bs & Hw & Hb & _ & Hl & Hp).
  by exists bs.
Qed.

Definition example_ack : AckFrame :=
  mkAckFrame 3 100000 5 [mkAckRange 99000 100000; mkAckRange 60000 90000; mkAckRange 5 17] 1000 0.

Lemma example_ack_wf :
  wf_ranges (AckRanges example_ack) (LargestAcked example_ack) (LowestAcked example_ack) /\
  first_gap_fits (AckRanges example_ack).
Proof.
  split; [|by vm_compute]. split; [by vm_compute|]. cbn. split_and!; try lia; try done.
  by exists (mkAckRange 5 17).
Defined.

Lemma ack_roundtrip_witness :
  exists bs, (Ack.Write example_ack 5000000 39).2 = (bs, Ret tt) /\ is_bytes bs /\
    Ack.MinLength example_ack = Ret (Z.of_nat (length bs)) /\
    Ack.Parse 39 (bs ++ [7]) = Ret (receivedAck example_ack 5000000, [7]).
Proof.
  apply (ack_roundtrip 39 5000000 example_ack [7]).
  - unfold in_range. cbn. lia.
  - apply example_ack_wf.
  - apply example_ack_wf.
Defined.

Lemma preads_Ack version :
  preads (Ack.Parse version) (fun f => is_u8 (PathID f) /\
    accepted (AckRanges f) (LargestAcked f) (LowestAcked f) /\
    0 <= DelayTime f <= uFloat16MaxValue * Microsecond).
Proof.
  unfold Ack.Parse. pfirst tb Htb. cbv zeta. pnext path Hpath. pnext largest Hlargest.
  pnext delay Hdelay. pnext n Hn.
  destruct ((Z.land tb 0x20 =? 0x20) && (n =? 0)) eqn:E; [apply psafe_fail|].
  eapply psafe_bind; [apply psafe_decodeAcked; [apply lenOfBits_range, low_bits|done|]|].
  { intros Hm. rewrite Hm in E. unfold in_range in Hn. lia. }
  intros [rs lo] [Hacc _]. pnext ts Hts. eapply psafe_bind with (Q := fun _ => True).
  { destruct (0 <? ts); [|by apply psafe_ret]. do 2 pnext ? _. apply psafe_skipTimestamps. }
  intros _ _. apply psafe_ret. cbn in *. rewrite i64_small; [split_and!; [apply Hpath..|done| |]|].
  all: change uFloat16MaxValue with (4095 * 2 ^ 30) in *; unfold is_i64, Microsecond; lia.
Qed.

(** [ParseAckFrame] is sound on every input: it never panics (no index of
    the block loop is out of range), what it accepts has well-formed,
    strictly descending, non-adjacent ranges between [LowestAcked] and
    [LargestAcked] (or acknowledges packet 0 alone), and [AcksPacket] is then membership in the
    ranges. *)
Theorem ack_parse_sound version bs :
  is_bytes bs ->
  match Ack.Parse version bs with
  | Ret (f, rest) =>
      is_u8 (PathID f) /\ accepted (AckRanges f) (LargestAcked f) (LowestAcked f) /\
      0 <= DelayTime f <= uFloat16MaxValue * Microsecond /\ rest `suffix_of` bs /\
      forall p, Ack.AcksPacket f p = true <-> acked (AckRanges f) (LargestAcked f) (LowestAcked f) p
  | Err _ => True
  | Panic _ => False
  end.
Proof.
  intros Hbs.
  destruct (preads_Ack version) as [Hsafe _].
  specialize (Hsafe bs Hbs). destruct (Ack.Parse version bs) as [[f rest]| |]; [|done..].
  destruct Hsafe as ((Hp & Hacc & Hd) & _ & Hsuf). do 4 (split; [done|]).
  intros p. by apply AcksPacket_accepted.
Qed.

Lemma ack_parse_sound_witness :
  match Ack.Parse 39 [0x60; 9; 0; 4; 1; 2; 3; 2; 0; 77] with
  | Ret (f, rest) =>
      is_u8 (PathID f) /\ accepted (AckRanges f) (LargestAcked f) (LowestAcked f) /\
      0 <= DelayTime f <= uFloat16MaxValue * Microsecond /\
      rest `suffix_of` [0x60; 9; 0; 4; 1; 2; 3; 2; 0; 77] /\
      forall p, Ack.AcksPacket f p = true <-> acked (AckRanges f) (LargestAcked f) (LowestAcked f) p
  | Err _ => True
  | Panic _ => False
  end.
Proof. apply (ack_parse_sound 39). repeat constructor; done. Defined.

(** When the gap below the highest range of a well-formed ACK frame is longer
    than 254 * 255 packets, [numWritableNackRanges] counts no block for it but the loop of
    [Write] writes them all: [Write] ends with its internal error instead
    of a frame that acknowledges the highest range. *)
Theorem ack_write_first_gap version now f :
  wf_ranges (AckRanges f) (LargestAcked f) (LowestAcked f) ->
  ~ first_gap_fits (AckRanges f) ->
  exists bs, (Ack.Write f now version).2 = (bs, Err Ack.errInconsistentNumber).
Proof.
  intros Hwf Hgap. unfold Ack.Write. cbn [snd].
  destruct (AckRanges f) as [|r [|r' rest]] eqn:Hr; [by destruct Hgap..|].
  destruct (encode_first_gap true version Ack.errInconsistentNumber _ _ _ Hwf r r' rest)
    as (Hn & bs & Henc); [done..|].
  destruct (largestAcked_spec true version (LargestAcked f)) as (_ & _ & _ & _ & HLw); [apply Hwf|].
  rewrite HLw, writeFloat_enc, Hn. cbn [HasMissingRanges].
  cbv [mbind writer_bind write WriteByte mret writer_ret]. cbn [Z.ltb Z.compare Pos.compare Pos.compare_cont].
  rewrite Henc. destruct (negb _); by eexists.
Qed.

Definition gap_ack : AckFrame :=
  mkAckFrame 0 100000 5 [mkAckRange 99000 100000; mkAckRange 5 17] 1000 0.

Lemma ack_write_first_gap_witness :
  exists bs, (Ack.Write gap_ack 5000 39).2 = (bs, Err Ack.errInconsistentNumber).
Proof.
  apply (ack_write_first_gap 39 5000 gap_ack).
  - split; [by vm_compute|]. cbn. split_and!; try lia; try done. by exists (mkAckRange 5 17).
  - vm_compute. intros H. by apply H.
Defined.

(** The frame the receiver of a CLOSE_PATH reads. *)
Definition receivedClosePath (f : ClosePathFrame) : ClosePathFrame :=
  mkClosePathFrame (cp_PathID f) (cp_LargestAcked f)
    (lowestOf (reported (cp_AckRanges f)) (cp_LowestAcked f)) (reported (cp_AckRanges f)).

Lemma close_path_codec version f :
  is_u8 (cp_PathID f) -> wf_ranges (cp_AckRanges f) (cp_LargestAcked f) (cp_LowestAcked f) ->
  first_gap_fits (cp_AckRanges f) ->
  exists bs, ClosePath.Write f version = (0x11 :: bs, Ret tt) /\ is_bytes (0x11 :: bs) /\
    ClosePath.MinLength f = Ret (Z.of_nat (length (0x11 :: bs))) /\
    forall rest, ClosePath.Parse version ((0x11 :: bs) ++ rest) = Ret (receivedClosePath f, rest).
Proof.
  intros Hpath Hwf Hfit. unfold ClosePath.Write, ClosePath.MinLength.
  destruct (largestAcked_spec false version (cp_LargestAcked f)) as (HL & HL8 & HL6 & HLr & HLw);
    [apply Hwf|].
  destruct (section_roundtrip false version ClosePath.errInconsistentNumber _ _ _ Hwf Hfit)
    as (Hn & bs & Henc & Hbs & Hlen & Hdec).
  destruct (deltaLen_spec _ _ _ Hwf) as [Hdl _]. pose proof (valid_len_nat _ Hdl) as (_ & _ & Hdl6).
  set (dl := getMissingSequenceNumberDeltaLen _ _ _) in *.
  set (L := GetPacketNumberLength (cp_LargestAcked f)) in *.
  set (missing := HasMissingRanges (cp_AckRanges f)) in *.
  destruct (ClosePath_flags_spec L dl missing) as (Hfl & Hm & HLb & Hdb);
    [apply GetPacketNumberLength_valid|done|].
  set (fl := ClosePath.flags L dl missing) in *. clearbody fl.
  set (n := numWritableNackRanges (cp_AckRanges f)) in *.
  exists ([cp_PathID f; fl] ++ optByte missing (n - 1) ++
    enc version (Z.to_nat L) (cp_LargestAcked f) ++ bs).
  split_and!.
  - rewrite HLw, writeNumRanges by done.
    cbv [mbind writer_bind write WriteByte mret writer_ret]. rewrite Henc.
    cbn [app]. by rewrite app_nil_r.
  - solve_bytes. apply optByte_bytes. intros Hmiss. specialize (Hn Hmiss). unfold in_range. lia.
  - f_equal. autorewrite with codec. destruct missing; cbn [optByte length] in *;
      try (specialize (Hn eq_refl); assert (0 <= (1 + dl) * n <= 7 * 255) by nia); usmall; lia.
  - intros rest. unfold ClosePath.Parse. cbn [app]. do 3 pbyte. rewrite Hm, HLb, Hdb. pstep optByte_read.
    assert (Hz : missing && ((if missing then n - 1 else 0) =? 0) = false)
      by (destruct missing; [specialize (Hn eq_refl)|]; lia). rewrite Hz.
    pstep readN. pstep Hdec. done.
Qed.

(** Writing a CLOSE_PATH frame with well-formed ranges whose first gap leaves room for
    a second range succeeds, takes [MinLength] bytes, and [ParseClosePathFrame] reads back the path
    and the longest prefix of the ranges that fits into 255 blocks. *)
Theorem close_path_roundtrip version f rest :
  is_u8 (cp_PathID f) -> wf_ranges (cp_AckRanges f) (cp_LargestAcked f) (cp_LowestAcked f) ->
  first_gap_fits (cp_AckRanges f) ->
  exists bs, ClosePath.Write f version = (bs, Ret tt) /\ is_bytes bs /\
    ClosePath.MinLength f = Ret (Z.of_nat (length bs)) /\
    ClosePath.Parse version (bs ++ rest) = Ret (receivedClosePath f, rest).
Proof.
  intros Hpath Hwf Hfit.
  destruct (close_path_codec version f Hpath Hwf Hfit) as (bs & Hw & Hb & Hl & Hp).
  by exists (0x11 :: bs).
Qed.

Lemma close_path_roundtrip_witness :
  let f := mkClosePathFrame 3 100000 5 (AckRanges example_ack) in
  exists bs, ClosePath.Write f 39 = (bs, Ret tt) /\ is_bytes bs /\
    ClosePath.MinLength f = Ret (Z.of_nat (length bs)) /\
    ClosePath.Parse 39 (bs ++ [1]) = Ret (receivedClosePath f, [1]).
Proof.
  intros f. apply (close_path_roundtrip 39 f [1]).
  - unfold in_range. cbn. lia.
  - apply example_ack_wf.
  - apply example_ack_wf.
Defined.

Lemma preads_ClosePath version :
  preads (ClosePath.Parse version) (fun f => is_u8 (cp_PathID f) /\
    accepted (cp_AckRanges f) (cp_LargestAcked f) (cp_LowestAcked f)).
Proof.
  unfold ClosePath.Parse. pfirst ? _. pnext path Hpath. pnext fl Hfl. cbv zeta. pnext n Hn.
  destruct ((Z.land fl 0x10 =? 0x10) && (n =? 0)) eqn:E; [apply psafe_fail|].
  pnext largest Hlargest.
  eapply psafe_bind; [apply psafe_decodeAcked; [apply lenOfBits_range, low_bits|done|]|].
  { intros Hm. rewrite Hm in E. unfold in_range in Hn. lia. }
  intros [rs lo] [Hacc _]. by apply psafe_ret.
Qed.

(** [ParseClosePathFrame] never panics, what it accepts has well-formed
    ranges, and its [AcksPacket] is membership in them. *)
Theorem close_path_parse_sound version bs :
  is_bytes bs ->
  match ClosePath.Parse version bs with
  | Ret (f, rest) =>
      is_u8 (cp_PathID f) /\ accepted (cp_AckRanges f) (cp_LargestAcked f) (cp_LowestAcked f) /\
      rest `suffix_of` bs /\
      forall p, ClosePath.AcksPacket f p = true <->
        acked (cp_AckRanges f) (cp_LargestAcked f) (cp_LowestAcked f) p
  | Err _ => True
  | Panic _ => False
  end.
Proof.
  intros Hbs.
  destruct (preads_ClosePath version) as [Hsafe _].
  specialize (Hsafe bs Hbs). destruct (ClosePath.Parse version bs) as [[f rest]| |]; [|done..].
  destruct Hsafe as ((Hp & Hacc) & _ & Hsuf). do 3 (split; [done|]).
  intros p. by apply AcksPacket_accepted.
Qed.

Lemma close_path_parse_sound_witness :
  match ClosePath.Parse 39 [0x11; 2; 0x10; 1; 9; 2; 3; 2; 77] with
  | Ret (f, rest) =>
      is_u8 (cp_PathID f) /\ accepted (cp_AckRanges f) (cp_LargestAcked f) (cp_LowestAcked f) /\
      rest `suffix_of` [0x11; 2; 0x10; 1; 9; 2; 3; 2; 77] /\
      forall p, ClosePath.AcksPacket f p = true <->
        acked (cp_AckRanges f) (cp_LargestAcked f) (cp_LowestAcked f) p
  | Err _ => True
  | Panic _ => False
  end.
Proof. apply (close_path_parse_sound 39). repeat constructor; done. Defined.

#[export] Hint Resolve preads_Ack preads_ClosePath : preads.
