(* ===== verification/PathsFrame.v ===== *)
(** * The PATHS frame

    Models [internal/wire/paths_frame.go] with the parts of packages [net] and [strconv] it
    uses: addresses and ports travel as bytes and are kept as text, a Go string being the list of
    its bytes.  What [net.ParseIP] makes of IPv6 text is a parameter of [Write]. *)
From S2P Require Import Prelude ByteOrder PacketNumber Frames AckRanges AckFrame.

(** ** Text *)
Module text.
Definition zero : Z := 48.
Definition dot : Z := 46.
Definition colon : Z := 58.

Definition is_digit (c : Z) : bool := (zero <=? c) && (c <=? 57).

(** [strconv.FormatUint(v, 10)]; 20 digits are enough for 64 bits. *)
Fixpoint formatDigits (fuel : nat) (v : Z) : list Z :=
  match fuel with
  | O => []
  | S fuel' =>
      if v <? 10 then [zero + v]
      else formatDigits fuel' (v `div` 10) ++ [zero + v `mod` 10]
  end.

Definition FormatUint (v : Z) : list Z := formatDigits 20 v.

(** [strconv.ParseUint(s, 10, 16)] *)
Definition errSyntax : error := ErrorString "invalid syntax".
Definition errRange : error := ErrorString "value out of range".

Fixpoint parseDigits (maxVal n : Z) (s : list Z) : outcome Z :=
  match s with
  | [] => Ret n
  | c :: s' =>
      if negb (is_digit c) then Err errSyntax
      else
        let n1 := n * 10 + (c - zero) in
        if maxVal <? n1 then Err errRange else parseDigits maxVal n1 s'
  end.

Definition ParseUint16 (s : list Z) : outcome Z :=
  match s with [] => Err errSyntax | _ => parseDigits (2 ^ 16 - 1) 0 s end.

(** [net.dtoi]: the number at the front of a string and what follows it, if there is one below
    [0xFFFFFF]. *)
Fixpoint dtoi_loop (n : Z) (seen : bool) (s : list Z) : option (Z * list Z) :=
  match s with
  | c :: s' =>
      if is_digit c then
        let n := n * 10 + (c - zero) in
        if 0xFFFFFF <=? n then None else dtoi_loop n true s'
      else if seen then Some (n, s) else None
  | [] => if seen then Some (n, []) else None
  end.

Definition dtoi (s : list Z) : option (Z * list Z) := dtoi_loop 0 false s.

(** [net.parseIPv4]: [k] numbers are left, [first] tells that no dot comes before the next. *)
Fixpoint parseIPv4_loop (k : nat) (first : bool) (s : list Z) : option (list Z) :=
  match k with
  | O => match s with [] => Some [] | _ => None end
  | S k' =>
      rest ← (if first then (match s with [] => None | _ => Some s end)
              else match s with
                   | c :: s' => if c =? dot then Some s' else None
                   | [] => None
                   end);
      '(n, rest) ← dtoi rest;
      if 0xFF <? n then None
      else bs ← parseIPv4_loop k' false rest; Some (n :: bs)
  end.

Definition parseIPv4 (s : list Z) : option (list Z) :=
  match parseIPv4_loop 4 true s with
  | Some [a; b; c; d] => Some (net.IPv4 a b c d)
  | _ => None
  end.

(** [net.ParseIP]: the first dot or colon decides. *)
Fixpoint parseIP_scan (parseIPv6 : list Z -> option (list Z)) (s all : list Z)
    : option (list Z) :=
  match s with
  | [] => None
  | c :: s' =>
      if c =? dot then parseIPv4 all
      else if c =? colon then parseIPv6 all
      else parseIP_scan parseIPv6 s' all
  end.

Definition ParseIP (parseIPv6 : list Z -> option (list Z)) (s : list Z) : option (list Z) :=
  parseIP_scan parseIPv6 s s.

(** [net.IP.String] of [net.IPv4(a, b, c, d)] *)
Definition IPv4String (a b c d : Z) : list Z :=
  FormatUint a ++ [dot] ++ FormatUint b ++ [dot] ++ FormatUint c ++ [dot] ++ FormatUint d.
End text.

(** ** The frame *)
Record PathsFrame := mkPathsFrame {
  pf_MaxNumPaths : Z;
  pf_NumPaths : Z;
  pf_NumIPs : Z;
  pf_PathIDs : list Z;
  pf_RemoteRTTs : list Z;
  pf_RemoteAddrsIP : list (list Z);
  pf_RemoteAddrsPort : list (list Z)
}.

Module Paths.
Definition ErrTooManyPaths : error :=
  ErrorString "PathsFrame: more paths than the maximum enabled".
Definition ErrTooManyIPs : error := ErrorString "PathsFrame: more IPs than paths".
Definition ErrPathsNumber : error :=
  ErrorString "PathsFrame: number of paths advertised and # of paths do not match".
Definition ErrIPsNumber : error :=
  ErrorString "PathsFrame: number of IPs and number of paths do not match".
Definition ErrMissingRTT : error :=
  ErrorString "PathsFrame: number of paths IDs and number of remote RTTs do not match".
Definition ErrMissingAddrsIP : error :=
  ErrorString "PathsFrame: number of paths IDs and number of remote addresses IP do not match".
Definition ErrMissingAddrsPort : error :=
  ErrorString "PathsFrame: number of paths IDs and number of remote addresses Port do not match".

Section Write.
Context (parseIPv6 : list Z -> option (list Z)) (version : Z).

(** [RemoteAddrsIP[i]] and [RemoteAddrsPort[i]], with the entries before [i] dropped. *)
Definition writeAddr (ips ports : list (list Z)) : Writer unit :=
  match ips with
  | [] => wpanic "index out of range"
  | ipStr :: _ =>
      match text.ParseIP parseIPv6 ipStr ≫= net.To4 with
      | None => werror AddAddress.errInconsistentAddrIPVersion
      | Some ip =>
          write (take 4 ip);;
          match ports with
          | [] => wpanic "index out of range"
          | portStr :: _ =>
              match text.ParseUint16 portStr with
              | Ret portInt => WriteUint16 (GetByteOrder version) (u16 portInt)
              | Err e => werror e
              | Panic s => wpanic s
              end
          end
      end
  end.

(** [for i := 0; i < len(f.PathIDs); i++] *)
Fixpoint writePaths (numIPs : Z) (ids rtts : list Z) (ips ports : list (list Z)) : Writer unit :=
  match ids with
  | [] => mret tt
  | pathID :: ids' =>
      WriteByte (u8 pathID);;
      match rtts with
      | [] => wpanic "index out of range"
      | rtt :: rtts' =>
          WriteUfloat16 (GetByteOrder version) (u64 (rtt `quot` Microsecond));;
          (if 0 <? numIPs then writeAddr ips ports else mret tt);;
          writePaths numIPs ids' rtts' (tail ips) (tail ports)
      end
  end.

Definition Write (f : PathsFrame) : Writer unit :=
  let numPathIDs := Z.of_nat (length (pf_PathIDs f)) in
  let numAddrsIP := Z.of_nat (length (pf_RemoteAddrsIP f)) in
  let numAddrsPort := Z.of_nat (length (pf_RemoteAddrsPort f)) in
  WriteByte 0x12;;
  WriteByte (pf_MaxNumPaths f);;
  WriteByte (pf_NumPaths f);;
  WriteByte (pf_NumIPs f);;
  if negb (pf_NumPaths f =? numPathIDs) then werror ErrPathsNumber
  else if negb (pf_NumPaths f =? pf_NumIPs f) && negb (pf_NumIPs f =? 0) then werror ErrIPsNumber
  else if negb (numPathIDs =? Z.of_nat (length (pf_RemoteRTTs f))) then werror ErrMissingRTT
  else if negb (numPathIDs =? numAddrsIP) && negb (numAddrsIP =? 0) then werror ErrMissingAddrsIP
  else if negb (numPathIDs =? numAddrsPort) && negb (numAddrsPort =? 0)
  then werror ErrMissingAddrsPort
  else writePaths (pf_NumIPs f) (pf_PathIDs f) (pf_RemoteRTTs f) (pf_RemoteAddrsIP f)
         (pf_RemoteAddrsPort f).
End Write.

Definition addPath (f : PathsFrame) (pathID rtt : Z) : PathsFrame :=
  mkPathsFrame (pf_MaxNumPaths f) (pf_NumPaths f) (pf_NumIPs f) (pf_PathIDs f ++ [pathID])
    (pf_RemoteRTTs f ++ [rtt]) (pf_RemoteAddrsIP f) (pf_RemoteAddrsPort f).

Definition addAddr (f : PathsFrame) (ip port : list Z) : PathsFrame :=
  mkPathsFrame (pf_MaxNumPaths f) (pf_NumPaths f) (pf_NumIPs f) (pf_PathIDs f)
    (pf_RemoteRTTs f) (pf_RemoteAddrsIP f ++ [ip]) (pf_RemoteAddrsPort f ++ [port]).

(** The address and the port of one path. *)
Definition readAddr (version : Z) (frame : PathsFrame) : Parser PathsFrame :=
  a ← ReadByte; b ← ReadByte; c ← ReadByte; d ← ReadByte;
  port ← ReadUint16 (GetByteOrder version);
  mret (addAddr frame (text.IPv4String a b c d) (text.FormatUint port)).

(** [for i := 0; i < int(frame.NumPaths); i++], with [n] iterations left. *)
Fixpoint readPaths (version : Z) (n : nat) (frame : PathsFrame) : Parser PathsFrame :=
  match n with
  | O => mret frame
  | S n' =>
      pathID ← ReadByte;
      remoteRTT ← ReadUfloat16 (GetByteOrder version);
      let frame := addPath frame pathID (i64 (remoteRTT * Microsecond)) in
      frame ← (if 0 <? pf_NumIPs frame then readAddr version frame else mret frame);
      readPaths version n' frame
  end.

Definition Parse (version : Z) : Parser PathsFrame :=
  ReadByte;;
  maxNum ← ReadByte;
  num ← ReadByte;
  if maxNum <? num then fail ErrTooManyPaths
  else
    numip ← ReadByte;
    if num <? numip then fail ErrTooManyIPs
    else readPaths version (Z.to_nat num) (mkPathsFrame maxNum num numip [] [] [] []).

(** The sum is computed in [uint8], the type of [NumPaths]. *)
Definition MinLength (f : PathsFrame) : outcome Z := Ret (u8 (1 + 1 + 1 + u8 (3 * pf_NumPaths f))).
End Paths.

(** ** Text round trips *)
Section Digits.
Context (maxVal : Z).

Lemma is_digit_zero d : 0 <= d <= 9 -> text.is_digit (text.zero + d) = true.
Proof. unfold text.is_digit, text.zero. lia. Qed.

Lemma parseDigits_app n s t m :
  text.parseDigits maxVal n s = Ret m ->
  text.parseDigits maxVal n (s ++ t) = text.parseDigits maxVal m t.
Proof.
  revert n. induction s as [|c s IH]; intros n; cbn; [by intros [= ->]|].
  repeat case_match; try done. apply IH.
Qed.

Lemma parseDigits_digit n d v s :
  0 <= d <= 9 -> v = n * 10 + d -> v <= maxVal ->
  text.parseDigits maxVal n (text.zero + d :: s) = text.parseDigits maxVal v s.
Proof.
  intros Hd -> Hv. cbn [text.parseDigits]. rewrite is_digit_zero by lia. cbn [negb].
  replace (text.zero + d - text.zero) with d by lia.
  by destruct (Z.ltb_spec maxVal (n * 10 + d)); [lia|].
Qed.

Lemma parseDigits_format fuel v :
  0 <= v <= maxVal -> v < 10 ^ Z.of_nat fuel ->
  text.parseDigits maxVal 0 (text.formatDigits fuel v) = Ret v.
Proof.
  revert v. induction fuel as [|fuel IH]; intros v Hv Hf; [cbn in *; f_equal; lia|].
  cbn [text.formatDigits]. destruct (Z.ltb_spec v 10).
  - by rewrite (parseDigits_digit _ _ v) by lia.
  - rewrite Nat2Z.inj_succ, Z.pow_succ_r in Hf by lia.
    pose proof (Z.div_mod v 10 ltac:(lia)). pose proof (Z.mod_pos_bound v 10 ltac:(lia)).
    rewrite (parseDigits_app _ _ _ (v `div` 10)) by (apply IH; lia).
    by rewrite (parseDigits_digit _ _ v) by lia.
Qed.
End Digits.

Lemma formatDigits_ne fuel v : text.formatDigits (S fuel) v <> [].
Proof. cbn [text.formatDigits]. case_match; [done|]. by destruct (text.formatDigits fuel _). Qed.

Lemma formatDigits_digits fuel v :
  0 <= v -> Forall (fun c => text.is_digit c = true) (text.formatDigits fuel v).
Proof.
  revert v. induction fuel as [|fuel IH]; intros v Hv; cbn [text.formatDigits]; [constructor|].
  pose proof (Z.mod_pos_bound v 10 ltac:(lia)). pose proof (Z.div_pos v 10 ltac:(lia) ltac:(lia)).
  case_match; [|apply Forall_app_2; [by apply IH|]]; (constructor; [|constructor]);
    apply is_digit_zero; lia.
Qed.

Lemma ParseUint16_Format v : is_u16 v -> text.ParseUint16 (text.FormatUint v) = Ret v.
Proof.
  unfold in_range. intros Hv. unfold text.ParseUint16, text.FormatUint.
  pose proof (formatDigits_ne 19 v). pose proof (parseDigits_format (2 ^ 16 - 1) 20 v).
  destruct (text.formatDigits 20 v) eqn:E; [done|]. rewrite <- E in *. apply H0; lia.
Qed.

(** [dtoi] agrees with the bounded parser on digits and stops behind them. *)
Lemma dtoi_digits n v seen s rest :
  Forall (fun c => text.is_digit c = true) s -> (s <> [] \/ seen = true) ->
  hd text.dot rest = text.dot -> text.parseDigits 0xFFFFFE n s = Ret v ->
  text.dtoi_loop n seen (s ++ rest) = Some (v, rest).
Proof.
  intros Hs. revert n seen. induction Hs as [|c s Hc Hs IH]; intros n seen Hne Hrest Hp.
  - cbn in Hp. injection Hp as ->. destruct Hne as [?| ->]; [done|].
    destruct rest as [|c rest]; [done|]. cbn in Hrest. subst c. done.
  - cbn in *. rewrite Hc in *. cbn in Hp. case_match; [done|].
    destruct (Z.leb_spec 0xFFFFFF (n * 10 + (c - text.zero))); [lia|]. apply IH; auto.
Qed.

Lemma dtoi_Format v rest :
  is_u8 v -> hd text.dot rest = text.dot -> text.dtoi (text.FormatUint v ++ rest) = Some (v, rest).
Proof.
  unfold in_range, text.FormatUint. intros Hv Hrest. apply dtoi_digits; [|left|done|].
  - apply formatDigits_digits. lia.
  - apply formatDigits_ne.
  - apply parseDigits_format; lia.
Qed.

Lemma parseIP_scan_digits p6 s rest all :
  Forall (fun c => text.is_digit c = true) s ->
  text.parseIP_scan p6 (s ++ text.dot :: rest) all = text.parseIPv4 all.
Proof.
  induction 1 as [|c s Hc _ IH]; [done|]. cbn. unfold text.is_digit, text.zero in Hc.
  destruct (Z.eqb_spec c text.dot) as [->|]; [done|].
  destruct (Z.eqb_spec c text.colon) as [->|]; done.
Qed.

(** One number of an address: the first one, or one behind a dot. *)
Lemma parseIPv4_number k (first : bool) v rest bs :
  is_u8 v -> hd text.dot rest = text.dot -> text.parseIPv4_loop k false rest = Some bs ->
  text.parseIPv4_loop (S k) first
    ((if first then [] else [text.dot]) ++ text.FormatUint v ++ rest) = Some (v :: bs).
Proof.
  intros Hv Hrest Hbs. pose proof (dtoi_Format v rest Hv Hrest) as Hd. unfold in_range in Hv.
  assert (Hne : text.FormatUint v <> []) by apply formatDigits_ne.
  destruct (text.FormatUint v) as [|c s]; [done|].
  destruct first; cbn -[text.dtoi] in *; rewrite Hd; cbn;
    destruct (Z.ltb_spec 255 v); [lia| |lia|]; by rewrite Hbs.
Qed.

Lemma ParseIP_String p6 a b c d :
  is_u8 a -> is_u8 b -> is_u8 c -> is_u8 d ->
  text.ParseIP p6 (text.IPv4String a b c d) = Some (net.IPv4 a b c d).
Proof.
  intros Ha Hb Hc Hd. unfold text.ParseIP. unfold text.IPv4String at 1. cbn [app].
  rewrite parseIP_scan_digits by (apply formatDigits_digits; unfold in_range in *; lia).
  unfold text.parseIPv4.
  assert (H : text.parseIPv4_loop 4 true (text.IPv4String a b c d) = Some [a; b; c; d]);
    [|by rewrite H].
  apply (parseIPv4_number 3 true a _ [b; c; d]); [done..|].
  apply (parseIPv4_number 2 false b _ [c; d]); [done..|].
  apply (parseIPv4_number 1 false c _ [d]); [done..|].
  rewrite <- (app_nil_r (text.FormatUint d)).
  by apply (parseIPv4_number 0 false d [] []).
Qed.

(** ** Round trip *)

(** Addresses and ports are in the form the parser produces. *)
Definition dotted (s : list Z) : Prop :=
  exists a b c d, is_u8 a /\ is_u8 b /\ is_u8 c /\ is_u8 d /\ s = text.IPv4String a b c d.
Definition decimal16 (s : list Z) : Prop := exists p, is_u16 p /\ s = text.FormatUint p.

Record wf_Paths (f : PathsFrame) : Prop := {
  wp_max : is_u8 (pf_MaxNumPaths f);
  wp_num : pf_NumPaths f = Z.of_nat (length (pf_PathIDs f));
  wp_le : pf_NumPaths f <= pf_MaxNumPaths f;
  wp_ids : Forall is_u8 (pf_PathIDs f);
  wp_rtts_len : length (pf_RemoteRTTs f) = length (pf_PathIDs f);
  wp_ips : Forall dotted (pf_RemoteAddrsIP f);
  wp_ports : Forall decimal16 (pf_RemoteAddrsPort f);
  wp_addrs : pf_NumIPs f = 0 /\ pf_RemoteAddrsIP f = [] /\ pf_RemoteAddrsPort f = [] \/
    pf_NumIPs f = pf_NumPaths f /\ length (pf_RemoteAddrsIP f) = length (pf_PathIDs f) /\
    length (pf_RemoteAddrsPort f) = length (pf_PathIDs f)
}.

(** The round-trip time the receiver reads for a time sent. *)
Definition roundRTT (rtt : Z) : Z := ufloat16_round (u64 (rtt `quot` Microsecond)) * Microsecond.

(** The frame the receiver reads: times are rounded to 16 bits. *)
Definition roundedPaths (f : PathsFrame) : PathsFrame :=
  mkPathsFrame (pf_MaxNumPaths f) (pf_NumPaths f) (pf_NumIPs f) (pf_PathIDs f)
    (map roundRTT (pf_RemoteRTTs f)) (pf_RemoteAddrsIP f) (pf_RemoteAddrsPort f).

Section Roundtrip.
Context (parseIPv6 : list Z -> option (list Z)) (version : Z).

Lemma addr_roundtrip ip port :
  dotted ip -> decimal16 port ->
  exists bs,
    (forall ips ports, Paths.writeAddr parseIPv6 version (ip :: ips) (port :: ports) = (bs, Ret tt)) /\
    is_bytes bs /\ length bs = 6%nat /\
    forall f rest, Paths.readAddr version f (bs ++ rest) = Ret (Paths.addAddr f ip port, rest).
Proof.
  intros (a & b & c & d & Ha & Hb & Hc & Hd & ->) (p & Hp & ->).
  exists ([a; b; c; d] ++ enc version 2 p). split; [|split; [|split]].
  - intros ips ports. unfold Paths.writeAddr. rewrite ParseIP_String by done.
    rewrite ParseUint16_Format by done. usmall. rewrite WriteUint16_enc. done.
  - solve_bytes; apply Ha || apply Hb || apply Hc || apply Hd.
  - by autorewrite with codec.
  - intros f rest. unfold Paths.readAddr. rewrite <- app_assoc. cbn [app].
    do 4 pbyte. by pstep read16.
Qed.

(** The paths of a list appended to those of a frame. *)
Definition appendPaths (f : PathsFrame) (ids rtts : list Z) (ips ports : list (list Z))
    : PathsFrame :=
  mkPathsFrame (pf_MaxNumPaths f) (pf_NumPaths f) (pf_NumIPs f) (pf_PathIDs f ++ ids)
    (pf_RemoteRTTs f ++ map roundRTT rtts) (pf_RemoteAddrsIP f ++ ips)
    (pf_RemoteAddrsPort f ++ ports).

Lemma appendPaths_nil f : appendPaths f [] [] [] [] = f.
Proof. destruct f. unfold appendPaths. cbn. by rewrite !app_nil_r. Qed.

Lemma rtt_i64 rtt :
  i64 (ufloat16_round (u64 (rtt `quot` Microsecond)) * Microsecond) = roundRTT rtt.
Proof. apply i64_small, ufloat16_round_i64, u64_range. Qed.

(** The bytes of a path, with or without its address. *)
Definition pathSize (numIPs : Z) : Z := if 0 <? numIPs then 9 else 3.

(** Addresses are absent, or there is one for each of [n] paths. *)
Definition addrs_for (numIPs : Z) (n : nat) (ips ports : list (list Z)) : Prop :=
  Forall dotted ips /\ Forall decimal16 ports /\
  (numIPs = 0 /\ ips = [] /\ ports = [] \/ 0 < numIPs /\ length ips = n /\ length ports = n).

Lemma addrs_for_tail numIPs n ips ports :
  addrs_for numIPs (S n) ips ports -> addrs_for numIPs n (tail ips) (tail ports).
Proof.
  intros (Hi & Hp & H). split; [by destruct Hi|]. split; [by destruct Hp|].
  destruct H as [(-> & -> & ->)|(? & ? & ?)]; [by left|right]. destruct ips, ports; naive_solver.
Qed.

Lemma addr_part numIPs n ips ports :
  addrs_for numIPs (S n) ips ports ->
  exists bs,
    (if 0 <? numIPs then Paths.writeAddr parseIPv6 version ips ports else mret tt) = (bs, Ret tt) /\
    is_bytes bs /\ Z.of_nat (length bs) = pathSize numIPs - 3 /\
    forall f rest, pf_NumIPs f = numIPs ->
      (if 0 <? pf_NumIPs f then Paths.readAddr version f else mret f) (bs ++ rest)
      = Ret (appendPaths f [] [] (take 1 ips) (take 1 ports), rest).
Proof.
  intros (Hi & Hp & H). unfold pathSize.
  destruct H as [(-> & -> & ->)|(Hn & ? & ?)].
  - exists []. split; [done|]. split; [constructor|]. split; [done|]. intros f rest ->.
    cbn. by rewrite appendPaths_nil.
  - destruct (Z.ltb_spec 0 numIPs); [|lia].
    destruct Hi as [|ip ips Hip Hi]; [done|]. destruct Hp as [|port ports Hport Hp]; [done|].
    destruct (addr_roundtrip ip port Hip Hport) as (bs & Hw & Hb & Hl & Hr).
    exists bs. split; [apply Hw|]. split; [done|]. split; [by rewrite Hl|].
    intros f rest ->. destruct (Z.ltb_spec 0 numIPs); [|lia]. rewrite Hr.
    unfold appendPaths, Paths.addAddr. cbn. by rewrite !app_nil_r.
Qed.

Lemma read_rtt rtt rest :
  ReadUfloat16 (GetByteOrder version)
    (enc version 2 (ufloat16_word (u64 (rtt `quot` Microsecond))) ++ rest)
  = Ret (ufloat16_round (u64 (rtt `quot` Microsecond)), rest).
Proof. apply read_float, u64_range. Qed.

Lemma paths_loop numIPs ids rtts ips ports :
  Forall is_u8 ids -> length rtts = length ids -> addrs_for numIPs (length ids) ips ports ->
  exists bs, Paths.writePaths parseIPv6 version numIPs ids rtts ips ports = (bs, Ret tt) /\
    is_bytes bs /\ Z.of_nat (length bs) = pathSize numIPs * Z.of_nat (length ids) /\
    forall f rest, pf_NumIPs f = numIPs ->
      Paths.readPaths version (length ids) f (bs ++ rest)
      = Ret (appendPaths f ids rtts ips ports, rest).
Proof.
  intros Hids. revert rtts ips ports.
  induction Hids as [|id ids Hid Hids IH]; intros rtts ips ports Hl Ha.
  { destruct rtts; [|done]. assert (ips = [] /\ ports = []) as [-> ->].
    { destruct Ha as (_ & _ & [?|(_ & ? & ?)]); [naive_solver|by destruct ips, ports]. }
    exists []. split; [done|]. split; [constructor|]. split; [cbn; lia|].
    intros f rest _. by rewrite appendPaths_nil. }
  destruct rtts as [|rtt rtts]; [done|]. injection Hl as Hl.
  destruct (IH rtts _ _ Hl (addrs_for_tail _ _ _ _ Ha)) as (bs & Hw & Hb & Hsz & Hr).
  destruct (addr_part _ _ _ _ Ha) as (abs & Haw & Hab & Hasz & Har).
  exists (id :: enc version 2 (ufloat16_word (u64 (rtt `quot` Microsecond))) ++ abs ++ bs).
  cbn [Paths.writePaths length]. rewrite Haw, Hw, (uN_small 8 id) by done.
  unfold WriteUfloat16, writeUfloat16. rewrite WriteUint16_enc.
  split; [by wrun|]. split; [solve_bytes; apply Hid|].
  split; [autorewrite with codec; lia|].
  intros f rest Hf. cbn [app Paths.readPaths]. pbyte. rewrite <- !app_assoc.
  erewrite parser_bind_ret by apply read_rtt. cbv beta zeta.
  erewrite parser_bind_ret by (by apply Har). rewrite Hr by done. rewrite rtt_i64.
  unfold appendPaths, Paths.addPath. cbn. rewrite !app_nil_r, <- !app_assoc.
  do 3 f_equal; by destruct ips, ports.
Qed.

Lemma wf_Paths_addrs f :
  wf_Paths f ->
  addrs_for (pf_NumIPs f) (length (pf_PathIDs f)) (pf_RemoteAddrsIP f) (pf_RemoteAddrsPort f).
Proof.
  intros []. split; [done|]. split; [done|]. destruct wp_addrs0 as [?|(? & ? & ?)]; [by left|].
  destruct (pf_PathIDs f) eqn:E; [|right; cbn [length] in *; lia]. left. cbn [length] in *.
  split; [lia|]. by destruct (pf_RemoteAddrsIP f), (pf_RemoteAddrsPort f).
Qed.

Lemma wf_Paths_guards f :
  wf_Paths f ->
  (negb (pf_NumPaths f =? Z.of_nat (length (pf_PathIDs f))) = false) /\
  (negb (pf_NumPaths f =? pf_NumIPs f) && negb (pf_NumIPs f =? 0) = false) /\
  (negb (Z.of_nat (length (pf_PathIDs f)) =? Z.of_nat (length (pf_RemoteRTTs f))) = false) /\
  (negb (Z.of_nat (length (pf_PathIDs f)) =? Z.of_nat (length (pf_RemoteAddrsIP f))) &&
   negb (Z.of_nat (length (pf_RemoteAddrsIP f)) =? 0) = false) /\
  (negb (Z.of_nat (length (pf_PathIDs f)) =? Z.of_nat (length (pf_RemoteAddrsPort f))) &&
   negb (Z.of_nat (length (pf_RemoteAddrsPort f)) =? 0) = false).
Proof.
  intros [_ Hn _ _ Hr _ _ Ha]. rewrite Hr.
  destruct Ha as [(Hi & Hips & Hports)|(Hi & Hips & Hports)].
  - rewrite Hips, Hports. cbn [length]. split_and!; try apply andb_false_r; lia.
  - rewrite Hips, Hports. split_and!; lia.
Qed.

Lemma paths_codec f :
  wf_Paths f ->
  exists bs, Paths.Write parseIPv6 version f = (0x12 :: bs, Ret tt) /\ is_bytes (0x12 :: bs) /\
    Z.of_nat (length (0x12 :: bs)) = 4 + pathSize (pf_NumIPs f) * pf_NumPaths f /\
    forall rest, Paths.Parse version ((0x12 :: bs) ++ rest) = Ret (roundedPaths f, rest).
Proof.
  intros Hf. pose proof (wf_Paths_guards f Hf) as (G1 & G2 & G3 & G4 & G5).
  destruct (paths_loop (pf_NumIPs f) (pf_PathIDs f) (pf_RemoteRTTs f) (pf_RemoteAddrsIP f)
    (pf_RemoteAddrsPort f)) as (bs & Hw & Hb & Hl & Hr);
    [apply Hf|apply Hf|by apply wf_Paths_addrs|].
  assert (0 <= pf_NumIPs f <= pf_NumPaths f) as Hip.
  { pose proof (wp_num f Hf). destruct (wp_addrs f Hf) as [(-> & _)|(-> & _)]; lia. }
  pose proof (wp_max f Hf) as Hmax. pose proof (wp_le f Hf). unfold in_range in Hmax.
  exists (pf_MaxNumPaths f :: pf_NumPaths f :: pf_NumIPs f :: bs).
  unfold Paths.Write. rewrite G1, G2, G3, G4, G5, Hw.
  split; [by wrun|]. split; [solve_bytes|]. split; [autorewrite with codec; rewrite (wp_num f Hf); lia|].
  intros rest. unfold Paths.Parse. cbn [app]. do 3 pbyte.
  destruct (Z.ltb_spec (pf_MaxNumPaths f) (pf_NumPaths f)); [lia|]. pbyte.
  destruct (Z.ltb_spec (pf_NumPaths f) (pf_NumIPs f)); [lia|].
  replace (Z.to_nat (pf_NumPaths f)) with (length (pf_PathIDs f)) by (rewrite (wp_num f Hf); lia).
  by rewrite Hr.
Qed.
End Roundtrip.

(** A well-formed PATHS frame round trips: [Write] succeeds, and [ParsePathsFrame] reads back
    the same path IDs, addresses and ports, the round-trip times rounded to the 16-bit float, and
    leaves what follows unread; this whatever the address parser does with IPv6 text. *)
Theorem paths_roundtrip parseIPv6 version f rest :
  wf_Paths f ->
  exists bs, Paths.Write parseIPv6 version f = (bs, Ret tt) /\ is_bytes bs /\
    Paths.Parse version (bs ++ rest) = Ret (roundedPaths f, rest).
Proof.
  intros Hf. destruct (paths_codec parseIPv6 version f Hf) as (bs & Hw & Hb & _ & Hp).
  by exists (0x12 :: bs).
Qed.

Definition example_paths : PathsFrame :=
  mkPathsFrame 255 2 2 [1; 3] [25000000; 4100000]
    [text.IPv4String 10 0 0 7; text.IPv4String 192 168 1 20]
    [text.FormatUint 443; text.FormatUint 50123].

Lemma example_paths_wf : wf_Paths example_paths.
Proof.
  split; cbn -[text.IPv4String text.FormatUint]; try lia; try done.
  - unfold in_range. repeat constructor; lia.
  - constructor; [|constructor; [|constructor]].
    + exists 10, 0, 0, 7. unfold in_range. split_and!; [lia..|done].
    + exists 192, 168, 1, 20. unfold in_range. split_and!; [lia..|done].
  - constructor; [exists 443|constructor; [exists 50123|constructor]]; unfold in_range;
      (split; [lia|done]).
Defined.

Lemma paths_roundtrip_witness :
  exists bs, Paths.Write (fun _ => None) 512 example_paths = (bs, Ret tt) /\ is_bytes bs /\
    Paths.Parse 512 (bs ++ [7]) = Ret (roundedPaths example_paths, [7]).
Proof. apply (paths_roundtrip (fun _ => None) 512 example_paths [7]), example_paths_wf. Defined.

(** [MinLength] of a well-formed PATHS frame is always smaller than the number of bytes
    [Write] produces: it leaves out a byte of the header and the six bytes of each address, and its
    [uint8] sum wraps around.  A packer that trusts it overfills its packet. *)
Theorem paths_min_length_short parseIPv6 version f :
  wf_Paths f ->
  exists bs len, Paths.Write parseIPv6 version f = (bs, Ret tt) /\ Paths.MinLength f = Ret len /\
    len < Z.of_nat (length bs) /\
    Z.of_nat (length bs) = 4 + pathSize (pf_NumIPs f) * pf_NumPaths f.
Proof.
  intros Hf. destruct (paths_codec parseIPv6 version f Hf) as (bs & Hw & Hb & Hl & _).
  exists (0x12 :: bs), (u8 (1 + 1 + 1 + u8 (3 * pf_NumPaths f))).
  do 2 (split; [done|]). split; [|done]. rewrite Hl. pose proof (wp_num f Hf).
  assert (u8 (1 + 1 + 1 + u8 (3 * pf_NumPaths f)) <= 3 + 3 * pf_NumPaths f).
  { unfold uN. rewrite Zplus_mod_idemp_r. apply Z.mod_le; lia. }
  unfold pathSize. case_match; lia.
Qed.

Lemma paths_min_length_short_witness :
  exists bs len, Paths.Write (fun _ => None) 512 example_paths = (bs, Ret tt) /\
    Paths.MinLength example_paths = Ret len /\ len < Z.of_nat (length bs) /\
    Z.of_nat (length bs) = 4 + pathSize 2 * 2.
Proof. apply (paths_min_length_short (fun _ => None) 512 example_paths), example_paths_wf. Defined.

(** ** Arbitrary input *)

(** A frame with [k] paths, and their addresses if there are any. *)
Record listed (k : nat) (f : PathsFrame) : Prop := {
  ls_ids : length (pf_PathIDs f) = k;
  ls_rtts : length (pf_RemoteRTTs f) = k;
  ls_addrs : 0 < pf_NumIPs f -> length (pf_RemoteAddrsIP f) = k /\ length (pf_RemoteAddrsPort f) = k;
  ls_ports : Forall decimal16 (pf_RemoteAddrsPort f)
}.

Definition parsed_paths (f : PathsFrame) : Prop := 0 <= pf_NumPaths f /\ listed (Z.to_nat (pf_NumPaths f)) f.

Lemma listed_addPath k f id rtt :
  listed k f -> pf_NumIPs f <= 0 -> listed (S k) (Paths.addPath f id rtt).
Proof. intros [H1 H2 H3 H4] Hn. split; cbn; rewrite ?length_app; cbn; [lia..|done]. Qed.

Lemma listed_addAddr k f id rtt ip port :
  listed k f -> 0 < pf_NumIPs f -> is_u16 port ->
  listed (S k) (Paths.addAddr (Paths.addPath f id rtt) ip (text.FormatUint port)).
Proof.
  intros [H1 H2 H3 H4] Hn Hp. destruct (H3 Hn). split; cbn; rewrite ?length_app; cbn; [lia..|].
  apply Forall_app_2; [done|]. apply Forall_singleton. by exists port.
Qed.

Lemma psafe_readPaths version n k f :
  listed k f ->
  psafe (Paths.readPaths version n f) (fun f' => listed (k + n) f' /\ pf_NumPaths f' = pf_NumPaths f).
Proof.
  revert k f. induction n as [|n IH]; intros k f Hf; cbn [Paths.readPaths].
  { apply psafe_ret. by rewrite Nat.add_0_r. }
  pnext id Hid. pnext rtt Hrtt. set (f1 := Paths.addPath _ _ _).
  eapply psafe_bind with (Q := fun f' => listed (S k) f' /\ pf_NumPaths f' = pf_NumPaths f).
  - change (pf_NumIPs f1) with (pf_NumIPs f). destruct (Z.ltb_spec 0 (pf_NumIPs f)).
    + unfold Paths.readAddr. do 4 pnext ? ?. pnext port Hport. apply psafe_ret.
      split; [by apply listed_addAddr|done].
    + apply psafe_ret. split; [by apply listed_addPath|done].
  - intros f2 [H2 <-]. eapply psafe_weaken; [by apply IH|]. intros f3 [H3 E]. split; [|done].
    by replace (k + S n)%nat with (S k + n)%nat by lia.
Qed.

Lemma preads_Paths version : preads (Paths.Parse version) parsed_paths.
Proof.
  unfold Paths.Parse. pfirst ? ?. pnext ? ?. pnext num Hnum. case_match; [apply psafe_fail|]. pnext ? ?.
  case_match; [apply psafe_fail|]. eapply psafe_weaken; [apply (psafe_readPaths _ _ 0)|].
  - split; cbn; [done..|constructor].
  - intros f [Hf E]. cbn in E. unfold parsed_paths, in_range in *. rewrite E. split; [lia|done].
Qed.
#[export] Hint Resolve preads_Paths : preads.
