(* ===== verification/PublicHeader.v ===== *)
(** * The public header

    Models [internal/wire/public_header.go] and
    [internal/wire/version_negotiation.go]: writing and parsing the header of a packet,
    peeking at the connection ID, the announced length, and the version
    negotiation packet. *)
From S2P Require Import Prelude ByteOrder PacketNumber Frames.

Inductive Perspective := PerspectiveServer | PerspectiveClient.

#[export] Instance Perspective_eq_dec : EqDecision Perspective.
Proof. solve_decision. Defined.

Definition isServer (p : Perspective) : bool :=
  match p with PerspectiveServer => true | PerspectiveClient => false end.
Definition isClient (p : Perspective) : bool := negb (isServer p).

Record PublicHeader := mkPublicHeader {
  Raw : list Z;
  hdr_ConnectionID : Z;
  hdr_PathID : Z;
  VersionFlag : bool;
  ResetFlag : bool;
  TruncateConnectionID : bool;
  MultipathFlag : bool;
  hdr_PacketNumberLen : Z;
  hdr_PacketNumber : Z;
  VersionNumber : Z;
  SupportedVersions : list Z;
  DiversificationNonce : list Z
}.

Definition ErrPacketWithUnknownVersion : error := ErrorString
  "PublicHeader: Received a packet without version number, that we don't know the version for".
Definition errResetAndVersionFlagSet : error := ErrorString
  "PublicHeader: Reset Flag and Version Flag should not be set at the same time".
Definition errReceivedTruncatedConnectionID : error :=
  QuicError qerr.InvalidPacketHeader "receiving packets with truncated ConnectionID is not supported".
Definition errInvalidConnectionID : error :=
  QuicError qerr.InvalidPacketHeader "connection ID cannot be 0".
Definition errGetLengthNotForVersionNegotiation : error := ErrorString
  "PublicHeader: GetLength cannot be called for VersionNegotiation packets".

(** [hasPacketNumber], as a function of the two flags it reads. *)
Definition hasPacketNumber (resetFlag versionFlag : bool) (packetSentBy : Perspective) : bool :=
  if resetFlag then false
  else if versionFlag && isServer packetSentBy then false
  else true.

Module Header.
Definition lenBits (len : Z) : Z :=
  match len with
  | 1 => 0x00
  | 2 => 0x10
  | 4 => 0x20
  | 6 => 0x30
  | _ => 0x00
  end.

(** [publicFlagByte] of [Write]. *)
Definition flagByte (versionFlag resetFlag truncate nonce hasPN multipath : bool) (len : Z) : Z :=
  let b := 0x00 in
  let b := if versionFlag then Z.lor b 0x01 else b in
  let b := if resetFlag then Z.lor b 0x02 else b in
  let b := if negb truncate then Z.lor b 0x08 else b in
  let b := if nonce then Z.lor b 0x04 else b in
  let b := if hasPN then Z.lor b (lenBits len) else b in
  if multipath then Z.lor b 0x40 else b.

Definition hasNonce (h : PublicHeader) : bool :=
  match DiversificationNonce h with [] => false | _ => true end.

Definition Write (h : PublicHeader) (version : Z) (pers : Perspective) : Writer unit :=
  if VersionFlag h && ResetFlag h then werror errResetAndVersionFlagSet
  else if hasNonce h && negb (Nat.eqb (length (DiversificationNonce h)) 32)
  then werror (ErrorString "invalid diversification nonce length")
  else
    let hasPN := hasPacketNumber (ResetFlag h) (VersionFlag h) pers in
    WriteByte (flagByte (VersionFlag h) (ResetFlag h) (TruncateConnectionID h) (hasNonce h)
                 hasPN (MultipathFlag h) (hdr_PacketNumberLen h));;
    (if negb (TruncateConnectionID h)
     then WriteUint64 LittleEndian (hdr_ConnectionID h) else mret tt);;
    (if VersionFlag h && isClient pers
     then WriteUint32 LittleEndian (VersionNumberToTag (VersionNumber h)) else mret tt);;
    (if hasNonce h then write (DiversificationNonce h) else mret tt);;
    (if MultipathFlag h then WriteByte (hdr_PathID h) else mret tt);;
    if negb hasPN then mret tt
    else
      match hdr_PacketNumberLen h with
      | 1 => WriteByte (u8 (hdr_PacketNumber h))
      | 2 => WriteUint16 (GetByteOrder version) (u16 (hdr_PacketNumber h))
      | 4 => WriteUint32 (GetByteOrder version) (u32 (hdr_PacketNumber h))
      | 6 => WriteUint48 (GetByteOrder version) (Z.land (hdr_PacketNumber h) (2 ^ 48 - 1))
      | _ => werror (ErrorString "PublicHeader: PacketNumberLen not set")
      end.

(** [PeekConnectionID]: the reader is left where it was. *)
Definition PeekConnectionID (packetSentBy : Perspective) (bs : list Z) : outcome Z :=
  match ReadByte bs with
  | Ret (publicFlagByte, bs') =>
      let truncateConnectionID := Z.land publicFlagByte 0x08 =? 0 in
      if truncateConnectionID && isClient packetSentBy then Err errReceivedTruncatedConnectionID
      else if negb truncateConnectionID then
        match ReadUint64 LittleEndian bs' with
        | Ret (connID, _) => Ret connID
        | Err e => Err e
        | Panic s => Panic s
        end
      else Ret 0
  | Err e => Err e
  | Panic s => Panic s
  end.

(** The loop that reads version tags until it runs out of bytes. *)
Fixpoint readVersions (fuel : nat) : Parser (list Z) := fun bs =>
  match fuel with
  | O => Ret ([], bs)
  | S fuel' =>
      match ReadUint32 LittleEndian bs with
      | Ret (versionTag, rest) =>
          match readVersions fuel' rest with
          | Ret (vs, rest') => Ret (VersionTagToNumber versionTag :: vs, rest')
          | other => other
          end
      | Err _ => Ret ([], [])
      | Panic s => Panic s
      end
  end.

(** The tail of [ParsePublicHeader]: path ID and packet number. *)
Definition ParseTail (header : PublicHeader) (packetSentBy : Perspective) (version : Z)
    : Parser PublicHeader :=
  pathID ← (if MultipathFlag header then ReadByte else mret 0);
  packetNumber ← (if hasPacketNumber (ResetFlag header) (VersionFlag header) packetSentBy
                  then ReadUintN (GetByteOrder version) (u8 (hdr_PacketNumberLen header))
                  else mret 0);
  mret (mkPublicHeader (Raw header) (hdr_ConnectionID header) pathID (VersionFlag header)
          (ResetFlag header) (TruncateConnectionID header) (MultipathFlag header)
          (hdr_PacketNumberLen header) packetNumber (VersionNumber header)
          (SupportedVersions header) (DiversificationNonce header)).

Definition Parse (packetSentBy : Perspective) (version : Z) : Parser PublicHeader :=
  publicFlagByte ← ReadByte;
  let resetFlag := 0 <? Z.land publicFlagByte 0x02 in
  let versionFlag := 0 <? Z.land publicFlagByte 0x01 in
  if (version =? VersionUnknown) && negb (versionFlag || resetFlag)
  then fail ErrPacketWithUnknownVersion
  else
    let truncateConnectionID := Z.land publicFlagByte 0x08 =? 0 in
    if truncateConnectionID && isClient packetSentBy then fail errReceivedTruncatedConnectionID
    else
      let packetNumberLen :=
        if hasPacketNumber resetFlag versionFlag packetSentBy then
          match Z.land publicFlagByte 0x30 with
          | 0x30 => PacketNumberLen6
          | 0x20 => PacketNumberLen4
          | 0x10 => PacketNumberLen2
          | 0x00 => PacketNumberLen1
          | _ => 0
          end
        else 0 in
      let multipathFlag := 0 <? Z.land publicFlagByte 0x40 in
      connectionID ← (if negb truncateConnectionID then
                        connID ← ReadUint64 LittleEndian;
                        if connID =? 0 then fail errInvalidConnectionID else mret connID
                      else mret 0);
      nonce ← (if isServer packetSentBy && (0 <? Z.land publicFlagByte 0x04)
                  && (negb versionFlag && negb resetFlag)
               then ReadFull 32 else mret []);
      let header vn supported := mkPublicHeader [] connectionID 0 versionFlag resetFlag
        truncateConnectionID multipathFlag packetNumberLen 0 vn supported nonce in
      if negb resetFlag && versionFlag then
        if isServer packetSentBy then
          len ← Len;
          if negb (len `mod` 4 =? 0) then fail (ErrorCode qerr.InvalidVersionNegotiationPacket)
          else
            supported ← readVersions (S (Z.to_nat len));
            mret (header 0 supported)
        else
          versionTag ← ReadUint32 LittleEndian;
          let vn := VersionTagToNumber versionTag in
          ParseTail (header vn []) packetSentBy vn
      else ParseTail (header 0 []) packetSentBy version.

Definition GetLength (h : PublicHeader) (pers : Perspective) : outcome Z :=
  if VersionFlag h && ResetFlag h then Err errResetAndVersionFlagSet
  else if VersionFlag h && isServer pers then Err errGetLengthNotForVersionNegotiation
  else
    let length := 1 in
    let hasPN := hasPacketNumber (ResetFlag h) (VersionFlag h) pers in
    let l := hdr_PacketNumberLen h in
    if hasPN && (negb (l =? PacketNumberLen1) && negb (l =? PacketNumberLen2)
                 && negb (l =? PacketNumberLen4) && negb (l =? PacketNumberLen6))
    then Err StopWaiting.errPacketNumberLenNotSet
    else
      let length := if hasPN then length + l else length in
      let length := if negb (TruncateConnectionID h) then length + 8 else length in
      let length := if VersionFlag h then length + 4 else length in
      let length := length + Z.of_nat (List.length (DiversificationNonce h)) in
      Ret (if MultipathFlag h then length + 1 else length).
End Header.

(** ** Version negotiation *)
Definition writeVersions (versions : list Z) : Writer unit :=
  foldr (fun v w => WriteUint32 LittleEndian (VersionNumberToTag v);; w) (mret tt) versions.

(** [ComposeVersionNegotiation]: an error of [Write] is only logged. *)
Definition ComposeVersionNegotiation (connectionID : Z) (versions : list Z) : list Z :=
  let responsePublicHeader :=
    mkPublicHeader [] connectionID 0 true false false false 0 1 0 [] [] in
  (Header.Write responsePublicHeader VersionWhatever PerspectiveServer).1
  ++ (writeVersions versions).1.

(** ** Flags *)
Lemma flagByte_spec vf rf tr nonce hasPN mp len :
  valid_len len \/ hasPN = false ->
  let b := Header.flagByte vf rf tr nonce hasPN mp len in
  is_u8 b /\ (0 <? Z.land b 0x02) = rf /\ (0 <? Z.land b 0x01) = vf /\
  (Z.land b 0x08 =? 0) = tr /\ (0 <? Z.land b 0x04) = nonce /\ (0 <? Z.land b 0x40) = mp /\
  (hasPN = true ->
   match Z.land b 0x30 with
   | 0x30 => PacketNumberLen6
   | 0x20 => PacketNumberLen4
   | 0x10 => PacketNumberLen2
   | 0x00 => PacketNumberLen1
   | _ => 0
   end = len).
Proof.
  intros [Hlen| ->].
  - unfold valid_len in Hlen. destruct_or! Hlen; subst len;
      destruct vf, rf, tr, nonce, hasPN, mp; vm_compute; done.
  - destruct vf, rf, tr, nonce, mp; vm_compute; done.
Qed.

(** ** Optional fields *)
Definition optField (present : bool) (bs : list Z) : list Z := if present then bs else [].

Lemma write_opt (present : bool) w bs :
  (present = true -> w = write bs) ->
  (if present then w else mret tt) = write (optField present bs).
Proof. destruct present; [by intros ->|done]. Qed.

Lemma read_opt {A} (present : bool) (p : Parser A) bs (v d : A) rest :
  (present = true -> p (bs ++ rest) = Ret (v, rest)) ->
  (if present then p else mret d) (optField present bs ++ rest)
  = Ret (if present then v else d, rest).
Proof. destruct present; [intros H; by apply H|done]. Qed.

Lemma optField_bytes present bs : (present = true -> is_bytes bs) -> is_bytes (optField present bs).
Proof. destruct present; [naive_solver|]. intros _. apply Forall_nil_2. Qed.

Lemma length_optField (present : bool) bs :
  length (optField present bs) = if present then length bs else 0%nat.
Proof. by destruct present. Qed.

Lemma readLE64 v rest : is_u64 v -> ReadUint64 LittleEndian (le_bytes 8 v ++ rest) = Ret (v, rest).
Proof. apply ReadUint64_enc. Qed.
Lemma readLE32 v rest : is_u32 v -> ReadUint32 LittleEndian (le_bytes 4 v ++ rest) = Ret (v, rest).
Proof. apply ReadUint32_enc. Qed.

(** ** Regular packets *)

(** A header of a regular packet sent by [pers] when [version] is in use. *)
Record wf_regular (h : PublicHeader) (version : Z) (pers : Perspective) : Prop := {
  wf_reset : ResetFlag h = false;
  wf_version : VersionFlag h = true ->
    pers = PerspectiveClient /\ 0 <= VersionNumber h < 1000 /\ version = VersionNumber h;
  wf_len : valid_len (hdr_PacketNumberLen h);
  wf_pn : is_u64 (hdr_PacketNumber h);
  wf_connid : if TruncateConnectionID h then pers = PerspectiveServer
              else 0 < hdr_ConnectionID h < 2 ^ 64;
  wf_nonce : Header.hasNonce h = true ->
    pers = PerspectiveServer /\ length (DiversificationNonce h) = 32%nat /\
    is_bytes (DiversificationNonce h);
  wf_path : MultipathFlag h = true -> is_u8 (hdr_PathID h)
}.

(** What the receiver sees of a header: the packet number is truncated to its
    length, the fields that are not sent have their zero values. *)
Definition received (h : PublicHeader) : PublicHeader :=
  mkPublicHeader [] (if TruncateConnectionID h then 0 else hdr_ConnectionID h)
    (if MultipathFlag h then hdr_PathID h else 0) (VersionFlag h) false (TruncateConnectionID h)
    (MultipathFlag h) (hdr_PacketNumberLen h)
    (hdr_PacketNumber h `mod` 2 ^ (8 * hdr_PacketNumberLen h))
    (if VersionFlag h then VersionNumber h else 0) [] (DiversificationNonce h).

Lemma writePacketNumber version len pn (other : Writer unit) :
  valid_len len ->
  match len with
  | 1 => WriteByte (u8 pn)
  | 2 => WriteUint16 (GetByteOrder version) (u16 pn)
  | 4 => WriteUint32 (GetByteOrder version) (u32 pn)
  | 6 => WriteUint48 (GetByteOrder version) (Z.land pn (2 ^ 48 - 1))
  | _ => other
  end = write (enc version (Z.to_nat len) (pn `mod` 2 ^ (8 * len))).
Proof.
  intros Hlen. rewrite <- (writeLen_spec version len _ other); [|done|].
  - unfold uN. change (2 ^ 48 - 1) with (Z.ones 48). rewrite !Z.land_ones by lia.
    destruct Hlen as [-> | [-> | [-> | ->]]].
    all: cbn -[Z.pow Z.modulo]; by rewrite Zmod_mod.
  - pose proof (valid_len_nat _ Hlen). apply Z.mod_pos_bound. lia.
Qed.

(** The bytes of a regular header. *)
Definition header_bytes (h : PublicHeader) (version : Z) : list Z :=
  Header.flagByte (VersionFlag h) false (TruncateConnectionID h) (Header.hasNonce h) true
    (MultipathFlag h) (hdr_PacketNumberLen h) ::
  optField (negb (TruncateConnectionID h)) (le_bytes 8 (hdr_ConnectionID h)) ++
  optField (VersionFlag h) (le_bytes 4 (VersionNumberToTag (VersionNumber h))) ++
  optField (Header.hasNonce h) (DiversificationNonce h) ++
  optField (MultipathFlag h) [hdr_PathID h] ++
  enc version (Z.to_nat (hdr_PacketNumberLen h))
    (hdr_PacketNumber h `mod` 2 ^ (8 * hdr_PacketNumberLen h)).

Section Regular.
Context (h : PublicHeader) (version : Z) (pers : Perspective).
Hypothesis Hwf : wf_regular h version pers.

Lemma regular_hasPN : hasPacketNumber (ResetFlag h) (VersionFlag h) pers = true.
Proof.
  destruct Hwf as [Hr Hv _ _ _ _ _]. unfold hasPacketNumber. rewrite Hr.
  destruct (VersionFlag h); [|done]. by destruct (Hv eq_refl) as [-> _].
Qed.

Lemma regular_Write : Header.Write h version pers = write (header_bytes h version).
Proof.
  unfold Header.Write, header_bytes. rewrite regular_hasPN.
  destruct Hwf as [Hr Hv Hlen Hpn Hc Hn Hp]. rewrite Hr, andb_false_r.
  assert (Hnl : Header.hasNonce h && negb (Nat.eqb (length (DiversificationNonce h)) 32) = false).
  { destruct (Header.hasNonce h); [|done]. by destruct (Hn eq_refl) as (_ & -> & _). }
  rewrite Hnl, writePacketNumber by done. cbn [negb].
  replace (VersionFlag h && isClient pers) with (VersionFlag h).
  2: { destruct (VersionFlag h); [|done]. by destruct (Hv eq_refl) as [-> _]. }
  rewrite (write_opt (negb _) _ (le_bytes 8 (hdr_ConnectionID h))) by (intros; apply WriteUint64_enc).
  rewrite (write_opt (VersionFlag h) _ (le_bytes 4 (VersionNumberToTag (VersionNumber h))))
    by (intros; apply WriteUint32_enc).
  rewrite (write_opt (Header.hasNonce h) _ (DiversificationNonce h)),
    (write_opt (MultipathFlag h) _ [hdr_PathID h]) by done.
  by wrun.
Qed.

Lemma regular_connID rest :
  negb (TruncateConnectionID h) = true ->
  (connID ← ReadUint64 LittleEndian;
   if connID =? 0 then fail errInvalidConnectionID else mret connID)
    (le_bytes 8 (hdr_ConnectionID h) ++ rest) = Ret (hdr_ConnectionID h, rest).
Proof.
  intros Ht. destruct Hwf as [_ _ _ _ Hc _ _]. destruct (TruncateConnectionID h); [done|].
  pstep readLE64. by destruct (Z.eqb_spec (hdr_ConnectionID h) 0); [lia|].
Qed.

Lemma regular_tail connID vn nonce rest :
  Header.ParseTail (mkPublicHeader [] connID 0 (VersionFlag h) false (TruncateConnectionID h)
      (MultipathFlag h) (hdr_PacketNumberLen h) 0 vn [] nonce) pers version
    (optField (MultipathFlag h) [hdr_PathID h] ++
     enc version (Z.to_nat (hdr_PacketNumberLen h))
       (hdr_PacketNumber h `mod` 2 ^ (8 * hdr_PacketNumberLen h)) ++ rest)
  = Ret (mkPublicHeader [] connID (if MultipathFlag h then hdr_PathID h else 0) (VersionFlag h) false
      (TruncateConnectionID h) (MultipathFlag h) (hdr_PacketNumberLen h)
      (hdr_PacketNumber h `mod` 2 ^ (8 * hdr_PacketNumberLen h)) vn [] nonce, rest).
Proof.
  pose proof regular_hasPN as HPN. destruct Hwf as [Hr _ Hlen _ _ _ _]. rewrite Hr in HPN.
  unfold Header.ParseTail. cbn [MultipathFlag hdr_PacketNumberLen ResetFlag VersionFlag]. rewrite HPN.
  erewrite parser_bind_ret by (by apply (read_opt _ ReadByte [hdr_PathID h] (hdr_PathID h))).
  destruct (valid_len_nat _ Hlen) as (Hn & Hn8 & Hl6). usmall.
  erewrite parser_bind_ret; [done|]. apply readN; [done..|]. apply Z.mod_pos_bound. lia.
Qed.

Lemma regular_Parse pv rest :
  (VersionFlag h = false -> pv = version /\ version <> VersionUnknown) ->
  Header.Parse pers pv (header_bytes h version ++ rest) = Ret (received h, rest).
Proof.
  intros Hpv. pose proof regular_hasPN as HPN. destruct Hwf as [Hr Hv Hlen Hpn Hc Hn Hp].
  pose proof (fun vn n => regular_tail (if negb (TruncateConnectionID h) then hdr_ConnectionID h else 0)
    vn n rest) as Htail.
  unfold received. replace (if TruncateConnectionID h then 0 else hdr_ConnectionID h) with
    (if negb (TruncateConnectionID h) then hdr_ConnectionID h else 0)
    by (by destruct (TruncateConnectionID h)).
  unfold header_bytes, Header.Parse. cbn [app].
  destruct (flagByte_spec (VersionFlag h) false (TruncateConnectionID h) (Header.hasNonce h) true
    (MultipathFlag h) (hdr_PacketNumberLen h)) as (_ & Hrf & Hvf & Htr & Hno & Hmp & Hl); [by left|].
  pbyte. rewrite Hrf, Hvf, Htr, Hno, Hmp, (Hl eq_refl).
  rewrite Hr in HPN. rewrite HPN. clear Hrf Hvf Htr Hno Hmp Hl.
  assert (Hg1 : (pv =? VersionUnknown) && negb (VersionFlag h || false) = false).
  { destruct (VersionFlag h); [apply andb_false_r|]. destruct (Hpv eq_refl) as [-> Hne].
    by rewrite (proj2 (Z.eqb_neq _ _) Hne). }
  assert (Hg2 : TruncateConnectionID h && isClient pers = false)
    by (destruct (TruncateConnectionID h); [by subst|done]).
  rewrite Hg1, Hg2, <- !app_assoc.
  erewrite parser_bind_ret by (apply (read_opt _ _ _ (hdr_ConnectionID h)), regular_connID).
  cbn [negb andb]. rewrite andb_true_r.
  destruct (VersionFlag h) eqn:Evf; cbn [negb andb optField app].
  - destruct (Hv eq_refl) as (Hpers & Hvn & Hver).
    assert (Header.hasNonce h = false) as Hno
      by (destruct (Header.hasNonce h); [by destruct (Hn eq_refl) as [? _]; subst|done]).
    rewrite Hno, andb_false_r. cbn [optField app]. erewrite parser_bind_ret by done.
    replace (isServer pers) with false by (by rewrite Hpers). destruct (version_tag_small _ Hvn) as [Htag Htag32].
    pstep readLE32. rewrite Htag, <- Hver, Htail. unfold Header.hasNonce in Hno.
    by destruct (DiversificationNonce h).
  - destruct (Hpv eq_refl) as [-> Hne].
    rewrite andb_true_r. replace (isServer pers && Header.hasNonce h) with (Header.hasNonce h)
      by (destruct (Header.hasNonce h); [by destruct (Hn eq_refl) as [-> _]|by rewrite andb_false_r]).
    erewrite parser_bind_ret by (apply (read_opt _ _ _ (DiversificationNonce h)); intros Hno;
      apply ReadFull_app; by destruct (Hn Hno) as (_ & -> & _)).
    rewrite Htail. unfold Header.hasNonce. by destruct (DiversificationNonce h).
Qed.

Lemma regular_length : Header.GetLength h pers = Ret (Z.of_nat (length (header_bytes h version))).
Proof.
  unfold Header.GetLength. pose proof regular_hasPN as HPN.
  destruct Hwf as [Hr Hv Hlen _ _ Hn _]. rewrite HPN, Hr, andb_false_r.
  assert (Hg : VersionFlag h && isServer pers = false).
  { destruct (VersionFlag h); [|done]. by destruct (Hv eq_refl) as [-> _]. }
  rewrite Hg. pose proof (valid_len_nat _ Hlen) as (Hn' & _ & Hl6).
  assert (Hg' : negb (hdr_PacketNumberLen h =? PacketNumberLen1) &&
    negb (hdr_PacketNumberLen h =? PacketNumberLen2) && negb (hdr_PacketNumberLen h =? PacketNumberLen4)
    && negb (hdr_PacketNumberLen h =? PacketNumberLen6) = false)
    by (destruct Hlen as [-> | [-> | [-> | ->]]]; done).
  rewrite Hg'. cbn [andb]. f_equal. unfold header_bytes. cbn [length].
  rewrite !length_app, !length_optField, length_enc, !length_le_bytes.
  replace (length (DiversificationNonce h))
    with (if Header.hasNonce h then length (DiversificationNonce h) else 0%nat)
    by (unfold Header.hasNonce; by destruct (DiversificationNonce h)).
  destruct (Header.hasNonce h), (TruncateConnectionID h), (VersionFlag h), (MultipathFlag h); cbn [negb length];
    lia.
Qed.

Lemma regular_bytes : is_bytes (header_bytes h version).
Proof.
  destruct Hwf as [_ Hv Hlen _ _ Hn Hp]. unfold header_bytes, is_bytes.
  apply Forall_cons_2; [apply flagByte_spec; by left|].
  repeat (apply Forall_app_2 || apply optField_bytes); try apply enc_is_bytes.
  - intros _. apply enc_is_bytes.
  - intros _. apply enc_is_bytes.
  - intros Hno. by destruct (Hn Hno) as (_ & _ & ?).
  - intros Hmp. apply Forall_cons_2; [by apply Hp|apply Forall_nil_2].
Qed.

Lemma regular_peek rest :
  Header.PeekConnectionID pers (header_bytes h version ++ rest)
  = Ret (if TruncateConnectionID h then 0 else hdr_ConnectionID h).
Proof.
  destruct Hwf as [_ _ Hlen _ Hc _ _]. unfold Header.PeekConnectionID, header_bytes. cbn [app].
  rewrite ReadByte_cons. destruct (flagByte_spec (VersionFlag h) false (TruncateConnectionID h)
    (Header.hasNonce h) true (MultipathFlag h) (hdr_PacketNumberLen h))
    as (_ & _ & _ & Htr & _); [by left|].
  rewrite Htr. destruct (TruncateConnectionID h); [by subst|]. cbn [negb optField andb].
  rewrite <- !app_assoc, readLE64; [done|]. unfold in_range. lia.
Qed.
End Regular.

(** C33: The public header of a regular packet round trips: [Write] succeeds and
    writes [GetLength] bytes; [ParsePublicHeader] at the peer reads back every
    field (connection ID, path ID, version, nonce, and the packet number
    truncated to its length) and stops at the payload; [PeekConnectionID] sees
    the same connection ID. *)
Theorem header_roundtrip h version pers pv rest :
  wf_regular h version pers ->
  (VersionFlag h = false -> pv = version /\ version <> VersionUnknown) ->
  exists bs, Header.Write h version pers = (bs, Ret tt) /\ is_bytes bs /\
    Header.GetLength h pers = Ret (Z.of_nat (length bs)) /\
    Header.Parse pers pv (bs ++ rest) = Ret (received h, rest) /\
    Header.PeekConnectionID pers (bs ++ rest) = Ret (hdr_ConnectionID (received h)).
Proof.
  intros Hwf Hpv. exists (header_bytes h version).
  split; [by apply regular_Write|]. split; [by eapply regular_bytes|].
  split; [by apply regular_length|]. split; [by apply regular_Parse|].
  by apply regular_peek.
Qed.

Definition example_header : PublicHeader :=
  mkPublicHeader [] 0xdecafbad 5 false false false true 2 0x12345 0 [] (replicate 32 9).

Lemma header_roundtrip_witness :
  exists bs, Header.Write example_header 512 PerspectiveServer = (bs, Ret tt) /\ is_bytes bs /\
    Header.GetLength example_header PerspectiveServer = Ret (Z.of_nat (length bs)) /\
    Header.Parse PerspectiveServer 512 (bs ++ [1; 2]) = Ret (received example_header, [1; 2]) /\
    Header.PeekConnectionID PerspectiveServer (bs ++ [1; 2])
    = Ret (hdr_ConnectionID (received example_header)).
Proof.
  apply (header_roundtrip example_header 512 PerspectiveServer 512 [1; 2]).
  - constructor; cbn; try done; try lia; try (by right; left); try (by unfold in_range; lia).
    intros _. split; [done|]. split; [done|]. repeat constructor; done.
  - done.
Defined.

(** ** Version negotiation *)
Definition version_bytes (versions : list Z) : list Z :=
  concat (map (fun v => le_bytes 4 (VersionNumberToTag v)) versions).

Lemma writeVersions_spec versions : writeVersions versions = write (version_bytes versions).
Proof.
  induction versions as [|v vs IH]; [done|]. unfold writeVersions in *. cbn [foldr].
  rewrite IH, WriteUint32_enc. by wrun.
Qed.

Lemma length_version_bytes versions : length (version_bytes versions) = (4 * length versions)%nat.
Proof. induction versions as [|v vs IH]; [done|]. unfold version_bytes in *. cbn in *. lia. Qed.

Lemma readVersions_spec fuel versions :
  Forall (fun v => 0 <= v < 1000) versions -> (length versions < fuel)%nat ->
  Header.readVersions fuel (version_bytes versions) = Ret (versions, []).
Proof.
  revert fuel. induction versions as [|v vs IH]; intros [|fuel] Hv Hf; cbn [length] in Hf; try lia.
  - done.
  - apply Forall_cons in Hv as [Hv Hvs]. cbn [Header.readVersions].
    change (version_bytes (v :: vs)) with (le_bytes 4 (VersionNumberToTag v) ++ version_bytes vs).
    destruct (version_tag_small v Hv) as [Htag Htag32].
    rewrite readLE32, IH, Htag by (done || lia). done.
Qed.

(** A client that receives the packet [ComposeVersionNegotiation] builds reads
    exactly the versions the server offered, in their order, and the connection
    ID. *)
Theorem version_negotiation_roundtrip connectionID versions pv :
  0 < connectionID < 2 ^ 64 -> Forall (fun v => 0 <= v < 1000) versions ->
  Header.Parse PerspectiveServer pv (ComposeVersionNegotiation connectionID versions)
  = Ret (mkPublicHeader [] connectionID 0 true false false false 0 0 0 versions [], []).
Proof.
  intros Hc Hv. unfold ComposeVersionNegotiation. rewrite writeVersions_spec. unfold Header.Write.
  cbn [VersionFlag ResetFlag Header.hasNonce DiversificationNonce andb hasPacketNumber isServer isClient
    TruncateConnectionID negb MultipathFlag]. rewrite WriteUint64_enc. wrun.
  cbn [fst hdr_ConnectionID]. rewrite app_nil_r. unfold Header.Parse. cbn [app]. pbyte.
  change (Header.flagByte _ _ _ _ _ _ _) with 9. rewrite andb_false_r.
  change (Z.land 9 8 =? 0) with false. cbn [andb negb]. erewrite parser_bind_ret.
  2: { pstep readLE64.
       by destruct (Z.eqb_spec connectionID 0); [lia|]. }
  cbv beta. erewrite parser_bind_ret by done.
  change (negb (0 <? Z.land 9 2) && (0 <? Z.land 9 1)) with true. cbn [isServer].
  erewrite parser_bind_ret by done. rewrite length_version_bytes.
  replace (Z.of_nat (4 * length versions)) with (Z.of_nat (length versions) * 4) by lia.
  rewrite Z.mod_mul by lia. cbn [Z.eqb negb].
  by erewrite parser_bind_ret by (apply readVersions_spec; [done|lia]).
Qed.

Lemma version_negotiation_roundtrip_witness :
  Header.Parse PerspectiveServer VersionUnknown (ComposeVersionNegotiation 77 [512; 39; 38])
  = Ret (mkPublicHeader [] 77 0 true false false false 0 0 0 [512; 39; 38] [], []).
Proof.
  apply (version_negotiation_roundtrip 77 [512; 39; 38]); [lia|]. repeat constructor; lia.
Defined.
