(* ===== verification/HandshakeMessage.v ===== *)
(** * Handshake messages and public resets

    Models [internal/handshake/handshake_message.go], the tags of [internal/handshake/tags.go] that
    the modelled code uses, and [internal/wire/public_reset.go].  A message is a tag and a map of
    tagged values; on the wire an index of tags and end offsets comes before the values.  [Write]
    patches that index into bytes already in the buffer, so the buffer is passed explicitly. *)
From stdpp Require Import sorting.
From S2P Require Import Prelude ByteOrder PacketNumber Frames PublicHeader.

Definition CryptoMaxParams : Z := 128.
Definition CryptoParameterMaxLength : Z := 4000.

(** ** Tags *)

(** ['P' + 'R'<<8 + 'S'<<16 + 'T'<<24] *)
Fixpoint chars (s : string) : Z :=
  match s with
  | EmptyString => 0
  | String c s' => Z.of_N (Ascii.N_of_ascii c) + Z.shiftl (chars s') 8
  end.

Definition TagMSPC : Z := chars "MSPC".
Definition TagMIDS : Z := chars "MIDS".
Definition TagTCID : Z := chars "TCID".
Definition TagICSL : Z := chars "ICSL".
Definition TagCFCW : Z := chars "CFCW".
Definition TagSFCW : Z := chars "SFCW".
Definition TagCHLO : Z := chars "CHLO".
Definition TagSHLO : Z := chars "SHLO".
Definition TagPRST : Z := chars "PRST".
Definition TagRSEQ : Z := chars "RSEQ".
Definition TagRNON : Z := chars "RNON".

(** ** Slices *)

(** [binary.LittleEndian.Uint32(s)] and [Uint64] read the first bytes of a slice. *)
Definition Uint32 (s : list Z) : outcome Z :=
  if (4 <=? length s)%nat then Ret (le_val (take 4 s)) else Panic "index out of range".
Definition Uint64 (s : list Z) : outcome Z :=
  if (8 <=? length s)%nat then Ret (le_val (take 8 s)) else Panic "index out of range".

(** [s[from:to]] *)
Definition slice (s : list Z) (from to : Z) : outcome (list Z) :=
  if (0 <=? from) && (from <=? to) && (to <=? Z.of_nat (length s))
  then Ret (take (Z.to_nat (to - from)) (drop (Z.to_nat from) s))
  else Panic "slice bounds out of range".

(** [binary.LittleEndian.PutUint32(s[from:], v)] *)
Definition PutUint32 (s : list Z) (from v : Z) : outcome (list Z) :=
  if (0 <=? from) && (from + 4 <=? Z.of_nat (length s))
  then Ret (take (Z.to_nat from) s ++ le_bytes 4 v ++ drop (Z.to_nat from + 4) s)
  else Panic "index out of range".

(** [copy(dst, src)]: the slice [dst] afterwards. *)
Definition copy (dst src : list Z) : list Z :=
  let n := Nat.min (length dst) (length src) in take n src ++ drop n dst.

(** A computation without input inside a parser. *)
Definition compute {A} (o : outcome A) : Parser A := fun bs =>
  match o with
  | Ret a => Ret (a, bs)
  | Err e => Err e
  | Panic s => Panic s
  end.

(** A writer run on a buffer. *)
Definition append (w : Writer unit) (b : list Z) : outcome (list Z) :=
  match w with
  | (o, Ret _) => Ret (b ++ o)
  | (_, Err e) => Err e
  | (_, Panic s) => Panic s
  end.

(** ** The message *)
Record HandshakeMessage := mkHandshakeMessage {
  Tag : Z;
  Data : gmap Z (list Z)
}.

Module Handshake.
Definition valueTooLong : error := QuicError qerr.CryptoInvalidValueLength "value too long".

(** The loop over the index; [fuel] bounds its iterations. *)
Fixpoint readPairs (fuel : nat) (nPairs : Z) (index : list Z) (indexPos dataStart : Z)
    (resultMap : gmap Z (list Z)) : Parser (gmap Z (list Z)) :=
  match fuel with
  | O => fun _ => Panic "fuel"
  | S fuel' =>
      if indexPos <? nPairs * 8 then
        tag ← compute (slice index indexPos (indexPos + 4) ≫= Uint32);
        dataEnd ← compute (slice index (indexPos + 4) (indexPos + 8) ≫= Uint32);
        let dataLen := u32 (dataEnd - dataStart) in
        if CryptoParameterMaxLength <? dataLen then fail valueTooLong
        else
          data ← ReadFull dataLen;
          readPairs fuel' nPairs index (indexPos + 8) dataEnd (<[tag := data]> resultMap)
      else mret resultMap
  end.

Definition ParseHandshakeMessage : Parser HandshakeMessage :=
  slice4 ← ReadFull 4;
  messageTag ← compute (Uint32 slice4);
  slice4 ← ReadFull 4;
  nPairs ← compute (Uint32 slice4);
  if CryptoMaxParams <? nPairs then fail (ErrorCode qerr.CryptoTooManyEntries)
  else
    index ← ReadFull (u32 (nPairs * 8));
    resultMap ← readPairs (S (Z.to_nat nPairs)) nPairs index 0 0 ∅;
    mret (mkHandshakeMessage messageTag resultMap).

(** [order] is the order in which Go iterates over the map: any order of its keys. *)
Definition getTagsSorted (order : list Z) : list Z := merge_sort Z.le order.

(** The loop of [Write] over the sorted tags, with the buffer [b] and the index to be. *)
Fixpoint writeValues (data : gmap Z (list Z)) (i offset : Z) (tags b indexData : list Z)
    : outcome (list Z * list Z) :=
  match tags with
  | [] => Ret (b, indexData)
  | t :: tags' =>
      let v := default [] (data !! t) in
      let offset := u32 (offset + u32 (Z.of_nat (length v))) in
      indexData ← PutUint32 indexData (i * 8) t;
      indexData ← PutUint32 indexData (i * 8 + 4) offset;
      writeValues data (i + 1) offset tags' (b ++ v) indexData
  end.

Definition Write (order : list Z) (h : HandshakeMessage) (b : list Z) : outcome (list Z) :=
  let data := Data h in
  b ← append (WriteUint32 LittleEndian (Tag h);;
              WriteUint16 LittleEndian (u16 (Z.of_nat (size data)));;
              WriteUint16 LittleEndian 0) b;
  let indexStart := length b in
  let indexData := replicate (8 * size data) 0 in
  '(b, indexData) ← writeValues data 0 0 (getTagsSorted order) (b ++ indexData) indexData;
  Ret (take indexStart b ++ copy (drop indexStart b) indexData).
End Handshake.

(** ** Public resets *)
Record PublicReset := mkPublicReset {
  RejectedPacketNumber : Z;
  Nonce : Z
}.

Definition WritePublicReset (connectionID rejectedPacketNumber nonceProof : Z) : Writer unit :=
  WriteByte 0x0a;;
  WriteUint64 LittleEndian connectionID;;
  WriteUint32 LittleEndian TagPRST;;
  WriteUint32 LittleEndian 2;;
  WriteUint32 LittleEndian TagRNON;;
  WriteUint32 LittleEndian 8;;
  WriteUint32 LittleEndian TagRSEQ;;
  WriteUint32 LittleEndian 16;;
  WriteUint64 LittleEndian nonceProof;;
  WriteUint64 LittleEndian rejectedPacketNumber.

(** The value of a tag that must be eight bytes long. *)
Definition tag64 (data : gmap Z (list Z)) (tag : Z) (missing invalid : string) : Parser Z :=
  match data !! tag with
  | None => fail (ErrorString missing)
  | Some v => if negb (length v =? 8)%nat then fail (ErrorString invalid) else compute (Uint64 v)
  end.

Definition ParsePublicReset : Parser PublicReset :=
  msg ← Handshake.ParseHandshakeMessage;
  if negb (Tag msg =? TagPRST) then fail (ErrorString "wrong public reset tag")
  else
    rseq ← tag64 (Data msg) TagRSEQ "RSEQ missing" "invalid RSEQ tag";
    rnon ← tag64 (Data msg) TagRNON "RNON missing" "invalid RNON tag";
    mret (mkPublicReset rseq rnon).

(** ** Slices and index entries *)
Lemma Uint32_le_bytes v rest : is_u32 v -> Uint32 (le_bytes 4 v ++ rest) = Ret v.
Proof.
  intros Hv. unfold Uint32. rewrite length_app, length_le_bytes. cbn [Nat.leb Nat.add].
  by rewrite take_app_length' by (by rewrite length_le_bytes); rewrite le_val_small.
Qed.

Lemma Uint64_le_bytes v : is_u64 v -> Uint64 (le_bytes 8 v) = Ret v.
Proof.
  intros Hv. unfold Uint64. rewrite length_le_bytes, take_ge by (by rewrite length_le_bytes).
  cbn [Nat.leb]. by rewrite le_val_small.
Qed.

Lemma slice_middle pre mid post from to :
  from = Z.of_nat (length pre) -> to = from + Z.of_nat (length mid) ->
  slice (pre ++ mid ++ post) from to = Ret mid.
Proof.
  intros -> ->. unfold slice. rewrite !length_app.
  destruct (Z.leb_spec 0 (Z.of_nat (length pre))); [|lia].
  destruct (Z.leb_spec (Z.of_nat (length pre)) (Z.of_nat (length pre) + Z.of_nat (length mid))); [|lia].
  destruct (Z.leb_spec (Z.of_nat (length pre) + Z.of_nat (length mid))
    (Z.of_nat (length pre + (length mid + length post)))); [|lia].
  cbn [andb]. rewrite Nat2Z.id, drop_app_length. f_equal.
  apply take_app_length'. lia.
Qed.

Lemma slice_Uint32 pre v post from to :
  from = Z.of_nat (length pre) -> to = from + 4 -> is_u32 v ->
  slice (pre ++ le_bytes 4 v ++ post) from to ≫= Uint32 = Ret v.
Proof.
  intros Hf Ht Hv. rewrite slice_middle by (by rewrite ?length_le_bytes).
  change (Uint32 (le_bytes 4 v) = Ret v). rewrite <- (app_nil_r (le_bytes 4 v)). by apply Uint32_le_bytes.
Qed.

Lemma PutUint32_app pre mid post from v :
  from = Z.of_nat (length pre) -> length mid = 4%nat ->
  PutUint32 (pre ++ mid ++ post) from v = Ret (pre ++ le_bytes 4 v ++ post).
Proof.
  intros -> Hm. unfold PutUint32. rewrite !length_app.
  destruct (Z.leb_spec 0 (Z.of_nat (length pre))); [|lia].
  destruct (Z.leb_spec (Z.of_nat (length pre) + 4) (Z.of_nat (length pre + (length mid + length post)))); [|lia].
  cbn [andb]. rewrite Nat2Z.id, take_app_length, <- drop_drop, drop_app_length.
  by rewrite drop_app_length' by done.
Qed.

Lemma compute_ret {A B} (o : outcome A) a (k : A -> Parser B) bs :
  o = Ret a -> mbind k (compute o) bs = k a bs.
Proof. by intros ->. Qed.

Lemma psafe_compute {A} (o : outcome A) (Q : A -> Prop) :
  (exists a, o = Ret a /\ Q a) -> psafe (compute o) Q.
Proof. intros (a & -> & Ha). by apply psafe_ret. Qed.

(** The index and the values of the entries [kvs], the values starting at [off]. *)
Fixpoint indexBytes (off : Z) (kvs : list (Z * list Z)) : list Z :=
  match kvs with
  | [] => []
  | (t, v) :: kvs' =>
      let off := off + Z.of_nat (length v) in le_bytes 4 t ++ le_bytes 4 off ++ indexBytes off kvs'
  end.

Definition valueBytes (kvs : list (Z * list Z)) : list Z := concat (kvs.*2).

Definition wf_entry (kv : Z * list Z) : Prop :=
  is_u32 kv.1 /\ is_bytes kv.2 /\ Z.of_nat (length kv.2) <= CryptoParameterMaxLength.

Record wf_message (h : HandshakeMessage) : Prop := {
  wf_tag : is_u32 (Tag h);
  wf_size : Z.of_nat (size (Data h)) <= CryptoMaxParams;
  wf_entries : forall t v, Data h !! t = Some v -> wf_entry (t, v)
}.

Lemma length_indexBytes off kvs : length (indexBytes off kvs) = (8 * length kvs)%nat.
Proof.
  revert off. induction kvs as [|[t v] kvs IH]; intros off; [done|].
  cbn -[le_bytes]. rewrite !length_app, !length_le_bytes, IH. lia.
Qed.

Lemma length_valueBytes kvs :
  Forall wf_entry kvs -> Z.of_nat (length (valueBytes kvs)) <= 4000 * Z.of_nat (length kvs).
Proof.
  unfold valueBytes. induction 1 as [|[t v] kvs (_ & _ & Hv) _ IH]; [done|].
  cbn -[Z.mul]. rewrite length_app. unfold CryptoParameterMaxLength in Hv. cbn in Hv. lia.
Qed.

(** ** Reading the entries *)
Lemma readPairs_spec kvs : forall fuel nPairs pre off m rest,
  Forall wf_entry kvs -> (length kvs < fuel)%nat ->
  8 * nPairs = Z.of_nat (length pre) + 8 * Z.of_nat (length kvs) ->
  0 <= off -> off + Z.of_nat (length (valueBytes kvs)) < 2 ^ 32 ->
  Handshake.readPairs fuel nPairs (pre ++ indexBytes off kvs) (Z.of_nat (length pre)) off m
    (valueBytes kvs ++ rest)
  = Ret (foldl (fun m kv => <[kv.1 := kv.2]> m) m kvs, rest).
Proof.
  induction kvs as [|[t v] kvs IH]; intros fuel nPairs pre off m rest Hwf Hfuel Hn Hoff Hlen;
    (destruct fuel as [|fuel]; [cbn in Hfuel; lia|]); cbn [Handshake.readPairs length] in *.
  - by destruct (Z.ltb_spec (Z.of_nat (length pre)) (nPairs * 8)); [lia|].
  - destruct (Z.ltb_spec (Z.of_nat (length pre)) (nPairs * 8)); [|lia].
    apply Forall_cons in Hwf as [(Ht & Hb & Hv) Hwf]. cbn [fst snd] in *.
    assert (Hlen' : length (valueBytes ((t, v) :: kvs)) = (length v + length (valueBytes kvs))%nat)
      by (unfold valueBytes; cbn; by rewrite length_app).
    rewrite Hlen' in Hlen. unfold CryptoParameterMaxLength in *.
    assert (Ho : is_u32 (off + Z.of_nat (length v))) by (unfold in_range; lia).
    cbn [indexBytes].
    rewrite (compute_ret _ t) by (by apply slice_Uint32).
    rewrite (compute_ret _ (off + Z.of_nat (length v))) by (rewrite app_assoc;
      apply slice_Uint32; [rewrite length_app, length_le_bytes; lia|lia|done]).
    replace (off + Z.of_nat (length v) - off) with (Z.of_nat (length v)) by lia.
    cbv zeta. usmall. destruct (Z.ltb_spec 4000 (Z.of_nat (length v))); [lia|].
    unfold valueBytes. cbn [fmap list_fmap snd concat]. rewrite <- app_assoc.
    rewrite (parser_bind_ret (ReadFull _) _ _ v (concat (kvs.*2) ++ rest)) by (by apply ReadFull_app).
    rewrite !app_assoc.
    replace (Z.of_nat (length pre) + 8) with
      (Z.of_nat (length ((pre ++ le_bytes 4 t) ++ le_bytes 4 (off + Z.of_nat (length v)))))
      by (rewrite !length_app, !length_le_bytes; lia).
    apply IH; [done|lia| |lia|unfold valueBytes in *; lia].
    rewrite !length_app, !length_le_bytes. lia.
Qed.

(** ** Writing the entries *)
Definition entriesOf (data : gmap Z (list Z)) (tags : list Z) : list (Z * list Z) :=
  (fun t => (t, default [] (data !! t))) <$> tags.

Lemma writeValues_spec data tags : forall i off b pre,
  Z.of_nat (length pre) = 8 * i -> 0 <= off ->
  off + Z.of_nat (length (valueBytes (entriesOf data tags))) < 2 ^ 32 ->
  Handshake.writeValues data i off tags b (pre ++ replicate (8 * length tags) 0)
  = Ret (b ++ valueBytes (entriesOf data tags), pre ++ indexBytes off (entriesOf data tags)).
Proof.
  induction tags as [|t tags IH]; intros i off b pre Hpre Hoff Hlen.
  { cbn. by rewrite !app_nil_r. }
  cbn [Handshake.writeValues length].
  replace (8 * S (length tags))%nat with (4 + (4 + 8 * length tags))%nat by lia.
  rewrite !replicate_add.
  assert (Hl : length (valueBytes (entriesOf data (t :: tags)))
    = (length (default [] (data !! t)) + length (valueBytes (entriesOf data tags)))%nat)
    by (unfold valueBytes, entriesOf; cbn; by rewrite length_app).
  rewrite Hl in Hlen. usmall.
  rewrite PutUint32_app by (rewrite ?length_replicate; lia). cbn [mbind outcome_bind].
  rewrite app_assoc, PutUint32_app by (rewrite ?length_app, ?length_le_bytes, ?length_replicate; lia).
  cbn [mbind outcome_bind]. rewrite app_assoc.
  rewrite IH by (rewrite ?length_app, ?length_le_bytes; lia).
  unfold valueBytes, entriesOf. cbn [fmap list_fmap snd concat indexBytes]. by rewrite <- !app_assoc.
Qed.

(** ** The codec *)
Definition keys (data : gmap Z (list Z)) : list Z := (map_to_list data).*1.

Definition message_bytes (h : HandshakeMessage) (tags : list Z) : list Z :=
  le_bytes 4 (Tag h) ++ le_bytes 4 (Z.of_nat (size (Data h))) ++
  indexBytes 0 (entriesOf (Data h) tags) ++ valueBytes (entriesOf (Data h) tags).

Lemma le_bytes_2_2 n : is_u16 n -> le_bytes 2 n ++ le_bytes 2 0 = le_bytes 4 n.
Proof.
  intros Hn. unfold in_range in Hn. cbn [le_bytes app]. do 2 f_equal.
  rewrite Z.shiftr_shiftr by lia. rewrite (Z.shiftr_div_pow2 n (8 + 8)) by lia.
  by rewrite Z.div_small by lia.
Qed.

Lemma sort_unique order order' :
  order ≡ₚ order' -> Handshake.getTagsSorted order = Handshake.getTagsSorted order'.
Proof.
  intros Hp. unfold Handshake.getTagsSorted. apply (Sorted_unique Z.le).
  - apply Sorted_merge_sort. intros x y. lia.
  - apply Sorted_merge_sort. intros x y. lia.
  - by rewrite !merge_sort_Permutation.
Qed.

Lemma entries_permutation data tags :
  tags ≡ₚ keys data -> entriesOf data tags ≡ₚ map_to_list data.
Proof.
  intros Hp. unfold entriesOf. rewrite Hp. unfold keys. rewrite <- list_fmap_compose.
  apply Permutation_refl'. etrans; [|apply list_fmap_id].
  apply list_fmap_ext. intros i [t v] Hin%list_elem_of_lookup_2%elem_of_map_to_list. cbn.
  by rewrite Hin.
Qed.

Lemma entries_foldl data tags :
  tags ≡ₚ keys data ->
  foldl (fun m kv => <[kv.1 := kv.2]> m) ∅ (entriesOf data tags) = data.
Proof.
  intros Hp. pose proof (entries_permutation _ _ Hp) as He.
  rewrite <- (list_to_map_to_list data) at 2.
  rewrite (list_to_map_proper (map_to_list data) (reverse (entriesOf data tags))).
  - generalize (entriesOf data tags). clear. intros l. induction l as [|kv l IH] using rev_ind; [done|].
    rewrite foldl_app, reverse_snoc. cbn. by rewrite IH.
  - apply NoDup_fst_map_to_list.
  - by rewrite reverse_Permutation.
Qed.

Lemma entries_wf h tags :
  wf_message h -> tags ≡ₚ keys (Data h) ->
  Forall wf_entry (entriesOf (Data h) tags) /\ length tags = size (Data h).
Proof.
  intros Hwf Hp. pose proof (entries_permutation _ _ Hp) as He. split.
  - rewrite He. apply Forall_forall. intros [t v] Hin. apply elem_of_map_to_list in Hin.
    by apply (wf_entries h Hwf).
  - rewrite Hp. unfold keys. by rewrite length_fmap, length_map_to_list.
Qed.

Lemma Write_bytes h tags order b :
  wf_message h -> order ≡ₚ keys (Data h) -> tags = Handshake.getTagsSorted order ->
  Handshake.Write order h b = Ret (b ++ message_bytes h tags).
Proof.
  intros Hwf Hp ->. set (tags := Handshake.getTagsSorted order).
  assert (Ht : tags ≡ₚ keys (Data h)) by (unfold tags, Handshake.getTagsSorted; by rewrite merge_sort_Permutation).
  destruct (entries_wf h tags Hwf Ht) as [He Hl]. pose proof (wf_size h Hwf) as Hsize.
  pose proof (length_valueBytes _ He) as Hv. unfold entriesOf in Hv at 2. rewrite length_fmap, Hl in Hv.
  unfold CryptoMaxParams in Hsize. set (n := Z.of_nat (size (Data h))) in *.
  unfold Handshake.Write. fold tags. rewrite !WriteUint32_enc, !WriteUint16_enc.
  cbn [mbind outcome_bind writer_bind write append]. fold n. rewrite (uN_small 16 n) by (unfold in_range; lia).
  rewrite (le_bytes_2_2 n) by (unfold in_range; lia).
  set (hd := b ++ le_bytes 4 (Tag h) ++ le_bytes 4 n).
  pose proof (writeValues_spec (Data h) tags 0 0 (hd ++ replicate (8 * size (Data h)) 0) []
    eq_refl ltac:(lia) ltac:(lia)) as E. rewrite Hl in E. cbn [app] in E. rewrite E.
  cbn [mbind outcome_bind].
  rewrite <- app_assoc, take_app_length, drop_app_length. unfold copy.
  assert (Hle : length (entriesOf (Data h) tags) = size (Data h))
    by (unfold entriesOf; by rewrite length_fmap).
  rewrite !length_app, length_indexBytes, length_replicate, Hle.
  replace (Nat.min _ _) with (8 * size (Data h))%nat by lia.
  rewrite drop_app_length' by (by rewrite length_replicate).
  rewrite take_ge by (rewrite length_indexBytes; lia).
  unfold hd, message_bytes. by rewrite <- !app_assoc.
Qed.

Lemma Parse_bytes h tags rest :
  wf_message h -> tags ≡ₚ keys (Data h) ->
  Handshake.ParseHandshakeMessage (message_bytes h tags ++ rest) = Ret (h, rest).
Proof.
  intros Hwf Ht. destruct (entries_wf h tags Hwf Ht) as [He Hl].
  pose proof (length_valueBytes _ He) as Hv. pose proof (wf_size h Hwf) as Hsize.
  pose proof (wf_tag h Hwf) as Htag. unfold CryptoMaxParams in Hsize.
  assert (Hle : length (entriesOf (Data h) tags) = size (Data h))
    by (unfold entriesOf; by rewrite length_fmap).
  rewrite Hle in Hv. unfold Handshake.ParseHandshakeMessage, message_bytes. rewrite <- !app_assoc.
  pstep (ReadFull_app 4 (le_bytes 4 (Tag h))).
  rewrite (compute_ret _ (Tag h)) by (rewrite <- (app_nil_r (le_bytes 4 _)); by apply Uint32_le_bytes).
  pstep (ReadFull_app 4 (le_bytes 4 _)).
  rewrite (compute_ret _ (Z.of_nat (size (Data h))))
    by (rewrite <- (app_nil_r (le_bytes 4 _)); apply Uint32_le_bytes; unfold in_range; lia).
  unfold CryptoMaxParams. destruct (Z.ltb_spec 128 (Z.of_nat (size (Data h)))); [lia|]. usmall.
  rewrite (parser_bind_ret (ReadFull _) _ _ (indexBytes 0 (entriesOf (Data h) tags))
    (valueBytes (entriesOf (Data h) tags) ++ rest)) by (apply ReadFull_app; rewrite length_indexBytes; lia).
  erewrite parser_bind_ret.
  2: { apply (readPairs_spec _ _ _ [] 0); cbn [length]; [done|lia..]. }
  rewrite entries_foldl by done. by destruct h.
Qed.

(** C31: Handshake messages survive the wire: whatever order Go iterates over the map in, [Write]
    appends the same bytes to the buffer, with the tags in ascending order, and
    [ParseHandshakeMessage] reads from them the message that was written and nothing more.  The
    message may have up to 128 entries of up to 4000 bytes. *)
Theorem handshake_roundtrip (h : HandshakeMessage) :
  wf_message h ->
  exists tags, Sorted Z.le tags /\ tags ≡ₚ keys (Data h) /\
    (forall order b, order ≡ₚ keys (Data h) ->
       Handshake.Write order h b = Ret (b ++ message_bytes h tags)) /\
    (forall rest, Handshake.ParseHandshakeMessage (message_bytes h tags ++ rest) = Ret (h, rest)).
Proof.
  intros Hwf. exists (Handshake.getTagsSorted (keys (Data h))).
  assert (Ht : Handshake.getTagsSorted (keys (Data h)) ≡ₚ keys (Data h))
    by apply merge_sort_Permutation.
  split; [apply Sorted_merge_sort; intros x y; lia|]. split; [done|]. split.
  - intros order b Hp. apply Write_bytes; [done..|]. symmetry. by apply sort_unique.
  - intros rest. by apply Parse_bytes.
Qed.

Definition sampleMessage : HandshakeMessage :=
  mkHandshakeMessage TagPRST (<[TagRSEQ := [1; 2; 3; 4; 5; 6; 7; 8]]> {[TagRNON := [9]]}).

Lemma handshake_roundtrip_witness :
  wf_message sampleMessage /\
  exists out, Handshake.Write [TagRSEQ; TagRNON] sampleMessage [0xff] = Ret (0xff :: out) /\
    Handshake.ParseHandshakeMessage out = Ret (sampleMessage, []).
Proof.
  assert (Hwf : wf_message sampleMessage).
  { split; [by vm_compute..|]. intros t v Hv. unfold sampleMessage in Hv. cbn [Data] in Hv.
    apply lookup_insert_Some in Hv as [[<- <-]|[_ Hv]]; [|apply lookup_singleton_Some in Hv as [<- <-]].
    all: split; [by vm_compute|]; split; [|by vm_compute].
    all: repeat (constructor; [done|]); constructor. }
  split; [exact Hwf|].
  destruct (handshake_roundtrip sampleMessage Hwf) as (tags & _ & _ & Hw & Hp).
  exists (message_bytes sampleMessage tags). split.
  - apply (Hw [TagRSEQ; TagRNON] [0xff]). vm_compute. reflexivity.
  - rewrite <- (app_nil_r (message_bytes _ _)). apply Hp.
Defined.

(** ** Arbitrary input *)
Lemma Uint32_total s : (4 <= length s)%nat -> is_bytes s -> exists v, Uint32 s = Ret v /\ is_u32 v.
Proof.
  intros Hl Hb. unfold Uint32. destruct (Nat.leb_spec 4 (length s)); [|lia].
  eexists. split; [done|]. pose proof (le_val_range (take 4 s)) as Hr.
  rewrite length_take, Nat.min_l in Hr by lia. apply Hr. by apply Forall_take.
Qed.

Lemma slice_total s from to :
  0 <= from <= to -> to <= Z.of_nat (length s) -> is_bytes s ->
  exists x, slice s from to = Ret x /\ is_bytes x /\ Z.of_nat (length x) = to - from.
Proof.
  intros Hf Ht Hb. unfold slice.
  destruct (Z.leb_spec 0 from), (Z.leb_spec from to), (Z.leb_spec to (Z.of_nat (length s))); try lia.
  cbn [andb]. eexists. split; [done|]. split; [by apply Forall_take, Forall_drop|].
  rewrite length_take, length_drop. lia.
Qed.

Lemma psafe_word index from to :
  0 <= from -> to = from + 4 -> to <= Z.of_nat (length index) -> is_bytes index ->
  psafe (compute (slice index from to ≫= Uint32)) is_u32.
Proof.
  intros Hf -> Ht Hb. apply psafe_compute.
  destruct (slice_total index from (from + 4)) as (x & -> & Hx & Hl); [lia..|done|].
  apply Uint32_total; [lia|done].
Qed.

Lemma psafe_readPairs fuel : forall nPairs index k dataStart m,
  0 <= k <= nPairs -> (Z.to_nat (nPairs - k) < fuel)%nat ->
  is_bytes index -> Z.of_nat (length index) = 8 * nPairs ->
  map_Forall (fun t v => wf_entry (t, v)) m -> Z.of_nat (size m) <= k ->
  psafe (Handshake.readPairs fuel nPairs index (8 * k) dataStart m)
    (fun m' => map_Forall (fun t v => wf_entry (t, v)) m' /\ Z.of_nat (size m') <= nPairs).
Proof.
  induction fuel as [|fuel IH]; intros nPairs index k dataStart m Hk Hf Hb Hl Hm Hs; [lia|].
  cbn [Handshake.readPairs]. destruct (Z.ltb_spec (8 * k) (nPairs * 8)).
  2: { apply psafe_ret. split; [done|lia]. }
  eapply psafe_bind; [apply psafe_word; [lia..|done]|]. intros tag Htag.
  eapply psafe_bind; [apply psafe_word; [lia..|done]|]. intros dataEnd Hend.
  cbv zeta. destruct (Z.ltb_spec CryptoParameterMaxLength (u32 (dataEnd - dataStart))) as [|Hlen];
    [apply psafe_fail|].
  pnext data [Hd Hdl]. pose proof (u32_range (dataEnd - dataStart)) as [? _].
  replace (8 * k + 8) with (8 * (k + 1)) by lia. apply IH; [lia|lia|done|done| |].
  - apply map_Forall_insert_2; [|done]. split; [done|]. split; [done|]. cbn. by rewrite Hdl.
  - rewrite map_size_insert. destruct (m !! tag); cbn [id]; lia.
Qed.

Lemma psafe_ParseHandshakeMessage : psafe Handshake.ParseHandshakeMessage wf_message.
Proof.
  unfold Handshake.ParseHandshakeMessage.
  pnext s [Hb Hl]. eapply psafe_bind; [apply psafe_compute, Uint32_total; [lia|done]|]. intros tag Htag.
  pnext s' [Hb' Hl']. eapply psafe_bind; [apply psafe_compute, Uint32_total; [lia|done]|]. intros n Hn.
  destruct (Z.ltb_spec CryptoMaxParams n); [apply psafe_fail|].
  unfold CryptoMaxParams, in_range in *. usmall. pnext index [Hi Hil].
  eapply psafe_bind.
  { change 0 with (8 * 0) at 1. apply psafe_readPairs; [lia|lia|done|lia| |].
    - apply map_Forall_empty.
    - by rewrite map_size_empty. }
  intros m [Hm Hs]. apply psafe_ret. split; [done| |exact Hm]. unfold CryptoMaxParams. cbn. lia.
Qed.
#[export] Hint Resolve psafe_ParseHandshakeMessage : psafe.

(** Whatever bytes a peer sends, [ParseHandshakeMessage] reads a prefix of them without indexing
    a slice out of range, in at most one iteration per announced entry.  A message it returns has at
    most 128 entries, none longer than 4000 bytes, although the lengths are differences of the
    peer's offsets in 32-bit arithmetic; written again, it is read back unchanged. *)
Theorem handshake_parse_sound (bs : list Z) :
  is_bytes bs ->
  match Handshake.ParseHandshakeMessage bs with
  | Ret (h, rest) =>
      rest `suffix_of` bs /\ wf_message h /\
      forall order, order ≡ₚ keys (Data h) ->
      exists out, Handshake.Write order h [] = Ret out /\
        Handshake.ParseHandshakeMessage out = Ret (h, [])
  | Err _ => True
  | Panic _ => False
  end.
Proof.
  intros Hb. pose proof (psafe_ParseHandshakeMessage bs Hb) as H.
  destruct (Handshake.ParseHandshakeMessage bs) as [[h rest]| |]; [|done..].
  destruct H as (Hwf & _ & Hs). split; [done|]. split; [done|]. intros order Hp.
  assert (Ht : Handshake.getTagsSorted order ≡ₚ keys (Data h))
    by (unfold Handshake.getTagsSorted; by rewrite merge_sort_Permutation).
  exists (message_bytes h (Handshake.getTagsSorted order)).
  split; [by apply (Write_bytes h _ order [])|].
  rewrite <- (app_nil_r (message_bytes _ _)). by apply Parse_bytes.
Qed.

Lemma handshake_parse_sound_witness :
  let bs := le_bytes 4 TagPRST ++ [1; 0; 0; 0] ++ le_bytes 4 TagRNON ++ [2; 0; 0; 0; 7; 8; 9] in
  is_bytes bs /\
  Handshake.ParseHandshakeMessage bs = Ret (mkHandshakeMessage TagPRST {[TagRNON := [7; 8]]}, [9]) /\
  exists out, Handshake.Write [TagRNON] (mkHandshakeMessage TagPRST {[TagRNON := [7; 8]]}) [] = Ret out /\
    Handshake.ParseHandshakeMessage out = Ret (mkHandshakeMessage TagPRST {[TagRNON := [7; 8]]}, []).
Proof.
  cbv zeta. set (bs := _ ++ _).
  assert (Hb : is_bytes bs) by (repeat (apply Forall_cons; split; [by vm_compute|]); apply Forall_nil_2).
  assert (Hr : Handshake.ParseHandshakeMessage bs
    = Ret (mkHandshakeMessage TagPRST {[TagRNON := [7; 8]]}, [9])) by (vm_compute; reflexivity).
  split; [exact Hb|]. split; [exact Hr|].
  pose proof (handshake_parse_sound bs Hb) as H. rewrite Hr in H.
  destruct H as (_ & _ & H). apply H. vm_compute. reflexivity.
Defined.

(** ** Public resets *)
Lemma psafe_tag64 data tag missing invalid :
  map_Forall (fun t v => wf_entry (t, v)) data -> psafe (tag64 data tag missing invalid) is_u64.
Proof.
  intros Hd. unfold tag64. destruct (data !! tag) as [v|] eqn:E; [|apply psafe_fail].
  destruct (Nat.eqb_spec (length v) 8) as [Hl|]; [|apply psafe_fail]. cbn [negb].
  apply psafe_compute. unfold Uint64. destruct (Nat.leb_spec 8 (length v)); [|lia].
  eexists. split; [done|]. rewrite take_ge by lia. destruct (Hd tag v E) as (_ & Hv & _).
  pose proof (le_val_range v Hv) as Hr. by rewrite Hl in Hr.
Qed.

Lemma psafe_ParsePublicReset :
  psafe ParsePublicReset (fun pr => is_u64 (RejectedPacketNumber pr) /\ is_u64 (Nonce pr)).
Proof.
  unfold ParsePublicReset. pnext msg Hwf. destruct (negb (Tag msg =? TagPRST)); [apply psafe_fail|].
  eapply psafe_bind; [apply psafe_tag64; exact (wf_entries msg Hwf)|]. intros rseq Hrseq.
  eapply psafe_bind; [apply psafe_tag64; exact (wf_entries msg Hwf)|]. intros rnon Hrnon. by apply psafe_ret.
Qed.

(** The message a public reset carries. *)
Definition resetMessage (rejected nonceProof : Z) : HandshakeMessage :=
  mkHandshakeMessage TagPRST
    (<[TagRNON := le_bytes 8 nonceProof]> {[TagRSEQ := le_bytes 8 rejected]}).

Lemma resetMessage_wf rejected nonceProof : wf_message (resetMessage rejected nonceProof).
Proof.
  split; [by vm_compute..|]. intros t v Hv. cbn [resetMessage Data] in Hv.
  apply lookup_insert_Some in Hv as [[<- <-]|[_ [<- <-]%lookup_singleton_Some]].
  all: split; [by vm_compute|]; split; [apply le_bytes_is_bytes|].
  all: cbn [snd]; by rewrite length_le_bytes.
Qed.

Lemma resetMessage_keys rejected nonceProof :
  [TagRNON; TagRSEQ] ≡ₚ keys (Data (resetMessage rejected nonceProof)).
Proof.
  unfold keys. cbn [resetMessage Data]. rewrite map_to_list_insert by (by vm_compute).
  rewrite map_to_list_singleton. done.
Qed.

Definition resetBody (rejected nonceProof : Z) : list Z :=
  message_bytes (resetMessage rejected nonceProof) [TagRNON; TagRSEQ].

Lemma resetMessage_entries rejected nonceProof :
  entriesOf (Data (resetMessage rejected nonceProof)) [TagRNON; TagRSEQ]
  = [(TagRNON, le_bytes 8 nonceProof); (TagRSEQ, le_bytes 8 rejected)].
Proof.
  unfold entriesOf. cbn [fmap list_fmap resetMessage Data].
  rewrite lookup_insert_eq, lookup_insert_ne, lookup_singleton_eq by (by vm_compute). done.
Qed.

Lemma tag64_ret {B} data tag missing invalid v bs (k : Z -> Parser B) :
  is_u64 v -> data !! tag = Some (le_bytes 8 v) ->
  mbind k (tag64 data tag missing invalid) bs = k v bs.
Proof.
  intros Hv Hd. unfold tag64. rewrite Hd, length_le_bytes. cbn [Nat.eqb negb].
  by apply compute_ret, Uint64_le_bytes.
Qed.

Lemma WritePublicReset_bytes connectionID rejected nonceProof :
  WritePublicReset connectionID rejected nonceProof
  = write (0x0a :: le_bytes 8 connectionID ++ resetBody rejected nonceProof).
Proof.
  unfold WritePublicReset. rewrite !WriteUint64_enc, !WriteUint32_enc.
  unfold resetBody, message_bytes, valueBytes. rewrite resetMessage_entries.
  change (size (Data (resetMessage rejected nonceProof))) with 2%nat.
  cbn [fmap list_fmap snd concat indexBytes Tag resetMessage]. rewrite !length_le_bytes.
  rewrite app_nil_r. cbn [app]. rewrite <- !app_assoc. done.
Qed.

(** A public reset is understood by the client that gets it: the public header of the packet
    written by [WritePublicReset] parses as a reset of the connection, whatever version is in use,
    and the rest parses as the packet number and the nonce that were written. *)
Theorem public_reset_roundtrip (version connectionID rejected nonceProof : Z) :
  0 < connectionID < 2 ^ 64 -> is_u64 rejected -> is_u64 nonceProof ->
  exists packet body hdr,
    WritePublicReset connectionID rejected nonceProof = write packet /\
    Header.Parse PerspectiveServer version packet = Ret (hdr, body) /\
    ResetFlag hdr = true /\ hdr_ConnectionID hdr = connectionID /\
    ParsePublicReset body = Ret (mkPublicReset rejected nonceProof, []).
Proof.
  intros Hc Hr Hn. eexists _, (resetBody rejected nonceProof), _.
  split; [apply WritePublicReset_bytes|]. split; [|split; [|split]].
  - unfold Header.Parse. pbyte.
    change (0 <? Z.land 10 2) with true. change (0 <? Z.land 10 1) with false.
    change (Z.land 10 8 =? 0) with false. change (0 <? Z.land 10 4) with false.
    change (0 <? Z.land 10 0x40) with false. rewrite andb_false_r. cbn [andb negb isClient isServer].
    rewrite (parser_bind_ret _ _ _ connectionID (resetBody rejected nonceProof)); [reflexivity|].
    rewrite (parser_bind_ret _ _ _ connectionID (resetBody rejected nonceProof))
      by (apply readLE64; unfold in_range; lia).
    destruct (Z.eqb_spec connectionID 0); [lia|done].
  - done.
  - done.
  - unfold ParsePublicReset, resetBody. rewrite <- (app_nil_r (message_bytes _ _)).
    erewrite parser_bind_ret by (apply Parse_bytes; [apply resetMessage_wf|apply resetMessage_keys]).
    cbn [resetMessage Tag Data]. rewrite Z.eqb_refl. cbn [negb].
    rewrite (tag64_ret _ _ _ _ rejected) by (first [done|by rewrite lookup_insert_ne, lookup_singleton_eq]).
    by rewrite (tag64_ret _ _ _ _ nonceProof) by (first [done|apply lookup_insert_eq]).
Qed.

Lemma public_reset_roundtrip_witness :
  exists packet body hdr,
    WritePublicReset 0xfeed 7 0xdeadbeef = write packet /\
    Header.Parse PerspectiveServer 39 packet = Ret (hdr, body) /\
    ResetFlag hdr = true /\ hdr_ConnectionID hdr = 0xfeed /\
    ParsePublicReset body = Ret (mkPublicReset 7 0xdeadbeef, []).
Proof. apply public_reset_roundtrip; unfold in_range; lia. Defined.
