(* ===== verification/Unpacker.v ===== *)
(** * Frames and the packet unpacker

    Models the interface [wire.Frame] of [internal/wire/frame.go] as the sum of the frame types,
    with the method dispatch of [Write] and [MinLength], and [packet_unpacker.go]: the loop that
    cuts the decrypted payload of a packet into frames.  Decryption is the interface [quicAEAD],
    an argument of [Unpack]; the text of an error code ([qerr.ErrorCode.String], generated code) is
    an argument where the source wraps errors. *)
From stdpp Require Import pretty.
From S2P Require Import Prelude ByteOrder PacketNumber Frames AckRanges AckFrame.
From S2P Require Import PathsFrame PublicHeader.
Open Scope Z_scope.
Open Scope go_scope.

(** ** Frames *)
Inductive Frame :=
  | FStream (f : StreamFrame)
  | FAck (f : AckFrame)
  | FRstStream (f : RstStreamFrame)
  | FConnectionClose (f : ConnectionCloseFrame)
  | FGoaway (f : GoawayFrame)
  | FWindowUpdate (f : WindowUpdateFrame)
  | FBlocked (f : BlockedFrame)
  | FStopWaiting (f : StopWaitingFrame)
  | FPing (f : PingFrame)
  | FAddAddress (f : AddAddressFrame)
  | FClosePath (f : ClosePathFrame)
  | FPaths (f : PathsFrame).

(** [frame.Write(b, version)] at time [now] *)
Definition writeFrame (parseIPv6 : list Z -> option (list Z)) (now version : Z) (f : Frame)
    : Writer unit :=
  match f with
  | FStream f => Stream.Write f version
  | FAck f => (Ack.Write f now version).2
  | FRstStream f => RstStream.Write f version
  | FConnectionClose f => ConnectionClose.Write f version
  | FGoaway f => Goaway.Write f version
  | FWindowUpdate f => WindowUpdate.Write f version
  | FBlocked f => Blocked.Write f version
  | FStopWaiting f => StopWaiting.Write f version
  | FPing f => Ping.Write f version
  | FAddAddress f => AddAddress.Write f version
  | FClosePath f => ClosePath.Write f version
  | FPaths f => Paths.Write parseIPv6 version f
  end.

(** [frame.MinLength(version)] *)
Definition minLength (f : Frame) : outcome Z :=
  match f with
  | FStream f => Stream.MinLength f
  | FAck f => Ack.MinLength f
  | FRstStream f => RstStream.MinLength f
  | FConnectionClose f => ConnectionClose.MinLength f
  | FGoaway f => Goaway.MinLength f
  | FWindowUpdate f => WindowUpdate.MinLength f
  | FBlocked f => Blocked.MinLength f
  | FStopWaiting f => StopWaiting.MinLength f
  | FPing f => Ping.MinLength f
  | FAddAddress f => AddAddress.MinLength f
  | FClosePath f => ClosePath.MinLength f
  | FPaths f => Paths.MinLength f
  end.

(** ** Encryption levels *)
Inductive EncryptionLevel :=
  | EncryptionUnspecified
  | EncryptionUnencrypted
  | EncryptionSecure
  | EncryptionForwardSecure.

#[export] Instance EncryptionLevel_eq_dec : EqDecision EncryptionLevel.
Proof. solve_decision. Defined.

(** [level <= protocol.EncryptionUnencrypted] *)
Definition atMostUnencrypted (level : EncryptionLevel) : bool :=
  match level with EncryptionUnspecified | EncryptionUnencrypted => true | _ => false end.

(** ** Errors *)
Module codes.
Definition InvalidFrameData : Z := 4.
Definition InvalidRstStreamData : Z := 6.
Definition InvalidAckData : Z := 9.
Definition DecryptionFailure : Z := 12.
Definition MissingPayload : Z := 48.
Definition InvalidWindowUpdateData : Z := 57.
Definition InvalidBlockedData : Z := 58.
Definition UnencryptedStreamData : Z := 61.
End codes.

(** [fmt.Sprintf("%x", b)] of a byte *)
Definition hexDigit (d : Z) : string :=
  match d with
  | 10 => "a" | 11 => "b" | 12 => "c" | 13 => "d" | 14 => "e" | 15 => "f"
  | _ => pretty d
  end.
Definition hexByte (b : Z) : string :=
  if b <? 16 then hexDigit b else hexDigit (b `div` 16) +:+ hexDigit (b `mod` 16).

Definition unknownType (typeByte : Z) : error :=
  QuicError codes.InvalidFrameData ("unknown type byte 0x" +:+ hexByte typeByte).
Definition unencryptedData (streamID : Z) : error :=
  QuicError codes.UnencryptedStreamData
    ("received unencrypted stream data on stream " +:+ pretty streamID).
Definition congestionFeedback : error := ErrorString "unimplemented: CONGESTION_FEEDBACK".

Record unpackedPacket := mkUnpackedPacket {
  encryptionLevel : EncryptionLevel;
  frames : list Frame
}.

Module Unpacker.
Section Unpack.
Context (codeString : Z -> string) (version : Z).

(** [err.Error()] *)
Definition errorText (e : error) : string :=
  match e with
  | EOF => "EOF"
  | ErrUnexpectedEOF => "unexpected EOF"
  | ErrorString s => s
  | ErrorCode code => codeString code
  | QuicError code msg => codeString code +:+ ": " +:+ msg
  end.

(** [if err != nil { err = qerr.Error(code, err.Error()) }] *)
Definition wrapped {A} (code : Z) (p : Parser A) : Parser A := fun bs =>
  match p bs with
  | Err e => Err (QuicError code (errorText e))
  | r => r
  end.

Definition parseStream (level : EncryptionLevel) : Parser Frame :=
  f ← wrapped qerr.InvalidStreamData (Stream.Parse version);
  if negb (StreamID f =? 1) && atMostUnencrypted level
  then fail (unencryptedData (StreamID f))
  else mret (FStream f).

(** One frame; [typeByte] is the next byte, which is still unread. *)
Definition parseFrame (hdr : PublicHeader) (level : EncryptionLevel) (typeByte : Z)
    : Parser Frame :=
  if Z.land typeByte 0x80 =? 0x80 then parseStream level
  else if Z.land typeByte 0xc0 =? 0x40
  then FAck <$$> wrapped codes.InvalidAckData (Ack.Parse version)
  else if Z.land typeByte 0xe0 =? 0x20 then fail congestionFeedback
  else match typeByte with
  | 0x01 => FRstStream <$$> wrapped codes.InvalidRstStreamData (RstStream.Parse version)
  | 0x02 => FConnectionClose <$$>
              wrapped qerr.InvalidConnectionCloseData (ConnectionClose.Parse version)
  | 0x03 => FGoaway <$$> wrapped qerr.InvalidGoawayData (Goaway.Parse version)
  | 0x04 => FWindowUpdate <$$> wrapped codes.InvalidWindowUpdateData (WindowUpdate.Parse version)
  | 0x05 => FBlocked <$$> wrapped codes.InvalidBlockedData (Blocked.Parse version)
  | 0x06 => FStopWaiting <$$> wrapped qerr.InvalidStopWaitingData
              (StopWaiting.Parse (hdr_PacketNumber hdr) (hdr_PacketNumberLen hdr) version)
  | 0x07 => FPing <$$> Ping.Parse version
  | 0x10 => FAddAddress <$$> AddAddress.Parse version
  | 0x11 => FClosePath <$$> ClosePath.Parse version
  | 0x12 => FPaths <$$> Paths.Parse version
  | _ => fail (unknownType typeByte)
  end.

(** [for r.Len() > 0]: every iteration reads at least one byte, so the length of the payload is
    enough fuel. *)
Fixpoint readFrames (hdr : PublicHeader) (level : EncryptionLevel) (fuel : nat) (fs : list Frame)
    (bs : list Z) : outcome (list Frame) :=
  match bs with
  | [] => Ret fs
  | typeByte :: rest =>
      match fuel with
      | O => Panic "out of fuel"
      | S fuel' =>
          if typeByte =? 0x0 then readFrames hdr level fuel' fs rest
          else
            match parseFrame hdr level typeByte bs with
            | Ret (frame, rest) => readFrames hdr level fuel' (fs ++ [frame]) rest
            | Err e => Err e
            | Panic s => Panic s
            end
      end
  end.

(** [Open] is [u.aead.Open], with the buffer it decrypts into left out. *)
Definition Unpack (Open : list Z -> Z -> list Z -> outcome (list Z * EncryptionLevel))
    (publicHeaderBinary : list Z) (hdr : PublicHeader) (data : list Z) : outcome unpackedPacket :=
  match Open data (hdr_PacketNumber hdr) publicHeaderBinary with
  | Err e => Err (QuicError codes.DecryptionFailure (errorText e))
  | Panic s => Panic s
  | Ret (decrypted, level) =>
      match decrypted with
      | [] => Err (ErrorCode codes.MissingPayload)
      | _ =>
          fs ← readFrames hdr level (length decrypted) [] decrypted;
          Ret (mkUnpackedPacket level fs)
      end
  end.
End Unpack.
End Unpacker.

(** ** The unpacker on arbitrary payloads *)

(** What is guaranteed of every frame that reaches the session. *)
Definition parsed_frame (hdr : PublicHeader) (level : EncryptionLevel) (f : Frame) : Prop :=
  match f with
  | FStream f => parsed_stream f /\ (atMostUnencrypted level = true -> StreamID f = 1)
  | FAck f => is_u8 (PathID f) /\ accepted (AckRanges f) (LargestAcked f) (LowestAcked f) /\
      0 <= DelayTime f <= uFloat16MaxValue * Microsecond
  | FRstStream f => is_u32 (rst_StreamID f) /\ is_u64 (rst_ByteOffset f) /\ is_u32 (rst_ErrorCode f)
  | FConnectionClose f => is_u32 (cc_ErrorCode f) /\ is_bytes (cc_ReasonPhrase f) /\
      Z.of_nat (length (cc_ReasonPhrase f)) <= MaxPacketSize
  | FGoaway f => is_u32 (ga_ErrorCode f) /\ is_u32 (ga_LastGoodStream f) /\
      is_bytes (ga_ReasonPhrase f) /\ Z.of_nat (length (ga_ReasonPhrase f)) <= MaxPacketSize
  | FWindowUpdate f => is_u32 (wu_StreamID f) /\ is_u64 (wu_ByteOffset f)
  | FBlocked f => is_u32 (bl_StreamID f)
  | FStopWaiting f => 1 <= sw_LeastUnacked f <= hdr_PacketNumber hdr
  | FAddAddress f => is_u16 (aa_Port f)
  | FClosePath f => is_u8 (cp_PathID f) /\
      accepted (cp_AckRanges f) (cp_LargestAcked f) (cp_LowestAcked f)
  | FPing _ => True
  | FPaths f => parsed_paths f
  end.

Section Sound.
Context (codeString : Z -> string) (version : Z) (hdr : PublicHeader) (level : EncryptionLevel).
Context (Hpn : is_u64 (hdr_PacketNumber hdr)) (Hlen : 0 <= hdr_PacketNumberLen hdr <= 8).

Lemma preads_wrapped {A} code (p : Parser A) Q :
  preads p Q -> preads (Unpacker.wrapped codeString code p) Q.
Proof.
  intros [Hp Hr]. unfold Unpacker.wrapped. split.
  - intros bs Hbs. specialize (Hp bs Hbs). by destruct (p bs) as [[a rest]| |].
  - intros bs a rest Hbs. destruct (p bs) as [[a' rest']| |] eqn:E; [|done..].
    intros [= <- <-]. by eapply Hr.
Qed.

Lemma preads_stop_waiting :
  preads (StopWaiting.Parse (hdr_PacketNumber hdr) (hdr_PacketNumberLen hdr) version)
    (fun f => 1 <= sw_LeastUnacked f <= hdr_PacketNumber hdr).
Proof. by apply preads_StopWaiting. Qed.

Lemma preads_parseStream :
  preads (Unpacker.parseStream codeString version level) (parsed_frame hdr level).
Proof.
  destruct (preads_wrapped qerr.InvalidStreamData _ _ (preads_Stream version)) as [Hp Hr].
  unfold Unpacker.parseStream. split.
  - eapply psafe_bind; [apply Hp|]. intros f Hf. case_match eqn:E; [apply psafe_fail|].
    apply psafe_ret. split; [done|]. intros Hl. rewrite Hl, andb_true_r in E. lia.
  - intros bs a rest Hbs. unfold mbind, parser_bind.
    destruct (Unpacker.wrapped _ _ _ bs) as [[f rest']| |] eqn:E; [|done..].
    case_match; [done|]. intros [= <- <-]. by eapply Hr.
Qed.

#[local] Hint Resolve preads_parseStream preads_stop_waiting preads_wrapped preads_pmap preads_fail
  preads_Paths : preads.

Lemma preads_parseFrame typeByte :
  preads (Unpacker.parseFrame codeString version hdr level typeByte) (parsed_frame hdr level).
Proof.
  unfold Unpacker.parseFrame. repeat (case_match; try apply preads_fail); eauto with preads.
Qed.

Lemma readFrames_sound fuel bs fs :
  (length bs <= fuel)%nat -> is_bytes bs -> Forall (parsed_frame hdr level) fs ->
  match Unpacker.readFrames codeString version hdr level fuel fs bs with
  | Ret fs' => Forall (parsed_frame hdr level) fs'
  | Err _ => True
  | Panic _ => False
  end.
Proof.
  revert bs fs. induction fuel as [|fuel IH]; intros [|tb bs] fs Hf Hbs Hfs; cbn in Hf; try done;
    [lia|]. cbn [Unpacker.readFrames]. destruct (tb =? 0).
  - apply Forall_cons in Hbs as [_ Hbs]. apply IH; [lia|done..].
  - destruct (preads_parseFrame tb) as [Hp Hr]. specialize (Hp _ Hbs). specialize (Hr (tb :: bs)).
    destruct (Unpacker.parseFrame _ _ _ _ _ _) as [[f rest]| |]; [|done..].
    destruct Hp as (Hf' & Hrest & _). specialize (Hr f rest Hbs eq_refl). cbn in Hr.
    apply IH; [lia|done|]. apply Forall_app_2; [done|by constructor].
Qed.
End Sound.

Lemma Unpack_parsed codeString version Open ad hdr data payload level :
  is_u64 (hdr_PacketNumber hdr) -> 0 <= hdr_PacketNumberLen hdr <= 8 ->
  Open data (hdr_PacketNumber hdr) ad = Ret (payload, level) -> is_bytes payload ->
  match Unpacker.Unpack codeString version Open ad hdr data with
  | Ret p => encryptionLevel p = level /\ Forall (parsed_frame hdr level) (frames p)
  | Err _ => True
  | Panic _ => False
  end.
Proof.
  intros Hpn Hlen Hopen Hb. unfold Unpacker.Unpack. rewrite Hopen. destruct payload as [|b bs]; [done|].
  pose proof (readFrames_sound codeString version hdr level Hpn Hlen _ (b :: bs) [] (le_n _) Hb
    ltac:(constructor)) as H.
  unfold mbind, outcome_bind. by destruct (Unpacker.readFrames _ _ _ _ _ _ _).
Qed.

(** C25: Unpacking is total and sound on every payload: whatever bytes decryption yields, the frame
    loop ends without a panic, and every frame it hands on is well formed: stream data ends below
    2^64 and is not empty without FIN, no stream but the crypto stream 1 is accepted on an
    unencrypted packet, ACK and CLOSE_PATH ranges are ordered and disjoint, a STOP_WAITING frame
    never points above its packet, and a PATHS frame has as many entries as it announces. *)
Theorem unpack_sound codeString version Open ad hdr data payload level :
  is_u64 (hdr_PacketNumber hdr) -> 0 <= hdr_PacketNumberLen hdr <= 8 ->
  Open data (hdr_PacketNumber hdr) ad = Ret (payload, level) -> is_bytes payload ->
  match Unpacker.Unpack codeString version Open ad hdr data with
  | Ret p => encryptionLevel p = level /\ Forall (parsed_frame hdr level) (frames p)
  | Err _ => True
  | Panic _ => False
  end.
Proof. apply Unpack_parsed. Qed.

Definition example_hdr : PublicHeader :=
  mkPublicHeader [] 7 1 false false false true 2 300 0 [] [].

(** An [Open] that strips a 2-byte tag. *)
Definition example_open (data : list Z) (pn : Z) (ad : list Z)
    : outcome (list Z * EncryptionLevel) := Ret (drop 2 data, EncryptionForwardSecure).

Lemma unpack_sound_witness :
  match Unpacker.Unpack (fun _ => "") 512 example_open [] example_hdr
          [1; 2; 0; 7; 0xa0; 5; 0; 1; 77; 0] with
  | Ret p => encryptionLevel p = EncryptionForwardSecure /\
      Forall (parsed_frame example_hdr EncryptionForwardSecure) (frames p)
  | Err _ => True
  | Panic _ => False
  end.
Proof.
  apply (unpack_sound (fun _ => "") 512 example_open [] example_hdr [1; 2; 0; 7; 0xa0; 5; 0; 1; 77; 0]
    [0; 7; 0xa0; 5; 0; 1; 77; 0]); [unfold in_range; cbn; lia|cbn; lia|done|].
  unfold is_bytes, in_range. repeat constructor; lia.
Defined.

(** ** Round trip of payloads *)

(** A frame the receiver of packet [hdr] can read back; a STREAM frame without a data length ends
    its packet. *)
Definition wf_frame (hdr : PublicHeader) (level : EncryptionLevel) (f : Frame) : Prop :=
  match f with
  | FStream f => wf_StreamFrame f /\ (atMostUnencrypted level = true -> StreamID f = 1)
  | FAck f => is_u8 (PathID f) /\ wf_ranges (AckRanges f) (LargestAcked f) (LowestAcked f) /\
      first_gap_fits (AckRanges f)
  | FRstStream f => is_u32 (rst_StreamID f) /\ is_u64 (rst_ByteOffset f) /\ is_u32 (rst_ErrorCode f)
  | FConnectionClose f => is_u32 (cc_ErrorCode f) /\ is_bytes (cc_ReasonPhrase f) /\
      Z.of_nat (length (cc_ReasonPhrase f)) <= MaxPacketSize
  | FGoaway f => is_u32 (ga_ErrorCode f) /\ is_u32 (ga_LastGoodStream f) /\
      is_bytes (ga_ReasonPhrase f) /\ Z.of_nat (length (ga_ReasonPhrase f)) <= MaxPacketSize
  | FWindowUpdate f => is_u32 (wu_StreamID f) /\ is_u64 (wu_ByteOffset f)
  | FBlocked f => is_u32 (bl_StreamID f)
  | FStopWaiting f =>
      sw_PacketNumber f = hdr_PacketNumber hdr /\ sw_PacketNumberLen f = hdr_PacketNumberLen hdr /\
      valid_len (sw_PacketNumberLen f) /\ 1 <= sw_LeastUnacked f <= sw_PacketNumber f /\
      sw_PacketNumber f < 2 ^ 64 /\
      sw_PacketNumber f - sw_LeastUnacked f < 2 ^ (8 * sw_PacketNumberLen f)
  | FPing _ => True
  | FAddAddress f => wf_AddAddress f
  | FClosePath f => is_u8 (cp_PathID f) /\
      wf_ranges (cp_AckRanges f) (cp_LargestAcked f) (cp_LowestAcked f) /\
      first_gap_fits (cp_AckRanges f)
  | FPaths f => wf_Paths f
  end.

Definition delimited (f : Frame) : bool :=
  match f with FStream f => DataLenPresent f | _ => true end.

(** The frame as its receiver reads it. *)
Definition receivedFrame (now : Z) (f : Frame) : Frame :=
  match f with
  | FAck f => FAck (receivedAck f now)
  | FStopWaiting f => FStopWaiting (mkStopWaitingFrame (sw_LeastUnacked f) 0 0)
  | FClosePath f => FClosePath (receivedClosePath f)
  | FPaths f => FPaths (roundedPaths f)
  | _ => f
  end.

Lemma WriteByte_head b (m : Writer unit) bs r :
  (WriteByte b;; m) = (bs, r) -> exists bs', bs = b :: bs'.
Proof. unfold WriteByte, write, mbind, writer_bind. destruct m as [o r']. intros [= <- <-]. by eexists. Qed.

Section Codec.
Context (codeString : Z -> string) (parseIPv6 : list Z -> option (list Z)) (now version : Z).
Context (hdr : PublicHeader) (level : EncryptionLevel).

(** The frame is written with a non-zero type byte and read back through the dispatch. *)
Definition frame_codec_ok (f : Frame) : Prop :=
  exists tb bs, writeFrame parseIPv6 now version f = (tb :: bs, Ret tt) /\ is_bytes (tb :: bs) /\
    tb <> 0 /\ forall rest, delimited f = true \/ rest = [] ->
      Unpacker.parseFrame codeString version hdr level tb ((tb :: bs) ++ rest)
      = Ret (receivedFrame now f, rest).

Lemma wrapped_ret {A} (F : A -> Frame) code (p : Parser A) bs a rest :
  p bs = Ret (a, rest) -> (F <$$> Unpacker.wrapped codeString code p) bs = Ret (F a, rest).
Proof. unfold pmap, mbind, parser_bind, Unpacker.wrapped. by intros ->. Qed.

Lemma plain_ret {A} (F : A -> Frame) (p : Parser A) bs a rest :
  p bs = Ret (a, rest) -> (F <$$> p) bs = Ret (F a, rest).
Proof. unfold pmap, mbind, parser_bind. by intros ->. Qed.

(** A frame with a fixed type byte and a codec of its own. *)
Lemma simple_codec {F} (inj : F -> Frame) tb wr len parse (f : F) (body : Writer unit) :
  codec_ok wr len parse f -> wr f = (WriteByte tb;; body) -> tb <> 0 ->
  writeFrame parseIPv6 now version (inj f) = wr f -> receivedFrame now (inj f) = inj f ->
  (forall bs rest, parse bs = Ret (f, rest) ->
     Unpacker.parseFrame codeString version hdr level tb bs = Ret (inj f, rest)) ->
  frame_codec_ok (inj f).
Proof.
  intros (bs & Hw & Hb & _ & Hp) Hbody Htb Hinj Hrec Hparse.
  destruct (WriteByte_head tb body bs (Ret tt)) as [bs' ->]; [by rewrite <- Hbody|].
  exists tb, bs'. rewrite Hinj, Hrec. split; [done|]. split; [done|]. split; [done|].
  intros rest _. apply Hparse, Hp.
Qed.

Lemma stream_frame_codec f : wf_frame hdr level (FStream f) -> frame_codec_ok (FStream f).
Proof.
  intros [Hwf Hlevel].
  destruct (stream_codec version f [] Hwf) as (bs & ? & Hw & Hb & Htb & _); [by right|].
  destruct bs as [|tb bs]; [done|]. cbn [hd] in Htb. exists tb, bs.
  split; [done|]. split; [done|]. split; [intros ->; done|]. intros rest Hrest.
  destruct (stream_codec version f rest Hwf Hrest) as (bs' & ? & Hw' & _ & _ & _ & _ & Hp).
  rewrite Hw in Hw'. injection Hw' as <-.
  unfold Unpacker.parseFrame, Unpacker.parseStream. rewrite Htb.
  rewrite Z.eqb_refl. unfold mbind, parser_bind, Unpacker.wrapped. rewrite Hp.
  destruct (negb (StreamID f =? 1) && atMostUnencrypted level) eqn:E; [|done].
  apply andb_true_iff in E as [E1 E2]. specialize (Hlevel E2). lia.
Qed.

Lemma ack_frame_codec f : wf_frame hdr level (FAck f) -> frame_codec_ok (FAck f).
Proof.
  intros (Hp & Hwf & Hgap).
  destruct (ack_codec version now f Hp Hwf Hgap) as (bs & Hw & Hb & Htb & _ & Hparse).
  destruct bs as [|tb bs]; [done|]. cbn [hd] in Htb. exists tb, bs.
  split; [done|]. split; [done|]. split; [intros ->; done|]. intros rest _.
  unfold Unpacker.parseFrame. rewrite Htb, Z.eqb_refl.
  assert (Z.land tb 0x80 = 0) as ->.
  { change 0x80 with (Z.land 0xc0 0x80). by rewrite Z.land_assoc, Htb. }
  apply (wrapped_ret FAck), Hparse.
Qed.

Lemma stop_waiting_frame_codec f :
  wf_frame hdr level (FStopWaiting f) -> frame_codec_ok (FStopWaiting f).
Proof.
  intros (Hpn & Hl & Hlen & Hlu & Hmax & Hd).
  assert (Hhead : exists body, StopWaiting.Write f version = (WriteByte 0x06;; body)).
  { unfold StopWaiting.Write. destruct (Z.eqb_spec (sw_PacketNumber f) 0); [lia|].
    destruct (Z.ltb_spec (sw_PacketNumber f) (sw_LeastUnacked f)); [lia|]. by eexists. }
  destruct Hhead as [body Hhead].
  destruct (stop_waiting_roundtrip version f [] Hlen Hlu Hmax Hd) as (bs & Hw & Hb & _).
  destruct (WriteByte_head 0x06 body bs (Ret tt)) as [bs' ->]; [congruence|].
  exists 0x06, bs'. split; [done|]. split; [done|]. split; [done|]. intros rest _.
  destruct (stop_waiting_roundtrip version f rest Hlen Hlu Hmax Hd) as (bs & Hw' & _ & _ & Hp).
  rewrite Hw in Hw'. injection Hw' as <-. rewrite Hpn, Hl in Hp.
  by apply (wrapped_ret FStopWaiting).
Qed.

Lemma frame_codec f : wf_frame hdr level f -> frame_codec_ok f.
Proof.
  destruct f as [f|f|f|f|f|f|f|f|f|f|f|f]; intros Hwf.
  - by apply stream_frame_codec.
  - by apply ack_frame_codec.
  - destruct Hwf as (? & ? & ?). eapply (simple_codec FRstStream 0x01);
      [by apply (rst_stream_codec version)|done..|]. intros. by apply (wrapped_ret FRstStream).
  - destruct Hwf as (? & ? & ?). eapply (simple_codec FConnectionClose 0x02);
      [by apply (connection_close_codec version)|done..|]. intros. by apply (wrapped_ret FConnectionClose).
  - destruct Hwf as (? & ? & ? & ?). eapply (simple_codec FGoaway 0x03);
      [by apply (goaway_codec version)|done..|]. intros. by apply (wrapped_ret FGoaway).
  - destruct Hwf. eapply (simple_codec FWindowUpdate 0x04);
      [by apply (window_update_codec version)|done..|]. intros. by apply (wrapped_ret FWindowUpdate).
  - eapply (simple_codec FBlocked 0x05);
      [by apply (blocked_codec version)|done..|]. intros. by apply (wrapped_ret FBlocked).
  - by apply stop_waiting_frame_codec.
  - eapply (simple_codec FPing 0x07);
      [by apply (ping_codec version)|done..|]. intros. by apply (plain_ret FPing).
  - eapply (simple_codec FAddAddress 0x10);
      [by apply (add_address_codec version)|done..|]. intros. by apply (plain_ret FAddAddress).
  - destruct Hwf as (Hp & Hwf & Hgap).
    destruct (close_path_codec version f Hp Hwf Hgap) as (bs & Hw & Hb & _ & Hparse).
    exists 0x11, bs. split; [done|]. split; [done|]. split; [done|]. intros rest _. by apply (plain_ret FClosePath).
  - destruct (paths_codec parseIPv6 version f Hwf) as (bs & Hw & Hb & _ & Hparse).
    exists 0x12, bs. split; [done|]. split; [done|]. split; [done|]. intros rest _. by apply (plain_ret FPaths).
Qed.

(** A payload is a sequence of frames with padding between them. *)
Inductive payload : list Frame -> list Z -> Prop :=
  | payload_end : payload [] []
  | payload_padding fs bs : payload fs bs -> payload fs (0 :: bs)
  | payload_frame f fs o bs :
      wf_frame hdr level f -> writeFrame parseIPv6 now version f = (o, Ret tt) ->
      (delimited f = true \/ bs = []) -> payload fs bs -> payload (f :: fs) (o ++ bs).

Lemma readFrames_payload fs bs :
  payload fs bs -> forall fuel acc, (length bs <= fuel)%nat ->
  Unpacker.readFrames codeString version hdr level fuel acc bs
  = Ret (acc ++ map (receivedFrame now) fs).
Proof.
  induction 1 as [|fs bs Hp IH|f fs o bs Hwf Hw Hd Hp IH]; intros fuel acc Hf.
  - destruct fuel; cbn; by rewrite app_nil_r.
  - destruct fuel as [|fuel]; cbn in Hf; [lia|]. cbn. apply IH. lia.
  - destruct (frame_codec f Hwf) as (tb & bs' & Hw' & _ & Htb & Hparse).
    rewrite Hw in Hw'. injection Hw' as ->. specialize (Hparse bs Hd).
    rewrite length_app in Hf. destruct fuel as [|fuel]; cbn in Hf; [lia|].
    cbn [Unpacker.readFrames app] in *. destruct (Z.eqb_spec tb 0); [done|]. rewrite Hparse, IH by lia.
    cbn. by rewrite <- app_assoc.
Qed.
End Codec.

(** C11: A packet's payload round trips: frames of every type, written one after the other with
    padding anywhere between them (a STREAM frame without data length only at the end), come out
    of [Unpack] in the same order and with the same contents, up to what the wire format drops: ACK
    and CLOSE_PATH ranges beyond 255 blocks and the low bits of times. *)
Theorem unpack_roundtrip codeString parseIPv6 now version Open ad hdr data level fs bs :
  payload parseIPv6 now version hdr level fs bs -> bs <> [] ->
  Open data (hdr_PacketNumber hdr) ad = Ret (bs, level) ->
  Unpacker.Unpack codeString version Open ad hdr data
  = Ret (mkUnpackedPacket level (map (receivedFrame now) fs)).
Proof.
  intros Hp Hne Hopen. unfold Unpacker.Unpack. rewrite Hopen.
  rewrite (readFrames_payload codeString _ _ _ _ _ _ _ Hp) by lia. by destruct bs.
Qed.

Definition example_frames : list Frame :=
  [FPing mkPingFrame; FWindowUpdate (mkWindowUpdateFrame 5 70000);
   FStopWaiting (mkStopWaitingFrame 290 2 300); FStream (mkStreamFrame 5 true false 1000 [1; 2; 3])].

Definition example_payload : list Z :=
  [0; 7; 4; 0; 0; 0; 5; 0; 0; 0; 0; 0; 1; 0x11; 0x70; 0; 0; 6; 0; 10;
   0xc4; 5; 3; 0xe8; 1; 2; 3].

Lemma example_payload_ok :
  payload (fun _ => None) 0 512 example_hdr EncryptionForwardSecure example_frames example_payload.
Proof.
  unfold example_frames, example_payload. apply payload_padding.
  apply (payload_frame _ _ _ _ _ _ _ [7]); [done|done|by left|].
  apply (payload_frame _ _ _ _ _ _ _ [4; 0; 0; 0; 5; 0; 0; 0; 0; 0; 1; 0x11; 0x70]);
    [split; unfold in_range; cbn; lia|by vm_compute|by left|].
  do 2 apply payload_padding.
  apply (payload_frame _ _ _ _ _ _ _ [6; 0; 10]); [|by vm_compute|by left|].
  { cbn. split_and!; try lia; try done. right. by left. }
  apply (payload_frame _ _ _ _ _ _ _ [0xc4; 5; 3; 0xe8; 1; 2; 3] []);
    [|by vm_compute|by right|constructor].
  split; [|done]. unfold wf_StreamFrame, DataLen, is_bytes, in_range. cbn.
  split; [lia|]. split; [lia|]. split; [repeat constructor; lia|].
  split; [unfold MaxPacketSize; lia|]. split; [lia|by left].
Defined.

Lemma unpack_roundtrip_witness :
  Unpacker.Unpack (fun _ => "") 512 example_open [] example_hdr ([9; 9] ++ example_payload)
  = Ret (mkUnpackedPacket EncryptionForwardSecure (map (receivedFrame 0) example_frames)).
Proof.
  apply (unpack_roundtrip (fun _ => "") (fun _ => None) 0 512 example_open [] example_hdr _
    EncryptionForwardSecure example_frames example_payload); [apply example_payload_ok|done..].
Defined.
