(* ===== verification/ReceivedPackets.v ===== *)
(** * Received packets

    Models [ackhandler/received_packet_history.go] (the intervals of the packet numbers
    that were received) and [ackhandler/received_packet_handler.go] (when an ACK is due,
    and what it says).  The interval list is the sequence of the values of the
    linked list, from front to back. *)
From S2P Require Import Prelude ByteOrder PacketNumber Frames AckRanges AckFrame.

(** ** The history *)
Record PacketInterval := mkPacketInterval { Start : Z; End_ : Z }.

#[export] Instance PacketInterval_eq_dec : EqDecision PacketInterval.
Proof. solve_decision. Defined.

Record receivedPacketHistory := mkHistory {
  ranges : list PacketInterval;
  lowestInReceivedPacketNumbers : Z
}.

Definition MaxTrackedReceivedAckRanges : Z := 2500.
Definition TooManyOutstandingReceivedPackets : Z := 69.
Definition errTooManyOutstandingReceivedAckRanges : error :=
  QuicError TooManyOutstandingReceivedPackets "Too many outstanding received ACK ranges".

Definition newReceivedPacketHistory : receivedPacketHistory := mkHistory [] 0.

Module History.
(** [el] was extended: merge it with the interval before it when they touch.
    [prevs] are the elements before [el], the nearest first. *)
Definition merge (el : PacketInterval) (prevs : list PacketInterval) : list PacketInterval :=
  match prevs with
  | prev :: prevs' =>
      if End_ prev +64 1 =? Start el
      then mkPacketInterval (Start prev) (End_ el) :: prevs'
      else el :: prevs
  | [] => [el]
  end.

(** The loop from [h.ranges.Back()] over [el.Prev()]; the list is read, and
    returned, from back to front. *)
Fixpoint receiveLoop (p : Z) (back : list PacketInterval) : list PacketInterval :=
  match back with
  | [] => [mkPacketInterval p p]
  | el :: prevs =>
      if (Start el <=? p) && (p <=? End_ el) then back
      else if End_ el =? p -64 1 then merge (mkPacketInterval (Start el) p) prevs
      else if Start el =? p +64 1 then merge (mkPacketInterval p (End_ el)) prevs
      else if End_ el <? p then mkPacketInterval p p :: el :: prevs
      else el :: receiveLoop p prevs
  end.

(** An error leaves the history as it is. *)
Definition ReceivedPacket (h : receivedPacketHistory) (p : Z) : outcome receivedPacketHistory :=
  if MaxTrackedReceivedAckRanges <=? Z.of_nat (length (ranges h))
  then Err errTooManyOutstandingReceivedAckRanges
  else if Z.of_nat (length (ranges h)) =? 0
  then Ret (mkHistory (ranges h ++ [mkPacketInterval p p]) (lowestInReceivedPacketNumbers h))
  else Ret (mkHistory (reverse (receiveLoop p (reverse (ranges h))))
              (lowestInReceivedPacketNumbers h)).

Fixpoint deleteLoop (p : Z) (els : list PacketInterval) : list PacketInterval :=
  match els with
  | [] => []
  | el :: next =>
      if (Start el <=? p) && (p <? End_ el)
      then mkPacketInterval (p +64 1) (End_ el) :: deleteLoop p next
      else if End_ el <=? p then deleteLoop p next
      else els
  end.

Definition DeleteUpTo (h : receivedPacketHistory) (p : Z) : receivedPacketHistory :=
  mkHistory (deleteLoop p (ranges h)) (Z.max (lowestInReceivedPacketNumbers h) (p +64 1)).

Definition GetAckRanges (h : receivedPacketHistory) : list AckRange :=
  map (fun r => mkAckRange (Start r) (End_ r)) (reverse (ranges h)).

Definition GetHighestAckRange (h : receivedPacketHistory) : AckRange :=
  match last (ranges h) with
  | Some r => mkAckRange (Start r) (End_ r)
  | None => mkAckRange 0 0
  end.
End History.

(** ** The handler *)
Definition AckSendDelay : Z := 25 * 1000000.
Definition MaxPacketsReceivedBeforeAckSend : Z := 20.
Definition RetransmittablePacketsBeforeAck : Z := 2.
Definition errInvalidPacketNumber : error :=
  ErrorString "ReceivedPacketHandler: Invalid packet number".

Record receivedPacketHandler := mkHandler {
  largestObserved : Z;
  lowerLimit : Z;
  largestObservedReceivedTime : Z;
  packetHistory : receivedPacketHistory;
  ackSendDelay : Z;
  packetsReceivedSinceLastAck : Z;
  retransmittablePacketsReceivedSinceLastAck : Z;
  ackQueued : bool;
  ackAlarm : Z;
  lastAck : option AckFrame;
  rp_version : Z;
  packets : Z
}.

Definition NewReceivedPacketHandler (version : Z) : receivedPacketHandler :=
  mkHandler 0 0 0 newReceivedPacketHistory AckSendDelay 0 0 false 0 None version 0.

Module Handler.
Definition GetStatistics (h : receivedPacketHandler) : Z := packets h.

Definition maybeQueueAck (h : receivedPacketHandler) (now packetNumber : Z)
    (shouldInstigateAck : bool) : receivedPacketHandler :=
  let received := packetsReceivedSinceLastAck h + 1 in
  let retransmittable :=
    if shouldInstigateAck then retransmittablePacketsReceivedSinceLastAck h + 1
    else retransmittablePacketsReceivedSinceLastAck h in
  let queued := ackQueued h in
  let queued := match lastAck h with None => true | Some _ => queued end in
  let queued :=
    if (rp_version h <? Version39) && (MaxPacketsReceivedBeforeAckSend <=? received)
    then true else queued in
  let queued :=
    match lastAck h with
    | Some ack => if packetNumber <? LargestAcked ack then true else queued
    | None => queued
    end in
  let queued :=
    match lastAck h with
    | Some ack =>
        if LargestAcked ack <? First (History.GetHighestAckRange (packetHistory h))
        then true else queued
    | None => queued
    end in
  let '(queued, alarm) :=
    if negb queued && shouldInstigateAck then
      if RetransmittablePacketsBeforeAck <=? retransmittable then (true, ackAlarm h)
      else (queued, if ackAlarm h =? 0 then now + ackSendDelay h else ackAlarm h)
    else (queued, ackAlarm h) in
  let alarm := if queued then 0 else alarm in
  mkHandler (largestObserved h) (lowerLimit h) (largestObservedReceivedTime h) (packetHistory h)
    (ackSendDelay h) received retransmittable queued alarm (lastAck h) (rp_version h) (packets h).

(** The state after the call and how it ends. *)
Definition ReceivedPacket (h : receivedPacketHandler) (now packetNumber : Z)
    (shouldInstigateAck : bool) : receivedPacketHandler * outcome unit :=
  if packetNumber =? 0 then (h, Err errInvalidPacketNumber)
  else
    let newer := largestObserved h <? packetNumber in
    let h := mkHandler (if newer then packetNumber else largestObserved h) (lowerLimit h)
      (if newer then now else largestObservedReceivedTime h) (packetHistory h) (ackSendDelay h)
      (packetsReceivedSinceLastAck h) (retransmittablePacketsReceivedSinceLastAck h) (ackQueued h)
      (ackAlarm h) (lastAck h) (rp_version h) (packets h +64 1) in
    if packetNumber <=? lowerLimit h then (h, Ret tt)
    else
      match History.ReceivedPacket (packetHistory h) packetNumber with
      | Ret hist =>
          let h := mkHandler (largestObserved h) (lowerLimit h) (largestObservedReceivedTime h) hist
            (ackSendDelay h) (packetsReceivedSinceLastAck h)
            (retransmittablePacketsReceivedSinceLastAck h) (ackQueued h) (ackAlarm h) (lastAck h)
            (rp_version h) (packets h) in
          (maybeQueueAck h now packetNumber shouldInstigateAck, Ret tt)
      | Err e => (h, Err e)
      | Panic s => (h, Panic s)
      end.

Definition SetLowerLimit (h : receivedPacketHandler) (p : Z) : receivedPacketHandler :=
  mkHandler (largestObserved h) p (largestObservedReceivedTime h)
    (History.DeleteUpTo (packetHistory h) p) (ackSendDelay h) (packetsReceivedSinceLastAck h)
    (retransmittablePacketsReceivedSinceLastAck h) (ackQueued h) (ackAlarm h) (lastAck h)
    (rp_version h) (packets h).

(** [ackRanges], which is only sent when there is more than one, and its lowest
    packet number. *)
Definition reportedRanges (h : receivedPacketHandler) : outcome (list AckRange * Z) :=
  let ackRanges := History.GetAckRanges (packetHistory h) in
  match last ackRanges with
  | None => Panic "index out of range"
  | Some l => Ret (if Nat.ltb 1 (length ackRanges) then ackRanges else [], First l)
  end.

Definition GetAckFrame (h : receivedPacketHandler) (now : Z)
    : receivedPacketHandler * outcome (option AckFrame) :=
  if negb (ackQueued h) && ((ackAlarm h =? 0) || (now <? ackAlarm h)) then (h, Ret None)
  else
    match reportedRanges h with
    | Ret (rs, lowest) =>
        let ack := mkAckFrame 0 (largestObserved h) lowest rs (largestObservedReceivedTime h) 0 in
        (mkHandler (largestObserved h) (lowerLimit h) (largestObservedReceivedTime h)
           (packetHistory h) (ackSendDelay h) 0 0 false 0 (Some ack) (rp_version h) (packets h),
         Ret (Some ack))
    | Err e => (h, Err e)
    | Panic s => (h, Panic s)
    end.

Definition GetClosePathFrame (h : receivedPacketHandler) : outcome ClosePathFrame :=
  match reportedRanges h with
  | Ret (rs, lowest) => Ret (mkClosePathFrame 0 (largestObserved h) lowest rs)
  | Err e => Err e
  | Panic s => Panic s
  end.

Definition GetAlarmTimeout (h : receivedPacketHandler) : Z := ackAlarm h.
End Handler.

(** ** Intervals as sets of packet numbers *)
Definition member (q : Z) (l : list PacketInterval) : Prop :=
  exists r, r ∈ l /\ Start r <= q <= End_ r.

(** Read from back to front, the intervals are non-empty, descend below [bound]
    and do not touch. *)
Fixpoint below (bound : Z) (back : list PacketInterval) : Prop :=
  match back with
  | [] => True
  | el :: prevs => 0 <= Start el <= End_ el /\ End_ el + 1 < bound /\ below (Start el) prevs
  end.

Lemma member_nil q : member q [] <-> False.
Proof. unfold member. set_solver. Qed.

Lemma member_cons q r l : member q (r :: l) <-> Start r <= q <= End_ r \/ member q l.
Proof. unfold member. set_solver. Qed.

Lemma member_app q l k : member q (l ++ k) <-> member q l \/ member q k.
Proof. unfold member. set_solver. Qed.

Lemma member_reverse q l : member q (reverse l) <-> member q l.
Proof. unfold member. by setoid_rewrite elem_of_reverse. Qed.

Create Rewrite HintDb member.
#[export] Hint Rewrite member_nil member_cons member_app member_reverse : member.

Lemma below_weaken b b' l : below b l -> b <= b' -> below b' l.
Proof. destruct l; [done|]. cbn. intuition lia. Qed.

Lemma below_member b l q : below b l -> member q l -> 0 <= q /\ q + 1 < b.
Proof.
  revert b. induction l as [|r l IH]; intros b Hb Hq; autorewrite with member in Hq; [done|].
  destruct Hb as (Hr & Hend & Hl). destruct Hq as [|Hq]; [lia|].
  specialize (IH _ Hl Hq). lia.
Qed.

Lemma merge_spec el prevs bound q :
  0 <= Start el <= End_ el -> End_ el + 1 < bound <= 2 ^ 63 -> below (Start el + 1) prevs ->
  below bound (History.merge el prevs) /\
  (member q (History.merge el prevs) <-> Start el <= q <= End_ el \/ member q prevs).
Proof.
  intros Hel Hb Hp. destruct prevs as [|prev prevs]; cbn [History.merge].
  - split; [cbn; intuition lia|]. by autorewrite with member.
  - destruct Hp as (Hprev & Hend & Hp). usmall.
    destruct (Z.eqb_spec (End_ prev + 1) (Start el)); autorewrite with member; cbn [below Start End_].
    + split; [intuition lia|]. split; intros; intuition lia.
    + split; [intuition lia|]. done.
Qed.

Lemma receiveLoop_spec p back bound q :
  below bound back -> 0 <= p -> p + 1 < bound <= 2 ^ 63 ->
  below bound (History.receiveLoop p back) /\
  (member q (History.receiveLoop p back) <-> q = p \/ member q back).
Proof.
  revert bound. induction back as [|el prevs IH]; intros bound Hb Hp Hpb; cbn [History.receiveLoop].
  - autorewrite with member. cbn. intuition lia.
  - pose proof Hb as (Hel & Hend & Hprevs).
    destruct ((Start el <=? p) && (p <=? End_ el)) eqn:Hin.
    { split; [done|]. rewrite member_cons. intuition lia. }
    replace (p +64 1) with (p + 1) by (by usmall).
    destruct (Z.eqb_spec (End_ el) (p -64 1)) as [He|He].
    { assert (End_ el = p - 1).
      { destruct (Z.eq_dec p 0) as [->|]; [vm_compute (0 -64 1) in He; lia|]. by usmall_in He. }
      destruct (merge_spec (mkPacketInterval (Start el) p) prevs bound q) as [Hm Hq]; cbn [Start End_] in *;
        [lia..|eapply below_weaken; [done|lia]|].
      split; [done|]. rewrite Hq, member_cons. intuition lia. }
    destruct (Z.eqb_spec (Start el) (p + 1)) as [Hs|Hs].
    { destruct (merge_spec (mkPacketInterval p (End_ el)) prevs bound q) as [Hm Hq]; cbn [Start End_] in *;
        [lia..|by rewrite <- Hs|].
      split; [done|]. rewrite Hq, member_cons. intuition lia. }
    assert (Hend' : End_ el <> p - 1).
    { intros Heq. apply He. destruct (Z.eq_dec p 0) as [->|]; [lia|]. by usmall. }
    destruct (Z.ltb_spec (End_ el) p).
    { split; [cbn in *; intuition lia|]. autorewrite with member. cbn [Start End_]. intuition lia. }
    destruct (IH (Start el) Hprevs) as [Hl Hq]; [lia..|]. cbn [below]. rewrite !member_cons, Hq.
    intuition.
Qed.

Lemma below_snoc b l r :
  below b (l ++ [r]) <->
  below b l /\ 0 <= Start r <= End_ r /\ End_ r + 1 < b /\ Forall (fun x => End_ r + 1 < Start x) l.
Proof.
  revert b. induction l as [|x l IH]; intros b; cbn [app below].
  - rewrite Forall_nil. intuition.
  - rewrite IH, Forall_cons. intuition lia.
Qed.

Lemma deleteLoop_id p els :
  Forall (fun x => p < Start x <= End_ x) els -> History.deleteLoop p els = els.
Proof.
  destruct els as [|el els]; [done|]. intros [Hel _]%Forall_cons. cbn [History.deleteLoop].
  destruct (Z.leb_spec (Start el) p); [lia|]. destruct (Z.leb_spec (End_ el) p); [lia|]. done.
Qed.

Lemma below_Forall b l : below b l -> Forall (fun x => 0 <= Start x <= End_ x /\ End_ x + 1 < b) l.
Proof.
  revert b. induction l as [|x l IH]; intros b Hb; [done|]. destruct Hb as (Hx & He & Hl).
  constructor; [lia|]. eapply Forall_impl; [by apply IH|]. cbn. lia.
Qed.

Lemma deleteLoop_spec p els q :
  below (2 ^ 63) (reverse els) -> 0 <= p < 2 ^ 63 ->
  below (2 ^ 63) (reverse (History.deleteLoop p els)) /\
  (member q (History.deleteLoop p els) <-> member q els /\ p < q).
Proof.
  intros Hb Hp. induction els as [|el next IH]; cbn [History.deleteLoop].
  - autorewrite with member. intuition.
  - rewrite reverse_cons, below_snoc in Hb. destruct Hb as (Hnext & Hel & Hend & Hall).
    rewrite Forall_reverse in Hall. pose proof (below_Forall _ _ Hnext) as Hwf.
    rewrite Forall_reverse in Hwf. rewrite member_cons.
    assert (Hgt : member q next -> End_ el < q).
    { intros (x & Hx & Hq). rewrite Forall_forall in Hall. specialize (Hall x Hx). lia. }
    destruct ((Start el <=? p) && (p <? End_ el)) eqn:Hin.
    + rewrite (deleteLoop_id p next).
      2: { eapply Forall_impl; [apply Forall_and; split; [exact Hall|exact Hwf]|]. cbn. lia. }
      usmall. rewrite reverse_cons, below_snoc, member_cons, Forall_reverse. cbn [Start End_].
      intuition lia.
    + destruct (Z.leb_spec (End_ el) p).
      * destruct (IH Hnext) as [Hb' Hq']. rewrite Hq'. intuition lia.
      * rewrite reverse_cons, below_snoc, member_cons, Forall_reverse. intuition lia.
Qed.

(** ** The intervals are a canonical form *)
Lemma below_head_max b el l q : below b (el :: l) -> member q (el :: l) -> q <= End_ el.
Proof.
  intros (Hel & He & Hl) Hq. autorewrite with member in Hq. destruct Hq as [|Hq]; [lia|].
  pose proof (below_member _ _ _ Hl Hq). lia.
Qed.

Lemma below_head_start b el l q :
  below b (el :: l) -> member q (el :: l) -> Start el - 1 <= q -> Start el <= q.
Proof.
  intros (Hel & He & Hl) Hq. autorewrite with member in Hq. destruct Hq as [|Hq]; [lia|].
  pose proof (below_member _ _ _ Hl Hq). lia.
Qed.

Lemma below_tail b el l q : below b (el :: l) -> member q l <-> member q (el :: l) /\ q < Start el.
Proof.
  intros (Hel & He & Hl). rewrite member_cons. split; [|intuition lia].
  intros Hq. pose proof (below_member _ _ _ Hl Hq). intuition lia.
Qed.

Lemma below_unique b1 b2 l1 l2 :
  below b1 l1 -> below b2 l2 -> (forall q, member q l1 <-> member q l2) -> l1 = l2.
Proof.
  revert b1 b2 l2. induction l1 as [|x l1 IH]; intros b1 b2 [|y l2] H1 H2 Heq.
  - done.
  - destruct H2 as (Hy & _). destruct (proj2 (Heq (Start y))) as (r & Hr & _); [|set_solver].
    rewrite member_cons. lia.
  - destruct H1 as (Hx & _). destruct (proj1 (Heq (Start x))) as (r & Hr & _); [|set_solver].
    rewrite member_cons. lia.
  - pose proof H1 as (Hx & _ & H1'). pose proof H2 as (Hy & _ & H2').
    assert (Hin : forall q, Start x <= q <= End_ x -> member q (y :: l2))
      by (intros; apply Heq; rewrite member_cons; lia).
    assert (Hin' : forall q, Start y <= q <= End_ y -> member q (x :: l1))
      by (intros; apply Heq; rewrite member_cons; lia).
    assert (End_ x = End_ y).
    { pose proof (below_head_max _ _ _ _ H2 (Hin (End_ x) ltac:(lia))).
      pose proof (below_head_max _ _ _ _ H1 (Hin' (End_ y) ltac:(lia))). lia. }
    assert (Start x = Start y).
    { destruct (Z.lt_trichotomy (Start x) (Start y)) as [Hlt|[|Hlt]]; [|done|].
      - pose proof (below_head_start _ _ _ _ H2 (Hin (Start y - 1) ltac:(lia))). lia.
      - pose proof (below_head_start _ _ _ _ H1 (Hin' (Start x - 1) ltac:(lia))). lia. }
    assert (x = y) as -> by (destruct x, y; cbn in *; congruence). f_equal.
    eapply IH; [done..|]. intros q. by rewrite (below_tail _ _ _ _ H1), (below_tail _ _ _ _ H2), Heq.
Qed.

(** ** The history implements a set of packet numbers *)
Definition history_ok (h : receivedPacketHistory) : Prop := below (2 ^ 63) (reverse (ranges h)).

Definition represents (h : receivedPacketHistory) (s : gset Z) : Prop :=
  history_ok h /\ forall q, q ∈ s <-> member q (ranges h).

Lemma represents_new : represents newReceivedPacketHistory ∅.
Proof. split; [done|]. intros q. cbn. rewrite member_nil. set_solver. Qed.

Lemma represents_receive h h' s p :
  represents h s -> 0 <= p < 2 ^ 62 -> History.ReceivedPacket h p = Ret h' ->
  represents h' ({[p]} ∪ s) /\ Z.of_nat (length (ranges h)) < MaxTrackedReceivedAckRanges.
Proof.
  intros [Hok Hs] Hp. unfold History.ReceivedPacket, history_ok in *.
  destruct (Z.leb_spec MaxTrackedReceivedAckRanges (Z.of_nat (length (ranges h)))); [done|].
  destruct (Z.eqb_spec (Z.of_nat (length (ranges h))) 0); intros [= <-]; (split; [|done]).
  - destruct (ranges h) eqn:E; [|cbn [length] in *; lia]. split; [cbn; lia|].
    intros q. cbn. autorewrite with member. rewrite elem_of_union, Hs, member_nil, elem_of_singleton.
    cbn [Start End_]. intuition lia.
  - split; cbn [ranges].
    + unfold history_ok. cbn [ranges]. rewrite reverse_involutive. apply receiveLoop_spec with (q := 0); [done|lia..].
    + intros q. destruct (receiveLoop_spec p (reverse (ranges h)) (2 ^ 63) q) as [_ Hq]; [done|lia..|].
      by rewrite member_reverse, Hq, member_reverse, elem_of_union, elem_of_singleton, Hs.
Qed.

Lemma represents_delete h s p :
  represents h s -> 0 <= p < 2 ^ 63 -> represents (History.DeleteUpTo h p) (filter (fun q => p < q) s).
Proof.
  intros [Hok Hs] Hp. unfold history_ok in *. split; cbn [ranges History.DeleteUpTo].
  - unfold history_ok. cbn [ranges History.DeleteUpTo]. by apply deleteLoop_spec.
  - intros q. destruct (deleteLoop_spec p (ranges h) q) as [_ Hq]; [done|lia|].
    rewrite elem_of_filter, Hs, Hq. tauto.
Qed.

(** C23: The received packet history implements a set of packet numbers: recording a
    packet adds its number (or refuses with the too-many-ranges error, and only when 2500
    intervals are tracked), [DeleteUpTo] removes the numbers up to its bound, and the
    intervals stay sorted, disjoint and non-adjacent throughout. *)
Theorem history_refines_set h s p :
  represents h s -> 0 <= p < 2 ^ 62 ->
  match History.ReceivedPacket h p with
  | Ret h' => represents h' ({[p]} ∪ s)
  | Err e => e = errTooManyOutstandingReceivedAckRanges /\
             MaxTrackedReceivedAckRanges <= Z.of_nat (length (ranges h))
  | Panic _ => False
  end /\
  represents (History.DeleteUpTo h p) (filter (fun q => p < q) s).
Proof.
  intros Hr Hp. split; [|apply represents_delete; [done|lia]].
  destruct (History.ReceivedPacket h p) as [h'|e|why] eqn:E.
  - by eapply represents_receive.
  - unfold History.ReceivedPacket in E.
    destruct (Z.leb_spec MaxTrackedReceivedAckRanges (Z.of_nat (length (ranges h)))); [naive_solver|].
    by destruct (Z.of_nat (length (ranges h)) =? 0).
  - unfold History.ReceivedPacket in E. by repeat case_match.
Qed.

Definition example_history : receivedPacketHistory :=
  mkHistory [mkPacketInterval 1 3; mkPacketInterval 5 5] 0.

Lemma example_history_represents : represents example_history {[1; 2; 3; 5]}.
Proof.
  split; [vm_compute; intuition discriminate|]. intros q. unfold example_history. cbn [ranges].
  autorewrite with member. cbn [Start End_]. rewrite !elem_of_union, !elem_of_singleton. lia.
Defined.

Lemma history_refines_set_witness :
  match History.ReceivedPacket example_history 4 with
  | Ret h' => represents h' ({[4]} ∪ {[1; 2; 3; 5]})
  | Err e => e = errTooManyOutstandingReceivedAckRanges /\
             MaxTrackedReceivedAckRanges <= Z.of_nat (length (ranges example_history))
  | Panic _ => False
  end /\
  represents (History.DeleteUpTo example_history 4) (filter (fun q => 4 < q) {[1; 2; 3; 5]}).
Proof. apply (history_refines_set example_history {[1; 2; 3; 5]} 4).
  - apply example_history_represents.
  - lia.
Defined.

(** A sequence of packets. *)
Fixpoint receiveAll (h : receivedPacketHistory) (ps : list Z) : outcome receivedPacketHistory :=
  match ps with
  | [] => Ret h
  | p :: ps' => h' ← History.ReceivedPacket h p; receiveAll h' ps'
  end.

Lemma receiveAll_represents ps h h' s :
  represents h s -> Forall (fun p => 0 <= p < 2 ^ 62) ps -> receiveAll h ps = Ret h' ->
  represents h' (list_to_set ps ∪ s).
Proof.
  revert h s. induction ps as [|p ps IH]; intros h s Hr Hps Hrun; cbn in Hrun.
  - injection Hrun as <-. by rewrite list_to_set_nil, (left_id_L ∅ _).
  - apply Forall_cons in Hps as [Hp Hps].
    destruct (History.ReceivedPacket h p) as [h1| |] eqn:E; [|done..].
    destruct (represents_receive _ _ _ _ Hr Hp E) as [Hr1 _].
    specialize (IH _ _ Hr1 Hps Hrun).
    replace (list_to_set (p :: ps) ∪ s) with (list_to_set ps ∪ ({[p]} ∪ s) : gset Z) by set_solver.
    done.
Qed.

(** The order (and the duplication) in which packets arrive does not matter:
    two sequences with the same packet numbers leave the same intervals, hence the same
    ACK ranges. *)
Theorem history_order_independent ps qs h1 h2 :
  Forall (fun p => 0 <= p < 2 ^ 62) ps -> (forall p, p ∈ ps <-> p ∈ qs) ->
  receiveAll newReceivedPacketHistory ps = Ret h1 ->
  receiveAll newReceivedPacketHistory qs = Ret h2 ->
  ranges h1 = ranges h2 /\ History.GetAckRanges h1 = History.GetAckRanges h2.
Proof.
  intros Hps Heq H1 H2.
  assert (Forall (fun p => 0 <= p < 2 ^ 62) qs) as Hqs by (rewrite Forall_forall in *; set_solver).
  destruct (receiveAll_represents _ _ _ _ represents_new Hps H1) as [Hok1 Hs1].
  destruct (receiveAll_represents _ _ _ _ represents_new Hqs H2) as [Hok2 Hs2].
  assert (ranges h1 = ranges h2) as Hr; [|split; [done|]; unfold History.GetAckRanges; by rewrite Hr].
  apply (inj reverse). eapply below_unique; [done..|]. intros q.
  rewrite !member_reverse, <- Hs1, <- Hs2. set_solver.
Qed.

Lemma history_order_independent_witness :
  exists h1 h2, ranges h1 = ranges h2 /\ History.GetAckRanges h1 = History.GetAckRanges h2 /\
    receiveAll newReceivedPacketHistory [3; 1; 7; 2; 1] = Ret h1.
Proof.
  eexists _, _. rewrite (and_assoc (_ = _)). split.
  - eapply (history_order_independent [3; 1; 7; 2; 1] [1; 2; 7; 3]).
    + repeat constructor; lia.
    + set_solver.
    + reflexivity.
    + reflexivity.
  - reflexivity.
Defined.

(** ** What the handler reports *)
Definition toAckRange (r : PacketInterval) : AckRange := mkAckRange (Start r) (End_ r).

Lemma below_descending b back : below b back -> descending b (map toAckRange back).
Proof.
  revert b. induction back as [|r back IH]; intros b Hb; [done|].
  destruct Hb as (? & ? & ?). cbn. auto.
Qed.

Lemma acked_map p back largest lowest r :
  acked (map toAckRange (r :: back)) largest lowest p <-> member p (r :: back).
Proof.
  unfold acked, member. cbn [map]. fold (map toAckRange (r :: back)). split.
  - intros (x & Hx & Hp). change (x ∈ map toAckRange (r :: back)) in Hx.
    apply list_elem_of_fmap in Hx as (y & -> & Hy). by exists y.
  - intros (x & Hx & Hp). exists (toAckRange x). split; [|done].
    change (toAckRange x ∈ map toAckRange (r :: back)). by apply list_elem_of_fmap_2.
Qed.

(** The state of the handler stands for the set [s] of packet numbers it has
    received and not been told to forget. *)
Record handler_ok (h : receivedPacketHandler) (s : gset Z) : Prop := {
  ok_history : represents (packetHistory h) s;
  ok_range : forall q, q ∈ s -> lowerLimit h < q <= largestObserved h;
  ok_largest : largestObserved h ∈ s \/ (largestObserved h = 0 /\ s = ∅);
  ok_limit : 0 <= lowerLimit h;
  ok_limit_largest : lowerLimit h < largestObserved h \/ lowerLimit h = 0;
  ok_48 : 0 <= largestObserved h < 2 ^ 48
}.

Lemma handler_ok_new version : handler_ok (NewReceivedPacketHandler version) ∅.
Proof. split; cbn; try lia; [apply represents_new|set_solver|by right]. Qed.

(** What was received is reported. *)
Lemma reportedRanges_ok h s :
  handler_ok h s -> s <> ∅ ->
  exists rs lowest, Handler.reportedRanges h = Ret (rs, lowest) /\
    wf_ranges rs (largestObserved h) lowest /\
    forall p, acked rs (largestObserved h) lowest p <-> p ∈ s.
Proof.
  intros [[Hok Hs] Hrange [Hlg|[_ ?]] Hlim _ H48] Hne; [|done]. clear Hne.
  unfold Handler.reportedRanges, History.GetAckRanges, history_ok in *.
  assert (Hs' : forall q, q ∈ s <-> member q (reverse (ranges (packetHistory h))))
    by (intros; by rewrite member_reverse).
  destruct (reverse (ranges (packetHistory h))) as [|r back] eqn:Eb.
  { apply Hs', member_nil in Hlg. done. }
  assert (Hend : End_ r = largestObserved h).
  { pose proof Hok as (Hr & _ & _). apply Z.le_antisymm.
    - apply (Hrange (End_ r)), Hs'. rewrite member_cons. lia.
    - eapply below_head_max; [exact Hok|]. by apply Hs'. }
  assert (Hstart : 1 <= Start r).
  { destruct Hok as (Hr & _). assert (Start r ∈ s) as Hin by (apply Hs'; rewrite member_cons; lia).
    apply Hrange in Hin. lia. }
  pose proof (below_descending _ _ Hok) as Hd.
  destruct back as [|r' back].
  - exists [], (Start r). split; [done|]. split; [split; [done|]; cbn in Hok; lia|].
    intros p. rewrite Hs', member_cons, member_nil. cbn [acked]. rewrite Hend. tauto.
  - destruct (last (map toAckRange (r :: r' :: back))) as [l|] eqn:El; [|by apply last_None in El].
    exists (map toAckRange (r :: r' :: back)), (First l). split; [|split].
    + unfold toAckRange in El. by rewrite El.
    + split; [done|]. destruct Hd as (Hr & _ & Hd). cbn [toAckRange First Last] in *.
      do 2 (split; [done|]). split; [cbn; lia|]. split; [exact Hd|]. by exists l.
    + intros p. by rewrite acked_map, Hs'.
Qed.

(** ** Runs of the handler *)

(** [queueing] does not touch what was received. *)
Lemma maybeQueueAck_frame h now p b :
  let h' := Handler.maybeQueueAck h now p b in
  packetHistory h' = packetHistory h /\ largestObserved h' = largestObserved h /\
  lowerLimit h' = lowerLimit h.
Proof. unfold Handler.maybeQueueAck. by destruct (negb _ && b), (_ <=? _). Qed.

Lemma handler_ok_ext h h' s :
  packetHistory h' = packetHistory h -> largestObserved h' = largestObserved h ->
  lowerLimit h' = lowerLimit h -> handler_ok h s -> handler_ok h' s.
Proof. intros E1 E2 E3 [? ? ? ? ? ?]. split; rewrite ?E1, ?E2, ?E3; done. Qed.

(** The calls the session makes: it limits only below a packet that was received
    (the least unacknowledged packet number of a STOP_WAITING frame is at most that of
    the packet that carries it). *)
Inductive handler_step : receivedPacketHandler * gset Z -> receivedPacketHandler * gset Z -> Prop :=
  | step_receive h s now p b h' :
      1 <= p < 2 ^ 48 -> Handler.ReceivedPacket h now p b = (h', Ret tt) ->
      handler_step (h, s) (h', if p <=? lowerLimit h then s else {[p]} ∪ s)
  | step_limit h s p :
      0 <= p < largestObserved h ->
      handler_step (h, s) (Handler.SetLowerLimit h p, filter (fun q => p < q) s)
  | step_ack h s now h' ack :
      Handler.GetAckFrame h now = (h', Ret ack) -> handler_step (h, s) (h', s).

Lemma receive_ok h s now p b h' :
  handler_ok h s -> 1 <= p < 2 ^ 48 -> Handler.ReceivedPacket h now p b = (h', Ret tt) ->
  handler_ok h' (if p <=? lowerLimit h then s else {[p]} ∪ s).
Proof.
  intros [Hrep Hrange Hlg Hlim Hlim' H48] Hp Hrun. unfold Handler.ReceivedPacket in Hrun.
  destruct (Z.eqb_spec p 0); [lia|]. cbn -[uN History.ReceivedPacket] in Hrun.
  destruct (Z.leb_spec p (lowerLimit h)).
  - injection Hrun as <-. destruct (Z.ltb_spec (largestObserved h) p); [lia|]. by split.
  - destruct (History.ReceivedPacket (packetHistory h) p) as [hist|e|] eqn:E; simplify_eq.
    destruct (represents_receive _ _ _ p Hrep ltac:(lia) E) as [Hrep' _].
    eapply handler_ok_ext; [apply maybeQueueAck_frame..|].
    split; cbn; try done.
    + intros q [->%elem_of_singleton|Hq]%elem_of_union; [|specialize (Hrange q Hq)];
        destruct (Z.ltb_spec (largestObserved h) p); lia.
    + left. destruct (Z.ltb_spec (largestObserved h) p); [set_solver|].
      destruct Hlg as [|[? _]]; [set_solver|lia].
    + destruct (Z.ltb_spec (largestObserved h) p); lia.
    + destruct (Z.ltb_spec (largestObserved h) p); lia.
Qed.

Lemma limit_ok h s p :
  handler_ok h s -> 0 <= p < largestObserved h ->
  handler_ok (Handler.SetLowerLimit h p) (filter (fun q => p < q) s).
Proof.
  intros [Hrep Hrange Hlg Hlim Hlim' H48] Hp. split; cbn; try lia.
  - apply represents_delete; [done|lia].
  - intros q [Hq Hqs]%elem_of_filter. specialize (Hrange q Hqs). lia.
  - left. apply elem_of_filter. split; [lia|]. by destruct Hlg as [|[? _]]; [|lia].
Qed.

Lemma ack_ok h s now h' ack :
  handler_ok h s -> Handler.GetAckFrame h now = (h', Ret ack) -> handler_ok h' s.
Proof.
  intros Hok Hrun. unfold Handler.GetAckFrame in Hrun.
  destruct (negb _ && _); [by simplify_eq|].
  destruct (Handler.reportedRanges h) as [[rs lo]| |]; simplify_eq.
  by eapply handler_ok_ext; [..|exact Hok].
Qed.

Lemma handler_reachable_ok version h s :
  rtc handler_step (NewReceivedPacketHandler version, ∅) (h, s) -> handler_ok h s.
Proof.
  intros Hr. change (handler_ok (h, s).1 (h, s).2). revert Hr. generalize (h, s).
  apply rtc_ind_r; [apply handler_ok_new|].
  intros [h1 s1] [h2 s2] _ Hstep Hok. cbn in *. inversion Hstep; subst.
  - by eapply receive_ok.
  - by apply limit_ok.
  - by eapply ack_ok.
Qed.

(** An ACK is to be sent. *)
Definition ackDue (h : receivedPacketHandler) (now : Z) : Prop :=
  ackQueued h = true \/ (ackAlarm h <> 0 /\ ackAlarm h <= now).

(** C10: In every reachable state of the receiving side, when an ACK is due and some packet is
    on record, [GetAckFrame] does not panic and returns a frame whose ranges are well formed
    and which acknowledges exactly the packets that were received and not forgotten by
    [SetLowerLimit]: nothing that did not arrive is acknowledged, nothing that arrived is
    left out. *)
Theorem ack_reports_received version h s now :
  rtc handler_step (NewReceivedPacketHandler version, ∅) (h, s) -> s <> ∅ -> ackDue h now ->
  exists h' f, Handler.GetAckFrame h now = (h', Ret (Some f)) /\
    wf_ranges (AckRanges f) (LargestAcked f) (LowestAcked f) /\
    (forall p, Ack.AcksPacket f p = true <-> p ∈ s) /\
    ackQueued h' = false /\ ackAlarm h' = 0.
Proof.
  intros Hr%handler_reachable_ok Hne Hdue. unfold Handler.GetAckFrame.
  destruct (reportedRanges_ok h s Hr Hne) as (rs & lo & -> & Hwf & Hs).
  assert (negb (ackQueued h) && ((ackAlarm h =? 0) || (now <? ackAlarm h)) = false) as ->.
  { destruct Hdue as [-> | [? ?]]; [done|]. destruct (negb _); [|done].
    destruct (Z.eqb_spec (ackAlarm h) 0); [lia|]. by destruct (Z.ltb_spec now (ackAlarm h)); [lia|]. }
  eexists _, _. split; [done|]. split; [done|]. split; [|done].
  intros p. rewrite <- Hs. by apply AcksPacket_acked.
Qed.

Definition run_example1 : receivedPacketHandler :=
  (Handler.ReceivedPacket (NewReceivedPacketHandler 39) 10 1 true).1.
Definition run_example : receivedPacketHandler :=
  (Handler.ReceivedPacket run_example1 20 4 true).1.

Lemma ack_reports_received_witness :
  exists h' f, Handler.GetAckFrame run_example 30 = (h', Ret (Some f)) /\
    wf_ranges (AckRanges f) (LargestAcked f) (LowestAcked f) /\
    (forall p, Ack.AcksPacket f p = true <-> p ∈ ({[4]} ∪ ({[1]} ∪ ∅) : gset Z)) /\
    ackQueued h' = false /\ ackAlarm h' = 0.
Proof.
  apply (ack_reports_received 39 run_example ({[4]} ∪ ({[1]} ∪ ∅)) 30).
  - apply (rtc_l _ _ (run_example1, {[1]} ∪ ∅)).
    + apply (step_receive (NewReceivedPacketHandler 39) ∅ 10 1 true run_example1); [lia|reflexivity].
    + apply rtc_once.
      apply (step_receive run_example1 ({[1]} ∪ ∅) 20 4 true run_example); [lia|reflexivity].
  - set_solver.
  - left. reflexivity.
Defined.

Lemma maybeQueueAck_spec h now p :
  0 < now -> 0 < ackSendDelay h -> 0 <= ackAlarm h <= now + ackSendDelay h ->
  let h' := Handler.maybeQueueAck h now p true in
  (ackQueued h' = true /\ ackAlarm h' = 0 \/
   ackQueued h' = false /\ 0 < ackAlarm h' <= now + ackSendDelay h) /\
  (lastAck h = None \/ 1 <= retransmittablePacketsReceivedSinceLastAck h \/
   (exists f, lastAck h = Some f /\ p < LargestAcked f) -> ackQueued h' = true).
Proof.
  intros Hnow Hdelay Halarm. unfold Handler.maybeQueueAck, RetransmittablePacketsBeforeAck.
  destruct (lastAck h) as [f|] eqn:El; cbv zeta.
  - destruct (LargestAcked f <? First _); [by split; [left|]|].
    destruct (Z.ltb_spec p (LargestAcked f)); [by split; [left|]|].
    destruct ((rp_version h <? _) && _); [by split; [left|]|]. destruct (ackQueued h); [by split; [left|]|]. cbn [negb andb].
    destruct (Z.leb_spec 2 (retransmittablePacketsReceivedSinceLastAck h + 1)); [by split; [left|]|].
    split.
    + right. cbn. split; [done|]. destruct (Z.eqb_spec (ackAlarm h) 0); lia.
    + intros [?|[?|(g & [= <-] & ?)]]; [done|lia..].
  - destruct ((rp_version h <? _) && _); (by split; [left|]).
Qed.

(** C34: A packet that has to be acknowledged is acknowledged in time: after it is accepted, an
    ACK is queued or the alarm is set, at the latest to the maximal ACK delay from now;
    a second such packet since the last ACK, the first packet ever, or a packet below the
    largest one acknowledged queues the ACK at once. *)
Theorem ack_is_scheduled h now p h' :
  Handler.ReceivedPacket h now p true = (h', Ret tt) -> lowerLimit h < p -> 0 < now ->
  0 < ackSendDelay h -> ackAlarm h <= now + ackSendDelay h -> 0 <= ackAlarm h ->
  (ackQueued h' = true /\ ackAlarm h' = 0 \/
   ackQueued h' = false /\ 0 < ackAlarm h' <= now + ackSendDelay h) /\
  (lastAck h = None \/ 1 <= retransmittablePacketsReceivedSinceLastAck h \/
   (exists f, lastAck h = Some f /\ p < LargestAcked f) -> ackQueued h' = true).
Proof.
  intros Hrun Hlim Hnow Hdelay Halarm Halarm0. unfold Handler.ReceivedPacket in Hrun.
  destruct (Z.eqb_spec p 0); [done|]. cbn -[uN History.ReceivedPacket] in Hrun.
  destruct (Z.leb_spec p (lowerLimit h)); [lia|].
  destruct (History.ReceivedPacket (packetHistory h) p) as [hist|e|]; simplify_eq.
  match goal with |- context [Handler.maybeQueueAck ?g _ _ _] =>
    apply (maybeQueueAck_spec g now p); cbn; [done..|lia] end.
Qed.

Lemma ack_is_scheduled_witness :
  let h' := (Handler.ReceivedPacket run_example 40 5 true).1 in
  (ackQueued h' = true /\ ackAlarm h' = 0 \/
   ackQueued h' = false /\ 0 < ackAlarm h' <= 40 + ackSendDelay run_example) /\
  (lastAck run_example = None \/ 1 <= retransmittablePacketsReceivedSinceLastAck run_example \/
   (exists f, lastAck run_example = Some f /\ 5 < LargestAcked f) -> ackQueued h' = true).
Proof. apply (ack_is_scheduled run_example 40 5); vm_compute; done. Defined.

(** Closing a path on which no packet is on record indexes an empty slice. *)
Lemma close_path_frame_panics version :
  Handler.GetClosePathFrame (NewReceivedPacketHandler version) = Panic "index out of range".
Proof. reflexivity. Qed.
