(* ===== verification/FrameSorter.v ===== *)
(** * The stream frame sorter

    Models [stream_frame_sorter.go]: the frames of a stream that wait to be read, by offset,
    and the list of the gaps (the byte ranges that were not received).  The gaps
    are the values of the linked list from front to back; an element is its
    position in the list. *)
From S2P Require Import Prelude ByteOrder PacketNumber Frames.

Record ByteInterval := mkByteInterval { gapStart : Z; gapEnd : Z }.

Definition MaxByteCount : Z := 2 ^ 64 - 1.
Definition MaxStreamFrameSorterGaps : Z := 2500.

Record streamFrameSorter := mkSorter {
  queuedFrames : gmap Z StreamFrame;
  readPosition : Z;
  gaps : list ByteInterval
}.

Definition errTooManyGapsInReceivedStreamData : error :=
  ErrorString "Too many gaps in received StreamFrame data".
Definition errDuplicateStreamData : error := ErrorString "Duplicate Stream Data".
Definition errEmptyStreamData : error := ErrorString "Stream Data empty".
Definition errNoGap : error := ErrorString "StreamFrameSorter BUG: no gap found".
Definition errNoEndGap : error := ErrorString "StreamFrameSorter BUG: no end gap found".

Definition newStreamFrameSorter : streamFrameSorter :=
  mkSorter ∅ 0 [mkByteInterval 0 MaxByteCount].

Module Sorter.
(** The first loop: the gaps before the frame, the gap it starts in, the gaps
    after that one. *)
Fixpoint findGap (start end_ : Z) (gs : list ByteInterval)
    : outcome (list ByteInterval * ByteInterval * list ByteInterval) :=
  match gs with
  | [] => Err errNoGap
  | gap :: rest =>
      if end_ <=? gapStart gap then Err errDuplicateStreamData
      else if (gapStart gap <? end_) && (start <=? gapEnd gap) then Ret ([], gap, rest)
      else
        match findGap start end_ rest with
        | Ret (pre, g, post) => Ret (gap :: pre, g, post)
        | Err e => Err e
        | Panic s => Panic s
        end
  end.

(** How the second loop ends: with the gap [endGap] the frame ends in or before,
    which is [gap] itself ([isGap]), was removed from the list ([removed]), or
    stands in it before [after]; or without one. *)
Inductive endSearch :=
  | EndFound (endGap : ByteInterval) (isGap removed : bool) (after : list ByteInterval)
      (queued : gmap Z StreamFrame)
  | EndMissing (endGap : ByteInterval) (isGap : bool) (queued : gmap Z StreamFrame).

(** The second loop; the gaps between [gap] and [endGap] are removed, the queued
    frames that start where one of the filled gaps ends are deleted. *)
Fixpoint findEndGap (end_ : Z) (endGap : ByteInterval) (isGap : bool)
    (after : list ByteInterval) (queued : gmap Z StreamFrame) : endSearch :=
  if end_ <? gapEnd endGap then EndFound endGap isGap false after queued
  else
    match after with
    | [] => EndMissing endGap isGap queued
    | nextEndGap :: after' =>
        if end_ <=? gapStart nextEndGap
        then EndFound endGap isGap (negb isGap) after queued
        else findEndGap end_ nextEndGap false after' (delete (gapEnd endGap) queued)
    end.

(** The gaps from [gap] on once the frame [start, end_) is filled in. *)
Definition adjustGaps (start end_ : Z) (gap endGap : ByteInterval) (isGap removed : bool)
    (after : list ByteInterval) : list ByteInterval :=
  let inList := negb isGap && negb removed in
  if start =? gapStart gap then
    let keepGap := negb (gapEnd gap <=? end_) in
    let endGap' :=
      if end_ <? gapEnd endGap then mkByteInterval end_ (gapEnd endGap) else endGap in
    (if keepGap then [if isGap then endGap' else gap] else [])
    ++ (if inList then [endGap'] else []) ++ after
  else if end_ =? gapEnd endGap then
    mkByteInterval (gapStart gap) start :: (if inList then [endGap] else []) ++ after
  else if isGap then
    mkByteInterval (gapStart gap) start :: mkByteInterval end_ (gapEnd gap) :: after
  else
    mkByteInterval (gapStart gap) start
    :: (if inList then [mkByteInterval end_ (gapEnd endGap)] else []) ++ after.

Definition withData (f : StreamFrame) (offset : Z) (data : list Z) : StreamFrame :=
  mkStreamFrame (StreamID f) (FinBit f) (DataLenPresent f) offset data.

(** From the search for the gap on. *)
Definition pushData (s : streamFrameSorter) (frame : StreamFrame)
    : streamFrameSorter * outcome unit :=
  let start := Offset frame in
  let end_ := Offset frame +64 DataLen frame in
  match findGap start end_ (gaps s) with
  | Err e => (s, Err e)
  | Panic why => (s, Panic why)
  | Ret (pre, gap, post) =>
      let add := if start <? gapStart gap then gapStart gap -64 start else 0 in
      let frame := withData frame (Offset frame +64 add) (drop (Z.to_nat add) (Data frame)) in
      let start := start +64 add in
      match findEndGap end_ gap true post (queuedFrames s) with
      | EndMissing endGap isGap queued =>
          (mkSorter queued (readPosition s)
             (pre ++ gap :: (if isGap then [] else [endGap])), Err errNoEndGap)
      | EndFound endGap isGap removed after queued =>
          let cutLen := if gapEnd endGap <? end_ then end_ -64 gapEnd endGap else 0 in
          let len := DataLen frame -64 cutLen in
          let end_ := end_ -64 cutLen in
          let frame :=
            if 0 <? cutLen then withData frame (Offset frame) (take (Z.to_nat len) (Data frame))
            else frame in
          let gs := pre ++ adjustGaps start end_ gap endGap isGap removed after in
          if MaxStreamFrameSorterGaps <? Z.of_nat (length gs)
          then (mkSorter queued (readPosition s) gs, Err errTooManyGapsInReceivedStreamData)
          else (mkSorter (<[Offset frame := frame]> queued) (readPosition s) gs, Ret tt)
      end
  end.

Definition Push (s : streamFrameSorter) (frame : StreamFrame) : streamFrameSorter * outcome unit :=
  if DataLen frame =? 0 then
    if FinBit frame
    then (mkSorter (<[Offset frame := frame]> (queuedFrames s)) (readPosition s) (gaps s), Ret tt)
    else (s, Err errEmptyStreamData)
  else
    match queuedFrames s !! Offset frame with
    | Some oldFrame =>
        if DataLen frame <=? DataLen oldFrame then (s, Err errDuplicateStreamData)
        else pushData s (withData frame (Offset frame +64 DataLen oldFrame)
                           (drop (Z.to_nat (DataLen oldFrame)) (Data frame)))
    | None => pushData s frame
    end.

Definition Head (s : streamFrameSorter) : option StreamFrame := queuedFrames s !! readPosition s.

Definition Pop (s : streamFrameSorter) : streamFrameSorter * option StreamFrame :=
  match Head s with
  | Some frame =>
      (mkSorter (delete (Offset frame) (queuedFrames s)) (readPosition s +64 DataLen frame) (gaps s),
       Some frame)
  | None => (s, None)
  end.
End Sorter.

(** ** Gaps and chains *)

(** Byte [x] was not received. *)
Definition missing (x : Z) (gs : list ByteInterval) : Prop :=
  exists g, g ∈ gs /\ gapStart g <= x < gapEnd g.

Lemma missing_nil x : missing x [] <-> False.
Proof. unfold missing. set_solver. Qed.
Lemma missing_cons x g gs : missing x (g :: gs) <-> gapStart g <= x < gapEnd g \/ missing x gs.
Proof. unfold missing. set_solver. Qed.
Lemma missing_app x gs gs' : missing x (gs ++ gs') <-> missing x gs \/ missing x gs'.
Proof. unfold missing. set_solver. Qed.

(** Queued frames lead from offset [a] to offset [b] without a hole. *)
Inductive chain (q : gmap Z StreamFrame) : Z -> Z -> Prop :=
  | chain_nil a : chain q a a
  | chain_cons a b f :
      q !! a = Some f -> 0 < DataLen f -> a + DataLen f <= b -> chain q (a + DataLen f) b ->
      chain q a b.

Lemma chain_le q a b : chain q a b -> a <= b.
Proof. induction 1; lia. Qed.

Lemma chain_ext q q' a b :
  (forall k, a <= k < b -> q' !! k = q !! k) -> chain q a b -> chain q' a b.
Proof.
  intros Hext Hc. induction Hc as [a|a b f Hf Hl Hle Hc IH]; [constructor|].
  econstructor; [rewrite Hext by lia; exact Hf|done..|]. apply IH. intros. apply Hext. lia.
Qed.

Lemma chain_trans q a b c : chain q a b -> chain q b c -> chain q a c.
Proof.
  induction 1 as [|a b f Hf Hl Hle Hc IH]; [done|]. intros Hbc. pose proof (chain_le _ _ _ Hbc).
  econstructor; [done..|lia|]. by apply IH.
Qed.

(** The layout of a sorter read from [lo] on: the gaps are non-empty and apart,
    the last one reaches to the end, and every received range between them can
    be read frame by frame. *)
Inductive layout (q : gmap Z StreamFrame) : Z -> list ByteInterval -> Prop :=
  | layout_last lo g :
      chain q lo (gapStart g) -> gapStart g < gapEnd g -> gapEnd g = MaxByteCount ->
      layout q lo [g]
  | layout_cons lo g g' rest :
      chain q lo (gapStart g) -> gapStart g < gapEnd g -> gapEnd g < gapStart g' ->
      layout q (gapEnd g) (g' :: rest) -> layout q lo (g :: g' :: rest).

Lemma layout_head q lo g rest :
  layout q lo (g :: rest) ->
  chain q lo (gapStart g) /\ lo <= gapStart g < gapEnd g /\ gapEnd g <= MaxByteCount.
Proof.
  revert lo g. induction rest as [|g' rest IH]; intros lo g Hl;
    inversion Hl as [? ? Hc Hg He|? ? ? ? Hc Hg Hgg Hl']; subst; pose proof (chain_le _ _ _ Hc).
  - split; [done|]. lia.
  - destruct (IH _ _ Hl') as (_ & ? & ?). split; [done|]. lia.
Qed.

Lemma layout_nonempty q lo gs : layout q lo gs -> exists g rest, gs = g :: rest.
Proof. inversion 1; eauto. Qed.

(** Gaps do not begin before [lo]. *)
Lemma layout_missing q lo gs x : layout q lo gs -> missing x gs -> lo <= x < MaxByteCount.
Proof.
  intros Hl. induction Hl as [lo g Hc Hg He|lo g g' rest Hc Hg Hgg Hl IH]; intros Hm;
    pose proof (chain_le _ _ _ Hc).
  - rewrite missing_cons, missing_nil in Hm. lia.
  - rewrite missing_cons in Hm. pose proof (layout_head _ _ _ _ Hl) as (_ & ? & ?).
    destruct Hm as [|Hm]; [lia|]. specialize (IH Hm). lia.
Qed.

Lemma layout_ext q q' lo gs :
  (forall k, lo <= k -> q' !! k = q !! k) -> layout q lo gs -> layout q' lo gs.
Proof.
  intros Hext Hl. induction Hl as [lo g Hc Hg He|lo g g' rest Hc Hg Hgg Hl IH];
    pose proof (chain_le _ _ _ Hc).
  - constructor; [|done..]. eapply chain_ext; [|done]. intros. apply Hext. lia.
  - constructor; [|done..|].
    + eapply chain_ext; [|done]. intros. apply Hext. lia.
    + apply IH. intros. apply Hext. lia.
Qed.

(** Reading can start earlier when frames lead there. *)
Lemma layout_extend q a b gs : chain q a b -> layout q b gs -> layout q a gs.
Proof.
  intros Hab Hl. inversion Hl; subst; constructor; try done; by eapply chain_trans.
Qed.

(** ** The second loop *)

(** The gaps beyond [end_] when the last one the frame touches is [endGap]. *)
Definition gapsAfter (end_ : Z) (endGap : ByteInterval) (after : list ByteInterval)
    : list ByteInterval :=
  if end_ <? gapEnd endGap then mkByteInterval end_ (gapEnd endGap) :: after else after.

Record endFound (end_ : Z) (gap : ByteInterval) (isGap0 : bool) (post : list ByteInterval)
    (q : gmap Z StreamFrame) (endGap : ByteInterval) (isGap removed : bool)
    (after : list ByteInterval) (q' : gmap Z StreamFrame) : Prop := {
  ef_layout : layout q' (Z.min end_ (gapEnd endGap)) (gapsAfter end_ endGap after);
  ef_start : gapStart endGap < end_;
  ef_end : gapStart endGap < gapEnd endGap <= MaxByteCount;
  ef_keys : forall k, k < gapEnd gap -> q' !! k = q !! k;
  ef_sub : q' ⊆ q;
  ef_missing : forall x, missing x (gapsAfter end_ endGap after) <->
    missing x (gap :: post) /\ end_ <= x;
  ef_gap : endGap = gap /\ isGap = isGap0 \/ isGap = false /\ gapEnd gap < gapStart endGap;
  ef_removed : removed = negb isGap && (gapEnd endGap <=? end_);
  ef_last : forall x, missing x (gap :: post) -> x < end_ -> x < gapEnd endGap
}.

Lemma layout_tail q lo g g' rest :
  layout q lo (g :: g' :: rest) -> gapEnd g < gapStart g' /\ layout q (gapEnd g) (g' :: rest).
Proof. by inversion 1. Qed.

Lemma layout_shrink q lo g rest a :
  layout q lo (g :: rest) -> gapStart g <= a < gapEnd g ->
  layout q a (mkByteInterval a (gapEnd g) :: rest).
Proof. intros Hl Ha. inversion Hl; subst; constructor; cbn; try done; try lia; constructor. Qed.

Lemma layout_from q lo g rest : layout q lo (g :: rest) -> layout q (gapStart g) (g :: rest).
Proof. intros Hl. inversion Hl; subst; constructor; try done; constructor. Qed.

(** The rest of the gaps is beyond the first one. *)
Lemma layout_missing_tail q lo g rest x :
  layout q lo (g :: rest) -> missing x rest -> gapEnd g < x.
Proof.
  destruct rest as [|g' rest]; intros Hl Hm; [by apply missing_nil in Hm|].
  destruct (layout_tail _ _ _ _ _ Hl) as [Hgg Hl'].
  apply layout_from in Hl'. pose proof (layout_missing _ _ _ _ Hl' Hm). lia.
Qed.

Lemma endFound_here end_ gap isGap0 post q lo :
  layout q lo (gap :: post) -> gapStart gap < end_ < gapEnd gap ->
  endFound end_ gap isGap0 post q gap isGap0 false post q.
Proof.
  intros Hl Hend. pose proof (layout_head _ _ _ _ Hl) as (_ & ? & ?).
  unfold gapsAfter. split; try done; try lia; unfold gapsAfter.
  - destruct (Z.ltb_spec end_ (gapEnd gap)); [|lia]. rewrite Z.min_l by lia.
    eapply layout_shrink; [done|lia].
  - intros x. destruct (Z.ltb_spec end_ (gapEnd gap)); [|lia]. rewrite !missing_cons. cbn.
    pose proof (layout_missing_tail _ _ _ _ x Hl). intuition lia.
  - by left.
Qed.

Lemma endFound_break end_ gap isGap0 next post q lo :
  layout q lo (gap :: next :: post) -> gapEnd gap <= end_ <= gapStart next ->
  endFound end_ gap isGap0 (next :: post) q gap isGap0 (negb isGap0) (next :: post) q.
Proof.
  intros Hl Hend. pose proof (layout_head _ _ _ _ Hl) as (_ & ? & ?).
  destruct (layout_tail _ _ _ _ _ Hl) as [Hgg Hl'].
  split; try done; try lia; unfold gapsAfter.
  - destruct (Z.ltb_spec end_ (gapEnd gap)); [lia|]. by rewrite Z.min_r by lia.
  - intros x. destruct (Z.ltb_spec end_ (gapEnd gap)); [lia|].
    rewrite (missing_cons x gap). split; [|intuition lia]. intros Hm. split; [by right|].
    rewrite missing_cons in Hm. pose proof (layout_head _ _ _ _ Hl') as (_ & ? & ?).
    destruct Hm as [|Hm]; [lia|]. pose proof (layout_missing_tail _ _ _ _ x Hl' Hm). lia.
  - by left.
  - destruct (Z.leb_spec (gapEnd gap) end_); [by rewrite andb_true_r|lia].
  - intros x Hm Hx. rewrite missing_cons in Hm. destruct Hm as [|Hm]; [lia|].
    pose proof (layout_missing _ _ _ _ (layout_from _ _ _ _ Hl') Hm). lia.
Qed.

Lemma findEndGap_spec end_ gap post q lo isGap0 :
  layout q lo (gap :: post) -> gapStart gap < end_ < MaxByteCount ->
  exists endGap isGap removed after q',
    Sorter.findEndGap end_ gap isGap0 post q = Sorter.EndFound endGap isGap removed after q' /\
    endFound end_ gap isGap0 post q endGap isGap removed after q'.
Proof.
  revert gap lo q isGap0. induction post as [|next post IH]; intros gap lo q isGap0 Hl Hend;
    cbn [Sorter.findEndGap].
  - inversion Hl as [? ? Hc Hg He|]; subst. destruct (Z.ltb_spec end_ (gapEnd gap)); [|lia].
    eexists _, _, _, _, _. split; [done|]. eapply endFound_here; [done|lia].
  - destruct (Z.ltb_spec end_ (gapEnd gap)).
    { eexists _, _, _, _, _. split; [done|]. eapply endFound_here; [done|lia]. }
    destruct (Z.leb_spec end_ (gapStart next)).
    { eexists _, _, _, _, _. split; [done|]. eapply endFound_break; [done|lia]. }
    destruct (layout_tail _ _ _ _ _ Hl) as [Hgg Hl'].
    destruct (IH next (gapStart next) (delete (gapEnd gap) q) false)
      as (e & isG & rem & after & q' & -> & [Hlay Hst Hen Hk Hsub Hm Hg Hr Hlast]); [|lia|].
    { eapply layout_ext; [|eapply layout_from, Hl']. intros k Hk. rewrite lookup_delete_ne by lia. done. }
    eexists _, _, _, _, _. split; [done|]. pose proof (layout_head _ _ _ _ Hl') as (_ & ? & ?).
    split; try done.
    + intros k Hk'. rewrite Hk by lia. rewrite lookup_delete_ne by lia. done.
    + etrans; [exact Hsub|]. apply delete_subseteq.
    + intros x. rewrite Hm, (missing_cons x gap). intuition lia.
    + right. destruct Hg as [[-> ->]|[-> ?]]; (split; [done|lia]).
    + intros x Hx Hlt. rewrite missing_cons in Hx. destruct Hx as [Hx|Hx]; [|by apply Hlast].
      destruct Hg as [[-> _]|[_ ?]]; lia.
Qed.

(** ** The update of the gaps *)
Definition gapBefore (gap : ByteInterval) (start : Z) : list ByteInterval :=
  if start =? gapStart gap then [] else [mkByteInterval (gapStart gap) start].

Lemma adjustGaps_spec start end_ gap post q endGap isGap removed after q' :
  endFound end_ gap true post q endGap isGap removed after q' ->
  gapStart gap <= start < gapEnd gap -> start < end_ ->
  Sorter.adjustGaps start (Z.min end_ (gapEnd endGap)) gap endGap isGap removed after
  = gapBefore gap start ++ gapsAfter end_ endGap after.
Proof.
  intros [_ Hst Hen _ _ _ Hg Hr] Hs Hse. unfold Sorter.adjustGaps, gapBefore, gapsAfter.
  rewrite Hr. clear Hr. destruct Hg as [[-> ->]|[-> Hg]]; cbn [negb andb].
  - destruct (Z.eqb_spec start (gapStart gap)); destruct (Z.ltb_spec end_ (gapEnd gap)).
    + rewrite Z.min_l by lia. destruct (Z.leb_spec (gapEnd gap) end_); [lia|].
      by destruct (Z.ltb_spec end_ (gapEnd gap)); [|lia].
    + rewrite Z.min_r by lia. by rewrite Z.leb_refl.
    + rewrite Z.min_l by lia. by destruct (Z.eqb_spec end_ (gapEnd gap)); [lia|].
    + rewrite Z.min_r by lia. by rewrite Z.eqb_refl.
  - destruct (Z.ltb_spec end_ (gapEnd endGap)).
    + rewrite Z.min_l by lia. destruct (Z.leb_spec (gapEnd endGap) end_); [lia|]. cbn [negb].
      destruct (Z.leb_spec (gapEnd gap) end_); [|lia].
      destruct (Z.ltb_spec end_ (gapEnd endGap)); [|lia].
      destruct (Z.eqb_spec end_ (gapEnd endGap)); [lia|]. by destruct (start =? gapStart gap).
    + rewrite Z.min_r by lia. destruct (Z.leb_spec (gapEnd endGap) end_); [|lia]. cbn [negb].
      destruct (Z.leb_spec (gapEnd gap) (gapEnd endGap)); [|lia]. rewrite Z.eqb_refl.
      by destruct (start =? gapStart gap).
Qed.

(** ** Filling in a frame *)

(** The frame [start, end') is queued: what was laid out is laid out again. *)
Lemma fill_layout lo start end_ gap post q endGap isGap removed after q' f :
  layout q lo (gap :: post) ->
  endFound end_ gap true post q endGap isGap removed after q' ->
  gapStart gap <= start < gapEnd gap -> start < end_ ->
  DataLen f = Z.min end_ (gapEnd endGap) - start ->
  layout (<[start := f]> q') lo (gapBefore gap start ++ gapsAfter end_ endGap after).
Proof.
  intros Hl Hef Hs Hse Hlen. pose proof Hef as [Hlay Hst Hen Hk _ _ Hg _].
  set (end' := Z.min end_ (gapEnd endGap)) in *.
  assert (He' : start < end') by (destruct Hg as [[-> _]|[_ ?]]; lia).
  pose proof (layout_head _ _ _ _ Hl) as (Hc & _ & _).
  assert (Hc' : chain (<[start := f]> q') lo (gapStart gap)).
  { eapply chain_ext; [|exact Hc]. intros k Hk'. rewrite lookup_insert_ne, Hk by lia. done. }
  assert (Hafter : layout (<[start := f]> q') end' (gapsAfter end_ endGap after)).
  { eapply layout_ext; [|exact Hlay]. intros k Hk'. by rewrite lookup_insert_ne by lia. }
  assert (Hfr : chain (<[start := f]> q') start end').
  { eapply chain_cons; [by rewrite lookup_insert_eq|lia..|].
    replace (start + DataLen f) with end' by lia. constructor. }
  pose proof (layout_extend _ _ _ _ Hfr Hafter) as Hrest. unfold gapBefore.
  destruct (Z.eqb_spec start (gapStart gap)) as [->|Hne]; cbn [app].
  - by eapply layout_extend.
  - destruct (gapsAfter end_ endGap after) as [|g' rest] eqn:Eg; [inversion Hlay|].
    pose proof (layout_head _ _ _ _ Hafter) as (_ & ? & _).
    constructor; cbn; [done|lia|lia|done].
Qed.

Lemma layout_suffix q lo pre gap post :
  layout q lo (pre ++ gap :: post) ->
  exists lo', lo <= lo' <= gapStart gap /\ layout q lo' (gap :: post).
Proof.
  revert lo. induction pre as [|p pre IH]; intros lo Hl; cbn [app] in Hl.
  - exists lo. split; [|done]. pose proof (layout_head _ _ _ _ Hl). lia.
  - assert (exists h t, pre ++ gap :: post = h :: t) as (h & t & Ht) by (destruct pre; eauto).
    pose proof (layout_head _ _ _ _ Hl) as (_ & ? & _). rewrite Ht in Hl.
    destruct (layout_tail _ _ _ _ _ Hl) as [Hpg Hl']. rewrite <- Ht in Hl'.
    destruct (IH _ Hl') as (lo' & ? & ?). exists lo'. split; [lia|done].
Qed.

(** Gaps before the one the frame starts in are left alone. *)
Lemma layout_prefix q q' lo pre gap post g' rest :
  layout q lo (pre ++ gap :: post) -> gapStart gap <= gapStart g' ->
  (forall k, k < gapStart gap -> q' !! k = q !! k) ->
  (forall lo', layout q lo' (gap :: post) -> layout q' lo' (g' :: rest)) ->
  layout q' lo (pre ++ g' :: rest).
Proof.
  intros Hl Hg' Hk Hgs. revert lo Hl. induction pre as [|p pre IH]; intros lo Hl; [by apply Hgs|].
  destruct (layout_suffix q lo (p :: pre) gap post Hl) as (lo' & Hlo' & _). cbn [app] in *.
  assert (exists h t h' t', pre ++ gap :: post = h :: t /\ pre ++ g' :: rest = h' :: t' /\
    gapStart h <= gapStart h') as (h & t & h' & t' & Ht & Ht' & Hh)
    by (destruct pre; [by eexists _, _, _, _|eexists _, _, _, _; by cbn]).
  rewrite Ht in Hl. inversion Hl as [|? ? ? ? Hc Hp Hpg Hl']; subst. rewrite <- Ht in Hl'.
  destruct (layout_suffix _ _ _ _ _ Hl') as (lo'' & Hlo'' & _).
  specialize (IH _ Hl'). rewrite Ht' in *. constructor; [|done|lia|done].
  eapply chain_ext; [|exact Hc]. intros k Hk'. apply Hk. lia.
Qed.

(** ** The first loop *)
Lemma findGap_spec q lo start end_ gs :
  layout q lo gs -> start < end_ -> start < MaxByteCount ->
  match Sorter.findGap start end_ gs with
  | Ret (pre, gap, post) =>
      gs = pre ++ gap :: post /\ (forall x, missing x pre -> x < start) /\
      gapStart gap < end_ /\ start <= gapEnd gap
  | Err e => e = errDuplicateStreamData /\ forall x, start <= x < end_ -> ~ missing x gs
  | Panic _ => False
  end.
Proof.
  intros Hl Hse Hmax. induction Hl as [lo g Hc Hg He|lo g g' rest Hc Hg Hgg Hl IH];
    cbn [Sorter.findGap] in *.
  - destruct (Z.leb_spec end_ (gapStart g)).
    { split; [done|]. intros x Hx. rewrite missing_cons, missing_nil. lia. }
    destruct (Z.ltb_spec (gapStart g) end_); [|lia]. destruct (Z.leb_spec start (gapEnd g)); [|lia].
    split_and!; try done. intros x. by rewrite missing_nil.
  - destruct (Z.leb_spec end_ (gapStart g)).
    { split; [done|]. intros x Hx Hm. rewrite missing_cons in Hm. destruct Hm as [|Hm]; [lia|].
      pose proof (layout_missing _ _ _ _ Hl Hm). lia. }
    destruct (Z.ltb_spec (gapStart g) end_); [|lia]. destruct (Z.leb_spec start (gapEnd g)); cbn [andb].
    { split_and!; try done. intros x. by rewrite missing_nil. }
    destruct (if end_ <=? gapStart g' then _ else _) as [[[pre x] post]|e|why]; [| |done].
    + destruct IH as (Hgs & Hpre & Hx & Hx'). split_and!; try done; [by rewrite Hgs|].
      intros y. rewrite missing_cons. intros [|Hm]; [lia|by apply Hpre].
    + destruct IH as [-> IH]. split; [done|]. intros x Hx. rewrite missing_cons.
      intros [|Hm]; [lia|]. by apply (IH x Hx).
Qed.

(** ** Correctness for a stream

    The peer sends the bytes [stream 0], ..., [stream (final - 1)] and frames
    that are slices of them. *)
Section Stream.
Context (stream : Z -> Z) (final : Z).
Hypothesis Hfinal : 0 <= final < MaxByteCount.

Definition slice_of (k : Z) (data : list Z) : Prop :=
  forall i b, data !! i = Some b -> b = stream (k + Z.of_nat i).

Lemma slice_drop k d data : 0 <= d -> slice_of k data -> slice_of (k + d) (drop (Z.to_nat d) data).
Proof.
  intros Hd Hs i b Hb. rewrite lookup_drop in Hb. apply Hs in Hb. rewrite Hb. f_equal. lia.
Qed.

Lemma slice_take k n data : slice_of k data -> slice_of k (take n data).
Proof. intros Hs i b Hb. apply lookup_take_Some in Hb as [Hb _]. by apply Hs. Qed.

(** A frame the peer sends. *)
Record valid_frame (f : StreamFrame) : Prop := {
  vf_offset : 0 <= Offset f;
  vf_end : Offset f + DataLen f <= final;
  vf_data : slice_of (Offset f) (Data f);
  vf_fin : FinBit f = true -> Offset f + DataLen f = final
}.

Record queued_ok (gs : list ByteInterval) (k : Z) (f : StreamFrame) : Prop := {
  qo_offset : Offset f = k;
  qo_nonneg : 0 <= k;
  qo_end : k + DataLen f <= final;
  qo_data : slice_of k (Data f);
  qo_received : forall x, k <= x < k + DataLen f -> ~ missing x gs;
  qo_empty : DataLen f = 0 -> k = final
}.

Record sorter_ok (s : streamFrameSorter) : Prop := {
  so_layout : layout (queuedFrames s) (readPosition s) (gaps s);
  so_read : 0 <= readPosition s;
  so_queued : map_Forall (queued_ok (gaps s)) (queuedFrames s)
}.

Lemma DataLen_nonneg f : 0 <= DataLen f.
Proof. unfold DataLen. lia. Qed.

(** The frame that is queued: cut to [start, end'). *)
Lemma cut_frame f add cutLen :
  0 <= add -> 0 <= cutLen -> add + cutLen < DataLen f -> slice_of (Offset f) (Data f) ->
  let g := Sorter.withData f (Offset f + add) (drop (Z.to_nat add) (Data f)) in
  let g' := if 0 <? cutLen
            then Sorter.withData g (Offset g) (take (Z.to_nat (DataLen g - cutLen)) (Data g)) else g in
  DataLen g = DataLen f - add /\ Offset g' = Offset f + add /\
  DataLen g' = DataLen f - add - cutLen /\ slice_of (Offset f + add) (Data g').
Proof.
  intros Ha Hc Hlen Hs. cbv zeta. unfold DataLen in *. cbn [Data Offset Sorter.withData] in *.
  split; [rewrite length_drop; lia|].
  destruct (Z.ltb_spec 0 cutLen); cbn [Offset Data Sorter.withData].
  - split; [done|]. rewrite length_take, length_drop. split; [lia|].
    by apply slice_take, slice_drop.
  - split; [done|]. rewrite length_drop. split; [lia|]. by apply slice_drop.
Qed.

Lemma fill_missing st start en gap post pre q lo endGap isGap removed after q' :
  layout q lo (gap :: post) ->
  endFound en gap true post q endGap isGap removed after q' ->
  (forall x, missing x pre -> x < st) -> start = Z.max st (gapStart gap) ->
  st < gapEnd gap -> gapStart gap < en -> st < en ->
  forall x, missing x (pre ++ gapBefore gap start ++ gapsAfter en endGap after) <->
    missing x (pre ++ gap :: post) /\ ~ (st <= x < en).
Proof.
  intros Hl Hef Hpre -> Hst Hen Hse x. rewrite !missing_app, (ef_missing _ _ _ _ _ _ _ _ _ _ Hef).
  rewrite missing_cons. pose proof (layout_missing_tail _ _ _ _ x Hl) as Htail.
  specialize (Hpre x). unfold gapBefore.
  destruct (Z.eqb_spec (Z.max st (gapStart gap)) (gapStart gap));
    rewrite ?missing_cons, missing_nil; cbn; intuition lia.
Qed.

(** What [Push] of the bytes [st, en) may do. *)
Definition push_ok (s s' : streamFrameSorter) (r : outcome unit) (st en : Z) : Prop :=
  match r with
  | Ret _ =>
      sorter_ok s' /\ readPosition s' = readPosition s /\
      forall x, missing x (gaps s') <-> missing x (gaps s) /\ ~ (st <= x < en)
  | Err e =>
      e = errDuplicateStreamData /\ s' = s /\ (forall x, st <= x < en -> ~ missing x (gaps s)) \/
      e = errTooManyGapsInReceivedStreamData /\
        MaxStreamFrameSorterGaps < Z.of_nat (length (gaps s'))
  | Panic _ => False
  end.

Lemma push_fill s pre gap post f f' q' endGap isGap removed after start :
  sorter_ok s -> gaps s = pre ++ gap :: post -> slice_of start (Data f') ->
  endFound (Offset f + DataLen f) gap true post (queuedFrames s) endGap isGap removed after q' ->
  (forall x, missing x pre -> x < Offset f) ->
  start = Z.max (Offset f) (gapStart gap) -> Offset f < gapEnd gap -> 0 < DataLen f ->
  gapStart gap < Offset f + DataLen f -> 0 <= Offset f -> Offset f + DataLen f <= final ->
  Offset f' = start -> DataLen f' = Z.min (Offset f + DataLen f) (gapEnd endGap) - start ->
  let gs := pre ++ gapBefore gap start ++ gapsAfter (Offset f + DataLen f) endGap after in
  push_ok s (mkSorter (<[start := f']> q') (readPosition s) gs) (Ret tt)
    (Offset f) (Offset f + DataLen f).
Proof.
  intros [Hl Hr Hq] Hgs Hslice Hef Hpre Hstart Hst Hlen Hen Ho Hfin Hof' Hlen' gs.
  rewrite Hgs in Hl. destruct (layout_suffix _ _ _ _ _ Hl) as (lo & Hlo & Hl').
  pose proof (layout_head _ _ _ _ Hl') as (_ & Hgap & _).
  assert (Hmiss : forall x, missing x gs <->
    missing x (gaps s) /\ ~ (Offset f <= x < Offset f + DataLen f)).
  { intros x. rewrite Hgs. unfold gs. eapply fill_missing; [done..|lia]. }
  assert (He' : start < Z.min (Offset f + DataLen f) (gapEnd endGap)).
  { destruct Hef as [_ _ ? _ _ _ [[-> _]|[_ ?]] _]; lia. }
  cbn. split; [|split; [done|exact Hmiss]]. split; cbn.
  - subst gs. set (gs := gapBefore gap start ++ gapsAfter (Offset f + DataLen f) endGap after).
    assert (Hfill : forall lo', layout (queuedFrames s) lo' (gap :: post) ->
      layout (<[start := f']> q') lo' gs) by (intros; eapply fill_layout; [done..|lia|lia|done]).
    destruct (layout_nonempty _ _ _ (Hfill lo Hl')) as (g' & rest & Hne).
    rewrite Hne in *. eapply layout_prefix; [exact Hl| | |exact Hfill].
    + apply layout_from in Hl'. apply Hfill, layout_head in Hl'. lia.
    + intros k Hk. rewrite lookup_insert_ne by lia. apply (ef_keys _ _ _ _ _ _ _ _ _ _ Hef). lia.
  - done.
  - apply map_Forall_insert_2.
    + split; [done|lia|lia|done| |lia].
      intros x Hx. rewrite Hmiss. lia.
    + intros k g Hk. pose proof (lookup_weaken _ _ _ _ Hk (ef_sub _ _ _ _ _ _ _ _ _ _ Hef)) as Hk'.
      destruct (Hq k g Hk'). split; try done. intros x Hx. rewrite Hmiss. naive_solver.
Qed.

Lemma pushData_ok s f :
  sorter_ok s -> 0 <= Offset f -> 0 < DataLen f -> Offset f + DataLen f <= final ->
  slice_of (Offset f) (Data f) -> (forall g, g ∈ gaps s -> gapEnd g <> Offset f) ->
  let '(s', r) := Sorter.pushData s f in push_ok s s' r (Offset f) (Offset f + DataLen f).
Proof.
  intros Hok Ho Hlen Hfin Hdata Hne. pose proof Hok as [Hl Hr _]. unfold MaxByteCount in Hfinal.
  unfold Sorter.pushData. replace (Offset f +64 DataLen f) with (Offset f + DataLen f) by (by usmall).
  pose proof (findGap_spec _ _ (Offset f) (Offset f + DataLen f) _ Hl ltac:(lia)
    ltac:(unfold MaxByteCount; lia)) as Hgap.
  destruct (Sorter.findGap _ _ (gaps s)) as [[[pre gap] post]|e|why]; [| |done].
  2: { left. by destruct Hgap as [-> Hgap]. }
  destruct Hgap as (Hgs & Hpre & Hen & Hst).
  assert (gapEnd gap <> Offset f) as Hne' by (apply Hne; rewrite Hgs; set_solver).
  rewrite Hgs in Hl. destruct (layout_suffix _ _ _ _ _ Hl) as (lo & Hlo & Hl').
  pose proof (layout_head _ _ _ _ Hl') as (_ & Hg & Hgm).
  set (add := if Offset f <? gapStart gap then gapStart gap -64 Offset f else 0).
  assert (Hadd : add = Z.max (Offset f) (gapStart gap) - Offset f).
  { unfold add. destruct (Z.ltb_spec (Offset f) (gapStart gap)); usmall; lia. }
  clearbody add.
  destruct (findEndGap_spec (Offset f + DataLen f) gap post _ _ true Hl')
    as (e & isG & rem & after & q' & -> & Hef); [unfold MaxByteCount; lia|].
  pose proof Hef as [_ He1 He2 _ _ _ Hgg _]. unfold MaxByteCount in Hgm, He2.
  assert (0 <= gapEnd e) by (destruct Hgg as [[-> _]|[_ ?]]; lia).
  set (cutLen := if gapEnd e <? Offset f + DataLen f
                 then Offset f + DataLen f -64 gapEnd e else 0).
  assert (Hcut : cutLen = Offset f + DataLen f - Z.min (Offset f + DataLen f) (gapEnd e)).
  { unfold cutLen. destruct (Z.ltb_spec (gapEnd e) (Offset f + DataLen f)); usmall; lia. }
  clearbody cutLen.
  assert (Hac : 0 <= add /\ 0 <= cutLen /\ add + cutLen < DataLen f)
    by (destruct Hgg as [[-> _]|[_ ?]]; lia).
  destruct (cut_frame f add cutLen) as (Hgl & Hfo & Hfl & Hfs); [lia..|done|].
  replace (Offset f +64 add) with (Offset f + add) by (usmall; lia).
  cbv zeta. rewrite Hgl in Hfo, Hfl, Hfs |- *.
  replace (DataLen f - add -64 cutLen) with (DataLen f - add - cutLen) by (usmall; lia).
  replace (Offset f + DataLen f -64 cutLen) with (Z.min (Offset f + DataLen f) (gapEnd e))
    by (usmall; lia).
  erewrite (adjustGaps_spec (Offset f + add)) by (exact Hef || lia).
  match type of Hfo with Offset ?g = _ => set (f' := g) in * end.
  rewrite Hfo. destruct (Z.ltb_spec MaxStreamFrameSorterGaps (Z.of_nat (length
    (pre ++ gapBefore gap (Offset f + add) ++ gapsAfter (Offset f + DataLen f) e after))));
    [by right|].
  eapply push_fill; try done; lia.
Qed.

(** Where a gap ends, a queued frame begins. *)
Lemma layout_gap q lo gs g :
  layout q lo gs -> g ∈ gs ->
  gapStart g < gapEnd g /\ (gapEnd g = MaxByteCount \/ is_Some (q !! gapEnd g)).
Proof.
  induction 1 as [lo h Hc Hg He|lo h h' rest Hc Hg Hgg Hl IH]; intros Hin.
  - apply list_elem_of_singleton in Hin as ->. auto.
  - apply elem_of_cons in Hin as [->|Hin]; [|by apply IH]. split; [done|]. right.
    apply layout_head in Hl as (Hc' & _). inversion Hc'; subst; [lia|eauto].
Qed.

Lemma chain_final gs q a b : map_Forall (queued_ok gs) q -> chain q a b -> a = b \/ b <= final.
Proof.
  intros Hq Hc. induction Hc as [|a b f Hf Hl Hle Hc IH]; [by left|]. right.
  destruct (Hq _ _ Hf). lia.
Qed.

(** An entry at the final offset is no part of a chain. *)
Lemma layout_fin gs0 q q' lo gs :
  map_Forall (queued_ok gs0) q -> (forall k, k <> final -> q' !! k = q !! k) ->
  layout q lo gs -> layout q' lo gs.
Proof.
  intros Hq Hk Hl. induction Hl as [lo g Hc Hg He|lo g g' rest Hc Hg Hgg Hl IH];
    (constructor; [|done..]); eapply chain_ext; [|exact Hc| |exact Hc]; intros k Hk';
    apply Hk; destruct (chain_final _ _ _ _ Hq Hc); lia.
Qed.

Lemma push_dup s f old :
  sorter_ok s -> queuedFrames s !! Offset f = Some old -> DataLen f <= DataLen old ->
  push_ok s s (Err errDuplicateStreamData) (Offset f) (Offset f + DataLen f).
Proof.
  intros [_ _ Hq] Hold Hle. left. do 2 (split; [done|]). destruct (Hq _ _ Hold) as [_ _ _ _ Hrec _].
  intros x Hx. apply Hrec. lia.
Qed.

(** The part of the frame beyond the queued one at its offset. *)
Lemma push_ok_widen s s' r st mid en :
  (forall x, st <= x < mid -> ~ missing x (gaps s)) -> st <= mid ->
  push_ok s s' r mid en -> push_ok s s' r st en.
Proof.
  intros Hrec Hle. destruct r as [u|e|why]; [|intros [(? & ? & Hx)|?]; [left|by right]|done]; cbn.
  - intros (? & ? & Hm). do 2 (split; [done|]). intros x. rewrite Hm. specialize (Hrec x).
    split; intros [? ?]; (split; [done|]); intros ?; [|lia].
    destruct (Z.lt_ge_cases x mid); [by apply Hrec; [lia|]|lia].
  - do 2 (split; [done|]). intros x Hx'. destruct (Z.lt_ge_cases x mid); [apply Hrec; lia|apply Hx; lia].
Qed.

Lemma Push_data_ok s f :
  sorter_ok s -> valid_frame f -> DataLen f <> 0 ->
  let '(s', r) := Sorter.Push s f in push_ok s s' r (Offset f) (Offset f + DataLen f).
Proof.
  intros Hok [Hoff Hend Hdata Hfin] Hlen. pose proof (DataLen_nonneg f) as Hnn.
  pose proof Hok as [Hl _ Hq]. unfold Sorter.Push. destruct (Z.eqb_spec (DataLen f) 0); [done|].
  destruct (queuedFrames s !! Offset f) as [old|] eqn:Hold.
  - destruct (Z.leb_spec (DataLen f) (DataLen old)); [by eapply push_dup|].
    destruct (Hq _ _ Hold) as [_ _ Hqe _ Hrec Hemp]. pose proof (DataLen_nonneg old).
    unfold MaxByteCount in Hfinal. replace (Offset f +64 DataLen old) with (Offset f + DataLen old)
      by (usmall; lia).
    set (f1 := Sorter.withData f _ _).
    assert (DataLen f1 = DataLen f - DataLen old) as Hl1
      by (unfold f1, DataLen in *; cbn [Data Sorter.withData]; rewrite length_drop; lia).
    pose proof (pushData_ok s f1 Hok) as Hpush. change (Offset f1) with (Offset f + DataLen old) in Hpush.
    rewrite Hl1 in Hpush. destruct (Sorter.pushData s f1) as [s' r].
    replace (Offset f + DataLen old + (DataLen f - DataLen old)) with (Offset f + DataLen f)
      in Hpush by lia.
    eapply push_ok_widen; [exact Hrec|lia|]. apply Hpush; try lia.
    + apply slice_drop; [lia|done].
    + intros g Hg Heq. destruct (layout_gap _ _ _ _ Hl Hg) as [Hgw _].
      assert (DataLen old <> 0) by (intros ?%Hemp; lia).
      apply (Hrec (Offset f + DataLen old - 1)); [lia|]. exists g. split; [done|lia].
  - apply pushData_ok; try done; [lia|].
    intros g Hg Heq. destruct (layout_gap _ _ _ _ Hl Hg) as [_ [?|[x Hx]]]; [lia|].
    rewrite Heq in Hx. congruence.
Qed.

Lemma Push_fin_ok s f :
  sorter_ok s -> valid_frame f -> DataLen f = 0 -> FinBit f = true ->
  sorter_ok (mkSorter (<[Offset f := f]> (queuedFrames s)) (readPosition s) (gaps s)).
Proof.
  intros [Hl Hr Hq] [Hoff Hend Hdata Hfin] Hlen Hf. specialize (Hfin Hf).
  assert (Offset f = final) as Ho by lia. split; cbn; [|done|].
  - eapply layout_fin; [exact Hq| |exact Hl]. intros k Hk. by rewrite lookup_insert_ne by congruence.
  - apply map_Forall_insert_2; [|done]. split; try done; lia.
Qed.

Lemma Push_Ret s s' f :
  sorter_ok s -> valid_frame f -> Sorter.Push s f = (s', Ret tt) ->
  sorter_ok s' /\ readPosition s' = readPosition s /\
  forall x, missing x (gaps s') <-> missing x (gaps s) /\ ~ (Offset f <= x < Offset f + DataLen f).
Proof.
  intros Hok Hv Hpush. destruct (Z.eq_dec (DataLen f) 0) as [H0|H0].
  - unfold Sorter.Push in Hpush. rewrite H0 in Hpush. cbn [Z.eqb] in Hpush.
    destruct (FinBit f) eqn:Hf; simplify_eq. split; [by apply Push_fin_ok|].
    split; [done|]. intros x. cbn [gaps]. intuition lia.
  - pose proof (Push_data_ok s f Hok Hv H0) as Hp. by rewrite Hpush in Hp.
Qed.

Lemma Push_dup s s' f :
  sorter_ok s -> valid_frame f -> Sorter.Push s f = (s', Err errDuplicateStreamData) ->
  s' = s /\ forall x, Offset f <= x < Offset f + DataLen f -> ~ missing x (gaps s).
Proof.
  intros Hok Hv Hpush. destruct (Z.eq_dec (DataLen f) 0) as [H0|H0].
  - unfold Sorter.Push in Hpush. rewrite H0 in Hpush. cbn [Z.eqb] in Hpush.
    by destruct (FinBit f); simplify_eq.
  - pose proof (Push_data_ok s f Hok Hv H0) as Hp. rewrite Hpush in Hp.
    destruct Hp as [(_ & -> & Hd)|[? _]]; [done|discriminate].
Qed.

Lemma Pop_ok s :
  sorter_ok s ->
  match Sorter.Pop s with
  | (s', Some f) =>
      sorter_ok s' /\ gaps s' = gaps s /\ Offset f = readPosition s /\
      readPosition s' = readPosition s + DataLen f /\ slice_of (readPosition s) (Data f)
  | (s', None) => s' = s /\ missing (readPosition s) (gaps s)
  end.
Proof.
  intros [Hl Hr Hq]. unfold Sorter.Pop, Sorter.Head.
  destruct (layout_nonempty _ _ _ Hl) as (g & rest & Hg).
  rewrite Hg in Hl. pose proof (layout_head _ _ _ _ Hl) as (Hc & Hgs & _). rewrite <- Hg in Hl.
  destruct (queuedFrames s !! readPosition s) as [f|] eqn:Hf.
  - destruct (Hq _ _ Hf) as [Ho _ Hend Hdata Hrec Hemp]. pose proof (DataLen_nonneg f).
    unfold MaxByteCount in Hfinal. rewrite Ho.
    replace (readPosition s +64 DataLen f) with (readPosition s + DataLen f) by (usmall; lia).
    split; [|done]. split; cbn; [|lia|by apply map_Forall_delete].
    destruct (Z.eq_dec (DataLen f) 0) as [H0|H0].
    + rewrite H0, Z.add_0_r. eapply layout_fin; [exact Hq| |exact Hl].
      intros k Hk. rewrite lookup_delete_ne; [done|]. intros <-. auto.
    + inversion Hc as [|? ? f' Hf' Hl' Hle Hc']; subst.
      * exfalso. apply (Hrec (readPosition s)); [lia|]. rewrite Hg, missing_cons. left. lia.
      * rewrite Hf in Hf'. simplify_eq.
        eapply layout_ext with (q := queuedFrames s).
        { intros k Hk. by rewrite lookup_delete_ne by lia. }
        rewrite Hg in *. inversion Hl; subst; by constructor.
  - split; [done|]. rewrite Hg, missing_cons. left. inversion Hc; subst; [lia|congruence].
Qed.

(** *** What a push does to the queue *)

(** The frame [f] is queued as [g], from a missing byte on and, when its last byte was missing, up
    to its end; the frames queued before it stay. *)
Definition push_queue (s s' : streamFrameSorter) (f : StreamFrame) : Prop :=
  exists g q', queuedFrames s' = <[Offset g := g]> q' /\ q' ⊆ queuedFrames s /\
    (forall k, k < Offset g -> q' !! k = queuedFrames s !! k) /\
    missing (Offset g) (gaps s) /\ Offset f <= Offset g < Offset f + DataLen f /\ FinBit g = FinBit f /\
    (missing (Offset f + DataLen f - 1) (gaps s) -> Offset g + DataLen g = Offset f + DataLen f).

Lemma pushData_queue s s' f :
  sorter_ok s -> 0 <= Offset f -> 0 < DataLen f -> Offset f + DataLen f <= final ->
  slice_of (Offset f) (Data f) -> (forall g, g ∈ gaps s -> gapEnd g <> Offset f) ->
  Sorter.pushData s f = (s', Ret tt) -> push_queue s s' f.
Proof.
  intros [Hl Hr _] Ho Hlen Hfin Hdata Hne. unfold MaxByteCount in Hfinal.
  unfold Sorter.pushData. replace (Offset f +64 DataLen f) with (Offset f + DataLen f) by (by usmall).
  pose proof (findGap_spec _ _ (Offset f) (Offset f + DataLen f) _ Hl ltac:(lia)
    ltac:(unfold MaxByteCount; lia)) as Hgap.
  destruct (Sorter.findGap _ _ (gaps s)) as [[[pre gap] post]|e|why]; [|done..].
  destruct Hgap as (Hgs & Hpre & Hen & Hst).
  assert (gapEnd gap <> Offset f) as Hne' by (apply Hne; rewrite Hgs; set_solver).
  rewrite Hgs in Hl. destruct (layout_suffix _ _ _ _ _ Hl) as (lo & Hlo & Hl').
  pose proof (layout_head _ _ _ _ Hl') as (_ & Hg & Hgm).
  set (add := if Offset f <? gapStart gap then gapStart gap -64 Offset f else 0).
  assert (Hadd : add = Z.max (Offset f) (gapStart gap) - Offset f).
  { unfold add. destruct (Z.ltb_spec (Offset f) (gapStart gap)); usmall; lia. }
  clearbody add.
  destruct (findEndGap_spec (Offset f + DataLen f) gap post _ _ true Hl')
    as (e & isG & rem & after & q' & -> & Hef); [unfold MaxByteCount; lia|].
  pose proof Hef as [_ He1 He2 Hkeys Hsub Hm Hgg _]. unfold MaxByteCount in Hgm, He2.
  set (cutLen := if gapEnd e <? Offset f + DataLen f
                 then Offset f + DataLen f -64 gapEnd e else 0).
  assert (Hcut : cutLen = Offset f + DataLen f - Z.min (Offset f + DataLen f) (gapEnd e)).
  { unfold cutLen. assert (0 <= gapEnd e) by (destruct Hgg as [[-> _]|[_ ?]]; lia).
    destruct (Z.ltb_spec (gapEnd e) (Offset f + DataLen f)); usmall; lia. }
  clearbody cutLen.
  assert (Hac : 0 <= add /\ 0 <= cutLen /\ add + cutLen < DataLen f)
    by (destruct Hgg as [[-> _]|[_ ?]]; lia).
  destruct (cut_frame f add cutLen) as (Hgl & Hfo & Hfl & _); [lia..|done|].
  replace (Offset f +64 add) with (Offset f + add) by (usmall; lia).
  cbv zeta. rewrite Hgl in Hfo, Hfl |- *.
  replace (DataLen f - add -64 cutLen) with (DataLen f - add - cutLen) by (usmall; lia).
  match type of Hfo with Offset ?g = _ => set (f' := g) in * end.
  destruct (_ <? _) in |- *; intros [= <-]. exists f', q'. cbn [queuedFrames].
  split; [done|]. split; [done|]. split; [intros k Hk; apply Hkeys; lia|].
  split. { exists gap. rewrite Hgs. split; [set_solver|lia]. }
  split; [lia|]. split; [by unfold f'; destruct (0 <? cutLen)|].
  intros Hlast. rewrite Hgs, missing_app in Hlast. rewrite Hfl, Hfo.
  destruct Hlast as [Hx|Hx]; [apply Hpre in Hx; lia|].
  apply (ef_last _ _ _ _ _ _ _ _ _ _ Hef) in Hx; lia.
Qed.

Lemma Push_queue s s' f :
  sorter_ok s -> valid_frame f -> DataLen f <> 0 -> Sorter.Push s f = (s', Ret tt) ->
  push_queue s s' f.
Proof.
  intros Hok [Hoff Hend Hdata Hfin] Hlen. pose proof (DataLen_nonneg f) as Hnn.
  pose proof Hok as [Hl _ Hq]. unfold Sorter.Push. destruct (Z.eqb_spec (DataLen f) 0); [done|].
  destruct (queuedFrames s !! Offset f) as [old|] eqn:Hold.
  - destruct (Z.leb_spec (DataLen f) (DataLen old)); [done|].
    destruct (Hq _ _ Hold) as [_ _ Hqe _ Hrec Hemp]. pose proof (DataLen_nonneg old).
    unfold MaxByteCount in Hfinal. replace (Offset f +64 DataLen old) with (Offset f + DataLen old)
      by (usmall; lia).
    set (f1 := Sorter.withData f _ _).
    assert (DataLen f1 = DataLen f - DataLen old) as Hl1
      by (unfold f1, DataLen in *; cbn [Data Sorter.withData]; rewrite length_drop; lia).
    intros Hpush. apply pushData_queue in Hpush; rewrite ?Hl1; try done; cbn [Offset f1 Sorter.withData]; try lia.
    + destruct Hpush as (g & q' & H1 & H2 & H3 & H4 & H5 & H6 & H7). exists g, q'.
      rewrite Hl1 in H5, H7. cbn [Offset f1 Sorter.withData] in H5, H7.
      replace (Offset f + DataLen old + (DataLen f - DataLen old)) with (Offset f + DataLen f) in H5, H7 by lia.
      do 4 (split; [done|]). split; [lia|done].
    + apply slice_drop; [lia|done].
    + intros g Hg Heq. destruct (layout_gap _ _ _ _ Hl Hg) as [Hgw _].
      assert (DataLen old <> 0) by (intros ?%Hemp; lia).
      apply (Hrec (Offset f + DataLen old - 1)); [lia|]. exists g. split; [done|lia].
  - intros Hpush. apply pushData_queue in Hpush; try done; [lia|].
    intros g Hg Heq. destruct (layout_gap _ _ _ _ Hl Hg) as [_ [?|[x Hx]]]; [lia|].
    rewrite Heq in Hx. congruence.
Qed.

(** The frame at the head stays there, or is replaced by another one without data. *)
Lemma Push_head s s' f g :
  sorter_ok s -> valid_frame f -> Sorter.Push s f = (s', Ret tt) -> Sorter.Head s = Some g ->
  exists g', Sorter.Head s' = Some g' /\ DataLen g' = DataLen g.
Proof.
  intros Hok Hv Hpush Hg. destruct (Push_Ret s s' f Hok Hv Hpush) as (_ & Hr & _).
  unfold Sorter.Head in *. rewrite Hr. pose proof Hok as [Hl _ Hq].
  destruct (Hq _ _ Hg) as [Ho _ _ _ Hrec Hemp]. pose proof Hv as [Hoff Hend _ Hfin].
  destruct (Z.eq_dec (DataLen f) 0) as [H0|H0].
  - unfold Sorter.Push in Hpush. rewrite H0 in Hpush. cbn [Z.eqb] in Hpush.
    destruct (FinBit f) eqn:Hf; simplify_eq. cbn [queuedFrames].
    destruct (decide (Offset f = readPosition s)) as [E|E]; [|rewrite lookup_insert_ne by done; eauto].
    exists f. rewrite E, lookup_insert_eq. split; [done|].
    destruct (Hq _ _ Hg) as [_ _ He _ _ _]. pose proof (DataLen_nonneg g). specialize (Hfin eq_refl). lia.
  - destruct (Push_queue s s' f Hok Hv H0 Hpush) as (h & q' & -> & _ & Hk & Hm & Hh & _ & _).
    pose proof (layout_missing _ _ _ _ Hl Hm) as Hlo. pose proof (DataLen_nonneg g).
    exists g. split; [|done]. rewrite lookup_insert_ne, Hk; [done| |].
    + destruct (Z.eq_dec (DataLen g) 0) as [Hz|Hz]; [specialize (Hemp Hz); lia|].
      destruct (Z.eq_dec (Offset h) (readPosition s)) as [E|]; [|lia].
      exfalso. apply (Hrec (Offset h)); [lia|done].
    + intros E. destruct (Z.eq_dec (DataLen g) 0) as [Hz|Hz]; [specialize (Hemp Hz); lia|].
      apply (Hrec (Offset h)); [lia|done].
Qed.

(** A queued frame with FIN ends the stream, provided the last byte of each frame with FIN and data
    was missing when the frame arrived. *)
Definition fin_ok (s : streamFrameSorter) : Prop :=
  map_Forall (fun k f => FinBit f = true -> k + DataLen f = final) (queuedFrames s).

Lemma Push_fin_ok' s s' f :
  sorter_ok s -> valid_frame f -> Sorter.Push s f = (s', Ret tt) -> fin_ok s ->
  (FinBit f = true -> DataLen f <> 0 -> missing (Offset f + DataLen f - 1) (gaps s)) -> fin_ok s'.
Proof.
  intros Hok Hv Hpush Hfin Hclean. pose proof Hv as [_ _ _ Hvf].
  destruct (Z.eq_dec (DataLen f) 0) as [H0|H0].
  - unfold Sorter.Push in Hpush. rewrite H0 in Hpush. cbn [Z.eqb] in Hpush.
    destruct (FinBit f) eqn:Hf; simplify_eq. apply map_Forall_insert_2; [|done]. auto.
  - destruct (Push_queue s s' f Hok Hv H0 Hpush) as (h & q' & Hq' & Hsub & _ & _ & _ & Hfb & Hlast).
    unfold fin_ok. rewrite Hq'. apply map_Forall_insert_2.
    + rewrite Hfb. intros Hf. rewrite Hlast by auto. auto.
    + intros k g Hk. apply Hfin. by eapply lookup_weaken.
Qed.

Lemma Pop_fin_ok s : fin_ok s -> fin_ok (Sorter.Pop s).1.
Proof.
  intros Hf. unfold Sorter.Pop. destruct (Sorter.Head s); [|done]. by apply map_Forall_delete.
Qed.

Lemma sorter_ok_new : sorter_ok newStreamFrameSorter.
Proof. split; cbn; [|lia|apply map_Forall_empty]. constructor; cbn; [constructor|done|done]. Qed.
End Stream.

(** Pushing a frame of a well-behaved peer keeps the sorter well formed (gaps non-empty,
    sorted and apart, received ranges readable frame by frame, queued bytes those of the
    stream) and marks exactly the bytes of the frame as received; the only errors are the
    empty frame, a frame all of whose bytes were received before (nothing changes), and
    too many gaps; in particular neither of the two internal errors nor a panic happens. *)
Theorem sorter_push_correct stream final s f :
  0 <= final < MaxByteCount -> sorter_ok stream final s -> valid_frame stream final f ->
  match Sorter.Push s f with
  | (s', Ret _) =>
      sorter_ok stream final s' /\ readPosition s' = readPosition s /\
      forall x, missing x (gaps s') <->
        missing x (gaps s) /\ ~ (Offset f <= x < Offset f + DataLen f)
  | (s', Err e) =>
      e = errEmptyStreamData /\ s' = s /\ DataLen f = 0 /\ FinBit f = false \/
      e = errDuplicateStreamData /\ s' = s /\
        (forall x, Offset f <= x < Offset f + DataLen f -> ~ missing x (gaps s)) \/
      e = errTooManyGapsInReceivedStreamData /\
        MaxStreamFrameSorterGaps < Z.of_nat (length (gaps s'))
  | (_, Panic _) => False
  end.
Proof.
  intros Hfinal Hok Hv. destruct (Sorter.Push s f) as [s' [[]|e|why]] eqn:E.
  { by apply Push_Ret. }
  all: destruct (Z.eq_dec (DataLen f) 0) as [H0|H0];
    [unfold Sorter.Push in E; rewrite H0 in E; cbn [Z.eqb] in E; destruct (FinBit f);
       simplify_eq; by left|].
  all: pose proof (Push_data_ok stream final Hfinal s f Hok Hv H0) as Hp; rewrite E in Hp.
  - by right.
  - done.
Qed.

Definition demo_stream (x : Z) : Z := x `mod` 256.
Definition demo_frame (offset len : Z) (fin : bool) : StreamFrame :=
  mkStreamFrame 5 fin true offset (map demo_stream (seqZ offset len)).
Definition demo_sorter : streamFrameSorter :=
  (Sorter.Push newStreamFrameSorter (demo_frame 10 5 false)).1.

Lemma demo_valid offset len fin :
  0 <= offset -> 0 <= len -> offset + len <= 15 -> (fin = true -> offset + len = 15) ->
  valid_frame demo_stream 15 (demo_frame offset len fin).
Proof.
  intros Ho Hl He Hf. assert (DataLen (demo_frame offset len fin) = len) as Hd.
  { unfold DataLen, demo_frame. cbn [Data]. rewrite length_map, length_seqZ. lia. }
  split; cbn [Offset FinBit demo_frame]; rewrite ?Hd; try lia; [|done].
  intros i b Hb. cbn [Data demo_frame] in Hb. apply list_lookup_fmap_Some in Hb as (x & -> & Hx).
  apply lookup_seqZ in Hx as [-> _]. done.
Qed.

Lemma demo_sorter_ok : sorter_ok demo_stream 15 demo_sorter.
Proof.
  pose proof (Push_data_ok demo_stream 15 ltac:(done) newStreamFrameSorter (demo_frame 10 5 false)
    (sorter_ok_new _ _) (demo_valid 10 5 false ltac:(lia) ltac:(lia) ltac:(lia) ltac:(done)) ltac:(done)) as Hp.
  unfold demo_sorter. destruct (Sorter.Push _ _) as [s' r] eqn:E. cbn in *.
  vm_compute in E. injection E as <- <-. by destruct Hp.
Qed.

Lemma sorter_push_correct_witness :
  match Sorter.Push demo_sorter (demo_frame 5 10 true) with
  | (s', Ret _) =>
      sorter_ok demo_stream 15 s' /\ readPosition s' = readPosition demo_sorter /\
      forall x, missing x (gaps s') <-> missing x (gaps demo_sorter) /\
        ~ (Offset (demo_frame 5 10 true) <= x <
           Offset (demo_frame 5 10 true) + DataLen (demo_frame 5 10 true))
  | (s', Err e) =>
      e = errEmptyStreamData /\ s' = demo_sorter /\ DataLen (demo_frame 5 10 true) = 0 /\
        FinBit (demo_frame 5 10 true) = false \/
      e = errDuplicateStreamData /\ s' = demo_sorter /\
        (forall x, Offset (demo_frame 5 10 true) <= x <
           Offset (demo_frame 5 10 true) + DataLen (demo_frame 5 10 true) ->
         ~ missing x (gaps demo_sorter)) \/
      e = errTooManyGapsInReceivedStreamData /\
        MaxStreamFrameSorterGaps < Z.of_nat (length (gaps s'))
  | (_, Panic _) => False
  end.
Proof.
  apply (sorter_push_correct demo_stream 15 demo_sorter (demo_frame 5 10 true)).
  - done.
  - apply demo_sorter_ok.
  - apply demo_valid; lia.
Defined.

(** Runs of the sorter, with the frames the peer sent so far and the bytes
    handed to the application so far. *)
Inductive sorter_step (stream : Z -> Z) (final : Z)
    : streamFrameSorter * list StreamFrame * list Z ->
      streamFrameSorter * list StreamFrame * list Z -> Prop :=
  | sorter_push s fs out f s' :
      valid_frame stream final f -> Sorter.Push s f = (s', Ret tt) ->
      sorter_step stream final (s, fs, out) (s', f :: fs, out)
  | sorter_duplicate s fs out f s' :
      valid_frame stream final f -> Sorter.Push s f = (s', Err errDuplicateStreamData) ->
      sorter_step stream final (s, fs, out) (s', f :: fs, out)
  | sorter_pop s fs out f s' :
      Sorter.Pop s = (s', Some f) -> sorter_step stream final (s, fs, out) (s', fs, out ++ Data f).

Definition sent (x : Z) (fs : list StreamFrame) : Prop :=
  exists f, f ∈ fs /\ Offset f <= x < Offset f + DataLen f.

#[export] Instance sent_dec x fs : Decision (sent x fs).
Proof.
  refine (cast_if (decide (Exists (fun f => Offset f <= x < Offset f + DataLen f) fs)));
    unfold sent; by rewrite <- Exists_exists.
Defined.

Lemma sent_cons x f fs : sent x (f :: fs) <-> Offset f <= x < Offset f + DataLen f \/ sent x fs.
Proof. unfold sent. set_solver. Qed.

Record run_ok (stream : Z -> Z) (final : Z) (s : streamFrameSorter) (fs : list StreamFrame)
    (out : list Z) : Prop := {
  ro_sorter : sorter_ok stream final s;
  ro_out : slice_of stream 0 out;
  ro_len : Z.of_nat (length out) = readPosition s;
  ro_sent : forall x, 0 <= x < MaxByteCount -> missing x (gaps s) <-> ~ sent x fs
}.

Lemma slice_app stream data data' :
  slice_of stream 0 data -> slice_of stream (Z.of_nat (length data)) data' ->
  slice_of stream 0 (data ++ data').
Proof.
  intros H1 H2 i b Hb. apply lookup_app_Some in Hb as [Hb|[Hle Hb]]; [by apply H1|].
  apply H2 in Hb. rewrite Hb. f_equal. lia.
Qed.

Lemma run_ok_step stream final s fs out s' fs' out' :
  0 <= final < MaxByteCount -> run_ok stream final s fs out ->
  sorter_step stream final (s, fs, out) (s', fs', out') -> run_ok stream final s' fs' out'.
Proof.
  intros Hfinal [Hok Hout Hlen Hsent] Hstep. inversion Hstep; subst; clear Hstep.
  - destruct (Push_Ret stream final Hfinal s s' f) as (Hok' & Hr & Hm); [done..|].
    split; [done..|congruence|]. intros x Hx. rewrite Hm, Hsent, sent_cons by done. tauto.
  - destruct (Push_dup stream final Hfinal s s' f) as (-> & Hd); [done..|].
    split; [done..|]. intros x Hx. rewrite sent_cons, (Hsent x Hx). specialize (Hd x).
    split; [|tauto]. intros Hns [Hin|Hs]; [|done]. apply (Hd Hin). by apply Hsent.
  - pose proof (Pop_ok stream final Hfinal s Hok) as Hp.
    destruct (Sorter.Pop s) as [s1 r]; simplify_eq.
    destruct Hp as (Hok' & Hg & Ho & Hr & Hd). split; [done| | |by rewrite Hg].
    + apply slice_app; [done|]. by rewrite Hlen.
    + rewrite length_app. unfold DataLen in Hr. lia.
Qed.

(** C24: The sorter delivers the stream.  After any sequence of pushes of frames of a
    well-behaved peer (in any order, overlapping, duplicated) and pops: the bytes handed
    out are a prefix of the stream, each exactly once and in order; every one of them was
    sent; and when [Head] has nothing to offer, the next byte was not sent yet (the reader
    never stalls on a byte that arrived). *)
Theorem sorter_delivers stream final s fs out :
  0 <= final < MaxByteCount ->
  rtc (sorter_step stream final) (newStreamFrameSorter, [], []) (s, fs, out) ->
  (forall i b, out !! i = Some b -> b = stream (Z.of_nat i)) /\
  Z.of_nat (length out) = readPosition s /\
  (forall x, 0 <= x < readPosition s -> sent x fs) /\
  (Sorter.Head s = None -> ~ sent (readPosition s) fs).
Proof.
  intros Hfinal Hrun.
  assert (run_ok stream final s fs out) as [Hok Hout Hlen Hsent].
  { change (run_ok stream final (s, fs, out).1.1 (s, fs, out).1.2 (s, fs, out).2).
    revert Hrun. generalize (s, fs, out). apply rtc_ind_r; cbn.
    - split; [apply sorter_ok_new|done|done|]. intros x Hx. cbn. rewrite missing_cons. cbn.
      unfold sent. set_solver by lia.
    - intros [[s1 fs1] out1] [[s2 fs2] out2] _ Hstep Hok. by eapply run_ok_step. }
  pose proof Hok as [Hl Hr _]. destruct (layout_nonempty _ _ _ Hl) as (g & rest & Hg).
  rewrite Hg in Hl. pose proof (layout_head _ _ _ _ Hl) as (_ & Hgs & Hgm). rewrite <- Hg in Hl.
  split; [exact Hout|]. split; [done|]. split.
  - intros x Hx. apply dec_stable. rewrite <- Hsent by lia. intros Hm.
    pose proof (layout_missing _ _ _ _ Hl Hm). lia.
  - intros Hhead. pose proof (Pop_ok stream final Hfinal s Hok) as Hp.
    unfold Sorter.Pop in Hp. rewrite Hhead in Hp. apply Hsent; [lia|apply Hp].
Qed.

Definition demo_sorter2 : streamFrameSorter := (Sorter.Push demo_sorter (demo_frame 0 12 false)).1.
Definition demo_sorter3 : streamFrameSorter := (Sorter.Pop demo_sorter2).1.

Lemma sorter_delivers_witness :
  let fs := [demo_frame 0 12 false; demo_frame 10 5 false] in
  let out := [] ++ Data (demo_frame 0 10 false) in
  (forall i b, out !! i = Some b -> b = demo_stream (Z.of_nat i)) /\
  Z.of_nat (length out) = readPosition demo_sorter3 /\
  (forall x, 0 <= x < readPosition demo_sorter3 -> sent x fs) /\
  (Sorter.Head demo_sorter3 = None -> ~ sent (readPosition demo_sorter3) fs).
Proof.
  intros fs out. apply (sorter_delivers demo_stream 15 demo_sorter3 fs out); [done|].
  apply (rtc_l _ _ (demo_sorter, [demo_frame 10 5 false], [])).
  { apply sorter_push; [apply demo_valid; lia|]. unfold demo_sorter. by vm_compute. }
  apply (rtc_l _ _ (demo_sorter2, fs, [])).
  { apply sorter_push; [apply demo_valid; lia|]. by vm_compute. }
  apply rtc_once. unfold out. apply sorter_pop. by vm_compute.
Defined.

(** When a frame with FIN is cut at its end because the bytes behind are queued
    already, the cut frame keeps the FIN bit: the sorter then hands out a frame that
    claims to end the stream although bytes behind it are queued. *)
Theorem sorter_cut_keeps_fin :
  let s := (Sorter.Push demo_sorter (demo_frame 0 15 true)).1 in
  exists s' f g, Sorter.Pop s = (s', Some f) /\ FinBit f = true /\
    Offset f + DataLen f < 15 /\ Sorter.Head s' = Some g /\ 0 < DataLen g.
Proof. eexists _, _, _. split; [vm_compute; reflexivity|]. by vm_compute. Qed.
