(* ===== verification/FlowControl.v ===== *)
(** * Flow control

    Models [internal/flowcontrol/flow_controller.go] (one controller) and
    [internal/flowcontrol/flow_control_manager.go] (the controllers of the streams and of
    the connection).  The negotiated windows are read from a
    [ConnectionParameters] at each call, the smoothed round-trip time, the remote
    round-trip times and the clock are arguments of the calls that read them. *)
From S2P Require Import Prelude AckFrame.
From stdpp Require Import pretty.

Open Scope Z_scope.
Open Scope go_scope.

(** The getters of [handshake.ConnectionParametersManager] that flow control calls. *)
Record ConnectionParameters := mkConnectionParameters {
  GetSendStreamFlowControlWindow : Z;
  GetSendConnectionFlowControlWindow : Z;
  GetReceiveStreamFlowControlWindow : Z;
  GetMaxReceiveStreamFlowControlWindow : Z;
  GetReceiveConnectionFlowControlWindow : Z;
  GetMaxReceiveConnectionFlowControlWindow : Z
}.

Record flowController := mkFlowController {
  streamID : Z;
  contributesToConnection : bool;
  bytesSent : Z;
  sendWindow : Z;
  bytesRetrans : Z;
  lastWindowUpdateTime : Z;
  bytesRead : Z;
  highestReceived : Z;
  receiveWindow : Z;
  receiveWindowIncrement : Z;
  maxReceiveWindowIncrement : Z
}.

Definition ErrReceivedSmallerByteOffset : error := ErrorString "Received a smaller byte offset".

Definition newFlowController (cp : ConnectionParameters) (id : Z) (contributes : bool)
    : flowController :=
  let '(window, max) :=
    if id =? 0
    then (GetReceiveConnectionFlowControlWindow cp, GetMaxReceiveConnectionFlowControlWindow cp)
    else (GetReceiveStreamFlowControlWindow cp, GetMaxReceiveStreamFlowControlWindow cp) in
  mkFlowController id contributes 0 0 0 0 0 0 window window max.

Module Controller.
Definition ContributesToConnection (c : flowController) : bool := contributesToConnection c.

Definition getSendWindow (cp : ConnectionParameters) (c : flowController) : Z :=
  if sendWindow c =? 0 then
    if streamID c =? 0 then GetSendConnectionFlowControlWindow cp
    else GetSendStreamFlowControlWindow cp
  else sendWindow c.

Definition AddBytesSent (c : flowController) (n : Z) : flowController :=
  mkFlowController (streamID c) (contributesToConnection c) (bytesSent c +64 n) (sendWindow c)
    (bytesRetrans c) (lastWindowUpdateTime c) (bytesRead c) (highestReceived c) (receiveWindow c)
    (receiveWindowIncrement c) (maxReceiveWindowIncrement c).

Definition GetBytesSent (c : flowController) : Z := bytesSent c.

Definition AddBytesRetrans (c : flowController) (n : Z) : flowController :=
  mkFlowController (streamID c) (contributesToConnection c) (bytesSent c) (sendWindow c)
    (bytesRetrans c +64 n) (lastWindowUpdateTime c) (bytesRead c) (highestReceived c)
    (receiveWindow c) (receiveWindowIncrement c) (maxReceiveWindowIncrement c).

Definition GetBytesRetrans (c : flowController) : Z := bytesRetrans c.

Definition UpdateSendWindow (c : flowController) (newOffset : Z) : flowController * bool :=
  if sendWindow c <? newOffset then
    (mkFlowController (streamID c) (contributesToConnection c) (bytesSent c) newOffset
       (bytesRetrans c) (lastWindowUpdateTime c) (bytesRead c) (highestReceived c)
       (receiveWindow c) (receiveWindowIncrement c) (maxReceiveWindowIncrement c), true)
  else (c, false).

Definition SendWindowSize (cp : ConnectionParameters) (c : flowController) : Z :=
  let sendWindow := getSendWindow cp c in
  if sendWindow <? bytesSent c then 0 else sendWindow -64 bytesSent c.

Definition SendWindowOffset (cp : ConnectionParameters) (c : flowController) : Z :=
  getSendWindow cp c.

Definition setHighestReceived (c : flowController) (v : Z) : flowController :=
  mkFlowController (streamID c) (contributesToConnection c) (bytesSent c) (sendWindow c)
    (bytesRetrans c) (lastWindowUpdateTime c) (bytesRead c) v (receiveWindow c)
    (receiveWindowIncrement c) (maxReceiveWindowIncrement c).

(** The increment, and the error for an offset below one received before. *)
Definition UpdateHighestReceived (c : flowController) (byteOffset : Z)
    : flowController * Z * option error :=
  if byteOffset =? highestReceived c then (c, 0, None)
  else if highestReceived c <? byteOffset then
    (setHighestReceived c byteOffset, byteOffset -64 highestReceived c, None)
  else (c, 0, Some ErrReceivedSmallerByteOffset).

Definition IncrementHighestReceived (c : flowController) (increment : Z) : flowController :=
  setHighestReceived c (highestReceived c +64 increment).

Definition AddBytesRead (c : flowController) (now n : Z) : flowController :=
  mkFlowController (streamID c) (contributesToConnection c) (bytesSent c) (sendWindow c)
    (bytesRetrans c) (if bytesRead c =? 0 then now else lastWindowUpdateTime c)
    (bytesRead c +64 n) (highestReceived c) (receiveWindow c) (receiveWindowIncrement c)
    (maxReceiveWindowIncrement c).

(** The new value of [receiveWindowIncrement]; [2*MaxDuration(...)] is an [int64]. *)
Definition maybeAdjustWindowIncrement (c : flowController) (now smoothedRTT : Z)
    (remoteRTTs : list Z) : Z :=
  if lastWindowUpdateTime c =? 0 then receiveWindowIncrement c
  else if smoothedRTT =? 0 then receiveWindowIncrement c
  else
    let timeSinceLastWindowUpdate := TimeSub now (lastWindowUpdateTime c) in
    let maxRemoteRTT := foldl Z.max 0 remoteRTTs in
    if i64 (2 * Z.max smoothedRTT maxRemoteRTT) <=? timeSinceLastWindowUpdate
    then receiveWindowIncrement c
    else Z.min (2 *64 receiveWindowIncrement c) (maxReceiveWindowIncrement c).

Definition MaybeUpdateWindow (c : flowController) (now smoothedRTT : Z) (remoteRTTs : list Z)
    : flowController * (bool * Z * Z) :=
  let diff := receiveWindow c -64 bytesRead c in
  if diff <? receiveWindowIncrement c `div` 2 then
    let inc := maybeAdjustWindowIncrement c now smoothedRTT remoteRTTs in
    let newWindowIncrement := if negb (inc =? receiveWindowIncrement c) then inc else 0 in
    let window := bytesRead c +64 inc in
    (mkFlowController (streamID c) (contributesToConnection c) (bytesSent c) (sendWindow c)
       (bytesRetrans c) now (bytesRead c) (highestReceived c) window inc
       (maxReceiveWindowIncrement c),
     (true, newWindowIncrement, window))
  else (c, (false, receiveWindowIncrement c, receiveWindow c)).

Definition EnsureMinimumWindowIncrement (c : flowController) (inc : Z) : flowController :=
  if receiveWindowIncrement c <? inc then
    mkFlowController (streamID c) (contributesToConnection c) (bytesSent c) (sendWindow c)
      (bytesRetrans c) 0 (bytesRead c) (highestReceived c) (receiveWindow c)
      (Z.min inc (maxReceiveWindowIncrement c)) (maxReceiveWindowIncrement c)
  else c.

Definition CheckFlowControlViolation (c : flowController) : bool :=
  receiveWindow c <? highestReceived c.
End Controller.

(** ** The manager *)
Record flowControlManager := mkManager {
  streamFlowController : gmap Z flowController;
  connFlowController : flowController;
  numOutofOrder : Z
}.

Definition errMapAccess : error := ErrorString "Error accessing the flowController map.".
Definition StreamDataAfterTermination : Z := 2.
Definition FlowControlReceivedTooMuchData : Z := 59.

Definition tooMuchOnStream (byteOffset id allowed : Z) : error :=
  QuicError FlowControlReceivedTooMuchData
    ("Received " +:+ pretty byteOffset +:+ " bytes on stream " +:+ pretty id
     +:+ ", allowed " +:+ pretty allowed +:+ " bytes").
Definition tooMuchOnConnection (received allowed : Z) : error :=
  QuicError FlowControlReceivedTooMuchData
    ("Received " +:+ pretty received +:+ " bytes for the connection, allowed "
     +:+ pretty allowed +:+ " bytes").

Definition NewFlowControlManager (cp : ConnectionParameters) : flowControlManager :=
  mkManager ∅ (newFlowController cp 0 false) 0.

Record WindowUpdate := mkWindowUpdate { upd_StreamID : Z; upd_Offset : Z }.

Module Manager.
Definition NewStream (cp : ConnectionParameters) (f : flowControlManager) (id : Z)
    (contributes : bool) : flowControlManager :=
  match streamFlowController f !! id with
  | Some _ => f
  | None => mkManager (<[id := newFlowController cp id contributes]> (streamFlowController f))
              (connFlowController f) (numOutofOrder f)
  end.

Definition RemoveStream (f : flowControlManager) (id : Z) : flowControlManager :=
  mkManager (delete id (streamFlowController f)) (connFlowController f) (numOutofOrder f).

(** The part [ResetStream] and [UpdateHighestReceived] share: the checks of the
    two windows after the stream's controller became [fc]. *)
Definition checkReceived (f : flowControlManager) (id byteOffset : Z) (fc : flowController)
    (increment outOfOrder : Z) : flowControlManager * outcome unit :=
  let streams := <[id := fc]> (streamFlowController f) in
  if Controller.CheckFlowControlViolation fc
  then (mkManager streams (connFlowController f) outOfOrder,
        Err (tooMuchOnStream byteOffset id (receiveWindow fc)))
  else if Controller.ContributesToConnection fc then
    let conn := Controller.IncrementHighestReceived (connFlowController f) increment in
    (mkManager streams conn outOfOrder,
     if Controller.CheckFlowControlViolation conn
     then Err (tooMuchOnConnection (highestReceived conn) (receiveWindow conn)) else Ret tt)
  else (mkManager streams (connFlowController f) outOfOrder, Ret tt).

Definition ResetStream (f : flowControlManager) (id byteOffset : Z)
    : flowControlManager * outcome unit :=
  match streamFlowController f !! id with
  | None => (f, Err errMapAccess)
  | Some fc =>
      match Controller.UpdateHighestReceived fc byteOffset with
      | (fc, increment, None) => checkReceived f id byteOffset fc increment (numOutofOrder f)
      | (fc, _, Some _) => (f, Err (ErrorCode StreamDataAfterTermination))
      end
  end.

Definition UpdateHighestReceived (f : flowControlManager) (id byteOffset : Z)
    : flowControlManager * outcome unit :=
  match streamFlowController f !! id with
  | None => (f, Err errMapAccess)
  | Some fc =>
      let '(fc, increment, errReorder) := Controller.UpdateHighestReceived fc byteOffset in
      let outOfOrder :=
        match errReorder with Some _ => numOutofOrder f + 1 | None => numOutofOrder f end in
      checkReceived f id byteOffset fc increment outOfOrder
  end.

(** Apply an update to the controller of a stream and, when the stream
    contributes, to that of the connection. *)
Definition onBoth (f : flowControlManager) (id : Z) (op : flowController -> flowController)
    : flowControlManager * outcome unit :=
  match streamFlowController f !! id with
  | None => (f, Err errMapAccess)
  | Some fc =>
      (mkManager (<[id := op fc]> (streamFlowController f))
         (if Controller.ContributesToConnection fc then op (connFlowController f)
          else connFlowController f) (numOutofOrder f), Ret tt)
  end.

Definition AddBytesRead (f : flowControlManager) (now id n : Z) :=
  onBoth f id (fun fc => Controller.AddBytesRead fc now n).
Definition AddBytesSent (f : flowControlManager) (id n : Z) :=
  onBoth f id (fun fc => Controller.AddBytesSent fc n).
Definition AddBytesRetrans (f : flowControlManager) (id n : Z) :=
  onBoth f id (fun fc => Controller.AddBytesRetrans fc n).

(** [protocol.ByteCount(float64(inc) * 1.5)]: the product is exact for
    [inc < 2^51], the conversion truncates. *)
Definition timesMultiplier (inc : Z) : Z := (inc * 3) `div` 2.

(** The loop over the map in the order [ids]. *)
Fixpoint streamUpdates (force : bool) (now smoothedRTT : Z) (remoteRTTs : list Z) (ids : list Z)
    (f : flowControlManager) : flowControlManager * list WindowUpdate :=
  match ids with
  | [] => (f, [])
  | id :: ids' =>
      match streamFlowController f !! id with
      | None => streamUpdates force now smoothedRTT remoteRTTs ids' f
      | Some fc =>
          let '(fc', (necessary, newIncrement, offset)) :=
            Controller.MaybeUpdateWindow fc now smoothedRTT remoteRTTs in
          let conn :=
            if (force || necessary) && (Controller.ContributesToConnection fc'
                                        && negb (newIncrement =? 0))
            then Controller.EnsureMinimumWindowIncrement (connFlowController f)
                   (timesMultiplier newIncrement)
            else connFlowController f in
          let f' := mkManager (<[id := fc']> (streamFlowController f)) conn (numOutofOrder f) in
          let '(f'', res) := streamUpdates force now smoothedRTT remoteRTTs ids' f' in
          (f'', if force || necessary then mkWindowUpdate id offset :: res else res)
      end
  end.

Definition GetWindowUpdates (f : flowControlManager) (force : bool) (now smoothedRTT : Z)
    (remoteRTTs : list Z) (ids : list Z) : flowControlManager * list WindowUpdate :=
  let '(f, res) := streamUpdates force now smoothedRTT remoteRTTs ids f in
  let '(conn, (necessary, _, offset)) :=
    Controller.MaybeUpdateWindow (connFlowController f) now smoothedRTT remoteRTTs in
  (mkManager (streamFlowController f) conn (numOutofOrder f),
   if force || necessary then res ++ [mkWindowUpdate 0 offset] else res).

Definition GetReceiveWindow (f : flowControlManager) (id : Z) : outcome Z :=
  if id =? 0 then Ret (receiveWindow (connFlowController f))
  else match streamFlowController f !! id with
       | None => Err errMapAccess
       | Some fc => Ret (receiveWindow fc)
       end.

Definition GetBytesSent (f : flowControlManager) (id : Z) : outcome Z :=
  match streamFlowController f !! id with
  | None => Err errMapAccess
  | Some fc => Ret (Controller.GetBytesSent fc)
  end.

Definition GetBytesRetrans (f : flowControlManager) (id : Z) : outcome Z :=
  match streamFlowController f !! id with
  | None => Err errMapAccess
  | Some fc => Ret (Controller.GetBytesRetrans fc)
  end.

Definition SendWindowSize (cp : ConnectionParameters) (f : flowControlManager) (id : Z)
    : outcome Z :=
  match streamFlowController f !! id with
  | None => Err errMapAccess
  | Some fc =>
      let res := Controller.SendWindowSize cp fc in
      Ret (if Controller.ContributesToConnection fc
           then Z.min res (Controller.SendWindowSize cp (connFlowController f)) else res)
  end.

Definition RemainingConnectionWindowSize (cp : ConnectionParameters) (f : flowControlManager) : Z :=
  Controller.SendWindowSize cp (connFlowController f).

Definition UpdateWindow (f : flowControlManager) (id offset : Z)
    : flowControlManager * outcome bool :=
  if id =? 0 then
    let '(conn, updated) := Controller.UpdateSendWindow (connFlowController f) offset in
    (mkManager (streamFlowController f) conn (numOutofOrder f), Ret updated)
  else
    match streamFlowController f !! id with
    | None => (f, Err errMapAccess)
    | Some fc =>
        let '(fc, updated) := Controller.UpdateSendWindow fc offset in
        (mkManager (<[id := fc]> (streamFlowController f)) (connFlowController f) (numOutofOrder f),
         Ret updated)
    end.
End Manager.

(** ** Sums over the streams that contribute to the connection *)
Definition contribution (field : flowController -> Z) (c : flowController) : Z :=
  if contributesToConnection c then field c else 0.

Definition total (field : flowController -> Z) (m : gmap Z flowController) : Z :=
  map_fold (fun _ c acc => contribution field c + acc) 0 m.

Lemma total_empty field : total field ∅ = 0.
Proof. apply map_fold_empty. Qed.

Lemma total_insert field m id c :
  m !! id = None -> total field (<[id := c]> m) = contribution field c + total field m.
Proof. intros Hm. unfold total. rewrite map_fold_insert_L; [done| |done]. intros. lia. Qed.

Lemma total_delete field m id c :
  m !! id = Some c -> total field m = contribution field c + total field (delete id m).
Proof. intros Hm. unfold total. rewrite (map_fold_delete_L _ _ id c); [done| |done]. intros. lia. Qed.

Lemma total_update field m id c c' :
  m !! id = Some c ->
  total field (<[id := c']> m) = total field m - contribution field c + contribution field c'.
Proof.
  intros Hm. rewrite (total_delete field m id c Hm), (total_delete field (<[id := c']> m) id c').
  - rewrite delete_insert_eq. lia.
  - apply lookup_insert_eq.
Qed.

(** ** Well-formed controllers

    The offsets stay below 2^62, far from a wrap-around. *)
Definition maxOffset : Z := 2 ^ 62.
Definition maxIncrement : Z := 2 ^ 51.

(** The largest initial windows of the peer so far: those of the connection parameters in force *)
Record Granted := mkGranted { gr_stream : Z; gr_conn : Z }.

(** The largest window the peer granted: an initial one, or that of a WINDOW_UPDATE *)
Definition grantedWindow (w : Granted) (c : flowController) : Z :=
  Z.max (if streamID c =? 0 then gr_conn w else gr_stream w) (sendWindow c).

Record controller_ok (w : Granted) (c : flowController) : Prop := {
  co_sent : 0 <= bytesSent c <= grantedWindow w c;
  co_window : grantedWindow w c < 2 ^ 64;
  co_sendWindow : 0 <= sendWindow c;
  co_read : 0 <= bytesRead c <= highestReceived c;
  co_received : highestReceived c <= receiveWindow c;
  co_offset : highestReceived c < maxOffset;
  co_receiveWindow : receiveWindow c <= maxOffset + maxIncrement;
  co_inc : 0 <= receiveWindowIncrement c <= maxReceiveWindowIncrement c;
  co_max : maxReceiveWindowIncrement c < maxIncrement
}.

(** The negotiated windows. *)
Record parameters_ok (cp : ConnectionParameters) : Prop := {
  po_sendStream : 0 <= GetSendStreamFlowControlWindow cp < 2 ^ 64;
  po_sendConn : 0 <= GetSendConnectionFlowControlWindow cp < 2 ^ 64;
  po_stream : 0 <= GetReceiveStreamFlowControlWindow cp <= GetMaxReceiveStreamFlowControlWindow cp;
  po_conn : 0 <= GetReceiveConnectionFlowControlWindow cp
              <= GetMaxReceiveConnectionFlowControlWindow cp;
  po_max : GetMaxReceiveStreamFlowControlWindow cp < maxIncrement /\
           GetMaxReceiveConnectionFlowControlWindow cp < maxIncrement
}.

(** The initial windows of the parameters are among those granted. *)
Definition covers (w : Granted) (cp : ConnectionParameters) : Prop :=
  GetSendStreamFlowControlWindow cp <= gr_stream w < 2 ^ 64 /\ GetSendConnectionFlowControlWindow cp <= gr_conn w < 2 ^ 64.

Definition grant (w : Granted) (cp : ConnectionParameters) : Granted :=
  mkGranted (Z.max (gr_stream w) (GetSendStreamFlowControlWindow cp)) (Z.max (gr_conn w) (GetSendConnectionFlowControlWindow cp)).

Definition initialGrant (cp : ConnectionParameters) : Granted :=
  mkGranted (GetSendStreamFlowControlWindow cp) (GetSendConnectionFlowControlWindow cp).

Lemma getSendWindow_granted w cp c :
  covers w cp -> 0 <= sendWindow c -> Controller.getSendWindow cp c <= grantedWindow w c.
Proof.
  intros [Hs Hc] Hw. unfold Controller.getSendWindow, grantedWindow.
  destruct (sendWindow c =? 0), (streamID c =? 0); lia.
Qed.

Lemma newFlowController_ok cp w id contributes :
  parameters_ok cp -> covers w cp -> controller_ok w (newFlowController cp id contributes).
Proof.
  intros [Hs Hc Hr Hrc [Hm1 Hm2]] [Hw1 Hw2]. unfold newFlowController, maxIncrement in *.
  destruct (Z.eqb_spec id 0) as [->|]; split; cbn; unfold grantedWindow, maxOffset, maxIncrement; cbn;
    rewrite ?(proj2 (Z.eqb_neq _ _) n); try lia.
Qed.

(** What a window update leaves alone. *)
Definition same_counters (c c' : flowController) : Prop :=
  highestReceived c' = highestReceived c /\ bytesRead c' = bytesRead c /\
  bytesSent c' = bytesSent c /\ contributesToConnection c' = contributesToConnection c.

Lemma maybeAdjust_range c now rtt rtts :
  0 <= receiveWindowIncrement c <= maxReceiveWindowIncrement c ->
  maxReceiveWindowIncrement c < maxIncrement ->
  receiveWindowIncrement c <= Controller.maybeAdjustWindowIncrement c now rtt rtts
    <= maxReceiveWindowIncrement c.
Proof.
  unfold maxIncrement. intros Hi Hm. unfold Controller.maybeAdjustWindowIncrement.
  destruct (lastWindowUpdateTime c =? 0); [lia|]. destruct (rtt =? 0); [lia|].
  destruct (_ <=? TimeSub _ _); [lia|]. usmall. lia.
Qed.

Lemma MaybeUpdateWindow_ok w c now rtt rtts :
  controller_ok w c ->
  let '(c', (necessary, _, offset)) := Controller.MaybeUpdateWindow c now rtt rtts in
  controller_ok w c' /\ same_counters c c' /\ receiveWindow c <= receiveWindow c' /\
  offset = receiveWindow c' /\ receiveWindowIncrement c <= receiveWindowIncrement c' /\
  (necessary = true -> receiveWindow c' = bytesRead c' + receiveWindowIncrement c').
Proof.
  intros [Hs Hw Hsw Hrd Hrc Ho Hrw Hi Hm]. pose proof (maybeAdjust_range c now rtt rtts Hi Hm) as Hadj.
  unfold maxOffset, maxIncrement in *. unfold Controller.MaybeUpdateWindow.
  destruct (Z.ltb_spec (receiveWindow c -64 bytesRead c) (receiveWindowIncrement c `div` 2)) as [Hlt|].
  - usmall_in Hlt. set (inc := Controller.maybeAdjustWindowIncrement c now rtt rtts) in *.
    assert (receiveWindowIncrement c `div` 2 <= receiveWindowIncrement c)
      by (apply Z.div_le_upper_bound; lia).
    replace (bytesRead c +64 inc) with (bytesRead c + inc) by (usmall; lia).
    split; [|by repeat split; cbn; try lia].
    split; cbn; unfold maxOffset, maxIncrement in *; try lia; done.
  - repeat split; try lia; done.
Qed.

(** ** Well-formed managers

    [gone] is what removed streams contributed: bytes received, read and sent. *)
Record Gone := mkGone { gone_received : Z; gone_read : Z; gone_sent : Z }.

Record manager_ok (w : Granted) (f : flowControlManager) (g : Gone) : Prop := {
  mo_streams : map_Forall (fun _ c => controller_ok w c) (streamFlowController f);
  mo_conn : controller_ok w (connFlowController f);
  mo_received : highestReceived (connFlowController f)
    = total highestReceived (streamFlowController f) + gone_received g;
  mo_read : bytesRead (connFlowController f)
    = total bytesRead (streamFlowController f) + gone_read g;
  mo_sent : bytesSent (connFlowController f)
    = total bytesSent (streamFlowController f) + gone_sent g;
  mo_gone : gone_read g <= gone_received g
}.

Lemma total_le field field' m :
  map_Forall (fun _ c => field c <= field' c) m -> total field m <= total field' m.
Proof.
  induction m as [|id c m Hid IH] using map_ind; intros Hall.
  - by rewrite !total_empty.
  - apply map_Forall_insert in Hall as [Hc Hm]; [|done]. rewrite !total_insert by done.
    specialize (IH Hm). unfold contribution. destruct (contributesToConnection c); lia.
Qed.

(** One stream and the connection change by the same amounts. *)
Lemma manager_update w f g id c c' conn' n :
  manager_ok w f g -> streamFlowController f !! id = Some c ->
  controller_ok w c' -> controller_ok w conn' ->
  (forall field, field ∈ [highestReceived; bytesRead; bytesSent] ->
     field conn' - field (connFlowController f) = contribution field c' - contribution field c) ->
  manager_ok w (mkManager (<[id := c']> (streamFlowController f)) conn' n) g.
Proof.
  intros [Hs Hc Hr Hrd Hse Hg] Hid Hc' Hconn' Hd. split; cbn; try done.
  - by apply map_Forall_insert_2.
  - rewrite (total_update _ _ _ _ _ Hid). specialize (Hd highestReceived ltac:(set_solver)). lia.
  - rewrite (total_update _ _ _ _ _ Hid). specialize (Hd bytesRead ltac:(set_solver)). lia.
  - rewrite (total_update _ _ _ _ _ Hid). specialize (Hd bytesSent ltac:(set_solver)). lia.
Qed.

Ltac each_field :=
  let field := fresh "field" in let H := fresh in
  intros field H; repeat (apply elem_of_cons in H as [->|H]; [|]);
  [..|by apply not_elem_of_nil in H]; unfold contribution; cbn.

Lemma NewStream_ok cp w f g id b :
  parameters_ok cp -> covers w cp -> manager_ok w f g -> manager_ok w (Manager.NewStream cp f id b) g.
Proof.
  intros Hp Hcov [Hs Hc Hr Hrd Hse Hg]. unfold Manager.NewStream.
  destruct (streamFlowController f !! id) eqn:Hid; [by split|].
  assert (forall field, field ∈ [highestReceived; bytesRead; bytesSent] ->
    contribution field (newFlowController cp id b) = 0) as H0.
  { each_field; unfold newFlowController; destruct (id =? 0); by destruct b. }
  split; cbn; try done; rewrite ?total_insert, ?H0 by (done || set_solver); try lia.
  apply map_Forall_insert_2; [by apply newFlowController_ok|done].
Qed.

Definition goneWith (g : Gone) (c : option flowController) : Gone :=
  match c with
  | None => g
  | Some c => mkGone (gone_received g + contribution highestReceived c)
                (gone_read g + contribution bytesRead c) (gone_sent g + contribution bytesSent c)
  end.

Lemma RemoveStream_ok w f g id :
  manager_ok w f g ->
  manager_ok w (Manager.RemoveStream f id) (goneWith g (streamFlowController f !! id)).
Proof.
  intros [Hs Hc Hr Hrd Hse Hg]. destruct (streamFlowController f !! id) as [c|] eqn:Hid; cbn [goneWith].
  - rewrite (total_delete _ _ _ _ Hid) in Hr. rewrite (total_delete _ _ _ _ Hid) in Hrd.
    rewrite (total_delete _ _ _ _ Hid) in Hse.
    split; cbn; try lia; try done; [by apply map_Forall_delete|].
    destruct (Hs _ _ Hid) as [_ _ _ Hread _ _ _ _ _]. unfold contribution.
    destruct (contributesToConnection c); lia.
  - split; cbn; try done; rewrite ?delete_id by done; done.
Qed.

(** *** Receiving *)
Lemma setHighest_ok w c v :
  controller_ok w c -> highestReceived c <= v <= receiveWindow c -> v < maxOffset ->
  controller_ok w (Controller.setHighestReceived c v).
Proof. intros [Hs Hw Hsw Hrd Hrc Ho Hrw Hi Hm] Hv Hmax. split; cbn; try done; lia. Qed.

Lemma UpdateHighest_cases c off :
  exists e, Controller.UpdateHighestReceived c off = (c, 0, e) \/
    highestReceived c < off /\
    Controller.UpdateHighestReceived c off
    = (Controller.setHighestReceived c off, off -64 highestReceived c, None).
Proof.
  unfold Controller.UpdateHighestReceived.
  destruct (Z.eqb_spec off (highestReceived c)); [eauto|].
  destruct (Z.ltb_spec (highestReceived c) off); eauto.
  Unshelve. exact None.
Qed.

Lemma checkReceived_ok w f g id off c c' inc n f' :
  manager_ok w f g -> streamFlowController f !! id = Some c -> 0 <= off < maxOffset ->
  (c' = c /\ inc = 0 \/ highestReceived c < off /\ c' = Controller.setHighestReceived c off /\
     inc = off -64 highestReceived c) ->
  Manager.checkReceived f id off c' inc n = (f', Ret tt) ->
  highestReceived (connFlowController f') < maxOffset -> manager_ok w f' g.
Proof.
  intros Hok Hid Hoff Hc' Hrun Hmax. pose proof Hok as [Hs Hconn _ _ _ _].
  pose proof (Hs _ _ Hid) as Hc. pose proof Hc as [_ _ _ Hread _ Hofs _ _ _].
  pose proof Hconn as [_ _ _ Hread' _ Hofs' _ _ _]. unfold maxOffset in *.
  assert (Hinc : highestReceived c' = highestReceived c + inc /\ 0 <= inc < 2 ^ 62 /\
    contributesToConnection c' = contributesToConnection c /\ bytesRead c' = bytesRead c /\
    bytesSent c' = bytesSent c /\ receiveWindow c' = receiveWindow c).
  { destruct Hc' as [[-> ->]|(Hlt & -> & ->)]; cbn; usmall; split_and!; lia || done. }
  destruct Hinc as (Hh & Hinc & Hcon & Hrd & Hst & Hrw).
  unfold Manager.checkReceived, Controller.CheckFlowControlViolation in Hrun.
  destruct (Z.ltb_spec (receiveWindow c') (highestReceived c')); [done|].
  assert (Hc'ok : controller_ok w c').
  { destruct Hc' as [[-> ->]|(Hlt & -> & _)]; [done|]. cbn in *. apply setHighest_ok; [done|lia|unfold maxOffset; lia]. }
  unfold Controller.ContributesToConnection in Hrun. rewrite Hcon in Hrun.
  destruct (contributesToConnection c) eqn:Econ.
  - unfold Controller.IncrementHighestReceived in Hrun. cbn -[uN Z.pow] in Hrun.
    replace (highestReceived (connFlowController f) +64 inc)
      with (highestReceived (connFlowController f) + inc) in Hrun by (usmall; lia).
    destruct (Z.ltb_spec (receiveWindow (connFlowController f))
      (highestReceived (connFlowController f) + inc)); simplify_eq.
    eapply manager_update; [done..|apply setHighest_ok; cbn in *; [done|lia|unfold maxOffset; lia]|].
    each_field; rewrite Hcon, Econ; lia.
  - simplify_eq. eapply manager_update; [done..|]. each_field; rewrite Hcon, Econ; lia.
Qed.

(** *** Reading and sending *)
Lemma AddBytesRead_ok w f g now id n c f' :
  manager_ok w f g -> streamFlowController f !! id = Some c ->
  0 <= n -> bytesRead c + n <= highestReceived c ->
  Manager.AddBytesRead f now id n = (f', Ret tt) -> manager_ok w f' g.
Proof.
  intros Hok Hid Hn Hle Hrun. pose proof Hok as [Hs Hconn Hr Hrd _ Hg]. pose proof (Hs _ _ Hid) as Hc.
  unfold Manager.AddBytesRead, Manager.onBoth in Hrun. rewrite Hid in Hrun. injection Hrun as <-.
  assert (Hadd : forall x, controller_ok w x -> bytesRead x + n <= highestReceived x ->
    bytesRead x +64 n = bytesRead x + n /\ controller_ok w (Controller.AddBytesRead x now n)).
  { intros x [? ? ? ? ? ? ? ? ?] Hx. unfold maxOffset in *.
    assert (bytesRead x +64 n = bytesRead x + n) as Hu by (usmall; lia).
    split; [done|]. split; cbn; rewrite ?Hu; try done; lia. }
  destruct (Hadd c Hc Hle) as [Hu Hc']. unfold Controller.ContributesToConnection.
  destruct (contributesToConnection c) eqn:Econ.
  - assert (bytesRead (connFlowController f) + n <= highestReceived (connFlowController f)) as Hle'.
    { rewrite Hr, Hrd, (total_delete bytesRead _ _ _ Hid), (total_delete highestReceived _ _ _ Hid).
      assert (total bytesRead (delete id (streamFlowController f))
              <= total highestReceived (delete id (streamFlowController f))).
      { apply total_le, map_Forall_delete. eapply map_Forall_impl; [exact Hs|].
        intros ? ? []. lia. }
      unfold contribution. rewrite Econ. lia. }
    destruct (Hadd _ Hconn Hle') as [Hu' Hconn'].
    eapply manager_update; [done..|]. each_field; rewrite Econ; lia.
  - eapply manager_update; [done..|]. each_field; rewrite Econ; lia.
Qed.

Lemma SendWindowSize_fits cp w c n :
  covers w cp -> controller_ok w c -> 0 <= n <= Controller.SendWindowSize cp c -> bytesSent c + n <= grantedWindow w c.
Proof.
  intros Hcov [Hs Hw Hsw _ _ _ _ _ _] Hn. pose proof (getSendWindow_granted w cp c Hcov Hsw) as Hg.
  unfold Controller.SendWindowSize in Hn.
  destruct (Z.ltb_spec (Controller.getSendWindow cp c) (bytesSent c)); [lia|]. usmall_in Hn. lia.
Qed.

Lemma AddBytesSent_ok cp w f g id n size f' :
  covers w cp -> manager_ok w f g -> Manager.SendWindowSize cp f id = Ret size -> 0 <= n <= size ->
  Manager.AddBytesSent f id n = (f', Ret tt) -> manager_ok w f' g.
Proof.
  intros Hcov Hok Hw Hn Hrun. pose proof Hok as [Hs Hconn _ _ _ _].
  unfold Manager.SendWindowSize, Manager.AddBytesSent, Manager.onBoth in *.
  destruct (streamFlowController f !! id) as [c|] eqn:Hid; [|done]. injection Hrun as <-.
  pose proof (Hs _ _ Hid) as Hc.
  assert (Hadd : forall x, controller_ok w x -> n <= Controller.SendWindowSize cp x ->
    bytesSent x +64 n = bytesSent x + n /\ controller_ok w (Controller.AddBytesSent x n)).
  { intros x Hx Hnx. pose proof (SendWindowSize_fits cp w x n Hcov Hx ltac:(lia)). destruct Hx.
    assert (bytesSent x +64 n = bytesSent x + n) as Hu by (usmall; lia).
    split; [done|]. split; cbn; try done. unfold grantedWindow in *. cbn. lia. }
  unfold Controller.ContributesToConnection in *.
  destruct (contributesToConnection c) eqn:Econ; injection Hw as <-.
  - destruct (Hadd c Hc) as [Hu Hc']; [lia|]. destruct (Hadd _ Hconn) as [Hu' Hconn']; [lia|].
    eapply manager_update; [done..|]. each_field; rewrite Econ; lia.
  - destruct (Hadd c Hc) as [Hu Hc']; [lia|].
    eapply manager_update; [done..|]. each_field; rewrite Econ; lia.
Qed.

Lemma AddBytesRetrans_ok w f g id n f' :
  manager_ok w f g -> Manager.AddBytesRetrans f id n = (f', Ret tt) -> manager_ok w f' g.
Proof.
  intros Hok Hrun. pose proof Hok as [Hs Hconn _ _ _ _]. unfold Manager.AddBytesRetrans, Manager.onBoth in *.
  destruct (streamFlowController f !! id) as [c|] eqn:Hid; [|done]. injection Hrun as <-.
  assert (Hadd : forall x, controller_ok w x -> controller_ok w (Controller.AddBytesRetrans x n))
    by (intros x []; by split).
  unfold Controller.ContributesToConnection. pose proof (Hadd _ Hconn). pose proof (Hadd _ (Hs _ _ Hid)).
  destruct (contributesToConnection c) eqn:Econ;
    (eapply manager_update; [done..|]); each_field; rewrite Econ; lia.
Qed.

(** A WINDOW_UPDATE may lower the window in force, but not the largest one. *)
Lemma UpdateSendWindow_ok w c off :
  controller_ok w c -> 0 <= off < 2 ^ 64 ->
  let c' := (Controller.UpdateSendWindow c off).1 in controller_ok w c' /\ same_counters c c'.
Proof.
  intros Hc Hoff. unfold Controller.UpdateSendWindow.
  destruct (Z.ltb_spec (sendWindow c) off); cbn [fst]; [|split; [done|]; by repeat split].
  destruct Hc. split; [|done]. split; cbn; try done; unfold grantedWindow in *; cbn in *; lia.
Qed.

Lemma UpdateWindow_ok w f g id off f' b :
  manager_ok w f g -> 0 <= off < 2 ^ 64 -> Manager.UpdateWindow f id off = (f', Ret b) -> manager_ok w f' g.
Proof.
  intros Hok Hoff Hrun. pose proof Hok as [Hs Hconn Hr Hrd Hse Hg].
  unfold Manager.UpdateWindow in Hrun. destruct (id =? 0).
  - destruct (UpdateSendWindow_ok w _ off Hconn Hoff) as (Hc' & E1 & E2 & E3 & _).
    destruct (Controller.UpdateSendWindow (connFlowController f) off) as [conn upd].
    injection Hrun as <- _. cbn in *. split; cbn; try done; congruence.
  - destruct (streamFlowController f !! id) as [c|] eqn:Hid; [|done].
    destruct (UpdateSendWindow_ok w _ off (Hs _ _ Hid) Hoff) as (Hc' & E1 & E2 & E3 & E4).
    destruct (Controller.UpdateSendWindow c off) as [c' upd].
    injection Hrun as <- _. cbn in *. eapply manager_update; [done..|].
    each_field; rewrite E4; destruct (contributesToConnection c); lia.
Qed.

(** *** Window updates *)
Lemma EnsureMinimum_ok w c inc :
  controller_ok w c -> 0 <= inc ->
  controller_ok w (Controller.EnsureMinimumWindowIncrement c inc) /\
  same_counters c (Controller.EnsureMinimumWindowIncrement c inc) /\
  receiveWindow (Controller.EnsureMinimumWindowIncrement c inc) = receiveWindow c.
Proof.
  intros Hc Hinc. unfold Controller.EnsureMinimumWindowIncrement.
  destruct (Z.ltb_spec (receiveWindowIncrement c) inc); [|split; [done|]; by repeat split].
  destruct Hc. split; [|by repeat split]. split; cbn; try done. lia.
Qed.

(** The updates of the streams [ids] took [f] to [f'] and announced [res]. *)
Record updated (f : flowControlManager) (ids : list Z) (force : bool) (f' : flowControlManager)
    (res : list WindowUpdate) : Prop := {
  ud_other : forall id, id ∉ ids -> streamFlowController f' !! id = streamFlowController f !! id;
  ud_mono : forall id c, streamFlowController f !! id = Some c ->
    exists c', streamFlowController f' !! id = Some c' /\ receiveWindow c <= receiveWindow c';
  ud_dom : forall id, streamFlowController f !! id = None -> streamFlowController f' !! id = None;
  ud_conn : receiveWindow (connFlowController f') = receiveWindow (connFlowController f);
  ud_res : forall u, u ∈ res -> upd_StreamID u ∈ ids /\
    exists c', streamFlowController f' !! upd_StreamID u = Some c' /\ upd_Offset u = receiveWindow c';
  ud_force : force = true -> forall id, id ∈ ids -> is_Some (streamFlowController f !! id) ->
    exists u, u ∈ res /\ upd_StreamID u = id
}.

Lemma updated_cons f f1 f' id ids force res (necessary : bool) c c1 :
  id ∉ ids -> streamFlowController f !! id = Some c ->
  streamFlowController f1 = <[id := c1]> (streamFlowController f) ->
  receiveWindow c <= receiveWindow c1 ->
  receiveWindow (connFlowController f1) = receiveWindow (connFlowController f) ->
  updated f1 ids force f' res ->
  updated f (id :: ids) force f'
    (if force || necessary then mkWindowUpdate id (receiveWindow c1) :: res else res).
Proof.
  intros Hni Hid Hf1 Hw Hconn [Hoth Hmono Hdom Hc Hres Hforce]. rewrite Hf1 in *.
  assert (Hf'id : streamFlowController f' !! id = Some c1)
    by (rewrite Hoth by done; apply lookup_insert_eq).
  split.
  - intros j Hj. rewrite Hoth by set_solver. by rewrite lookup_insert_ne by set_solver.
  - intros j d Hd. destruct (decide (j = id)) as [->|Hne]; [naive_solver|].
    apply Hmono. by rewrite lookup_insert_ne by congruence.
  - intros j Hj. apply Hdom. rewrite lookup_insert_ne; [done|]. congruence.
  - by rewrite Hc.
  - intros u Hu. assert (u = mkWindowUpdate id (receiveWindow c1) \/ u ∈ res) as [->|Hu']
      by (destruct (force || necessary); set_solver).
    + cbn. split; [set_solver|]. eauto.
    + destruct (Hres u Hu') as [Hin Hex]. split; [set_solver|done].
  - intros -> j Hj Hs. cbn [orb]. apply elem_of_cons in Hj as [->|Hj].
    + exists (mkWindowUpdate id (receiveWindow c1)). split; [set_solver|done].
    + destruct (Hforce eq_refl j Hj) as (u & Hu & Heq); [|exists u; set_solver].
      rewrite lookup_insert_ne; [done|]. congruence.
Qed.

Lemma streamUpdates_ok w g force now rtt rtts ids f :
  NoDup ids -> manager_ok w f g ->
  let '(f', res) := Manager.streamUpdates force now rtt rtts ids f in
  manager_ok w f' g /\ updated f ids force f' res.
Proof.
  revert f. induction ids as [|id ids IH]; intros f Hnd Hok; cbn [Manager.streamUpdates].
  { split; [done|]. split; try done; [naive_solver|set_solver..]. }
  apply NoDup_cons in Hnd as [Hni Hnd].
  destruct (streamFlowController f !! id) as [c|] eqn:Hid.
  - pose proof Hok as [Hs Hconn _ _ _ _].
    pose proof (MaybeUpdateWindow_ok w c now rtt rtts (Hs _ _ Hid)) as Hupd.
    destruct (Controller.MaybeUpdateWindow c now rtt rtts) as [c1 [[nec ninc] off]] eqn:Emu.
    destruct Hupd as (Hc1 & (E1 & E2 & E3 & E4) & Hw & -> & Hinc & _).
    set (conn := if _ && _ then _ else connFlowController f).
    assert (Hcn : controller_ok w conn /\ same_counters (connFlowController f) conn /\
      receiveWindow conn = receiveWindow (connFlowController f)).
    { subst conn. destruct (_ && _); [|by repeat split; apply Hconn].
      apply EnsureMinimum_ok; [done|]. unfold Manager.timesMultiplier.
      assert (0 <= ninc); [|apply Z.div_pos; lia].
      unfold Controller.MaybeUpdateWindow in Emu. destruct Hc1. destruct (Hs _ _ Hid).
      destruct (_ <? _ `div` 2); simplify_eq; cbn in *; [|lia].
      destruct (negb _); lia. }
    destruct Hcn as (Hcn & (F1 & F2 & F3 & _) & Hcw).
    set (f1 := mkManager _ conn (numOutofOrder f)).
    assert (Hf1 : manager_ok w f1 g).
    { eapply manager_update; [done..|].
      each_field; rewrite E4, ?E1, ?E2, ?E3, ?F1, ?F2, ?F3; destruct (contributesToConnection c); lia. }
    specialize (IH f1 Hnd Hf1).
    destruct (Manager.streamUpdates force now rtt rtts ids f1) as [f' res]. destruct IH as [Hok' Hud].
    split; [done|]. by eapply (updated_cons f f1).
  - specialize (IH f Hnd Hok). destruct (Manager.streamUpdates force now rtt rtts ids f) as [f' res].
    destruct IH as [Hok' [Hoth Hmono Hdom Hc Hres Hforce]]. split; [done|]. split; try done.
    + set_solver.
    + intros u Hu. destruct (Hres u Hu). set_solver.
    + intros Hf j [->|Hj]%elem_of_cons Hs; [by destruct Hs; congruence|by apply Hforce].
Qed.

(** ** Runs of the manager

    The parameters in force, the manager, what removed streams contributed, and the largest initial windows
    so far.  A receiver that is sent too much gets an error, which closes the connection and ends the run. *)
Record fcState := mkFcState { fs_cp : ConnectionParameters; fs_fc : flowControlManager; fs_gone : Gone; fs_granted : Granted }.

Definition fcStart (cp : ConnectionParameters) : fcState :=
  mkFcState cp (NewFlowControlManager cp) (mkGone 0 0 0) (initialGrant cp).

Inductive fc_step : fcState -> fcState -> Prop :=
  | fc_params cp f g w cp' :
      (** the handshake negotiates other windows *)
      parameters_ok cp' -> fc_step (mkFcState cp f g w) (mkFcState cp' f g (grant w cp'))
  | fc_new cp f g w id contributes :
      fc_step (mkFcState cp f g w) (mkFcState cp (Manager.NewStream cp f id contributes) g w)
  | fc_remove cp f g w id :
      fc_step (mkFcState cp f g w)
        (mkFcState cp (Manager.RemoveStream f id) (goneWith g (streamFlowController f !! id)) w)
  | fc_received cp f g w id off f' :
      0 <= off < maxOffset -> Manager.UpdateHighestReceived f id off = (f', Ret tt) ->
      highestReceived (connFlowController f') < maxOffset -> fc_step (mkFcState cp f g w) (mkFcState cp f' g w)
  | fc_reset cp f g w id off f' :
      0 <= off < maxOffset -> Manager.ResetStream f id off = (f', Ret tt) ->
      highestReceived (connFlowController f') < maxOffset -> fc_step (mkFcState cp f g w) (mkFcState cp f' g w)
  | fc_read cp f g w now id n c f' :
      (** the application reads bytes that were received *)
      streamFlowController f !! id = Some c -> 0 <= n -> bytesRead c + n <= highestReceived c ->
      Manager.AddBytesRead f now id n = (f', Ret tt) -> fc_step (mkFcState cp f g w) (mkFcState cp f' g w)
  | fc_sent cp f g w id n size f' :
      (** the sender respects [SendWindowSize] *)
      Manager.SendWindowSize cp f id = Ret size -> 0 <= n <= size ->
      Manager.AddBytesSent f id n = (f', Ret tt) -> fc_step (mkFcState cp f g w) (mkFcState cp f' g w)
  | fc_retrans cp f g w id n f' :
      Manager.AddBytesRetrans f id n = (f', Ret tt) -> fc_step (mkFcState cp f g w) (mkFcState cp f' g w)
  | fc_window cp f g w id off f' b :
      (** any WINDOW_UPDATE of the peer *)
      0 <= off < 2 ^ 64 -> Manager.UpdateWindow f id off = (f', Ret b) ->
      fc_step (mkFcState cp f g w) (mkFcState cp f' g w)
  | fc_updates cp f g w force now rtt rtts ids f' res :
      NoDup ids -> Manager.GetWindowUpdates f force now rtt rtts ids = (f', res) ->
      fc_step (mkFcState cp f g w) (mkFcState cp f' g w).

Lemma GetWindowUpdates_ok w g force now rtt rtts ids f f' res :
  NoDup ids -> manager_ok w f g ->
  Manager.GetWindowUpdates f force now rtt rtts ids = (f', res) -> manager_ok w f' g.
Proof.
  intros Hnd Hok Hrun. pose proof (streamUpdates_ok w g force now rtt rtts ids f Hnd Hok) as Hsu.
  unfold Manager.GetWindowUpdates in Hrun.
  destruct (Manager.streamUpdates force now rtt rtts ids f) as [f1 res1]. destruct Hsu as [[] _].
  pose proof (MaybeUpdateWindow_ok w (connFlowController f1) now rtt rtts mo_conn0) as Hmu.
  destruct (Controller.MaybeUpdateWindow _ _ _ _) as [conn [[nec ninc] off]].
  destruct Hmu as (Hc & (E1 & E2 & E3 & _) & _). injection Hrun as <- _.
  split; cbn; try done; congruence.
Qed.

Record fc_ok (x : fcState) : Prop := {
  fo_params : parameters_ok (fs_cp x);
  fo_covers : covers (fs_granted x) (fs_cp x);
  fo_manager : manager_ok (fs_granted x) (fs_fc x) (fs_gone x)
}.

(** Larger initial windows only grant more. *)
Lemma controller_ok_grant w cp c : parameters_ok cp -> controller_ok w c -> controller_ok (grant w cp) c.
Proof.
  intros [] []. split; try done; unfold grantedWindow, grant in *; cbn; destruct (streamID c =? 0); lia.
Qed.

Lemma fc_step_ok x x' : fc_ok x -> fc_step x x' -> fc_ok x'.
Proof.
  intros [Hp Hcov Hok] Hstep. destruct Hstep as [? ? ? ? ? Hp'|? ? ? ? ? ?|? ? ? ? ?|? f ? ? id off ? Hoff Hrun Hmax|
    ? f ? ? id off ? Hoff Hrun Hmax|? ? ? ? ? ? ? c ? Hid Hn Hle Hrun|? ? ? ? ? ? ? ? Hw Hn Hrun|
    ? ? ? ? ? ? ? Hrun|? ? ? ? ? ? ? ? Hoff Hrun|? ? ? ? ? ? ? ? ? ? ? Hnd Hrun]; (split; cbn in *; [done..|]) || idtac.
  - split; cbn in *; [done| |].
    + destruct Hp' as [? ? _ _ _]. destruct Hcov. split; cbn; lia.
    + destruct Hok as [Hs Hc Hr Hrd Hse Hg]. split; try done; [|by apply controller_ok_grant].
      eapply map_Forall_impl; [exact Hs|]. intros i c. by apply controller_ok_grant.
  - by apply NewStream_ok.
  - by apply RemoveStream_ok.
  - unfold Manager.UpdateHighestReceived in Hrun.
    destruct (streamFlowController f !! id) as [c|] eqn:Hid; [|done].
    destruct (UpdateHighest_cases c off) as (e & [E|[Hlt E]]); rewrite E in Hrun;
      (eapply checkReceived_ok; [done..| |exact Hrun|done]); naive_solver.
  - unfold Manager.ResetStream in Hrun.
    destruct (streamFlowController f !! id) as [c|] eqn:Hid; [|done].
    destruct (UpdateHighest_cases c off) as (e & [E|[Hlt E]]); rewrite E in Hrun;
      [destruct e; [done|]|]; (eapply checkReceived_ok; [done..| |exact Hrun|done]); naive_solver.
  - by eapply AddBytesRead_ok.
  - by eapply AddBytesSent_ok.
  - by eapply AddBytesRetrans_ok.
  - by eapply UpdateWindow_ok.
  - by eapply GetWindowUpdates_ok.
Qed.

Lemma fc_ok_start cp : parameters_ok cp -> fc_ok (fcStart cp).
Proof.
  intros Hp. assert (Hcov : covers (initialGrant cp) cp) by (destruct Hp; split; cbn; lia).
  split; [done..|]. pose proof (newFlowController_ok cp (initialGrant cp) 0 false Hp Hcov) as Hc.
  by split; cbn; rewrite ?total_empty.
Qed.

Lemma fc_reachable_ok cp x : parameters_ok cp -> rtc fc_step (fcStart cp) x -> fc_ok x.
Proof.
  intros Hp Hr. revert x Hr. apply rtc_ind_r; [by apply fc_ok_start|]. intros x y _ Hstep Hok. by eapply fc_step_ok.
Qed.


Definition example_params : ConnectionParameters :=
  mkConnectionParameters 1000 1500 800 4000 1200 6000.

Lemma example_params_ok : parameters_ok example_params.
Proof. split; vm_compute; intuition discriminate. Qed.

Definition fc_example1 : flowControlManager :=
  Manager.NewStream example_params (NewFlowControlManager example_params) 5 true.
Definition fc_example2 : flowControlManager := (Manager.UpdateHighestReceived fc_example1 5 600).1.
Definition fc_example3 : flowControlManager := (Manager.AddBytesSent fc_example2 5 1000).1.

Definition fc_state (cp : ConnectionParameters) (f : flowControlManager) : fcState :=
  mkFcState cp f (mkGone 0 0 0) (initialGrant example_params).

Lemma fc_example_run : rtc fc_step (fcStart example_params) (fc_state example_params fc_example3).
Proof.
  apply (rtc_l _ _ (fc_state example_params fc_example1)); [apply fc_new|].
  apply (rtc_l _ _ (fc_state example_params fc_example2)).
  { apply (fc_received _ _ _ _ 5 600); [unfold maxOffset; lia|vm_compute; reflexivity..]. }
  apply rtc_once. apply (fc_sent _ _ _ _ 5 1000 1000); [vm_compute; reflexivity|lia|].
  vm_compute. reflexivity.
Qed.


(** A WINDOW_UPDATE announces what is accepted: in every reachable state,
    whatever the order of the map iteration, the offset announced for a stream or for the
    connection is its new receive window, receive windows never shrink, and a forced call
    announces every stream and the connection. *)
Theorem fc_window_updates cp cp' f g w force now rtt rtts ids :
  parameters_ok cp -> rtc fc_step (fcStart cp) (mkFcState cp' f g w) ->
  NoDup ids -> 0 ∉ ids ->
  let '(f', res) := Manager.GetWindowUpdates f force now rtt rtts ids in
  (forall id c, streamFlowController f !! id = Some c ->
     exists c', streamFlowController f' !! id = Some c' /\ receiveWindow c <= receiveWindow c') /\
  receiveWindow (connFlowController f) <= receiveWindow (connFlowController f') /\
  (forall u, u ∈ res ->
     if upd_StreamID u =? 0 then upd_Offset u = receiveWindow (connFlowController f')
     else exists c', streamFlowController f' !! upd_StreamID u = Some c' /\
                     upd_Offset u = receiveWindow c') /\
  (force = true -> forall id, id = 0 \/ (id ∈ ids /\ is_Some (streamFlowController f !! id)) ->
     exists u, u ∈ res /\ upd_StreamID u = id).
Proof.
  intros Hp Hr Hnd H0. pose proof (fo_manager _ (fc_reachable_ok cp _ Hp Hr)) as Hok. cbn in Hok.
  pose proof (streamUpdates_ok w g force now rtt rtts ids f Hnd Hok) as Hsu.
  unfold Manager.GetWindowUpdates.
  destruct (Manager.streamUpdates force now rtt rtts ids f) as [f1 res1].
  destruct Hsu as [[_ Hconn _ _ _ _] [Hoth Hmono Hdom Hc Hres Hforce]].
  pose proof (MaybeUpdateWindow_ok w (connFlowController f1) now rtt rtts Hconn) as Hmu.
  destruct (Controller.MaybeUpdateWindow _ _ _ _) as [conn [[nec ninc] off]].
  destruct Hmu as (_ & _ & Hw & -> & _). cbn [streamFlowController connFlowController].
  split; [done|]. split; [lia|]. split.
  - intros u Hu. assert (u ∈ res1 \/ u = mkWindowUpdate 0 (receiveWindow conn)) as [Hu'| ->].
    { destruct (force || nec); [|by left].
      apply elem_of_app in Hu as [Hu|Hu%list_elem_of_singleton]; auto. }
    + destruct (Hres u Hu') as [Hin Hex].
      destruct (Z.eqb_spec (upd_StreamID u) 0) as [E|_]; [|done]. by rewrite E in Hin.
    + done.
  - intros -> id Hid. cbn [orb]. setoid_rewrite elem_of_app. destruct Hid as [->|[Hin Hs]].
    + exists (mkWindowUpdate 0 (receiveWindow conn)). split; [right; by apply list_elem_of_singleton|done].
    + destruct (Hforce eq_refl id Hin Hs) as (u & Hu & Heq). exists u. by split; [left|].
Qed.

Lemma fc_window_updates_witness :
  let '(f', res) := Manager.GetWindowUpdates fc_example3 true 77 5 [9] [5] in
  (forall id c, streamFlowController fc_example3 !! id = Some c ->
     exists c', streamFlowController f' !! id = Some c' /\ receiveWindow c <= receiveWindow c') /\
  receiveWindow (connFlowController fc_example3) <= receiveWindow (connFlowController f') /\
  (forall u, u ∈ res ->
     if upd_StreamID u =? 0 then upd_Offset u = receiveWindow (connFlowController f')
     else exists c', streamFlowController f' !! upd_StreamID u = Some c' /\
                     upd_Offset u = receiveWindow c') /\
  (true = true -> forall id,
     id = 0 \/ (id ∈ [5] /\ is_Some (streamFlowController fc_example3 !! id)) ->
     exists u, u ∈ res /\ upd_StreamID u = id).
Proof.
  apply (fc_window_updates example_params example_params fc_example3 (mkGone 0 0 0) (initialGrant example_params) true 77 5 [9] [5]).
  - apply example_params_ok.
  - apply fc_example_run.
  - apply NoDup_singleton.
  - set_solver.
Defined.

(** [UpdateSendWindow] compares the offset with the last WINDOW_UPDATE and not with the window
    in force: while no WINDOW_UPDATE has arrived, an offset below the negotiated initial
    window is reported as an update and shrinks the window. *)
Theorem UpdateSendWindow_shrinks cp c off :
  sendWindow c = 0 -> 0 < off -> off < Controller.getSendWindow cp c ->
  let '(c', updated) := Controller.UpdateSendWindow c off in
  updated = true /\ Controller.getSendWindow cp c' = off /\
  Controller.getSendWindow cp c' < Controller.getSendWindow cp c.
Proof.
  intros H0 Hoff Hlt. unfold Controller.UpdateSendWindow. rewrite H0.
  destruct (Z.ltb_spec 0 off); [|lia]. split; [done|].
  assert (Controller.getSendWindow cp (mkFlowController (streamID c) (contributesToConnection c)
    (bytesSent c) off (bytesRetrans c) (lastWindowUpdateTime c) (bytesRead c) (highestReceived c)
    (receiveWindow c) (receiveWindowIncrement c) (maxReceiveWindowIncrement c)) = off) as ->.
  { unfold Controller.getSendWindow. cbn. by destruct (Z.eqb_spec off 0); [lia|]. }
  done.
Qed.

Lemma UpdateSendWindow_shrinks_witness :
  let '(c', updated) :=
    Controller.UpdateSendWindow (newFlowController example_params 5 true) 100 in
  updated = true /\ Controller.getSendWindow example_params c' = 100 /\
  Controller.getSendWindow example_params c'
  < Controller.getSendWindow example_params (newFlowController example_params 5 true).
Proof. by apply (UpdateSendWindow_shrinks example_params (newFlowController example_params 5 true) 100). Defined.
