(* ===== verification/ConnectionParameters.v ===== *)
(** * Connection parameters

    Models [internal/handshake/connection_parameters_manager.go]: the parameters of a connection, how
    they are read from the hello message of the peer and what is announced in one's own.  A
    [time.Duration] is in nanoseconds.  The mutex is left out: each call is one atomic step.  The
    getters that flow control reads are gathered in [flowControlView], which discharges the
    hypothesis of its theorems. *)
From S2P Require Import Prelude MinMax ByteOrder PacketNumber Frames PublicHeader HandshakeMessage.
From S2P Require Import FlowControl.

Definition InitialStreamFlowControlWindow : Z := 2 ^ 14.
Definition InitialConnectionFlowControlWindow : Z := 2 ^ 14.
Definition ReceiveStreamFlowControlWindow : Z := 2 ^ 10 * 32.
Definition ReceiveConnectionFlowControlWindow : Z := 2 ^ 10 * 48.
Definition MaxStreamsPerConnection : Z := 100.
Definition MaxIncomingDynamicStreamsPerConnection : Z := 100.
Definition MaxStreamsMinimumIncrement : Z := 10.

(** [time.Second] *)
Definition Second : Z := 1000000000.

Record connectionParametersManager := mkParameters {
  version : Z;
  perspective : Perspective;
  flowControlNegotiated : bool;
  truncateConnectionID : bool;
  maxStreamsPerConnection : Z;
  maxIncomingDynamicStreamsPerConnection : Z;
  idleConnectionStateLifetime : Z;
  sendStreamFlowControlWindow : Z;
  sendConnectionFlowControlWindow : Z;
  receiveStreamFlowControlWindow : Z;
  receiveConnectionFlowControlWindow : Z;
  maxReceiveStreamFlowControlWindow : Z;
  maxReceiveConnectionFlowControlWindow : Z
}.

Definition eta_parameters (h : connectionParametersManager) : connectionParametersManager :=
  mkParameters (version h) (perspective h) (flowControlNegotiated h) (truncateConnectionID h)
    (maxStreamsPerConnection h) (maxIncomingDynamicStreamsPerConnection h)
    (idleConnectionStateLifetime h) (sendStreamFlowControlWindow h)
    (sendConnectionFlowControlWindow h) (receiveStreamFlowControlWindow h)
    (receiveConnectionFlowControlWindow h) (maxReceiveStreamFlowControlWindow h)
    (maxReceiveConnectionFlowControlWindow h).
#[export] Instance set_fcNegotiated : Setter flowControlNegotiated := ltac:(field_setter eta_parameters).
#[export] Instance set_truncate : Setter truncateConnectionID := ltac:(field_setter eta_parameters).
#[export] Instance set_maxStreams : Setter maxStreamsPerConnection := ltac:(field_setter eta_parameters).
#[export] Instance set_maxIncoming : Setter maxIncomingDynamicStreamsPerConnection := ltac:(field_setter eta_parameters).
#[export] Instance set_idle : Setter idleConnectionStateLifetime := ltac:(field_setter eta_parameters).
#[export] Instance set_sendStream : Setter sendStreamFlowControlWindow := ltac:(field_setter eta_parameters).
#[export] Instance set_sendConnection : Setter sendConnectionFlowControlWindow := ltac:(field_setter eta_parameters).

Definition ErrMalformedTag : error :=
  QuicError qerr.InvalidCryptoMessageParameter "malformed Tag value".
Definition ErrFlowControlRenegotiationNotSupported : error :=
  QuicError qerr.InvalidCryptoMessageParameter
    "renegotiation of flow control parameters not supported".

Definition NewConnectionParamatersManager (pers : Perspective) (v maxReceiveStream maxReceiveConnection
    idleTimeout : Z) : connectionParametersManager :=
  mkParameters v pers false false MaxStreamsPerConnection MaxStreamsPerConnection idleTimeout
    InitialStreamFlowControlWindow InitialConnectionFlowControlWindow
    ReceiveStreamFlowControlWindow ReceiveConnectionFlowControlWindow
    maxReceiveStream maxReceiveConnection.

Module Parameters.
Definition negotiateMaxStreamsPerConnection (clientValue : Z) : Z :=
  utils.MinUint32 clientValue MaxStreamsPerConnection.
Definition negotiateMaxIncomingDynamicStreamsPerConnection (clientValue : Z) : Z :=
  utils.MinUint32 clientValue MaxIncomingDynamicStreamsPerConnection.
Definition negotiateIdleConnectionStateLifetime (h : connectionParametersManager) (clientValue : Z) : Z :=
  utils.MinDuration clientValue (idleConnectionStateLifetime h).

(** A step of [SetFromMap]: what was set before an error stays set. *)
Definition step : Type := connectionParametersManager -> connectionParametersManager * option error.
Definition andThen (f g : step) : step := fun h =>
  match f h with
  | (h', Some e) => (h', Some e)
  | (h', None) => g h'
  end.

(** [if value, ok := params[tag]; ok { ... ReadUint32 ... }]: the value of a tag that is present. *)
Definition onTag (params : gmap Z (list Z)) (tag : Z) (guard : connectionParametersManager -> option error)
    (set : Z -> connectionParametersManager -> connectionParametersManager) : step := fun h =>
  match params !! tag with
  | None => (h, None)
  | Some value =>
      match guard h with
      | Some e => (h, Some e)
      | None =>
          match ReadUint32 LittleEndian value with
          | Ret (v, _) => (set v h, None)
          | _ => (h, Some ErrMalformedTag)
          end
      end
  end.

Definition unguarded (h : connectionParametersManager) : option error := None.
Definition notNegotiated (h : connectionParametersManager) : option error :=
  if flowControlNegotiated h then Some ErrFlowControlRenegotiationNotSupported else None.

Definition setTCID (params : gmap Z (list Z)) : step := fun h =>
  if isServer (perspective h)
  then onTag params TagTCID unguarded (fun v h => h <| truncateConnectionID := v =? 0 |>) h
  else (h, None).

Definition markNegotiated (params : gmap Z (list Z)) : step := fun h =>
  (if bool_decide (is_Some (params !! TagCFCW)) || bool_decide (is_Some (params !! TagSFCW))
   then h <| flowControlNegotiated := true |> else h, None).

Definition SetFromMap (params : gmap Z (list Z)) : step :=
  andThen (setTCID params)
  (andThen (onTag params TagMSPC unguarded (fun v h =>
     h <| maxStreamsPerConnection := negotiateMaxStreamsPerConnection v |>))
  (andThen (onTag params TagMIDS unguarded (fun v h =>
     h <| maxIncomingDynamicStreamsPerConnection := negotiateMaxIncomingDynamicStreamsPerConnection v |>))
  (andThen (onTag params TagICSL unguarded (fun v h =>
     h <| idleConnectionStateLifetime := negotiateIdleConnectionStateLifetime h (i64 (v * Second)) |>))
  (andThen (onTag params TagSFCW notNegotiated (fun v h => h <| sendStreamFlowControlWindow := v |>))
  (andThen (onTag params TagCFCW notNegotiated (fun v h => h <| sendConnectionFlowControlWindow := v |>))
  (markNegotiated params)))))).

(** [WriteUint32] into a fresh buffer *)
Definition word (v : Z) : list Z := (WriteUint32 LittleEndian v).1.

Definition GetHelloMap (h : connectionParametersManager) : gmap Z (list Z) :=
  {[ TagICSL := word (u32 (Z.quot (idleConnectionStateLifetime h) Second));
     TagMSPC := word (maxStreamsPerConnection h);
     TagMIDS := word MaxIncomingDynamicStreamsPerConnection;
     TagCFCW := word (u32 (receiveConnectionFlowControlWindow h));
     TagSFCW := word (u32 (receiveStreamFlowControlWindow h)) ]}.

Definition GetMaxOutgoingStreams (h : connectionParametersManager) : Z :=
  maxIncomingDynamicStreamsPerConnection h.

(** [uint32(float64(100) * 1.1)] is 110. *)
Definition GetMaxIncomingStreams (h : connectionParametersManager) : Z :=
  let maxStreams := MaxIncomingDynamicStreamsPerConnection in
  utils.MaxUint32 (maxStreams + MaxStreamsMinimumIncrement) (maxStreams * 11 / 10).

Definition GetIdleConnectionStateLifetime (h : connectionParametersManager) : Z :=
  idleConnectionStateLifetime h.

Definition TruncateConnectionID (h : connectionParametersManager) : bool :=
  if isClient (perspective h) then false else truncateConnectionID h.

(** The getters flow control calls. *)
Definition flowControlView (h : connectionParametersManager) : ConnectionParameters :=
  mkConnectionParameters (sendStreamFlowControlWindow h) (sendConnectionFlowControlWindow h)
    (receiveStreamFlowControlWindow h) (maxReceiveStreamFlowControlWindow h)
    (receiveConnectionFlowControlWindow h) (maxReceiveConnectionFlowControlWindow h).
End Parameters.

(** ** Whatever the peer announces *)

(** The parameters of a connection configured with [idle], [maxStream] and [maxConnection]. *)
Record parameters_inv (idle maxStream maxConnection : Z) (h : connectionParametersManager) : Prop := {
  pi_streams : 0 <= maxStreamsPerConnection h <= MaxStreamsPerConnection;
  pi_incoming : 0 <= maxIncomingDynamicStreamsPerConnection h <= MaxStreamsPerConnection;
  pi_idle : 0 <= idleConnectionStateLifetime h <= idle;
  pi_sendStream : is_u32 (sendStreamFlowControlWindow h);
  pi_sendConnection : is_u32 (sendConnectionFlowControlWindow h);
  pi_receiveStream : receiveStreamFlowControlWindow h = ReceiveStreamFlowControlWindow;
  pi_receiveConnection : receiveConnectionFlowControlWindow h = ReceiveConnectionFlowControlWindow;
  pi_maxStream : maxReceiveStreamFlowControlWindow h = maxStream;
  pi_maxConnection : maxReceiveConnectionFlowControlWindow h = maxConnection
}.

(** A step keeps the invariant [P], and the windows for sending once they are negotiated. *)
Definition keeps (P : connectionParametersManager -> Prop) (f : Parameters.step) : Prop :=
  forall h, P h ->
  P (f h).1 /\ perspective (f h).1 = perspective h /\
  (flowControlNegotiated h = true ->
    flowControlNegotiated (f h).1 = true /\
    sendStreamFlowControlWindow (f h).1 = sendStreamFlowControlWindow h /\
    sendConnectionFlowControlWindow (f h).1 = sendConnectionFlowControlWindow h).

Lemma keeps_andThen P f g : keeps P f -> keeps P g -> keeps P (Parameters.andThen f g).
Proof.
  intros Hf Hg h Hh. specialize (Hf h Hh). unfold Parameters.andThen.
  destruct (f h) as [h' [e|]]; cbn [fst] in *; [done|]. destruct Hf as (Hp & Hpers & Hw).
  destruct (Hg h' Hp) as (Hp' & Hpers' & Hw'). split; [done|]. split; [congruence|].
  intros Hn. destruct (Hw Hn) as (Hn' & H1 & H2). destruct (Hw' Hn') as (? & H3 & H4).
  by rewrite H3, H4.
Qed.

Lemma ReadUint32_word value v rest :
  is_bytes value -> ReadUint32 LittleEndian value = Ret (v, rest) -> is_u32 v.
Proof.
  intros Hb Hr. pose proof (psafe_ReadUint32 0 value Hb) as H. 
  change (GetByteOrder 0) with LittleEndian in H. rewrite Hr in H. apply H.
Qed.

Definition is_params (params : gmap Z (list Z)) : Prop := map_Forall (fun _ v => is_bytes v) params.

Lemma keeps_onTag P params tag guard set :
  is_params params ->
  (forall h v, P h -> is_u32 v -> guard h = None ->
    P (set v h) /\ perspective (set v h) = perspective h /\
    (flowControlNegotiated h = true ->
      flowControlNegotiated (set v h) = true /\
      sendStreamFlowControlWindow (set v h) = sendStreamFlowControlWindow h /\
      sendConnectionFlowControlWindow (set v h) = sendConnectionFlowControlWindow h)) ->
  keeps P (Parameters.onTag params tag guard set).
Proof.
  intros Hb Hset h Hh. unfold Parameters.onTag.
  destruct (params !! tag) as [value|] eqn:E; [|done].
  destruct (guard h) as [e|] eqn:Eg; [done|].
  destruct (ReadUint32 LittleEndian value) as [[v rest]| |] eqn:Er; [|done..].
  cbn [fst]. apply Hset; [done| |done]. eapply ReadUint32_word; [|done]. by apply (Hb tag).
Qed.

Lemma seconds_i64 v : is_u32 v -> i64 (v * Second) = v * Second.
Proof. intros [??]. apply i64_small. unfold is_i64, Second. lia. Qed.

Lemma SetFromMap_keeps idle maxStream maxConnection params :
  is_params params ->
  keeps (parameters_inv idle maxStream maxConnection) (Parameters.SetFromMap params).
Proof.
  intros Hb. unfold Parameters.SetFromMap. repeat apply keeps_andThen.
  - intros h Hh. unfold Parameters.setTCID. destruct (isServer (perspective h)); [|done].
    revert h Hh. apply keeps_onTag; [done|]. intros h v [] Hv _. by split.
  - apply keeps_onTag; [done|]. intros h v [] Hv _. split; [|done]. split; cbn; try done.
    unfold Parameters.negotiateMaxStreamsPerConnection, MaxStreamsPerConnection, in_range in *. minmax. lia.
  - apply keeps_onTag; [done|]. intros h v [] Hv _. split; [|done]. split; cbn; try done.
    unfold Parameters.negotiateMaxIncomingDynamicStreamsPerConnection,
      MaxIncomingDynamicStreamsPerConnection, MaxStreamsPerConnection, in_range in *. minmax. lia.
  - apply keeps_onTag; [done|]. intros h v [] Hv _. split; [|done]. split; cbn; try done.
    rewrite seconds_i64 by done. unfold Parameters.negotiateIdleConnectionStateLifetime, in_range, Second in *.
    minmax. lia.
  - apply keeps_onTag; [done|]. intros h v [] Hv Hg. split; [by split|]. split; [done|].
    intros Hn. unfold Parameters.notNegotiated in Hg. by rewrite Hn in Hg.
  - apply keeps_onTag; [done|]. intros h v [] Hv Hg. split; [by split|]. split; [done|].
    intros Hn. unfold Parameters.notNegotiated in Hg. by rewrite Hn in Hg.
  - intros h Hh. unfold Parameters.markNegotiated. destruct (_ || _); [|done]. cbn [fst].
    destruct Hh. by split.
Qed.

(** The parameters after the hello messages [maps], some of which may be rejected half way. *)
Definition afterHellos (h : connectionParametersManager) (maps : list (gmap Z (list Z)))
    : connectionParametersManager :=
  foldl (fun h params => (Parameters.SetFromMap params h).1) h maps.

Lemma parameters_inv_new pers v maxStream maxConnection idle :
  0 <= idle ->
  parameters_inv idle maxStream maxConnection
    (NewConnectionParamatersManager pers v maxStream maxConnection idle).
Proof. intros Hi. split; cbn; done || lia. Qed.

Lemma afterHellos_inv idle maxStream maxConnection maps : forall h,
  Forall is_params maps -> parameters_inv idle maxStream maxConnection h ->
  parameters_inv idle maxStream maxConnection (afterHellos h maps).
Proof.
  unfold afterHellos. induction maps as [|m maps IH]; intros h Hm Hh; [done|].
  apply Forall_cons in Hm as [Hm Hms]. cbn. apply IH; [done|]. by apply SetFromMap_keeps.
Qed.

Lemma flowControlView_ok idle maxStream maxConnection h :
  ReceiveStreamFlowControlWindow <= maxStream < maxIncrement ->
  ReceiveConnectionFlowControlWindow <= maxConnection < maxIncrement ->
  parameters_inv idle maxStream maxConnection h -> parameters_ok (Parameters.flowControlView h).
Proof.
  unfold ReceiveStreamFlowControlWindow, ReceiveConnectionFlowControlWindow.
  intros Hs Hc [_ _ _ [Ha Hb] [Hd He] H1 H2 H3 H4].
  split; cbn; rewrite ?H1, ?H2, ?H3, ?H4;
    unfold ReceiveStreamFlowControlWindow, ReceiveConnectionFlowControlWindow; lia.
Qed.

(** No hello message makes a connection exceed its configuration.  After any sequence of hello
    messages of the peer, whatever bytes they hold and whether they were accepted or rejected half
    way, the stream limits are at most 100, the idle timeout is at most the configured one, the
    windows for receiving are unchanged, and the windows meet what the flow control theorems assume.
    Once the windows for sending are negotiated, no further message changes them. *)
Theorem parameters_bounded (pers : Perspective) (v maxStream maxConnection idle : Z)
    (maps : list (gmap Z (list Z))) :
  0 <= idle -> ReceiveStreamFlowControlWindow <= maxStream < maxIncrement ->
  ReceiveConnectionFlowControlWindow <= maxConnection < maxIncrement -> Forall is_params maps ->
  let h := afterHellos (NewConnectionParamatersManager pers v maxStream maxConnection idle) maps in
  Parameters.GetMaxOutgoingStreams h <= 100 /\ maxStreamsPerConnection h <= 100 /\
  Parameters.GetIdleConnectionStateLifetime h <= idle /\
  parameters_ok (Parameters.flowControlView h) /\
  forall params, is_params params -> flowControlNegotiated h = true ->
    Parameters.flowControlView (Parameters.SetFromMap params h).1 = Parameters.flowControlView h.
Proof.
  intros Hi Hs Hc Hm h.
  assert (Hh : parameters_inv idle maxStream maxConnection h)
    by (apply afterHellos_inv; [done|by apply parameters_inv_new]).
  pose proof Hh as [[_ H1] [_ H2] [_ H3] _ _ H4 H5 H6 H7].
  split; [done|]. split; [done|]. split; [done|]. split; [by eapply flowControlView_ok|].
  intros params Hp Hn. destruct (SetFromMap_keeps _ _ _ params Hp h Hh) as (Hh' & _ & Hw).
  destruct (Hw Hn) as (_ & E1 & E2). destruct Hh'. unfold Parameters.flowControlView.
  by rewrite E1, E2, pi_receiveStream0, pi_receiveConnection0, pi_maxStream0, pi_maxConnection0, H4, H5, H6, H7.
Qed.

Lemma parameters_bounded_witness :
  let h := afterHellos (NewConnectionParamatersManager PerspectiveServer 39 40000 50000 (30 * Second))
             [{[TagICSL := [255; 255; 255; 255]; TagSFCW := [1; 0; 0; 0]]}; {[TagMIDS := [1]]}] in
  Parameters.GetIdleConnectionStateLifetime h <= 30 * Second /\
  sendStreamFlowControlWindow h = 1 /\ parameters_ok (Parameters.flowControlView h).
Proof.
  cbv zeta.
  destruct (parameters_bounded PerspectiveServer 39 40000 50000 (30 * Second)
    [{[TagICSL := [255; 255; 255; 255]; TagSFCW := [1; 0; 0; 0]]}; {[TagMIDS := [1]]}])
    as (_ & _ & H1 & H2 & _).
  - unfold Second. lia.
  - by vm_compute.
  - by vm_compute.
  - repeat apply Forall_cons_2; [| |apply Forall_nil_2]; intros t x Hx.
    + apply lookup_insert_Some in Hx as [[_ <-]|[_ [_ <-]%lookup_singleton_Some]];
        repeat (constructor; [done|]); constructor.
    + apply lookup_singleton_Some in Hx as [_ <-]. repeat (constructor; [done|]); constructor.
  - split; [exact H1|]. split; [vm_compute; reflexivity|exact H2].
Defined.

(** ** The exchange of hello messages *)

(** The values of a message as the peer reads them from the wire. *)
Definition deliver (order : list Z) (tag : Z) (data : gmap Z (list Z)) : outcome (gmap Z (list Z)) :=
  b ← Handshake.Write order (mkHandshakeMessage tag data) [];
  '(msg, _) ← Handshake.ParseHandshakeMessage b;
  Ret (Data msg).

Lemma deliver_ret order tag data :
  wf_message (mkHandshakeMessage tag data) -> order ≡ₚ keys data -> deliver order tag data = Ret data.
Proof.
  intros Hwf Hp. unfold deliver. rewrite (Write_bytes _ _ order [] Hwf Hp eq_refl). cbn [mbind outcome_bind].
  rewrite <- (app_nil_r ([] ++ _)). cbn [app].
  rewrite Parse_bytes; [done|done|]. unfold Handshake.getTagsSorted. by rewrite sorting.merge_sort_Permutation.
Qed.

(** The other values an endpoint adds to its hello message. *)
Record extras_ok (extra : gmap Z (list Z)) : Prop := {
  ex_entries : map_Forall (fun t v => wf_entry (t, v)) extra;
  ex_size : Z.of_nat (size extra) <= CryptoMaxParams - 5;
  ex_tcid : extra !! TagTCID = None
}.

Lemma word_entry tag v : is_u32 tag -> wf_entry (tag, Parameters.word v).
Proof.
  intros Ht. unfold Parameters.word. rewrite WriteUint32_enc. split; [done|].
  split; [apply le_bytes_is_bytes|]. cbn [snd write fst]. by rewrite length_le_bytes.
Qed.

Lemma size_union_le {A} (m1 m2 : gmap Z A) : (size (m1 ∪ m2) <= size m1 + size m2)%nat.
Proof.
  rewrite <- !size_dom, dom_union_L, size_union_alt.
  assert (size (dom m2 ∖ dom m1) <= size (dom m2))%nat by (apply subseteq_size; set_solver). lia.
Qed.

Lemma hello_wf h tag extra :
  is_u32 tag -> extras_ok extra ->
  wf_message (mkHandshakeMessage tag (Parameters.GetHelloMap h ∪ extra)).
Proof.
  intros Ht [He Hs _]. split; [done| |].
  - cbn [Data]. pose proof (size_union_le (Parameters.GetHelloMap h) extra) as Hu.
    assert (size (Parameters.GetHelloMap h) = 5%nat) as E by (vm_compute; reflexivity).
    rewrite E in Hu. unfold CryptoMaxParams in *. lia.
  - cbn [Data]. intros t v [Hv|[_ Hv]]%lookup_union_Some_raw; [|by apply He].
    unfold Parameters.GetHelloMap in Hv.
    repeat (apply lookup_insert_Some in Hv as [[<- <-]|[_ Hv]];
      [apply word_entry; by vm_compute|]).
    apply lookup_singleton_Some in Hv as [<- <-]. apply word_entry. by vm_compute.
Qed.

Lemma onTag_value params tag guard set h v :
  params !! tag = Some (Parameters.word v) -> is_u32 v -> guard h = None ->
  Parameters.onTag params tag guard set h = (set v h, None).
Proof.
  intros Hp Hv Hg. unfold Parameters.onTag. rewrite Hp, Hg. unfold Parameters.word.
  rewrite WriteUint32_enc. cbn [fst write]. rewrite <- (app_nil_r (le_bytes 4 v)).
  by rewrite ReadUint32_enc.
Qed.

Lemma andThen_ret f g h h' : f h = (h', None) -> Parameters.andThen f g h = g h'.
Proof. unfold Parameters.andThen. by intros ->. Qed.

Lemma hello_lookup peer extra :
  let params := Parameters.GetHelloMap peer ∪ extra in
  params !! TagICSL = Some (Parameters.word (u32 (Z.quot (idleConnectionStateLifetime peer) Second))) /\
  params !! TagMSPC = Some (Parameters.word (maxStreamsPerConnection peer)) /\
  params !! TagMIDS = Some (Parameters.word MaxIncomingDynamicStreamsPerConnection) /\
  params !! TagCFCW = Some (Parameters.word (u32 (receiveConnectionFlowControlWindow peer))) /\
  params !! TagSFCW = Some (Parameters.word (u32 (receiveStreamFlowControlWindow peer))).
Proof.
  cbv zeta. refine (conj _ (conj _ (conj _ (conj _ _)))); apply lookup_union_Some_l;
    unfold Parameters.GetHelloMap; rewrite ?lookup_insert_ne by (by vm_compute);
    first [apply lookup_insert_eq|apply lookup_singleton_eq].
Qed.

Lemma hello_tcid peer extra :
  extra !! TagTCID = None -> (Parameters.GetHelloMap peer ∪ extra) !! TagTCID = None.
Proof.
  intros Ht. apply lookup_union_None. split; [|exact Ht].
  unfold Parameters.GetHelloMap. rewrite !lookup_insert_ne by (by vm_compute). apply lookup_singleton_ne. by vm_compute.
Qed.

(** What an endpoint announces. *)
Record announces (peer : connectionParametersManager) : Prop := {
  an_idle : 0 <= idleConnectionStateLifetime peer < 2 ^ 32 * Second;
  an_streams : 0 <= maxStreamsPerConnection peer <= MaxStreamsPerConnection;
  an_stream : is_u32 (receiveStreamFlowControlWindow peer);
  an_connection : is_u32 (receiveConnectionFlowControlWindow peer)
}.

(** The parameters of [h] after the hello message of [peer]. *)
Definition negotiated (peer h : connectionParametersManager) : connectionParametersManager :=
  h <| maxStreamsPerConnection := maxStreamsPerConnection peer |>
    <| maxIncomingDynamicStreamsPerConnection := MaxIncomingDynamicStreamsPerConnection |>
    <| idleConnectionStateLifetime :=
         Z.min (idleConnectionStateLifetime peer / Second * Second) (idleConnectionStateLifetime h) |>
    <| sendStreamFlowControlWindow := receiveStreamFlowControlWindow peer |>
    <| sendConnectionFlowControlWindow := receiveConnectionFlowControlWindow peer |>
    <| flowControlNegotiated := true |>.

Lemma SetFromMap_hello peer extra h :
  announces peer -> flowControlNegotiated h = false -> extra !! TagTCID = None ->
  Parameters.SetFromMap (Parameters.GetHelloMap peer ∪ extra) h = (negotiated peer h, None).
Proof.
  intros [Hidle Hstr Hs Hc] Hn Ht. unfold Parameters.SetFromMap.
  assert (Hq : is_u32 (Z.quot (idleConnectionStateLifetime peer) Second)).
  { unfold Second in *. rewrite Z.quot_div_nonneg by lia. split; [apply Z.div_pos; lia|].
    apply Z.div_lt_upper_bound; lia. }
  destruct (hello_lookup peer extra) as (E1 & E2 & E3 & E4 & E5).
  pose proof (hello_tcid peer extra Ht) as E0.
  rewrite (uN_small 32 _ Hq) in E1. rewrite (uN_small 32 _ Hc) in E4. rewrite (uN_small 32 _ Hs) in E5.
  set (params := _ ∪ _) in *.
  rewrite (andThen_ret _ _ _ h).
  2: { unfold Parameters.setTCID, Parameters.onTag. rewrite E0. by destruct (isServer (perspective h)). }
  erewrite andThen_ret by (apply onTag_value; [exact E2| |done];
    unfold MaxStreamsPerConnection, in_range in *; lia).
  erewrite andThen_ret by (apply onTag_value; [exact E3| |done]; by vm_compute).
  erewrite andThen_ret by (apply onTag_value; [exact E1|exact Hq|done]).
  erewrite andThen_ret by (apply onTag_value; [exact E5|exact Hs|]; unfold Parameters.notNegotiated; cbn; by rewrite Hn).
  erewrite andThen_ret by (apply onTag_value; [exact E4|exact Hc|]; unfold Parameters.notNegotiated; cbn; by rewrite Hn).
  unfold Parameters.markNegotiated. rewrite (bool_decide_eq_true_2 (is_Some (params !! TagCFCW)))
    by (by eexists). cbn [orb].
  rewrite seconds_i64 by done. unfold negotiated, Parameters.negotiateMaxStreamsPerConnection,
    Parameters.negotiateMaxIncomingDynamicStreamsPerConnection, Parameters.negotiateIdleConnectionStateLifetime.
  minmax. unfold MaxStreamsPerConnection, MaxIncomingDynamicStreamsPerConnection in *.
  rewrite (Z.min_l _ 100) by lia. cbn. rewrite Z.quot_div_nonneg by (unfold Second in *; lia).
  by rewrite Z.max_id, (Z.min_comm (idleConnectionStateLifetime h)).
Qed.

(** C32: A client and a server agree on their parameters.  The hello message of the client, written
    in whatever order Go iterates over its map, is read by the server, whose answer is read by the
    client: both accept, each may send what the other is ready to receive, and the idle timeouts,
    which are announced in whole seconds, differ by less than a second and exceed neither
    configuration. *)
Theorem parameters_agree (v idleC idleS maxStreamC maxConnC maxStreamS maxConnS : Z)
    (extraC extraS : gmap Z (list Z)) (orderC orderS : list Z) :
  0 <= idleC < 2 ^ 32 * Second -> 0 <= idleS < 2 ^ 32 * Second ->
  extras_ok extraC -> extras_ok extraS ->
  let client := NewConnectionParamatersManager PerspectiveClient v maxStreamC maxConnC idleC in
  let server := NewConnectionParamatersManager PerspectiveServer v maxStreamS maxConnS idleS in
  let server' := negotiated client server in
  let client' := negotiated server' client in
  let chlo := Parameters.GetHelloMap client ∪ extraC in
  let shlo := Parameters.GetHelloMap server' ∪ extraS in
  orderC ≡ₚ keys chlo -> orderS ≡ₚ keys shlo ->
  (params ← deliver orderC TagCHLO chlo; Ret (Parameters.SetFromMap params server)) = Ret (server', None) /\
  (params ← deliver orderS TagSHLO shlo; Ret (Parameters.SetFromMap params client)) = Ret (client', None) /\
  sendStreamFlowControlWindow client' = receiveStreamFlowControlWindow server' /\
  sendConnectionFlowControlWindow client' = receiveConnectionFlowControlWindow server' /\
  sendStreamFlowControlWindow server' = receiveStreamFlowControlWindow client' /\
  sendConnectionFlowControlWindow server' = receiveConnectionFlowControlWindow client' /\
  idleConnectionStateLifetime client' <= idleConnectionStateLifetime server'
    < idleConnectionStateLifetime client' + Second /\
  idleConnectionStateLifetime server' <= Z.min idleC idleS.
Proof.
  intros Hc Hs HeC HeS client server server' client' chlo shlo HoC HoS.
  assert (Hdiv : forall x, 0 <= x -> x / Second * Second <= x < x / Second * Second + Second).
  { intros x Hx. pose proof (Z.div_mod x Second). pose proof (Z.mod_pos_bound x Second).
    unfold Second in *. lia. }
  assert (HaC : announces client) by (split; [done|by vm_compute..]).
  assert (HaS : announces server').
  { split; [|by vm_compute..]. cbn. pose proof (Hdiv idleC).
    assert (0 <= idleC / Second) by (apply Z.div_pos; unfold Second in *; lia). unfold Second in *. lia. }
  split; [|split].
  - rewrite (deliver_ret orderC TagCHLO chlo) by (first [exact HoC|apply hello_wf; [vm_compute; done|exact HeC]]).
    cbn [mbind outcome_bind]. unfold chlo. rewrite SetFromMap_hello; [reflexivity|exact HaC|reflexivity|apply HeC].
  - rewrite (deliver_ret orderS TagSHLO shlo) by (first [exact HoS|apply hello_wf; [vm_compute; done|exact HeS]]).
    cbn [mbind outcome_bind]. unfold shlo. rewrite SetFromMap_hello; [reflexivity|exact HaS|reflexivity|apply HeS].
  - do 4 (split; [done|]). cbn.
    set (t := Z.min (idleC / Second * Second) idleS).
    assert (Ht : 0 <= t) by (unfold t; assert (0 <= idleC / Second) by (apply Z.div_pos; unfold Second in *; lia);
      unfold Second in *; lia).
    pose proof (Hdiv t Ht). pose proof (Hdiv idleC). unfold t in *. lia.
Qed.

Lemma parameters_agree_witness :
  let client := NewConnectionParamatersManager PerspectiveClient 39 40000 50000 (30 * Second) in
  let server := NewConnectionParamatersManager PerspectiveServer 39 40000 50000 (12 * Second + 5) in
  let server' := negotiated client server in
  let client' := negotiated server' client in
  (params ← deliver [TagSFCW; TagCFCW; TagMSPC; TagMIDS; TagICSL] TagCHLO (Parameters.GetHelloMap client ∪ ∅);
   Ret (Parameters.SetFromMap params server)) = Ret (server', None) /\
  idleConnectionStateLifetime client' <= idleConnectionStateLifetime server'
    < idleConnectionStateLifetime client' + Second.
Proof.
  cbv zeta. assert (He : extras_ok ∅) by (split; [apply map_Forall_empty|by vm_compute|done]).
  destruct (parameters_agree 39 (30 * Second) (12 * Second + 5) 40000 50000 40000 50000 ∅ ∅
    [TagSFCW; TagCFCW; TagMSPC; TagMIDS; TagICSL]
    (keys (Parameters.GetHelloMap (negotiated
       (NewConnectionParamatersManager PerspectiveClient 39 40000 50000 (30 * Second))
       (NewConnectionParamatersManager PerspectiveServer 39 40000 50000 (12 * Second + 5))) ∪ ∅)))
    as (H1 & _ & _ & _ & _ & _ & H2 & _); [unfold Second; lia..|exact He|exact He| |done|].
  - apply (bool_decide_unpack _). vm_compute. exact I.
  - split; [exact H1|exact H2].
Defined.
