(* ===== verification/StreamToPath.v ===== *)
(** * The paths of the streams

    Models [streamToPath.go]: the map from a stream to the paths it is scheduled on, which the session
    keeps.  It is made by [newSession] and is never nil, so the errors for a nil map are left out.
    [DeleteOne] shifts the slice it reads in place, but has taken it out of the map before, and [Add]
    starts a new one: no two entries share their memory, and slices are lists. *)
From S2P Require Import Prelude.

Notation StreamToPath := (gmap Z (list Z)).

Definition errStreamNotFound : error := ErrorString "streamToPath record of this stream not found".
Definition errNothingToDelete : error := ErrorString "nothing to delete".

(** [streamToPath[sid]] *)
Definition pathsOf (m : StreamToPath) (sid : Z) : list Z := default [] (m !! sid).

Module Assignment.
(** The loop of [Find]. *)
Fixpoint findIn (values : list Z) (pid : Z) : bool :=
  match values with
  | [] => false
  | v :: values' => if v =? pid then true else findIn values' pid
  end.

Definition Find (m : StreamToPath) (sid pid : Z) : bool := findIn (pathsOf m sid) pid.

Definition Add (m : StreamToPath) (sid pid : Z) : StreamToPath :=
  match pathsOf m sid with
  | [] => <[sid := [pid]]> m
  | values => if Find m sid pid then m else <[sid := values ++ [pid]]> m
  end.

Definition Get (m : StreamToPath) (sid : Z) : outcome (list Z) :=
  match pathsOf m sid with
  | [] => Err errStreamNotFound
  | values => Ret values
  end.

(** The loop of [DeleteOne]: after a removal the index stays where it is. *)
Fixpoint deleteLoop (values : list Z) (sid value : Z) (find : bool) (m : StreamToPath)
    : StreamToPath * bool :=
  match values with
  | [] => (m, find)
  | tmp :: values' =>
      if tmp =? value then deleteLoop values' sid value true m
      else deleteLoop values' sid value find (Add m sid tmp)
  end.

Definition DeleteOne (m : StreamToPath) (sid value : Z) : StreamToPath * outcome unit :=
  match pathsOf m sid with
  | [] => (m, Err errNothingToDelete)
  | values =>
      let '(m, find) := deleteLoop values sid value false (delete sid m) in
      (m, if find then Ret tt else Err errNothingToDelete)
  end.

Definition Delete (m : StreamToPath) (sid : Z) : StreamToPath * outcome unit :=
  match pathsOf m sid with
  | [] => (m, Err errNothingToDelete)
  | _ => (delete sid m, Ret tt)
  end.
End Assignment.

(** ** Well-formed maps *)

(** Every entry names paths, and none of them twice. *)
Definition assignment_ok (m : StreamToPath) : Prop :=
  map_Forall (fun _ values => values <> [] /\ NoDup values) m.

Lemma pathsOf_insert m sid values x :
  pathsOf (<[sid := values]> m) x = if decide (x = sid) then values else pathsOf m x.
Proof.
  unfold pathsOf. case_decide as Hx; [subst; by rewrite lookup_insert_eq|by rewrite lookup_insert_ne].
Qed.

Lemma pathsOf_delete m sid x :
  pathsOf (delete sid m) x = if decide (x = sid) then [] else pathsOf m x.
Proof.
  unfold pathsOf. case_decide as Hx; [subst; by rewrite lookup_delete_eq|by rewrite lookup_delete_ne].
Qed.

Lemma findIn_spec values pid : Assignment.findIn values pid = true <-> pid ∈ values.
Proof.
  induction values as [|v values IH]; cbn; [set_solver|].
  destruct (Z.eqb_spec v pid); [set_solver|]. rewrite IH. set_solver.
Qed.

Lemma assignment_ok_nodup m sid : assignment_ok m -> NoDup (pathsOf m sid).
Proof.
  intros Hm. unfold pathsOf. destruct (m !! sid) eqn:E; cbn; [by apply (Hm sid)|constructor].
Qed.

Lemma assignment_ok_delete m sid : assignment_ok m -> assignment_ok (delete sid m).
Proof. intros Hm. by apply map_Forall_delete. Qed.

Lemma assignment_ok_insert m sid values :
  assignment_ok m -> values <> [] -> NoDup values -> assignment_ok (<[sid := values]> m).
Proof. intros Hm Hne Hnd. by apply map_Forall_insert_2. Qed.

(** [Add] appends a path that is not there yet. *)
Lemma pathsOf_Add m sid pid x :
  pathsOf (Assignment.Add m sid pid) x
  = if decide (x = sid) then
      if decide (pid ∈ pathsOf m sid) then pathsOf m sid else pathsOf m sid ++ [pid]
    else pathsOf m x.
Proof.
  unfold Assignment.Add, Assignment.Find. pose proof (findIn_spec (pathsOf m sid) pid) as Hf.
  destruct (pathsOf m sid) as [|v values] eqn:E.
  - rewrite pathsOf_insert. repeat case_decide; set_solver.
  - destruct (Assignment.findIn (v :: values) pid).
    + repeat case_decide; naive_solver congruence.
    + rewrite pathsOf_insert. repeat case_decide; naive_solver.
Qed.

Lemma assignment_ok_Add m sid pid : assignment_ok m -> assignment_ok (Assignment.Add m sid pid).
Proof.
  intros Hm. pose proof (assignment_ok_nodup m sid Hm) as Hnd.
  unfold Assignment.Add, Assignment.Find. pose proof (findIn_spec (pathsOf m sid) pid) as Hf.
  destruct (pathsOf m sid) as [|v values] eqn:E.
  - apply assignment_ok_insert; [done..|]. apply NoDup_singleton.
  - destruct (Assignment.findIn (v :: values) pid); [done|]. apply assignment_ok_insert; [done..|].
    apply NoDup_app. split; [done|]. split; [|apply NoDup_singleton]. set_solver.
Qed.

Lemma delete_one_loop sid value : forall values m find,
  assignment_ok m -> NoDup (pathsOf m sid ++ values) ->
  let '(m', find') := Assignment.deleteLoop values sid value find m in
  assignment_ok m' /\ find' = find || bool_decide (value ∈ values) /\
  forall x, pathsOf m' x = if decide (x = sid) then pathsOf m sid ++ filter (.≠ value) values else pathsOf m x.
Proof.
  induction values as [|v values IH]; intros m find Hm Hnd; cbn [Assignment.deleteLoop].
  { split; [done|]. split; [by destruct find|]. intros x. rewrite app_nil_r. case_decide; congruence. }
  destruct (Z.eqb_spec v value) as [->|Hv].
  - specialize (IH m true Hm). destruct (Assignment.deleteLoop _ _ _ _ _) as [m' find'].
    destruct IH as (H1 & H2 & H3).
    { apply (sublist_NoDup _ _ Hnd). apply sublist_app; [done|]. by apply sublist_cons. }
    split; [done|]. split; [rewrite H2, (bool_decide_eq_true_2 (value ∈ value :: values)) by constructor; by destruct find|].
    intros x. rewrite H3. rewrite filter_cons_False by naive_solver. done.
  - assert (Hni : v ∉ pathsOf m sid). { apply NoDup_app in Hnd as (_ & Hd & _). intros Hin. apply (Hd v Hin). set_solver. }
    assert (Hpo : pathsOf (Assignment.Add m sid v) sid = pathsOf m sid ++ [v]).
    { rewrite pathsOf_Add, decide_True by done. by rewrite decide_False. }
    specialize (IH (Assignment.Add m sid v) find (assignment_ok_Add _ _ _ Hm)).
    destruct (Assignment.deleteLoop _ _ _ _ _) as [m' find']. rewrite Hpo, <- app_assoc in IH.
    destruct (IH Hnd) as (H1 & H2 & H3). split; [done|]. split.
    + rewrite H2. f_equal. apply bool_decide_ext. set_solver.
    + intros x. rewrite H3. rewrite filter_cons_True by done. destruct (decide (x = sid)); [by rewrite <- app_assoc|].
      by rewrite pathsOf_Add, decide_False.
Qed.

Lemma DeleteOne_spec m sid value :
  assignment_ok m ->
  let '(m', r) := Assignment.DeleteOne m sid value in
  assignment_ok m' /\ r = (if decide (value ∈ pathsOf m sid) then Ret tt else Err errNothingToDelete) /\
  forall x, pathsOf m' x = if decide (x = sid) then filter (.≠ value) (pathsOf m sid) else pathsOf m x.
Proof.
  intros Hm. unfold Assignment.DeleteOne. destruct (pathsOf m sid) as [|v values] eqn:E.
  { split; [done|]. split; [by rewrite decide_False by set_solver|]. intros x. case_decide; [by subst|done]. }
  pose proof (assignment_ok_nodup m sid Hm) as Hnd. rewrite E in Hnd.
  pose proof (delete_one_loop sid value (v :: values) (delete sid m) false (assignment_ok_delete _ _ Hm)) as H.
  rewrite pathsOf_delete, decide_True in H by done. specialize (H Hnd).
  destruct (Assignment.deleteLoop _ _ _ _ _) as [m' find]. destruct H as (H1 & -> & H2).
  split; [done|]. split; [cbn [orb]; repeat case_decide; repeat case_bool_decide; done|].
  intros x. rewrite H2. case_decide; [done|]. by rewrite pathsOf_delete, decide_False.
Qed.

(** C30: The map from streams to paths is the relation it stands for.  Adding a path to a stream adds this
    pair, at the end of the stream's paths and not a second time; deleting a path from a stream succeeds
    exactly when the stream is on that path, removes this pair, and leaves the order of the others and
    all other streams alone; deleting a stream removes all its pairs.  No operation breaks the invariant:
    entries are not empty and have no duplicates. *)
Theorem stream_to_path_relation m sid pid :
  assignment_ok m ->
  (let m' := Assignment.Add m sid pid in
   assignment_ok m' /\ forall x y, y ∈ pathsOf m' x <-> (x = sid /\ y = pid) \/ y ∈ pathsOf m x) /\
  (let '(m', r) := Assignment.DeleteOne m sid pid in
   assignment_ok m' /\ (r = Ret tt <-> pid ∈ pathsOf m sid) /\
   (forall x y, y ∈ pathsOf m' x <-> y ∈ pathsOf m x /\ ~ (x = sid /\ y = pid)) /\
   forall x, pathsOf m' x `sublist_of` pathsOf m x) /\
  (let '(m', r) := Assignment.Delete m sid in
   assignment_ok m' /\ (r = Ret tt <-> pathsOf m sid <> []) /\
   forall x y, y ∈ pathsOf m' x <-> y ∈ pathsOf m x /\ x <> sid).
Proof.
  intros Hm. split; [|split].
  - split; [by apply assignment_ok_Add|]. intros x y. rewrite pathsOf_Add. repeat case_decide; set_solver.
  - pose proof (DeleteOne_spec m sid pid Hm) as H. destruct (Assignment.DeleteOne m sid pid) as [m' r].
    destruct H as (H1 & -> & H2). split; [done|]. split; [case_decide; naive_solver|]. split.
    + intros x y. rewrite H2. case_decide; subst; [rewrite list_elem_of_filter|]; naive_solver.
    + intros x. rewrite H2. case_decide; [|done]. subst. apply sublist_filter.
  - unfold Assignment.Delete. destruct (pathsOf m sid) as [|v values] eqn:E.
    + split; [done|]. split; [naive_solver|]. intros x y. split; [|naive_solver]. intros Hy. split; [done|].
      intros ->. rewrite E in Hy. set_solver.
    + split; [by apply assignment_ok_delete|]. split; [naive_solver|]. intros x y. rewrite pathsOf_delete.
      case_decide; set_solver.
Qed.

Definition example_assignment : StreamToPath := {[ 5 := [1; 3]; 7 := [3] ]}.

Lemma stream_to_path_relation_witness :
  let '(m', r) := Assignment.DeleteOne example_assignment 5 1 in
  assignment_ok m' /\ (r = Ret tt <-> 1 ∈ pathsOf example_assignment 5) /\
  (forall x y, y ∈ pathsOf m' x <-> y ∈ pathsOf example_assignment x /\ ~ (x = 5 /\ y = 1)) /\
  forall x, pathsOf m' x `sublist_of` pathsOf example_assignment x.
Proof.
  apply (stream_to_path_relation example_assignment 5 1). apply (bool_decide_unpack _). vm_compute. done.
Defined.
