(* ===== verification/StreamTree.v ===== *)
(** * The priority tree of the streams

    Models [stream_tree.go].  A node is identified by the ID of its stream, the root has the ID 0 and is
    not in [nodeMap]; pointers between nodes are IDs.  What the tree reads from a stream is an argument:
    [fin] whether everything was written and the FIN sent, [checked] whether its size is known.  The
    recursions up and down the tree follow pointers and take fuel; running out of it is a [Panic]. *)
From S2P Require Import Prelude.
From stdpp Require Import pretty.

Open Scope Z_scope.
Open Scope go_scope.

Definition DefaultStreamWeight : Z := 15.

Inductive nodeState := nodeIdle | nodeActive | nodeClosed.
#[export] Instance nodeState_eq_dec : EqDecision nodeState.
Proof. solve_decision. Defined.

(** [n_stream]: the pointer to the stream is not nil. *)
Record node := mkNode {
  n_id : Z;
  n_stream : bool;
  n_weight : Z;
  childrensWeight : Z;
  n_state : nodeState;
  activeChildren : Z;
  n_parent : option Z;
  children : list Z;
  nextChild : Z;
  visited : bool
}.

Definition eta_node (n : node) : node :=
  mkNode (n_id n) (n_stream n) (n_weight n) (childrensWeight n) (n_state n) (activeChildren n) (n_parent n)
    (children n) (nextChild n) (visited n).
#[export] Instance set_n_stream : Setter n_stream := ltac:(field_setter eta_node).
#[export] Instance set_n_weight : Setter n_weight := ltac:(field_setter eta_node).
#[export] Instance set_childrensWeight : Setter childrensWeight := ltac:(field_setter eta_node).
#[export] Instance set_n_state : Setter n_state := ltac:(field_setter eta_node).
#[export] Instance set_activeChildren : Setter activeChildren := ltac:(field_setter eta_node).
#[export] Instance set_n_parent : Setter n_parent := ltac:(field_setter eta_node).
#[export] Instance set_children : Setter children := ltac:(field_setter eta_node).
#[export] Instance set_nextChild : Setter nextChild := ltac:(field_setter eta_node).
#[export] Instance set_visited : Setter visited := ltac:(field_setter eta_node).

Definition rootID : Z := 0.

Record streamTree := mkStreamTree { nodes : gmap Z node; tree_openStreams : Z }.

Definition eta_tree (t : streamTree) : streamTree := mkStreamTree (nodes t) (tree_openStreams t).
#[export] Instance set_nodes : Setter nodes := ltac:(field_setter eta_tree).
#[export] Instance set_tree_openStreams : Setter tree_openStreams := ltac:(field_setter eta_tree).

Definition newNode (id : Z) (hasStream : bool) (parent : option Z) : node :=
  mkNode id hasStream DefaultStreamWeight 0 nodeActive 0 parent [] 0 false.

Definition newStreamTree : streamTree := mkStreamTree {[rootID := newNode rootID false None]} 0.

(** [protocol.Priority] *)
Record Priority := mkPriority { Dependency : Z; Weight : Z; Exclusive : bool }.

Definition errUnknownWeight (id : Z) : error :=
  ErrorString ("setting weight of unknown stream " +:+ pretty id).
Definition errOwnParent (id : Z) : error :=
  ErrorString ("setting stream " +:+ pretty id +:+ " as its own parent").
Definition errParentOfCrypto : error := ErrorString "setting parent of crypto stream".
Definition errParentOfHeader : error := ErrorString "setting parent of header stream".
Definition errParentCrypto : error := ErrorString "setting parent to crypto stream".
Definition errUnknownChild (childID parentID : Z) : error :=
  ErrorString ("setting unknown stream " +:+ pretty childID +:+ " as exclusive child of stream " +:+ pretty parentID).
Definition errUnknownParent (childID parentID : Z) : error :=
  ErrorString ("setting stream " +:+ pretty childID +:+ " as exclusive child of unknown stream " +:+ pretty parentID).
Definition errUnknownActive (id : Z) : error :=
  ErrorString ("setting unknown stream " +:+ pretty id +:+ " active").

Module Tree.
Notation M := (Call streamTree).

Definition setNode (n : node) (t : streamTree) : streamTree := t <| nodes := <[n_id n := n]> (nodes t) |>.

(** The node a pointer leads to. *)
Definition withNode {A} (id : Z) (k : node -> M A) : M A :=
  t ← get; match nodes t !! id with Some n => k n | None => nilDereference end.
Definition changeNode (id : Z) (f : node -> node) : M unit := withNode id (fun n => update (setNode (f n))).

(** [nodeMap[id]] *)
Definition nodeMap (t : streamTree) (id : Z) : option node := if id =? rootID then None else nodes t !! id.

(** [n.addWeight(child)] *)
Fixpoint addWeight (fuel : nat) (id child : Z) : M unit :=
  match fuel with
  | O => crash "stack overflow"
  | S fuel' =>
      withNode child (fun c =>
        changeNode id (fun n =>
          n <| childrensWeight := u32 (childrensWeight n + n_weight c + 1) |>
            <| activeChildren := u16 (activeChildren n + 1) |>
            <| children := children n ++ [child] |>);;
        withNode id (fun n =>
          match n_parent n with
          | Some parent =>
              when (negb (bool_decide (n_state n = nodeActive)) && (activeChildren n =? 1)) (addWeight fuel' parent id)
          | None => mret tt
          end))
  end.

(** The index of the child, 0 if it is none. *)
Fixpoint childIndex (child : Z) (l : list Z) : option nat :=
  match l with
  | [] => None
  | x :: l' => if x =? child then Some O else S <$> childIndex child l'
  end.

Definition removeAt (i : nat) (l : list Z) : list Z := take i l ++ drop (S i) l.

(** [uint16(len(children))], by which the index of the next child is taken modulo. *)
Definition divisor (l : list Z) : Z := u16 (Z.of_nat (length l)).

(** The node without one of its children. *)
Definition withoutChild (n : node) (child : Z) (weight : Z) : node :=
  let children' := removeAt (default O (childIndex child (children n))) (children n) in
  n <| children := children' |>
    <| nextChild := match children' with [] => 0 | _ => nextChild n `mod` divisor children' end |>
    <| childrensWeight := u32 (childrensWeight n - u32 (weight - 1)) |>
    <| activeChildren := u16 (activeChildren n - 1) |>.

(** [n.removeWeight(child)] *)
Fixpoint removeWeight (fuel : nat) (id child : Z) : M unit :=
  match fuel with
  | O => crash "stack overflow"
  | S fuel' =>
      withNode child (fun c => withNode id (fun n =>
        match children n with
        | [] => crash "slice bounds out of range"
        | _ =>
            let n' := withoutChild n child (n_weight c) in
            if bool_decide (children n' <> []) && (divisor (children n') =? 0) then crash "integer divide by zero"
            else
              update (setNode n');;
              withNode id (fun n =>
                match n_parent n with
                | Some parent => when (activeChildren n =? 0) (removeWeight fuel' parent id)
                | None => mret tt
                end)
        end))
  end.

(** As deep as the tree may be. *)
Definition depth (t : streamTree) : nat := S (size (nodes t)).

Definition addWeightOf (id child : Z) : M unit := t ← get; addWeight (depth t) id child.
Definition removeWeightOf (id child : Z) : M unit := t ← get; removeWeight (depth t) id child.

Definition deactivateNode (id : Z) : M unit :=
  changeNode id (fun n => n <| n_state := nodeClosed |> <| n_stream := false |>);;
  withNode id (fun n =>
    match n_parent n with
    | Some parent => when (activeChildren n =? 0) (removeWeightOf parent id)
    | None => mret tt
    end).

(** [addNode]; a new node is active. *)
Definition addNode (id : Z) : M unit :=
  update (setNode (newNode id true (Some rootID)));; addWeightOf rootID id.

(** A node that counts for its parent. *)
Definition counts (n : node) : bool := bool_decide (n_state n = nodeActive) || (0 <? activeChildren n).

Definition maybeSetWeight (id weight : Z) : M unit :=
  if (id =? 1) || (id =? 3) then mret tt
  else
    t ← get;
    match nodeMap t id with
    | None => raise (errUnknownWeight id)
    | Some n =>
        if n_weight n =? weight then mret tt
        else
          when (counts n) (
            match n_parent n with
            | Some parent => changeNode parent (fun p =>
                p <| childrensWeight := u32 (childrensWeight p + (weight - n_weight n)) |>)
            | None => nilDereference
            end);;
          changeNode id (fun n => n <| n_weight := weight |>)
    end.

(** [for n := newParent.parent; n.parent != nil; n = n.parent]: the node moves up when it depends on the
    node that becomes its child. *)
Fixpoint moveUp (fuel : nat) (at_ childID newParentID : Z) (oldParent : option Z) : M unit :=
  match fuel with
  | O => crash "stack overflow"
  | S fuel' =>
      withNode at_ (fun n =>
        match n_parent n with
        | None => mret tt
        | Some _ =>
            when (at_ =? childID) (
              withNode newParentID (fun p =>
                when (counts p) (
                  match n_parent p with Some up => removeWeightOf up newParentID | None => nilDereference end;;
                  match oldParent with Some o => addWeightOf o newParentID | None => mret tt end));;
              changeNode newParentID (fun p => p <| n_parent := oldParent |>));;
            withNode at_ (fun n =>
              match n_parent n with Some up => moveUp fuel' up childID newParentID oldParent | None => nilDereference end)
        end)
  end.

(** The loop over the children of the new parent: it goes over the array [arr] the slice started with,
    at the front of which removing a child moves the ones that are left. *)
Fixpoint takeOver (n : nat) (i : nat) (arr : list Z) (childID newParentID : Z) : M unit :=
  match n with
  | O => mret tt
  | S n' =>
      match arr !! i with
      | None => crash "index out of range"
      | Some c =>
          if c =? newParentID then takeOver n' (S i) arr childID newParentID
          else
            withNode c (fun cn => when (counts cn) (addWeightOf childID c;; removeWeightOf newParentID c));;
            changeNode c (fun cn => cn <| n_parent := Some childID |>);;
            withNode newParentID (fun p =>
              takeOver n' (S i) (children p ++ drop (length (children p)) arr) childID newParentID)
      end
  end.

Definition maybeSetParent (childID parentID : Z) (exclusive : bool) : M unit :=
  if childID =? parentID then raise (errOwnParent childID)
  else if childID =? 1 then raise errParentOfCrypto
  else if childID =? 3 then raise errParentOfHeader
  else if parentID =? 1 then raise errParentCrypto
  else
    let parentID := if parentID =? 3 then 0 else parentID in
    t ← get;
    match nodeMap t childID with
    | None => raise (errUnknownChild childID parentID)
    | Some child =>
        if negb exclusive && bool_decide (n_parent child = Some parentID) then mret tt
        else
          match nodeMap t parentID with
          | None => raise (errUnknownParent childID parentID)
          | Some newParent =>
              let oldParent := n_parent child in
              match n_parent newParent with
              | Some up => moveUp (depth t) up childID parentID oldParent
              | None => nilDereference
              end;;
              withNode childID (fun child =>
                match n_parent child with
                | Some parent =>
                    when (counts child) (removeWeightOf parent childID);;
                    changeNode childID (fun child => child <| n_parent := None |>)
                | None => mret tt
                end);;
              when exclusive (
                withNode parentID (fun p => takeOver (length (children p)) 0 (children p) childID parentID));;
              changeNode childID (fun child => child <| n_parent := Some parentID |>);;
              withNode childID (fun child => when (counts child) (addWeightOf parentID childID))
          end
    end.

Definition setActive (id : Z) : M unit :=
  if (id =? 1) || (id =? 3) then mret tt
  else
    t ← get;
    match nodeMap t id with
    | None => raise (errUnknownActive id)
    | Some n =>
        changeNode id (fun n => n <| n_state := nodeActive |>);;
        match n_parent n with Some parent => addWeightOf parent id | None => nilDereference end;;
        update (fun t => t <| tree_openStreams := tree_openStreams t + 1 |>)
    end.

(** [n.nextChild = (n.nextChild + 1) % uint16(len(n.children))], if the node has children *)
Definition advance (n : node) : node :=
  match children n with
  | [] => n
  | l => n <| nextChild := u16 (nextChild n + 1) `mod` divisor l |>
  end.
Definition advanceNext (id : Z) : M unit :=
  withNode id (fun n =>
    if bool_decide (children n <> []) && (divisor (children n) =? 0) then crash "integer divide by zero"
    else update (setNode (advance n))).

(** *** Traversal *)
Section Traverse.
Context (fin checked : Z -> bool).

(** [for i := 0; i < len(n.children); i++]: [rec] is the traversal of a child. *)
Fixpoint overChildren (rec : Z -> M (list Z)) (n : nat) (i : Z) (id : Z) : M (list Z) :=
  match n with
  | O => mret []
  | S n' =>
      withNode id (fun nd =>
        if i <? Z.of_nat (length (children nd)) then
          match children nd !! Z.to_nat (nextChild nd) with
          | None => crash "index out of range"
          | Some c =>
              found ← rec c;
              rest ← overChildren rec n' (i + 1) id;
              mret (found ++ rest)
          end
        else mret [])
  end.

(** The node itself, when its stream has to be put on a path, or what is below it. *)
Definition gather (rec : Z -> M (list Z)) (id : Z) : M (list Z) :=
  withNode id (fun n =>
    if negb (visited n) && n_stream n then mret (if bool_decide (n_state n = nodeActive) then [id] else [])
    else if (0 <? activeChildren n) && (negb (n_stream n) || (fin id || (id =? 1) || (id =? 3)))
    then overChildren rec (length (children n)) 0 id else mret []).

Fixpoint traverse (fuel : nat) (id : Z) : M (list Z) :=
  match fuel with
  | O => crash "stack overflow"
  | S fuel' =>
      withNode id (fun n => when (n_stream n && fin id) (
        update (fun t => t <| tree_openStreams := tree_openStreams t - 1 |>);; deactivateNode id));;
      withNode id (fun n => when (n_stream n && checked id) (changeNode id (fun n => n <| visited := true |>)));;
      strm ← gather (traverse fuel') id;
      withNode id (fun n =>
        match n_parent n with Some parent => advanceNext parent | None => mret tt end);;
      mret strm
  end.

(** [schedule]: the streams that may be put on a path. *)
Definition schedule : M (list Z) := t ← get; traverse (depth t) rootID.
End Traverse.

(** *** Printing

    The levels of the nodes below a node; [rec] prints a child. *)
Fixpoint printChildren (rec : Z -> gmap Z Z -> M (gmap Z Z)) (n : nat) (i : Z) (id : Z) (res : gmap Z Z) : M (gmap Z Z) :=
  match n with
  | O => mret res
  | S n' =>
      withNode id (fun nd =>
        if i <? Z.of_nat (length (children nd)) then
          match children nd !! Z.to_nat (nextChild nd) with
          | None => crash "index out of range"
          | Some c =>
              res ← rec c res;
              advanceNext id;;
              printChildren rec n' (i + 1) id res
          end
        else mret res)
  end.

Fixpoint printNode (fuel : nat) (level id : Z) (res : gmap Z Z) : M (gmap Z Z) :=
  match fuel with
  | O => crash "stack overflow"
  | S fuel' =>
      withNode id (fun n =>
        let res := if n_stream n then <[id := level]> res else res in
        if 0 <? activeChildren n then printChildren (printNode fuel' (u32 (level + 1))) (length (children n)) 0 id res
        else mret res)
  end.

(** [printTree]: the levels that are logged. *)
Definition printTree : M (gmap Z Z) := t ← get; printNode (depth t) 0 rootID ∅.
End Tree.

(** ** Nodes of a tree

    Whatever the dependencies are, the root stays where it is: it has no parent and is nobody's child.  A
    node counts its children, which are nodes of the tree, and its index of the next child is in range.
    [D] are the nodes, [R c p] is what is known of a child [c] of [p]. *)
Record node_ok (D : gset Z) (R : Z -> Z -> Prop) (id : Z) (n : node) : Prop := {
  no_id : n_id n = id;
  no_root : rootID ∉ children n;
  no_top : id = rootID -> n_parent n = None;
  no_children : forall c, c ∈ children n -> c ∈ D /\ R c id;
  no_parent : forall p, n_parent n = Some p -> R id p;
  no_active : activeChildren n = Tree.divisor (children n);
  no_next : 0 <= nextChild n < Z.max 1 (Z.of_nat (length (children n)))
}.

Record rooted_in (D : gset Z) (R : Z -> Z -> Prop) (t : streamTree) : Prop := {
  ro_nodes : map_Forall (node_ok D R) (nodes t);
  ro_dom : dom (nodes t) = D;
  ro_root : rootID ∈ D
}.

Definition rooted (t : streamTree) : Prop := rooted_in (dom (nodes t)) (fun _ _ => True) t.

(** Streams depend on streams with a smaller ID only. *)
Definition ordered (t : streamTree) : Prop := rooted_in (dom (nodes t)) (fun c p => p < c) t.

Lemma node_ok_mono D D' (R R' : Z -> Z -> Prop) id n :
  D ⊆ D' -> (forall c p, R c p -> R' c p) -> node_ok D R id n -> node_ok D' R' id n.
Proof. intros HD HR [H1 H2 H3 H4 H5 H6 H7]. split; try done; [|by eauto]. intros c [? ?]%H4. split; [set_solver|auto]. Qed.

Lemma ordered_rooted t : ordered t -> rooted t.
Proof.
  intros [H1 H2 H3]. split; [|done..]. eapply map_Forall_impl; [exact H1|]. intros id n. by apply node_ok_mono.
Qed.

Lemma rooted_new_in R : rooted_in {[rootID]} R newStreamTree.
Proof.
  split; [|apply dom_singleton_L|set_solver]. apply map_Forall_singleton. split; try done; cbn; set_solver by lia.
Qed.

(** Calls that keep the set of nodes. *)
Lemma rooted_always R {A} (m : Call streamTree A) :
  (forall D, always (rooted_in D R) m) -> always (fun t => rooted_in (dom (nodes t)) R t) m.
Proof. intros Hm t Ht. pose proof (Hm _ t Ht) as H. by rewrite (ro_dom _ _ _ H). Qed.

Lemma divisor_app l x : u16 (Tree.divisor l + 1) = Tree.divisor (l ++ [x]).
Proof.
  unfold Tree.divisor, uN. rewrite Z.add_mod_idemp_l by done. rewrite length_app. f_equal. cbn. lia.
Qed.

Lemma divisor_range l : 0 <= Tree.divisor l <= Z.of_nat (length l) /\ Tree.divisor l < 2 ^ 16.
Proof.
  unfold Tree.divisor, uN. pose proof (Z.mod_pos_bound (Z.of_nat (length l)) (2 ^ 16)). split; [|lia]. split; [lia|].
  apply Z.mod_le; lia.
Qed.

Lemma removeAt_sub i l (x : Z) : x ∈ Tree.removeAt i l -> x ∈ l.
Proof.
  unfold Tree.removeAt. rewrite <- (take_drop i l) at 3. intros [H|H]%elem_of_app; apply elem_of_app; [by left|right].
  replace (S i) with (i + 1)%nat in H by lia. rewrite <- drop_drop in H. by eapply subseteq_drop.
Qed.

Lemma childIndex_lt x l : l <> [] -> (default O (Tree.childIndex x l) < length l)%nat.
Proof.
  assert (H : forall i, Tree.childIndex x l = Some i -> (i < length l)%nat).
  { induction l as [|y l IH]; [done|]. intros i. cbn. destruct (y =? x); [intros [= <-]; lia|].
    destruct (Tree.childIndex x l) as [j|]; [|done]. intros [= <-]. specialize (IH j eq_refl). lia. }
  intros Hne. destruct (Tree.childIndex x l) as [i|]; cbn; [by apply H|]. destruct l; [done|cbn; lia].
Qed.

Lemma withoutChild_children n child w :
  children n <> [] ->
  S (length (children (Tree.withoutChild n child w))) = length (children n) /\
  forall c, c ∈ children (Tree.withoutChild n child w) -> c ∈ children n.
Proof.
  intros Hne. split; [|intros c; apply removeAt_sub]. cbn. pose proof (childIndex_lt child _ Hne). unfold Tree.removeAt.
  rewrite length_app, length_take, length_drop. lia.
Qed.

Section Rooted.
Context (D : gset Z) (R : Z -> Z -> Prop).
Notation ok := (rooted_in D R).
Notation okn := (node_ok D R).

Lemma rooted_set n t : n_id n ∈ D -> okn (n_id n) n -> ok t -> ok (Tree.setNode n t).
Proof. intros Hd Hn [H1 H2 H3]. split; cbn; [by apply map_Forall_insert_2|rewrite dom_insert_L; set_solver|done]. Qed.

Lemma rooted_with {A} id (k : node -> Call streamTree A) :
  (forall n, id ∈ D -> okn id n -> always ok (k n)) -> always ok (Tree.withNode id k).
Proof.
  intros Hk t Ht. unfold Tree.withNode, mbind, call_bind, get. destruct (nodes t !! id) as [n|] eqn:E; [|done].
  apply Hk; [|by apply (ro_nodes _ _ _ Ht)|done]. rewrite <- (ro_dom _ _ _ Ht). by apply elem_of_dom_2 in E.
Qed.

Lemma rooted_update n id : id ∈ D -> okn id n -> always ok (update (Tree.setNode n)).
Proof. intros Hid Hn t Ht. apply rooted_set; [..|done]; by rewrite (no_id _ _ _ _ Hn). Qed.

Lemma rooted_change id f : (forall n, okn id n -> okn id (f n)) -> always ok (Tree.changeNode id f).
Proof. intros Hf. apply rooted_with. intros n Hid Hn. apply (rooted_update _ id); auto. Qed.

(** The fields that say nothing about the tree change. *)
Lemma node_ok_same id n n' :
  okn id n -> n_id n' = n_id n -> n_parent n' = n_parent n -> children n' = children n ->
  activeChildren n' = activeChildren n -> nextChild n' = nextChild n -> okn id n'.
Proof. intros [H1 H2 H3 H4 H5 H6 H7] E1 E2 E3 E4 E5. by split; rewrite ?E1, ?E2, ?E3, ?E4, ?E5. Qed.

Lemma rooted_addWeight fuel : forall id child, child <> rootID -> R child id -> always ok (Tree.addWeight fuel id child).
Proof.
  induction fuel as [|fuel IH]; intros id child Hc HR; cbn [Tree.addWeight]; [apply (within_lift _)|].
  apply rooted_with. intros c Hcd _. apply (within_bind _).
  - apply rooted_change. intros n [H1 H2 H3 H4 H5 H6 H7]. split; try done; cbn.
    + set_solver.
    + intros x [Hx| ->%list_elem_of_singleton]%elem_of_app; [by apply H4|done].
    + rewrite H6. apply divisor_app.
    + rewrite length_app. cbn. lia.
  - intros []. apply rooted_with. intros n _ [_ _ Htop _ Hpar _ _]. destruct (n_parent n) as [up|] eqn:E; [|apply (within_ret _)].
    apply (within_when _). intros _. apply IH; [|by apply Hpar]. intros ->. by specialize (Htop eq_refl).
Qed.

Lemma node_ok_without id n child w :
  okn id n -> children n <> [] -> let n' := Tree.withoutChild n child w in
  bool_decide (children n' <> []) && (Tree.divisor (children n') =? 0) = false -> okn id n'.
Proof.
  intros [H1 H2 H3 H4 H5 H6 H7] Hne n' Hdiv. destruct (withoutChild_children n child w Hne) as [Hlen Hsub].
  fold n' in Hlen, Hsub. split; try done; auto.
  - change (activeChildren n') with (u16 (activeChildren n - 1)). rewrite H6. unfold Tree.divisor, uN.
    rewrite Zminus_mod_idemp_l. f_equal. lia.
  - assert (En : nextChild n' = match children n' with [] => 0 | _ => nextChild n `mod` Tree.divisor (children n') end)
      by done. rewrite En. pose proof (divisor_range (children n')) as [Hr _]. destruct (children n') as [|x l] eqn:El; [cbn; lia|].
    rewrite bool_decide_eq_true_2 in Hdiv by done. cbn [andb] in Hdiv. apply Z.eqb_neq in Hdiv.
    pose proof (Z.mod_pos_bound (nextChild n) (Tree.divisor (x :: l)) ltac:(lia)). lia.
Qed.

Lemma rooted_removeWeight fuel : forall id child, always ok (Tree.removeWeight fuel id child).
Proof.
  induction fuel as [|fuel IH]; intros id child; cbn [Tree.removeWeight]; [apply (within_lift _)|].
  apply rooted_with. intros c _ _. apply rooted_with. intros n Hid Hn.
  destruct (children n) as [|x l] eqn:E; [apply (within_lift _)|].
  destruct (bool_decide _ && _) eqn:Ediv; [apply (within_lift _)|]. apply (within_bind _).
  - apply (rooted_update _ id); [done|]. apply node_ok_without; [done|by rewrite E|done].
  - intros []. apply rooted_with. intros n' _ _. destruct (n_parent n'); [|apply (within_ret _)].
    apply (within_when _). auto.
Qed.

Lemma rooted_addWeightOf id child : child <> rootID -> R child id -> always ok (Tree.addWeightOf id child).
Proof. intros Hc HR t. by apply rooted_addWeight. Qed.

Lemma rooted_removeWeightOf id child : always ok (Tree.removeWeightOf id child).
Proof. intros t. apply rooted_removeWeight. Qed.

(** The parent of a node that is not the root changes. *)
Lemma node_ok_parent id n up : id <> rootID -> (forall p, up = Some p -> R id p) -> okn id n -> okn id (n <| n_parent := up |>).
Proof. intros Hid Hup [H1 H2 H3 H4 H5 H6 H7]. by split. Qed.

#[local] Hint Resolve rooted_addWeightOf rooted_removeWeightOf node_ok_parent : within.
#[local] Hint Extern 1 (node_ok _ _ _ _) => eapply node_ok_same; [eassumption|done..] : within.

Lemma rooted_maybeSetWeight id weight : always ok (Tree.maybeSetWeight id weight).
Proof.
  unfold Tree.maybeSetWeight. destruct (_ || _); [apply (within_ret _)|]. apply (within_get _). intros t.
  destruct (Tree.nodeMap t id); [|by apply (within_lift _)]. destruct (_ =? _); [by apply (within_ret _)|].
  apply (within_bind _).
  - apply (within_when _). intros _. destruct (n_parent _); [|apply (within_lift _)]. apply rooted_change. auto with within.
  - intros []. apply rooted_change. auto with within.
Qed.

Lemma nodeMap_root t id n : Tree.nodeMap t id = Some n -> id <> rootID.
Proof. unfold Tree.nodeMap. by destruct (Z.eqb_spec id rootID). Qed.

Lemma nodeMap_ok t id n : ok t -> Tree.nodeMap t id = Some n -> okn id n.
Proof. intros Ht. unfold Tree.nodeMap. destruct (id =? rootID); [done|]. apply (ro_nodes _ _ _ Ht). Qed.

Lemma rooted_setActive id : always ok (Tree.setActive id).
Proof.
  unfold Tree.setActive. destruct (_ || _); [apply (within_ret _)|]. apply (within_get _). intros t Ht.
  destruct (Tree.nodeMap t id) as [n|] eqn:E; [|done]. pose proof (nodeMap_ok t id n Ht E) as Hn.
  apply nodeMap_root in E. match goal with |- ok (?m t).1 => cut (always ok m); [intros H; by apply H|] end.
  apply (within_bind _).
  - apply rooted_change. auto with within.
  - intros []. apply (within_bind _).
    + destruct (n_parent n) eqn:Ep; [|apply (within_lift _)]. apply rooted_addWeightOf; [done|by apply (no_parent _ _ _ _ Hn)].
    + intros [] t' []. by split.
Qed.

Lemma rooted_deactivate id : always ok (Tree.deactivateNode id).
Proof.
  apply (within_bind _); [apply rooted_change; auto with within|]. intros []. apply rooted_with. intros n _ _.
  destruct (n_parent n); auto with within. apply (within_when _). auto with within.
Qed.

Lemma rooted_advanceNext id : always ok (Tree.advanceNext id).
Proof.
  apply rooted_with. intros n Hid Hn. destruct (bool_decide _ && _) eqn:Ediv; [apply (within_lift _)|].
  apply (rooted_update _ id); [done|]. pose proof Hn as [H1 H2 H3 H4 H5 H6 H7]. unfold Tree.advance.
  destruct (children n) as [|x l] eqn:E; [done|]. rewrite bool_decide_eq_true_2 in Ediv by done. apply Z.eqb_neq in Ediv.
  pose proof (divisor_range (x :: l)) as [Hr _].
  split; cbn; rewrite ?E; try done.
  pose proof (Z.mod_pos_bound (u16 (nextChild n + 1)) (Tree.divisor (x :: l)) ltac:(lia)). lia.
Qed.

Lemma rooted_overChildren rec id : (forall c, always ok (rec c)) -> forall n i, always ok (Tree.overChildren rec n i id).
Proof.
  intros Hrec. induction n as [|n IH]; intros i; cbn [Tree.overChildren]; [apply (within_ret _)|].
  apply rooted_with. intros nd _ _. destruct (_ <? _); [|apply (within_ret _)]. destruct (_ !! _); [|apply (within_lift _)].
  apply (within_bind _); [auto|]. intros found. apply (within_bind _); [auto|]. intros rest. apply (within_ret _).
Qed.

Lemma rooted_schedule fin checked : always ok (Tree.schedule fin checked).
Proof.
  apply (within_get _). intros t. generalize (Tree.depth t) rootID. intros fuel id. revert t.
  change (always ok (Tree.traverse fin checked fuel id)). revert id.
  induction fuel as [|fuel IH]; intros id; cbn [Tree.traverse]; [apply (within_lift _)|].
  apply (within_bind _).
  { apply rooted_with. intros n _ _. apply (within_when _). intros _. apply (within_bind _); [by intros ? []|].
    intros []. apply rooted_deactivate. }
  intros []. apply (within_bind _).
  { apply rooted_with. intros n _ _. apply (within_when _). intros _. apply rooted_change. auto with within. }
  intros []. apply (within_bind _).
  { apply rooted_with. intros n _ _. destruct (_ && _); [apply (within_ret _)|].
    destruct (_ && _); [by apply rooted_overChildren|apply (within_ret _)]. }
  intros strm. apply (within_bind _); [|intros []; apply (within_ret _)]. apply rooted_with. intros n _ _.
  destruct (n_parent n); [|apply (within_ret _)]. apply rooted_advanceNext.
Qed.
End Rooted.

(** A new node. *)
Lemma addNode_in D R id t :
  id <> rootID -> R id rootID -> rooted_in D R t ->
  exists t', Tree.addNode id t = (t', Ret tt) /\ rooted_in ({[id]} ∪ D) R t'.
Proof.
  intros Hid HR [H1 H2 H3]. assert (Hroot : is_Some (nodes t !! rootID)) by (apply elem_of_dom; by rewrite H2).
  destruct Hroot as [r Hr]. pose proof (H1 rootID r Hr) as Hrok. pose proof (no_top _ _ _ _ Hrok eq_refl) as Hp.
  set (t1 := Tree.setNode (newNode id true (Some rootID)) t).
  assert (Ht1 : rooted_in ({[id]} ∪ D) R t1).
  { split; cbn; [|by rewrite dom_insert_L, H2|set_solver]. apply map_Forall_insert_2.
    - split; try done; cbn; [set_solver|intros c Hc; set_solver|by intros p [= <-]].
    - eapply map_Forall_impl; [exact H1|]. intros x n. apply node_ok_mono; [set_solver|done]. }
  pose proof (rooted_addWeightOf ({[id]} ∪ D) R rootID id Hid HR t1 Ht1) as Hok. revert Hok.
  unfold Tree.addNode. rewrite (call_bind_ret (update (Tree.setNode (newNode id true (Some rootID)))) _ t t1 tt eq_refl).
  unfold Tree.addWeightOf, mbind, call_bind, get, Tree.depth. cbn [Tree.addWeight].
  unfold Tree.withNode, Tree.changeNode, Tree.withNode, mbind, call_bind, get, update. cbn.
  rewrite lookup_insert_eq. cbn. rewrite lookup_insert_ne, Hr by done. cbn.
  rewrite (no_id _ _ _ _ Hrok), lookup_insert_eq. cbn. rewrite Hp. eauto.
Qed.

Lemma rooted_new : rooted newStreamTree.
Proof. unfold rooted. cbn [nodes newStreamTree]. rewrite dom_singleton_L. apply rooted_new_in. Qed.
Lemma ordered_new : ordered newStreamTree.
Proof. unfold ordered. cbn [nodes newStreamTree]. rewrite dom_singleton_L. apply rooted_new_in. Qed.

Lemma addNode_rooted id t : id <> rootID -> rooted t -> exists t', Tree.addNode id t = (t', Ret tt) /\ rooted t'.
Proof.
  intros Hid Ht. destruct (addNode_in _ _ id t Hid I Ht) as (t' & E & Ht'). exists t'. split; [done|].
  unfold rooted. by rewrite (ro_dom _ _ _ Ht').
Qed.
Lemma addNode_ordered id t : rootID < id -> ordered t -> exists t', Tree.addNode id t = (t', Ret tt) /\ ordered t'.
Proof.
  intros Hid Ht. destruct (addNode_in _ _ id t ltac:(unfold rootID in *; lia) Hid Ht) as (t' & E & Ht'). exists t'.
  split; [done|]. unfold ordered. by rewrite (ro_dom _ _ _ Ht').
Qed.

(** Any dependency. *)
Section AnyParent.
Context (D : gset Z).
Notation ok := (rooted_in D (fun _ _ => True)).

#[local] Hint Resolve rooted_addWeightOf rooted_removeWeightOf node_ok_parent : within.

Lemma rooted_moveUp fuel child newParent old : newParent <> rootID -> forall at_,
  always ok (Tree.moveUp fuel at_ child newParent old).
Proof.
  intros Hp. induction fuel as [|fuel IH]; intros at_; cbn [Tree.moveUp]; [apply (within_lift _)|].
  apply rooted_with. intros n _ _. destruct (n_parent n); [|apply (within_ret _)]. apply (within_bind _).
  - apply (within_when _). intros _. apply (within_bind _); [|intros []; apply rooted_change; auto with within].
    apply rooted_with. intros p _ _. apply (within_when _). intros _. apply (within_bind _).
    + destruct (n_parent p); auto with within.
    + intros []. destruct old; auto with within.
  - intros []. apply rooted_with. intros n' _ _. destruct (n_parent n'); auto with within.
Qed.

Lemma rooted_takeOver child newParent : child <> rootID -> forall n i arr,
  rootID ∉ arr -> always ok (Tree.takeOver n i arr child newParent).
Proof.
  intros Hc. induction n as [|n IH]; intros i arr Harr; cbn [Tree.takeOver]; [apply (within_ret _)|].
  destruct (arr !! i) as [c|] eqn:E; [|apply (within_lift _)]. destruct (c =? newParent); [by apply IH|].
  assert (Hroot : c <> rootID). { intros ->. apply Harr. by eapply list_elem_of_lookup_2. }
  apply (within_bind _).
  - apply rooted_with. intros cn _ _. apply (within_when _). intros _. apply (within_bind _); auto with within.
  - intros []. apply (within_bind _); [apply rooted_change; auto with within|]. intros [].
    apply rooted_with. intros p _ Hp. apply IH. intros [H|H%subseteq_drop]%elem_of_app; [|done].
    by apply (no_root _ _ _ _ Hp).
Qed.

Lemma rooted_setParent child parent exclusive : always ok (Tree.maybeSetParent child parent exclusive).
Proof.
  unfold Tree.maybeSetParent. do 4 (destruct (_ =? _); [apply (within_lift _)|]).
  generalize (if parent =? 3 then 0 else parent). intros parent'. apply (within_get _). intros t.
  destruct (Tree.nodeMap t child) as [c|] eqn:Ec; [|by apply (within_lift _)]. destruct (_ && _); [by apply (within_ret _)|].
  destruct (Tree.nodeMap t parent') as [np|] eqn:Ep; [|by apply (within_lift _)].
  apply nodeMap_root in Ec, Ep. revert t.
  assert (always ok (Tree.changeNode child (fun n => n <| n_parent := None |>))) by (apply rooted_change; auto with within).
  intros t. apply (within_bind _).
  { destruct (n_parent np); [by apply rooted_moveUp|apply (within_lift _)]. }
  intros []. apply (within_bind _).
  { apply rooted_with. intros n _ _. destruct (n_parent n); [|apply (within_ret _)].
    apply (within_bind _); [|done]. apply (within_when _). auto with within. }
  intros []. apply (within_bind _).
  { apply (within_when _). intros _. apply rooted_with. intros p _ Hp. apply rooted_takeOver; [done|apply (no_root _ _ _ _ Hp)]. }
  intros []. apply (within_bind _); [apply rooted_change; auto with within|].
  intros []. apply rooted_with. intros n _ _. apply (within_when _). auto with within.
Qed.
End AnyParent.

Lemma rooted_maybeSetParent child parent exclusive : always rooted (Tree.maybeSetParent child parent exclusive).
Proof. apply rooted_always. intros D. apply rooted_setParent. Qed.

Lemma withNode_eq {A} t id n (k : node -> Call streamTree A) : nodes t !! id = Some n -> Tree.withNode id k t = k n t.
Proof. intros Hn. unfold Tree.withNode, mbind, call_bind, get. by rewrite Hn. Qed.

(** A dependency on the root or on a stream that cannot have dependent ones changes nothing. *)
Lemma setParent_plain child parent exclusive t :
  parent = 0 \/ parent = 1 \/ parent = 3 -> (Tree.maybeSetParent child parent exclusive t).1 = t.
Proof.
  intros Hp. unfold Tree.maybeSetParent. do 3 (destruct (_ =? _); [done|]).
  destruct (Z.eqb_spec parent 1) as [|Hne]; [done|].
  assert ((if parent =? 3 then 0 else parent) = rootID) as -> by (by destruct Hp as [-> | [-> | ->]]). cbv zeta.
  rewrite (call_bind_ret get _ t t t eq_refl). destruct (Tree.nodeMap t child); [|done]. by destruct (_ && _).
Qed.

(** A dependency that keeps a tree ordered. *)
Definition forward (id : Z) (p : Priority) : Prop :=
  Dependency p = 0 \/ Dependency p = 1 \/ Dependency p = 3 \/ (Exclusive p = false /\ Dependency p < id).

Section Ordered.
Context (D : gset Z).
Notation ok := (rooted_in D (fun c p => p < c)).

Lemma moveUp_reads child newParent old fuel : forall at_ t,
  ok t -> at_ < child -> (Tree.moveUp fuel at_ child newParent old t).1 = t.
Proof.
  induction fuel as [|fuel IH]; intros at_ t Ht Hat; cbn [Tree.moveUp]; [done|].
  destruct (nodes t !! at_) as [n|] eqn:E; [|unfold Tree.withNode, mbind, call_bind, get; by rewrite E].
  rewrite (withNode_eq t at_ n) by done. destruct (n_parent n) as [up|] eqn:Ep; [|done].
  rewrite (proj2 (Z.eqb_neq at_ child)) by lia. rewrite (call_bind_ret _ _ t t tt eq_refl), (withNode_eq t at_ n) by done.
  rewrite Ep. apply IH; [done|]. pose proof (no_parent _ _ _ _ (ro_nodes _ _ _ Ht _ _ E) up Ep). cbn in *. lia.
Qed.

Lemma ordered_setParent child parent : parent < child -> always ok (Tree.maybeSetParent child parent false).
Proof.
  intros Hlt. unfold Tree.maybeSetParent. do 4 (destruct (_ =? _); [apply (within_lift _)|]).
  destruct (Z.eqb_spec parent 3) as [->|_].
  { apply (within_get _). intros t Ht. destruct (Tree.nodeMap t child); [|done]. by destruct (_ && _). }
  apply (within_get _). intros t Ht.
  destruct (Tree.nodeMap t child) as [c|] eqn:Ec; [|done]. destruct (_ && _); [done|].
  destruct (Tree.nodeMap t parent) as [np|] eqn:Ep; [|done].
  pose proof (nodeMap_ok D _ t parent np Ht Ep) as Hnp. apply nodeMap_root in Ec.
  apply (within_bind_post (stays ok)); [|intros t' [] _|done].
  { destruct (n_parent np) as [up|] eqn:Eup; [|done]. pose proof (no_parent _ _ _ _ Hnp up Eup) as Hup.
    intros Ht'. cbv beta in Hup. rewrite moveUp_reads; [done..|]. lia. }
  revert t'. cbn [when]. apply (within_bind _).
  { apply rooted_with. intros n _ _. destruct (n_parent n); [|apply (within_ret _)].
    apply (within_bind _); [apply (within_when _); intros _; apply rooted_removeWeightOf|].
    intros []. apply rooted_change. intros m. by apply node_ok_parent. }
  intros []. apply (within_bind _); [apply (within_ret _)|]. intros []. apply (within_bind _).
  { apply rooted_change. intros m. apply node_ok_parent; [done|]. by intros p [= <-]. }
  intros []. apply rooted_with. intros n _ _. apply (within_when _). intros _. by apply rooted_addWeightOf.
Qed.
End Ordered.

Lemma ordered_maybeSetParent child (p : Priority) :
  forward child p -> always ordered (Tree.maybeSetParent child (Dependency p) (Exclusive p)).
Proof.
  intros Hp. assert (Hc : (Dependency p = 0 \/ Dependency p = 1 \/ Dependency p = 3) \/ (Exclusive p = false /\ Dependency p < child))
    by (unfold forward in Hp; tauto).
  destruct Hc as [Hc|[-> Hlt]]; [intros t Ht; by rewrite setParent_plain|].
  apply rooted_always. intros D. by apply ordered_setParent.
Qed.

Lemma ordered_maybeSetWeight id weight : always ordered (Tree.maybeSetWeight id weight).
Proof. apply rooted_always. intros D. apply rooted_maybeSetWeight. Qed.
Lemma ordered_setActive id : always ordered (Tree.setActive id).
Proof. apply rooted_always. intros D. apply rooted_setActive. Qed.
Lemma ordered_schedule fin checked : always ordered (Tree.schedule fin checked).
Proof. apply rooted_always. intros D. apply rooted_schedule. Qed.

(** ** Printing

    Only the indices of the next children change. *)
Definition turned (n n' : node) : Prop := n' = n <| nextChild := nextChild n' |>.
Definition printed (t t' : streamTree) : Prop :=
  tree_openStreams t' = tree_openStreams t /\ forall id, option_Forall2 turned (nodes t !! id) (nodes t' !! id).

Lemma turned_trans n1 n2 n3 : turned n1 n2 -> turned n2 n3 -> turned n1 n3.
Proof. unfold turned. intros H1 H2. rewrite H2 at 1. by rewrite H1 at 1. Qed.

Lemma printed_refl t : printed t t.
Proof. split; [done|]. intros id. destruct (nodes t !! id) as [[]|]; by constructor. Qed.

Lemma printed_trans t1 t2 t3 : printed t1 t2 -> printed t2 t3 -> printed t1 t3.
Proof.
  intros [E1 H1] [E2 H2]. split; [congruence|]. intros id. specialize (H1 id). specialize (H2 id).
  destruct (nodes t1 !! id) as [x|], (nodes t2 !! id) as [y|], (nodes t3 !! id) as [z|]; inversion H1; inversion H2; subst;
    constructor. by eapply turned_trans.
Qed.

Lemma printed_node t t' id n :
  printed t t' -> nodes t !! id = Some n -> exists n', nodes t' !! id = Some n' /\ turned n n'.
Proof. intros [_ H] E. specialize (H id). rewrite E in H. inversion H; subst; eauto. Qed.

Section Print.
Context (D : gset Z) (R : Z -> Z -> Prop).
Notation ok := (rooted_in D R).

Definition prints (t t' : streamTree) : Prop := ok t -> ok t' /\ printed t t'.

#[local] Instance prints_preorder : PreOrder prints.
Proof.
  split; [intros t Ht; split; [done|apply printed_refl]|]. intros t1 t2 t3 H1 H2 Ht.
  destruct (H1 Ht) as [Ht2 P1]. destruct (H2 Ht2) as [Ht3 P2]. split; [done|]. by eapply printed_trans.
Qed.

Lemma prints_with {A} id (k : node -> Call streamTree A) :
  (forall n, within prints (k n)) -> within prints (Tree.withNode id k).
Proof.
  intros Hk t. unfold Tree.withNode, mbind, call_bind, get. destruct (nodes t !! id); [apply Hk|]. by apply (within_nil _).
Qed.

Lemma prints_advance id : within prints (Tree.advanceNext id).
Proof.
  intros t Ht. pose proof (rooted_advanceNext D R id t Ht) as Hok. split; [done|]. unfold Tree.advanceNext.
  destruct (nodes t !! id) as [n|] eqn:E; [|unfold Tree.withNode, mbind, call_bind, get; rewrite E; apply printed_refl].
  rewrite (withNode_eq t id n) by done. destruct (_ && _); [apply printed_refl|].
  assert (Hn : turned n (Tree.advance n) /\ n_id (Tree.advance n) = id).
  { pose proof (no_id _ _ _ _ (ro_nodes _ _ _ Ht _ _ E)) as Hid. unfold Tree.advance. destruct (children n); [|done].
    split; [by destruct n|done]. }
  destruct Hn as [Hn Hid]. split; [done|]. intros x. cbn. rewrite Hid. destruct (decide (id = x)) as [<-|Hne].
  - rewrite E, lookup_insert_eq. by constructor.
  - rewrite lookup_insert_ne by done. apply printed_refl.
Qed.

Lemma prints_children rec id : (forall c res, within prints (rec c res)) -> forall n i res,
  within prints (Tree.printChildren rec n i id res).
Proof.
  intros Hrec. induction n as [|n IH]; intros i res; cbn [Tree.printChildren]; [apply (within_ret _)|].
  apply prints_with. intros nd. destruct (_ <? _); [|apply (within_ret _)]. destruct (_ !! _); [|apply (within_crash _)].
  apply (within_bind _); [auto|]. intros res'. apply (within_bind _); [apply prints_advance|auto].
Qed.

Lemma prints_node fuel : forall level id res, within prints (Tree.printNode fuel level id res).
Proof.
  induction fuel as [|fuel IH]; intros level id res; cbn [Tree.printNode]; [apply (within_crash _)|].
  apply prints_with. intros n. destruct (_ <? _); [|apply (within_ret _)]. by apply prints_children.
Qed.

(** The child that is printed next, and the step to the one after it. *)
Lemma next_child t id n :
  ok t -> nodes t !! id = Some n -> 0 < activeChildren n ->
  exists c, children n !! Z.to_nat (nextChild n) = Some c /\ c ∈ D /\ R c id /\
    forall t', ok t' -> printed t t' -> (Tree.advanceNext id t').2 = Ret tt.
Proof.
  intros Ht E Ha. pose proof (ro_nodes _ _ _ Ht _ _ E) as [H1 H2 H3 H4 H5 H6 H7].
  pose proof (divisor_range (children n)) as [Hd _]. destruct (lookup_lt_is_Some_2 (children n) (Z.to_nat (nextChild n))) as [c Hc];
    [lia|]. exists c. split; [done|]. destruct (H4 c) as [Hcd HR]; [by eapply list_elem_of_lookup_2|]. do 2 (split; [done|]).
  intros t' Ht' Hp. destruct (printed_node t t' id n Hp E) as (n' & E' & Hn'). unfold Tree.advanceNext.
  rewrite (withNode_eq t' id n') by done. assert (children n' = children n) as -> by (by rewrite Hn').
  rewrite (proj2 (Z.eqb_neq (Tree.divisor (children n)) 0)) by lia. by rewrite andb_false_r.
Qed.
End Print.

(** In an ordered tree, printing ends: a child has fewer nodes with a larger ID than its parent has. *)
Section PrintOrdered.
Context (D : gset Z).
Notation R := (fun c p => p < c).
Notation ok := (rooted_in D R).

Definition above (id : Z) : nat := size (filter (fun x => id < x) D).

Lemma above_child c id : c ∈ D -> id < c -> (above c < above id)%nat.
Proof.
  intros Hc Hlt. unfold above. apply (subset_size (C := gset Z)). apply strict_spec. split.
  - intros x [? ?]%elem_of_filter. apply elem_of_filter. split; [lia|done].
  - intros Hsub. assert (Hin : c ∈ filter (fun x => id < x) D) by (by apply elem_of_filter).
    apply Hsub, elem_of_filter in Hin as [? _]. lia.
Qed.

Lemma print_children rec id :
  (forall c res t, c ∈ D -> id < c -> ok t -> exists t' res', rec c res t = (t', Ret res')) ->
  (forall c res, within (prints D R) (rec c res)) ->
  forall n i res t nd, ok t -> nodes t !! id = Some nd -> 0 < activeChildren nd ->
  exists t' res', Tree.printChildren rec n i id res t = (t', Ret res').
Proof.
  intros Hrec Hkeep. induction n as [|n IH]; intros i res t nd Ht E Ha; cbn [Tree.printChildren]; [eauto|].
  rewrite (withNode_eq t id nd) by done. destruct (_ <? _); [|eauto].
  destruct (next_child D R t id nd Ht E Ha) as (c & -> & Hc & Hlt & Hadv).
  destruct (Hrec c res t Hc Hlt Ht) as (t1 & res1 & E1). rewrite (call_bind_ret _ _ t t1 res1 E1).
  pose proof (Hkeep c res t Ht) as [Ht1 Hp1]. rewrite E1 in Ht1, Hp1. cbn [fst] in *. specialize (Hadv t1 Ht1 Hp1).
  pose proof (prints_advance D R id t1 Ht1) as [Ht2 Hp2]. destruct (Tree.advanceNext id t1) as [t2 r] eqn:E2. cbn in Hadv. subst r.
  rewrite (call_bind_ret _ _ t1 t2 tt E2). destruct (printed_node t t2 id nd (printed_trans _ _ _ Hp1 Hp2) E) as (nd2 & E3 & Hn2).
  apply (IH _ _ _ nd2); [done..|]. by rewrite Hn2.
Qed.

Lemma print_node fuel : forall level id res t, ok t -> id ∈ D -> (above id < fuel)%nat ->
  exists t' res', Tree.printNode fuel level id res t = (t', Ret res').
Proof.
  induction fuel as [|fuel IH]; intros level id res t Ht Hid Hf; [lia|]. cbn [Tree.printNode].
  rewrite <- (ro_dom _ _ _ Ht) in Hid. apply elem_of_dom in Hid as [n E]. rewrite (withNode_eq t id n) by done.
  destruct (Z.ltb_spec 0 (activeChildren n)) as [Ha|]; [|eauto]. apply (print_children _ _) with (nd := n); [|intros; apply prints_node|done..].
  intros c res' t' Hc Hlt Ht'. apply IH; [done..|]. pose proof (above_child c id Hc Hlt). lia.
Qed.
End PrintOrdered.

Lemma printTree_in D R t : rooted_in D R t -> rooted_in D R (Tree.printTree t).1 /\ printed t (Tree.printTree t).1.
Proof. intros Ht. by apply (prints_node D R). Qed.

Lemma print_ordered t : ordered t -> exists t' res, Tree.printTree t = (t', Ret res) /\ ordered t' /\ printed t t'.
Proof.
  intros Ht. destruct (printTree_in _ _ t Ht) as [Hok Hp]. unfold ordered in Hok |- *.
  destruct (print_node (dom (nodes t)) (Tree.depth t) 0 rootID ∅ t Ht (ro_root _ _ _ Ht)) as (t' & res & E).
  { unfold above, Tree.depth. rewrite <- size_dom. apply Nat.lt_succ_r, subseteq_size. set_solver. }
  exists t', res. unfold Tree.printTree in *. rewrite (call_bind_ret get _ t t t eq_refl), E in *. cbn [fst] in *. split; [done|].
  split; [|done]. by rewrite (ro_dom _ _ _ Hok).
Qed.

Lemma rooted_print : always rooted Tree.printTree.
Proof. apply rooted_always. intros D t Ht. by apply printTree_in. Qed.

(** *** Cycles

    [S]: the root and nodes that each have a child in [S] again.  They are never left. *)
Section Cycle.
Context (D : gset Z) (R : Z -> Z -> Prop) (S : gset Z).
Notation ok := (rooted_in D R).

Definition closed (t : streamTree) : Prop :=
  forall id, id ∈ S -> exists n c, nodes t !! id = Some n /\ Z.of_nat (length (children n)) < 2 ^ 16 /\ c ∈ children n /\ c ∈ S.

Lemma closed_printed t t' : printed t t' -> closed t -> closed t'.
Proof.
  intros Hp Hc id Hid. destruct (Hc id Hid) as (n & c & E & H1 & H2 & H3).
  destruct (printed_node t t' id n Hp E) as (n' & E' & Hn'). exists n', c.
  assert (children n' = children n) as -> by (by rewrite Hn'). done.
Qed.

(** A node of [S] overflows the stack; the others do, or leave the nodes of [S] as they are. *)
Definition overflows (id : Z) (m : Call streamTree (gmap Z Z)) : Prop :=
  forall t, ok t -> closed t -> exists t',
    (m t = (t', Panic "stack overflow")) \/
    (id ∉ S /\ exists res, m t = (t', Ret res) /\ forall x, x ∈ S -> nodes t' !! x = nodes t !! x).

Context (rec : Z -> gmap Z Z -> Call streamTree (gmap Z Z)).
Hypothesis rec_overflows : forall c res, c ∈ D -> overflows c (rec c res).
Hypothesis rec_prints : forall c res, within (prints D R) (rec c res).

(** One round of the loop. *)
Lemma print_round id n i res t nd :
  ok t -> closed t -> nodes t !! id = Some nd -> 0 < activeChildren nd -> i < Z.of_nat (length (children nd)) ->
  exists c, children nd !! Z.to_nat (nextChild nd) = Some c /\
    ((exists t', Tree.printChildren rec (Datatypes.S n) i id res t = (t', Panic "stack overflow")) \/
     (c ∉ S /\ exists t2 res',
        Tree.printChildren rec (Datatypes.S n) i id res t = Tree.printChildren rec n (i + 1) id res' t2 /\
        ok t2 /\ printed t t2 /\ (forall x, x ∈ S -> x <> id -> nodes t2 !! x = nodes t !! x) /\
        (id ∈ S -> nodes t2 !! id = Some (Tree.advance nd)))).
Proof.
  intros Ht Hcl E Ha Hi. destruct (next_child D R t id nd Ht E Ha) as (c & Ec & Hc & _ & Hadv). exists c. split; [done|].
  cbn [Tree.printChildren]. rewrite (withNode_eq t id nd), Ec by done. rewrite (proj2 (Z.ltb_lt _ _) Hi).
  pose proof (rec_prints c res t Ht) as [Ht1 Hp1].
  destruct (rec_overflows c res Hc t Ht Hcl) as (t1 & [E1|(Hns & res1 & E1 & Hsame)]).
  { left. exists t1. unfold mbind, call_bind. by rewrite E1. }
  right. split; [done|]. rewrite (call_bind_ret _ _ t t1 res1 E1). rewrite E1 in Ht1, Hp1. cbn [fst] in *.
  specialize (Hadv t1 Ht1 Hp1). pose proof (prints_advance D R id t1 Ht1) as [Ht2 Hp2].
  destruct (printed_node t t1 id nd Hp1 E) as (nd1 & End1 & _). pose proof (no_id _ _ _ _ (ro_nodes _ _ _ Ht1 _ _ End1)) as Hid.
  destruct (Tree.advanceNext id t1) as [t2 r] eqn:E2. cbn [fst snd] in *. subst r. exists t2, res1.
  rewrite (call_bind_ret _ _ t1 t2 tt E2). split; [done|]. split; [done|]. split; [by eapply printed_trans|].
  assert (Et2 : t2 = Tree.setNode (Tree.advance nd1) t1).
  { revert E2. unfold Tree.advanceNext. rewrite (withNode_eq t1 id nd1) by done. destruct (_ && _); [done|]. by intros [= <-]. }
  assert (Hid' : n_id (Tree.advance nd1) = id) by (unfold Tree.advance; by destruct (children nd1)).
  rewrite Et2. cbn. rewrite Hid'. split.
  - intros x Hx Hne. rewrite lookup_insert_ne by done. by apply Hsame.
  - intros Hin. rewrite lookup_insert_eq. rewrite (Hsame id Hin), E in End1. by simplify_eq.
Qed.

Lemma loop_outside id : id ∉ S -> forall n i res t nd,
  ok t -> closed t -> nodes t !! id = Some nd -> 0 < activeChildren nd ->
  exists t', Tree.printChildren rec n i id res t = (t', Panic "stack overflow") \/
    exists res', Tree.printChildren rec n i id res t = (t', Ret res') /\ forall x, x ∈ S -> nodes t' !! x = nodes t !! x.
Proof.
  intros Hid. induction n as [|n IH]; intros i res t nd Ht Hcl E Ha; [exists t; right; by exists res|].
  destruct (decide (i < Z.of_nat (length (children nd)))) as [Hi|Hi].
  2: { cbn [Tree.printChildren]. rewrite (withNode_eq t id nd) by done. rewrite (proj2 (Z.ltb_ge _ _)) by lia.
    exists t. right. by exists res. }
  destruct (print_round id n i res t nd Ht Hcl E Ha Hi) as (c & _ & [[t' E']|(_ & t2 & res' & -> & Ht2 & Hp & Hs & _)]);
    [exists t'; by left|].
  destruct (printed_node t t2 id nd Hp E) as (nd2 & E2 & Hn2).
  destruct (IH (i + 1) res' t2 nd2 Ht2 (closed_printed _ _ Hp Hcl) E2) as (t' & H); [by rewrite Hn2|].
  exists t'. destruct H as [H|(res2 & H & Hs')]; [by left|right]. exists res2. split; [done|].
  intros x Hx. rewrite Hs' by done. apply Hs; [done|]. by intros ->.
Qed.

(** Inside [S] the loop comes to a child in [S]: the [j]-th from now. *)
Lemma loop_inside id : id ∈ S -> forall n i j c res t nd,
  ok t -> closed t -> nodes t !! id = Some nd -> Z.of_nat (length (children nd)) < 2 ^ 16 ->
  0 <= j < Z.of_nat n -> i + Z.of_nat n <= Z.of_nat (length (children nd)) -> 0 <= i ->
  children nd !! Z.to_nat ((nextChild nd + j) `mod` Z.of_nat (length (children nd))) = Some c -> c ∈ S ->
  exists t', Tree.printChildren rec n i id res t = (t', Panic "stack overflow").
Proof.
  intros Hid. induction n as [|n IH]; intros i j c res t nd Ht Hcl E Hlen Hj Hi Hi0 Hc HcS; [lia|].
  pose proof (ro_nodes _ _ _ Ht _ _ E) as [_ _ _ _ _ Ha Hn].
  assert (Hdiv : Tree.divisor (children nd) = Z.of_nat (length (children nd))) by (apply uN_small; unfold in_range; lia).
  destruct (print_round id n i res t nd Ht Hcl E ltac:(lia) ltac:(lia)) as (d & Hd & [H|(HdS & t2 & res' & -> & Ht2 & Hp & _ & Hid2)]);
    [done|]. specialize (Hid2 Hid). remember (Z.of_nat (length (children nd))) as len eqn:Elen.
  assert (Hadv : Tree.advance nd = nd <| nextChild := (nextChild nd + 1) `mod` len |>).
  { unfold Tree.advance. destruct (children nd); [cbn in *; lia|]. by rewrite Hdiv, (uN_small 16) by (unfold in_range; lia). }
  assert (Hj0 : j <> 0). { intros ->. rewrite Z.add_0_r, Z.mod_small in Hc by lia. congruence. }
  rewrite Hadv in Hid2. apply (IH (i + 1) (j - 1) c res' t2 _ Ht2 (closed_printed _ _ Hp Hcl) Hid2); cbn; try lia; [|done].
  rewrite <- Elen, Zplus_mod_idemp_l. by replace (nextChild nd + 1 + (j - 1)) with (nextChild nd + j) by lia.
Qed.
End Cycle.

Lemma print_overflows D R S fuel : forall level id res, id ∈ D -> overflows D R S id (Tree.printNode fuel level id res).
Proof.
  induction fuel as [|fuel IH]; intros level id res Hd t Ht Hcl; [exists t; by left|]. cbn [Tree.printNode].
  rewrite <- (ro_dom _ _ _ Ht) in Hd. apply elem_of_dom in Hd as [n E]. rewrite (withNode_eq t id n) by done.
  set (res0 := if n_stream n then _ else _). clearbody res0.
  destruct (decide (id ∈ S)) as [Hin|Hni].
  - destruct (Hcl id Hin) as (n' & c & En & Hlen & Hc & HcS). assert (n' = n) as -> by congruence.
    pose proof (ro_nodes _ _ _ Ht _ _ E) as [_ _ _ _ _ Ha Hn]. apply list_elem_of_lookup in Hc as [q Hq].
    pose proof (lookup_lt_Some _ _ _ Hq) as Hql. unfold Tree.divisor in Ha. rewrite (uN_small 16) in Ha by (unfold in_range; lia).
    rewrite (proj2 (Z.ltb_lt 0 _)) by lia.
    destruct (loop_inside D R S (Tree.printNode fuel (u32 (level + 1))) (fun c res => IH _ c res)
      (fun c res => prints_node D R fuel _ c res) id Hin (length (children n)) 0
      ((Z.of_nat q - nextChild n) `mod` Z.of_nat (length (children n))) c res0 t n Ht Hcl E Hlen) as (t' & H); try done.
    + apply Z.mod_pos_bound. lia.
    + rewrite Zplus_mod_idemp_r. replace (nextChild n + (Z.of_nat q - nextChild n)) with (Z.of_nat q) by lia.
      rewrite Z.mod_small, Nat2Z.id by lia. done.
    + exists t'. by left.
  - destruct (Z.ltb_spec 0 (activeChildren n)) as [Ha|]; [|exists t; right; eauto].
    destruct (loop_outside D R S (Tree.printNode fuel (u32 (level + 1))) (fun c res => IH _ c res)
      (fun c res => prints_node D R fuel _ c res) id Hni (length (children n)) 0 res0 t n Ht Hcl E Ha) as (t' & H).
    exists t'. destruct H as [H|H]; [by left|right; done].
Qed.

(** Printing a tree with a cycle below the root. *)
Definition cyclic (t : streamTree) : Prop := exists S, rootID ∈ S /\ closed S t.

Lemma cyclic_lists t (ids : list Z) :
  rootID ∈ ids ->
  Forall (fun id => exists c l, children <$> nodes t !! id = Some l /\ Z.of_nat (length l) < 2 ^ 16 /\ c ∈ l /\ c ∈ ids) ids ->
  cyclic t.
Proof.
  intros Hroot Hids. exists (list_to_set ids). split; [by apply elem_of_list_to_set|]. intros id Hid%elem_of_list_to_set.
  rewrite Forall_forall in Hids. destruct (Hids id Hid) as (c & l & E & Hl & Hc & Hin).
  apply fmap_Some in E as (n & E & ->). exists n, c. rewrite elem_of_list_to_set. done.
Qed.

Lemma print_cyclic t fuel :
  rooted t -> cyclic t -> exists t', Tree.printNode fuel 0 rootID ∅ t = (t', Panic "stack overflow").
Proof.
  intros Ht (S & HS & Hcl).
  destruct (print_overflows _ _ S fuel 0 rootID ∅ (ro_root _ _ _ Ht) t Ht Hcl) as (t' & [H|[H _]]); [|done].
  exists t'. exact H.
Qed.

(** New streams do not end a cycle. *)
Lemma addNode_root id t r :
  id <> rootID -> rooted t -> nodes t !! rootID = Some r ->
  exists t' r', Tree.addNode id t = (t', Ret tt) /\ rooted t' /\ nodes t' !! rootID = Some r' /\
    children r' = children r ++ [id] /\ forall x, x <> rootID -> x <> id -> nodes t' !! x = nodes t !! x.
Proof.
  intros Hid Ht Hr. pose proof (addNode_rooted id t Hid Ht) as (t' & E & Ht').
  pose proof (ro_nodes _ _ _ Ht _ _ Hr) as Hrok. exists t'.
  assert (Et : t' = Tree.setNode (r <| childrensWeight := u32 (childrensWeight r + DefaultStreamWeight + 1) |>
    <| activeChildren := u16 (activeChildren r + 1) |> <| children := children r ++ [id] |>)
    (Tree.setNode (newNode id true (Some rootID)) t)).
  { revert E. unfold Tree.addNode, Tree.addWeightOf, mbind, call_bind, update, get, Tree.depth. cbn [Tree.addWeight].
    unfold Tree.withNode, Tree.changeNode, Tree.withNode, mbind, call_bind, get, update. cbn.
    rewrite lookup_insert_eq. cbn. rewrite lookup_insert_ne, Hr by done. cbn.
    rewrite (no_id _ _ _ _ Hrok), lookup_insert_eq. cbn. rewrite (no_top _ _ _ _ Hrok eq_refl). cbn. by intros [= <-]. }
  eexists. split; [done|]. split; [done|]. rewrite Et. cbn. rewrite (no_id _ _ _ _ Hrok). split; [apply lookup_insert_eq|].
  split; [done|]. intros x Hx Hxid. by rewrite !lookup_insert_ne.
Qed.

Lemma addNodes_cyclic ids : forall t,
  Forall (fun id => id <> rootID /\ nodes t !! id = None) ids -> NoDup ids -> rooted t -> cyclic t ->
  (forall r, nodes t !! rootID = Some r -> Z.of_nat (length (children r) + length ids) < 2 ^ 16) ->
  exists t', forEach ids Tree.addNode t = (t', Ret tt) /\ rooted t' /\ cyclic t'.
Proof.
  induction ids as [|id ids IH]; intros t Hids Hnd Ht Hc Hlen; cbn [forEach]; [by exists t|].
  apply Forall_cons in Hids as [[Hid Hnew] Hids]. apply NoDup_cons in Hnd as [Hni Hnd].
  destruct Hc as (S & HS & Hcl). destruct (Hcl rootID HS) as (r & c & Hr & _ & Hcr & HcS).
  specialize (Hlen r Hr). cbn in Hlen.
  destruct (addNode_root id t r Hid Ht Hr) as (t1 & r1 & E & Ht1 & Hr1 & Hch & Hsame).
  rewrite (call_bind_ret _ _ t t1 tt E). apply IH; [|done|done| |].
  - rewrite Forall_forall in Hids |- *. intros x Hx. destruct (Hids x Hx) as [Hx0 Hxn]. split; [done|].
    rewrite Hsame; [done..|]. by intros ->.
  - exists S. split; [done|]. intros x Hx. destruct (decide (x = rootID)) as [->|Hne].
    + exists r1, c. split; [done|]. rewrite Hch, length_app. cbn. split; [lia|]. split; [set_solver|done].
    + destruct (Hcl x Hx) as (n & d & Hn & Hd). exists n, d. rewrite Hsame; [done..|]. intros ->. congruence.
  - intros r' Hr'. assert (r' = r1) as -> by congruence. rewrite Hch, length_app. cbn. lia.
Qed.

(** ** Trees without dependencies

    Streams that depend on the root only, as all do unless the application says otherwise: the root has
    the children [l], the traversal goes on at the [k]-th. *)
Record flat_child (id : Z) (n : node) : Prop := {
  fc_id : n_id n = id;
  fc_stream : n_stream n = true;
  fc_state : n_state n = nodeActive;
  fc_parent : n_parent n = Some rootID;
  fc_active : activeChildren n = 0;
  fc_children : children n = []
}.

Record flat_root (l : list Z) (k : Z) (n : node) : Prop := {
  fr_id : n_id n = rootID;
  fr_stream : n_stream n = false;
  fr_parent : n_parent n = None;
  fr_active : activeChildren n = Z.of_nat (length l);
  fr_children : children n = l;
  fr_next : nextChild n = k
}.

(** The node of a stream that is finished. *)
Record flat_closed (id : Z) (n : node) : Prop := {
  fd_id : n_id n = id;
  fd_stream : n_stream n = false;
  fd_state : n_state n = nodeClosed;
  fd_parent : n_parent n = Some rootID;
  fd_active : activeChildren n = 0
}.

Record flat (t : streamTree) (l : list Z) (k : Z) : Prop := {
  fl_root : exists n, nodes t !! rootID = Some n /\ flat_root l k n;
  fl_nodup : NoDup l;
  fl_len : Z.of_nat (length l) < 2 ^ 16;
  fl_next : (l = [] /\ k = 0) \/ 0 <= k < Z.of_nat (length l);
  fl_children : forall id, id ∈ l -> id <> rootID /\ exists n, nodes t !! id = Some n /\ flat_child id n;
  fl_others : forall id n, nodes t !! id = Some n -> id <> rootID -> id ∉ l -> flat_closed id n
}.

Lemma flat_new : flat newStreamTree [] 0.
Proof.
  split; [|constructor|done|by left|set_solver|].
  - eexists. split; [apply lookup_singleton_eq|done].
  - intros id n H Hne. unfold newStreamTree in H. cbn [nodes] in H. apply lookup_singleton_Some in H as [<- _]. done.
Qed.

(** A child changes, but stays one. *)
Lemma flat_set t l k id n :
  flat t l k -> id ∈ l -> flat_child id n -> flat (Tree.setNode n t) l k.
Proof.
  intros [(r & Hr & Hroot) Hnd Hlen Hk Hc Ho] Hid Hn. destruct (Hc id Hid) as [Hne _].
  pose proof (fc_id _ _ Hn) as En. split; try done; cbn; rewrite En.
  - exists r. by rewrite lookup_insert_ne.
  - intros x Hx. destruct (Hc x Hx) as [Hx0 (m & Hm & Hmc)]. split; [done|]. destruct (decide (id = x)) as [->|].
    + exists n. by rewrite lookup_insert_eq.
    + exists m. by rewrite lookup_insert_ne.
  - intros x m Hm Hx0 Hxl. rewrite lookup_insert_ne in Hm by congruence. by apply Ho.
Qed.

Lemma divisor_small l : Z.of_nat (length l) < 2 ^ 16 -> bool_decide (l <> []) && (Tree.divisor l =? 0) = false.
Proof.
  intros Hl. unfold Tree.divisor. rewrite (uN_small 16) by (unfold in_range; lia). destruct l as [|x l]; [done|].
  rewrite bool_decide_eq_true_2 by done. apply Z.eqb_neq. cbn. lia.
Qed.

Lemma flat_advance t l k r :
  flat t l k -> nodes t !! rootID = Some r ->
  flat (Tree.setNode (Tree.advance r) t) l (match l with [] => 0 | _ => (k + 1) `mod` Z.of_nat (length l) end).
Proof.
  intros [(r' & Hr & Hroot) Hnd Hlen Hk Hc Ho] Hr'. assert (r' = r) as -> by congruence. destruct Hroot.
  assert (Hadv : Tree.advance r = match l with [] => r | _ =>
    r <| nextChild := (k + 1) `mod` Z.of_nat (length l) |> end).
  { unfold Tree.advance, Tree.divisor. rewrite fr_children0. destruct l as [|c l']; [done|]. f_equal. rewrite fr_next0.
    rewrite !(uN_small 16) by (unfold in_range; destruct Hk as [[[=] _]|]; lia). done. }
  assert (Eid : n_id (Tree.advance r) = rootID) by (rewrite Hadv; by destruct l).
  split; try done; cbn; rewrite ?Eid.
  - eexists. split; [apply lookup_insert_eq|]. rewrite Hadv. destruct l; [|done]. destruct Hk as [[_ ->]|]; [done|cbn in *; lia].
  - destruct l as [|c l']; [by left|]. right. apply Z.mod_pos_bound. cbn. lia.
  - intros x Hx. destruct (Hc x Hx) as [Hx0 (m & Hm & Hmc)]. split; [done|]. exists m. by rewrite lookup_insert_ne.
  - intros x m Hm Hx0 Hxl. rewrite lookup_insert_ne in Hm by done. by apply Ho.
Qed.

Lemma childIndex_in id l :
  id ∈ l -> exists l1 l2, Tree.childIndex id l = Some (length l1) /\ l = l1 ++ id :: l2 /\
    Tree.removeAt (length l1) l = l1 ++ l2.
Proof.
  induction l as [|x l IH]; [set_solver|]. intros Hin. cbn [Tree.childIndex]. destruct (Z.eqb_spec x id) as [->|Hne].
  - by exists [], l.
  - destruct IH as (l1 & l2 & -> & -> & E); [set_solver|]. exists (x :: l1), l2. split; [done|]. split; [done|].
    unfold Tree.removeAt in *. cbn. by rewrite E.
Qed.

(** [l] without [id] *)
Definition dropChild (id : Z) (l : list Z) : list Z := Tree.removeAt (default O (Tree.childIndex id l)) l.

Lemma dropChild_spec id l :
  id ∈ l -> NoDup l ->
  NoDup (dropChild id l) /\ S (length (dropChild id l)) = length l /\
  forall x, x ∈ dropChild id l <-> x ∈ l /\ x <> id.
Proof.
  intros Hin Hnd. unfold dropChild. destruct (childIndex_in id l Hin) as (l1 & l2 & -> & -> & E). change (default O (Some (length l1))) with (length l1).
  rewrite E. apply NoDup_app in Hnd as (H1 & H2 & H3). apply NoDup_cons in H3 as [H3 H4].
  split; [apply NoDup_app; set_solver|]. split; [rewrite !length_app; cbn; lia|]. set_solver.
Qed.

Lemma flat_close t l k id :
  flat t l k -> id ∈ l ->
  exists t', Tree.deactivateNode id t = (t', Ret tt) /\ tree_openStreams t' = tree_openStreams t /\
    flat t' (dropChild id l) (match dropChild id l with [] => 0 | l' => k `mod` Z.of_nat (length l') end) /\
    is_Some (nodes t' !! id) /\ forall x, x <> id -> x <> rootID -> nodes t' !! x = nodes t !! x.
Proof.
  intros [(r & Hr & Hroot) Hnd Hlen Hk Hc Ho] Hid. destruct (Hc id Hid) as [Hne (n & Hn & Hnc)].
  destruct (dropChild_spec id l Hid Hnd) as (Hnd' & Hlen' & Hin'). destruct Hnc as [E1 E2 E3 E4 E5 E6]. destruct Hroot as [R1 R2 R3 R4 R5 R6].
  unfold Tree.deactivateNode, mbind, call_bind, Tree.changeNode. rewrite (withNode_eq t id n) by done. cbn [update].
  set (n' := n <| n_state := nodeClosed |> <| n_stream := false |>). set (t1 := Tree.setNode n' t).
  assert (Hn1 : nodes t1 !! id = Some n') by (cbn; rewrite E1; apply lookup_insert_eq).
  assert (Hr1 : nodes t1 !! rootID = Some r) by (cbn; by rewrite E1, lookup_insert_ne).
  rewrite (withNode_eq t1 id n') by done. cbn [n_parent n' set_n_stream set_n_state setField]. rewrite E4.
  change (activeChildren n') with (activeChildren n). rewrite E5. cbn [Z.eqb when].
  unfold Tree.removeWeightOf, mbind, call_bind, get, Tree.depth. cbn [Tree.removeWeight].
  rewrite (withNode_eq t1 id n') by done. rewrite (withNode_eq t1 rootID r) by done. rewrite R5.
  destruct l as [|c0 l0] eqn:El; [set_solver|]. rewrite <- El in *. clear El c0 l0.
  set (r' := Tree.withoutChild r id (n_weight n')). set (t2 := Tree.setNode r' t1). cbv zeta.
  assert (Ech : children r' = dropChild id l) by (subst r'; unfold Tree.withoutChild; cbn; by rewrite R5).
  rewrite divisor_small by (rewrite Ech; lia). unfold mbind, call_bind, update. fold t2.
  assert (Hr2 : nodes t2 !! rootID = Some r') by (cbn; rewrite R1; apply lookup_insert_eq).
  rewrite (withNode_eq t2 rootID r') by done. change (n_parent r') with (n_parent r). rewrite R3.
  exists t2. split; [done|]. split; [done|].
  assert (Hother : forall x, x <> id -> x <> rootID -> nodes t2 !! x = nodes t !! x).
  { intros x H1 H2. cbn. rewrite R1, E1, !lookup_insert_ne by done. done. }
  assert (Hlen16 : u16 (Z.of_nat (length (dropChild id l))) = Z.of_nat (length (dropChild id l))).
  { apply uN_small. unfold in_range. lia. }
  assert (Hid2 : nodes t2 !! id = Some n') by (cbn; by rewrite R1, lookup_insert_ne).
  split; [split|eauto]; try done.
  - exists r'. split; [done|]. split; try done.
    + subst r'. unfold Tree.withoutChild. cbn. rewrite R4. rewrite (uN_small 16) by (unfold in_range; lia). lia.
    + subst r'. unfold Tree.withoutChild. cbn. rewrite R5, R6. fold (dropChild id l). unfold Tree.divisor. destruct (dropChild id l); [done|].
      by rewrite Hlen16.
  - lia.
  - destruct (dropChild id l) as [|c' l'] eqn:E; [by left|right]. apply Z.mod_pos_bound. cbn. lia.
  - intros x [Hx Hxid]%Hin'. destruct (Hc x Hx) as [Hx0 (m & Hm & Hmc)]. split; [done|]. exists m. by rewrite Hother.
  - intros x m Hm Hx0 Hx. destruct (decide (x = id)) as [->|Hxid].
    + rewrite Hid2 in Hm. simplify_eq. by split.
    + rewrite Hother in Hm by done. apply Ho; [done..|]. rewrite Hin' in Hx. tauto.
Qed.

Lemma advance_root t l k :
  flat t l k ->
  exists t', Tree.advanceNext rootID t = (t', Ret tt) /\
    flat t' l (match l with [] => 0 | _ => (k + 1) `mod` Z.of_nat (length l) end) /\
    forall x, x <> rootID -> nodes t' !! x = nodes t !! x.
Proof.
  intros Hf. destruct (fl_root _ _ _ Hf) as (r & Hr & Hroot). unfold Tree.advanceNext. rewrite (withNode_eq t rootID r) by done.
  rewrite divisor_small by (rewrite (fr_children _ _ _ Hroot); apply Hf).
  eexists. split; [done|]. split; [by apply flat_advance|]. intros x Hx. cbn.
  assert (n_id (Tree.advance r) = rootID) as ->. { unfold Tree.advance. destruct (children r); apply Hroot. }
  by rewrite lookup_insert_ne.
Qed.

(** The children from the [k]-th on. *)
Definition from_next (l : list Z) (k : Z) : list Z := drop (Z.to_nat k) l ++ take (Z.to_nat k) l.

Lemma from_next_split l k c :
  l !! Z.to_nat k = Some c -> from_next l k = c :: drop (S (Z.to_nat k)) l ++ take (Z.to_nat k) l.
Proof. intros Hc. unfold from_next. by rewrite (drop_S l c) by done. Qed.

Lemma dropChild_at l k c :
  NoDup l -> l !! k = Some c -> dropChild c l = take k l ++ drop (S k) l.
Proof.
  intros Hnd Hk. assert (Hin : c ∈ l) by (by eapply list_elem_of_lookup_2). unfold dropChild.
  destruct (childIndex_in c l Hin) as (l1 & l2 & -> & El & Er). change (default O (Some (length l1))) with (length l1).
  assert (length l1 = k) as ->; [|done]. apply (NoDup_lookup l _ _ c); [done| |done].
  rewrite El. by apply list_lookup_middle.
Qed.

Lemma from_next_step l k c :
  0 <= k < Z.of_nat (length l) -> l !! Z.to_nat k = Some c ->
  from_next l ((k + 1) `mod` Z.of_nat (length l)) = drop (S (Z.to_nat k)) l ++ take (Z.to_nat k) l ++ [c].
Proof.
  intros Hk Hc. rewrite <- (take_S_r l _ c) by done. destruct (decide (k + 1 = Z.of_nat (length l))) as [E|E].
  - rewrite E, Z.mod_same by lia. unfold from_next. rewrite drop_0, take_0, app_nil_r, drop_ge, take_ge by lia. done.
  - rewrite Z.mod_small by lia. unfold from_next. by replace (Z.to_nat (k + 1)) with (S (Z.to_nat k)) by lia.
Qed.

(** The children in turn before and after a visit. *)
Definition rotated (l : list Z) (k : Z) : list Z := drop (S (Z.to_nat k)) l ++ take (Z.to_nat k) l.

Lemma length_from_next l k : 0 <= k -> length (from_next l k) = length l.
Proof. intros Hk. unfold from_next. rewrite length_app, length_drop, length_take. lia. Qed.

Lemma from_next_in l k x : x ∈ from_next l k <-> x ∈ l.
Proof. unfold from_next. rewrite <- (take_drop (Z.to_nat k) l) at 3. set_solver. Qed.

Lemma length_rotated l k c :
  0 <= k -> l !! Z.to_nat k = Some c -> length (rotated l k) = (length l - 1)%nat.
Proof.
  intros Hk Hc. apply lookup_lt_Some in Hc. unfold rotated. rewrite length_app, length_drop, length_take. lia.
Qed.

Lemma from_next_nodup l k : NoDup l -> NoDup (from_next l k).
Proof. intros Hnd. unfold from_next. rewrite (Permutation_app_comm _ _), take_drop. done. Qed.

Lemma filter_true_ext (f g : Z -> bool) (l : list Z) :
  (forall x, x ∈ l -> f x = g x) -> filter (fun x => f x = true) l = filter (fun x => g x = true) l.
Proof.
  induction l as [|x l IH]; intros H; [done|]. rewrite !filter_cons, IH by (intros; apply H; set_solver).
  rewrite (H x) by set_solver. done.
Qed.

Section Schedule.
Context (fin checked : Z -> bool).
Notation M := (Call streamTree).

(** A stream that has to be put on a path. *)
Definition pending (t : streamTree) (id : Z) : bool :=
  negb (fin id) && negb (checked id) && negb (from_option visited false (nodes t !! id)).

(** What visiting the child [id] leaves of the children and of the index. *)
Definition visitNext (l : list Z) (k id : Z) : list Z * Z :=
  if fin id then
    (dropChild id l, match dropChild id l with
                     | [] => 0
                     | l' => (k `mod` Z.of_nat (length l') + 1) `mod` Z.of_nat (length l')
                     end)
  else (l, (k + 1) `mod` Z.of_nat (length l)).

(** The last part of a visit. *)
Lemma leave_child t l k id n :
  flat t l k -> nodes t !! id = Some n -> n_parent n = Some rootID ->
  exists t', Tree.withNode id (fun n =>
      match n_parent n with Some parent => Tree.advanceNext parent | None => mret tt end) t = (t', Ret tt) /\
    flat t' l (match l with [] => 0 | _ => (k + 1) `mod` Z.of_nat (length l) end) /\
    forall x, x <> rootID -> nodes t' !! x = nodes t !! x.
Proof. intros Hf Hn Hp. rewrite (withNode_eq t id n) by done. rewrite Hp. by apply advance_root. Qed.

Lemma visit_child fuel t l k id :
  flat t l k -> id ∈ l ->
  exists t', Tree.traverse fin checked (S fuel) id t = (t', Ret (if pending t id then [id] else [])) /\
    flat t' (visitNext l k id).1 (visitNext l k id).2 /\
    forall x, x <> id -> x <> rootID -> nodes t' !! x = nodes t !! x.
Proof.
  intros Hf Hid. destruct (fl_children _ _ _ Hf id Hid) as [Hne (n & Hn & Hnc)]. pose proof Hnc as [E1 E2 E3 E4 E5 E6].
  cbn [Tree.traverse]. unfold pending, visitNext. rewrite Hn. cbn [from_option].
  assert (Hnodup := fl_nodup _ _ _ Hf). destruct (dropChild_spec id l Hid Hnodup) as (_ & _ & Hin).
  destruct (fin id) eqn:Efin.
  - set (t0 := t <| tree_openStreams := tree_openStreams t - 1 |>).
    assert (Hf0 : flat t0 l k) by (by destruct Hf). destruct (flat_close t0 l k id Hf0 Hid) as (t1 & Ht1 & _ & Hf1 & Hd1).
    destruct Hd1 as [[n1 Hn1] Hother].
    destruct (fl_others _ _ _ Hf1 id n1 Hn1 Hne ltac:(rewrite Hin; tauto)) as [F1 F2 F3 F4 F5].
    destruct (leave_child t1 _ _ id n1 Hf1 Hn1 F4) as (t2 & Ht2 & Hf2 & Hother2). exists t2.
    rewrite (call_bind_ret _ _ t t1 tt).
    + rewrite (call_bind_ret _ _ t1 t1 tt) by (rewrite (withNode_eq t1 id n1) by done; by rewrite F2).
      rewrite (call_bind_ret _ _ t1 t1 []).
      * rewrite (call_bind_ret _ _ t1 t2 tt Ht2). split; [done|]. cbn [fst snd]. split.
        -- by destruct (dropChild id l).
        -- intros x Hx Hx0. by rewrite Hother2, Hother.
      * unfold Tree.gather. rewrite (withNode_eq t1 id n1) by done. rewrite F2, F5. by rewrite andb_false_r.
    + rewrite (withNode_eq t id n) by done. rewrite E2. cbn [andb when]. by rewrite (call_bind_ret _ _ t t0 tt).
  - set (n1 := if checked id then n <| visited := true |> else n).
    assert (Hstep : exists t1, Tree.withNode id (fun n => when (n_stream n && checked id)
      (Tree.changeNode id (fun n => n <| visited := true |>))) t = (t1, Ret tt) /\ flat t1 l k /\ nodes t1 !! id = Some n1 /\
      forall x, x <> id -> nodes t1 !! x = nodes t !! x).
    { rewrite (withNode_eq t id n) by done. rewrite E2. subst n1. destruct (checked id); cbn [andb when]; [|by exists t].
      unfold Tree.changeNode. rewrite (withNode_eq t id n) by done. eexists. split; [done|].
      split; [eapply flat_set; [done|done|by split]|]. cbn. rewrite E1. split; [apply lookup_insert_eq|].
      intros x Hx. by rewrite lookup_insert_ne. }
    destruct Hstep as (t1 & Ht1 & Hf1 & Hn1 & Hother).
    assert (En1 : n_stream n1 = true /\ n_state n1 = nodeActive /\ activeChildren n1 = 0 /\ n_parent n1 = Some rootID /\
      visited n1 = checked id || visited n) by (subst n1; by destruct (checked id)).
    destruct En1 as (F1 & F2 & F3 & F4 & F5).
    destruct (leave_child t1 l k id n1 Hf1 Hn1 F4) as (t2 & Ht2 & Hf2 & Hother2). exists t2.
    rewrite (call_bind_ret _ _ t t tt) by (rewrite (withNode_eq t id n) by done; by rewrite E2).
    rewrite (call_bind_ret _ _ t t1 tt Ht1).
    rewrite (call_bind_ret _ _ t1 t1 (if negb (checked id) && negb (visited n) then [id] else [])).
    + rewrite (call_bind_ret _ _ t1 t2 tt Ht2). split; [done|]. cbn [fst snd]. split.
      * by destruct l; [set_solver|].
      * intros x Hx Hx0. by rewrite Hother2, Hother.
    + unfold Tree.gather. rewrite (withNode_eq t1 id n1) by done. rewrite F1, F2, F3, F5.
      rewrite bool_decide_eq_true_2 by done. by destruct (checked id), (visited n).
Qed.

(** The children that get their turn: the one behind a finished stream does not. *)
Fixpoint turns (l : list Z) : list Z :=
  match l with
  | [] => []
  | c :: l' => if fin c then match l' with [] => [] | _ :: l'' => turns l'' end else c :: turns l'
  end.

Lemma from_next_visit l k c :
  NoDup l -> 0 <= k < Z.of_nat (length l) -> l !! Z.to_nat k = Some c ->
  from_next l k = c :: rotated l k /\
  from_next (visitNext l k c).1 (visitNext l k c).2 =
    (if fin c then match rotated l k with [] => [] | d :: tail => tail ++ [d] end else rotated l k ++ [c]).
Proof.
  intros Hnd Hk Hc. split; [by apply from_next_split|]. unfold visitNext, rotated. destruct (fin c); cbn [fst snd].
  2: { rewrite (from_next_step l k c Hk Hc). by rewrite app_assoc. }
  rewrite (dropChild_at l (Z.to_nat k) c Hnd Hc). set (l' := take (Z.to_nat k) l ++ drop (S (Z.to_nat k)) l).
  assert (Hlen : length l' = (length l - 1)%nat). { subst l'. rewrite length_app, length_take, length_drop. lia. }
  destruct (decide (l' = [])) as [E|Hne].
  { rewrite E. subst l'. apply app_eq_nil in E as [-> ->]. done. }
  assert (Hn : (0 < length l')%nat) by (by destruct l'; [|cbn; lia]). destruct l' as [|d0 l0] eqn:El; [done|]. rewrite <- El in *.
  remember (Z.of_nat (length l')) as n eqn:En.
  assert (Hrot : from_next l' (k `mod` n) = drop (S (Z.to_nat k)) l ++ take (Z.to_nat k) l).
  { destruct (decide (k = n)) as [E|Hkn].
    - rewrite E, Z.mod_same, <- E by lia. unfold from_next. rewrite drop_0, take_0, app_nil_r, (drop_ge l) by lia. subst l'.
      rewrite (drop_ge l) by lia. by rewrite app_nil_r.
    - rewrite Z.mod_small by lia. unfold from_next. subst l'. rewrite drop_app_length', take_app_length'; [done|..];
        rewrite length_take; lia. }
  assert (Hk' : 0 <= k `mod` n < n) by (apply Z.mod_pos_bound; lia).
  destruct (lookup_lt_is_Some_2 l' (Z.to_nat (k `mod` n))) as [d Hd]; [lia|].
  pose proof (from_next_step l' (k `mod` n) d) as Hstep. rewrite <- En in Hstep. rewrite Hstep by done. rewrite <- Hrot, (from_next_split l' _ d) by done.
  cbn. by rewrite app_assoc.
Qed.

Lemma turns_sub l x : x ∈ turns l -> x ∈ l.
Proof.
  assert (H : forall n l, (length l <= n)%nat -> x ∈ turns l -> x ∈ l); [|by apply (H (length l) l)].
  clear l. induction n as [|n IH]; intros [|c l]; cbn; try (set_solver || lia). intros Hn. destruct (fin c).
  - destruct l as [|d l]; [set_solver|]. cbn in Hn. intros Hx. apply IH in Hx; [set_solver|lia].
  - intros Hx. apply elem_of_cons in Hx as [->|Hx]; [set_solver|]. apply IH in Hx; [set_solver|lia].
Qed.

Lemma pending_same t t' x : nodes t' !! x = nodes t !! x -> pending t' x = pending t x.
Proof. unfold pending. by intros ->. Qed.

(** A visit and the turns that are left. *)
Lemma next_turns l k c i l1 k1 :
  NoDup l -> 0 <= k < Z.of_nat (length l) -> l !! Z.to_nat k = Some c -> 0 <= i -> visitNext l k c = (l1, k1) ->
  let U := c :: take (length l - S (Z.to_nat i)) (rotated l k) in
  let U1 := take (length l1 - Z.to_nat (i + 1)) (from_next l1 k1) in
  turns U = (if fin c then turns U1 else c :: turns U1) /\ (length U1 < length U)%nat /\ c ∉ U1.
Proof.
  intros Hnd Hk Hc Hi Ev. destruct (from_next_visit l k c Hnd Hk Hc) as [Hfrom Hnext]. rewrite Ev in Hnext.
  pose proof (length_rotated l k c ltac:(lia) Hc) as Hlen. pose proof (from_next_nodup l k Hnd) as Hnd'.
  rewrite Hfrom in Hnd'. apply NoDup_cons in Hnd' as [Hni _]. cbn [fst snd] in Hnext. cbv zeta. rewrite Hnext.
  replace (Z.to_nat (i + 1)) with (S (Z.to_nat i)) by lia. cbn [turns length].
  assert (Hsub : forall m x, x ∈ take m (rotated l k) -> x ∈ rotated l k) by (intros m x Hx; by apply (subseteq_take m _)).
  unfold visitNext in Ev. destruct (fin c); simplify_eq.
  - assert (Hl1 : S (length (dropChild c l)) = length l) by (apply dropChild_spec; [by eapply list_elem_of_lookup_2|done]).
    destruct (rotated l k) as [|d tail]; [rewrite !take_nil; cbn; split; [done|split; [lia|set_solver]]|]. cbn in Hlen.
    destruct (length l - S (Z.to_nat i))%nat as [|m] eqn:Em.
    + replace (length (dropChild c l) - S (Z.to_nat i))%nat with O by lia. rewrite !take_0. cbn. split; [done|split; [lia|set_solver]].
    + replace (length (dropChild c l) - S (Z.to_nat i))%nat with m by lia. rewrite take_app_le by lia. cbn [take length].
      split; [done|]. split; [lia|]. intros Hin. apply Hni. right. by apply (subseteq_take m _).
  - rewrite take_app_le by lia. split; [done|]. split; [lia|]. intros Hin. by apply Hni, (Hsub _ _ Hin).
Qed.

(** The loop over the children visits those that get their turn; [U] are the ones that are left. *)
Lemma over_children fuel : forall n i t l k U,
  flat t l k -> U = take (length l - Z.to_nat i) (from_next l k) -> (length U <= n)%nat -> 0 <= i ->
  exists t' l' k', Tree.overChildren (Tree.traverse fin checked (S fuel)) n i rootID t
      = (t', Ret (filter (fun x => pending t x = true) (turns U))) /\
    flat t' l' k' /\ (forall x, x ∈ l' -> x ∈ l) /\
    (forall x, x <> rootID -> x ∉ l -> nodes t' !! x = nodes t !! x).
Proof.
  induction n as [|n IH]; intros i t l k U Hf HU Hn Hi.
  { destruct U; [|cbn in Hn; lia]. by exists t, l, k. }
  cbn [Tree.overChildren]. destruct (fl_root _ _ _ Hf) as (r & Hr & Hroot). rewrite (withNode_eq t rootID r) by done.
  rewrite (fr_children _ _ _ Hroot), (fr_next _ _ _ Hroot). destruct (Z.ltb_spec i (Z.of_nat (length l))) as [Hil|Hil].
  2: { replace (length l - Z.to_nat i)%nat with O in HU by lia. subst U. by exists t, l, k. }
  assert (Hk : 0 <= k < Z.of_nat (length l)) by (destruct (fl_next _ _ _ Hf) as [[-> _]|]; [cbn in Hil; lia|lia]).
  destruct (lookup_lt_is_Some_2 l (Z.to_nat k)) as [c Hc]; [lia|]. rewrite Hc.
  assert (Hcl : c ∈ l) by (by eapply list_elem_of_lookup_2).
  destruct (visit_child fuel t l k c Hf Hcl) as (t1 & Ht1 & Hf1 & Hsame).
  destruct (from_next_visit l k c (fl_nodup _ _ _ Hf) Hk Hc) as [Hfrom Hnext].
  pose proof (length_rotated l k c ltac:(lia) Hc) as Hlen. rewrite (call_bind_ret _ _ _ _ _ Ht1).
  rewrite Hfrom in HU. replace (length l - Z.to_nat i)%nat with (S (length l - S (Z.to_nat i))) in HU by lia.
  cbn [take] in HU. destruct (visitNext l k c) as [l1 k1] eqn:Ev. cbn [fst snd] in *.
  set (U1 := take (length l1 - Z.to_nat (i + 1)) (from_next l1 k1)).
  assert (Hl1 : forall x, x ∈ l1 -> x ∈ l).
  { unfold visitNext in Ev. destruct (fin c); simplify_eq; [|done]. intros x Hx.
    by apply (dropChild_spec c l Hcl (fl_nodup _ _ _ Hf)) in Hx as [? _]. }
  assert (HU1 : turns U = (if fin c then turns U1 else c :: turns U1) /\ (length U1 <= n)%nat /\ c ∉ U1).
  { destruct (next_turns l k c i l1 k1 (fl_nodup _ _ _ Hf) Hk Hc Hi Ev) as (HT & HLen & Hni).
    subst U. fold U1 in HT, HLen, Hni. split; [done|]. split; [|done]. cbn in Hn, HLen. lia. }
  destruct HU1 as (HT & Hn1 & Hc1).
  destruct (IH (i + 1) t1 l1 k1 U1 Hf1 eq_refl Hn1 ltac:(lia)) as (t2 & l2 & k2 & E & Hf2 & Hsub & Hout).
  rewrite (call_bind_ret _ _ _ _ _ E). exists t2, l2, k2. split; [|split; [done|split; [auto|]]].
  - assert (Hext : filter (fun x => pending t1 x = true) (turns U1) = filter (fun x => pending t x = true) (turns U1)).
    { apply filter_true_ext. intros x Hx. apply turns_sub in Hx. apply pending_same.
      apply Hsame; [congruence|]. apply (fl_children _ _ _ Hf1), (from_next_in l1 k1).
      by apply (subseteq_take (length l1 - Z.to_nat (i + 1))). }
    rewrite Hext, HT. unfold mret, call_ret. f_equal. f_equal. destruct (pending t c) eqn:Ep.
    + assert (fin c = false) as -> by (unfold pending in Ep; by destruct (fin c)). by rewrite filter_cons_True.
    + destruct (fin c); [done|]. rewrite filter_cons_False by congruence. done.
  - intros x Hx Hxl. rewrite Hout by (auto || congruence). apply Hsame; [set_solver|done].
Qed.

Lemma schedule_flat t l k :
  flat t l k ->
  exists t' l' k', Tree.schedule fin checked t = (t', Ret (filter (fun x => pending t x = true) (turns (from_next l k)))) /\
    flat t' l' k' /\ forall x, x ∈ l' -> x ∈ l.
Proof.
  intros Hf. destruct (fl_root _ _ _ Hf) as (r & Hr & Hroot). pose proof Hroot as [R1 R2 R3 R4 R5 R6].
  unfold Tree.schedule. rewrite (call_bind_ret get _ t t t eq_refl). unfold Tree.depth.
  assert (Hsize : exists n, size (nodes t) = S n).
  { destruct (size (nodes t)) as [|n] eqn:E; [|eauto]. apply map_size_empty_inv in E. by rewrite E in Hr. }
  destruct Hsize as [fuel ->].
  assert (Hgather : exists t' l' k', Tree.gather fin (Tree.traverse fin checked (S fuel)) rootID t
      = (t', Ret (filter (fun x => pending t x = true) (turns (from_next l k)))) /\
      flat t' l' k' /\ forall x, x ∈ l' -> x ∈ l).
  { unfold Tree.gather. rewrite (withNode_eq t rootID r) by done. rewrite R2, R4, R5. rewrite andb_false_r.
    destruct l as [|c l0] eqn:El.
    { exists t, [], k. unfold from_next. by rewrite drop_nil, take_nil. }
    rewrite <- El in *. replace (0 <? Z.of_nat (length l)) with true
      by (symmetry; apply Z.ltb_lt; rewrite El; cbn; lia). cbn [andb negb orb].
    destruct (over_children fuel (length l) 0 t l k (from_next l k) Hf) as (t' & l' & k' & E & Hf' & Hsub & _).
    - rewrite take_ge; [done|]. rewrite length_from_next; [lia|]. destruct (fl_next _ _ _ Hf) as [[_ ->]|]; lia.
    - rewrite length_from_next; [done|]. destruct (fl_next _ _ _ Hf) as [[_ ->]|]; lia.
    - lia.
    - exists t', l', k'. done. }
  destruct Hgather as (t' & l' & k' & E & Hf' & Hsub). exists t', l', k'. split; [|done].
  cbn [Tree.traverse] in *. rewrite (call_bind_ret _ _ t t tt) by (rewrite (withNode_eq t rootID r) by done; by rewrite R2).
  rewrite (call_bind_ret _ _ t t tt) by (rewrite (withNode_eq t rootID r) by done; by rewrite R2).
  rewrite (call_bind_ret _ _ _ _ _ E). destruct (fl_root _ _ _ Hf') as (r' & Hr' & Hroot').
  rewrite (call_bind_ret _ _ t' t' tt); [done|]. rewrite (withNode_eq t' rootID r') by done. by rewrite (fr_parent _ _ _ Hroot').
Qed.

Lemma turns_sublist l : turns l `sublist_of` l.
Proof.
  assert (H : forall n l, (length l <= n)%nat -> turns l `sublist_of` l); [|by apply (H (length l) l)].
  clear l. induction n as [|n IH]; intros [|c l]; cbn; try done; [lia|]. intros Hn. destruct (fin c).
  - destruct l as [|d l]; [constructor; constructor|]. cbn in Hn. apply sublist_cons, sublist_cons, IH. lia.
  - apply sublist_skip, IH. lia.
Qed.

Lemma turns_all l : (forall x, x ∈ l -> fin x = false) -> turns l = l.
Proof.
  induction l as [|c l IH]; intros H; [done|]. cbn. rewrite (H c) by set_solver. f_equal. apply IH. set_solver.
Qed.
End Schedule.

(** ** Runs of a tree without dependencies *)
Lemma flat_length t l k : flat t l k -> (length l < size (nodes t))%nat.
Proof.
  intros Hf. assert (Hnd : NoDup (rootID :: l)).
  { apply NoDup_cons. split; [|apply Hf]. intros Hin. by destruct (fl_children _ _ _ Hf _ Hin). }
  assert (Hsub : list_to_set (C := gset Z) (rootID :: l) ⊆ dom (nodes t)).
  { intros x Hx%elem_of_list_to_set. apply elem_of_dom. apply elem_of_cons in Hx as [->|Hx].
    - destruct (fl_root _ _ _ Hf) as (r & -> & _). eauto.
    - destruct (fl_children _ _ _ Hf x Hx) as [_ (n & -> & _)]. eauto. }
  apply subseteq_size in Hsub. rewrite size_list_to_set, size_dom in Hsub by done. cbn in Hsub. lia.
Qed.

Lemma flat_add t l k id :
  flat t l k -> id <> rootID -> nodes t !! id = None -> Z.of_nat (size (nodes t)) < 2 ^ 16 ->
  exists t', Tree.addNode id t = (t', Ret tt) /\ flat t' (l ++ [id]) k.
Proof.
  intros Hf Hid Hnew Hsize. pose proof (flat_length _ _ _ Hf) as Hlen. destruct Hf as [(r & Hr & Hroot) Hnd _ Hk Hc Ho].
  pose proof Hroot as [R1 R2 R3 R4 R5 R6]. unfold Tree.addNode. set (n := newNode id true (Some rootID)).
  set (t1 := Tree.setNode n t). rewrite (call_bind_ret (update (Tree.setNode n)) _ t t1 tt eq_refl).
  assert (Hn1 : nodes t1 !! id = Some n) by apply lookup_insert_eq.
  assert (Hr1 : nodes t1 !! rootID = Some r) by (cbn; by rewrite lookup_insert_ne).
  unfold Tree.addWeightOf. rewrite (call_bind_ret get _ t1 t1 t1 eq_refl). unfold Tree.depth. cbn [Tree.addWeight].
  rewrite (withNode_eq t1 id n) by done.
  match goal with |- context [Tree.changeNode rootID ?g] => set (f := g) end.
  rewrite (call_bind_ret _ _ t1 (Tree.setNode (f r) t1) tt)
    by (unfold Tree.changeNode; by rewrite (withNode_eq t1 rootID r)).
  assert (Eid : n_id (f r) = rootID) by apply R1.
  assert (Hr2 : nodes (Tree.setNode (f r) t1) !! rootID = Some (f r)) by (cbn; rewrite R1; apply lookup_insert_eq).
  rewrite (withNode_eq _ rootID (f r)) by done. change (n_parent (f r)) with (n_parent r). rewrite R3.
  eexists. split; [done|]. assert (Hni : id ∉ l). { intros Hin. destruct (Hc id Hin) as [_ (m & Hm & _)]. congruence. }
  split.
  - exists (f r). split; [done|]. split; cbn; try done; [|by rewrite R5].
    rewrite R4, length_app. cbn. rewrite (uN_small 16) by (unfold in_range; lia). lia.
  - apply NoDup_app. split; [done|]. split; [set_solver|]. apply NoDup_singleton.
  - rewrite length_app. cbn. lia.
  - right. rewrite length_app. cbn. destruct Hk as [[-> ->]|]; cbn; lia.
  - intros x Hx. cbn. rewrite R1. apply elem_of_app in Hx as [Hx| ->%list_elem_of_singleton].
    + destruct (Hc x Hx) as [Hx0 (m & Hm & Hmc)]. split; [done|]. exists m. rewrite !lookup_insert_ne by congruence. done.
    + split; [done|]. exists n. rewrite lookup_insert_ne, lookup_insert_eq by done. by split.
  - intros x m Hm Hx0 Hx. cbn in Hm. rewrite R1, lookup_insert_ne in Hm by done.
    rewrite lookup_insert_ne in Hm by set_solver. apply Ho; [done..|set_solver].
Qed.

(** A node of a flat tree changes its weight, or the root the sum of the weights. *)
Lemma flat_reweigh t l k id n f :
  flat t l k -> nodes t !! id = Some n ->
  (forall m, n_id (f m) = n_id m /\ n_stream (f m) = n_stream m /\ n_state (f m) = n_state m /\
    activeChildren (f m) = activeChildren m /\ n_parent (f m) = n_parent m /\ children (f m) = children m /\
    nextChild (f m) = nextChild m) ->
  flat (Tree.setNode (f n) t) l k.
Proof.
  intros [(r & Hr & Hroot) Hnd Hlen Hk Hc Ho] Hn Hf. destruct (Hf n) as (F1 & F2 & F3 & F4 & F5 & F6 & F7).
  assert (Hid : n_id n = id).
  { destruct (decide (id = rootID)) as [->|Hne]; [assert (n = r) as -> by congruence; apply Hroot|].
    destruct (decide (id ∈ l)) as [Hin|Hni]; [|by apply (Ho id n)].
    destruct (Hc id Hin) as [_ (m & Hm & Hmc)]. assert (n = m) as -> by congruence. apply Hmc. }
  split; try done; cbn; rewrite F1, Hid.
  - destruct (decide (id = rootID)) as [->|Hne]; [|exists r; by rewrite lookup_insert_ne].
    assert (n = r) as -> by congruence. exists (f r). rewrite lookup_insert_eq. split; [done|].
    destruct Hroot. split; congruence.
  - intros x Hx. destruct (Hc x Hx) as [Hx0 (m & Hm & Hmc)]. split; [done|].
    destruct (decide (id = x)) as [->|Hne]; [|exists m; by rewrite lookup_insert_ne].
    assert (n = m) as -> by congruence. exists (f m). rewrite lookup_insert_eq. split; [done|]. destruct Hmc. split; congruence.
  - intros x m Hm Hx0 Hx. destruct (decide (id = x)) as [->|Hne]; [|rewrite lookup_insert_ne in Hm by done; by apply Ho].
    rewrite lookup_insert_eq in Hm. simplify_eq. destruct (Ho (n_id n) n Hn Hx0 Hx). split; congruence.
Qed.

Lemma flat_node t l k id n :
  flat t l k -> nodes t !! id = Some n -> id <> rootID ->
  n_parent n = Some rootID /\ (id ∈ l <-> n_state n = nodeActive) /\ (id ∈ l -> flat_child id n) /\
  (id ∉ l -> flat_closed id n).
Proof.
  intros Hf Hn Hid. destruct (decide (id ∈ l)) as [Hin|Hni].
  - destruct (fl_children _ _ _ Hf id Hin) as [_ (m & Hm & Hmc)]. assert (n = m) as -> by congruence.
    pose proof Hmc as []. naive_solver.
  - pose proof (fl_others _ _ _ Hf id n Hn Hid Hni) as Hd. pose proof Hd as []. split; [done|].
    split; [|naive_solver]. split; [done|]. intros E. congruence.
Qed.

Lemma flat_weight t l k id weight : flat t l k -> flat (Tree.maybeSetWeight id weight t).1 l k.
Proof.
  intros Hf. unfold Tree.maybeSetWeight. destruct (_ || _); [done|]. rewrite (call_bind_ret get _ t t t eq_refl).
  unfold Tree.nodeMap. destruct (Z.eqb_spec id rootID) as [->|Hid]; [done|]. destruct (nodes t !! id) as [n|] eqn:Hn; [|done].
  destruct (_ =? _); [done|]. destruct (flat_node t l k id n Hf Hn Hid) as (Hp & _). rewrite Hp.
  destruct (fl_root _ _ _ Hf) as (r & Hr & Hroot).
  assert (Hset : forall t1, flat t1 l k -> nodes t1 !! id = Some n ->
    flat (Tree.changeNode id (fun n => n <| n_weight := weight |>) t1).1 l k).
  { intros t1 Hf1 Hn1. unfold Tree.changeNode. rewrite (withNode_eq t1 id n) by done. cbn [update fst].
    apply (flat_reweigh t1 l k id n (fun n => n <| n_weight := weight |>)); done. }
  unfold when. destruct (Tree.counts n); [|by rewrite (call_bind_ret _ _ t t tt eq_refl); apply Hset].
  match goal with |- context [Tree.changeNode rootID ?g] => set (f := g) end.
  rewrite (call_bind_ret _ _ t (Tree.setNode (f r) t) tt) by (unfold Tree.changeNode; by rewrite (withNode_eq t rootID r)).
  apply Hset; [by apply (flat_reweigh t l k rootID r f)|]. cbn. rewrite (fr_id _ _ _ Hroot), lookup_insert_ne by done. done.
Qed.

(** Printing changes the index of the next child only. *)
Lemma flat_print t l k : rooted t -> flat t l k -> exists k', flat (Tree.printTree t).1 l k'.
Proof.
  intros Ht [(r & Hr & Hroot) Hnd Hlen Hk Hc Ho]. destruct (printTree_in _ _ t Ht) as [Ht' Hp].
  destruct (printed_node _ _ _ _ Hp Hr) as (r' & Hr' & Et). destruct Hroot as [R1 R2 R3 R4 R5 R6].
  pose proof (no_next _ _ _ _ (ro_nodes _ _ _ Ht' _ _ Hr')) as Hn. rewrite Et in Hn. cbn in Hn. rewrite R5 in Hn.
  exists (nextChild r'). split; try done.
  - exists r'. split; [done|]. by split; rewrite Et.
  - destruct l; [left; cbn in Hn; split; [done|lia]|right; cbn in *; lia].
  - intros id Hid. destruct (Hc id Hid) as [Hne (n & Hn1 & [])]. split; [done|].
    destruct (printed_node _ _ _ _ Hp Hn1) as (n' & Hn' & En). exists n'. split; [done|]. by split; rewrite En.
  - intros id n' Hn' Hne Hni. destruct Hp as [_ Hp]. specialize (Hp id). rewrite Hn' in Hp.
    inversion Hp as [n ? En En1|]. destruct (Ho id n) as []; [done..|]. by split; rewrite En.
Qed.

(** The operations on a tree of streams that depend on the root only; fewer than 2^16 streams. *)
Inductive tree_step : streamTree -> streamTree -> Prop :=
  | tree_add id t :
      id <> rootID -> nodes t !! id = None -> Z.of_nat (size (nodes t)) < 2 ^ 16 -> tree_step t (Tree.addNode id t).1
  | tree_weight id weight t : tree_step t (Tree.maybeSetWeight id weight t).1
  | tree_parent id parent t : parent = 0 \/ parent = 3 -> tree_step t (Tree.maybeSetParent id parent false t).1
  | tree_schedule fin checked t : tree_step t (Tree.schedule fin checked t).1
  | tree_print t : tree_step t (Tree.printTree t).1.

Lemma flat_step t t' l k : tree_step t t' -> rooted t -> flat t l k -> rooted t' /\ exists l' k', flat t' l' k'.
Proof.
  intros Hs Ht Hf. destruct Hs.
  - destruct (flat_add t l k id Hf) as (t' & E & Hf'); [done..|]. destruct (addNode_rooted id t) as (t2 & E2 & Ht2); [done..|].
    rewrite E in *. simplify_eq/=. eauto.
  - split; [|eexists _, _; by apply flat_weight]. revert Ht. apply rooted_always. intros D. apply rooted_maybeSetWeight.
  - rewrite setParent_plain by tauto. eauto.
  - destruct (schedule_flat fin checked t l k Hf) as (t' & l' & k' & E & Hf' & _). split; [|rewrite E; eauto].
    revert Ht. apply rooted_always. intros D. apply rooted_schedule.
  - split; [by apply rooted_print|]. destruct (flat_print t l k Ht Hf) as [k' ?]. eauto.
Qed.

Lemma flat_reachable t : rtc tree_step newStreamTree t -> exists l k, flat t l k.
Proof.
  intros Hr. assert (H0 : rooted newStreamTree /\ exists l k, flat newStreamTree l k)
    by (split; [apply rooted_new|exists [], 0; apply flat_new]).
  induction Hr as [|a b c Hab _ IH]; [apply H0|]. apply IH. destruct H0 as (Ha & l & k & Hf). by eapply flat_step.
Qed.

(** C21: While all streams depend on the root, with any weights, scheduling never panics: it returns streams
    of the tree that are active, not finished, not visited before and of unknown size, none of them twice.
    When no stream of the tree is finished, it returns all of these. *)
Theorem tree_schedules t fin checked :
  rtc tree_step newStreamTree t ->
  exists t' res, Tree.schedule fin checked t = (t', Ret res) /\ NoDup res /\
    (forall id, id ∈ res -> id <> rootID /\ fin id = false /\ checked id = false /\
       exists n, nodes t !! id = Some n /\ n_state n = nodeActive /\ visited n = false) /\
    ((forall id n, nodes t !! id = Some n -> id <> rootID -> n_state n = nodeActive -> fin id = false) ->
     forall id n, nodes t !! id = Some n -> id <> rootID -> n_state n = nodeActive -> visited n = false ->
       checked id = false -> id ∈ res).
Proof.
  intros Hr. destruct (flat_reachable t Hr) as (l & k & Hf).
  destruct (schedule_flat fin checked t l k Hf) as (t' & l' & k' & E & _ & _). eexists _, _. split; [exact E|].
  split; [|split].
  - apply NoDup_filter. apply (sublist_NoDup _ (from_next l k)); [apply from_next_nodup, Hf|apply turns_sublist].
  - intros id [Hp Hin]%list_elem_of_filter. apply (turns_sub fin checked), from_next_in in Hin.
    destruct (fl_children _ _ _ Hf id Hin) as [Hne (n & Hn & Hc)]. unfold pending in Hp. rewrite Hn in Hp. cbn in Hp.
    rewrite !andb_true_iff, !negb_true_iff in Hp. destruct Hp as [[? ?] ?]. split; [done|]. do 2 (split; [done|]).
    exists n. split; [done|]. split; [apply Hc|done].
  - intros Hfin id n Hn Hne Hact Hvis Hchk. destruct (flat_node t l k id n Hf Hn Hne) as (_ & Hin & _).
    apply list_elem_of_filter. split.
    + unfold pending. rewrite Hn. cbn. by rewrite (Hfin id n), Hchk, Hvis.
    + rewrite (turns_all fin checked); [by apply from_next_in, Hin|]. intros x Hx%from_next_in.
      destruct (fl_children _ _ _ Hf x Hx) as [Hx0 (m & Hm & Hc)]. apply (Hfin x m); [done..|apply Hc].
Qed.

Definition example_tree : streamTree := ((Tree.addNode 5;; Tree.addNode 7;; Tree.maybeSetWeight 7 200) newStreamTree).1.

Lemma example_tree_run : rtc tree_step newStreamTree example_tree.
Proof.
  eapply rtc_l; [apply (tree_add 5); [done|by vm_compute|by vm_compute]|].
  eapply rtc_l; [apply (tree_add 7); [done|by vm_compute|by vm_compute]|].
  eapply rtc_l; [apply (tree_weight 7 200)|]. vm_compute. apply rtc_refl.
Qed.

Lemma tree_schedules_witness : exists t', Tree.schedule (fun _ => false) (fun id => id =? 7) example_tree = (t', Ret [5]).
Proof.
  destruct (tree_schedules example_tree (fun _ => false) (fun id => id =? 7) example_tree_run) as (t' & res & E & _).
  exists t'. rewrite E. f_equal. assert (Hres : (Tree.schedule (fun _ => false) (fun id => id =? 7) example_tree).2 = Ret [5])
    by (vm_compute; reflexivity). rewrite E in Hres. exact Hres.
Defined.

(** Dependencies between streams take streams out of the tree for good.  When the only stream that
    depends on stream 5 is moved to depend on another one, stream 5 is no longer in the tree, although it is
    active and never was on a path.  When stream 13 becomes the exclusive child of stream 5, which three
    streams depend on, one of these is in no list of children, one is listed twice, and the root has no
    children any more: no stream is scheduled again. *)
Lemma dependencies_lose_streams :
  let never (_ : Z) := false in
  let moved := (forEach [5; 7; 9] Tree.addNode;; Tree.maybeSetParent 7 5 false;; Tree.maybeSetParent 7 9 false)
                 newStreamTree in
  let exclusive := (forEach [5; 7; 9; 11; 13] Tree.addNode;;
                    forEach [7; 9; 11] (fun id => Tree.maybeSetParent id 5 false);;
                    Tree.maybeSetParent 13 5 true) newStreamTree in
  (moved.2 = Ret tt /\ (Tree.schedule never never moved.1).2 = Ret [9]) /\
  (exclusive.2 = Ret tt /\ (Tree.schedule never never exclusive.1).2 = Ret [] /\
   children <$> nodes exclusive.1 !! 13 = Some [7; 11; 11] /\ children <$> nodes exclusive.1 !! rootID = Some []).
Proof. vm_compute. repeat split; reflexivity. Qed.
