(* ===== verification/Stream.v ===== *)
(** * Streams

    Models [stream.go]: the two halves of a stream over the frame sorter and flow control.  The
    mutex makes each method one step; [Read] and [Write] are split where they wait for a signal, so
    other methods can run in between.  The channels [readChan] and [writeChan] hold at most one
    signal.  A [time.Time] is a number, the zero time is 0.  The callbacks [onData] and [onReset]
    are recorded in the order of the calls.  The fields the path scheduler keeps in a stream (size,
    priority, volume per path, request path) are left out. *)
From S2P Require Import Prelude MinMax ByteOrder PacketNumber Frames FrameSorter FlowControl.
From stdpp Require Import pretty.

Open Scope Z_scope.
Open Scope go_scope.

Inductive callback :=
  | OnData
  | OnReset (id offset : Z).

Record stream := mkStream {
  str_id : Z;
  ctxDone : bool;
  readPosInFrame : Z;
  writeOffset : Z;
  readOffset : Z;
  str_err : option error;
  cancelled : bool;
  finishedReading : bool;
  finishedWriting : bool;
  resetLocally : bool;
  resetRemotely : bool;
  frameQueue : streamFrameSorter;
  readChan : bool;
  readDeadline : Z;
  dataForWriting : option (list Z);
  finSent : bool;
  rstSent : bool;
  writeChan : bool;
  writeDeadline : Z;
  callbacks : list callback
}.

Definition eta_stream (s : stream) : stream :=
  mkStream (str_id s) (ctxDone s) (readPosInFrame s) (writeOffset s) (readOffset s) (str_err s)
    (cancelled s) (finishedReading s) (finishedWriting s) (resetLocally s) (resetRemotely s)
    (frameQueue s) (readChan s) (readDeadline s) (dataForWriting s) (finSent s) (rstSent s)
    (writeChan s) (writeDeadline s) (callbacks s).
#[export] Instance set_ctxDone : Setter ctxDone := ltac:(field_setter eta_stream).
#[export] Instance set_readPosInFrame : Setter readPosInFrame := ltac:(field_setter eta_stream).
#[export] Instance set_writeOffset : Setter writeOffset := ltac:(field_setter eta_stream).
#[export] Instance set_readOffset : Setter readOffset := ltac:(field_setter eta_stream).
#[export] Instance set_str_err : Setter str_err := ltac:(field_setter eta_stream).
#[export] Instance set_cancelled : Setter cancelled := ltac:(field_setter eta_stream).
#[export] Instance set_finishedReading : Setter finishedReading := ltac:(field_setter eta_stream).
#[export] Instance set_finishedWriting : Setter finishedWriting := ltac:(field_setter eta_stream).
#[export] Instance set_resetLocally : Setter resetLocally := ltac:(field_setter eta_stream).
#[export] Instance set_resetRemotely : Setter resetRemotely := ltac:(field_setter eta_stream).
#[export] Instance set_frameQueue : Setter frameQueue := ltac:(field_setter eta_stream).
#[export] Instance set_readChan : Setter readChan := ltac:(field_setter eta_stream).
#[export] Instance set_readDeadline : Setter readDeadline := ltac:(field_setter eta_stream).
#[export] Instance set_dataForWriting : Setter dataForWriting := ltac:(field_setter eta_stream).
#[export] Instance set_finSent : Setter finSent := ltac:(field_setter eta_stream).
#[export] Instance set_rstSent : Setter rstSent := ltac:(field_setter eta_stream).
#[export] Instance set_writeChan : Setter writeChan := ltac:(field_setter eta_stream).
#[export] Instance set_writeDeadline : Setter writeDeadline := ltac:(field_setter eta_stream).
#[export] Instance set_callbacks : Setter callbacks := ltac:(field_setter eta_stream).

Definition errDeadline : error := ErrorString "deadline exceeded".
Definition writeOnClosed (id : Z) : error :=
  ErrorString ("write on closed stream " +:+ pretty id).

(** [newStream], [newStreamPriority] and [newStreamPrioritySize] differ in the fields left out. *)
Definition newStream (id : Z) : stream :=
  mkStream id false 0 0 0 None false false false false false newStreamFrameSorter false 0 None
    false false false 0 [].

Definition bugBytesRead (bytesRead len : Z) : error :=
  ErrorString ("BUG: bytesRead (" +:+ pretty bytesRead +:+ ") > len(p) (" +:+ pretty len
               +:+ ") in stream.Read").
Definition bugReadPos (readPos dataLen : Z) : error :=
  ErrorString ("BUG: readPosInFrame (" +:+ pretty readPos +:+ ") > frame.DataLen ("
               +:+ pretty dataLen +:+ ") in stream.Read").

(** What a call of [Read] or [Write] does next: wait for a signal, or return.  [Read] returns the
    bytes copied to the caller, whose number is its first result. *)
Inductive readResult :=
  | ReadWait
  | ReadReturn (bytes : list Z) (e : option error)
  | ReadPanic (why : string).

Inductive writeResult :=
  | WriteWait
  | WriteReturn (n : Z) (e : option error).

Module Stream.
Definition onData (s : stream) : stream := s <| callbacks := callbacks s ++ [OnData] |>.
Definition onReset (s : stream) : stream :=
  s <| callbacks := callbacks s ++ [OnReset (str_id s) (writeOffset s)] |>.
Definition signalRead (s : stream) : stream := s <| readChan := true |>.
Definition signalWrite (s : stream) : stream := s <| writeChan := true |>.

Definition expired (now deadline : Z) : bool := negb (deadline =? 0) && negb (now <? deadline).

Definition finishedWriteAndSentFin (s : stream) : bool := finishedWriting s && finSent s.

(** [m] bytes of the frame at the head went to the caller. *)
Definition readFrame (now m : Z) (s : stream) (f : flowControlManager)
    : stream * flowControlManager :=
  let s := s <| readPosInFrame := readPosInFrame s + m |>
             <| readOffset := readOffset s +64 m |> in
  let f := if negb (resetRemotely s) then (Manager.AddBytesRead f now (str_id s) m).1 else f in
  (onData s, f).

(** The loop of [Read]; [bytes] were copied so far, [fuel] bounds the iterations.  [s.err] may be
    nil on a cancelled stream, and then [frame] may be nil. *)
Fixpoint readLoop (fuel : nat) (now len : Z) (bytes : list Z) (s : stream) (f : flowControlManager)
    : stream * flowControlManager * readResult :=
  match fuel with
  | O => (s, f, ReadPanic "fuel")
  | S fuel' =>
      let bytesRead := Z.of_nat (length bytes) in
      if bytesRead <? len then
        let head := Sorter.Head (frameQueue s) in
        if negb (bool_decide (is_Some head)) && (0 <? bytesRead)
        then (s, f, ReadReturn bytes (str_err s))
        else if (resetLocally s || cancelled s) && bool_decide (is_Some (str_err s))
        then (s, f, ReadReturn bytes (str_err s))
        else if negb (resetLocally s || cancelled s) && expired now (readDeadline s)
        then (s, f, ReadReturn bytes (Some errDeadline))
        else
          match head with
          | None =>
              if resetLocally s || cancelled s
              then (s, f, ReadPanic "invalid memory address or nil pointer dereference")
              else (s, f, ReadWait)
          | Some frame =>
              let s := if resetLocally s || cancelled s then s
                       else s <| readPosInFrame := i64 (readOffset s -64 Offset frame) |> in
              let m := utils.Min (len - bytesRead) (DataLen frame - readPosInFrame s) in
              if len <? bytesRead then (s, f, ReadReturn bytes (Some (bugBytesRead bytesRead len)))
              else if DataLen frame <? readPosInFrame s
              then (s, f, ReadReturn bytes (Some (bugReadPos (readPosInFrame s) (DataLen frame))))
              else if readPosInFrame s <? 0
              then (s, f, ReadPanic "slice bounds out of range")
              else
                let bytes := bytes ++ take (Z.to_nat m)
                               (drop (Z.to_nat (readPosInFrame s)) (Data frame)) in
                let '(s, f) := readFrame now m s f in
                if DataLen frame <=? readPosInFrame s then
                  let s := s <| frameQueue := (Sorter.Pop (frameQueue s)).1 |> in
                  if FinBit frame
                  then (s <| finishedReading := true |>, f, ReadReturn bytes (Some EOF))
                  else readLoop fuel' now len bytes s f
                else readLoop fuel' now len bytes s f
          end
      else (s, f, ReadReturn bytes None)
  end.

(** The iterations are as many as there are frames queued, and two more. *)
Definition readFuel (s : stream) : nat := S (S (size (queuedFrames (frameQueue s)))).

(** [Read] into a buffer of [len] bytes, up to the point where it returns or waits. *)
Definition Read (now len : Z) (s : stream) (f : flowControlManager)
    : stream * flowControlManager * readResult :=
  if cancelled s || resetLocally s then (s, f, ReadReturn [] (str_err s))
  else if finishedReading s then (s, f, ReadReturn [] (Some EOF))
  else readLoop (readFuel s) now len [] s f.

(** A call of [Read] that waits has copied nothing; after a signal it goes on in the loop. *)
Definition readResume (now len : Z) (s : stream) (f : flowControlManager)
    : stream * flowControlManager * readResult :=
  readLoop (readFuel s) now len [] s f.

(** The start of [Write], up to the loop. *)
Definition Write (p : list Z) (s : stream) : stream * writeResult :=
  if resetLocally s || bool_decide (is_Some (str_err s)) then (s, WriteReturn 0 (str_err s))
  else if finishedWriting s then (s, WriteReturn 0 (Some (writeOnClosed (str_id s))))
  else if (length p =? 0)%nat then (s, WriteReturn 0 None)
  else (onData (s <| dataForWriting := Some p |>), WriteWait).

(** One iteration of the loop of [Write] of [n] bytes, and what follows it. *)
Definition writeLoop (now n : Z) (s : stream) : writeResult :=
  if expired now (writeDeadline s) then WriteReturn 0 (Some errDeadline)
  else
    match dataForWriting s, str_err s with
    | Some _, None => WriteWait
    | data, Some e => WriteReturn (n - Z.of_nat (length (default [] data))) (Some e)
    | None, None => WriteReturn n None
    end.

Definition lenOfDataForWriting (s : stream) : Z :=
  match str_err s with
  | None => Z.of_nat (length (default [] (dataForWriting s)))
  | Some _ => 0
  end.

Definition getDataForWriting (maxBytes : Z) (s : stream) : option (list Z) * stream :=
  match str_err s, dataForWriting s with
  | None, Some data =>
      let '(ret, s) :=
        if maxBytes <? Z.of_nat (length data)
        then (take (Z.to_nat maxBytes) data,
              s <| dataForWriting := Some (drop (Z.to_nat maxBytes) data) |>)
        else (data, signalWrite (s <| dataForWriting := None |>)) in
      (Some ret, s <| writeOffset := writeOffset s +64 Z.of_nat (length ret) |>)
  | _, _ => (None, s)
  end.

Definition Close (s : stream) : stream :=
  onData (s <| finishedWriting := true |> <| ctxDone := true |>).

Definition shouldSendReset (s : stream) : bool :=
  if rstSent s then false
  else (resetLocally s || resetRemotely s) && negb (finishedWriteAndSentFin s).

Definition shouldSendFin (s : stream) : bool :=
  finishedWriting s && negb (finSent s) && bool_decide (str_err s = None)
  && bool_decide (dataForWriting s = None).

Definition sentFin (s : stream) : stream := s <| finSent := true |>.

Definition AddStreamFrame (frame : StreamFrame) (s : stream) (f : flowControlManager)
    : stream * flowControlManager * outcome unit :=
  let maxOffset := Offset frame +64 DataLen frame in
  match Manager.UpdateHighestReceived f (str_id s) maxOffset with
  | (f, Ret _) =>
      let '(q, r) := Sorter.Push (frameQueue s) frame in
      let s := s <| frameQueue := q |> in
      match r with
      | Ret _ => (signalRead s, f, Ret tt)
      | Err e => if decide (e = errDuplicateStreamData) then (signalRead s, f, Ret tt)
                 else (s, f, Err e)
      | Panic why => (s, f, Panic why)
      end
  | (f, r) => (s, f, r)
  end.

Definition SetReadDeadline (t : Z) (s : stream) : stream :=
  let oldDeadline := readDeadline s in
  let s := s <| readDeadline := t |> in
  if t <? oldDeadline then signalRead s else s.

Definition SetWriteDeadline (t : Z) (s : stream) : stream :=
  let oldDeadline := writeDeadline s in
  let s := s <| writeDeadline := t |> in
  if t <? oldDeadline then signalWrite s else s.

Definition SetDeadline (t : Z) (s : stream) : stream := SetWriteDeadline t (SetReadDeadline t s).

(** The error of [AddStreamFrame] is ignored. *)
Definition CloseRemote (offset : Z) (s : stream) (f : flowControlManager) : stream * flowControlManager :=
  (AddStreamFrame (mkStreamFrame 0 true false offset []) s f).1.

Definition Cancel (e : option error) (s : stream) : stream :=
  let s := s <| cancelled := true |> <| ctxDone := true |> in
  match str_err s with
  | None => signalWrite (signalRead (s <| str_err := e |>))
  | Some _ => s
  end.

Definition sendReset (s : stream) : stream :=
  if shouldSendReset s then onReset s <| rstSent := true |> else s.

Definition Reset (e : option error) (s : stream) : stream :=
  if resetLocally s then s
  else
    let s := s <| resetLocally := true |> <| ctxDone := true |> in
    sendReset
      match str_err s with
      | None => signalWrite (signalRead (s <| str_err := e |>))
      | Some _ => s
      end.

Definition RegisterRemoteError (e : option error) (s : stream) : stream :=
  if resetRemotely s then s
  else
    let s := s <| resetRemotely := true |> <| ctxDone := true |> in
    sendReset
      match str_err s with
      | None => signalWrite (s <| str_err := e |>)
      | Some _ => s
      end.

Definition finished (s : stream) : bool :=
  cancelled s
  || (finishedReading s && finishedWriteAndSentFin s)
  || (resetRemotely s && rstSent s)
  || (finishedReading s && rstSent s)
  || (finishedWriteAndSentFin s && resetRemotely s).

Definition GetBytesSent (s : stream) (f : flowControlManager) : outcome Z :=
  Manager.GetBytesSent f (str_id s).
Definition GetBytesRetrans (s : stream) (f : flowControlManager) : outcome Z :=
  Manager.GetBytesRetrans f (str_id s).
End Stream.

(** ** The receiving half *)
Section Receiving.
Context (content : Z -> Z) (final : Z).
Hypothesis Hsmall : 0 <= final < 2 ^ 63.

Lemma Hfinal : 0 <= final < MaxByteCount.
Proof. unfold MaxByteCount. lia. Qed.

(** The last byte of a frame with FIN and data was not received before, or all of the frame was. *)
Fixpoint clean_history (fs : list StreamFrame) : Prop :=
  match fs with
  | [] => True
  | f :: fs' =>
      (FinBit f = true -> DataLen f <> 0 ->
        ~ sent (Offset f + DataLen f - 1) fs' \/
        forall x, Offset f <= x < Offset f + DataLen f -> sent x fs') /\
      clean_history fs'
  end.

(** The frames [fs] arrived and the bytes [out] were read. *)
Record recv_ok (s : stream) (fs : list StreamFrame) (out : list Z) : Prop := {
  rv_sorter : sorter_ok content final (frameQueue s);
  rv_out : slice_of content 0 out;
  rv_len : Z.of_nat (length out) = readOffset s;
  rv_pos : readOffset s = readPosition (frameQueue s) \/
    exists g, Sorter.Head (frameQueue s) = Some g /\
      0 <= readOffset s - readPosition (frameQueue s) < DataLen g;
  rv_sent : forall x, 0 <= x < MaxByteCount -> missing x (gaps (frameQueue s)) <-> ~ sent x fs;
  rv_fin : clean_history fs -> fin_ok final (frameQueue s);
  rv_done : finishedReading s = true -> clean_history fs -> Z.of_nat (length out) = final
}.

Lemma recv_new id : recv_ok (newStream id) [] [].
Proof.
  split; [apply sorter_ok_new|done|done|by left| |intros _; apply map_Forall_empty|done]. cbn.
  intros x Hx. rewrite missing_cons. cbn. unfold sent. set_solver by lia.
Qed.

(** Nothing waits at the head exactly when the next byte to read did not arrive. *)
Lemma head_none s fs out :
  recv_ok s fs out -> Sorter.Head (frameQueue s) = None ->
  readOffset s = readPosition (frameQueue s) /\ ~ sent (readOffset s) fs.
Proof.
  intros [Hs Ho Hl Hp Hm _ _] Hh. destruct Hp as [Hp|(g & Hg & _)]; [|congruence]. split; [done|].
  pose proof (Pop_ok content final Hfinal _ Hs) as Hpop. unfold Sorter.Pop in Hpop. rewrite Hh in Hpop.
  destruct Hpop as [_ Hmiss]. rewrite Hp. pose proof Hs as [Hlay Hr _].
  pose proof (layout_missing _ _ _ _ Hlay Hmiss). apply Hm; [lia|done].
Qed.

(** The position in the frame at the head. *)
Lemma head_some s fs out g :
  recv_ok s fs out -> Sorter.Head (frameQueue s) = Some g ->
  Offset g = readPosition (frameQueue s) /\ 0 <= Offset g /\ Offset g + DataLen g <= final /\
  i64 (readOffset s -64 Offset g) = readOffset s - Offset g /\
  0 <= readOffset s - Offset g <= DataLen g.
Proof.
  intros [Hs _ _ Hp _ _ _] Hh. pose proof Hs as [_ Hr Hq]. destruct (Hq _ _ Hh) as [Ho _ He _ _ _].
  pose proof (DataLen_nonneg g).
  assert (0 <= readOffset s - Offset g <= DataLen g).
  { destruct Hp as [->|(g' & Hg' & ?)]; [lia|]. rewrite Hh in Hg'. simplify_eq. lia. }
  repeat split; try lia. usmall. apply i64_small. unfold is_i64. lia.
Qed.

(** The state [s'] after [out'] was read of the frame [g] at the head of [s]. *)
Record after_read (s s' : stream) (out' : list Z) : Prop := {
  ar_queue : frameQueue s' = frameQueue s;
  ar_reading : finishedReading s' = false;
  ar_out : slice_of content 0 out';
  ar_len : Z.of_nat (length out') = readOffset s'
}.

(** Frames read from the head. *)
Lemma recv_take s fs out g m now f s' f' :
  recv_ok s fs out -> Sorter.Head (frameQueue s) = Some g -> finishedReading s = false ->
  readPosInFrame s = readOffset s - Offset g -> 0 <= m <= DataLen g - readPosInFrame s ->
  Stream.readFrame now m s f = (s', f') ->
  readPosInFrame s' = readPosInFrame s + m /\ frameQueue s' = frameQueue s /\
  str_err s' = str_err s /\ cancelled s' = cancelled s /\ resetLocally s' = resetLocally s /\
  readOffset s' = readOffset s + m /\
  let bytes := take (Z.to_nat m) (drop (Z.to_nat (readPosInFrame s)) (Data g)) in
  after_read s s' (out ++ bytes) /\ Z.of_nat (length bytes) = m.
Proof.
  intros Hok Hh Hfr Hpos Hm Hread.
  destruct (head_some s fs out g Hok Hh) as (Hog & Hg0 & Hge & _ & Hr).
  destruct Hok as [Hs Ho Hl _ _ _ _]. pose proof Hs as [_ _ Hq]. destruct (Hq _ _ Hh) as [_ _ _ Hd _ _].
  unfold Stream.readFrame in Hread. injection Hread as <- _. cbn.
  assert (Hro : readOffset s +64 m = readOffset s + m) by (usmall; lia).
  assert (Hlen : Z.of_nat (length (take (Z.to_nat m) (drop (Z.to_nat (readPosInFrame s)) (Data g)))) = m)
    by (rewrite length_take, length_drop; unfold DataLen in *; lia).
  repeat (split; [done|]). cbv zeta. split; [|done]. split; cbn; [done..| |].
  - apply slice_app; [done|]. rewrite Hl. apply slice_take.
    replace (readOffset s) with (readPosition (frameQueue s) + readPosInFrame s) by lia.
    apply slice_drop; [lia|done].
  - rewrite Hro, length_app. lia.
Qed.

Lemma recv_partial s s' fs out out' g :
  recv_ok s fs out -> Sorter.Head (frameQueue s) = Some g -> after_read s s' out' ->
  0 <= readOffset s' - Offset g < DataLen g -> recv_ok s' fs out'.
Proof.
  intros Hok Hh [Hq Hfr Ho' Hl'] Hpos. destruct (head_some s fs out g Hok Hh) as (Hog & _).
  destruct Hok as [Hs _ _ _ Hm Hf _]. split; rewrite ?Hq; try done; [|congruence].
  right. exists g. split; [done|lia].
Qed.

Lemma recv_pop s s' fs out out' g :
  recv_ok s fs out -> Sorter.Head (frameQueue s) = Some g -> after_read s s' out' ->
  readOffset s' = Offset g + DataLen g ->
  let s'' := s' <| frameQueue := (Sorter.Pop (frameQueue s')).1 |> in
  recv_ok s'' fs out' /\ (FinBit g = true -> recv_ok (s'' <| finishedReading := true |>) fs out') /\
  S (size (queuedFrames (frameQueue s''))) = size (queuedFrames (frameQueue s)).
Proof.
  intros Hok Hh [Hq Hfr Ho' Hl'] Hro s''. destruct (head_some s fs out g Hok Hh) as (Hog & Hg0 & Hge & _ & Hr).
  destruct Hok as [Hs _ _ _ Hm Hf _]. pose proof (Pop_ok content final Hfinal _ Hs) as Hpop.
  assert (Hsize : S (size (queuedFrames (Sorter.Pop (frameQueue s)).1)) = size (queuedFrames (frameQueue s))).
  { unfold Sorter.Pop. rewrite Hh. cbn. rewrite Hog. unfold Sorter.Head in Hh.
    rewrite map_size_delete, Hh. cbn. assert (size (queuedFrames (frameQueue s)) <> 0%nat); [|lia].
    rewrite map_size_non_empty_iff. intros E. rewrite E, lookup_empty in Hh. done. }
  assert (Hfin : FinBit g = true -> clean_history fs -> Z.of_nat (length out') = final).
  { intros Hfb Hc. rewrite Hl', Hro, Hog. by apply (Hf Hc (readPosition (frameQueue s)) g). }
  pose proof (Pop_fin_ok final (frameQueue s)) as Hpf.
  unfold s''. rewrite Hq. clear s''.
  unfold Sorter.Pop in *. rewrite Hh in *. destruct Hpop as (Hs' & Hg' & _ & Hrp & _).
  split; [|split; [intros Hfb|exact Hsize]].
  all: split; cbn [frameQueue readOffset finishedReading] in *; try done; auto; cbn in *; try congruence.
  all: left; cbn in *; lia.
Qed.

Lemma recv_ext s s' fs out :
  frameQueue s' = frameQueue s -> readOffset s' = readOffset s ->
  finishedReading s' = finishedReading s -> recv_ok s fs out -> recv_ok s' fs out.
Proof. intros Hq Hr Hf [? ? ? ? ? ? ?]. by split; rewrite ?Hq, ?Hr, ?Hf. Qed.

(** What a call of [Read] that had copied [bytes] does: it adds bytes of the stream, reports EOF,
    an expired deadline or the error of the stream, and otherwise stops short of [len] bytes only
    when the next byte did not arrive. *)
Definition read_post (fs : list StreamFrame) (out : list Z) (len : Z) (bytes : list Z) (s s' : stream)
    (r : readResult) : Prop :=
  match r with
  | ReadWait => recv_ok s' fs out /\ 0 < len /\ ~ sent (readOffset s') fs
  | ReadReturn bytes' e =>
      recv_ok s' fs (out ++ bytes') /\ Z.of_nat (length bytes') <= Z.max len (Z.of_nat (length bytes)) /\
      (e = None \/ e = str_err s \/ e = Some errDeadline \/ e = Some EOF /\ finishedReading s' = true) /\
      (e = None -> Z.of_nat (length bytes') < len -> ~ sent (readOffset s') fs)
  | ReadPanic _ => False
  end.

Lemma read_post_ext fs out len bytes bytes' s1 s (o : stream * flowControlManager * readResult) :
  str_err s1 = str_err s -> Z.of_nat (length bytes') <= len ->
  (let '(s', _, r) := o in read_post fs out len bytes' s1 s' r) ->
  let '(s', _, r) := o in read_post fs out len bytes s s' r.
Proof.
  intros He Hl. destruct o as [[s' f'] r]. unfold read_post. rewrite He.
  destruct r; [done| |done]. intros (? & ? & ? & ?). repeat (split; [done||lia|]). done.
Qed.

Lemma readLoop_ok fs out (len now : Z) (fuel : nat) : forall (bytes : list Z) (s : stream) (f : flowControlManager),
  recv_ok s fs (out ++ bytes) -> finishedReading s = false -> 
  (resetLocally s || cancelled s = true -> is_Some (str_err s)) ->
  (S (size (queuedFrames (frameQueue s))) < fuel)%nat \/
    len <= Z.of_nat (length bytes) /\ (0 < fuel)%nat ->
  let '(s', _, r) := Stream.readLoop fuel now len bytes s f in read_post fs out len bytes s s' r.
Proof.
  induction fuel as [|fuel IH]; intros bytes s f Hok Hfr Hc Hfuel; [lia|]. cbn [Stream.readLoop].
  destruct (Z.ltb_spec (Z.of_nat (length bytes)) len) as [Hlt|Hge].
  2: { split; [done|]. split; [lia|]. split; [by left|lia]. }
  destruct (Sorter.Head (frameQueue s)) as [g|] eqn:Hh.
  2: { destruct (head_none s fs _ Hok Hh) as [Hro Hns].
       rewrite bool_decide_eq_false_2 by (by intros []). cbn [negb andb].
       destruct (Z.ltb_spec 0 (Z.of_nat (length bytes))).
       { split; [done|]. split; [lia|]. split; [by right; left|done]. }
       assert (bytes = []) as -> by (destruct bytes; [done|cbn in *; lia]).
       destruct (resetLocally s || cancelled s) eqn:Erc; cbn [andb negb].
       - rewrite bool_decide_eq_true_2 by auto. split; [done|]. split; [cbn; lia|]. split; [by right; left|done].
       - destruct (Stream.expired now (readDeadline s)).
         + split; [done|]. split; [cbn; lia|]. split; [auto|done].
         + rewrite app_nil_r in Hok. cbn in Hlt. done. }
  rewrite bool_decide_eq_true_2 by done. cbn [negb andb].
  destruct (resetLocally s || cancelled s) eqn:Erc; cbn [andb negb].
  { rewrite bool_decide_eq_true_2 by auto. split; [done|]. split; [lia|]. split; [by right; left|].
    intros Hn. destruct (Hc eq_refl). congruence. }
  destruct (Stream.expired now (readDeadline s)).
  { split; [done|]. split; [lia|]. split; [auto|done]. }
  destruct (head_some s fs _ g Hok Hh) as (Hog & Hg0 & Hge & Hi & Hr). rewrite Hi.
  set (s1 := s <| readPosInFrame := readOffset s - Offset g |>).
  assert (Hok1 : recv_ok s1 fs (out ++ bytes)) by (by apply (recv_ext s)).
  change (readPosInFrame s1) with (readOffset s - Offset g).
  destruct (Z.ltb_spec len (Z.of_nat (length bytes))); [lia|].
  destruct (Z.ltb_spec (DataLen g) (readOffset s - Offset g)); [lia|].
  destruct (Z.ltb_spec (readOffset s - Offset g) 0); [lia|].
  set (m := utils.Min _ _).
  assert (Hm : m = Z.min (len - Z.of_nat (length bytes)) (DataLen g - (readOffset s - Offset g)))
    by (unfold m; minmax; lia).
  destruct (Stream.readFrame now m s1 f) as [s2 f2] eqn:Er.
  destruct (recv_take s1 fs (out ++ bytes) g m now f s2 f2) as (Hp2 & Hq2 & He2 & Hc2 & Hl2 & Hro2 & Har & Hbl);
    [done..|cbn; lia|done|]. change (readPosInFrame s1) with (readOffset s - Offset g) in *.
  change (readOffset s1) with (readOffset s) in Hro2.
  set (b := take (Z.to_nat m) _) in *. rewrite Hp2. rewrite <- app_assoc in Har.
  destruct (Z.leb_spec (DataLen g) (readOffset s - Offset g + m)).
  - destruct (recv_pop s1 s2 fs _ (out ++ bytes ++ b) g Hok1 Hh Har) as (Hpok & Hpfin & Hsz); [lia|].
    destruct (FinBit g).
    + split; [by apply Hpfin|]. rewrite length_app. split; [lia|]. split; [|done]. right. right. by right.
    + specialize (IH (bytes ++ b) (s2 <| frameQueue := (Sorter.Pop (frameQueue s2)).1 |>) f2 Hpok).
      cbn [finishedReading resetLocally cancelled str_err] in IH.
      eapply read_post_ext; [| |apply IH]; cbn; try done.
      * rewrite length_app. lia.
      * apply Har.
      * rewrite Hl2, Hc2. cbn. by rewrite Erc.
      * cbn in Hsz. left. cbn. lia.
  - assert (Hlast : length (bytes ++ b) = Z.to_nat len) by (rewrite length_app; lia).
    specialize (IH (bytes ++ b) s2 f2). eapply read_post_ext; [| |apply IH]; try done.
    + rewrite Hlast. lia.
    + eapply recv_partial; [exact Hok1|done|done|lia].
    + apply Har.
    + rewrite Hl2, Hc2. cbn. by rewrite Erc.
    + right. lia.
Qed.

Lemma AddStreamFrame_ok s fs out f fr s' f' :
  recv_ok s fs out -> valid_frame content final fr ->
  Stream.AddStreamFrame fr s f = (s', f', Ret tt) -> recv_ok s' (fr :: fs) out.
Proof.
  intros [Hs Ho Hl Hp Hm Hf Hd] Hv Hadd. unfold Stream.AddStreamFrame in Hadd.
  destruct (Manager.UpdateHighestReceived f (str_id s) _) as [f1 [[]| |]]; [|done..].
  destruct (Sorter.Push (frameQueue s) fr) as [q r] eqn:Hpush.
  assert (Hcases : r = Ret tt \/ r = Err errDuplicateStreamData).
  { destruct r as [[]|e|]; [by left| |discriminate]. right. destruct (decide _) in Hadd; congruence. }
  assert (Hs' : s' = Stream.signalRead (s <| frameQueue := q |>)).
  { destruct Hcases as [-> | ->]; [congruence|]. destruct (decide _) in Hadd; congruence. }
  subst s'. clear Hadd. destruct Hcases as [-> | ->].
  - destruct (Push_Ret content final Hfinal _ _ _ Hs Hv Hpush) as (Hs' & Hr & Hm').
    split; cbn; try done.
    + destruct Hp as [Hp|(g & Hg & Hpos)]; [left; congruence|]. right.
      destruct (Push_head content final Hfinal _ _ _ _ Hs Hv Hpush Hg) as (g' & Hg' & Hgl).
      exists g'. rewrite Hr, Hgl. done.
    + intros x Hx. rewrite Hm', Hm, sent_cons by done. tauto.
    + intros [Hc Hcs]. apply (Push_fin_ok' content final Hfinal (frameQueue s) q fr Hs Hv Hpush (Hf Hcs)).
      intros Hfb Hne. pose proof Hv as [Hv0 Hve _ _]. pose proof (DataLen_nonneg fr).
      unfold MaxByteCount in Hm. apply Hm; [lia|].
      destruct (Hc Hfb Hne) as [|Hall]; [done|]. exfalso.
      destruct (Push_queue content final Hfinal _ _ _ Hs Hv Hne Hpush) as (g & _ & _ & _ & _ & Hgm & Hgo & _).
      apply (Hm (Offset g)); [lia|done|]. apply Hall. lia.
    + intros Hfr [_ Hcs]. by apply Hd.
  - destruct (Push_dup content final Hfinal _ _ _ Hs Hv Hpush) as (-> & Hdup).
    split; cbn; try done; [|naive_solver..].
    intros x Hx. rewrite sent_cons, Hm by done. specialize (Hdup x). rewrite Hm in Hdup by done.
    split; [|tauto]. intros Hns [Hin|Hin]; [|done]. by apply (Hdup Hin).
Qed.

(** *** Runs of a stream *)

(** The methods that do not touch the receiving half.  Errors are not nil. *)
Inductive stream_call :=
  | CallWrite (p : list Z)
  | CallClose
  | CallSetReadDeadline (t : Z)
  | CallSetWriteDeadline (t : Z)
  | CallCancel (e : error)
  | CallReset (e : error)
  | CallRegisterRemoteError (e : error)
  | CallGetDataForWriting (maxBytes : Z)
  | CallSentFin.

Definition callStream (c : stream_call) (s : stream) : stream :=
  match c with
  | CallWrite p => (Stream.Write p s).1
  | CallClose => Stream.Close s
  | CallSetReadDeadline t => Stream.SetReadDeadline t s
  | CallSetWriteDeadline t => Stream.SetWriteDeadline t s
  | CallCancel e => Stream.Cancel (Some e) s
  | CallReset e => Stream.Reset (Some e) s
  | CallRegisterRemoteError e => Stream.RegisterRemoteError (Some e) s
  | CallGetDataForWriting n => (Stream.getDataForWriting n s).2
  | CallSentFin => Stream.sentFin s
  end.

(** A call leaves the receiving half alone, and a cancelled or reset stream has an error. *)
Lemma callStream_keeps c s :
  frameQueue (callStream c s) = frameQueue s /\ readOffset (callStream c s) = readOffset s /\
  finishedReading (callStream c s) = finishedReading s /\
  ((resetLocally s || cancelled s = true -> is_Some (str_err s)) ->
   resetLocally (callStream c s) || cancelled (callStream c s) = true ->
   is_Some (str_err (callStream c s))).
Proof.
  destruct c; cbn [callStream]; unfold Stream.Write, Stream.SetReadDeadline, Stream.SetWriteDeadline,
    Stream.Cancel, Stream.Reset, Stream.RegisterRemoteError, Stream.sendReset, Stream.getDataForWriting.
  all: repeat (case_match; cbn; simplify_eq; try done).
  all: repeat (split; [done|]); cbn; try tauto.
  all: match goal with H : str_err _ = _ |- _ => rewrite H end; tauto.
Qed.

(** A run: frames of the peer arrive, the application calls [Read] (which may wait and go on later)
    and the other methods, and flow control serves the rest of the connection in between.  [fs] are
    the frames that were accepted, the last one first, [out] the bytes that were read. *)
Inductive stream_step (P : StreamFrame -> Prop) :
    stream * flowControlManager * list StreamFrame * list Z ->
    stream * flowControlManager * list StreamFrame * list Z -> Prop :=
  | step_frame s f fs out fr s' f' :
      P fr -> Stream.AddStreamFrame fr s f = (s', f', Ret tt) ->
      stream_step P (s, f, fs, out) (s', f', fr :: fs, out)
  | step_read s f fs out now len s' f' bytes e :
      0 <= len -> Stream.Read now len s f = (s', f', ReadReturn bytes e) ->
      stream_step P (s, f, fs, out) (s', f', fs, out ++ bytes)
  | step_wait s f fs out now len s' f' :
      0 <= len -> Stream.Read now len s f = (s', f', ReadWait) ->
      stream_step P (s, f, fs, out) (s', f', fs, out)
  | step_resume s f fs out now len s' f' bytes e :
      finishedReading s = false -> Stream.readResume now len s f = (s', f', ReadReturn bytes e) ->
      stream_step P (s, f, fs, out) (s', f', fs, out ++ bytes)
  | step_call s f fs out c : stream_step P (s, f, fs, out) (callStream c s, f, fs, out)
  | step_flow s f fs out f' : stream_step P (s, f, fs, out) (s, f', fs, out).

Definition run_inv (x : stream * flowControlManager * list StreamFrame * list Z) : Prop :=
  let '(s, _, fs, out) := x in
  recv_ok s fs out /\ (resetLocally s || cancelled s = true -> is_Some (str_err s)).

Lemma readResume_ok s fs out now len f :
  recv_ok s fs out -> finishedReading s = false ->
  (resetLocally s || cancelled s = true -> is_Some (str_err s)) ->
  let '(s', _, r) := Stream.readResume now len s f in read_post fs out len [] s s' r.
Proof.
  intros Hok Hfr Hc. apply readLoop_ok; [by rewrite app_nil_r|done|done|]. left.
  unfold Stream.readFuel. lia.
Qed.

Lemma Read_ok s fs out now len f :
  recv_ok s fs out -> 0 <= len ->
  let '(s', _, r) := Stream.Read now len s f in
  match r with
  | ReadWait => recv_ok s' fs out /\ 0 < len /\ ~ sent (readOffset s') fs
  | ReadReturn bytes e =>
      recv_ok s' fs (out ++ bytes) /\ Z.of_nat (length bytes) <= len /\
      (e = None \/ e = str_err s \/ e = Some errDeadline \/ e = Some EOF /\ finishedReading s' = true) /\
      (e = None -> resetLocally s || cancelled s = false -> Z.of_nat (length bytes) < len ->
        ~ sent (readOffset s') fs)
  | ReadPanic _ => False
  end.
Proof.
  intros Hok Hlen. unfold Stream.Read. rewrite orb_comm.
  destruct (resetLocally s || cancelled s) eqn:Erc.
  { split; [by rewrite app_nil_r|]. split; [done|]. split; [auto|done]. }
  destruct (finishedReading s) eqn:Efr.
  { split; [by rewrite app_nil_r|]. split; [done|]. split; [|done]. auto. }
  pose proof (readResume_ok s fs out now len f Hok Efr) as H. rewrite Erc in H. specialize (H ltac:(done)).
  unfold Stream.readResume in H. destruct (Stream.readLoop _ _ _ _ _ _) as [[s' f'] r].
  destruct r; [done| |done]. cbn in H. destruct H as (? & ? & ? & ?).
  repeat (split; [done||lia|]). auto.
Qed.

Lemma readLoop_flags fuel now len : forall bytes s f,
  let '(s', _, _) := Stream.readLoop fuel now len bytes s f in
  str_err s' = str_err s /\ resetLocally s' = resetLocally s /\ cancelled s' = cancelled s.
Proof.
  induction fuel as [|fuel IH]; intros bytes s f; [done|]. cbn [Stream.readLoop]. cbv zeta.
  repeat (case_match; try done).
  all: unfold Stream.readFrame in *; simplify_eq; try done.
  all: match goal with
       | H : Stream.readLoop _ _ _ ?b ?s ?f = _ |- _ => specialize (IH b s f); rewrite H in IH; by destruct IH as (? & ? & ?)
       end.
Qed.

Lemma run_inv_step x y : run_inv x -> stream_step (valid_frame content final) x y -> run_inv y.
Proof.
  intros Hx Hstep.
  destruct Hstep as [s f fs out fr s' f' Hv Hadd|s f fs out now len s' f' bytes e Hlen Hr
    |s f fs out now len s' f' Hlen Hr|s f fs out now len s' f' bytes e Hfr Hr|s f fs out c|s f fs out f'];
    destruct Hx as [Hok Hc]; unfold run_inv.
  - split; [by eapply AddStreamFrame_ok|]. unfold Stream.AddStreamFrame in Hadd.
    repeat case_match; simplify_eq; done.
  - pose proof (Read_ok s fs out now len f Hok Hlen) as H. rewrite Hr in H. split; [apply H|].
    unfold Stream.Read in Hr. repeat case_match; simplify_eq; try done.
    pose proof (readLoop_flags (Stream.readFuel s) now len [] s f) as Hf. rewrite Hr in Hf.
    by destruct Hf as (-> & -> & ->).
  - pose proof (Read_ok s fs out now len f Hok Hlen) as H. rewrite Hr in H. split; [apply H|].
    unfold Stream.Read in Hr. repeat case_match; simplify_eq; try done.
    pose proof (readLoop_flags (Stream.readFuel s) now len [] s f) as Hf. rewrite Hr in Hf.
    by destruct Hf as (-> & -> & ->).
  - pose proof (readResume_ok s fs out now len f Hok Hfr Hc) as H. rewrite Hr in H. split; [apply H|].
    pose proof (readLoop_flags (Stream.readFuel s) now len [] s f) as Hf.
    unfold Stream.readResume in Hr. rewrite Hr in Hf. by destruct Hf as (-> & -> & ->).
  - destruct (callStream_keeps c s) as (Hq & Hro & Hf & Hc'). split; [|by apply Hc'].
    by apply (recv_ext s).
  - done.
Qed.

Lemma run_inv_rtc id f0 x :
  rtc (stream_step (valid_frame content final)) (newStream id, f0, [], []) x -> run_inv x.
Proof.
  revert x. apply rtc_ind_r.
  - split; [apply recv_new|]. done.
  - intros x y _ Hstep Hx. by eapply run_inv_step.
Qed.

(** Every byte read has arrived. *)
Lemma recv_sent s fs out x : recv_ok s fs out -> 0 <= x < readOffset s -> sent x fs.
Proof.
  intros Hok Hx. pose proof Hok as [Hs _ Hl Hp Hm _ _]. pose proof Hs as [Hlay Hr Hq].
  destruct (layout_nonempty _ _ _ Hlay) as (g & rest & Hg).
  assert (Hin : 0 <= x < MaxByteCount /\ ~ missing x (gaps (frameQueue s))).
  { destruct Hp as [Hp|(h & Hh & Hpos)].
    - split.
      + rewrite Hg in Hlay. destruct (layout_head _ _ _ _ Hlay) as (_ & ? & ?). lia.
      + intros Hmiss. pose proof (layout_missing _ _ _ _ Hlay Hmiss). lia.
    - destruct (Hq _ _ Hh) as [_ _ He _ Hrec _]. unfold MaxByteCount. split; [lia|].
      destruct (Z.lt_ge_cases x (readPosition (frameQueue s))); [|apply Hrec; lia].
      intros Hmiss. pose proof (layout_missing _ _ _ _ Hlay Hmiss). lia. }
  destruct Hin as [Hin Hnm]. apply dec_stable. by rewrite <- Hm.
Qed.
End Receiving.

(** The frames of a run satisfy its predicate. *)
Lemma run_arrived P x y :
  rtc (stream_step P) x y -> (forall fr, fr ∈ x.1.2 -> P fr) -> forall fr, fr ∈ y.1.2 -> P fr.
Proof.
  intros Hrun Hx. revert y Hrun. apply (rtc_ind_r (fun y => forall fr, fr ∈ y.1.2 -> P fr)); [done|].
  intros y z _ Hstep IH fr. destruct Hstep; cbn [fst snd] in *; try apply IH.
  intros [->|Hin]%elem_of_cons; [done|by apply IH].
Qed.

(** A run whose frames all satisfy another predicate. *)
Lemma run_frames P x y (Q : StreamFrame -> Prop) :
  rtc (stream_step P) x y -> (forall fr, fr ∈ y.1.2 -> P fr -> Q fr) -> rtc (stream_step Q) x y.
Proof.
  intros Hrun. revert Hrun. apply (rtc_ind_r (fun y => (forall fr, fr ∈ y.1.2 -> P fr -> Q fr) -> rtc (stream_step Q) x y)); [done|].
  clear y. intros y z _ Hstep IH HQ.
  assert (Hsub : forall fr, fr ∈ y.1.2 -> fr ∈ z.1.2) by (destruct Hstep; cbn; set_solver).
  eapply rtc_r; [apply IH; auto|]. destruct Hstep; try (by econstructor).
  eapply step_frame; [|done]. apply HQ; [cbn; set_solver|done].
Qed.

(** A stream hands its application the bytes its peer sent.  In every run (frames of a
    well-behaved peer in any order, overlapping and repeated, calls of [Read] with buffers of any
    size that may have to wait, all other methods in between): the bytes read are a prefix of the
    peer's, in order, and each of them arrived.  The next [Read] neither panics nor fails with one
    of the internal errors; it waits, or stops before its buffer is full without an error, only if
    the next byte did not arrive.  It reports EOF only after the last byte, provided the last byte
    of each frame with FIN and data was missing when the frame arrived. *)
Lemma stream_delivers content final id f0 s f fs out :
  0 <= final < 2 ^ 63 ->
  rtc (stream_step (valid_frame content final)) (newStream id, f0, [], []) (s, f, fs, out) ->
  (forall i b, out !! i = Some b -> b = content (Z.of_nat i)) /\
  (forall x, 0 <= x < Z.of_nat (length out) -> sent x fs) /\
  forall now len, 0 <= len ->
  match (Stream.Read now len s f).2 with
  | ReadWait => 0 < len /\ ~ sent (Z.of_nat (length out)) fs
  | ReadReturn bytes e =>
      Z.of_nat (length bytes) <= len /\
      (forall i b, (out ++ bytes) !! i = Some b -> b = content (Z.of_nat i)) /\
      (e = None \/ e = str_err s \/ e = Some errDeadline \/ e = Some EOF) /\
      (e = None -> resetLocally s || cancelled s = false -> Z.of_nat (length bytes) < len ->
        ~ sent (Z.of_nat (length (out ++ bytes))) fs) /\
      (e = Some EOF -> str_err s <> Some EOF -> clean_history fs ->
        Z.of_nat (length (out ++ bytes)) = final)
  | ReadPanic _ => False
  end.
Proof.
  intros Hf Hrun. destruct (run_inv_rtc content final Hf id f0 _ Hrun) as [Hok Hc].
  pose proof Hok as [_ Hout Hlen _ _ _ _]. split; [exact Hout|]. split.
  { intros x Hx. eapply recv_sent; [exact Hf|exact Hok|lia]. }
  intros now len Hl. pose proof (Read_ok content final Hf s fs out now len f Hok Hl) as H.
  destruct (Stream.Read now len s f) as [[s' f'] r]. cbn [snd]. destruct r as [|bytes e|]; [| |done].
  - destruct H as (Hok' & ? & Hns). split; [done|]. by rewrite (rv_len _ _ _ _ _ Hok').
  - destruct H as (Hok' & Hbl & He & Hns). pose proof Hok' as [_ Ho' Hl' _ _ _ Hd'].
    split; [done|]. split; [exact Ho'|]. split; [intuition|]. rewrite Hl'. split; [done|].
    intros -> Hne Hcl. rewrite <- Hl'. destruct He as [|[He|[|[_ He]]]]; [done|congruence|done|auto].
Qed.

Definition demo_fc : flowControlManager :=
  Manager.NewStream example_params (NewFlowControlManager example_params) 5 true.
(** A reader can lose the end of a stream.  The peer sends bytes 0 to 14 with FIN in one frame,
    which is late; it sends them again as two frames, of which the second one, with FIN, arrives
    first.  The late frame is cut to the bytes before but keeps its FIN bit: [Read] reports EOF after
    ten bytes although all fifteen arrived. *)
Theorem stream_eof_truncates :
  valid_frame demo_stream 15 (demo_frame 10 5 true) /\ valid_frame demo_stream 15 (demo_frame 0 15 true) /\
  exists s1 f1 s2 f2 s3 f3 bytes,
    Stream.AddStreamFrame (demo_frame 10 5 true) (newStream 5) demo_fc = (s1, f1, Ret tt) /\
    Stream.AddStreamFrame (demo_frame 0 15 true) s1 f1 = (s2, f2, Ret tt) /\
    Stream.Read 0 100 s2 f2 = (s3, f3, ReadReturn bytes (Some EOF)) /\
    length bytes = 10%nat /\ (Stream.Read 0 100 s3 f3).2 = ReadReturn [] (Some EOF).
Proof.
  split; [apply demo_valid; lia|]. split; [apply demo_valid; lia|]. eexists _, _, _, _, _, _, _.
  split; [vm_compute; reflexivity|]. split; [vm_compute; reflexivity|].
  split; [vm_compute; reflexivity|]. split; vm_compute; reflexivity.
Qed.
