(* ===== verification/StreamsMap.v ===== *)
(** * The streams of a connection

    Models [streams_map.go]: opening streams from both sides, accepting, iterating and removing
    them.  A stream that is opened is registered with flow control, as the function
    [newStreamPrioritySize] the session passes in does.  The priority tree is not part of this
    state: the session calls it, adds the new streams to it and prints it; the
    error its methods return when a stream is opened with a priority is an argument.  The methods
    that wait on a condition variable are split there, like those of a stream. *)
From S2P Require Import Prelude MinMax ByteOrder PacketNumber Frames PublicHeader HandshakeMessage.
From S2P Require Import FrameSorter FlowControl ConnectionParameters Stream.
From stdpp Require Import pretty.

Open Scope Z_scope.
Open Scope go_scope.

Definition MaxNewStreamIDDelta : Z := 4 * MaxStreamsPerConnection.
Definition TooManyOpenStreams : error := ErrorCode 18.
Definition InvalidStreamID : Z := 17.

Record streamsMap := mkStreamsMap {
  sm_perspective : Perspective;
  streams : gmap Z stream;
  openStreams : list Z;
  roundRobinIndex : Z;
  roundRobinIndexSend : Z;
  roundRobinIndexStream : Z;
  nextStream : Z;
  highestStreamOpenedByPeer : Z;
  closeErr : option error;
  nextStreamToAccept : Z;
  priorityOrder : list Z;
  numOutgoingStreams : Z;
  numIncomingStreams : Z
}.

Definition eta_streamsMap (m : streamsMap) : streamsMap :=
  mkStreamsMap (sm_perspective m) (streams m) (openStreams m) (roundRobinIndex m)
    (roundRobinIndexSend m) (roundRobinIndexStream m) (nextStream m) (highestStreamOpenedByPeer m)
    (closeErr m) (nextStreamToAccept m) (priorityOrder m) (numOutgoingStreams m) (numIncomingStreams m).
#[export] Instance set_streams : Setter streams := ltac:(field_setter eta_streamsMap).
#[export] Instance set_openStreams : Setter openStreams := ltac:(field_setter eta_streamsMap).
#[export] Instance set_roundRobinIndex : Setter roundRobinIndex := ltac:(field_setter eta_streamsMap).
#[export] Instance set_roundRobinIndexSend : Setter roundRobinIndexSend := ltac:(field_setter eta_streamsMap).
#[export] Instance set_roundRobinIndexStream : Setter roundRobinIndexStream := ltac:(field_setter eta_streamsMap).
#[export] Instance set_nextStream : Setter nextStream := ltac:(field_setter eta_streamsMap).
#[export] Instance set_highest : Setter highestStreamOpenedByPeer := ltac:(field_setter eta_streamsMap).
#[export] Instance set_closeErr : Setter closeErr := ltac:(field_setter eta_streamsMap).
#[export] Instance set_nextStreamToAccept : Setter nextStreamToAccept := ltac:(field_setter eta_streamsMap).
#[export] Instance set_priorityOrder : Setter priorityOrder := ltac:(field_setter eta_streamsMap).
#[export] Instance set_numOutgoing : Setter numOutgoingStreams := ltac:(field_setter eta_streamsMap).
#[export] Instance set_numIncoming : Setter numIncomingStreams := ltac:(field_setter eta_streamsMap).

Definition sm_errMapAccess : error := ErrorString "streamsMap: Error accessing the streams map".

Definition newStreamsMapTree (pers : Perspective) : streamsMap :=
  let '(next, toAccept) := if isClient pers then (1, 2) else (2, 1) in
  mkStreamsMap pers ∅ [] 0 0 0 next 0 None toAccept [] 0 0.

Definition wrongSide (id : Z) (side : string) : error :=
  QuicError InvalidStreamID ("attempted to open stream " +:+ pretty id +:+ " from " +:+ side +:+ "-side").
Definition muchSmaller (id highest : Z) : error :=
  QuicError InvalidStreamID ("attempted to open stream " +:+ pretty id
    +:+ ", which is a lot smaller than the highest opened stream, " +:+ pretty highest).
Definition existsAlready (id : Z) : error :=
  ErrorString ("a stream with ID " +:+ pretty id +:+ " already exists").
Definition removeMissing (id : Z) : error :=
  ErrorString ("attempted to remove non-existing stream: " +:+ pretty id).

(** The map and the flow control manager it registers streams with. *)
Definition mapState : Type := (streamsMap * flowControlManager)%type.

Module StreamsMap.
Section Parameters.
Context (h : connectionParametersManager).

(** [session.newStreamPrioritySize]: the streams 1 and 3 do not count for the connection's window. *)
Definition newStreamFor (f : flowControlManager) (id : Z) : flowControlManager :=
  Manager.NewStream (Parameters.flowControlView h) f id (negb ((id =? 1) || (id =? 3))).

(** The error of a stream that exists is ignored by the callers. *)
Definition putStream (s : stream) (m : streamsMap) : streamsMap :=
  let id := str_id s in
  match streams m !! id with
  | Some _ => m
  | None => m <| streams := <[id := s]> (streams m) |> <| openStreams := openStreams m ++ [id] |>
  end.

(** [openRemoteStream], [openRemoteStreamPriority] and [openRemoteStreamPrioritySize] differ in the
    priority they pass on. *)
Definition openRemoteStream (id : Z) (st : mapState) : mapState * outcome unit :=
  let '(m, f) := st in
  if Parameters.GetMaxIncomingStreams h <=? numIncomingStreams m then (st, Err TooManyOpenStreams)
  else if u32 (id + MaxNewStreamIDDelta) <? highestStreamOpenedByPeer m
  then (st, Err (muchSmaller id (highestStreamOpenedByPeer m)))
  else
    let m := if isServer (sm_perspective m)
             then m <| numIncomingStreams := u32 (numIncomingStreams m + 1) |>
             else m <| numOutgoingStreams := u32 (numOutgoingStreams m + 1) |> in
    let m := if highestStreamOpenedByPeer m <? id then m <| highestStreamOpenedByPeer := id |> else m in
    ((putStream (newStream id) m, newStreamFor f id), Ret tt).

(** The loop of [GetOrOpenStream]: the streams from [sid] to [id]; [fuel] bounds the iterations. *)
Fixpoint openUpTo (fuel : nat) (sid id : Z) (st : mapState) : mapState * outcome unit :=
  match fuel with
  | O => (st, Panic "fuel")
  | S fuel' =>
      if sid <=? id then
        match openRemoteStream sid st with
        | (st, Ret _) => openUpTo fuel' (u32 (sid + 2)) id st
        | (st, r) => (st, r)
        end
      else (st, Ret tt)
  end.

(** The checks for a stream that is not in the map: it was closed, or the peer may not open it. *)
Definition mayOpen (m : streamsMap) (id : Z) : outcome bool :=
  if isServer (sm_perspective m) then
    if id `mod` 2 =? 0
    then if id <=? nextStream m then Ret false else Err (wrongSide id "client")
    else Ret (negb (id <=? highestStreamOpenedByPeer m))
  else
    if id `mod` 2 =? 1
    then if id <=? nextStream m then Ret false else Err (wrongSide id "server")
    else Ret (negb (id <=? highestStreamOpenedByPeer m)).

(** [GetOrOpenStream], [GetOrOpenStreamPriority] and [GetOrOpenStreamPrioritySize]: the ID of the
    stream, or nothing when it was closed.  That the first of them prints the tree at its end is modelled in the session. *)
Definition GetOrOpenStream (id : Z) (st : mapState) : mapState * outcome (option Z) :=
  match streams st.1 !! id with
  | Some _ => (st, Ret (Some id))
  | None =>
      match mayOpen st.1 id with
      | Ret false => (st, Ret None)
      | Ret true =>
          let sid := u32 (highestStreamOpenedByPeer st.1 + 2) in
          let sid := if (sid =? 2) && isServer (sm_perspective st.1) then 1 else sid in
          match openUpTo (S (Z.to_nat id)) sid id st with
          | (st, Ret _) => (st, Ret (if decide (is_Some (streams st.1 !! id)) then Some id else None))
          | (st, Err e) => (st, Err e)
          | (st, Panic why) => (st, Panic why)
          end
      | Err e => (st, Err e)
      | Panic why => (st, Panic why)
      end
  end.

Definition openStreamImpl (st : mapState) : mapState * outcome Z :=
  let '(m, f) := st in
  let id := nextStream m in
  if Parameters.GetMaxOutgoingStreams h <=? numOutgoingStreams m then (st, Err TooManyOpenStreams)
  else
    let m := if isServer (sm_perspective m)
             then m <| numOutgoingStreams := u32 (numOutgoingStreams m + 1) |>
             else m <| numIncomingStreams := u32 (numIncomingStreams m + 1) |> in
    let m := m <| nextStream := u32 (nextStream m + 2) |> in
    ((putStream (newStream id) m, newStreamFor f id), Ret id).

(** [openStreamPriorityImpl] and [openStreamPrioritySizeImpl]; [treeErr] is what the priority tree
    answers. *)
Definition openStreamPriorityImpl (treeErr : option error) (st : mapState) : mapState * outcome Z :=
  match openStreamImpl st with
  | (st, Ret id) => (st, match treeErr with Some e => Err e | None => Ret id end)
  | other => other
  end.

Definition OpenStream (st : mapState) : mapState * outcome Z :=
  match closeErr st.1 with
  | Some e => (st, Err e)
  | None => openStreamImpl st
  end.

(** One round of the loops of [OpenStreamSync], [OpenStreamPrioritySync] and
    [OpenStreamPrioritySizeSync]; [None]: the call waits. *)
Definition OpenStreamSync (treeErr : option error) (st : mapState) : mapState * option (outcome Z) :=
  match closeErr st.1 with
  | Some e => (st, Some (Err e))
  | None =>
      match openStreamPriorityImpl treeErr st with
      | (st, Err e) => (st, if decide (e = TooManyOpenStreams) then None else Some (Err e))
      | (st, r) => (st, Some r)
      end
  end.
End Parameters.

(** One round of the loop of [AcceptStream]. *)
Definition AcceptStream (m : streamsMap) : streamsMap * option (outcome Z) :=
  match closeErr m with
  | Some e => (m, Some (Err e))
  | None =>
      match streams m !! nextStreamToAccept m with
      | None => (m, None)
      | Some _ => (m <| nextStreamToAccept := u32 (nextStreamToAccept m + 2) |>,
                   Some (Ret (nextStreamToAccept m)))
      end
  end.

(** [for i, s := range l { if s == id { ... break } }]: the index of [id]. *)
Fixpoint indexOf (id : Z) (l : list Z) : option nat :=
  match l with
  | [] => None
  | x :: l' => if x =? id then Some O else S <$> indexOf id l'
  end.

Definition removeAt (i : nat) (l : list Z) : list Z := take i l ++ drop (S i) l.

Definition RemoveStream (id : Z) (m : streamsMap) : streamsMap * outcome unit :=
  match streams m !! id with
  | None => (m, Err (removeMissing id))
  | Some _ =>
      let m := if id `mod` 2 =? 0
               then m <| numOutgoingStreams := u32 (numOutgoingStreams m - 1) |>
               else m <| numIncomingStreams := u32 (numIncomingStreams m - 1) |> in
      let m := match indexOf id (openStreams m) with
               | None => m
               | Some i =>
                   m <| openStreams := removeAt i (openStreams m) |>
                     <| roundRobinIndex := if Z.of_nat i <? roundRobinIndex m
                          then roundRobinIndex m - 1 else roundRobinIndex m |>
                     <| roundRobinIndexSend := if Z.of_nat i <? roundRobinIndexSend m
                          then roundRobinIndexSend m - 1 else roundRobinIndexSend m |>
               end in
      let m := match indexOf id (priorityOrder m) with
               | None => m
               | Some i => m <| priorityOrder := removeAt i (priorityOrder m) |>
               end in
      (m <| streams := delete id (streams m) |>, Ret tt)
  end.

(** A stream of [openStreams] that is not in the map would be a nil dereference. *)
Fixpoint cancelAll (e : error) (ids : list Z) (m : streamsMap) : streamsMap * outcome unit :=
  match ids with
  | [] => (m, Ret tt)
  | id :: ids' =>
      match streams m !! id with
      | None => (m, Panic "invalid memory address or nil pointer dereference")
      | Some s => cancelAll e ids' (m <| streams := <[id := Stream.Cancel (Some e) s]> (streams m) |>)
      end
  end.

Definition CloseWithError (e : error) (m : streamsMap) : streamsMap * outcome unit :=
  let m := m <| closeErr := Some e |> in cancelAll e (openStreams m) m.

(** ** Iterating

    A [streamLambda] changes the stream it is called with and a state of its own; it returns
    whether to go on. *)
Section Iterate.
Context {X : Type}.

Definition streamLambda : Type := stream -> X -> stream * X * (bool * option error).

Definition iterateFunc (id : Z) (fn : streamLambda) (m : streamsMap) (x : X)
    : streamsMap * X * (bool * option error) :=
  match streams m !! id with
  | None => (m, x, (true, Some sm_errMapAccess))
  | Some s =>
      let '(s, x, r) := fn s x in (m <| streams := <[id := s]> (streams m) |>, x, r)
  end.

(** The streams [ids] until one stops the iteration; [ignoreMissing]: a stream that is not in the
    map is passed over.  The second result tells whether to go on. *)
Fixpoint iterateOver (ids : list Z) (ignoreMissing : bool) (fn : streamLambda) (m : streamsMap) (x : X)
    : streamsMap * X * outcome bool :=
  match ids with
  | [] => (m, x, Ret true)
  | id :: ids' =>
      match iterateFunc id fn m x with
      | (m, x, (cont, e)) =>
          match e with
          | Some e' =>
              if ignoreMissing && bool_decide (e' = sm_errMapAccess)
              then if cont then iterateOver ids' ignoreMissing fn m x else (m, x, Ret false)
              else (m, x, Err e')
          | None => if cont then iterateOver ids' ignoreMissing fn m x else (m, x, Ret false)
          end
      end
  end.

Definition Iterate (fn : streamLambda) (m : streamsMap) (x : X) : streamsMap * X * outcome bool :=
  iterateOver (openStreams m) false fn m x.

Definition RoundRobinIterateSchedule (fn : streamLambda) (m : streamsMap) (x : X)
    : streamsMap * X * outcome bool :=
  iterateOver (priorityOrder m) false fn m x.

(** The second loop of [RoundRobinIterate]: [n] streams are left, from index [i] on. *)
Fixpoint roundRobin (n : nat) (i numStreams startIndex : Z) (fn : streamLambda) (m : streamsMap) (x : X)
    : streamsMap * X * outcome unit :=
  match n with
  | O => (m, x, Ret tt)
  | S n' =>
      match openStreams m !! Z.to_nat (u32 (i + startIndex) `mod` numStreams) with
      | None => (m, x, Panic "index out of range")
      | Some id =>
          if (id =? 1) || (id =? 3) then roundRobin n' (i + 1) numStreams startIndex fn m x
          else
            match iterateFunc id fn m x with
            | (m, x, (cont, Some e)) => (m, x, Err e)
            | (m, x, (cont, None)) =>
                let m := m <| roundRobinIndex := u32 (roundRobinIndex m + 1) `mod` numStreams |> in
                if cont then roundRobin n' (i + 1) numStreams startIndex fn m x else (m, x, Ret tt)
            end
      end
  end.

Definition RoundRobinIterate (fn : streamLambda) (m : streamsMap) (x : X)
    : streamsMap * X * outcome unit :=
  let numStreams := u32 (Z.of_nat (size (streams m))) in
  let startIndex := roundRobinIndex m in
  match iterateOver [1; 3] true fn m x with
  | (m, x, Ret true) => roundRobin (Z.to_nat numStreams) 0 numStreams startIndex fn m x
  | (m, x, Ret false) => (m, x, Ret tt)
  | (m, x, Err e) => (m, x, Err e)
  | (m, x, Panic why) => (m, x, Panic why)
  end.

(** The first loop of [PriorityIteratePopOfPath] over the streams [ids] of a path: the header stream
    is served, the priorities of the others are added up.  The second result tells whether to go on. *)
Fixpoint popHeaderStream (ids : list Z) (fn : streamLambda) (m : streamsMap) (x : X)
    : streamsMap * X * outcome bool :=
  match ids with
  | [] => (m, x, Ret true)
  | id :: ids' =>
      if id =? 3 then
        match iterateFunc id fn m x with
        | (m, x, (cont, e)) =>
            match e with
            | Some e' =>
                if bool_decide (e' = sm_errMapAccess)
                then if cont then popHeaderStream ids' fn m x else (m, x, Ret false)
                else (m, x, Err e')
            | None => if cont then popHeaderStream ids' fn m x else (m, x, Ret false)
            end
        end
      else
        match streams m !! id with
        | None => (m, x, Panic "invalid memory address or nil pointer dereference")
        | Some _ => popHeaderStream ids' fn m x
        end
  end.

(** [cid] is the stream [fetchFlow] selects, 0 if none. *)
Definition PriorityIteratePopOfPath (ids : list Z) (cid : Z) (fn : streamLambda) (m : streamsMap) (x : X)
    : streamsMap * X * outcome unit :=
  match popHeaderStream ids fn m x with
  | (m, x, Ret true) =>
      if cid =? 0 then (m, x, Err (ErrorString "fail to select stream to pop"))
      else
        match iterateFunc cid fn m x with
        | (m, x, (_, Some e)) => (m, x, if bool_decide (e = sm_errMapAccess) then Ret tt else Err e)
        | (m, x, (_, None)) => (m, x, Ret tt)
        end
  | (m, x, Ret false) => (m, x, Ret tt)
  | (m, x, Err e) => (m, x, Err e)
  | (m, x, Panic why) => (m, x, Panic why)
  end.
End Iterate.
End StreamsMap.

(** ** Well-formed maps *)

(** The streams this endpoint opens: even IDs on the server, odd IDs on the client. *)
Definition own (m : streamsMap) (id : Z) : bool :=
  if isServer (sm_perspective m) then id `mod` 2 =? 0 else id `mod` 2 =? 1.

Definition evens (l : list Z) : Z := Z.of_nat (length (filter (fun id => id `mod` 2 = 0) l)).
Definition odds (l : list Z) : Z := Z.of_nat (length (filter (fun id => id `mod` 2 <> 0) l)).

(** [hist]: the IDs of all streams opened so far. *)
Record map_ok (m : streamsMap) (hist : list Z) : Prop := {
  mo_nodup : NoDup (openStreams m);
  mo_streams : forall id, id ∈ openStreams m <-> is_Some (streams m !! id);
  mo_ids : forall id s, streams m !! id = Some s -> str_id s = id;
  mo_hist : NoDup hist;
  mo_sub : forall id, id ∈ openStreams m -> id ∈ hist;
  mo_range : forall id, id ∈ hist -> 0 < id < 2 ^ 32 /\
    if own m id then id < nextStream m else id <= highestStreamOpenedByPeer m;
  mo_next : 0 < nextStream m < 2 ^ 32 /\ own m (nextStream m) = true;
  mo_highest : 0 <= highestStreamOpenedByPeer m < 2 ^ 32 /\
    (highestStreamOpenedByPeer m = 0 \/ own m (highestStreamOpenedByPeer m) = false);
  mo_out : numOutgoingStreams m = evens (openStreams m);
  mo_in : numIncomingStreams m = odds (openStreams m)
}.

Lemma evens_app l l' : evens (l ++ l') = evens l + evens l'.
Proof. unfold evens. rewrite filter_app, length_app. lia. Qed.
Lemma odds_app l l' : odds (l ++ l') = odds l + odds l'.
Proof. unfold odds. rewrite filter_app, length_app. lia. Qed.
Lemma evens_cons id l : evens (id :: l) = (if id `mod` 2 =? 0 then 1 else 0) + evens l.
Proof.
  unfold evens. rewrite filter_cons. destruct (Z.eqb_spec (id `mod` 2) 0), (decide (id `mod` 2 = 0)); try done.
  cbn. lia.
Qed.
Lemma odds_cons id l : odds (id :: l) = (if id `mod` 2 =? 0 then 0 else 1) + odds l.
Proof.
  unfold odds. rewrite filter_cons. destruct (Z.eqb_spec (id `mod` 2) 0), (decide (id `mod` 2 <> 0)); try done.
  cbn. lia.
Qed.

Lemma evens_odds l : evens l + odds l = Z.of_nat (length l).
Proof. induction l as [|id l IH]; [done|]. rewrite evens_cons, odds_cons. cbn. case_match; lia. Qed.
Lemma evens_nonneg l : 0 <= evens l. Proof. unfold evens. lia. Qed.
Lemma odds_nonneg l : 0 <= odds l. Proof. unfold odds. lia. Qed.

(** There are fewer than 2^32 streams. *)
Lemma map_ok_length m hist id :
  map_ok m hist -> id ∉ hist -> 0 < id < 2 ^ 32 -> Z.of_nat (length (openStreams m)) + 1 < 2 ^ 32.
Proof.
  intros Hok Hid Hr. assert (Hs : 0 :: id :: openStreams m ⊆+ seqZ 0 (2 ^ 32)).
  { apply NoDup_submseteq.
    - assert (forall x, x ∈ openStreams m -> x <> 0 /\ x <> id).
      { intros x Hx. apply (mo_sub _ _ Hok) in Hx. pose proof (mo_range _ _ Hok x Hx).
        split; [lia|congruence]. }
      apply NoDup_cons. split; [|apply NoDup_cons; split; [|apply (mo_nodup _ _ Hok)]].
      + intros [?|Hx]%elem_of_cons; [lia|]. by destruct (H 0 Hx).
      + intros Hx. by destruct (H id Hx).
    - intros x Hx. apply elem_of_seqZ. rewrite !elem_of_cons in Hx. destruct Hx as [->|[->|Hx]]; [lia..|].
      apply (mo_sub _ _ Hok), (mo_range _ _ Hok) in Hx. lia. }
  apply submseteq_length in Hs. rewrite length_seqZ in Hs. cbn in Hs. lia.
Qed.

Lemma map_ok_count m hist : map_ok m hist -> Z.of_nat (length (openStreams m)) < 2 ^ 32.
Proof.
  intros Hok. assert (Hs : 0 :: openStreams m ⊆+ seqZ 0 (2 ^ 32)).
  { assert (Hr : forall x, x ∈ openStreams m -> 0 < x < 2 ^ 32).
    { intros x Hx. apply (mo_range _ _ Hok), (mo_sub _ _ Hok), Hx. }
    apply NoDup_submseteq.
    - apply NoDup_cons. split; [|apply (mo_nodup _ _ Hok)]. intros Hx%Hr. lia.
    - intros x [->|Hx%Hr]%elem_of_cons; apply elem_of_seqZ; lia. }
  apply submseteq_length in Hs. rewrite length_seqZ in Hs. cbn in Hs. lia.
Qed.

Lemma map_ok_new pers : map_ok (newStreamsMapTree pers) [].
Proof.
  destruct pers; split; cbn; try done; try apply NoDup_nil_2; try set_solver by lia.
  all: intros id; rewrite lookup_empty; split; [set_solver|by intros []].
Qed.

(** A new stream is put into a map whose counter was raised for it. *)
Lemma put_ok m m1 hist id :
  map_ok m hist -> id ∉ hist -> 0 < id < 2 ^ 32 ->
  openStreams m1 = openStreams m -> streams m1 = streams m -> sm_perspective m1 = sm_perspective m ->
  nextStream m <= nextStream m1 < 2 ^ 32 -> own m (nextStream m1) = true ->
  highestStreamOpenedByPeer m <= highestStreamOpenedByPeer m1 < 2 ^ 32 ->
  (highestStreamOpenedByPeer m1 = 0 \/ own m (highestStreamOpenedByPeer m1) = false) ->
  (if own m id then id < nextStream m1 else id <= highestStreamOpenedByPeer m1) ->
  numOutgoingStreams m1 = numOutgoingStreams m + (if id `mod` 2 =? 0 then 1 else 0) ->
  numIncomingStreams m1 = numIncomingStreams m + (if id `mod` 2 =? 0 then 0 else 1) ->
  let m' := StreamsMap.putStream (newStream id) m1 in
  map_ok m' (hist ++ [id]) /\ openStreams m' = openStreams m ++ [id] /\
  nextStream m' = nextStream m1 /\ highestStreamOpenedByPeer m' = highestStreamOpenedByPeer m1 /\
  numIncomingStreams m' = numIncomingStreams m1 /\ numOutgoingStreams m' = numOutgoingStreams m1 /\
  sm_perspective m' = sm_perspective m.
Proof.
  intros Hok Hid Hr Ho Hs Hp Hn Hno Hh Hho Hown Hout Hin m'.
  assert (Hnone : streams m !! id = None).
  { apply eq_None_not_Some. intros Hsome. apply (mo_streams _ _ Hok), (mo_sub _ _ Hok) in Hsome. done. }
  unfold m', StreamsMap.putStream. cbn [str_id newStream]. rewrite Hs, Hnone, Ho.
  split; [|done].
  assert (Hownm : forall x, own (m1 <| streams := <[id := newStream id]> (streams m) |>
    <| openStreams := openStreams m ++ [id] |>) x = own m x) by (intros x; unfold own; cbn; by rewrite Hp).
  destruct Hok as [H1 H2 H3 H4 H5 H6 H7 H8 H9 H10]. split; rewrite ?Hownm; cbn.
  - apply NoDup_app. split; [done|]. split; [|apply NoDup_singleton].
    intros x Hx Hx'. apply list_elem_of_singleton in Hx' as ->. apply Hid. by apply H5.
  - intros x. rewrite elem_of_app, list_elem_of_singleton. rewrite H2.
    destruct (decide (id = x)) as [->|Hne]; [rewrite lookup_insert_eq; naive_solver|].
    rewrite lookup_insert_ne by done. naive_solver.
  - intros x s0 [[<- <-]|[_ Hx]]%lookup_insert_Some; [done|by apply H3].
  - apply NoDup_app. split; [done|]. split; [|apply NoDup_singleton].
    intros x Hx Hx'. apply list_elem_of_singleton in Hx' as ->. done.
  - intros x. rewrite !elem_of_app, list_elem_of_singleton. naive_solver.
  - intros x [Hx|Hx]%elem_of_app; rewrite Hownm.
    + specialize (H6 x Hx). destruct (own m x); lia.
    + apply list_elem_of_singleton in Hx as ->. by destruct (own m id).
  - split; [lia|]. done.
  - split; [lia|done].
  - rewrite evens_app, evens_cons, Hout, H9. unfold evens at 3. cbn. lia.
  - rewrite odds_app, odds_cons, Hin, H10. unfold odds at 3. cbn. lia.
Qed.

Lemma not_in_hist m hist id :
  map_ok m hist -> (if own m id then nextStream m <= id else highestStreamOpenedByPeer m < id) -> id ∉ hist.
Proof. intros Hok Hid Hin. apply (mo_range _ _ Hok) in Hin as [_ Hin]. destruct (own m id); lia. Qed.

(** The counters are those of the parity of the IDs. *)
Lemma count_room m hist id :
  map_ok m hist -> id ∉ hist -> 0 < id < 2 ^ 32 ->
  0 <= numIncomingStreams m /\ numIncomingStreams m + 1 < 2 ^ 32 /\
  0 <= numOutgoingStreams m /\ numOutgoingStreams m + 1 < 2 ^ 32.
Proof.
  intros Hok Hid Hr. pose proof (map_ok_length m hist id Hok Hid Hr).
  rewrite (mo_in _ _ Hok), (mo_out _ _ Hok). pose proof (evens_odds (openStreams m)).
  pose proof (evens_nonneg (openStreams m)). pose proof (odds_nonneg (openStreams m)). lia.
Qed.

(** What opening a stream does: it is appended, or nothing happens. *)
Record opened (m m' : streamsMap) (hist : list Z) (id : Z) : Prop := {
  op_ok : map_ok m' (hist ++ [id]);
  op_open : openStreams m' = openStreams m ++ [id];
  op_persp : sm_perspective m' = sm_perspective m
}.

Lemma openRemoteStream_ok h m f hist id :
  map_ok m hist -> own m id = false -> highestStreamOpenedByPeer m < id < 2 ^ 32 ->
  match StreamsMap.openRemoteStream h id (m, f) with
  | (st, Ret _) =>
      opened m st.1 hist id /\ highestStreamOpenedByPeer st.1 = id /\ nextStream st.1 = nextStream m /\
      numIncomingStreams m < 110 /\
      numIncomingStreams st.1 = numIncomingStreams m + (if isServer (sm_perspective m) then 1 else 0) /\
      numOutgoingStreams st.1 = numOutgoingStreams m + (if isServer (sm_perspective m) then 0 else 1)
  | (st, Err e) => st = (m, f)
  | (st, Panic _) => False
  end.
Proof.
  intros Hok Hown Hid. pose proof (mo_highest _ _ Hok) as [Hh Hho]. pose proof (mo_next _ _ Hok) as [Hn Hno].
  assert (Hnot : id ∉ hist) by (apply (not_in_hist m); [done|rewrite Hown; lia]).
  destruct (count_room m hist id Hok Hnot) as (Ha & Hb & Hc & Hd); [lia|].
  unfold StreamsMap.openRemoteStream. change (Parameters.GetMaxIncomingStreams h) with 110.
  destruct (Z.leb_spec 110 (numIncomingStreams m)); [done|].
  destruct (_ <? _); [done|]. unfold own in Hown.
  pose proof (Z.mod_pos_bound id 2 ltac:(lia)) as Hmod.
  assert (Hlt : (highestStreamOpenedByPeer m <? id) = true) by (apply Z.ltb_lt; lia).
  destruct (isServer (sm_perspective m)) eqn:Ep; cbn [fst].
  all: lazymatch goal with |- context [highestStreamOpenedByPeer (setField _ ?m) <? ?i] =>
         change (highestStreamOpenedByPeer (setField _ m) <? i) with (highestStreamOpenedByPeer m <? i) end.
  all: rewrite Hlt.
  all: match goal with |- opened ?m (StreamsMap.putStream _ ?m1) ?hist ?i /\ _ =>
         destruct (put_ok m m1 hist i) as (H1 & H2 & H3 & H4 & H5 & H6 & H7) end;
       try done; cbn; unfold own; rewrite ?Ep, ?Hown; try lia; try (usmall; lia).
  - split; [by split|]. rewrite H3, H4, H5, H6. cbn. usmall. repeat (split; [done||lia|]). lia.
  - rewrite (proj2 (Z.eqb_eq (id `mod` 2) 0)) by lia. usmall. done.
  - rewrite (proj2 (Z.eqb_eq (id `mod` 2) 0)) by lia. lia.
  - split; [by split|]. rewrite H3, H4, H5, H6. cbn. usmall. repeat (split; [done||lia|]). lia.
Qed.

(** IDs of the same side differ by an even number. *)
Lemma own_step m id k : own m (id + 2 * k) = own m id.
Proof. unfold own. replace (id + 2 * k) with (id + k * 2) by lia. by rewrite Z.mod_add by lia. Qed.

Lemma own_apart m a b : own m a = false -> own m b = false -> a < b -> a + 2 <= b.
Proof.
  unfold own. pose proof (Z.mod_pos_bound a 2 ltac:(lia)). pose proof (Z.mod_pos_bound b 2 ltac:(lia)).
  pose proof (Z.div_mod a 2 ltac:(lia)). pose proof (Z.div_mod b 2 ltac:(lia)).
  destruct (isServer (sm_perspective m)); lia.
Qed.

(** A later map: more streams of the same side were opened. *)
Record grown (m m' : streamsMap) (hist : list Z) : Prop := {
  gr_ok : map_ok m' (hist ++ drop (length (openStreams m)) (openStreams m'));
  gr_open : openStreams m `prefix_of` openStreams m';
  gr_persp : sm_perspective m' = sm_perspective m;
  gr_limit : isServer (sm_perspective m) = true ->
    numIncomingStreams m' <= Z.max 110 (numIncomingStreams m) /\
    numOutgoingStreams m' = numOutgoingStreams m
}.

Lemma grown_refl m hist : map_ok m hist -> grown m m hist.
Proof. intros Hok. split; [|done| |intros _; split; [lia|done]]; [|done]. by rewrite drop_all, app_nil_r. Qed.

Lemma grown_opened m m1 m2 hist id :
  opened m m1 hist id ->
  (isServer (sm_perspective m) = true ->
   numIncomingStreams m1 <= 110 /\ numOutgoingStreams m1 = numOutgoingStreams m) ->
  grown m1 m2 (hist ++ [id]) -> grown m m2 hist.
Proof.
  intros [_ Ho Hp] Hlim [Hok [l Hl] Hp' Hlim']. rewrite Ho in Hl. rewrite Hp in Hlim'.
  split; [| |congruence|intros Hs; specialize (Hlim Hs); specialize (Hlim' Hs); lia].
  - rewrite Hl, <- app_assoc, drop_app_length. cbn. rewrite Ho in Hok.
    rewrite Hl, drop_app_length, <- app_assoc in Hok. done.
  - rewrite Hl, <- app_assoc. by eexists.
Qed.

Lemma openUpTo_ok h id fuel : forall sid m f hist,
  map_ok m hist -> own m sid = false -> own m id = false ->
  highestStreamOpenedByPeer m < sid <= id + 2 -> 0 < id < 2 ^ 32 - 2 ->
  id - sid + 2 < 2 * Z.of_nat fuel ->
  match StreamsMap.openUpTo h fuel sid id (m, f) with
  | (st, Ret _) => grown m st.1 hist /\ (sid <= id -> id ∈ openStreams st.1) /\
      nextStream st.1 = nextStream m
  | (st, Err e) => grown m st.1 hist /\ nextStream st.1 = nextStream m
  | (st, Panic _) => False
  end.
Proof.
  induction fuel as [|fuel IH]; intros sid m f hist Hok Hsid Hid Hh Hr Hfuel; [lia|].
  cbn [StreamsMap.openUpTo]. destruct (Z.leb_spec sid id).
  2: { split; [by apply grown_refl|]. split; [lia|done]. }
  pose proof (openRemoteStream_ok h m f hist sid Hok Hsid ltac:(lia)) as H1.
  destruct (StreamsMap.openRemoteStream h sid (m, f)) as [[m1 f1] [[]|e|]]; cbn [fst] in H1; [| |done].
  2: { simplify_eq. split; [by apply grown_refl|done]. }
  destruct H1 as (Hop & Hh1 & Hn1 & Hlt & Hin1 & Hout1). pose proof Hop as [Hok1 Ho1 Hp1].
  assert (Hlim : isServer (sm_perspective m) = true ->
    numIncomingStreams m1 <= 110 /\ numOutgoingStreams m1 = numOutgoingStreams m).
  { intros Hs. rewrite Hs in Hin1, Hout1. lia. }
  assert (Hown1 : forall x, own m1 x = own m x) by (intros x; unfold own; by rewrite Hp1).
  pose proof (mo_highest _ _ Hok) as [Hh0 _].
  replace (u32 (sid + 2)) with (sid + 2 * 1) by (usmall; lia).
  assert (Hpar : sid + 2 * 1 <= id + 2) by lia.
  specialize (IH (sid + 2 * 1) m1 f1 (hist ++ [sid]) Hok1).
  rewrite own_step, !Hown1, Hh1 in IH. specialize (IH Hsid Hid ltac:(lia) Hr ltac:(lia)).
  destruct (StreamsMap.openUpTo h fuel (sid + 2 * 1) id (m1, f1)) as [st [[]|e|]]; [| |done].
  - destruct IH as (Hg & Hin & Hn). split; [by eapply grown_opened|]. split; [|congruence].
    intros _. destruct (decide (sid + 2 * 1 <= id)) as [|Hgt]; [auto|].
    assert (sid = id) as ->.
    { destruct (decide (sid < id)); [|lia]. pose proof (own_apart m sid id Hsid Hid). lia. }
    destruct Hg as [_ [l ->] _ _]. rewrite Ho1. set_solver.
  - destruct IH as [Hg Hn]. split; [by eapply grown_opened|congruence].
Qed.

Lemma GetOrOpenStream_ok h m f hist id :
  map_ok m hist -> 0 <= id < 2 ^ 32 - 2 ->
  match StreamsMap.GetOrOpenStream h id (m, f) with
  | (st, Ret r) => grown m st.1 hist /\ nextStream st.1 = nextStream m /\
      (r = Some id /\ id ∈ openStreams st.1 \/ r = None /\ id ∉ openStreams st.1 /\ st = (m, f))
  | (st, Err e) => grown m st.1 hist /\ nextStream st.1 = nextStream m
  | (st, Panic _) => False
  end.
Proof.
  intros Hok Hid. unfold StreamsMap.GetOrOpenStream. cbn [fst].
  destruct (streams m !! id) as [s|] eqn:Es.
  { split; [by apply grown_refl|]. split; [done|]. left. split; [done|]. apply (mo_streams _ _ Hok). eauto. }
  assert (Hno : id ∉ openStreams m) by (rewrite (mo_streams _ _ Hok), Es; by intros []).
  destruct (StreamsMap.mayOpen m id) as [[]|e|] eqn:Em.
  - assert (Hown : own m id = false /\ highestStreamOpenedByPeer m < id).
    { unfold StreamsMap.mayOpen in Em. unfold own. pose proof (Z.mod_pos_bound id 2 ltac:(lia)).
      destruct (isServer (sm_perspective m)).
      - destruct (Z.eqb_spec (id `mod` 2) 0); [by destruct (_ <=? _)|].
        destruct (Z.leb_spec id (highestStreamOpenedByPeer m)); [done|]. done.
      - destruct (Z.eqb_spec (id `mod` 2) 1); [by destruct (_ <=? _)|].
        destruct (Z.leb_spec id (highestStreamOpenedByPeer m)); [done|]. done. }
    destruct Hown as [Hown Hlt]. pose proof (mo_highest _ _ Hok) as [Hh Hho].
    set (sid0 := u32 (highestStreamOpenedByPeer m + 2)).
    set (sid := if (sid0 =? 2) && isServer (sm_perspective m) then 1 else sid0).
    assert (Hsid : own m sid = false /\ highestStreamOpenedByPeer m < sid <= id).
    { unfold sid, sid0. rewrite uN_small by (unfold in_range; lia).
      destruct (Z.eq_dec (highestStreamOpenedByPeer m) 0) as [E|E].
      - rewrite E. unfold own in Hown |- *. change (0 + 2 =? 2) with true. cbn [andb].
        destruct (isServer (sm_perspective m)).
        + split; [done|lia].
        + split; [done|]. destruct (Z.eq_dec id 1) as [->|]; [done|lia].
      - destruct Hho as [|Hho]; [done|]. pose proof (own_apart m _ _ Hho Hown Hlt).
        destruct (Z.eqb_spec (highestStreamOpenedByPeer m + 2) 2); [lia|]. cbn [andb].
        change (highestStreamOpenedByPeer m + 2) with (highestStreamOpenedByPeer m + 2 * 1).
        rewrite own_step. split; [done|lia]. }
    destruct Hsid as [Hs1 Hs2].
    pose proof (openUpTo_ok h id (S (Z.to_nat id)) sid m f hist Hok Hs1 Hown ltac:(lia) ltac:(lia) ltac:(lia)) as H.
    destruct (StreamsMap.openUpTo _ _ _ _ _) as [st [[]|e|]]; [|done..].
    destruct H as (Hg & Hin & Hn). split; [done|]. split; [done|]. left. split; [|apply Hin; lia].
    rewrite decide_True; [done|]. apply (mo_streams _ _ (gr_ok _ _ _ Hg)), Hin. lia.
  - split; [by apply grown_refl|]. split; [done|]. by right.
  - split; [by apply grown_refl|done].
  - unfold StreamsMap.mayOpen in Em. by repeat case_match.
Qed.

Lemma openStreamImpl_ok h m f hist :
  map_ok m hist -> nextStream m < 2 ^ 32 - 2 ->
  match StreamsMap.openStreamImpl h (m, f) with
  | (st, Ret id) => opened m st.1 hist id /\ id = nextStream m /\
      numOutgoingStreams m < Parameters.GetMaxOutgoingStreams h /\
      numOutgoingStreams st.1 = numOutgoingStreams m + (if isServer (sm_perspective m) then 1 else 0) /\
      numIncomingStreams st.1 = numIncomingStreams m + (if isServer (sm_perspective m) then 0 else 1)
  | (st, Err e) => st = (m, f) /\ e = TooManyOpenStreams
  | (st, Panic _) => False
  end.
Proof.
  intros Hok Hsmall. pose proof (mo_highest _ _ Hok) as [Hh Hho]. pose proof (mo_next _ _ Hok) as [Hn Hno].
  assert (Hnot : nextStream m ∉ hist) by (apply (not_in_hist m); [done|rewrite Hno; lia]).
  destruct (count_room m hist (nextStream m) Hok Hnot) as (Ha & Hb & Hc & Hd); [lia|].
  unfold StreamsMap.openStreamImpl.
  destruct (Z.leb_spec (Parameters.GetMaxOutgoingStreams h) (numOutgoingStreams m)); [done|].
  pose proof (Z.mod_pos_bound (nextStream m) 2 ltac:(lia)) as Hmod. pose proof (own_step m (nextStream m) 1) as Hstep.
  rewrite Z.mul_1_r, Hno in Hstep. pose proof Hno as Hpar. unfold own in Hpar.
  assert (Hnx : u32 (nextStream m + 2) = nextStream m + 2) by (usmall; lia).
  destruct (isServer (sm_perspective m)) eqn:Ep; cbn [fst]; usmall.
  all: match goal with |- opened ?m (StreamsMap.putStream (newStream ?i) ?m1) ?hist _ /\ _ =>
         pose proof (put_ok m m1 hist i) as Hput; cbv zeta in Hput;
         set (m' := StreamsMap.putStream (newStream i) m1) in *; clearbody m';
         destruct Hput as (H1 & H2 & H3 & H4 & H5 & H6 & H7) end;
       try done; cbn; rewrite ?Hno; try done; try lia; try (rewrite Hnx; first [done|lia]).
  - rewrite Hpar. lia.
  - rewrite Hpar. lia.
  - split; [by split|]. rewrite H5, H6. cbn. repeat (split; [done||lia|]). lia.
  - rewrite (proj2 (Z.eqb_neq (nextStream m `mod` 2) 0)) by lia. lia.
  - rewrite (proj2 (Z.eqb_neq (nextStream m `mod` 2) 0)) by lia. lia.
  - split; [by split|]. rewrite H5, H6. cbn. repeat (split; [done||lia|]). lia.
Qed.

(** ** Removing *)
Lemma indexOf_Some id l i :
  StreamsMap.indexOf id l = Some i -> exists l1 l2, l = l1 ++ id :: l2 /\ StreamsMap.removeAt i l = l1 ++ l2.
Proof.
  revert i. induction l as [|x l IH]; intros i; [done|]. cbn [StreamsMap.indexOf].
  destruct (Z.eqb_spec x id) as [->|Hne]; [intros [= <-]; by exists [], l|].
  intros Hi. apply fmap_Some in Hi as (j & Hj & ->). destruct (IH j Hj) as (l1 & l2 & -> & Hr).
  exists (x :: l1), l2. split; [done|]. unfold StreamsMap.removeAt in *. cbn. by rewrite Hr.
Qed.

Lemma indexOf_None id l : StreamsMap.indexOf id l = None -> id ∉ l.
Proof.
  induction l as [|x l IH]; [set_solver|]. cbn [StreamsMap.indexOf].
  destruct (Z.eqb_spec x id) as [->|Hne]; [done|]. intros Hi%fmap_None. set_solver.
Qed.

(** The stream is taken out of the map and its counter lowered. *)
Lemma removed_ok m m' hist id l1 l2 :
  map_ok m hist -> openStreams m = l1 ++ id :: l2 -> openStreams m' = l1 ++ l2 ->
  streams m' = delete id (streams m) -> sm_perspective m' = sm_perspective m ->
  nextStream m' = nextStream m -> highestStreamOpenedByPeer m' = highestStreamOpenedByPeer m ->
  numOutgoingStreams m' = (if id `mod` 2 =? 0 then u32 (numOutgoingStreams m - 1) else numOutgoingStreams m) ->
  numIncomingStreams m' = (if id `mod` 2 =? 0 then numIncomingStreams m else u32 (numIncomingStreams m - 1)) ->
  map_ok m' hist /\ (forall x, x ∈ openStreams m' <-> x ∈ openStreams m /\ x <> id) /\
  numOutgoingStreams m' <= numOutgoingStreams m /\ numIncomingStreams m' <= numIncomingStreams m.
Proof.
  intros Hok Hl Ho Hs Hp Hn Hh Hout Hin.
  assert (Hiff : forall x, x ∈ openStreams m' <-> x ∈ openStreams m /\ x <> id).
  { pose proof (mo_nodup _ _ Hok) as Hd. rewrite Ho. rewrite Hl in Hd |- *.
    apply NoDup_app in Hd as (_ & H1 & H2).
    apply NoDup_cons in H2 as [H2 _]. intros x. rewrite !elem_of_app, elem_of_cons.
    specialize (H1 x). rewrite elem_of_cons in H1. naive_solver. }
  pose proof (map_ok_count m hist Hok) as Hcount.
  assert (Hownm : forall x, own m' x = own m x) by (intros x; unfold own; by rewrite Hp).
  destruct Hok as [H1 H2 H3 H4 H5 H6 H7 H8 H9 H10].
  pose proof (evens_odds (openStreams m)) as Hsum. rewrite <- H9, <- H10 in Hsum.
  pose proof (evens_nonneg l1). pose proof (evens_nonneg l2).
  pose proof (odds_nonneg l1). pose proof (odds_nonneg l2).
  rewrite Hl in H9, H10, H1. rewrite evens_app, evens_cons in H9. rewrite odds_app, odds_cons in H10.
  split; [|split; [done|rewrite Hout, Hin; destruct (id `mod` 2 =? 0); usmall; lia]].
  split; rewrite ?Hownm, ?Hn, ?Hh; try done.
  - rewrite Ho. apply NoDup_app in H1 as (? & Hx & [? ?]%NoDup_cons). apply NoDup_app.
    split; [done|]. split; [|done]. intros x Hx1 Hx2. apply (Hx x Hx1). by apply elem_of_cons; right.
  - intros x. rewrite Hiff, Hs, H2, lookup_delete_is_Some. naive_solver.
  - intros x s'. rewrite Hs. intros [_ Hx]%lookup_delete_Some. by apply H3.
  - intros x Hx. apply H5. by apply Hiff.
  - intros x Hx. rewrite Hownm. by apply H6.
  - rewrite Hout, Ho, evens_app. destruct (id `mod` 2 =? 0); [usmall|]; lia.
  - rewrite Hin, Ho, odds_app. destruct (id `mod` 2 =? 0); [|usmall]; lia.
Qed.

Lemma RemoveStream_map_ok m hist id :
  map_ok m hist ->
  match StreamsMap.RemoveStream id m with
  | (m', Ret _) =>
      map_ok m' hist /\ id ∈ openStreams m /\
      (forall x, x ∈ openStreams m' <-> x ∈ openStreams m /\ x <> id) /\
      numOutgoingStreams m' <= numOutgoingStreams m /\ numIncomingStreams m' <= numIncomingStreams m /\
      sm_perspective m' = sm_perspective m /\ nextStream m' = nextStream m
  | (m', Err _) => m' = m /\ id ∉ openStreams m
  | (_, Panic _) => False
  end.
Proof.
  intros Hok. unfold StreamsMap.RemoveStream. destruct (streams m !! id) as [s|] eqn:Es.
  2: { split; [done|]. rewrite (mo_streams _ _ Hok), Es. by intros []. }
  assert (Hin : id ∈ openStreams m) by (apply (mo_streams _ _ Hok); eauto).
  cbv zeta. set (m1 := if id `mod` 2 =? 0 then _ else _).
  assert (Hm1 : openStreams m1 = openStreams m) by (unfold m1; by case_match).
  rewrite Hm1. destruct (StreamsMap.indexOf id (openStreams m)) as [i|] eqn:Ei.
  2: { by apply indexOf_None in Ei. }
  destruct (indexOf_Some _ _ _ Ei) as (l1 & l2 & Hl & ->).
  match goal with |- map_ok ?x _ /\ _ => destruct (removed_ok m x hist id l1 l2) as (H1 & H2 & H3 & H4) end;
    try done; unfold m1.
  all: try (repeat case_match; done).
  do 5 (split; [done|]). split; repeat case_match; done.
Qed.

(** ** Iterating *)

Definition rr_ok (m : streamsMap) : Prop :=
  0 <= roundRobinIndex m <= Z.of_nat (length (openStreams m)).

(** [m'] has the streams of [m], which may have changed. *)
Record same_streams (m m' : streamsMap) : Prop := {
  ss_open : openStreams m' = openStreams m;
  ss_streams : forall id, is_Some (streams m' !! id) <-> is_Some (streams m !! id);
  ss_ids : (forall id s, streams m !! id = Some s -> str_id s = id) ->
           forall id s, streams m' !! id = Some s -> str_id s = id;
  ss_persp : sm_perspective m' = sm_perspective m;
  ss_next : nextStream m' = nextStream m;
  ss_highest : highestStreamOpenedByPeer m' = highestStreamOpenedByPeer m;
  ss_out : numOutgoingStreams m' = numOutgoingStreams m;
  ss_in : numIncomingStreams m' = numIncomingStreams m
}.

#[export] Instance same_streams_preorder : PreOrder same_streams.
Proof.
  split.
  - intros m. by split.
  - intros m1 m2 m3 [A1 A2 A3 A4 A5 A6 A7 A8] [B1 B2 B3 B4 B5 B6 B7 B8]. split; try congruence.
    + intros id. by rewrite B2, A2.
    + intros H. apply B3, A3, H.
Qed.

Lemma same_ok m m' hist : same_streams m m' -> map_ok m hist -> map_ok m' hist.
Proof.
  intros [A1 A2 A3 A4 A5 A6 A7 A8] [H1 H2 H3 H4 H5 H6 H7 H8 H9 H10].
  assert (Hown : forall x, own m' x = own m x) by (intros x; unfold own; by rewrite A4).
  split; rewrite ?Hown, ?A1, ?A5, ?A6, ?A7, ?A8; try done.
  - intros id. by rewrite A2.
  - by apply A3.
  - intros id Hid. rewrite Hown. by apply H6.
Qed.

(** An iteration changes the streams its function is called with, and the index where the next
    round starts. *)
Section Invariant.
Context {X : Type} (fn : @StreamsMap.streamLambda X) (I : gmap Z stream -> X -> Prop).
Hypothesis fn_inv : forall ss x id s,
  I ss x -> ss !! id = Some s -> I (<[id := (fn s x).1.1]> ss) (fn s x).1.2.

Definition iterated (m m' : streamsMap) (x' : X) : Prop :=
  I (streams m') x' /\
  exists ss i, m' = m <| streams := ss |> <| roundRobinIndex := i |>.

Lemma iterated_refl m x : I (streams m) x -> iterated m m x.
Proof. intros H. split; [done|]. exists (streams m), (roundRobinIndex m). by destruct m. Qed.

Lemma iterated_trans m1 m2 m3 x2 x3 : iterated m1 m2 x2 -> iterated m2 m3 x3 -> iterated m1 m3 x3.
Proof.
  intros [_ (ss & i & ->)] [H (ss' & j & ->)]. split; [done|]. by exists ss', j.
Qed.

Lemma iterateFunc_inv id m x :
  I (streams m) x ->
  let '(m', x', _) := StreamsMap.iterateFunc id fn m x in iterated m m' x'.
Proof.
  intros Hi. unfold StreamsMap.iterateFunc. destruct (streams m !! id) as [s|] eqn:Es; [|by apply iterated_refl].
  pose proof (fn_inv _ _ _ _ Hi Es) as H. destruct (fn s x) as [[s' x'] r]. split; [exact H|].
  exists (<[id := s']> (streams m)), (roundRobinIndex m). by destruct m.
Qed.

Lemma iterateOver_inv ign : forall ids m x,
  I (streams m) x -> let '(m', x', _) := StreamsMap.iterateOver ids ign fn m x in iterated m m' x'.
Proof.
  induction ids as [|id ids IH]; intros m x Hi; [by apply iterated_refl|]. cbn [StreamsMap.iterateOver].
  pose proof (iterateFunc_inv id m x Hi) as H1. destruct (StreamsMap.iterateFunc id fn m x) as [[m1 x1] [cont e]].
  pose proof (IH m1 x1 (proj1 H1)) as H2. destruct (StreamsMap.iterateOver ids ign fn m1 x1) as [[m2 x2] r2].
  destruct e; [destruct (_ && _)|]; destruct cont; try done; by eapply iterated_trans.
Qed.

Lemma popHeaderStream_inv : forall ids m x,
  I (streams m) x -> let '(m', x', _) := StreamsMap.popHeaderStream ids fn m x in iterated m m' x'.
Proof.
  induction ids as [|id ids IH]; intros m x Hi; [by apply iterated_refl|]. cbn [StreamsMap.popHeaderStream].
  destruct (id =? 3).
  - pose proof (iterateFunc_inv id m x Hi) as H1. destruct (StreamsMap.iterateFunc id fn m x) as [[m1 x1] [cont e]].
    pose proof (IH m1 x1 (proj1 H1)) as H2. destruct (StreamsMap.popHeaderStream ids fn m1 x1) as [[m2 x2] r2].
    destruct e; [destruct (bool_decide _)|]; destruct cont; try done; by eapply iterated_trans.
  - destruct (streams m !! id); [by apply IH|by apply iterated_refl].
Qed.

Lemma PriorityIteratePopOfPath_inv ids cid m x :
  I (streams m) x ->
  let '(m', x', _) := StreamsMap.PriorityIteratePopOfPath ids cid fn m x in iterated m m' x'.
Proof.
  intros Hi. unfold StreamsMap.PriorityIteratePopOfPath. pose proof (popHeaderStream_inv ids m x Hi) as H1.
  destruct (StreamsMap.popHeaderStream ids fn m x) as [[m1 x1] [[]| |]]; [|done..].
  destruct (cid =? 0); [done|]. pose proof (iterateFunc_inv cid m1 x1 (proj1 H1)) as H2.
  destruct (StreamsMap.iterateFunc cid fn m1 x1) as [[m2 x2] [cont [e|]]]; by eapply iterated_trans.
Qed.

Lemma roundRobin_inv num start : forall n i m x,
  I (streams m) x -> let '(m', x', _) := StreamsMap.roundRobin n i num start fn m x in iterated m m' x'.
Proof.
  induction n as [|n IH]; intros i m x Hi; [by apply iterated_refl|]. cbn [StreamsMap.roundRobin].
  destruct (openStreams m !! _) as [id|]; [|by apply iterated_refl]. destruct (_ || _); [by apply IH|].
  pose proof (iterateFunc_inv id m x Hi) as H1. destruct (StreamsMap.iterateFunc id fn m x) as [[m1 x1] [cont [e|]]]; [done|].
  set (m2 := m1 <| roundRobinIndex := _ |>).
  assert (H2 : iterated m m2 x1).
  { destruct H1 as [H1 (ss & j & Hj)]. split; [done|]. eexists ss, _. unfold m2. by rewrite Hj. }
  destruct cont; [|done]. pose proof (IH (i + 1) m2 x1 (proj1 H2)) as H3.
  destruct (StreamsMap.roundRobin n (i + 1) num start fn m2 x1) as [[m3 x3] r]. by eapply iterated_trans.
Qed.

Lemma RoundRobinIterate_inv m x :
  I (streams m) x -> let '(m', x', _) := StreamsMap.RoundRobinIterate fn m x in iterated m m' x'.
Proof.
  intros Hi. unfold StreamsMap.RoundRobinIterate. pose proof (iterateOver_inv true [1; 3] m x Hi) as H1.
  destruct (StreamsMap.iterateOver [1; 3] true fn m x) as [[m1 x1] [[]| |]]; [|done..].
  pose proof (roundRobin_inv (u32 (Z.of_nat (size (streams m)))) (roundRobinIndex m)
    (Z.to_nat (u32 (Z.of_nat (size (streams m))))) 0 m1 x1 (proj1 H1)) as H2.
  destruct (StreamsMap.roundRobin _ _ _ _ _ _ _) as [[m2 x2] r]. by eapply iterated_trans.
Qed.
End Invariant.

(** Changing a stream, or a field the invariant does not mention. *)
Lemma same_update m id s s' :
  streams m !! id = Some s -> str_id s' = str_id s ->
  same_streams m (m <| streams := <[id := s']> (streams m) |>).
Proof.
  intros Hs Hid. split; cbn; try done.
  - intros x. rewrite lookup_insert_is_Some. destruct (decide (id = x)) as [->|]; [|naive_solver].
    rewrite Hs. naive_solver.
  - intros H x t [[<- <-]|[_ Hx]]%lookup_insert_Some; [|by apply H]. rewrite Hid. by apply H.
Qed.

Lemma size_streams m hist : map_ok m hist -> size (streams m) = length (openStreams m).
Proof.
  intros Hok. rewrite <- (size_dom (D := gset Z)), <- (size_list_to_set (C := gset Z)) by apply (mo_nodup _ _ Hok).
  f_equal. apply set_eq. intros id. rewrite elem_of_dom, elem_of_list_to_set. by rewrite (mo_streams _ _ Hok).
Qed.

(** The function that is called with the streams records the order. *)
Definition logged {X : Type} (fn : @StreamsMap.streamLambda X) : @StreamsMap.streamLambda (X * list Z) :=
  fun s '(x, log) => let '(s', x', r) := fn s x in (s', (x', log ++ [str_id s]), r).

(** Recording the order changes nothing else. *)
Section Logged.
Context {X : Type} (fn : @StreamsMap.streamLambda X).

Lemma iterateFunc_logged id m x log :
  let '(m', (x', _), r) := StreamsMap.iterateFunc id (logged fn) m (x, log) in
  StreamsMap.iterateFunc id fn m x = (m', x', r).
Proof.
  unfold StreamsMap.iterateFunc, logged. destruct (streams m !! id) as [s|]; [|done].
  by destruct (fn s x) as [[s' x'] r].
Qed.

Lemma iterateOver_logged ign : forall ids m x log,
  let '(m', (x', _), r) := StreamsMap.iterateOver ids ign (logged fn) m (x, log) in
  StreamsMap.iterateOver ids ign fn m x = (m', x', r).
Proof.
  induction ids as [|id ids IH]; intros m x log; [done|]. cbn [StreamsMap.iterateOver].
  pose proof (iterateFunc_logged id m x log) as H1.
  destruct (StreamsMap.iterateFunc id (logged fn) m (x, log)) as [[m1 [x1 log1]] [cont e]]. rewrite H1.
  specialize (IH m1 x1 log1). destruct e; [destruct (_ && _)|]; destruct cont; done.
Qed.

Lemma roundRobin_logged num start : forall n i m x log,
  let '(m', (x', _), r) := StreamsMap.roundRobin n i num start (logged fn) m (x, log) in
  StreamsMap.roundRobin n i num start fn m x = (m', x', r).
Proof.
  induction n as [|n IH]; intros i m x log; [done|]. cbn [StreamsMap.roundRobin].
  destruct (openStreams m !! _) as [id|]; [|done]. destruct (_ || _); [apply IH|].
  pose proof (iterateFunc_logged id m x log) as H1.
  destruct (StreamsMap.iterateFunc id (logged fn) m (x, log)) as [[m1 [x1 log1]] [cont e]]. rewrite H1.
  destruct e; [done|]. destruct cont; [apply IH|done].
Qed.

Lemma RoundRobinIterate_logged m x log :
  let '(m', (x', _), r) := StreamsMap.RoundRobinIterate (logged fn) m (x, log) in
  StreamsMap.RoundRobinIterate fn m x = (m', x', r).
Proof.
  unfold StreamsMap.RoundRobinIterate. pose proof (iterateOver_logged true [1; 3] m x log) as H1.
  destruct (StreamsMap.iterateOver [1; 3] true (logged fn) m (x, log)) as [[m1 [x1 log1]] r]. rewrite H1.
  destruct r as [[]| |]; [apply roundRobin_logged|done..].
Qed.
End Logged.

(** The order [RoundRobinIterate] means: the streams 1 and 3 first, then the others in turn. *)
Definition crypto_or_header (id : Z) : bool := (id =? 1) || (id =? 3).
Definition visitOrder (m : streamsMap) : list Z :=
  filter (fun id => id ∈ openStreams m) [1; 3] ++
  filter (fun id => crypto_or_header id = false) (rotate (Z.to_nat (roundRobinIndex m)) (openStreams m)).

Section Iterating.
Context {X : Type} (fn : @StreamsMap.streamLambda X).
Hypothesis fn_id : forall s x, str_id (fn s x).1.1 = str_id s.

(** [l] was visited of the streams [want], all of them if [fn] never stops. *)
Definition visits (l want : list Z) (all : Prop) : Prop :=
  l `prefix_of` want /\ ((forall s x, (fn s x).2 = (true, None)) -> l = want /\ all).

Lemma visits_cons id l want all : visits l want all -> visits (id :: l) (id :: want) all.
Proof. intros [H1 H2]. split; [by apply prefix_cons|]. intros H. by destruct (H2 H) as [-> ?]. Qed.

Lemma visits_stop id want all s x :
  (fn s x).2 <> (true, None) -> visits [id] (id :: want) all.
Proof. intros Hs. split; [by exists want|]. intros H. by rewrite H in Hs. Qed.

Lemma iterateFunc_open id m hist x log :
  map_ok m hist -> id ∈ openStreams m ->
  exists m' x' s, StreamsMap.iterateFunc id (logged fn) m (x, log) = (m', (x', log ++ [id]), (fn s x).2) /\
    same_streams m m' /\ roundRobinIndex m' = roundRobinIndex m.
Proof.
  intros Hok [s Hs]%(mo_streams _ _ Hok). unfold StreamsMap.iterateFunc, logged. rewrite Hs.
  pose proof (fn_id s x) as Hid. pose proof (mo_ids _ _ Hok _ _ Hs) as Hids.
  destruct (fn s x) as [[s' x'] r] eqn:Ef. cbn in Hid. rewrite Hids.
  eexists _, x', s. rewrite Ef. cbn. split; [reflexivity|]. split; [|done].
  by eapply same_update.
Qed.

Lemma iterateFunc_closed id m hist x :
  map_ok m hist -> id ∉ openStreams m ->
  StreamsMap.iterateFunc id (logged fn) m x = (m, x, (true, Some sm_errMapAccess)).
Proof.
  intros Hok Hid. unfold StreamsMap.iterateFunc. destruct (streams m !! id) as [s|] eqn:Es; [|done].
  destruct Hid. apply (mo_streams _ _ Hok). eauto.
Qed.

Lemma iterateOver_ok hist : forall ids m x log,
  map_ok m hist ->
  exists m' x' l r, StreamsMap.iterateOver ids true (logged fn) m (x, log) = (m', (x', log ++ l), r) /\
    same_streams m m' /\ roundRobinIndex m' = roundRobinIndex m /\
    visits l (filter (fun id => id ∈ openStreams m) ids) (r = Ret true) /\
    (r = Ret true -> l = filter (fun id => id ∈ openStreams m) ids) /\ (forall why, r <> Panic why).
Proof.
  induction ids as [|id ids IH]; intros m x log Hok.
  { exists m, x, [], (Ret true). rewrite app_nil_r. by repeat split. }
  cbn [StreamsMap.iterateOver]. rewrite filter_cons. destruct (decide (id ∈ openStreams m)) as [Hin|Hin].
  - destruct (iterateFunc_open id m hist x log Hok Hin) as (m1 & x1 & s & -> & Hs & Hrr).
    assert (Hgo : exists m' x' l r,
      StreamsMap.iterateOver ids true (logged fn) m1 (x1, log ++ [id]) = (m', (x', log ++ id :: l), r) /\
      same_streams m m' /\ roundRobinIndex m' = roundRobinIndex m /\
      visits (id :: l) (id :: filter (fun id => id ∈ openStreams m) ids) (r = Ret true) /\
      (r = Ret true -> id :: l = id :: filter (fun id => id ∈ openStreams m) ids) /\
      (forall why, r <> Panic why)).
    { destruct (IH m1 x1 (log ++ [id]) (same_ok _ _ _ Hs Hok)) as (m2 & x2 & l & r & -> & Hs2 & Hrr2 & Hv & Hr & Hp).
      rewrite (ss_open _ _ Hs) in Hv, Hr. exists m2, x2, l, r. rewrite <- app_assoc. split; [done|].
      split; [by trans m1|]. split; [congruence|]. split; [by apply visits_cons|].
      split; [|done]. intros H. by rewrite (Hr H). }
    assert (Hstop : forall e, (fn s x).2 <> (true, None) -> (forall why, e <> Panic why) -> e <> Ret true ->
      exists m' x' l r, (m1, (x1, log ++ [id]), e) = (m', (x', log ++ l), r) /\
      same_streams m m' /\ roundRobinIndex m' = roundRobinIndex m /\
      visits l (id :: filter (fun id => id ∈ openStreams m) ids) (r = Ret true) /\
      (r = Ret true -> l = id :: filter (fun id => id ∈ openStreams m) ids) /\
      (forall why, r <> Panic why)).
    { intros e He Hp Hr. exists m1, x1, [id], e. repeat (split; [done|]). split; [by eapply visits_stop|done]. }
    destruct Hgo as (m2 & x2 & l & r & Hgo).
    destruct ((fn s x).2) as [[] [e|]]; [destruct (_ && _)| |destruct (_ && _)|].
    all: first [by apply Hstop|exists m2, x2, (id :: l), r; apply Hgo].
  - rewrite (iterateFunc_closed id m hist) by done. cbn [andb]. rewrite bool_decide_true by done. by apply IH.
Qed.

Lemma rotate_perm n (l : list Z) : rotate n l ≡ₚ l.
Proof. unfold rotate. rewrite (Permutation_app_comm (drop _ _)). by rewrite take_drop. Qed.

Lemma lookup_rotated (l : list Z) start i :
  (i < length l)%nat -> 0 <= start <= Z.of_nat (length l) -> Z.of_nat (length l) < 2 ^ 31 ->
  l !! Z.to_nat (u32 (Z.of_nat i + start) `mod` Z.of_nat (length l)) = rotate (Z.to_nat start) l !! i.
Proof.
  intros Hi Hs Hl. rewrite lookup_rotate_r by done. f_equal. unfold rotate_nat_add.
  rewrite (uN_small 32) by solve_range. f_equal. f_equal. lia.
Qed.

Lemma roundRobin_ok hist start : forall n i m x log,
  map_ok m hist -> rr_ok m -> (i + n)%nat = length (openStreams m) ->
  0 <= start <= Z.of_nat (length (openStreams m)) -> Z.of_nat (length (openStreams m)) < 2 ^ 31 ->
  let want := filter (fun id => crypto_or_header id = false) (drop i (rotate (Z.to_nat start) (openStreams m))) in
  exists m' x' l r, StreamsMap.roundRobin n (Z.of_nat i) (Z.of_nat (length (openStreams m))) start
      (logged fn) m (x, log) = (m', (x', log ++ l), r) /\
    same_streams m m' /\ rr_ok m' /\ visits l want (r = Ret tt) /\ (forall why, r <> Panic why).
Proof.
  induction n as [|n IH]; intros i m x log Hok Hrr Hn Hstart Hlen want.
  { exists m, x, [], (Ret tt). rewrite app_nil_r. repeat (split; [done|]). unfold want.
    rewrite drop_ge by (rewrite length_rotate; lia). by repeat split. }
  cbn [StreamsMap.roundRobin]. rewrite lookup_rotated by (done || lia).
  destruct (lookup_lt_is_Some_2 (rotate (Z.to_nat start) (openStreams m)) i) as [id Hid];
    [rewrite length_rotate; lia|].
  rewrite Hid. unfold want. rewrite (drop_S _ _ _ Hid), filter_cons.
  replace (Z.of_nat i + 1) with (Z.of_nat (S i)) by lia.
  change ((id =? 1) || (id =? 3)) with (crypto_or_header id).
  destruct (crypto_or_header id); cbn [decide]; [by apply IH; [..|lia|lia|]|].
  rewrite decide_True by done. clear want.
  assert (Hin : id ∈ openStreams m) by (apply list_elem_of_lookup_2 in Hid; by rewrite rotate_perm in Hid).
  destruct (iterateFunc_open id m hist x log Hok Hin) as (m1 & x1 & s & -> & Hs & Hrr1).
  set (m2 := m1 <| roundRobinIndex := _ |>).
  assert (Hs2 : same_streams m m2) by (trans m1; [done|by split]).
  assert (Hrr2 : rr_ok m2).
  { unfold rr_ok. rewrite (ss_open _ _ Hs2). unfold m2. cbn.
    pose proof (Z.mod_pos_bound (u32 (roundRobinIndex m1 + 1)) (Z.of_nat (length (openStreams m))) ltac:(lia)). lia. }
  assert (Hstop : forall m' e, (fn s x).2 <> (true, None) -> (forall why, e <> Panic why) -> same_streams m m' ->
    rr_ok m' ->
    exists m'' x' l r, (m', (x1, log ++ [id]), e) = (m'', (x', log ++ l), r) /\
    same_streams m m'' /\ rr_ok m'' /\ visits l (id :: filter (fun id => crypto_or_header id = false)
       (drop (S i) (rotate (Z.to_nat start) (openStreams m)))) (r = Ret tt) /\ (forall why, r <> Panic why)).
  { intros m' e He Hp Hsm Hrm. exists m', x1, [id], e. repeat (split; [done|]).
    split; [by eapply visits_stop|done]. }
  destruct ((fn s x).2) as [cont [e|]].
  { apply Hstop; try done. unfold rr_ok. by rewrite (ss_open _ _ Hs), Hrr1. }
  destruct cont; [|by apply Hstop].
  rewrite <- (ss_open _ _ Hs2).
  destruct (IH (S i) m2 x1 (log ++ [id])) as (m3 & x3 & l & r & -> & Hs3 & Hrr3 & Hv & Hp);
    rewrite ?(ss_open _ _ Hs2); try done; [by eapply same_ok|lia|].
  exists m3, x3, (id :: l), r. rewrite <- app_assoc. split; [done|]. split; [by trans m2|]. split; [done|].
  split; [|done]. rewrite (ss_open _ _ Hs2) in Hv. by apply visits_cons.
Qed.
End Iterating.

Lemma crypto_or_header_spec id : crypto_or_header id = true <-> id = 1 \/ id = 3.
Proof. unfold crypto_or_header. rewrite orb_true_iff, !Z.eqb_eq. done. Qed.

Lemma visitOrder_perm m hist : map_ok m hist -> visitOrder m ≡ₚ openStreams m.
Proof.
  intros Hok. pose proof (mo_nodup _ _ Hok) as Hd. unfold visitOrder. rewrite rotate_perm.
  apply NoDup_Permutation; [|done|].
  - apply NoDup_app. split; [apply NoDup_filter; by apply (bool_decide_unpack _)|].
    split; [|by apply NoDup_filter]. intros x [_ H1]%list_elem_of_filter [H2 _]%list_elem_of_filter.
    assert (crypto_or_header x = true) by (apply crypto_or_header_spec; set_solver). congruence.
  - intros x. rewrite elem_of_app, !list_elem_of_filter. destruct (crypto_or_header x) eqn:E; [|naive_solver].
    apply crypto_or_header_spec in E. split; [naive_solver|]. intros Hx. left. split; [done|]. set_solver.
Qed.

(** [RoundRobinIterate] calls [fn] with the streams in the order [visitOrder], each open stream once. *)
Lemma RoundRobinIterate_ok {X} (fn : @StreamsMap.streamLambda X) m hist x :
  (forall s y, str_id (fn s y).1.1 = str_id s) -> map_ok m hist -> rr_ok m ->
  Z.of_nat (length (openStreams m)) < 2 ^ 31 ->
  exists m' x' log r, StreamsMap.RoundRobinIterate (logged fn) m (x, []) = (m', (x', log), r) /\
    same_streams m m' /\ rr_ok m' /\ visits fn log (visitOrder m) (r = Ret tt) /\ (forall why, r <> Panic why).
Proof.
  intros Hfn Hok Hrr Hlen. unfold StreamsMap.RoundRobinIterate, visitOrder.
  destruct (iterateOver_ok fn Hfn hist [1; 3] m x [] Hok) as (m1 & x1 & l1 & r1 & -> & Hs1 & Hrr1 & [Hv1 Hall] & Hl1 & Hp1).
  cbn [app]. assert (Hrr1' : rr_ok m1) by (unfold rr_ok; by rewrite (ss_open _ _ Hs1), Hrr1).
  assert (Hstop : forall e, r1 <> Ret true -> (forall why, e <> Panic why) ->
    exists m' x' log r, (m1, (x1, l1), e) = (m', (x', log), r) /\ same_streams m m' /\ rr_ok m' /\
    visits fn log (filter (fun id => id ∈ openStreams m) [1; 3] ++ filter (fun id => crypto_or_header id = false)
      (rotate (Z.to_nat (roundRobinIndex m)) (openStreams m))) (r = Ret tt) /\ (forall why, r <> Panic why)).
  { intros e He Hp. exists m1, x1, l1, e. repeat (split; [done|]). split; [|done]. split; [by apply prefix_app_r|].
    intros H. by destruct (Hall H). }
  destruct r1 as [[]|e|why]; [|by apply Hstop..|by destruct (Hp1 why)].
  rewrite (Hl1 eq_refl). rewrite (size_streams _ _ Hok), (uN_small 32) by solve_range.
  destruct (roundRobin_ok fn Hfn hist (roundRobinIndex m) (length (openStreams m)) 0 m1 x1
    (filter (fun id => id ∈ openStreams m) [1; 3])) as (m2 & x2 & l2 & r2 & Heq & Hs2 & Hrr2 & [Hv2 Hall2] & Hp2);
    rewrite ?(ss_open _ _ Hs1); try done; [by eapply same_ok|].
  rewrite (ss_open _ _ Hs1) in Heq, Hv2, Hall2. change (Z.of_nat 0) with 0 in Heq. rewrite Nat2Z.id, Heq. rewrite drop_0 in Hv2, Hall2.
  eexists m2, x2, _, r2. split; [done|]. split; [by trans m1|]. split; [done|]. split; [|done].
  split; [by apply prefix_app|]. intros H. destruct (Hall2 H) as [-> ?]. done.
Qed.

(** ** All operations together *)

Lemma putStream_rr s m : roundRobinIndex (StreamsMap.putStream s m) = roundRobinIndex m.
Proof. unfold StreamsMap.putStream. by case_match. Qed.

Lemma openRemoteStream_rr h id st :
  roundRobinIndex (StreamsMap.openRemoteStream h id st).1.1 = roundRobinIndex st.1.
Proof.
  destruct st as [m f]. unfold StreamsMap.openRemoteStream. repeat case_match; cbn; rewrite ?putStream_rr; done.
Qed.

Lemma openUpTo_rr h id : forall fuel sid st,
  roundRobinIndex (StreamsMap.openUpTo h fuel sid id st).1.1 = roundRobinIndex st.1.
Proof.
  induction fuel as [|fuel IH]; intros sid st; [done|]. cbn [StreamsMap.openUpTo]. case_match; [|done].
  pose proof (openRemoteStream_rr h sid st) as H1.
  destruct (StreamsMap.openRemoteStream h sid st) as [st1 [[]|e|]]; cbn in H1; [|done..]. by rewrite IH.
Qed.

Lemma GetOrOpenStream_rr h id st :
  roundRobinIndex (StreamsMap.GetOrOpenStream h id st).1.1 = roundRobinIndex st.1.
Proof.
  unfold StreamsMap.GetOrOpenStream. repeat (case_match; try done).
  all: match goal with H : StreamsMap.openUpTo ?h ?fu ?sid ?i ?s = _ |- _ =>
         pose proof (openUpTo_rr h i fu sid s) as Hrr; rewrite H in Hrr end; exact Hrr.
Qed.

Lemma openStreamImpl_rr h st :
  roundRobinIndex (StreamsMap.openStreamImpl h st).1.1 = roundRobinIndex st.1.
Proof.
  destruct st as [m f]. unfold StreamsMap.openStreamImpl. repeat case_match; cbn; rewrite ?putStream_rr; done.
Qed.

Lemma RemoveStream_sub id m x s :
  streams (StreamsMap.RemoveStream id m).1 !! x = Some s -> streams m !! x = Some s.
Proof.
  unfold StreamsMap.RemoveStream. destruct (streams m !! id); [|done]. cbn [fst]. cbn.
  intros [_ Hs]%lookup_delete_Some. by repeat case_match.
Qed.

Lemma RemoveStream_rr m id : rr_ok m -> rr_ok (StreamsMap.RemoveStream id m).1.
Proof.
  unfold rr_ok, StreamsMap.RemoveStream. intros Hrr. destruct (streams m !! id); [|done]. cbv zeta. cbn [fst].
  set (m1 := if id `mod` 2 =? 0 then _ else _).
  assert (Hm1 : openStreams m1 = openStreams m /\ roundRobinIndex m1 = roundRobinIndex m)
    by (unfold m1; by case_match).
  destruct Hm1 as [Ho Hr]. rewrite <- Ho, <- Hr in Hrr. clearbody m1. clear Ho Hr.
  destruct (StreamsMap.indexOf id (openStreams m1)) as [i|] eqn:Ei; [|by case_match].
  destruct (indexOf_Some _ _ _ Ei) as (l1 & l2 & Hl & Hrem).
  assert (Hi : (i < length (openStreams m1))%nat /\ length (openStreams m1) = S (length (l1 ++ l2))).
  { rewrite <- Hrem. unfold StreamsMap.removeAt. rewrite length_app, length_take, length_drop.
    rewrite Hl in *. clear -Ei. assert (i < length (l1 ++ id :: l2))%nat; [|lia].
    revert i Ei. generalize (l1 ++ id :: l2). induction l as [|x l IH]; intros i; [done|]. cbn.
    case_match; [intros [= <-]; lia|]. intros (j & Hj & ->)%fmap_Some. apply IH in Hj. lia. }
  case_match; cbn; rewrite Hrem; destruct (Z.ltb_spec (Z.of_nat i) (roundRobinIndex m1)); lia.
Qed.

(** Opening streams leaves those in the map alone; the new ones are empty. *)
Definition extends (ss ss' : gmap Z stream) : Prop :=
  forall id, ss' !! id = ss !! id \/ ss !! id = None /\ ss' !! id = Some (newStream id).

#[export] Instance extends_preorder : PreOrder extends.
Proof.
  split; [by left|]. intros a b c Hab Hbc id. destruct (Hbc id) as [->|[Hb ->]]; [apply Hab|].
  right. destruct (Hab id) as [<-|[? Hs]]; [done|congruence].
Qed.

Lemma putStream_extends id m : extends (streams m) (streams (StreamsMap.putStream (newStream id) m)).
Proof.
  intros x. unfold StreamsMap.putStream. cbn [str_id newStream].
  destruct (streams m !! id) eqn:E; [by left|]. cbn. destruct (decide (id = x)) as [->|].
  - right. by rewrite lookup_insert_eq.
  - left. by rewrite lookup_insert_ne.
Qed.

Lemma openRemoteStream_extends h id st :
  extends (streams st.1) (streams (StreamsMap.openRemoteStream h id st).1.1).
Proof.
  destruct st as [m f]. unfold StreamsMap.openRemoteStream. cbn [fst]. repeat case_match; try done.
  all: etrans; [|apply putStream_extends]; done.
Qed.

Lemma openUpTo_extends h id : forall fuel sid st,
  extends (streams st.1) (streams (StreamsMap.openUpTo h fuel sid id st).1.1).
Proof.
  induction fuel as [|fuel IH]; intros sid st; [done|]. cbn [StreamsMap.openUpTo]. case_match; [|done].
  pose proof (openRemoteStream_extends h sid st) as H1.
  destruct (StreamsMap.openRemoteStream h sid st) as [st1 [[]|e|]]; cbn in H1; [|done..].
  etrans; [exact H1|apply IH].
Qed.

Lemma GetOrOpenStream_extends h id st :
  extends (streams st.1) (streams (StreamsMap.GetOrOpenStream h id st).1.1).
Proof.
  unfold StreamsMap.GetOrOpenStream. repeat (case_match; try done).
  all: match goal with H : StreamsMap.openUpTo ?h ?fu ?sid ?i ?s = _ |- _ =>
         pose proof (openUpTo_extends h i fu sid s) as Hrr; rewrite H in Hrr end; exact Hrr.
Qed.

Lemma openStreamImpl_extends h st :
  extends (streams st.1) (streams (StreamsMap.openStreamImpl h st).1.1).
Proof.
  destruct st as [m f]. unfold StreamsMap.openStreamImpl. cbn [fst]. repeat case_match; try done.
  all: etrans; [|apply putStream_extends]; done.
Qed.

Lemma cancelAll_ok e hist : forall ids m,
  map_ok m hist -> (forall id, id ∈ ids -> id ∈ openStreams m) ->
  exists m', StreamsMap.cancelAll e ids m = (m', Ret tt) /\ same_streams m m' /\ roundRobinIndex m' = roundRobinIndex m.
Proof.
  induction ids as [|id ids IH]; intros m Hok Hin; [by exists m|]. cbn [StreamsMap.cancelAll].
  destruct (mo_streams _ _ Hok id) as [Hs _]. destruct Hs as [s Hs]; [apply Hin; set_solver|]. rewrite Hs.
  pose proof (same_update m id s (Stream.Cancel (Some e) s) Hs) as Hu.
  destruct (IH (m <| streams := <[id := Stream.Cancel (Some e) s]> (streams m) |>)) as (m' & -> & Hs' & Hr').
  - eapply same_ok; [apply Hu|done]. unfold Stream.Cancel. by repeat case_match.
  - intros x Hx. cbn. apply Hin. set_solver.
  - exists m'. split; [done|]. split; [|done]. etrans; [apply Hu|done]. unfold Stream.Cancel. by repeat case_match.
Qed.

(** The operations of a streams map, with the IDs opened so far.  The connection parameters may
    change between them, but never allow more than [N] own streams; [nextStream] has not wrapped
    around. *)
Inductive map_step (N : Z) : mapState * list Z -> mapState * list Z -> Prop :=
  | step_get h id m f hist st r :
      0 <= id < 2 ^ 32 - 2 -> StreamsMap.GetOrOpenStream h id (m, f) = (st, r) ->
      map_step N ((m, f), hist) (st, hist ++ drop (length (openStreams m)) (openStreams st.1))
  | step_open h m f hist st r :
      Parameters.GetMaxOutgoingStreams h <= N -> nextStream m < 2 ^ 32 - 2 ->
      StreamsMap.OpenStream h (m, f) = (st, r) ->
      map_step N ((m, f), hist) (st, hist ++ drop (length (openStreams m)) (openStreams st.1))
  | step_open_sync h treeErr m f hist st r :
      Parameters.GetMaxOutgoingStreams h <= N -> nextStream m < 2 ^ 32 - 2 ->
      StreamsMap.OpenStreamSync h treeErr (m, f) = (st, r) ->
      map_step N ((m, f), hist) (st, hist ++ drop (length (openStreams m)) (openStreams st.1))
  | step_accept m f hist m' r :
      StreamsMap.AcceptStream m = (m', r) -> map_step N ((m, f), hist) ((m', f), hist)
  | step_remove id m f hist m' r :
      StreamsMap.RemoveStream id m = (m', r) -> map_step N ((m, f), hist) ((m', f), hist)
  | step_close e m f hist m' r :
      StreamsMap.CloseWithError e m = (m', r) -> map_step N ((m, f), hist) ((m', f), hist)
  | step_stream id s s' m f hist :
      streams m !! id = Some s -> str_id s' = str_id s ->
      map_step N ((m, f), hist) ((m <| streams := <[id := s']> (streams m) |>, f), hist)
  | step_round_robin {X : Type} (fn : @StreamsMap.streamLambda X) x m f hist m' x' r :
      (forall s y, str_id (fn s y).1.1 = str_id s) -> Z.of_nat (length (openStreams m)) < 2 ^ 31 ->
      StreamsMap.RoundRobinIterate fn m x = (m', x', r) ->
      map_step N ((m, f), hist) ((m', f), hist)
  | step_flow_control m f f' hist : map_step N ((m, f), hist) ((m, f'), hist).

(** The limits a server keeps. *)
Definition limits (N : Z) (m : streamsMap) : Prop :=
  isServer (sm_perspective m) = true -> numIncomingStreams m <= 110 /\ numOutgoingStreams m <= N.

Definition map_inv (N : Z) (pers : Perspective) (st : mapState * list Z) : Prop :=
  map_ok st.1.1 st.2 /\ rr_ok st.1.1 /\ sm_perspective st.1.1 = pers /\ limits N st.1.1.

Lemma same_inv N pers m m' f f' hist :
  same_streams m m' -> rr_ok m' -> map_inv N pers ((m, f), hist) -> map_inv N pers ((m', f'), hist).
Proof.
  intros Hs Hrr (H1 & H2 & H3 & H4). split; [by eapply same_ok|]. split; [done|].
  unfold limits in *. cbn in *. by rewrite (ss_persp _ _ Hs), (ss_in _ _ Hs), (ss_out _ _ Hs).
Qed.

Lemma grown_inv N pers m f hist st :
  grown m st.1 hist -> roundRobinIndex st.1 = roundRobinIndex m -> map_inv N pers ((m, f), hist) ->
  map_inv N pers (st, hist ++ drop (length (openStreams m)) (openStreams st.1)).
Proof.
  intros [G1 G2 G3 G4] Hr (H1 & H2 & H3 & H4). cbn in *. split; [done|]. split; [|split; [cbn; by rewrite G3|]].
  - unfold rr_ok in *. cbn. rewrite Hr. apply prefix_length in G2. lia.
  - intros Hs. cbn in Hs. rewrite G3 in Hs. specialize (G4 Hs). specialize (H4 Hs). cbn. lia.
Qed.

Lemma openStreamImpl_inv N pers h m f hist :
  Parameters.GetMaxOutgoingStreams h <= N -> nextStream m < 2 ^ 32 - 2 -> map_inv N pers ((m, f), hist) ->
  let st := (StreamsMap.openStreamImpl h (m, f)).1 in
  map_inv N pers (st, hist ++ drop (length (openStreams m)) (openStreams st.1)).
Proof.
  intros HN Hn (H1 & H2 & H3 & H4) st. cbn [fst snd] in *.
  pose proof (openStreamImpl_ok h m f hist H1 Hn) as Hop. pose proof (openStreamImpl_rr h (m, f)) as Hr.
  subst st. destruct (StreamsMap.openStreamImpl h (m, f)) as [st [id|e|]]; cbn [fst snd] in *; [| |done].
  - destruct Hop as ([O1 O2 O3] & _ & Hlt & Ho & Hi). rewrite O2, drop_app_length. split; [done|].
    split; [|split; [cbn; by rewrite O3|]].
    + unfold rr_ok in *. cbn. rewrite Hr, O2, length_app. lia.
    + intros Hs. cbn in Hs. rewrite O3 in Hs. specialize (H4 Hs). rewrite Hs in Ho, Hi. cbn. lia.
  - destruct Hop as [-> _]. cbn. rewrite drop_all, app_nil_r. done.
Qed.

Lemma step_inv N pers a b : map_step N a b -> map_inv N pers a -> map_inv N pers b.
Proof.
  intros Hstep Hinv. pose proof Hinv as (H1 & H2 & H3 & H4). destruct Hstep; cbn in H1, H2, H3, H4.
  - pose proof (GetOrOpenStream_ok h m f hist id H1 H) as Hg. pose proof (GetOrOpenStream_rr h id (m, f)) as Hr.
    rewrite H0 in Hg, Hr. destruct r; [| |done]; destruct Hg as [Hg _]; by eapply grown_inv.
  - unfold StreamsMap.OpenStream in *. cbn [fst snd] in *. destruct (closeErr m).
    + simplify_eq. cbn. by rewrite drop_all, app_nil_r.
    + pose proof (openStreamImpl_inv N pers h m f hist H H0 Hinv) as Ho. by rewrite H5 in Ho.
  - pose proof (openStreamImpl_inv N pers h m f hist H H0 Hinv) as Ho.
    unfold StreamsMap.OpenStreamSync, StreamsMap.openStreamPriorityImpl in *. cbn [fst snd] in *. destruct (closeErr m).
    + simplify_eq. cbn. by rewrite drop_all, app_nil_r.
    + destruct (StreamsMap.openStreamImpl h (m, f)) as [st' r']. cbn [fst snd] in Ho. repeat case_match; simplify_eq; done.
  - unfold StreamsMap.AcceptStream in *. repeat case_match; simplify_eq; try done.
    by apply (same_inv _ _ m _ f).
  - pose proof (RemoveStream_map_ok m hist id H1) as Hrem. pose proof (RemoveStream_rr m id H2) as Hrr.
    match goal with H : StreamsMap.RemoveStream _ _ = _ |- _ => rewrite H in Hrem, Hrr end.
    destruct r; [|by destruct Hrem as [-> _]|done]. destruct Hrem as (Hok & _ & _ & Ho & Hi & Hp & _).
    split; [done|]. split; [done|]. split; [cbn; congruence|]. intros Hs. cbn in Hs. rewrite Hp in Hs.
    specialize (H4 Hs). cbn. lia.
  - set (m1 := m <| closeErr := Some e |>) in *.
    destruct (cancelAll_ok e hist (openStreams m) m1) as (m2 & Hc & Hs & Hr).
    + apply (same_ok m); [by split|done].
    + done.
    + unfold StreamsMap.CloseWithError in *. change (openStreams (m <| closeErr := _ |>)) with (openStreams m) in *.
      fold m1 in H. rewrite Hc in H. simplify_eq. apply (same_inv _ _ m1 _ f).
      * done.
      * unfold rr_ok. by rewrite (ss_open _ _ Hs), Hr.
      * by apply (same_inv _ _ m _ f).
  - eapply same_inv; [by eapply same_update|done|done].
  - destruct (RoundRobinIterate_ok fn m hist x H H1 H2 H0) as (m2 & x2 & l2 & r2 & Heq & Hs & Hr & _).
    pose proof (RoundRobinIterate_logged fn m x []) as Hlog. rewrite Heq in Hlog.
    assert (m2 = m') as -> by congruence. by eapply same_inv.
  - done.
Qed.

Lemma map_inv_reachable N pers f st :
  0 <= N -> rtc (map_step N) ((newStreamsMapTree pers, f), []) st -> map_inv N pers st.
Proof.
  intros HN Hsteps. assert (Hinit : map_inv N pers ((newStreamsMapTree pers, f), [])).
  { split; [apply map_ok_new|]. destruct pers; (split; [done|]); (split; [done|]); intros _; cbn; lia. }
  revert Hinit. induction Hsteps as [|a b c Hab _ IH]; [done|]. intros Ha. by apply IH, (step_inv N pers a).
Qed.

(** C13: After any sequence of operations on the streams map of a connection (streams opened by the
    peer and by the application, accepted, changed, iterated over, removed, the connection closed,
    while the connection parameters and flow control change), no stream ID was ever opened twice,
    the list of open streams and the map have the same streams, each with the ID it is stored
    under, and the two counters are the numbers of the open streams with even and odd IDs.  On a
    server at most 110 streams of the client are open, and never more of its own than the client
    allowed. *)
Theorem streams_map_invariant N pers f m f' hist :
  0 <= N -> rtc (map_step N) ((newStreamsMapTree pers, f), []) ((m, f'), hist) ->
  NoDup hist /\ NoDup (openStreams m) /\
  (forall id, id ∈ openStreams m -> id ∈ hist) /\
  (forall id, id ∈ openStreams m <-> exists s, streams m !! id = Some s /\ str_id s = id) /\
  numOutgoingStreams m = evens (openStreams m) /\ numIncomingStreams m = odds (openStreams m) /\
  (pers = PerspectiveServer -> odds (openStreams m) <= 110 /\ evens (openStreams m) <= N).
Proof.
  intros HN Hsteps. destruct (map_inv_reachable _ _ _ _ HN Hsteps) as (Hok & _ & Hp & Hl). cbn in *.
  split; [apply (mo_hist _ _ Hok)|]. split; [apply (mo_nodup _ _ Hok)|]. split; [apply (mo_sub _ _ Hok)|].
  split; [|split; [apply (mo_out _ _ Hok)|split; [apply (mo_in _ _ Hok)|]]].
  - intros id. rewrite (mo_streams _ _ Hok). split; [|intros (s & -> & _); eauto].
    intros [s Hs]. exists s. split; [done|]. by apply (mo_ids _ _ Hok).
  - intros ->. rewrite <- (mo_out _ _ Hok), <- (mo_in _ _ Hok). unfold limits in Hl. rewrite Hp in Hl.
    by apply Hl.
Qed.

(** [RoundRobinIterate], on any reachable map with fewer than 2^31 streams, does not panic; it
    calls its function with the streams 1 and 3 first and then with the other open streams in turn,
    starting at the round robin index, no stream twice, and with every open stream if the function
    never stops the iteration.  It keeps the map's streams. *)
Theorem round_robin_visits N pers f m f' hist {X : Type} (fn : @StreamsMap.streamLambda X) x :
  0 <= N -> rtc (map_step N) ((newStreamsMapTree pers, f), []) ((m, f'), hist) ->
  Z.of_nat (length (openStreams m)) < 2 ^ 31 -> (forall s y, str_id (fn s y).1.1 = str_id s) ->
  exists m' x' log r,
    StreamsMap.RoundRobinIterate (logged fn) m (x, []) = (m', (x', log), r) /\
    log `prefix_of` visitOrder m /\ visitOrder m ≡ₚ openStreams m /\
    openStreams m' = openStreams m /\ (forall why, r <> Panic why) /\
    ((forall s y, (fn s y).2 = (true, None)) -> r = Ret tt /\ log = visitOrder m).
Proof.
  intros HN Hsteps Hlen Hfn. destruct (map_inv_reachable _ _ _ _ HN Hsteps) as (Hok & Hrr & _).
  destruct (RoundRobinIterate_ok fn m hist x Hfn Hok Hrr Hlen) as (m' & x' & log & r & Heq & Hs & _ & [Hv Hall] & Hp).
  exists m', x', log, r. split; [done|]. split; [done|]. split; [by eapply visitOrder_perm|].
  split; [apply (ss_open _ _ Hs)|]. split; [done|]. intros H. by destruct (Hall H).
Qed.

(** A server: the client opens the stream 7 and with it 1, 3 and 5, the server opens 2, the stream 3
    is removed. *)
Definition example_parameters : connectionParametersManager :=
  NewConnectionParamatersManager PerspectiveServer 39 40000 50000 (30 * Second).
Definition example_fc : flowControlManager :=
  NewFlowControlManager (Parameters.flowControlView example_parameters).
Definition example_opened : mapState :=
  (StreamsMap.GetOrOpenStream example_parameters 7 (newStreamsMapTree PerspectiveServer, example_fc)).1.
Definition example_both : mapState := (StreamsMap.OpenStream example_parameters example_opened).1.
Definition example_map : streamsMap := (StreamsMap.RemoveStream 3 example_both.1).1.

Lemma example_run :
  rtc (map_step 100) ((newStreamsMapTree PerspectiveServer, example_fc), [])
    ((example_map, example_both.2), [1; 3; 5; 7; 2]).
Proof.
  assert (H1 : openStreams example_opened.1 = [1; 3; 5; 7]) by (by vm_compute).
  assert (H2 : openStreams example_both.1 = [1; 3; 5; 7; 2]) by (by vm_compute).
  pose proof (step_get 100 example_parameters 7 (newStreamsMapTree PerspectiveServer) example_fc []
    example_opened _ ltac:(lia) (surjective_pairing _)) as Hget.
  pose proof (step_open 100 example_parameters example_opened.1 example_opened.2 [1; 3; 5; 7]
    example_both (StreamsMap.OpenStream example_parameters example_opened).2
    ltac:(by vm_compute) ltac:(by vm_compute)) as Hopen.
  rewrite <- (surjective_pairing example_opened) in Hopen. specialize (Hopen (surjective_pairing _)).
  pose proof (step_remove 100 3 example_both.1 example_both.2 [1; 3; 5; 7; 2] example_map _
    (surjective_pairing _)) as Hremove.
  rewrite <- (surjective_pairing example_both) in Hremove. rewrite H1 in Hget. rewrite H1, H2 in Hopen.
  exact (rtc_l _ _ _ _ Hget (rtc_l _ _ _ _ Hopen (rtc_l _ _ _ _ Hremove (rtc_refl _ _)))).
Qed.

Lemma streams_map_invariant_witness :
  numIncomingStreams example_map = 3 /\ numOutgoingStreams example_map = 1 /\
  NoDup [1; 3; 5; 7; 2] /\ odds (openStreams example_map) <= 110.
Proof.
  pose proof (streams_map_invariant 100 PerspectiveServer example_fc example_map example_both.2 [1; 3; 5; 7; 2]
    ltac:(lia) example_run) as (H1 & _ & _ & _ & H2 & H3 & H4). destruct (H4 eq_refl) as [H5 _].
  refine (conj _ (conj _ (conj H1 H5))); [rewrite H3|rewrite H2]; by vm_compute.
Defined.


Lemma round_robin_visits_witness :
  visitOrder example_map = [1; 5; 7; 2] /\
  exists m' x' log r,
    StreamsMap.RoundRobinIterate (logged (fun s (x : Z) => (s, x + 1, (true, None)))) example_map (0, []) = (m', (x', log), r)
    /\ log = [1; 5; 7; 2] /\ r = Ret tt.
Proof.
  assert (Hv : visitOrder example_map = [1; 5; 7; 2]) by (by vm_compute). split; [done|].
  assert (Hlen : Z.of_nat (length (openStreams example_map)) < 2 ^ 31) by (by vm_compute).
  pose proof (round_robin_visits 100 PerspectiveServer example_fc example_map example_both.2 [1; 3; 5; 7; 2]
    (fun s (x : Z) => (s, x + 1, (true, None))) 0 ltac:(lia) example_run Hlen (fun s y => eq_refl))
    as (m' & x' & log & r & H1 & _ & _ & _ & _ & H2).
  destruct (H2 (fun s y => eq_refl)) as [Hr Hlog]. rewrite Hv in Hlog.
  exact (ex_intro _ m' (ex_intro _ x' (ex_intro _ log (ex_intro _ r (conj H1 (conj Hlog Hr)))))).
Defined.

(** ** The limits on a client

    [numOutgoingStreams] counts the even IDs and [numIncomingStreams] the odd ones.  These are the
    streams the server opens and those the client opens, but the limits are checked on both sides
    as if the first were the endpoint's own. *)
Lemma openRemoteStream_client h m f id :
  numIncomingStreams m < 110 -> highestStreamOpenedByPeer m < id -> 0 <= id < 2 ^ 32 - 400 ->
  exists st, StreamsMap.openRemoteStream h id (m, f) = (st, Ret tt).
Proof.
  intros Hn Hh Hid. unfold StreamsMap.openRemoteStream. change (Parameters.GetMaxIncomingStreams h) with 110.
  destruct (Z.leb_spec 110 (numIncomingStreams m)); [lia|]. unfold MaxNewStreamIDDelta, MaxStreamsPerConnection.
  rewrite (uN_small 32) by solve_range. destruct (Z.ltb_spec (id + 4 * 100) (highestStreamOpenedByPeer m)); [lia|].
  eauto.
Qed.

Lemma openUpTo_client_step h fuel sid id m f hist :
  map_ok m hist -> isServer (sm_perspective m) = false -> numIncomingStreams m < 110 ->
  own m sid = false -> highestStreamOpenedByPeer m < sid <= id -> id < 2 ^ 32 - 400 ->
  exists m1 f1, StreamsMap.openUpTo h (S fuel) sid id (m, f) = StreamsMap.openUpTo h fuel (sid + 2) id (m1, f1) /\
    opened m m1 hist sid /\ highestStreamOpenedByPeer m1 = sid /\ numIncomingStreams m1 = numIncomingStreams m.
Proof.
  intros Hok Hc Hin Hs Hh Hid. pose proof (mo_highest _ _ Hok) as [Hh0 _].
  destruct (openRemoteStream_client h m f sid) as [[m1 f1] Hr]; [done|lia|lia|].
  pose proof (openRemoteStream_ok h m f hist sid Hok Hs ltac:(lia)) as Ho. rewrite Hr in Ho.
  destruct Ho as (Ho & Hh1 & _ & _ & Hi1 & _). rewrite Hc in Hi1. exists m1, f1.
  cbn [StreamsMap.openUpTo]. rewrite (proj2 (Z.leb_le sid id)) by lia. rewrite Hr, (uN_small 32) by solve_range.
  cbn [fst] in *. repeat (split; [done|]). lia.
Qed.

Lemma openUpTo_client h : forall n fuel id m f hist,
  map_ok m hist -> isServer (sm_perspective m) = false -> numIncomingStreams m < 110 ->
  own m id = false -> highestStreamOpenedByPeer m < id - 2 * Z.of_nat n -> 0 < id < 2 ^ 32 - 400 -> (n < fuel)%nat ->
  exists st, StreamsMap.openUpTo h (S fuel) (id - 2 * Z.of_nat n) id (m, f) = (st, Ret tt) /\
    length (openStreams st.1) = (length (openStreams m) + n + 1)%nat.
Proof.
  induction n as [|n IH]; intros fuel id m f hist Hok Hc Hin Hown Hh Hid Hfuel; (destruct fuel as [|fuel]; [lia|]).
  - destruct (openUpTo_client_step h (S fuel) (id - 2 * Z.of_nat 0) id m f hist) as (m1 & f1 & -> & [O1 O2 O3] & _);
      [done..|by rewrite Z.mul_0_r, Z.sub_0_r|lia|lia|].
    cbn [StreamsMap.openUpTo]. rewrite (proj2 (Z.leb_gt _ id)) by lia.
    eexists. split; [done|]. cbn. rewrite O2, length_app. cbn. lia.
  - destruct (openUpTo_client_step h (S fuel) (id - 2 * Z.of_nat (S n)) id m f hist)
      as (m1 & f1 & -> & [O1 O2 O3] & Hh1 & Hi1); [done..| |lia|lia|].
    { rewrite <- Hown, <- (own_step m _ (Z.of_nat (S n))). f_equal. lia. }
    replace (id - 2 * Z.of_nat (S n) + 2) with (id - 2 * Z.of_nat n) by lia.
    destruct (IH fuel id m1 f1 _ O1) as (st & -> & Hl); rewrite ?O3; try done; try lia.
    + rewrite <- Hown. unfold own. by rewrite O3.
    + eexists. split; [done|]. rewrite Hl, O2, length_app. cbn. lia.
Qed.

Lemma GetOrOpenStream_client h f n :
  0 < 2 * Z.of_nat n < 2 ^ 32 - 400 ->
  exists st, StreamsMap.GetOrOpenStream h (2 * Z.of_nat n) (newStreamsMapTree PerspectiveClient, f) =
      (st, Ret (Some (2 * Z.of_nat n))) /\ length (openStreams st.1) = n.
Proof.
  intros Hn. pose proof (map_ok_new PerspectiveClient) as Hok.
  set (m := newStreamsMapTree PerspectiveClient) in *.
  assert (Hm : streams m = ∅ /\ openStreams m = [] /\ isServer (sm_perspective m) = false /\
    highestStreamOpenedByPeer m = 0 /\ numIncomingStreams m = 0) by done.
  clearbody m. destruct Hm as (Hs & Ho & Hp & Hh & Hi). set (id := 2 * Z.of_nat n) in *.
  assert (Hmod : id `mod` 2 = 0) by (unfold id; rewrite Z.mul_comm, Z.mod_mul; lia).
  assert (Hown : own m id = false) by (unfold own; by rewrite Hp, Hmod).
  pose proof (GetOrOpenStream_ok h m f [] id Hok ltac:(lia)) as Hget.
  destruct (openUpTo_client h (n - 1) (Z.to_nat id) id m f []) as (st & Hup & Hl); [done|done|lia|done|lia..|].
  replace (id - 2 * Z.of_nat (n - 1)) with 2 in Hup by lia.
  unfold StreamsMap.GetOrOpenStream, StreamsMap.mayOpen in *. cbn [fst] in *.
  rewrite Hs, lookup_empty, Hp, Hmod, Hh, (proj2 (Z.leb_gt id 0)) in * by lia.
  change (u32 (0 + 2)) with 2 in *. cbn [negb andb Z.eqb] in *. rewrite andb_false_r, Hup in *.
  destruct Hget as (_ & _ & [[Hd _]|(_ & _ & ->)]).
  - exists st. rewrite Hd. split; [done|]. rewrite Hl, Ho. cbn. lia.
  - cbn [fst] in Hl. lia.
Qed.

Lemma OpenStream_client h f n :
  0 < Parameters.GetMaxOutgoingStreams h -> 2 * Z.of_nat n < 2 ^ 32 - 400 ->
  let st := Nat.iter n (fun st => (StreamsMap.OpenStream h st).1) (newStreamsMapTree PerspectiveClient, f) in
  length (openStreams st.1) = n /\ nextStream st.1 = 1 + 2 * Z.of_nat n /\ numOutgoingStreams st.1 = 0 /\
  closeErr st.1 = None /\ isServer (sm_perspective st.1) = false /\ exists hist, map_ok st.1 hist.
Proof.
  intros Hmax. induction n as [|n IH]; intros Hn st.
  { unfold st. repeat (split; [done|]). exists []. apply map_ok_new. }
  destruct IH as (Hl & Hx & Ho & Hc & Hp & hist & Hok); [lia|].
  unfold st. rewrite Nat.iter_succ. set (st0 := Nat.iter n _ _) in *. clearbody st0. destruct st0 as [m f0].
  cbn [fst] in *. unfold StreamsMap.OpenStream. cbn [fst]. rewrite Hc.
  pose proof (openStreamImpl_ok h m f0 hist Hok ltac:(lia)) as Hop.
  assert (Hret : exists st, StreamsMap.openStreamImpl h (m, f0) = (st, Ret (nextStream m)) /\
    closeErr st.1 = None /\ nextStream st.1 = u32 (nextStream m + 2)).
  { unfold StreamsMap.openStreamImpl. rewrite (proj2 (Z.leb_gt _ _)) by lia. rewrite Hp.
    eexists. split; [done|]. unfold StreamsMap.putStream. cbn [fst].
    destruct (streams _ !! _); (split; [exact Hc|reflexivity]). }
  destruct Hret as (st1 & Hret & Hc1 & Hx1). rewrite Hret in *. cbn [fst].
  destruct Hop as ([O1 O2 O3] & _ & _ & Ho1 & _). rewrite Hp in Ho1.
  rewrite O2, O3, length_app, Hx1, (uN_small 32) by solve_range.
  split; [cbn; lia|]. split; [lia|]. split; [lia|]. split; [done|]. split; [done|]. eauto.
Qed.

(** On a client the limits have no effect.  The streams of the server are counted as outgoing
    ones, so one frame for the stream [2n] makes a client open [n] streams, however large [n] is.
    The client's own streams are counted as incoming ones: as long as the server has opened none,
    [OpenStream] never fails, although the server may allow only one stream. *)
Theorem client_limits_ineffective h f (n : nat) :
  0 < Parameters.GetMaxOutgoingStreams h -> 0 < 2 * Z.of_nat n < 2 ^ 32 - 400 ->
  (exists st,
    StreamsMap.GetOrOpenStream h (2 * Z.of_nat n) (newStreamsMapTree PerspectiveClient, f) =
      (st, Ret (Some (2 * Z.of_nat n))) /\ length (openStreams st.1) = n) /\
  length (openStreams (Nat.iter n (fun st => (StreamsMap.OpenStream h st).1)
    (newStreamsMapTree PerspectiveClient, f)).1) = n.
Proof.
  intros Hmax Hn. split.
  - by apply GetOrOpenStream_client.
  - apply OpenStream_client; [done|lia].
Qed.

Lemma client_limits_ineffective_witness :
  exists st, StreamsMap.GetOrOpenStream example_parameters 1000 (newStreamsMapTree PerspectiveClient, example_fc) =
    (st, Ret (Some 1000)) /\ length (openStreams st.1) = 500%nat.
Proof.
  exact (proj1 (client_limits_ineffective example_parameters example_fc 500 ltac:(by vm_compute) ltac:(lia))).
Defined.
