(* ===== verification/StreamFramer.v ===== *)
(** * The stream framer

    Models [stream_framer.go]: the queues of frames to send and the frames taken from the streams,
    for all streams, for one stream and for the streams of a path.  The framer shares the streams
    map and flow control with the session.  A path's share of a stream ([pathVolume]) is a [float64]
    that is only compared with 0 and decreased: its type and these two operations are arguments.
    The random choice of [fetchFlow] is an argument too. *)
From S2P Require Import Prelude MinMax ByteOrder PacketNumber Frames AckRanges AckFrame PathsFrame.
From S2P Require Import PublicHeader FrameSorter FlowControl ConnectionParameters Stream StreamsMap.
From stdpp Require Import pretty.

Open Scope Z_scope.
Open Scope go_scope.

Record streamFramer := mkStreamFramer {
  fr_streamsMap : streamsMap;
  fr_flowControl : flowControlManager;
  fr_retransmissionQueue : list StreamFrame;
  blockedFrameQueue : list BlockedFrame;
  addAddressFrameQueue : list AddAddressFrame;
  closePathFrameQueue : list ClosePathFrame;
  fr_pathsFrame : option PathsFrame
}.

Definition eta_framer (f : streamFramer) : streamFramer :=
  mkStreamFramer (fr_streamsMap f) (fr_flowControl f) (fr_retransmissionQueue f) (blockedFrameQueue f)
    (addAddressFrameQueue f) (closePathFrameQueue f) (fr_pathsFrame f).
#[export] Instance set_fr_streamsMap : Setter fr_streamsMap := ltac:(field_setter eta_framer).
#[export] Instance set_fr_flowControl : Setter fr_flowControl := ltac:(field_setter eta_framer).
#[export] Instance set_fr_retransmissionQueue : Setter fr_retransmissionQueue := ltac:(field_setter eta_framer).
#[export] Instance set_blockedFrameQueue : Setter blockedFrameQueue := ltac:(field_setter eta_framer).
#[export] Instance set_addAddressFrameQueue : Setter addAddressFrameQueue := ltac:(field_setter eta_framer).
#[export] Instance set_closePathFrameQueue : Setter closePathFrameQueue := ltac:(field_setter eta_framer).
#[export] Instance set_fr_pathsFrame : Setter fr_pathsFrame := ltac:(field_setter eta_framer).

Definition newStreamFramer (m : streamsMap) (fc : flowControlManager) : streamFramer :=
  mkStreamFramer m fc [] [] [] [] None.

(** [frame.DataLenPresent = true] *)
Definition withDataLen (f : StreamFrame) : StreamFrame :=
  mkStreamFrame (StreamID f) (FinBit f) true (Offset f) (Data f).

(** The first [n] bytes as a frame of their own, and the frame that is left. *)
Definition maybeSplitOffFrame (frame : StreamFrame) (n : Z) : option (StreamFrame * StreamFrame) :=
  if DataLen frame <=? n then None
  else
    Some (mkStreamFrame (StreamID frame) false (DataLenPresent frame) (Offset frame) (take (Z.to_nat n) (Data frame)),
          mkStreamFrame (StreamID frame) (FinBit frame) (DataLenPresent frame) (Offset frame +64 n)
            (drop (Z.to_nat n) (Data frame))).

(** [frame.MinLength], which can never fail *)
Definition headerLen (frame : StreamFrame) : Z :=
  match Frames.Stream.MinLength frame with Ret n => n | _ => 0 end.

(** What the functions passed to the iterations share: flow control, the BLOCKED frames, the result
    and its length. *)
Record popState := mkPopState {
  ps_fc : flowControlManager;
  ps_blocked : list BlockedFrame;
  ps_res : list StreamFrame;
  ps_currentLen : Z
}.

(** What [AddPathsFrameForTransmission] reads of a path, in the order of the iteration over the map. *)
Record pathInfo := mkPathInfo {
  pi_id : Z;
  pi_potentiallyFailed : bool;
  pi_smoothedRTT : Z;
  pi_localAddr : list Z
}.

Module Framer.
Definition AddFrameForRetransmission (frame : StreamFrame) (f : streamFramer) : streamFramer :=
  f <| fr_retransmissionQueue := fr_retransmissionQueue f ++ [frame] |>.

Definition PopBlockedFrame (f : streamFramer) : streamFramer * option BlockedFrame :=
  match blockedFrameQueue f with
  | [] => (f, None)
  | frame :: rest => (f <| blockedFrameQueue := rest |>, Some frame)
  end.

Definition AddAddressForTransmission (ipVersion : Z) (ip : list Z) (port : Z) (f : streamFramer) : streamFramer :=
  f <| addAddressFrameQueue := addAddressFrameQueue f ++ [mkAddAddressFrame ipVersion ip port] |>.

Definition PopAddAddressFrame (f : streamFramer) : streamFramer * option AddAddressFrame :=
  match addAddressFrameQueue f with
  | [] => (f, None)
  | frame :: rest => (f <| addAddressFrameQueue := rest |>, Some frame)
  end.

Definition PopPathsFrame (f : streamFramer) : streamFramer * option PathsFrame :=
  match fr_pathsFrame f with
  | None => (f, None)
  | Some frame => (f <| fr_pathsFrame := None |>, Some frame)
  end.

Definition AddClosePathFrameForTransmission (frame : ClosePathFrame) (f : streamFramer) : streamFramer :=
  f <| closePathFrameQueue := closePathFrameQueue f ++ [frame] |>.

Definition PopClosePathFrame (f : streamFramer) : streamFramer * option ClosePathFrame :=
  match closePathFrameQueue f with
  | [] => (f, None)
  | frame :: rest => (f <| closePathFrameQueue := rest |>, Some frame)
  end.

Definition HasFramesForRetransmission (f : streamFramer) : bool :=
  negb (length (fr_retransmissionQueue f) =? 0)%nat.

(** [strings.Split(s, ":")] *)
Fixpoint splitColon (cur s : list Z) : list (list Z) :=
  match s with
  | [] => [cur]
  | c :: s' => if c =? text.colon then cur :: splitColon [] s' else splitColon (cur ++ [c]) s'
  end.

Definition parseIPAndPort (addr : list Z) : outcome (list Z * list Z) :=
  match splitColon [] addr with
  | ip :: port :: _ => Ret (ip, port)
  | _ => Panic "index out of range"
  end.

Definition Hour : Z := 3600 * Second.

Definition AddPathsFrameForTransmission (pers : Perspective) (paths : list pathInfo) (f : streamFramer)
    : outcome streamFramer :=
  let rtts := map (fun p => if pi_potentiallyFailed p then Hour else pi_smoothedRTT p) paths in
  addrs ← (if isClient pers then mapM (fun p => parseIPAndPort (pi_localAddr p)) paths else Ret []);
  Ret (f <| fr_pathsFrame := Some (mkPathsFrame 255 (u8 (Z.of_nat (length paths)))
        (if isClient pers then u8 (Z.of_nat (length paths)) else 0)
        (map pi_id paths) rtts (map fst addrs) (map snd addrs)) |>).

(** The loops of [maybePopFramesForRetransmission] and of its variants for one stream and for a path,
    which pass over frames that are not [wanted]. *)
Fixpoint popRetransmissions (wanted : StreamFrame -> bool) (maxLen : Z) (queue : list StreamFrame)
    (fc : flowControlManager) (currentLen : Z)
    : list StreamFrame * list StreamFrame * flowControlManager * Z :=
  match queue with
  | [] => ([], [], fc, currentLen)
  | frame :: rest =>
      if negb (wanted frame) then
        let '(res, rest', fc, currentLen) := popRetransmissions wanted maxLen rest fc currentLen in
        (res, frame :: rest', fc, currentLen)
      else
        let frame := withDataLen frame in
        let frameHeaderLen := headerLen frame in
        if maxLen <=? currentLen +64 frameHeaderLen then ([], frame :: rest, fc, currentLen)
        else
          let currentLen := currentLen +64 frameHeaderLen in
          match maybeSplitOffFrame frame (maxLen -64 currentLen) with
          | Some (splitFrame, frame) =>
              ([splitFrame], frame :: rest,
               (Manager.AddBytesRetrans fc (StreamID splitFrame) (DataLen splitFrame)).1,
               currentLen +64 DataLen splitFrame)
          | None =>
              let fc := (Manager.AddBytesRetrans fc (StreamID frame) (DataLen frame)).1 in
              let '(res, rest', fc, currentLen) :=
                popRetransmissions wanted maxLen rest fc (currentLen +64 DataLen frame) in
              (frame :: res, rest', fc, currentLen)
          end
  end.

Definition popRetransmissionsOf (wanted : StreamFrame -> bool) (maxLen : Z) (f : streamFramer)
    : streamFramer * list StreamFrame * Z :=
  let '(res, queue, fc, currentLen) :=
    popRetransmissions wanted maxLen (fr_retransmissionQueue f) (fr_flowControl f) 0 in
  (f <| fr_retransmissionQueue := queue |> <| fr_flowControl := fc |>, res, currentLen).

Definition maybePopFramesForRetransmission (maxLen : Z) (f : streamFramer) :=
  popRetransmissionsOf (fun _ => true) maxLen f.

Definition maybePopFramesForRetransmissionOfOneStream (maxLen streamID : Z) (f : streamFramer) :=
  popRetransmissionsOf (fun frame => StreamID frame =? streamID) maxLen f.

Definition maybePopFramesForRetransmissionOfPath (maxLen : Z) (streamIDs : list Z) (f : streamFramer) :=
  popRetransmissionsOf (fun frame => existsb (Z.eqb (StreamID frame)) streamIDs) maxLen f.

(** *** New data *)
Section Parameters.
Context (cp : ConnectionParameters).

(** The BLOCKED frame after [frame] was taken. *)
Definition blockedBy (fc : flowControlManager) (sendWindowSize : Z) (frame : StreamFrame) : list BlockedFrame :=
  if Manager.RemainingConnectionWindowSize cp fc =? 0 then [mkBlockedFrame 0]
  else if negb (FinBit frame) && (sendWindowSize -64 DataLen frame =? 0)
  then [mkBlockedFrame (StreamID frame)] else [].

(** One frame of the stream [s]; [mayTake]: data may be taken, given its length and how much fits.
    The last results are the frame and whether to go on. *)
Definition popFrame (mayTake : Z -> Z -> bool) (maxBytes : Z) (s : stream) (x : popState)
    : stream * popState * option StreamFrame * bool :=
  if str_id s =? 1 then (s, x, None, true)
  else
    let frame := mkStreamFrame (str_id s) false true (writeOffset s) [] in
    let frameHeaderBytes := headerLen frame in
    if maxBytes <? ps_currentLen x +64 frameHeaderBytes then (s, x, None, false)
    else
      let maxLen := maxBytes -64 ps_currentLen x -64 frameHeaderBytes in
      let lenStreamData := Stream.lenOfDataForWriting s in
      let sendWindowSize :=
        if negb (lenStreamData =? 0)
        then match Manager.SendWindowSize cp (ps_fc x) (str_id s) with Ret w => w | _ => 0 end
        else 0 in
      let maxLen := if negb (lenStreamData =? 0) then utils.MinByteCount maxLen sendWindowSize else maxLen in
      if maxLen =? 0 then (s, x, None, true)
      else
        let '(data, s) :=
          if negb (lenStreamData =? 0) && mayTake lenStreamData maxLen
          then Stream.getDataForWriting maxLen s else (None, s) in
        let shouldSendFin := Stream.shouldSendFin s in
        if bool_decide (data = None) && negb shouldSendFin then (s, x, None, true)
        else
          let s := if shouldSendFin then Stream.sentFin s else s in
          let frame := mkStreamFrame (str_id s) shouldSendFin true (Offset frame) (default [] data) in
          let fc := (Manager.AddBytesSent (ps_fc x) (str_id s) (DataLen frame)).1 in
          let currentLen := ps_currentLen x +64 (frameHeaderBytes +64 DataLen frame) in
          (s, mkPopState fc (ps_blocked x ++ blockedBy fc sendWindowSize frame) (ps_res x ++ [frame]) currentLen,
           Some frame, negb (currentLen =? maxBytes)).

Definition popLambda (maxBytes : Z) : @StreamsMap.streamLambda popState :=
  fun s x =>
    let '(s, x, _, cont) := popFrame (fun _ _ => true) maxBytes s x in (s, x, (cont, None)).

(** The state of an iteration and the framer *)
Definition startPop (f : streamFramer) : popState :=
  mkPopState (fr_flowControl f) (blockedFrameQueue f) [] 0.
Definition endPop (m : streamsMap) (x : popState) (f : streamFramer) : streamFramer :=
  f <| fr_streamsMap := m |> <| fr_flowControl := ps_fc x |> <| blockedFrameQueue := ps_blocked x |>.

Definition maybePopNormalFrames (maxBytes : Z) (f : streamFramer) : streamFramer * list StreamFrame :=
  let '(m, x, _) := StreamsMap.RoundRobinIterate (popLambda maxBytes) (fr_streamsMap f) (startPop f) in
  (endPop m x f, ps_res x).

Definition maybePopNormalFramesOfOneStream (maxBytes streamID : Z) (f : streamFramer)
    : streamFramer * list StreamFrame :=
  let '(m, x, _) := StreamsMap.iterateFunc streamID (popLambda maxBytes) (fr_streamsMap f) (startPop f) in
  (endPop m x f, ps_res x).

Definition PopStreamFrames (maxLen : Z) (f : streamFramer) : streamFramer * list StreamFrame :=
  let '(f, fs, currentLen) := maybePopFramesForRetransmission maxLen f in
  let '(f, fs') := maybePopNormalFrames (maxLen -64 currentLen) f in
  (f, fs ++ fs').

Definition PopStreamFramesOfOneStream (maxLen streamID : Z) (f : streamFramer)
    : streamFramer * list StreamFrame :=
  let '(f, fs, currentLen) := maybePopFramesForRetransmissionOfOneStream maxLen streamID f in
  let '(f, fs') := maybePopNormalFramesOfOneStream (maxLen -64 currentLen) streamID f in
  (f, fs ++ fs').

(** *** The streams of a path *)
Section Path.
Context {F : Type} (positive : F -> bool) (minus : F -> Z -> F).

(** The function passed by [maybePopNormalFramesOfPath]; [volume] is the share of each stream that
    is left for the path. *)
Definition popLambdaOfPath (pathScheduler : string) (maxBytes : Z)
    : @StreamsMap.streamLambda (popState * (Z -> F)) :=
  fun s '(x, volume) =>
    let mayTake lenStreamData maxLen :=
      (String.eqb pathScheduler "MultiPath" && (positive (volume (str_id s)) || (lenStreamData <? maxLen)))
      || String.eqb pathScheduler "SinglePath" in
    let '(s, x, frame, cont) := popFrame mayTake maxBytes s x in
    (s, (x, match frame with
            | None => volume
            | Some frame => fun id => if id =? str_id s then minus (volume id) (DataLen frame) else volume id
            end), (cont, None)).

Definition maybePopNormalFramesOfPath (pathScheduler : string) (maxBytes : Z) (streamIDs : list Z)
    (cid : Z) (volume : Z -> F) (f : streamFramer)
    : streamFramer * (Z -> F) * outcome (list StreamFrame) :=
  let '(m, (x, volume), r) :=
    StreamsMap.PriorityIteratePopOfPath streamIDs cid (popLambdaOfPath pathScheduler maxBytes)
      (fr_streamsMap f) (startPop f, volume) in
  (endPop m x f, volume, match r with Panic why => Panic why | _ => Ret (ps_res x) end).

Definition PopStreamFramesOfPath (pathScheduler : string) (maxLen : Z) (streamIDs : list Z) (cid : Z)
    (volume : Z -> F) (f : streamFramer) : streamFramer * (Z -> F) * outcome (list StreamFrame) :=
  let '(f, fs, currentLen) := maybePopFramesForRetransmissionOfPath maxLen streamIDs f in
  let '(f, volume, r) :=
    maybePopNormalFramesOfPath pathScheduler (maxLen -64 currentLen) streamIDs cid volume f in
  (f, volume, match r with Ret fs' => Ret (fs ++ fs') | Err e => Err e | Panic why => Panic why end).
End Path.
End Parameters.

(** *** The crypto stream *)
Section Crypto.
Context (h : connectionParametersManager).

(** [GetOrOpenStream(1)], whose error is ignored *)
Definition cryptoStream (f : streamFramer) : streamFramer * option stream :=
  let '((m, fc), r) := StreamsMap.GetOrOpenStream h 1 (fr_streamsMap f, fr_flowControl f) in
  (f <| fr_streamsMap := m |> <| fr_flowControl := fc |>,
   match r with Ret (Some id) => streams m !! id | _ => None end).

Definition HasCryptoStreamFrame (f : streamFramer) : streamFramer * outcome bool :=
  match cryptoStream f with
  | (f, Some cs) => (f, Ret (0 <? Stream.lenOfDataForWriting cs))
  | (f, None) => (f, Panic "invalid memory address or nil pointer dereference")
  end.

Definition PopCryptoStreamFrame (maxLen : Z) (f : streamFramer)
    : streamFramer * outcome (option StreamFrame) :=
  match HasCryptoStreamFrame f with
  | (f, Ret false) => (f, Ret None)
  | (f, Ret true) =>
      match cryptoStream f with
      | (f, Some cs) =>
          let frame := mkStreamFrame 1 false false (writeOffset cs) [] in
          let '(data, cs) := Stream.getDataForWriting (maxLen -64 headerLen frame) cs in
          (f <| fr_streamsMap := fr_streamsMap f <| streams := <[1 := cs]> (streams (fr_streamsMap f)) |> |>,
           Ret (Some (mkStreamFrame 1 false false (Offset frame) (default [] data))))
      | (f, None) => (f, Panic "invalid memory address or nil pointer dereference")
      end
  | (f, Err e) => (f, Err e)
  | (f, Panic why) => (f, Panic why)
  end.
End Crypto.
End Framer.

(** ** Lengths *)
Lemma headerLen_eq f :
  headerLen f = 1 + Frames.Stream.calculateStreamIDLength f + Frames.Stream.getOffsetLength f
                + (if DataLenPresent f then 2 else 0) /\ 2 <= headerLen f <= 15.
Proof.
  unfold headerLen, Frames.Stream.MinLength.
  assert (1 <= Frames.Stream.calculateStreamIDLength f <= 4)
    by (unfold Frames.Stream.calculateStreamIDLength; repeat case_match; lia).
  assert (0 <= Frames.Stream.getOffsetLength f <= 8)
    by (unfold Frames.Stream.getOffsetLength; repeat case_match; lia).
  case_match; usmall; lia.
Qed.

Lemma headerLen_range f : 2 <= headerLen f <= 15.
Proof. apply headerLen_eq. Qed.

(** The header depends on the ID, the offset and the flag only. *)
Lemma headerLen_ext f g :
  StreamID f = StreamID g -> Offset f = Offset g -> DataLenPresent f = DataLenPresent g -> headerLen f = headerLen g.
Proof.
  intros H1 H2 H3. unfold headerLen, Frames.Stream.MinLength, Frames.Stream.calculateStreamIDLength, Frames.Stream.getOffsetLength.
  by rewrite H1, H2, H3.
Qed.

(** What frames take in a packet. *)
Definition frameLen (f : StreamFrame) : Z := headerLen f + DataLen f.
Definition totalLen (fs : list StreamFrame) : Z := foldr (fun f n => frameLen f + n) 0 fs.

Lemma totalLen_cons f fs : totalLen (f :: fs) = headerLen f + DataLen f + totalLen fs.
Proof. done. Qed.

Lemma totalLen_app fs fs' : totalLen (fs ++ fs') = totalLen fs + totalLen fs'.
Proof. induction fs as [|f fs IH]; [done|]. cbn [app]. rewrite !totalLen_cons, IH. lia. Qed.

Lemma totalLen_nonneg fs : 0 <= totalLen fs.
Proof.
  induction fs as [|f fs IH]; [done|]. rewrite totalLen_cons.
  pose proof (headerLen_range f). pose proof (DataLen_nonneg f). lia.
Qed.

(** ** The retransmission queue *)

(** The bytes of a frame with their stream and offset, and the FIN. *)
Definition flat (f : StreamFrame) : list (Z * Z * option Z) :=
  imap (fun i b => (StreamID f, Offset f + Z.of_nat i, Some b)) (Data f) ++
  (if FinBit f then [(StreamID f, Offset f + DataLen f, None)] else []).
Definition flatAll (fs : list StreamFrame) : list (Z * Z * option Z) := flat_map flat fs.

Lemma flat_split f n a b :
  maybeSplitOffFrame f n = Some (a, b) -> 0 <= n -> 0 <= Offset f -> Offset f + DataLen f < 2 ^ 64 ->
  flat f = flat a ++ flat b /\ DataLen a = n /\ StreamID a = StreamID f /\ StreamID b = StreamID f /\
  Offset a = Offset f /\ Offset b = Offset f + n /\ DataLen b = DataLen f - n /\ n < DataLen f /\
  DataLenPresent a = DataLenPresent f /\ FinBit b = FinBit f /\ FinBit a = false /\
  Data a = take (Z.to_nat n) (Data f) /\ Data b = drop (Z.to_nat n) (Data f).
Proof.
  unfold maybeSplitOffFrame. intros Hs Hn Ho He. destruct (Z.leb_spec (DataLen f) n) as [|Hlt]; [done|].
  injection Hs as <- <-. unfold DataLen in *.
  assert (Hu : Offset f +64 n = Offset f + n) by (usmall; lia).
  unfold flat, DataLen. cbn. rewrite Hu, !length_take, !length_drop, app_nil_r.
  split; [|repeat split; lia].
  rewrite <- (take_drop (Z.to_nat n) (Data f)) at 1. rewrite imap_app, <- app_assoc. f_equal. f_equal.
  - apply imap_ext. intros i x _. rewrite length_take. f_equal. f_equal. lia.
  - case_match; [|done]. do 3 f_equal. lia.
Qed.

Lemma flat_withDataLen f : flat (withDataLen f) = flat f.
Proof. done. Qed.

(** *** Flow control

    What handing out the new frames [frames] does to the controller of a stream or of the connection: it counts their
    data; if it counts any, no more was sent afterwards than its window allows. *)
Definition sentAll (n : Z) (frames : list StreamFrame) : Z := foldl (fun n f => n +64 DataLen f) n frames.

Record controller_charged (cp : ConnectionParameters) (frames : list StreamFrame) (c c' : flowController) : Prop := {
  cc_id : streamID c' = streamID c;
  cc_contributes : contributesToConnection c' = contributesToConnection c;
  cc_window : sendWindow c' = sendWindow c;
  cc_sent : bytesSent c' = sentAll (bytesSent c) frames;
  cc_fits : 0 <= bytesSent c < 2 ^ 64 -> Controller.getSendWindow cp c < 2 ^ 64 ->
    bytesSent c' = bytesSent c \/ bytesSent c' <= Controller.getSendWindow cp c'
}.

Definition ofStream (id : Z) (frames : list StreamFrame) : list StreamFrame := filter (fun f => StreamID f = id) frames.
Definition contributes (fc : flowControlManager) (id : Z) : bool :=
  from_option contributesToConnection false (streamFlowController fc !! id).

(** The frames count for their streams, and for the connection if the streams contribute to it. *)
Record charged (cp : ConnectionParameters) (fc : flowControlManager) (frames : list StreamFrame)
    (fc' : flowControlManager) : Prop := {
  ch_streams : forall id, option_Forall2 (controller_charged cp (ofStream id frames))
    (streamFlowController fc !! id) (streamFlowController fc' !! id);
  ch_conn : controller_charged cp (filter (fun f => contributes fc (StreamID f) = true) frames)
    (connFlowController fc) (connFlowController fc')
}.

Lemma controller_charged_refl cp c : controller_charged cp [] c c.
Proof. split; [done..|]. by left. Qed.

Lemma sentAll_range n frames : 0 <= n < 2 ^ 64 -> 0 <= sentAll n frames < 2 ^ 64.
Proof.
  revert n. induction frames as [|f frames IH]; intros n Hn; [done|]. cbn [sentAll foldl]. apply IH.
  by apply Z.mod_pos_bound.
Qed.

Lemma controller_charged_trans cp l1 l2 c1 c2 c3 :
  controller_charged cp l1 c1 c2 -> controller_charged cp l2 c2 c3 -> controller_charged cp (l1 ++ l2) c1 c3.
Proof.
  intros [A1 A2 A3 A4 A5] [B1 B2 B3 B4 B5]. split; [congruence..| |].
  - unfold sentAll. by rewrite foldl_app, B4, A4.
  - assert (Ew : forall c d, streamID d = streamID c -> sendWindow d = sendWindow c ->
      Controller.getSendWindow cp d = Controller.getSendWindow cp c).
    { intros c d E1 E2. unfold Controller.getSendWindow. by rewrite E1, E2. }
    intros Hn Hw. rewrite (Ew c2 c3) by done. specialize (A5 Hn Hw). rewrite (Ew c1 c2) in * by done.
    rewrite (Ew c2 c3), (Ew c1 c2) in B5 by done. destruct B5 as [->|]; [rewrite A4; by apply sentAll_range|done|done|].
    by right.
Qed.

Lemma charged_refl cp fc : charged cp fc [] fc.
Proof.
  split; [|apply controller_charged_refl]. intros id. destruct (streamFlowController fc !! id); constructor.
  apply controller_charged_refl.
Qed.

Lemma charged_contributes cp fc frames fc' id : charged cp fc frames fc' -> contributes fc' id = contributes fc id.
Proof.
  intros [Hs _]. specialize (Hs id). unfold contributes. inversion Hs as [? ? H E1 E2|E1 E2]; [|done].
  cbn. apply (cc_contributes _ _ _ _ H).
Qed.

Lemma charged_trans cp l1 l2 fc1 fc2 fc3 :
  charged cp fc1 l1 fc2 -> charged cp fc2 l2 fc3 -> charged cp fc1 (l1 ++ l2) fc3.
Proof.
  intros H1 H2. pose proof (fun id => charged_contributes cp fc1 l1 fc2 id H1) as Hc.
  destruct H1 as [A1 A2], H2 as [B1 B2]. split.
  - intros id. specialize (A1 id). specialize (B1 id). unfold ofStream in *. rewrite filter_app.
    inversion A1 as [x y Hxy E1 E2|E1 E2]; rewrite <- E2 in B1; inversion B1; subst; constructor.
    by eapply controller_charged_trans.
  - rewrite filter_app. eapply controller_charged_trans; [exact A2|].
    assert (Ef : filter (fun f => contributes fc1 (StreamID f) = true) l2 = filter (fun f => contributes fc2 (StreamID f) = true) l2).
    { apply list_filter_iff. intros f. by rewrite Hc. }
    by rewrite Ef.
Qed.

Lemma charged_retrans cp fc id n : charged cp fc [] (Manager.AddBytesRetrans fc id n).1.
Proof.
  unfold Manager.AddBytesRetrans, Manager.onBoth. destruct (streamFlowController fc !! id) as [c|] eqn:E; [|apply charged_refl].
  assert (H : forall c, controller_charged cp [] c (Controller.AddBytesRetrans c n)) by (intros x; split; [done..|by left]).
  split; cbn [fst streamFlowController connFlowController].
  - intros i. destruct (decide (id = i)) as [<-|Hne].
    + rewrite E, lookup_insert_eq. by constructor.
    + rewrite lookup_insert_ne by done. destruct (streamFlowController fc !! i); constructor. apply controller_charged_refl.
  - destruct (Controller.ContributesToConnection c); [apply H|apply controller_charged_refl].
Qed.

(** Frames a queue may hold: their bytes are below the maximal offset. *)
Definition queueable (f : StreamFrame) : Prop := 0 <= Offset f /\ Offset f + DataLen f < 2 ^ 64.

Section Retransmissions.
Context (wanted : StreamFrame -> bool) (P : StreamFrame -> Prop).
Hypothesis wanted_id : forall f g, StreamID f = StreamID g -> wanted f = wanted g.
Hypothesis P_queueable : forall f, P f -> queueable f.
Hypothesis P_dataLen : forall f, P f -> P (withDataLen f).
Hypothesis P_split : forall f n a b, P f -> 0 < n -> maybeSplitOffFrame f n = Some (a, b) -> P a /\ P b.

Record popped (cp : ConnectionParameters) (maxLen : Z) (queue : list StreamFrame)
    (fc : flowControlManager) (currentLen : Z) (res queue' : list StreamFrame)
    (fc' : flowControlManager) (currentLen' : Z) : Prop := {
  pp_len : currentLen' = currentLen + totalLen res;
  pp_max : currentLen' <= maxLen;
  pp_res : Forall P res;
  pp_queue : Forall P queue';
  pp_flat : flatAll (filter (fun f => wanted f = true) queue) =
            flatAll res ++ flatAll (filter (fun f => wanted f = true) queue');
  pp_others : filter (fun f => wanted f = false) queue' = filter (fun f => wanted f = false) queue;
  pp_flags : Forall (fun f => wanted f = true /\ DataLenPresent f = true) res;
  pp_fc : charged cp fc [] fc'
}.

(** The queue after its first frame changed. *)
Lemma flatAll_wanted f f' rest :
  wanted f = true -> StreamID f' = StreamID f ->
  flatAll (filter (fun f => wanted f = true) (f' :: rest)) = flat f' ++ flatAll (filter (fun f => wanted f = true) rest) /\
  filter (fun f => wanted f = false) (f' :: rest) = filter (fun f => wanted f = false) (f :: rest).
Proof.
  intros Hw Hid. rewrite !filter_cons. rewrite (wanted_id f' f Hid), Hw. by rewrite decide_True.
Qed.

Lemma popRetransmissions_ok cp maxLen : forall queue fc currentLen res queue' fc' currentLen',
  Framer.popRetransmissions wanted maxLen queue fc currentLen = (res, queue', fc', currentLen') ->
  Forall P queue -> 0 <= currentLen <= maxLen -> maxLen < 2 ^ 63 ->
  popped cp maxLen queue fc currentLen res queue' fc' currentLen'.
Proof.
  induction queue as [|frame rest IH]; intros fc cur res queue' fc' cur' Hpop Hq Hcur Hmax; cbn [Framer.popRetransmissions] in Hpop.
  { injection Hpop as <- <- <- <-. split; try done; try apply charged_refl; try constructor; cbn; lia. }
  apply Forall_cons in Hq as [Hp Hrest]. destruct (wanted frame) eqn:Hw; cbn [negb] in Hpop.
  2: { destruct (Framer.popRetransmissions _ _ _ _ _) as [[[res1 rest1] fc1] cur1] eqn:Erec.
    injection Hpop as <- <- <- <-. destruct (IH _ _ _ _ _ _ Erec Hrest Hcur Hmax) as [H1 H2 H3 H4 H5 H6 H7 H8].
    split; try done; [by constructor|rewrite !filter_cons, Hw; cbn [decide]..].
    - by rewrite !decide_False.
    - rewrite !decide_True by done. by f_equal. }
  pose proof (P_dataLen _ Hp) as Hp'. pose proof (headerLen_range (withDataLen frame)) as Hh.
  replace (cur +64 headerLen (withDataLen frame)) with (cur + headerLen (withDataLen frame)) in Hpop by (usmall; lia).
  destruct (Z.leb_spec maxLen (cur + headerLen (withDataLen frame))).
  { injection Hpop as <- <- <- <-. destruct (flatAll_wanted frame (withDataLen frame) rest Hw eq_refl) as [E1 E2].
    destruct (flatAll_wanted frame frame rest Hw eq_refl) as [E3 _].
    split; try done; try apply charged_refl; try constructor; cbn [app flatAll flat_map]; try lia; try done.
    - cbn. lia.
    - fold (flatAll (filter (fun f => wanted f = true) rest)). rewrite E1, E3. done. }
  replace (maxLen -64 (cur + headerLen (withDataLen frame))) with (maxLen - (cur + headerLen (withDataLen frame)))
    in Hpop by (usmall; lia).
  destruct (flatAll_wanted frame frame rest Hw eq_refl) as [E3 _].
  destruct (P_queueable _ Hp') as [Ho He].
  destruct (maybeSplitOffFrame _ _) as [[sp left]|] eqn:Esp.
  - assert (Hn : 0 < maxLen - (cur + headerLen (withDataLen frame))) by lia.
    destruct (P_split _ _ _ _ Hp' Hn Esp) as [Pa Pb].
    destruct (flat_split _ _ _ _ Esp (Z.lt_le_incl _ _ Hn) Ho He) as (Hf & Hl & Hi1 & Hi2 & Hoa & _ & _ & _ & Hd & _).
    destruct (flatAll_wanted frame left rest Hw Hi2) as [E1 E2]. rewrite flat_withDataLen in Hf.
    pose proof (headerLen_ext sp (withDataLen frame) Hi1 Hoa Hd) as Hhl.
    injection Hpop as <- <- <- <-. split; rewrite ?E1, ?E2, ?E3, ?Hl; try done.
    + usmall. rewrite totalLen_cons, Hl, Hhl. cbn. lia.
    + usmall; lia.
    + by repeat constructor.
    + by constructor.
    + cbn. by rewrite app_nil_r, app_assoc, <- Hf.
    + repeat constructor; [|done]. rewrite <- Hw. by apply wanted_id.
    + apply charged_retrans.
  - unfold maybeSplitOffFrame in Esp. destruct (Z.leb_spec (DataLen (withDataLen frame)) 
      (maxLen - (cur + headerLen (withDataLen frame)))) as [Hle|]; [|done].
    pose proof (DataLen_nonneg (withDataLen frame)).
    replace (cur + headerLen (withDataLen frame) +64 DataLen (withDataLen frame))
      with (cur + headerLen (withDataLen frame) + DataLen (withDataLen frame)) in Hpop by (usmall; lia).
    destruct (Framer.popRetransmissions _ _ _ _ _) as [[[res1 rest1] fc1] cur1] eqn:Erec.
    injection Hpop as <- <- <- <-. destruct (IH _ _ _ _ _ _ Erec Hrest ltac:(lia) Hmax) as [H1 H2 H3 H4 H5 H6 H7 H8].
    split; try done.
    + rewrite totalLen_cons. lia.
    + by constructor.
    + rewrite E3, H5. cbn. by rewrite <- app_assoc.
    + rewrite filter_cons, Hw. by rewrite decide_False.
    + constructor; [|done]. split; [|done]. rewrite <- Hw. by apply wanted_id.
    + by refine (charged_trans cp [] [] _ _ _ (charged_retrans _ _ _ _) _).
Qed.
End Retransmissions.

(** ** Taking data from a stream

    [w]: all bytes written to the stream. *)
Definition content (w : list Z) (i : Z) : Z := default 0 (w !! Z.to_nat i).

Record send_ok (s : stream) (w : list Z) : Prop := {
  sd_offset : 0 <= writeOffset s <= Z.of_nat (length w);
  sd_pending : default [] (dataForWriting s) = drop (Z.to_nat (writeOffset s)) w;
  sd_nonempty : dataForWriting s <> Some [];
  sd_fin : finSent s = true -> finishedWriting s = true /\ dataForWriting s = None
}.

(** A frame with data of [w]. *)
Definition sent_frame (w : list Z) (f : StreamFrame) : Prop :=
  valid_frame (content w) (Z.of_nat (length w)) f /\ (FinBit f = true \/ Data f <> []).

Lemma slice_content w k n :
  0 <= k -> slice_of (content w) k (take n (drop (Z.to_nat k) w)).
Proof.
  intros Hk. apply slice_take. intros i b Hb. rewrite lookup_drop in Hb. unfold content.
  replace (Z.to_nat (k + Z.of_nat i)) with (Z.to_nat k + i)%nat by lia. by rewrite Hb.
Qed.

Lemma getData_ok s w n :
  send_ok s w -> Z.of_nat (length w) < 2 ^ 63 - 1 -> Stream.lenOfDataForWriting s <> 0 -> 0 < n ->
  exists d s', Stream.getDataForWriting n s = (Some d, s') /\ d <> [] /\ Z.of_nat (length d) <= n /\
    d = take (length d) (drop (Z.to_nat (writeOffset s)) w) /\
    writeOffset s' = writeOffset s + Z.of_nat (length d) /\ send_ok s' w /\
    str_id s' = str_id s /\ finishedWriting s' = finishedWriting s /\ finSent s' = finSent s.
Proof.
  intros [Ho Hp Hne Hf] Hw Hl Hn. unfold Stream.lenOfDataForWriting, Stream.getDataForWriting in *.
  destruct (str_err s); [done|]. destruct (dataForWriting s) as [data|] eqn:Ed; [|done]. cbn in Hl, Hp.
  assert (Hlen : Z.of_nat (length data) = Z.of_nat (length w) - writeOffset s) by (rewrite Hp, length_drop; lia).
  destruct (Z.ltb_spec n (Z.of_nat (length data))) as [Hlt|Hge]; eexists _, _; (split; [reflexivity|]).
  - rewrite length_take, Nat.min_l by lia.
    split; [intros Hnil; apply (f_equal length) in Hnil; rewrite length_take in Hnil; cbn in Hnil; lia|].
    split; [lia|]. split; [by rewrite Hp|]. cbn.
    assert (Hu : writeOffset s +64 Z.of_nat (Z.to_nat n) = writeOffset s + Z.of_nat (Z.to_nat n)) by (usmall; lia).
    split; [done|]. split; [|done]. split; cbn; rewrite ?Hu.
    + lia.
    + rewrite Hp, drop_drop. f_equal. lia.
    + intros [= Hnil]. apply (f_equal length) in Hnil. rewrite length_drop in Hnil. cbn in Hnil. lia.
    + intros H. by destruct (Hf H).
  - split; [by intros ->|]. split; [lia|].
    split; [rewrite Hp at 1; symmetry; apply take_ge; rewrite <- Hp; lia|]. cbn.
    assert (Hu : writeOffset s +64 Z.of_nat (length data) = Z.of_nat (length w)) by (usmall; lia).
    rewrite Hu. split; [lia|]. split; [|done]. split; cbn; rewrite ?Hu; try done; try lia.
    + by rewrite drop_ge by lia.
    + intros H. by destruct (Hf H).
Qed.

Lemma controller_charged_sent cp c f :
  DataLen f <= Controller.SendWindowSize cp c -> controller_charged cp [f] c (Controller.AddBytesSent c (DataLen f)).
Proof.
  intros Hn. pose proof (DataLen_nonneg f) as Hf. split; [done..|]. intros H0 Hw. unfold Controller.SendWindowSize in Hn.
  change (Controller.getSendWindow cp (Controller.AddBytesSent c (DataLen f))) with (Controller.getSendWindow cp c).
  cbn [Controller.AddBytesSent bytesSent]. destruct (Z.ltb_spec (Controller.getSendWindow cp c) (bytesSent c)).
  - left. replace (DataLen f) with 0 by lia. usmall. lia.
  - right. usmall_in Hn. usmall. lia.
Qed.

Lemma charged_sent cp fc f :
  (forall w, Manager.SendWindowSize cp fc (StreamID f) = Ret w -> DataLen f <= w) ->
  charged cp fc [f] (Manager.AddBytesSent fc (StreamID f) (DataLen f)).1.
Proof.
  intros Hn. unfold Manager.AddBytesSent, Manager.onBoth, Manager.SendWindowSize in *.
  assert (Hother : forall i c, i <> StreamID f -> controller_charged cp (ofStream i [f]) c c).
  { intros i c Hi. unfold ofStream. rewrite filter_cons_False by (intros Hx; by apply Hi). apply controller_charged_refl. }
  destruct (streamFlowController fc !! StreamID f) as [c|] eqn:E; cbn [fst].
  - specialize (Hn _ eq_refl). split; cbn [streamFlowController connFlowController].
    + intros i. destruct (decide (i = StreamID f)) as [->|Hne].
      * rewrite E, lookup_insert_eq. constructor. unfold ofStream. rewrite filter_cons_True by done.
        apply controller_charged_sent. destruct (Controller.ContributesToConnection c); lia.
      * rewrite lookup_insert_ne by done. destruct (streamFlowController fc !! i); constructor. by apply Hother.
    + unfold contributes. unfold Controller.ContributesToConnection in *. destruct (contributesToConnection c) eqn:Ec.
      * rewrite filter_cons_True by (rewrite E; exact Ec). apply controller_charged_sent. lia.
      * rewrite filter_cons_False by (rewrite E; cbn; congruence). apply controller_charged_refl.
  - split.
    + intros i. destruct (decide (i = StreamID f)) as [->|Hne]; [rewrite E; constructor|].
      destruct (streamFlowController fc !! i); constructor. by apply Hother.
    + unfold contributes. rewrite filter_cons_False by (by rewrite E). apply controller_charged_refl.
Qed.

Lemma SendWindowSize_nonneg cp fc id w : Manager.SendWindowSize cp fc id = Ret w -> 0 <= w < 2 ^ 64.
Proof.
  unfold Manager.SendWindowSize. destruct (streamFlowController fc !! id) as [c|]; [|done].
  assert (H : forall c, 0 <= Controller.SendWindowSize cp c < 2 ^ 64).
  { intros c'. unfold Controller.SendWindowSize. case_match; [lia|]. apply Z.mod_pos_bound. lia. }
  intros [= <-]. pose proof (H c). pose proof (H (connFlowController fc)). case_match; lia.
Qed.

(** What [popFrame] did to the stream [s] with the bytes [w]. *)
Record frame_taken (cp : ConnectionParameters) (maxBytes : Z) (w : list Z) (s : stream) (x : popState)
    (s' : stream) (x' : popState) (f : StreamFrame) : Prop := {
  ft_res : ps_res x' = ps_res x ++ [f];
  ft_id : StreamID f = str_id s;
  ft_sent : sent_frame w f;
  ft_flag : DataLenPresent f = true;
  ft_offset : Offset f = writeOffset s;
  ft_next : writeOffset s' = Offset f + DataLen f;
  ft_len : ps_currentLen x' = ps_currentLen x + frameLen f;
  ft_max : ps_currentLen x' <= maxBytes;
  ft_fin : finSent s' = finSent s || FinBit f;
  ft_fc : charged cp (ps_fc x) [f] (ps_fc x');
  ft_send : send_ok s' w;
  ft_str : str_id s' = str_id s;
  ft_writing : finishedWriting s' = finishedWriting s
}.

(** The data, at most [maxLen] bytes of it, and what the stream is then. *)
Lemma take_data s w mayTake maxLen :
  send_ok s w -> Z.of_nat (length w) < 2 ^ 63 - 1 -> 0 < maxLen ->
  let lenStreamData := Stream.lenOfDataForWriting s in
  let '(data, s1) :=
    if negb (lenStreamData =? 0) && mayTake lenStreamData maxLen
    then Stream.getDataForWriting maxLen s else (None, s) in
  let d := default [] data in
  (data = None -> s1 = s) /\ (data <> None -> d <> [] /\ lenStreamData <> 0) /\
  Z.of_nat (length d) <= maxLen /\ slice_of (content w) (writeOffset s) d /\
  writeOffset s1 = writeOffset s + Z.of_nat (length d) /\ send_ok s1 w /\
  str_id s1 = str_id s /\ finishedWriting s1 = finishedWriting s /\ finSent s1 = finSent s.
Proof.
  intros Hs Hw Hm len. destruct (Z.eqb_spec len 0) as [E|E]; cbn [negb andb]; [|destruct (mayTake len maxLen)].
  - cbn. repeat (split; [done||lia|]). done.
  - destruct (getData_ok s w maxLen Hs Hw E Hm) as (d & s' & -> & Hne & Hl & Hd & Ho & Hs' & H1 & H2 & H3). cbn.
    split; [done|]. split; [done|]. split; [done|]. split; [|done].
    rewrite Hd. apply slice_content. by destruct (sd_offset _ _ Hs).
  - cbn. repeat (split; [done||lia|]). done.
Qed.

(** The FIN goes out with the last byte. *)
Lemma sendFin_ok s w :
  send_ok s w ->
  let s' := if Stream.shouldSendFin s then Stream.sentFin s else s in
  send_ok s' w /\ str_id s' = str_id s /\ writeOffset s' = writeOffset s /\
  finishedWriting s' = finishedWriting s /\
  finSent s' = finSent s || Stream.shouldSendFin s /\
  (Stream.shouldSendFin s = true -> writeOffset s = Z.of_nat (length w)).
Proof.
  intros Hs s'. unfold s'. clear s'. destruct (Stream.shouldSendFin s) eqn:E; [|by rewrite orb_false_r].
  unfold Stream.shouldSendFin in E. rewrite !andb_true_iff in E. destruct E as [[[Hf _] _] Hn%bool_decide_eq_true].
  destruct Hs as [Ho Hp Hne Hfin]. split; [by split|]. do 3 (split; [done|]). split; [by rewrite orb_true_r|]. intros _.
  rewrite Hn in Hp. apply (f_equal length) in Hp. rewrite length_drop in Hp. cbn in Hp. lia.
Qed.

Lemma popFrame_ok cp mayTake maxBytes s x w :
  send_ok s w -> Z.of_nat (length w) < 2 ^ 63 - 1 -> 0 <= ps_currentLen x <= maxBytes -> maxBytes < 2 ^ 63 ->
  let '(s', x', fr, cont) := Framer.popFrame cp mayTake maxBytes s x in
  match fr with
  | None => s' = s /\ x' = x
  | Some f => frame_taken cp maxBytes w s x s' x' f
  end.
Proof.
  intros Hs Hw Hcur Hmax. unfold Framer.popFrame. destruct (str_id s =? 1); [done|].
  set (frame0 := mkStreamFrame (str_id s) false true (writeOffset s) []).
  pose proof (headerLen_range frame0) as Hh.
  replace (ps_currentLen x +64 headerLen frame0) with (ps_currentLen x + headerLen frame0) by (usmall; lia).
  destruct (Z.ltb_spec maxBytes (ps_currentLen x + headerLen frame0)); [done|].
  replace (maxBytes -64 ps_currentLen x -64 headerLen frame0) with (maxBytes - ps_currentLen x - headerLen frame0)
    by (usmall; lia).
  set (len := Stream.lenOfDataForWriting s).
  set (win := if negb (len =? 0) then match Manager.SendWindowSize cp (ps_fc x) (str_id s) with Ret w => w | _ => 0 end else 0).
  set (maxLen := if negb (len =? 0) then utils.MinByteCount _ win else _).
  assert (Hwin : 0 <= win).
  { unfold win. case_match; [|lia]. destruct (Manager.SendWindowSize cp (ps_fc x) (str_id s)) eqn:E; try lia.
    apply SendWindowSize_nonneg in E. lia. }
  assert (HmaxLen : 0 <= maxLen <= maxBytes - ps_currentLen x - headerLen frame0 /\ (len <> 0 -> maxLen <= win)).
  { unfold maxLen. destruct (Z.eqb_spec len 0); cbn [negb]; [lia|]. unfold utils.MinByteCount. case_match; lia. }
  destruct (Z.eqb_spec maxLen 0); [done|].
  pose proof (take_data s w mayTake maxLen Hs Hw ltac:(lia)) as Htake. cbv zeta in Htake. fold len in Htake.
  destruct (if negb (len =? 0) && mayTake len maxLen then _ else _) as [data s1].
  destruct Htake as (Hnone & Hsome & Hlen & Hslice & Hoff & Hs1 & Hid & Hfw & Hfs).
  destruct (bool_decide (data = None) && negb (Stream.shouldSendFin s1)) eqn:Eno.
  { apply andb_true_iff in Eno as [Hd%bool_decide_eq_true _]. by rewrite (Hnone Hd). }
  pose proof (sendFin_ok s1 w Hs1) as Hsf. cbv zeta in Hsf. set (fin := Stream.shouldSendFin s1) in *.
  set (s2 := if fin then Stream.sentFin s1 else s1) in *. clearbody s2.
  destruct Hsf as (Hs2 & Hid2 & Hoff2 & Hfw2 & Hfs2 & Hfin). rewrite Hid2, Hid. cbn [Offset frame0].
  set (frame := mkStreamFrame (str_id s) fin true (writeOffset s) (default [] data)).
  assert (Hdl : DataLen frame = Z.of_nat (length (default [] data))) by done.
  assert (Hhl : headerLen frame = headerLen frame0) by (by apply headerLen_ext).
  assert (Hcl : ps_currentLen x +64 (headerLen frame0 +64 DataLen frame) = ps_currentLen x + frameLen frame)
    by (unfold frameLen; rewrite Hhl; usmall; lia).
  rewrite Hcl. pose proof (sd_offset _ _ Hs2) as Ho2. pose proof (sd_offset _ _ Hs) as Ho.
  split; cbn [ps_res ps_currentLen ps_fc]; try done; try congruence.
  - split; [split|].
    + apply Ho.
    + rewrite Hdl. cbn [Offset frame]. lia.
    + done.
    + intros Hf. pose proof (Hfin Hf) as Hend. rewrite Hdl. cbn [Offset frame]. lia.
    + destruct fin eqn:Ef; [by left|]. right. apply Hsome. intros ->. by rewrite bool_decide_true in Eno.
  - rewrite Hdl. cbn [Offset frame]. lia.
  - unfold frameLen. rewrite Hhl, Hdl. lia.
  - by rewrite Hfs2, Hfs.
  - apply (charged_sent cp (ps_fc x) frame). intros ww Hww. rewrite Hdl. change (StreamID frame) with (str_id s) in Hww.
    pose proof (SendWindowSize_nonneg _ _ _ _ Hww). destruct data as [d|]; [|cbn; lia].
    destruct Hsome as [_ Hl0]; [done|]. assert (win = ww); [|cbn in *; lia].
    unfold win. by rewrite (proj2 (Z.eqb_neq len 0) Hl0), Hww.
Qed.

(** ** All streams of a framer

    [W]: the bytes written to each stream, [E]: all frames handed out so far, [hist]: the IDs of the
    streams opened so far. *)
Definition sent_in (E : list StreamFrame) (id y : Z) : Prop :=
  exists f, f ∈ E /\ StreamID f = id /\ Offset f <= y < Offset f + DataLen f.
Definition fin_in (E : list StreamFrame) (id : Z) : Prop :=
  exists f, f ∈ E /\ StreamID f = id /\ FinBit f = true.

Lemma sent_in_app E E' id y : sent_in E id y \/ sent_in E' id y -> sent_in (E ++ E') id y.
Proof. intros [(f & ? & ?)|(f & ? & ?)]; exists f; set_solver. Qed.
Lemma fin_in_app E E' id : fin_in (E ++ E') id <-> fin_in E id \/ fin_in E' id.
Proof.
  split.
  - intros (f & [?|?]%elem_of_app & ?); [left|right]; by exists f.
  - intros [(f & ? & ?)|(f & ? & ?)]; exists f; set_solver.
Qed.

Record stream_inv (W : Z -> list Z) (E : list StreamFrame) (id : Z) (s : stream) : Prop := {
  st_id : str_id s = id;
  st_send : send_ok s (W id);
  st_sent : forall y, 0 <= y < writeOffset s -> sent_in E id y;
  st_fin : fin_in E id <-> finSent s = true
}.

Record frame_inv (hist : list Z) (W : Z -> list Z) (E : list StreamFrame) (f : StreamFrame) : Prop := {
  fi_hist : StreamID f ∈ hist;
  fi_sent : sent_frame (W (StreamID f)) f;
  fi_fin : FinBit f = true -> fin_in E (StreamID f)
}.

Lemma frame_inv_mono hist hist' W E E' f :
  (forall id, id ∈ hist -> id ∈ hist') -> (forall id, fin_in E id -> fin_in E' id) ->
  frame_inv hist W E f -> frame_inv hist' W E' f.
Proof. intros Hh He [H1 H2 H3]. split; auto. Qed.

Lemma stream_inv_same W E E' id s :
  (forall y, sent_in E id y -> sent_in E' id y) -> (fin_in E id <-> fin_in E' id) ->
  stream_inv W E id s -> stream_inv W E' id s.
Proof. intros Hs Hf [H1 H2 H3 H4]. split; auto. by rewrite <- Hf. Qed.

(** The frame [f] was taken from a stream. *)
Lemma taken_streams W E (ss : gmap Z stream) id s s' f :
  (forall id s, ss !! id = Some s -> stream_inv W E id s) -> ss !! id = Some s ->
  StreamID f = id -> str_id s' = id -> send_ok s' (W id) -> Offset f = writeOffset s ->
  writeOffset s' = Offset f + DataLen f -> finSent s' = finSent s || FinBit f ->
  forall id0 s0, <[id := s']> ss !! id0 = Some s0 -> stream_inv W (E ++ [f]) id0 s0.
Proof.
  intros Hst Hs Hfi Hid' Hsend' Hoff Hnext Hff id0 s0. pose proof (Hst _ _ Hs) as [Hid Hsend Hsent Hfin].
  intros [[<- <-]|[Hne Hs0]]%lookup_insert_Some.
  - split; [done|done| |].
    + intros y Hy. destruct (decide (y < writeOffset s)); apply sent_in_app; [left; apply Hsent; lia|].
      right. exists f. split; [set_solver|]. split; [done|lia].
    + rewrite fin_in_app, Hff, orb_true_iff, Hfin. f_equiv. split.
      * by intros (? & ->%list_elem_of_singleton & ? & ?).
      * intros Hb. exists f. split; [set_solver|done].
  - eapply stream_inv_same; [| |by apply Hst].
    + intros y Hy. apply sent_in_app. by left.
    + rewrite (fin_in_app E [f]). split; [intros; by left|].
      intros [?|(? & ->%list_elem_of_singleton & ? & ?)]; congruence.
Qed.

(** The streams and the state in the course of an iteration. *)
Record pop_inv (cp : ConnectionParameters) (hist : list Z) (W : Z -> list Z) (E : list StreamFrame)
    (ss0 : gmap Z stream) (fc0 : flowControlManager) (maxBytes : Z) (ss : gmap Z stream) (x : popState) : Prop := {
  pi_dom : forall id, is_Some (ss !! id) <-> is_Some (ss0 !! id);
  pi_streams : forall id s, ss !! id = Some s -> stream_inv W (E ++ ps_res x) id s;
  pi_frames : Forall (frame_inv hist W (E ++ ps_res x)) (ps_res x);
  pi_len : ps_currentLen x = totalLen (ps_res x);
  pi_max : ps_currentLen x <= maxBytes;
  pi_flags : Forall (fun f => DataLenPresent f = true) (ps_res x);
  pi_fc : charged cp fc0 (ps_res x) (ps_fc x)
}.

Section Popping.
Context (cp : ConnectionParameters) (hist : list Z) (W : Z -> list Z) (E : list StreamFrame).
Context (ss0 : gmap Z stream) (fc0 : flowControlManager) (maxBytes : Z).
Hypothesis Hss : forall id, is_Some (ss0 !! id) -> id ∈ hist.
Hypothesis HW : forall id, Z.of_nat (length (W id)) < 2 ^ 63 - 1.
Hypothesis Hmax : maxBytes < 2 ^ 63.

Lemma popFrame_inv mayTake ss x id s :
  pop_inv cp hist W E ss0 fc0 maxBytes ss x -> ss !! id = Some s ->
  let '(s', x', _, _) := Framer.popFrame cp mayTake maxBytes s x in
  pop_inv cp hist W E ss0 fc0 maxBytes (<[id := s']> ss) x'.
Proof.
  intros [Hd Hst Hfr Hl Hm Hfl Hfc] Hs. pose proof (Hst _ _ Hs) as [Hid Hsend Hsent Hfin].
  pose proof (totalLen_nonneg (ps_res x)).
  pose proof (popFrame_ok cp mayTake maxBytes s x (W id) Hsend (HW id) ltac:(lia) Hmax) as Hpop.
  destruct (Framer.popFrame cp mayTake maxBytes s x) as [[[s' x'] fr] cont]. destruct fr as [f|].
  2: { destruct Hpop as [-> ->]. by rewrite insert_id. }
  destruct Hpop as [Hr Hfi Hsf Hflag Hoff Hnext Hlen Hmx Hff Hfcs Hsend' Hid' Hfw].
  rewrite Hid in Hfi, Hid'. split; rewrite ?Hr, ?app_assoc.
  - intros id0. rewrite lookup_insert_is_Some', Hd. split; [|by right].
    intros [<-|]; [|done]. apply Hd. eauto.
  - eapply taken_streams; try done.
  - apply Forall_app. split.
    + eapply Forall_impl; [exact Hfr|]. intros f0. apply frame_inv_mono; [done|].
      intros i Hi. apply fin_in_app. by left.
    + apply Forall_singleton. split; rewrite ?Hfi; [apply Hss, Hd; eauto|done|].
      intros Hb. apply fin_in_app. right. exists f. split; [set_solver|done].
  - rewrite Hlen, Hl, totalLen_app, totalLen_cons. unfold frameLen. cbn. lia.
  - done.
  - apply Forall_app. split; [done|]. by apply Forall_singleton.
  - by eapply charged_trans.
Qed.

(** The three iterations. *)
Lemma popLambda_inv : forall ss x id s,
  pop_inv cp hist W E ss0 fc0 maxBytes ss x -> ss !! id = Some s ->
  pop_inv cp hist W E ss0 fc0 maxBytes (<[id := (Framer.popLambda cp maxBytes s x).1.1]> ss)
    (Framer.popLambda cp maxBytes s x).1.2.
Proof.
  intros ss x id s Hi Hs. pose proof (popFrame_inv (fun _ _ => true) ss x id s Hi Hs) as H.
  unfold Framer.popLambda. by destruct (Framer.popFrame _ _ _ _ _) as [[[s' x'] fr] cont].
Qed.

Lemma popLambdaOfPath_inv {F : Type} (positive : F -> bool) minus sched : forall ss (x : popState * (Z -> F)) id s,
  pop_inv cp hist W E ss0 fc0 maxBytes ss x.1 -> ss !! id = Some s ->
  pop_inv cp hist W E ss0 fc0 maxBytes
    (<[id := (Framer.popLambdaOfPath cp positive minus sched maxBytes s x).1.1]> ss)
    (Framer.popLambdaOfPath cp positive minus sched maxBytes s x).1.2.1.
Proof.
  intros ss [x vol] id s Hi Hs. unfold Framer.popLambdaOfPath. cbv zeta.
  match goal with |- context [Framer.popFrame cp ?m maxBytes s x] => pose proof (popFrame_inv m ss x id s Hi Hs) as H end.
  by destruct (Framer.popFrame _ _ _ _ _) as [[[s' x'] fr] cont].
Qed.
End Popping.

(** ** The framer *)
Record snd_inv (f : streamFramer) (hist : list Z) (W : Z -> list Z) (E : list StreamFrame) : Prop := {
  si_map : map_ok (fr_streamsMap f) hist;
  si_streams : forall id s, streams (fr_streamsMap f) !! id = Some s -> stream_inv W E id s;
  si_new : forall id, id ∉ hist -> W id = [];
  si_frames : Forall (frame_inv hist W E) E;
  si_queue : Forall (frame_inv hist W E) (fr_retransmissionQueue f);
  si_len : forall id, Z.of_nat (length (W id)) < 2 ^ 63 - 1
}.

Lemma frame_inv_queueable hist W E f :
  (forall id, Z.of_nat (length (W id)) < 2 ^ 63 - 1) -> frame_inv hist W E f -> queueable f.
Proof. intros HW [_ [[H1 H2 _ _] _] _]. specialize (HW (StreamID f)). split; lia. Qed.

Lemma frame_inv_dataLen hist W E f : frame_inv hist W E f -> frame_inv hist W E (withDataLen f).
Proof. intros [H1 [[V1 V2 V3 V4] Hd] H3]. split; [done|split; [by split|done]|done]. Qed.

Lemma frame_inv_split hist W E f n a b :
  (forall id, Z.of_nat (length (W id)) < 2 ^ 63 - 1) -> frame_inv hist W E f -> 0 < n ->
  maybeSplitOffFrame f n = Some (a, b) -> frame_inv hist W E a /\ frame_inv hist W E b.
Proof.
  intros HW Hf Hn Hs. destruct (frame_inv_queueable _ _ _ _ HW Hf) as [Ho He].
  destruct (flat_split _ _ _ _ Hs ltac:(lia) Ho He)
    as (_ & Hla & Hia & Hib & Hoa & Hob & Hlb & Hlt & _ & Hfb & Hfa & Hda & Hdb).
  destruct Hf as [H1 [[V1 V2 V3 V4] _] H3].
  assert (Hnil : forall h, 0 < DataLen h -> Data h <> []) by (intros h Hh Hd; unfold DataLen in Hh; by rewrite Hd in Hh).
  split; split; rewrite ?Hia, ?Hib; try done; try (rewrite Hfa; done); try (rewrite Hfb; done).
  - split; [split|right; apply Hnil; lia]; rewrite ?Hoa, ?Hla, ?Hfa; try done; try lia.
    rewrite Hda. by apply slice_take.
  - split; [split|right; apply Hnil; lia]; rewrite ?Hob, ?Hlb, ?Hfb; try lia.
    + rewrite Hdb. apply slice_drop; [lia|done].
    + intros Hfin. specialize (V4 Hfin). lia.
Qed.

(** Frames of the queue go out again. *)
Lemma resend_inv f hist W E res queue fc :
  snd_inv f hist W E -> Forall (frame_inv hist W E) res -> Forall (frame_inv hist W E) queue ->
  snd_inv (f <| fr_retransmissionQueue := queue |> <| fr_flowControl := fc |>) hist W (E ++ res).
Proof.
  intros [H1 H2 H3 H4 H5 H6] Hr Hq.
  assert (Hfin : forall id, fin_in E id <-> fin_in (E ++ res) id).
  { intros id. rewrite fin_in_app. split; [by left|]. intros [?|(f0 & Hin & <- & Hb)]; [done|].
    rewrite Forall_forall in Hr. by apply (fi_fin _ _ _ _ (Hr _ Hin)). }
  assert (Hmono : forall fs, Forall (frame_inv hist W E) fs -> Forall (frame_inv hist W (E ++ res)) fs).
  { intros fs Hfs. eapply Forall_impl; [exact Hfs|]. intros x. apply frame_inv_mono; [done|]. intros id. apply Hfin. }
  split; cbn; try done.
  - intros id s Hs. eapply stream_inv_same; [| |by apply H2]; [|apply Hfin].
    intros y Hy. apply sent_in_app. by left.
  - apply Forall_app. by split; apply Hmono.
  - by apply Hmono.
Qed.

Lemma popRetransmissionsOf_inv cp wanted maxLen f hist W E f' res cur :
  (forall f g, StreamID f = StreamID g -> wanted f = wanted g) ->
  snd_inv f hist W E -> 0 <= maxLen < 2 ^ 63 -> Framer.popRetransmissionsOf wanted maxLen f = (f', res, cur) ->
  snd_inv f' hist W (E ++ res) /\ cur = totalLen res /\ cur <= maxLen /\
  Forall (fun f => wanted f = true /\ DataLenPresent f = true) res /\
  flatAll (filter (fun f => wanted f = true) (fr_retransmissionQueue f)) =
    flatAll res ++ flatAll (filter (fun f => wanted f = true) (fr_retransmissionQueue f')) /\
  filter (fun f => wanted f = false) (fr_retransmissionQueue f') =
    filter (fun f => wanted f = false) (fr_retransmissionQueue f) /\
  fr_streamsMap f' = fr_streamsMap f /\ blockedFrameQueue f' = blockedFrameQueue f /\
  charged cp (fr_flowControl f) [] (fr_flowControl f').
Proof.
  intros Hw Hi Hmax Hpop. unfold Framer.popRetransmissionsOf in Hpop.
  destruct (Framer.popRetransmissions _ _ _ _ _) as [[[res0 queue] fc] cur0] eqn:Ep. injection Hpop as <- <- <-.
  pose proof (si_len _ _ _ _ Hi) as HW.
  destruct (popRetransmissions_ok wanted (frame_inv hist W E) Hw (fun f => frame_inv_queueable hist W E f HW)
    (frame_inv_dataLen hist W E) (fun f n a b => frame_inv_split hist W E f n a b HW) cp maxLen _ _ _ _ _ _ _ Ep
    (si_queue _ _ _ _ Hi) ltac:(lia) ltac:(lia)) as [H1 H2 H3 H4 H5 H6 H7 H8].
  split; [by apply resend_inv|]. cbn. done.
Qed.

(** The iteration starts from the framer's state, and its result is the framer's. *)
Lemma startPop_inv cp f hist W E maxBytes :
  snd_inv f hist W E -> 0 <= maxBytes ->
  pop_inv cp hist W E (streams (fr_streamsMap f)) (fr_flowControl f) maxBytes (streams (fr_streamsMap f)) (Framer.startPop f).
Proof.
  intros [H1 H2 H3 H4 H5 H6] Hm. split; cbn; [done| |constructor|done|done|constructor|apply charged_refl].
  intros id s. rewrite app_nil_r. apply H2.
Qed.

Lemma endPop_inv cp f hist W E maxBytes m x :
  snd_inv f hist W E ->
  iterated (pop_inv cp hist W E (streams (fr_streamsMap f)) (fr_flowControl f) maxBytes) (fr_streamsMap f) m x ->
  snd_inv (Framer.endPop m x f) hist W (E ++ ps_res x) /\ totalLen (ps_res x) <= maxBytes /\
  Forall (fun f => DataLenPresent f = true) (ps_res x) /\
  charged cp (fr_flowControl f) (ps_res x) (fr_flowControl (Framer.endPop m x f)).
Proof.
  intros [H1 H2 H3 H4 H5 H6] [Hi (ss & i & ->)]. destruct Hi as [Hd Hst Hfr Hl Hm Hfl Hfc].
  split; [|split; [lia|done]].
  assert (Hmono : forall fs, Forall (frame_inv hist W E) fs -> Forall (frame_inv hist W (E ++ ps_res x)) fs).
  { intros fs Hfs. eapply Forall_impl; [exact Hfs|]. intros y. apply frame_inv_mono; [done|].
    intros id Hid. apply fin_in_app. by left. }
  split; cbn; try done.
  - eapply same_ok; [|exact H1]. split; cbn; try done. intros _ id s Hs. apply (st_id _ _ _ _ (Hst _ _ Hs)).
  - apply Forall_app. split; [by apply Hmono|done].
  - by apply Hmono.
Qed.

(** What every operation that hands out frames promises; the new frames follow the retransmissions. *)
Record pops (cp : ConnectionParameters) (maxLen : Z) (hist : list Z) (W : Z -> list Z)
    (E : list StreamFrame) (f f' : streamFramer) (res : list StreamFrame) : Prop := {
  po_inv : snd_inv f' hist W (E ++ res);
  po_len : totalLen res <= maxLen;
  po_flags : Forall (fun f => DataLenPresent f = true) res;
  po_fc : exists again new, res = again ++ new /\ charged cp (fr_flowControl f) new (fr_flowControl f')
}.

Lemma pops_normal cp f hist W E maxBytes {X : Type} (proj : X -> popState) fn m x :
  snd_inv f hist W E ->
  iterated (fun ss y => pop_inv cp hist W E (streams (fr_streamsMap f)) (fr_flowControl f) maxBytes ss (proj y))
    (fr_streamsMap f) m x ->
  fn = Framer.endPop m (proj x) f -> pops cp maxBytes hist W E f fn (ps_res (proj x)).
Proof.
  intros Hi Hit ->. destruct (endPop_inv cp f hist W E maxBytes m (proj x) Hi Hit) as (H1 & H2 & H3 & H4).
  split; try done. by exists [], (ps_res (proj x)).
Qed.

Section Pops.
Context (cp : ConnectionParameters) (hist : list Z) (W : Z -> list Z) (E : list StreamFrame).

Lemma pop_hyps f : snd_inv f hist W E -> forall id, is_Some (streams (fr_streamsMap f) !! id) -> id ∈ hist.
Proof. intros [H1 _ _ _ _ _] id Hid. by apply (mo_sub _ _ H1), (mo_streams _ _ H1). Qed.

Lemma maybePopNormalFrames_pops f maxBytes :
  snd_inv f hist W E -> 0 <= maxBytes < 2 ^ 63 ->
  let '(f', res) := Framer.maybePopNormalFrames cp maxBytes f in pops cp maxBytes hist W E f f' res.
Proof.
  intros Hi Hm. unfold Framer.maybePopNormalFrames.
  pose proof (RoundRobinIterate_inv (Framer.popLambda cp maxBytes) _
    (popLambda_inv cp hist W E _ (fr_flowControl f) maxBytes (pop_hyps f Hi) (si_len _ _ _ _ Hi) ltac:(lia))
    (fr_streamsMap f) (Framer.startPop f) (startPop_inv cp f hist W E maxBytes Hi ltac:(lia))) as H.
  destruct (StreamsMap.RoundRobinIterate _ _ _) as [[m x] r]. by eapply (pops_normal _ _ _ _ _ _ id).
Qed.

Lemma maybePopNormalFrames_charged f maxBytes :
  snd_inv f hist W E -> 0 <= maxBytes < 2 ^ 63 ->
  let '(f', res) := Framer.maybePopNormalFrames cp maxBytes f in charged cp (fr_flowControl f) res (fr_flowControl f').
Proof.
  intros Hi Hm. unfold Framer.maybePopNormalFrames.
  pose proof (RoundRobinIterate_inv (Framer.popLambda cp maxBytes) _
    (popLambda_inv cp hist W E _ (fr_flowControl f) maxBytes (pop_hyps f Hi) (si_len _ _ _ _ Hi) ltac:(lia))
    (fr_streamsMap f) (Framer.startPop f) (startPop_inv cp f hist W E maxBytes Hi ltac:(lia))) as H.
  destruct (StreamsMap.RoundRobinIterate _ _ _) as [[m x] r].
  by destruct (endPop_inv cp f hist W E maxBytes m x Hi H) as (_ & _ & _ & ?).
Qed.

Lemma maybePopNormalFramesOfOneStream_pops f maxBytes sid :
  snd_inv f hist W E -> 0 <= maxBytes < 2 ^ 63 ->
  let '(f', res) := Framer.maybePopNormalFramesOfOneStream cp maxBytes sid f in pops cp maxBytes hist W E f f' res.
Proof.
  intros Hi Hm. unfold Framer.maybePopNormalFramesOfOneStream.
  pose proof (iterateFunc_inv (Framer.popLambda cp maxBytes) _
    (popLambda_inv cp hist W E _ (fr_flowControl f) maxBytes (pop_hyps f Hi) (si_len _ _ _ _ Hi) ltac:(lia))
    sid (fr_streamsMap f) (Framer.startPop f) (startPop_inv cp f hist W E maxBytes Hi ltac:(lia))) as H.
  destruct (StreamsMap.iterateFunc _ _ _ _) as [[m x] r]. by eapply (pops_normal _ _ _ _ _ _ id).
Qed.

Lemma maybePopNormalFramesOfPath_pops {F : Type} (positive : F -> bool) minus sched f maxBytes ids cid vol :
  snd_inv f hist W E -> 0 <= maxBytes < 2 ^ 63 ->
  let '(f', _, r) := Framer.maybePopNormalFramesOfPath cp positive minus sched maxBytes ids cid vol f in
  exists res, pops cp maxBytes hist W E f f' res /\ (r = Ret res \/ exists why, r = Panic why).
Proof.
  intros Hi Hm. unfold Framer.maybePopNormalFramesOfPath.
  pose proof (PriorityIteratePopOfPath_inv (Framer.popLambdaOfPath cp positive minus sched maxBytes)
    (fun ss x => pop_inv cp hist W E (streams (fr_streamsMap f)) (fr_flowControl f) maxBytes ss x.1)
    (popLambdaOfPath_inv cp hist W E _ (fr_flowControl f) maxBytes (pop_hyps f Hi) (si_len _ _ _ _ Hi)
       ltac:(lia) positive minus sched)
    ids cid (fr_streamsMap f) (Framer.startPop f, vol) (startPop_inv cp f hist W E maxBytes Hi ltac:(lia))) as H.
  destruct (StreamsMap.PriorityIteratePopOfPath _ _ _ _ _) as [[m [x vol']] r].
  exists (ps_res x). split; [by eapply (pops_normal _ _ _ _ _ _ fst _ m (x, vol'))|]. destruct r; eauto.
Qed.
End Pops.

(** Retransmissions first, then new data. *)
Lemma pops_both cp wanted maxLen f hist W E f1 res cur f2 res2 :
  (forall f g, StreamID f = StreamID g -> wanted f = wanted g) ->
  snd_inv f hist W E -> 0 <= maxLen < 2 ^ 63 -> Framer.popRetransmissionsOf wanted maxLen f = (f1, res, cur) ->
  (snd_inv f1 hist W (E ++ res) -> 0 <= maxLen -64 cur < 2 ^ 63 ->
    pops cp (maxLen -64 cur) hist W (E ++ res) f1 f2 res2) ->
  pops cp maxLen hist W E f f2 (res ++ res2).
Proof.
  intros Hw Hi Hm Hpop Hnext.
  destruct (popRetransmissionsOf_inv cp wanted maxLen f hist W E f1 res cur Hw Hi Hm Hpop)
    as (Hi1 & Hl & Hle & Hfl & _ & _ & _ & _ & Hfc).
  pose proof (totalLen_nonneg res). assert (Hsub : maxLen -64 cur = maxLen - cur) by (usmall; lia).
  rewrite Hsub in Hnext. destruct (Hnext Hi1 ltac:(lia)) as [N1 N2 N3 N4].
  split; [by rewrite app_assoc|rewrite totalLen_app; lia| |].
  - apply Forall_app. split; [|done]. eapply Forall_impl; [exact Hfl|]. by intros x [].
  - destruct N4 as (again & new & -> & Hn). exists (res ++ again), new. split; [by rewrite app_assoc|].
    by apply (charged_trans cp [] new _ (fr_flowControl f1)).
Qed.

Lemma PopStreamFrames_pops cp f hist W E maxLen :
  snd_inv f hist W E -> 0 <= maxLen < 2 ^ 63 ->
  let '(f', res) := Framer.PopStreamFrames cp maxLen f in pops cp maxLen hist W E f f' res.
Proof.
  intros Hi Hm. unfold Framer.PopStreamFrames, Framer.maybePopFramesForRetransmission.
  destruct (Framer.popRetransmissionsOf _ maxLen f) as [[f1 res] cur] eqn:Ep.
  destruct (Framer.maybePopNormalFrames cp (maxLen -64 cur) f1) as [f2 res2] eqn:En.
  eapply pops_both; [|exact Hi|done|exact Ep|]; [done|]. intros Hi1 Hm1.
  pose proof (maybePopNormalFrames_pops cp hist W (E ++ res) f1 _ Hi1 Hm1) as H. by rewrite En in H.
Qed.

Lemma PopStreamFramesOfOneStream_pops cp f hist W E maxLen sid :
  snd_inv f hist W E -> 0 <= maxLen < 2 ^ 63 ->
  let '(f', res) := Framer.PopStreamFramesOfOneStream cp maxLen sid f in pops cp maxLen hist W E f f' res.
Proof.
  intros Hi Hm. unfold Framer.PopStreamFramesOfOneStream, Framer.maybePopFramesForRetransmissionOfOneStream.
  destruct (Framer.popRetransmissionsOf _ maxLen f) as [[f1 res] cur] eqn:Ep.
  destruct (Framer.maybePopNormalFramesOfOneStream cp (maxLen -64 cur) sid f1) as [f2 res2] eqn:En.
  eapply pops_both; [|exact Hi|done|exact Ep|]; [by intros ? ? Heq; cbv beta; rewrite Heq|]. intros Hi1 Hm1.
  pose proof (maybePopNormalFramesOfOneStream_pops cp hist W (E ++ res) f1 _ sid Hi1 Hm1) as H. by rewrite En in H.
Qed.

Lemma PopStreamFramesOfPath_pops {F : Type} (positive : F -> bool) minus sched cp f hist W E maxLen ids cid vol :
  snd_inv f hist W E -> 0 <= maxLen < 2 ^ 63 ->
  let '(f', _, r) := Framer.PopStreamFramesOfPath cp positive minus sched maxLen ids cid vol f in
  exists res, pops cp maxLen hist W E f f' res /\ (r = Ret res \/ exists why, r = Panic why).
Proof.
  intros Hi Hm. unfold Framer.PopStreamFramesOfPath, Framer.maybePopFramesForRetransmissionOfPath.
  destruct (Framer.popRetransmissionsOf _ maxLen f) as [[f1 res] cur] eqn:Ep.
  destruct (Framer.maybePopNormalFramesOfPath cp positive minus sched (maxLen -64 cur) ids cid vol f1) as [[f2 vol2] r] eqn:En.
  assert (Hn : snd_inv f1 hist W (E ++ res) -> 0 <= maxLen -64 cur < 2 ^ 63 ->
    exists res2, pops cp (maxLen -64 cur) hist W (E ++ res) f1 f2 res2 /\ (r = Ret res2 \/ exists why, r = Panic why)).
  { intros Hi1 Hm1. pose proof (maybePopNormalFramesOfPath_pops cp hist W (E ++ res) positive minus sched f1 _
      ids cid vol Hi1 Hm1) as H. by rewrite En in H. }
  destruct (popRetransmissionsOf_inv cp (fun frame => existsb (Z.eqb (StreamID frame)) ids) maxLen f hist W E f1
    res cur ltac:(intros ? ? Heq; cbv beta; by rewrite Heq) Hi Hm Ep)
    as (Hi1 & Hl & Hle & _).
  pose proof (totalLen_nonneg res). destruct (Hn Hi1) as (res2 & Hp & Hr); [usmall; lia|].
  exists (res ++ res2). split; [|destruct Hr as [->|[why ->]]; eauto].
  eapply pops_both; [|exact Hi|done|exact Ep|]; [by intros ? ? Heq; cbv beta; rewrite Heq|done].
Qed.

(** Streams are opened and removed. *)
Lemma map_inv_grown f hist W E m fc :
  let hist' := hist ++ drop (length (openStreams (fr_streamsMap f))) (openStreams m) in
  snd_inv f hist W E -> map_ok m hist' -> openStreams (fr_streamsMap f) `prefix_of` openStreams m ->
  extends (streams (fr_streamsMap f)) (streams m) ->
  snd_inv (f <| fr_streamsMap := m |> <| fr_flowControl := fc |>) hist' W E.
Proof.
  intros hist' [H1 H2 H3 H4 H5 H6] Hok [l Hl] He.
  assert (Hsub : forall id, id ∈ hist -> id ∈ hist') by (intros id Hid; apply elem_of_app; by left).
  assert (Hmono : forall fs, Forall (frame_inv hist W E) fs -> Forall (frame_inv hist' W E) fs).
  { intros fs Hfs. eapply Forall_impl; [exact Hfs|]. intros y. by apply frame_inv_mono. }
  split; cbn; auto.
  intros id s Hs. destruct (He id) as [Heq|[Hnone Hnew]].
  { apply H2. congruence. }
  rewrite Hnew in Hs. injection Hs as <-.
  assert (Hnot : id ∉ hist).
  { pose proof (mo_hist _ _ Hok) as Hd. apply NoDup_app in Hd as (_ & Hd & _). intros Hin. apply (Hd id Hin).
    assert (Ho : id ∈ openStreams m) by (apply (mo_streams _ _ Hok); eauto).
    rewrite Hl in Ho |- *. rewrite drop_app_length.
    apply elem_of_app in Ho as [Ho|]; [|done]. apply (mo_streams _ _ H1) in Ho. rewrite Hnone in Ho. by destruct Ho. }
  split; [done| |cbn; lia|].
  - rewrite (H3 id Hnot). split; cbn; done || lia.
  - cbn. split; [|done]. intros (f0 & Hf0 & <- & _). rewrite Forall_forall in H4. destruct (H4 _ Hf0). done.
Qed.

Lemma map_inv_removed f hist W E m :
  snd_inv f hist W E -> map_ok m hist -> (forall x s, streams m !! x = Some s -> streams (fr_streamsMap f) !! x = Some s) ->
  snd_inv (f <| fr_streamsMap := m |>) hist W E.
Proof. intros [H1 H2 H3 H4 H5 H6] Hok Hs. split; cbn; auto. Qed.

(** The history with the streams opened between [f] and [f']. *)
Definition opened_in (f f' : streamFramer) (hist : list Z) : list Z :=
  hist ++ drop (length (openStreams (fr_streamsMap f))) (openStreams (fr_streamsMap f')).

(** The crypto stream: it may be opened by looking for it. *)
Lemma cryptoStream_inv h f hist W E f' cs :
  snd_inv f hist W E -> Framer.cryptoStream h f = (f', cs) ->
  snd_inv f' (opened_in f f' hist) W E /\ (forall s, cs = Some s -> streams (fr_streamsMap f') !! 1 = Some s) /\
    (forall s, cs = Some s -> Framer.cryptoStream h f' = (f', cs)).
Proof.
  intros Hi Hcs. unfold Framer.cryptoStream in Hcs.
  pose proof (GetOrOpenStream_ok h (fr_streamsMap f) (fr_flowControl f) hist 1 (si_map _ _ _ _ Hi) ltac:(lia)) as Hget.
  pose proof (GetOrOpenStream_extends h 1 (fr_streamsMap f, fr_flowControl f)) as Hext.
  destruct (StreamsMap.GetOrOpenStream h 1 _) as [[m fc] r]. injection Hcs as <- <-. cbn [fst] in *.
  assert (Hg : grown (fr_streamsMap f) m hist) by (destruct r; [apply Hget|apply Hget|destruct Hget]).
  split; [by apply map_inv_grown; destruct Hg|].
  assert (Hsome : forall s, match r with Ret (Some id) => streams m !! id | _ => None end = Some s ->
    streams m !! 1 = Some s).
  { intros s Hs. destruct r as [[id|]|e|]; try done. by destruct Hget as (_ & _ & [[[= ->] _]|[? _]]). }
  split; [exact Hsome|]. intros s Hs. pose proof (Hsome s Hs) as H1. unfold Framer.cryptoStream.
  cbn [fr_streamsMap fr_flowControl]. unfold StreamsMap.GetOrOpenStream. cbn. rewrite H1. cbn. by rewrite H1, Hs.
Qed.

Lemma PopCryptoStreamFrame_pops h f hist W E maxLen :
  snd_inv f hist W E -> 15 < maxLen < 2 ^ 63 ->
  let '(f', r) := Framer.PopCryptoStreamFrame h maxLen f in
  snd_inv f' (opened_in f f' hist) W (E ++ match r with Ret (Some fr) => [fr] | _ => [] end) /\
    match r with Ret (Some fr) => StreamID fr = 1 /\ frameLen fr <= maxLen | _ => True end.
Proof.
  intros Hi Hm. unfold Framer.PopCryptoStreamFrame, Framer.HasCryptoStreamFrame.
  destruct (Framer.cryptoStream h f) as [f1 cs] eqn:E1.
  destruct (cryptoStream_inv h f hist W E f1 cs Hi E1) as (Hi1 & Hcs & Hagain).
  destruct cs as [cs|]; [|by rewrite app_nil_r].
  specialize (Hcs _ eq_refl). specialize (Hagain _ eq_refl).
  destruct (Z.ltb_spec 0 (Stream.lenOfDataForWriting cs)); [|by rewrite app_nil_r].
  rewrite Hagain. set (frame0 := mkStreamFrame 1 false false (writeOffset cs) []).
  pose proof (headerLen_range frame0) as Hh.
  replace (maxLen -64 headerLen frame0) with (maxLen - headerLen frame0) by (usmall; lia).
  pose proof (si_streams _ _ _ _ Hi1 _ _ Hcs) as [Hid Hsend Hsent Hfin].
  destruct (getData_ok cs (W 1) (maxLen - headerLen frame0) Hsend (si_len _ _ _ _ Hi1 1))
    as (d & cs' & -> & Hne & Hl & Hd & Ho & Hsend' & Hid' & Hfw & Hfs); [lia|lia|].
  cbn [default]. set (fr := mkStreamFrame 1 false false (Offset frame0) d).
  match goal with |- snd_inv ?f2 _ _ _ /\ _ =>
    change (opened_in f f2 hist) with (opened_in f f1 hist) end.
  set (hist1 := opened_in f f1 hist) in *. split.
  2: { split; [done|]. change (headerLen fr + Z.of_nat (length d) <= maxLen).
    rewrite (headerLen_ext fr frame0) by done. lia. }
  pose proof (sd_offset _ _ Hsend) as Ho1. pose proof (sd_offset _ _ Hsend') as Ho2.
  assert (Hfr : frame_inv hist1 W (E ++ [fr]) fr).
  { split; [|split; [split|right; done]|done]; cbn [StreamID fr Offset frame0]; try done; try lia.
    - apply (pop_hyps _ _ _ _ Hi1). eauto.
    - change (writeOffset cs + Z.of_nat (length d) <= Z.of_nat (length (W 1))). lia.
    - change (slice_of (content (W 1)) (writeOffset cs) d). rewrite Hd. apply slice_content. lia. }
  destruct Hi1 as [H1 H2 H3 H4 H5 H6].
  assert (Hmono : forall fs, Forall (frame_inv hist1 W E) fs -> Forall (frame_inv hist1 W (E ++ [fr])) fs).
  { intros fs Hall. eapply Forall_impl; [exact Hall|]. intros y. apply frame_inv_mono; [done|].
    intros i Hx. apply fin_in_app. by left. }
  split; cbn [fr_streamsMap fr_retransmissionQueue].
  - eapply same_ok; [|exact H1]. by apply (same_update _ _ cs).
  - eapply taken_streams; [exact H2|exact Hcs|..]; try done; [congruence|].
    rewrite Hfs. by rewrite orb_false_r.
  - done.
  - apply Forall_app. split; [by apply Hmono|by apply Forall_singleton].
  - by apply Hmono.
  - done.
Qed.

(** ** The sender *)

(** The methods of a stream that leave its sending half alone. *)
Definition keeps_send (s s' : stream) : Prop :=
  str_id s' = str_id s /\ writeOffset s' = writeOffset s /\ dataForWriting s' = dataForWriting s /\
  finSent s' = finSent s /\ (finishedWriting s = true -> finishedWriting s' = true).

Lemma keeps_stream_inv W E id s s' : keeps_send s s' -> stream_inv W E id s -> stream_inv W E id s'.
Proof.
  intros (K1 & K2 & K3 & K4 & K5) [H1 [S1 S2 S3 S4] H3 H4].
  split; rewrite ?K1, ?K2, ?K4; try done. split; rewrite ?K2, ?K3, ?K4; try done. naive_solver.
Qed.

(** Calls other than those for sending *)
Definition otherCall (c : stream_call) : bool :=
  match c with CallWrite _ | CallGetDataForWriting _ | CallSentFin => false | _ => true end.

Lemma call_keeps c s : otherCall c = true -> keeps_send s (callStream c s).
Proof.
  intros Hc. destruct c; try done; unfold keeps_send; cbn;
    unfold Stream.SetReadDeadline, Stream.SetWriteDeadline, Stream.Cancel, Stream.Reset, Stream.RegisterRemoteError,
      Stream.sendReset; repeat (case_match; try done).
Qed.

Lemma frame_keeps fr s f s' f' r : Stream.AddStreamFrame fr s f = (s', f', r) -> keeps_send s s'.
Proof. unfold Stream.AddStreamFrame, keeps_send. intros H. repeat case_match; simplify_eq; done. Qed.

Lemma readLoop_keeps fuel now len : forall bytes s f,
  let '(s', _, _) := Stream.readLoop fuel now len bytes s f in keeps_send s s'.
Proof.
  unfold keeps_send. induction fuel as [|fuel IH]; intros bytes s f; [done|]. cbn [Stream.readLoop]. cbv zeta.
  repeat (case_match; try done).
  all: unfold Stream.readFrame in *; simplify_eq; try done.
  all: match goal with H : Stream.readLoop _ _ _ ?b ?s0 ?f0 = _ |- _ =>
    specialize (IH b s0 f0); rewrite H in IH; exact IH end.
Qed.

Lemma read_keeps now len s f s' f' r : Stream.Read now len s f = (s', f', r) -> keeps_send s s'.
Proof.
  unfold Stream.Read. intros H. repeat case_match; simplify_eq; try done.
  pose proof (readLoop_keeps (Stream.readFuel s) now len [] s f) as Hk. by rewrite H in Hk.
Qed.

Definition setStream (f : streamFramer) (id : Z) (s : stream) : streamFramer :=
  f <| fr_streamsMap := fr_streamsMap f <| streams := <[id := s]> (streams (fr_streamsMap f)) |> |>.

Lemma setStream_inv f hist W E id s s' :
  snd_inv f hist W E -> streams (fr_streamsMap f) !! id = Some s -> stream_inv W E id s' ->
  snd_inv (setStream f id s') hist W E.
Proof.
  intros [H1 H2 H3 H4 H5 H6] Hs Hs'. split; try done.
  - eapply same_ok; [|exact H1]. apply (same_update _ _ s); [done|].
    by rewrite (st_id _ _ _ _ Hs'), (st_id _ _ _ _ (H2 _ _ Hs)).
  - intros id0 s0. cbn. intros [[<- <-]|[_ Hs0]]%lookup_insert_Some; [done|by apply H2].
Qed.

(** [W] after [p] was written to the stream [id] *)
Definition written (W : Z -> list Z) (id : Z) (p : list Z) : Z -> list Z :=
  fun i => if decide (i = id) then W i ++ p else W i.

Lemma written_other W id p i : i <> id -> written W id p i = W i.
Proof. unfold written. intros. by rewrite decide_False. Qed.
Lemma written_id W id p : written W id p id = W id ++ p.
Proof. unfold written. by rewrite decide_True. Qed.

Lemma content_app w p y : 0 <= y < Z.of_nat (length w) -> content (w ++ p) y = content w y.
Proof. intros Hy. unfold content. rewrite lookup_app_l by lia. done. Qed.

Lemma valid_frame_app w p f :
  FinBit f = false -> valid_frame (content w) (Z.of_nat (length w)) f ->
  valid_frame (content (w ++ p)) (Z.of_nat (length (w ++ p))) f.
Proof.
  intros Hf [V1 V2 V3 V4]. split; [done|rewrite length_app; lia| |congruence].
  intros i b Hb. rewrite content_app; [by apply V3|]. apply lookup_lt_Some in Hb. unfold DataLen in V2. lia.
Qed.

(** Writing: the previous call of [Write] has handed over all its data. *)
Lemma write_inv f hist W E id s p s' :
  snd_inv f hist W E -> streams (fr_streamsMap f) !! id = Some s -> dataForWriting s = None ->
  Stream.Write p s = (s', WriteWait) -> Z.of_nat (length (W id ++ p)) < 2 ^ 63 - 1 ->
  snd_inv (setStream f id s') hist (written W id p) E.
Proof.
  intros Hi Hs Hd Hw Hlen. pose proof Hi as [H1 H2 H3 H4 H5 H6].
  unfold Stream.Write in Hw. repeat (case_match; try done). injection Hw as <-.
  pose proof (H2 _ _ Hs) as [Hid [S1 S2 S3 S4] Hsent Hfin].
  assert (Hin : id ∈ hist) by (apply (pop_hyps _ _ _ _ Hi); eauto).
  assert (Hfs : finSent s = false) by (destruct (finSent s); [naive_solver congruence|done]).
  assert (Hmono : forall fs, Forall (frame_inv hist W E) fs -> Forall (frame_inv hist (written W id p) E) fs).
  { intros fs Hall. eapply Forall_impl; [exact Hall|]. intros fr [F1 [F2 F4] F3]. split; [done|split; [|done]|done].
    destruct (decide (StreamID fr = id)) as [He|Hne]; [|by rewrite written_other].
    rewrite He, written_id. apply valid_frame_app; [|by rewrite <- He].
    destruct (FinBit fr); [|done]. rewrite He in F3. apply Hfin in F3; [congruence|done]. }
  assert (Hwo : writeOffset s = Z.of_nat (length (W id))).
  { rewrite Hd in S2. apply (f_equal length) in S2. rewrite length_drop in S2. cbn in S2. lia. }
  split; cbn [fr_streamsMap setStream]; auto.
  - eapply same_ok; [|exact H1]. by apply (same_update _ _ s).
  - intros id0 s0. cbn. intros [[<- <-]|[Hne Hs0]]%lookup_insert_Some.
    + split; cbn; try done. split; cbn; rewrite ?written_id, ?length_app.
      * lia.
      * rewrite Hwo, Nat2Z.id. by rewrite drop_app_length.
      * intros [= ->]. done.
      * congruence.
    + destruct (H2 _ _ Hs0) as [G1 G2 G3 G4]. split; auto. by rewrite written_other.
  - intros i Hi'. rewrite written_other by congruence. by apply H3.
  - intros i. destruct (decide (i = id)) as [->|]; [by rewrite written_id|]. by rewrite written_other.
Qed.

(** The state of the sender: the framer, the IDs opened, the bytes written to each stream and all
    frames handed out. *)
Definition sender : Type := (streamFramer * list Z * (Z -> list Z) * list StreamFrame)%type.

Inductive send_step : sender -> sender -> Prop :=
  | snd_write f hist W E id s p s' :
      streams (fr_streamsMap f) !! id = Some s -> dataForWriting s = None ->
      Stream.Write p s = (s', WriteWait) -> Z.of_nat (length (W id ++ p)) < 2 ^ 63 - 1 ->
      send_step (f, hist, W, E) (setStream f id s', hist, written W id p, E)
  | snd_call f hist W E id s c :
      streams (fr_streamsMap f) !! id = Some s -> otherCall c = true ->
      send_step (f, hist, W, E) (setStream f id (callStream c s), hist, W, E)
  | snd_receive f hist W E id s fr s' fc r :
      streams (fr_streamsMap f) !! id = Some s ->
      Stream.AddStreamFrame fr s (fr_flowControl f) = (s', fc, r) ->
      send_step (f, hist, W, E) (setStream f id s' <| fr_flowControl := fc |>, hist, W, E)
  | snd_read f hist W E id s now len s' fc r :
      streams (fr_streamsMap f) !! id = Some s ->
      Stream.Read now len s (fr_flowControl f) = (s', fc, r) ->
      send_step (f, hist, W, E) (setStream f id s' <| fr_flowControl := fc |>, hist, W, E)
  | snd_pop f hist W E cp maxLen f' res :
      0 <= maxLen < 2 ^ 63 -> Framer.PopStreamFrames cp maxLen f = (f', res) ->
      send_step (f, hist, W, E) (f', hist, W, E ++ res)
  | snd_pop_one f hist W E cp maxLen id f' res :
      0 <= maxLen < 2 ^ 63 -> Framer.PopStreamFramesOfOneStream cp maxLen id f = (f', res) ->
      send_step (f, hist, W, E) (f', hist, W, E ++ res)
  | snd_pop_path {F : Type} f hist W E cp (positive : F -> bool) minus sched maxLen ids cid vol f' vol' res :
      0 <= maxLen < 2 ^ 63 ->
      Framer.PopStreamFramesOfPath cp positive minus sched maxLen ids cid vol f = (f', vol', Ret res) ->
      send_step (f, hist, W, E) (f', hist, W, E ++ res)
  | snd_pop_crypto f hist W E h maxLen f' fr :
      15 < maxLen < 2 ^ 63 -> Framer.PopCryptoStreamFrame h maxLen f = (f', Ret fr) ->
      send_step (f, hist, W, E) (f', opened_in f f' hist, W, E ++ match fr with Some fr => [fr] | None => [] end)
  | snd_lost f hist W E fr :
      fr ∈ E -> send_step (f, hist, W, E) (Framer.AddFrameForRetransmission fr f, hist, W, E)
  | snd_get f hist W E h id m fc r :
      0 <= id < 2 ^ 32 - 2 ->
      StreamsMap.GetOrOpenStream h id (fr_streamsMap f, fr_flowControl f) = ((m, fc), r) ->
      let f' := f <| fr_streamsMap := m |> <| fr_flowControl := fc |> in
      send_step (f, hist, W, E) (f', opened_in f f' hist, W, E)
  | snd_open f hist W E h m fc r :
      nextStream (fr_streamsMap f) < 2 ^ 32 - 2 ->
      StreamsMap.OpenStream h (fr_streamsMap f, fr_flowControl f) = ((m, fc), r) ->
      let f' := f <| fr_streamsMap := m |> <| fr_flowControl := fc |> in
      send_step (f, hist, W, E) (f', opened_in f f' hist, W, E)
  | snd_remove f hist W E id m r :
      StreamsMap.RemoveStream id (fr_streamsMap f) = (m, r) ->
      send_step (f, hist, W, E) (f <| fr_streamsMap := m |>, hist, W, E)
  | snd_flow f hist W E fc :
      send_step (f, hist, W, E) (f <| fr_flowControl := fc |>, hist, W, E).

Definition sender_inv (x : sender) : Prop := let '(f, hist, W, E) := x in snd_inv f hist W E.

Lemma flow_inv f hist W E fc : snd_inv f hist W E -> snd_inv (f <| fr_flowControl := fc |>) hist W E.
Proof. intros []. by split. Qed.

(** [OpenStream] opens one stream or none. *)
Lemma OpenStream_inv h f hist W E m fc r :
  snd_inv f hist W E -> nextStream (fr_streamsMap f) < 2 ^ 32 - 2 ->
  StreamsMap.OpenStream h (fr_streamsMap f, fr_flowControl f) = ((m, fc), r) ->
  let f' := f <| fr_streamsMap := m |> <| fr_flowControl := fc |> in snd_inv f' (opened_in f f' hist) W E.
Proof.
  intros Hi Hn Ho f'. unfold StreamsMap.OpenStream in Ho. cbn [fst] in Ho.
  assert (Hsame : m = fr_streamsMap f -> snd_inv f' (opened_in f f' hist) W E).
  { intros ->. unfold opened_in, f'. cbn. rewrite drop_all, app_nil_r. destruct Hi. by split. }
  destruct (closeErr (fr_streamsMap f)); [by simplify_eq; apply Hsame|].
  pose proof (openStreamImpl_ok h _ (fr_flowControl f) hist (si_map _ _ _ _ Hi) Hn) as Hok.
  pose proof (openStreamImpl_extends h (fr_streamsMap f, fr_flowControl f)) as Hext.
  rewrite Ho in Hok, Hext. cbn [fst] in *. destruct r as [id|e|]; [|by destruct Hok as [[= -> _] _]; apply Hsame|done].
  destruct Hok as ([O1 O2 O3] & _). apply (map_inv_grown f hist W E m fc); [done| |by exists [id]|done].
  by rewrite O2, drop_app_length.
Qed.

Lemma send_step_inv x y : sender_inv x -> send_step x y -> sender_inv y.
Proof.
  intros Hx Hstep. destruct Hstep; cbn [sender_inv] in *.
  - by eapply write_inv.
  - eapply setStream_inv; [done..|]. eapply keeps_stream_inv; [by apply call_keeps|by eapply si_streams].
  - apply flow_inv. eapply setStream_inv; [done..|].
    eapply keeps_stream_inv; [by eapply frame_keeps|by eapply si_streams].
  - apply flow_inv. eapply setStream_inv; [done..|].
    eapply keeps_stream_inv; [by eapply read_keeps|by eapply si_streams].
  - pose proof (PopStreamFrames_pops cp f hist W E maxLen Hx H) as Hp. rewrite H0 in Hp. apply Hp.
  - pose proof (PopStreamFramesOfOneStream_pops cp f hist W E maxLen id Hx H) as Hp.
    rewrite H0 in Hp. apply Hp.
  - pose proof (PopStreamFramesOfPath_pops positive minus sched cp f hist W E maxLen ids cid vol Hx H) as Hp.
    rewrite H0 in Hp. destruct Hp as (res' & Hp & [[= ->]|[? ?]]); [|done]. apply Hp.
  - pose proof (PopCryptoStreamFrame_pops h f hist W E maxLen Hx H) as Hp. rewrite H0 in Hp. by destruct Hp.
  - pose proof Hx as [H1 H2 H3 H4 H5 H6]. split; try done. cbn. apply Forall_app. split; [done|].
    apply Forall_singleton. rewrite Forall_forall in H4. by apply H4.
  - pose proof (GetOrOpenStream_ok h (fr_streamsMap f) (fr_flowControl f) hist id (si_map _ _ _ _ Hx) H) as Hget.
    pose proof (GetOrOpenStream_extends h id (fr_streamsMap f, fr_flowControl f)) as Hext. rewrite H0 in Hget, Hext.
    assert (Hg : grown (fr_streamsMap f) m hist) by (destruct r; [apply Hget|apply Hget|destruct Hget]).
    by apply map_inv_grown; destruct Hg.
  - by eapply OpenStream_inv.
  - pose proof (RemoveStream_map_ok (fr_streamsMap f) hist id (si_map _ _ _ _ Hx)) as Hrem.
    pose proof (RemoveStream_sub id (fr_streamsMap f)) as Hsub. rewrite H in Hrem, Hsub. cbn [fst] in Hsub.
    apply map_inv_removed; [done| |done]. destruct r; [apply Hrem| |done]. destruct Hrem as [-> _]. by destruct Hx.
  - by apply flow_inv.
Qed.

Lemma sender_inv_new pers fc : sender_inv (newStreamFramer (newStreamsMapTree pers) fc, [], fun _ => [], []).
Proof.
  split; [apply map_ok_new| |done|constructor|constructor|done]. intros id s. by destruct pers.
Qed.

(** ** From the writer to the reader *)

Definition new_sender (pers : Perspective) (fc : flowControlManager) : sender :=
  (newStreamFramer (newStreamsMapTree pers) fc, [], fun _ => [], []).

Lemma sender_reachable pers fc f hist W E :
  rtc send_step (new_sender pers fc) (f, hist, W, E) -> snd_inv f hist W E.
Proof.
  intros Hrun. change (sender_inv (f, hist, W, E)). revert Hrun. generalize (f, hist, W, E).
  apply rtc_ind_r; [apply sender_inv_new|]. intros x y _ Hstep Hx. by eapply send_step_inv.
Qed.

(** The frames of the stream [id] among those handed out. *)
Definition arrives (E : list StreamFrame) (id : Z) (fr : StreamFrame) : Prop := fr ∈ E /\ StreamID fr = id.

Lemma content_prefix w out : slice_of (content w) 0 out -> Z.of_nat (length out) <= Z.of_nat (length w) -> out `prefix_of` w.
Proof.
  intros Hs Hl. exists (drop (length out) w). rewrite <- (take_drop (length out) w) at 1. f_equal.
  apply list_eq_same_length with (n := length out); [done|rewrite length_take; lia|].
  intros i a b Hi Ha Hb. apply Hs in Hb. rewrite lookup_take in Ha. destruct (decide _); [|done].
  rewrite Hb. unfold content. rewrite Z.add_0_l, Nat2Z.id. by rewrite Ha.
Qed.

Section EndToEnd.
Context (pers : Perspective) (fc0 rfc0 : flowControlManager).
Context (f : streamFramer) (hist : list Z) (W : Z -> list Z) (E : list StreamFrame) (id : Z).
Hypothesis Hsend : rtc send_step (new_sender pers fc0) (f, hist, W, E).

Lemma arrives_valid fr : arrives E id fr -> valid_frame (content (W id)) (Z.of_nat (length (W id))) fr.
Proof.
  intros [Hin <-]. pose proof (si_frames _ _ _ _ (sender_reachable _ _ _ _ _ _ Hsend)) as Hall.
  rewrite Forall_forall in Hall. by destruct (Hall _ Hin) as [_ [? _] _].
Qed.

Context (r : stream) (rfc : flowControlManager) (fs : list StreamFrame) (out : list Z).
Hypothesis Hrecv : rtc (stream_step (arrives E id)) (newStream id, rfc0, [], []) (r, rfc, fs, out).

Lemma arrived_from fr : fr ∈ fs -> arrives E id fr.
Proof.
  apply (run_arrived _ _ _ Hrecv). cbn. set_solver.
Qed.

Lemma received_run (final : Z) :
  Z.of_nat (length (W id)) <= final ->
  (forall fr, fr ∈ fs -> FinBit fr = true -> Z.of_nat (length (W id)) = final) ->
  rtc (stream_step (valid_frame (content (W id)) final)) (newStream id, rfc0, [], []) (r, rfc, fs, out).
Proof.
  intros Hle Hfin. eapply run_frames; [exact Hrecv|]. cbn. intros fr Hin Hfr.
  destruct (arrives_valid fr Hfr) as [V1 V2 V3 V4]. split; [done|lia|done|]. intros Hb. rewrite (V4 Hb). by apply (Hfin fr).
Qed.

(** No more bytes than were written are read. *)
Lemma sent_bound y : sent y fs -> y < Z.of_nat (length (W id)).
Proof. intros (fr & Hin & Hy). destruct (arrives_valid fr (arrived_from fr Hin)) as [_ V2 _ _]. lia. Qed.

Lemma W_len : 0 <= Z.of_nat (length (W id)) < 2 ^ 63.
Proof. pose proof (si_len _ _ _ _ (sender_reachable _ _ _ _ _ _ Hsend) id). lia. Qed.

(** What was read is the beginning of what was written. *)
Lemma out_prefix l :
  (forall i b, l !! i = Some b -> b = content (W id) (Z.of_nat i)) ->
  (forall y, 0 <= y < Z.of_nat (length l) -> sent y fs) -> l `prefix_of` W id.
Proof.
  intros Hs Hsent. apply content_prefix; [exact Hs|]. destruct (decide (length l = 0)%nat) as [->|]; [lia|].
  pose proof (sent_bound (Z.of_nat (length l) - 1) (Hsent (Z.of_nat (length l) - 1) ltac:(lia))). lia.
Qed.

Lemma delivered : 
  (forall i b, out !! i = Some b -> b = content (W id) (Z.of_nat i)) /\
  (forall y, 0 <= y < Z.of_nat (length out) -> sent y fs).
Proof.
  destruct (stream_delivers (content (W id)) _ id rfc0 r rfc fs out W_len) as (H1 & H2 & _); [|done].
  by apply received_run.
Qed.

(** All of it is read when everything was handed out and arrived, and a [Read] has to wait. *)
Lemma all_read s :
  streams (fr_streamsMap f) !! id = Some s -> dataForWriting s = None -> (forall fr, arrives E id fr -> fr ∈ fs) ->
  ~ sent (Z.of_nat (length out)) fs -> out = W id.
Proof.
  intros Hs Hd Hall Hns. destruct delivered as [D1 D2]. pose proof (out_prefix out D1 D2) as Hpre.
  destruct (si_streams _ _ _ _ (sender_reachable _ _ _ _ _ _ Hsend) _ _ Hs) as [_ [S1 S2 _ _] S3 _].
  rewrite Hd in S2. apply (f_equal length) in S2. rewrite length_drop in S2. cbn in S2.
  apply prefix_length_eq; [done|]. destruct (Nat.le_gt_cases (length (W id)) (length out)) as [|Hlt]; [done|].
  destruct Hns. destruct (S3 (Z.of_nat (length out)) ltac:(lia)) as (fr & Hin & Hid & Hr).
  exists fr. split; [|done]. by apply Hall.
Qed.

(** Without a FIN there is no EOF: the stream might go on. *)
Lemma eof_fin (bytes : list Z) now len :
  0 <= len -> (Stream.Read now len r rfc).2 = ReadReturn bytes (Some EOF) -> str_err r <> Some EOF ->
  clean_history fs -> Z.of_nat (length (out ++ bytes)) = Z.of_nat (length (W id)) /\ fin_in E id.
Proof.
  intros Hlen Hread Hne Hcl.
  assert (Hend : forall final, 0 <= final < 2 ^ 63 ->
    rtc (stream_step (valid_frame (content (W id)) final)) (newStream id, rfc0, [], []) (r, rfc, fs, out) ->
    Z.of_nat (length (out ++ bytes)) = final).
  { intros final Hf Hrun. destruct (stream_delivers _ _ _ _ _ _ _ _ Hf Hrun) as (_ & _ & H).
    specialize (H now len Hlen). rewrite Hread in H. destruct H as (_ & _ & _ & _ & H). by apply H. }
  pose proof W_len as HW. pose proof (Hend _ HW (received_run (Z.of_nat (length (W id))) (Z.le_refl _) (fun _ _ _ => eq_refl))) as Hl. split; [done|].
  destruct (decide (Exists (fun fr => FinBit fr = true) fs)) as [Hex|Hno].
  - apply Exists_exists in Hex as (fr & Hin & Hb). destruct (arrived_from fr Hin). by exists fr.
  - exfalso. assert (Hnofin : forall fr, fr ∈ fs -> FinBit fr = true -> False).
    { intros fr Hin Hb. apply Hno. apply Exists_exists. eauto. }
    pose proof (si_len _ _ _ _ (sender_reachable _ _ _ _ _ _ Hsend) id).
    assert (Z.of_nat (length (out ++ bytes)) = Z.of_nat (length (W id)) + 1); [|lia].
    apply Hend; [lia|]. apply received_run; [lia|]. intros fr Hin Hf. by destruct (Hnofin fr Hin Hf).
Qed.
End EndToEnd.

(** C2: What the application writes to a stream at one end is what the application reads at the
    other end.  On the sending side there is any sequence of writes to the streams (each after the
    data of the previous one was taken), other calls, pops of stream frames (new data within the
    flow control windows, queued retransmissions, the crypto stream), losses, openings and removals
    of streams; on the receiving side the frames of the stream [id] that were handed out arrive in
    any order, any number of times or never, with reads in between.  Then the bytes read are a
    prefix of the bytes written.  The next [Read] does not panic and keeps it so.  If all data was
    handed out and all frames arrived, it waits only after everything was read.  It reports the
    end of the stream only if the sender closed it and all bytes written were read, provided the
    last byte of each frame with FIN and data was missing when the frame arrived. *)
Theorem stream_end_to_end pers fc0 rfc0 f hist W E id r rfc fs out :
  rtc send_step (new_sender pers fc0) (f, hist, W, E) ->
  rtc (stream_step (arrives E id)) (newStream id, rfc0, [], []) (r, rfc, fs, out) ->
  out `prefix_of` W id /\
  forall now len, 0 <= len ->
  match (Stream.Read now len r rfc).2 with
  | ReadWait =>
      forall s, streams (fr_streamsMap f) !! id = Some s -> dataForWriting s = None ->
      (forall fr, arrives E id fr -> fr ∈ fs) -> out = W id
  | ReadReturn bytes e =>
      (out ++ bytes) `prefix_of` W id /\
      (e = Some EOF -> str_err r <> Some EOF -> clean_history fs -> out ++ bytes = W id /\ fin_in E id)
  | ReadPanic _ => False
  end.
Proof.
  intros Hsend Hrecv. destruct (delivered pers fc0 rfc0 f hist W E id Hsend r rfc fs out Hrecv) as [D1 D2].
  split; [by eapply out_prefix|]. intros now len Hlen.
  destruct (stream_delivers (content (W id)) _ id rfc0 r rfc fs out (W_len _ _ _ _ _ _ id Hsend)) as (_ & _ & H);
    [by eapply received_run|].
  specialize (H now len Hlen). destruct (Stream.Read now len r rfc) as [[r' rfc'] res] eqn:Eread. cbn [snd] in *.
  destruct res as [|bytes e|]; [| |done].
  - destruct H as [_ Hns]. intros s Hs Hd Hall. by eapply all_read.
  - assert (Hrun : rtc (stream_step (arrives E id)) (newStream id, rfc0, [], []) (r', rfc', fs, out ++ bytes))
      by (eapply rtc_r; [exact Hrecv|by eapply step_read]).
    destruct (delivered pers fc0 rfc0 f hist W E id Hsend _ _ _ _ Hrun) as [D3 D4].
    assert (Hpre : (out ++ bytes) `prefix_of` W id) by (by eapply out_prefix).
    split; [done|]. intros -> Hne Hcl.
    destruct (eof_fin pers fc0 rfc0 f hist W E id Hsend r rfc fs out Hrecv bytes now len Hlen) as [Hl Hfin];
      [by rewrite Eread|done|done|].
    split; [|done]. apply prefix_length_eq; [done|lia].
Qed.

Lemma retransmits_first maxLen frame rest fc :
  15 < maxLen < 2 ^ 63 -> (Framer.popRetransmissions (fun _ => true) maxLen (frame :: rest) fc 0).1.1.1 <> [].
Proof.
  intros Hm. cbn [Framer.popRetransmissions negb]. pose proof (headerLen_range (withDataLen frame)) as Hh.
  replace (0 +64 headerLen (withDataLen frame)) with (headerLen (withDataLen frame)) by (usmall; lia).
  destruct (Z.leb_spec maxLen (headerLen (withDataLen frame))); [lia|].
  destruct (maybeSplitOffFrame _ _) as [[a b]|]; [done|].
  by destruct (Framer.popRetransmissions _ _ rest _ _) as [[[res q] fc'] cur].
Qed.

Lemma maybePopNormalFrames_queue cp maxBytes f :
  fr_retransmissionQueue (Framer.maybePopNormalFrames cp maxBytes f).1 = fr_retransmissionQueue f.
Proof. unfold Framer.maybePopNormalFrames. by destruct (StreamsMap.RoundRobinIterate _ _ _) as [[m x] r]. Qed.

(** The frames are retransmissions, then new ones. *)
Lemma PopStreamFrames_split cp f hist W E maxLen f' res :
  snd_inv f hist W E -> 0 <= maxLen < 2 ^ 63 -> Framer.PopStreamFrames cp maxLen f = (f', res) ->
  exists again new, res = again ++ new /\
    flatAll (fr_retransmissionQueue f) = flatAll again ++ flatAll (fr_retransmissionQueue f') /\
    (fr_retransmissionQueue f <> [] -> 15 < maxLen -> again <> []) /\
    charged cp (fr_flowControl f) new (fr_flowControl f').
Proof.
  intros Hi Hm Hpop. unfold Framer.PopStreamFrames, Framer.maybePopFramesForRetransmission in Hpop.
  destruct (Framer.popRetransmissionsOf (fun _ => true) maxLen f) as [[f1 again] cur] eqn:E1.
  destruct (popRetransmissionsOf_inv cp (fun _ => true) maxLen f hist W E f1 again cur ltac:(done) Hi Hm E1)
    as (Hi1 & Hcur & Hle & _ & Hflat & _ & _ & _ & Hfc).
  pose proof (totalLen_nonneg again). pose proof (maybePopNormalFrames_queue cp (maxLen -64 cur) f1) as Hq.
  pose proof (maybePopNormalFrames_charged cp hist W (E ++ again) f1 (maxLen -64 cur) Hi1 ltac:(usmall; lia)) as Hc.
  destruct (Framer.maybePopNormalFrames cp (maxLen -64 cur) f1) as [f2 new]. injection Hpop as <- <-.
  assert (Hall : forall l : list StreamFrame, filter (fun _ => true = true) l = l).
  { induction l as [|x l IH]; [done|]. rewrite filter_cons, decide_True by done. by rewrite IH. }
  exists again, new. cbn [fst] in Hq. rewrite !Hall in Hflat. rewrite Hq. split; [done|]. split; [done|].
  split; [|exact (charged_trans cp [] new _ _ _ Hfc Hc)].
  intros Hne Hm'. unfold Framer.popRetransmissionsOf in E1.
  destruct (fr_retransmissionQueue f) as [|frame rest]; [done|].
  pose proof (retransmits_first maxLen frame rest (fr_flowControl f) ltac:(lia)) as Hfirst.
  destruct (Framer.popRetransmissions _ _ _ _ _) as [[[res q] fc'] cur']. by injection E1 as _ <- _.
Qed.

(** C12: [PopStreamFrames] hands out frames that fit into the given length with their headers, each
    with its data length and with data or FIN.  The queued retransmissions come first: what they
    carry, byte by byte with stream and offset and with the FIN bits, is in the frames handed out or
    still in the queue, in the same order, and the queue makes progress.  Flow control counts the
    new frames and only them: the bytes sent on a stream grow by the data of its new frames, those of
    the connection by the data of the new frames of the streams that contribute to it.  If anything
    was counted, no more was sent afterwards than the send window allows, for the stream as for the
    connection; windows are left alone. *)
Theorem pop_stream_frames pers fc0 f hist W E cp maxLen f' res :
  rtc send_step (new_sender pers fc0) (f, hist, W, E) -> 0 <= maxLen < 2 ^ 63 ->
  Framer.PopStreamFrames cp maxLen f = (f', res) ->
  totalLen res <= maxLen /\
  Forall (fun fr => DataLenPresent fr = true /\ (FinBit fr = true \/ Data fr <> [])) res /\
  (exists again new, res = again ++ new /\
    flatAll (fr_retransmissionQueue f) = flatAll again ++ flatAll (fr_retransmissionQueue f') /\
    (fr_retransmissionQueue f <> [] -> 15 < maxLen -> again <> []) /\
    charged cp (fr_flowControl f) new (fr_flowControl f')).
Proof.
  intros Hrun Hm Hpop. pose proof (sender_reachable _ _ _ _ _ _ Hrun) as Hi.
  pose proof (PopStreamFrames_pops cp f hist W E maxLen Hi Hm) as Hp. rewrite Hpop in Hp.
  destruct Hp as [P1 P2 P3 _]. split; [done|]. split; [|by eapply PopStreamFrames_split].
  apply Forall_forall. intros fr Hin. rewrite Forall_forall in P3. split; [by apply P3|].
  pose proof (si_frames _ _ _ _ P1) as Hall. rewrite Forall_forall in Hall.
  destruct (Hall fr) as [_ [_ ?] _]; [set_solver|done].
Qed.

(** *** An example

    The client opens the stream 5; the server writes ten bytes to it and closes it.  They are handed
    out as two frames, the first of which is lost. *)
Definition ex_cp : ConnectionParameters := Parameters.flowControlView example_parameters.
Definition ex_new : streamFramer := newStreamFramer (newStreamsMapTree PerspectiveServer) example_fc.
Definition ex_get : mapState * outcome (option Z) :=
  StreamsMap.GetOrOpenStream example_parameters 5 (fr_streamsMap ex_new, fr_flowControl ex_new).
Definition ex_opened : streamFramer := ex_new <| fr_streamsMap := ex_get.1.1 |> <| fr_flowControl := ex_get.1.2 |>.
Definition ex_data : list Z := [10; 11; 12; 13; 14; 15; 16; 17; 18; 19].
Definition ex_stream : stream := newStream 5.
Definition ex_written : stream := (Stream.Write ex_data ex_stream).1.
Definition ex_writing : streamFramer := setStream ex_opened 5 ex_written.
Definition ex_closed : streamFramer := setStream ex_writing 5 (callStream CallClose ex_written).
Definition ex_pop1 : streamFramer * list StreamFrame := Framer.PopStreamFrames ex_cp 12 ex_closed.
Definition ex_pop2 : streamFramer * list StreamFrame := Framer.PopStreamFrames ex_cp 100 ex_pop1.1.
Definition ex_first : StreamFrame := mkStreamFrame 5 false true 0 [10; 11; 12; 13; 14; 15; 16; 17].
Definition ex_second : StreamFrame := mkStreamFrame 5 true true 8 [18; 19].
Definition ex_lost : streamFramer := Framer.AddFrameForRetransmission ex_first ex_pop2.1.
Definition ex_W : Z -> list Z := written (fun _ => []) 5 ex_data.

Lemma example_popped :
  rtc send_step (new_sender PerspectiveServer example_fc) (ex_pop1.1, [1; 3; 5], ex_W, [ex_first]).
Proof.
  assert (Hopen : openStreams (fr_streamsMap ex_opened) = [1; 3; 5]) by (by vm_compute).
  assert (Hs1 : streams (fr_streamsMap ex_opened) !! 5 = Some ex_stream) by (by vm_compute).
  assert (Hs2 : streams (fr_streamsMap ex_writing) !! 5 = Some ex_written) by apply lookup_insert_eq.
  assert (Hw : Stream.Write ex_data ex_stream = (ex_written, WriteWait)) by (by vm_compute).
  assert (Hr1 : ex_pop1.2 = [ex_first]) by (by vm_compute).
  assert (Hp1 : Framer.PopStreamFrames ex_cp 12 ex_closed = (ex_pop1.1, [ex_first]))
    by (rewrite <- Hr1; apply surjective_pairing).
  assert (Hg : StreamsMap.GetOrOpenStream example_parameters 5 (fr_streamsMap ex_new, fr_flowControl ex_new)
    = ((ex_get.1.1, ex_get.1.2), ex_get.2)) by (by rewrite <- (surjective_pairing ex_get.1), <- surjective_pairing).
  pose proof (snd_get ex_new [] (fun _ => []) [] example_parameters 5 _ _ _ ltac:(lia) Hg) as S1.
  cbv zeta in S1. fold ex_opened in S1. unfold opened_in in S1. rewrite Hopen in S1.
  pose proof (snd_write ex_opened [1; 3; 5] (fun _ => []) [] 5 ex_stream ex_data ex_written Hs1 eq_refl Hw
    ltac:(by vm_compute)) as S2.
  pose proof (snd_call ex_writing [1; 3; 5] ex_W [] 5 ex_written CallClose Hs2 eq_refl) as S3.
  pose proof (snd_pop ex_closed [1; 3; 5] ex_W [] ex_cp 12 _ _ ltac:(lia) Hp1) as S4.
  exact (rtc_l _ _ _ _ S1 (rtc_l _ _ _ _ S2 (rtc_l _ _ _ _ S3 (rtc_l _ _ _ _ S4 (rtc_refl _ _))))).
Qed.

Lemma example_sender :
  rtc send_step (new_sender PerspectiveServer example_fc)
    (ex_lost, [1; 3; 5], ex_W, [ex_first; ex_second]).
Proof.
  assert (Hr2 : ex_pop2.2 = [ex_second]) by (by vm_compute).
  assert (Hp2 : Framer.PopStreamFrames ex_cp 100 ex_pop1.1 = (ex_pop2.1, [ex_second]))
    by (rewrite <- Hr2; apply surjective_pairing).
  pose proof (snd_pop ex_pop1.1 [1; 3; 5] ex_W [ex_first] ex_cp 100 _ _ ltac:(lia) Hp2) as S5.
  pose proof (snd_lost ex_pop2.1 [1; 3; 5] ex_W [ex_first; ex_second] ex_first ltac:(apply elem_of_cons; by left)) as S6.
  exact (rtc_r _ _ _ (rtc_r _ _ _ example_popped S5) S6).
Qed.

(** The frames arrive in the wrong order. *)
Definition ex_recv1 := Stream.AddStreamFrame ex_second (newStream 5) ex_get.1.2.
Definition ex_recv2 := Stream.AddStreamFrame ex_first ex_recv1.1.1 ex_recv1.1.2.

Lemma triple_eq {A B C : Type} (x : A * B * C) c : x.2 = c -> x = (x.1.1, x.1.2, c).
Proof. by destruct x as [[a b] c']; cbn; intros ->. Qed.

Lemma example_receiver :
  rtc (stream_step (arrives [ex_first; ex_second] 5)) (newStream 5, ex_get.1.2, [], [])
    (ex_recv2.1.1, ex_recv2.1.2, [ex_first; ex_second], []).
Proof.
  assert (H1 : ex_recv1.2 = Ret tt) by (by vm_compute). assert (H2 : ex_recv2.2 = Ret tt) by (by vm_compute).
  assert (A1 : arrives [ex_first; ex_second] 5 ex_first) by (split; [apply elem_of_cons; by left|done]).
  assert (A2 : arrives [ex_first; ex_second] 5 ex_second)
    by (split; [apply elem_of_cons; right; by apply list_elem_of_singleton|done]).
  pose proof (step_frame _ _ _ [] [] ex_second _ _ A2 (triple_eq ex_recv1 _ H1)) as S1.
  pose proof (step_frame _ _ _ [ex_second] [] ex_first _ _ A1 (triple_eq ex_recv2 _ H2)) as S2.
  exact (rtc_l _ _ _ _ S1 (rtc_l _ _ _ _ S2 (rtc_refl _ _))).
Qed.

Lemma stream_end_to_end_witness :
  (Stream.Read 0 100 ex_recv2.1.1 ex_recv2.1.2).2 = ReadReturn ex_data (Some EOF) /\
  [] ++ ex_data = ex_W 5 /\ fin_in [ex_first; ex_second] 5.
Proof.
  destruct (stream_end_to_end PerspectiveServer example_fc ex_get.1.2 ex_lost [1; 3; 5] ex_W [ex_first; ex_second] 5
    ex_recv2.1.1 ex_recv2.1.2 [ex_first; ex_second] [] example_sender example_receiver) as [_ H].
  assert (E : (Stream.Read 0 100 ex_recv2.1.1 ex_recv2.1.2).2 = ReadReturn ex_data (Some EOF)) by (by vm_compute).
  assert (Herr : str_err ex_recv2.1.1 = None) by (by vm_compute).
  specialize (H 0 100 ltac:(lia)). rewrite E in H. destruct H as [_ H].
  refine (conj E (H eq_refl _ _)); [by rewrite Herr|].
  cbn [clean_history]. refine (conj _ (conj _ I)); [done|]. intros _ _. left. by intros (x & Hx%not_elem_of_nil & _).
Defined.

(** The first frame is lost before the second was handed out: the next frames are both. *)
Definition ex_half : streamFramer := Framer.AddFrameForRetransmission ex_first ex_pop1.1.

Lemma example_half : rtc send_step (new_sender PerspectiveServer example_fc) (ex_half, [1; 3; 5], ex_W, [ex_first]).
Proof.
  exact (rtc_r _ _ _ example_popped (snd_lost ex_pop1.1 [1; 3; 5] ex_W [ex_first] ex_first ltac:(by apply list_elem_of_singleton))).
Qed.

Definition sentOn (f : streamFramer) (id : Z) : option Z := bytesSent <$> streamFlowController (fr_flowControl f) !! id.

Lemma pop_stream_frames_witness :
  totalLen (Framer.PopStreamFrames ex_cp 20 ex_half).2 <= 20 /\
  (Framer.PopStreamFrames ex_cp 20 ex_half).2 = [ex_first; ex_second] /\
  sentOn ex_half 5 = Some 8 /\ sentOn (Framer.PopStreamFrames ex_cp 20 ex_half).1 5 = Some 10.
Proof.
  refine (conj (proj1 (pop_stream_frames PerspectiveServer example_fc ex_half [1; 3; 5] ex_W [ex_first]
    ex_cp 20 _ _ example_half _ (surjective_pairing _))) _); [lia|by vm_compute].
Defined.
