(* ===== verification/PacketPacker.v ===== *)
(** * The packet packer

    Models [packet_packer.go]: composing the payload of a packet from the queued frames and from the
    stream framer, the public header, and writing and sealing the packet.  The crypto setup is the
    interface [handshake.CryptoSetup]: what its methods answer is an argument.  [Seal] works in
    place in the packet's buffer; the model appends its result to the header. *)
From S2P Require Import Prelude MinMax ByteOrder PacketNumber PacketNumberGenerator Frames AckRanges AckFrame.
From S2P Require Import PathsFrame PublicHeader Unpacker FrameSorter FlowControl ConnectionParameters Stream.
From S2P Require Import StreamsMap StreamFramer.
From stdpp Require Import pretty.

Open Scope Z_scope.
Open Scope go_scope.

Definition NonForwardSecurePacketSizeReduction : Z := 50.

(** [crypto.AEAD] as a [handshake.Sealer]: [Seal] gets the payload, the packet number and the header. *)
Record Sealer := mkSealer {
  Overhead : Z;
  Seal : list Z -> Z -> list Z -> list Z
}.

Record CryptoSetup := mkCryptoSetup {
  GetSealer : EncryptionLevel * Sealer;
  GetSealerWithEncryptionLevel : EncryptionLevel -> outcome Sealer;
  GetSealerForCryptoStream : EncryptionLevel * Sealer;
  cs_DiversificationNonce : list Z;
  (** [Some why]: the call panics or never returns *)
  SetDiversificationNonce : list Z -> option string
}.

(** What the packer uses of a path; [pth_handshakeComplete] is the flag of its session. *)
Record packerPath := mkPackerPath {
  pth_pathID : Z;
  pth_generator : packetNumberGenerator;
  pth_leastUnacked : Z;
  pth_handshakeComplete : bool
}.

Definition eta_path (p : packerPath) : packerPath :=
  mkPackerPath (pth_pathID p) (pth_generator p) (pth_leastUnacked p) (pth_handshakeComplete p).
#[export] Instance set_pth_generator : Setter pth_generator := ltac:(field_setter eta_path).
#[export] Instance set_pth_leastUnacked : Setter pth_leastUnacked := ltac:(field_setter eta_path).

Record packedPacket := mkPackedPacket {
  pkd_number : Z;
  pkd_raw : list Z;
  pkd_frames : list Frame;
  pkd_encryptionLevel : EncryptionLevel
}.

Record packetPacker := mkPacketPacker {
  pk_connectionID : Z;
  pk_perspective : Perspective;
  pk_version : Z;
  pk_parameters : connectionParametersManager;
  pk_framer : streamFramer;
  controlFrames : list Frame;
  stopWaiting : gmap Z StopWaitingFrame;
  ackFrame : gmap Z AckFrame
}.

Definition eta_packer (p : packetPacker) : packetPacker :=
  mkPacketPacker (pk_connectionID p) (pk_perspective p) (pk_version p) (pk_parameters p) (pk_framer p)
    (controlFrames p) (stopWaiting p) (ackFrame p).
#[export] Instance set_pk_framer : Setter pk_framer := ltac:(field_setter eta_packer).
#[export] Instance set_controlFrames : Setter controlFrames := ltac:(field_setter eta_packer).
#[export] Instance set_stopWaiting : Setter stopWaiting := ltac:(field_setter eta_packer).
#[export] Instance set_ackFrame : Setter ackFrame := ltac:(field_setter eta_packer).

Definition newPacketPacker (connectionID : Z) (h : connectionParametersManager) (f : streamFramer)
    (pers : Perspective) (version : Z) : packetPacker :=
  mkPacketPacker connectionID pers version h f [] ∅ ∅.

Definition errPacketTooLarge : error := ErrorString "PacketPacker BUG: packet too large".
Definition errNumbersDoNotMatch : error :=
  ErrorString "packetPacker BUG: Peeked and Popped packet numbers do not match".
Definition errNoAckFrame : error := ErrorString "packet packer BUG: no ack frame queued".
Definition errForwardSecureRetransmission : error := ErrorString
  "PacketPacker BUG: forward-secure encrypted handshake packets don't need special treatment".
Definition errNoStopWaiting : error := ErrorString
  "PacketPacker BUG: Handshake retransmissions must contain a StopWaitingFrame".
Definition errPayloadTooLarge (payloadLength maxFrameSize : Z) : error :=
  ErrorString ("Packet Packer BUG: packet payload (" +:+ pretty payloadLength +:+ ") too large ("
               +:+ pretty maxFrameSize +:+ ")").

(** [encLevel >= protocol.EncryptionSecure] *)
Definition atLeastSecure (level : EncryptionLevel) : bool := negb (atMostUnencrypted level).

Module Packer.
Section Packer.
Context (parseIPv6 : list Z -> option (list Z)) (now : Z) (cs : CryptoSetup).

Definition canSendData (pers : Perspective) (encLevel : EncryptionLevel) : bool :=
  if isClient pers then atLeastSecure encLevel else bool_decide (encLevel = EncryptionForwardSecure).

Definition QueueControlFrame (frame : Frame) (pathID : Z) (p : packetPacker) : packetPacker :=
  match frame with
  | FStopWaiting f => p <| stopWaiting := <[pathID := f]> (stopWaiting p) |>
  | FAck f => p <| ackFrame := <[pathID := f]> (ackFrame p) |>
  | f => p <| controlFrames := controlFrames p ++ [f] |>
  end.

Definition getPublicHeader (encLevel : EncryptionLevel) (p : packetPacker) (pth : packerPath) : PublicHeader :=
  let pnum := Generator.Peek (pth_generator pth) in
  let packetNumberLen := GetPacketNumberLengthForPublicHeader pnum (pth_leastUnacked pth) in
  let nonce := if isServer (pk_perspective p) && bool_decide (encLevel = EncryptionSecure)
               then cs_DiversificationNonce cs else [] in
  let versionFlag := isClient (pk_perspective p) && negb (bool_decide (encLevel = EncryptionForwardSecure)) in
  let multipath := pth_handshakeComplete pth && (VersionMP <=? pk_version p) in
  mkPublicHeader [] (pk_connectionID p) (if multipath then pth_pathID pth else 0) versionFlag false
    (if multipath then false else Parameters.TruncateConnectionID (pk_parameters p)) multipath
    packetNumberLen pnum (if versionFlag then pk_version p else 0) [] nonce.

(** [for _, frame := range payloadFrames { frame.Write(...) }] *)
Fixpoint writeFrames (version : Z) (fs : list Frame) : Writer unit :=
  match fs with
  | [] => mret tt
  | f :: fs' => writeFrame parseIPv6 now version f;; writeFrames version fs'
  end.

Definition writeAndSealPacket (p : packetPacker) (publicHeader : PublicHeader) (payloadFrames : list Frame)
    (sealer : Sealer) (rand : option (Z * Z)) (pth : packerPath) : packerPath * outcome (list Z) :=
  match Header.Write publicHeader (pk_version p) (pk_perspective p) with
  | (header, Ret _) =>
      match writeFrames (pk_version p) payloadFrames with
      | (payload, Ret _) =>
          if MaxPacketSize <? u64 (Z.of_nat (length (header ++ payload)) + Overhead sealer)
          then (pth, Err errPacketTooLarge)
          else
            let raw := header ++ Seal sealer payload (hdr_PacketNumber publicHeader) header in
            let '(num, generator) := Generator.Pop rand (pth_generator pth) in
            (pth <| pth_generator := generator |>,
             if negb (num =? hdr_PacketNumber publicHeader) then Err errNumbersDoNotMatch else Ret raw)
      | (_, Err e) => (pth, Err e)
      | (_, Panic why) => (pth, Panic why)
      end
  | (_, Err e) => (pth, Err e)
  | (_, Panic why) => (pth, Panic why)
  end.

(** The loop over the control frames, from the last one on: the frames taken, the frames that stay
    (the last one first), and the length of the payload. *)
Fixpoint takeControlFrames (maxFrameSize : Z) (reversed : list Frame) (payloadLength : Z)
    : list Frame * list Frame * outcome Z :=
  match reversed with
  | [] => ([], [], Ret payloadLength)
  | frame :: rest =>
      match minLength frame with
      | Ret n =>
          if maxFrameSize <? payloadLength +64 n then ([], reversed, Ret payloadLength)
          else
            let '(taken, kept, len) := takeControlFrames maxFrameSize rest (payloadLength +64 n) in
            (frame :: taken, kept, len)
      | Err e => ([], reversed, Err e)
      | Panic why => ([], reversed, Panic why)
      end
  end.

(** A STOP_WAITING or ACK frame, which is taken without looking at its length. *)
Definition takeQueued (f : option Frame) (acc : list Frame * Z) : outcome (list Frame * Z) :=
  match f with
  | None => Ret acc
  | Some f => n ← minLength f; Ret (acc.1 ++ [f], acc.2 +64 n)
  end.

(** STOP_WAITING, ACK and the control frames that fit. *)
Definition composeControl (maxFrameSize pathID : Z) (p : packetPacker)
    : packetPacker * outcome (list Frame * Z) :=
  match (acc ← takeQueued (FStopWaiting <$> stopWaiting p !! pathID) ([], 0);
         takeQueued (FAck <$> ackFrame p !! pathID) acc) with
  | Ret (payloadFrames, payloadLength) =>
      let '(taken, kept, r) := takeControlFrames maxFrameSize (reverse (controlFrames p)) payloadLength in
      (p <| controlFrames := reverse kept |>,
       payloadLength ← r;
       if maxFrameSize <? payloadLength then Err (errPayloadTooLarge payloadLength maxFrameSize)
       else Ret (payloadFrames ++ taken, payloadLength))
  | Err e => (p, Err e)
  | Panic why => (p, Panic why)
  end.

(** [fs[len(fs)-1].DataLenPresent = false] *)
Fixpoint dropLastLen (fs : list StreamFrame) : list StreamFrame :=
  match fs with
  | [] => []
  | [f] => [mkStreamFrame (StreamID f) (FinBit f) false (Offset f) (Data f)]
  | f :: fs' => f :: dropLastLen fs'
  end.

(** Taking stream frames from the framer; [X] is what the framer changes besides: the volumes of the
    streams on a path. *)
Definition popper (X : Type) : Type :=
  Z -> streamFramer -> X -> streamFramer * X * outcome (list StreamFrame).

(** The body shared by [composeNextPacket] and its variants for a stream and for a path, which differ
    in the frames they [pop].  The loop over [PopBlockedFrame] empties the queue of BLOCKED frames. *)
Definition composeWith {X : Type} (pop : popper X) (maxFrameSize : Z) (canSendStreamFrames : bool)
    (pathID : Z) (p : packetPacker) (x : X) : packetPacker * X * outcome (list Frame) :=
  match composeControl maxFrameSize pathID p with
  | (p, Ret (payloadFrames, payloadLength)) =>
      if negb canSendStreamFrames then (p, x, Ret payloadFrames)
      else
        match pop (maxFrameSize +64 2 -64 payloadLength) (pk_framer p) x with
        | (f, x, Ret fs) =>
            (p <| pk_framer := f <| blockedFrameQueue := [] |> |>
               <| controlFrames := controlFrames p ++ map FBlocked (blockedFrameQueue f) |>, x,
             Ret (payloadFrames ++ map FStream (dropLastLen fs)))
        | (f, x, Err e) => (p <| pk_framer := f |>, x, Err e)
        | (f, x, Panic why) => (p <| pk_framer := f |>, x, Panic why)
        end
  | (p, Err e) => (p, x, Err e)
  | (p, Panic why) => (p, x, Panic why)
  end.

Definition popAny (h : connectionParametersManager) : popper unit := fun maxLen f x =>
  let '(f, fs) := Framer.PopStreamFrames (Parameters.flowControlView h) maxLen f in (f, x, Ret fs).

Definition popOfStream (h : connectionParametersManager) (streamID : Z) : popper unit := fun maxLen f x =>
  let '(f, fs) := Framer.PopStreamFramesOfOneStream (Parameters.flowControlView h) maxLen streamID f in
  (f, x, Ret fs).

Definition composeNextPacket (maxFrameSize : Z) (canSendStreamFrames : bool) (pathID : Z) (p : packetPacker)
    : packetPacker * unit * outcome (list Frame) :=
  composeWith (popAny (pk_parameters p)) maxFrameSize canSendStreamFrames pathID p tt.

Definition composeNextPacketOfStream (maxFrameSize : Z) (canSendStreamFrames : bool) (pathID streamID : Z)
    (p : packetPacker) : packetPacker * unit * outcome (list Frame) :=
  composeWith (popOfStream (pk_parameters p) streamID) maxFrameSize canSendStreamFrames pathID p tt.

Definition packCryptoPacket (rand : option (Z * Z)) (p : packetPacker) (pth : packerPath)
    : packetPacker * packerPath * outcome (option packedPacket) :=
  let '(encLevel, sealer) := GetSealerForCryptoStream cs in
  let publicHeader := getPublicHeader encLevel p pth in
  match Header.GetLength publicHeader (pk_perspective p) with
  | Ret publicHeaderLength =>
      let maxLen := MaxPacketSize -64 Overhead sealer -64 NonForwardSecurePacketSizeReduction
                      -64 publicHeaderLength in
      match Framer.PopCryptoStreamFrame (pk_parameters p) maxLen (pk_framer p) with
      | (f, Ret (Some frame)) =>
          let '(pth, raw) := writeAndSealPacket p publicHeader [FStream frame] sealer rand pth in
          (p <| pk_framer := f |>, pth,
           raw ← raw;
           Ret (Some (mkPackedPacket (hdr_PacketNumber publicHeader) raw [FStream frame] encLevel)))
      | (f, Ret None) =>
          (p <| pk_framer := f |>, pth, Panic "invalid memory address or nil pointer dereference")
      | (f, Err e) => (p <| pk_framer := f |>, pth, Err e)
      | (f, Panic why) => (p <| pk_framer := f |>, pth, Panic why)
      end
  | Err e => (p, pth, Err e)
  | Panic why => (p, pth, Panic why)
  end.

(** The queued STOP_WAITING frame of the path gets the number of the packet. *)
Definition numberStopWaiting (publicHeader : PublicHeader) (pathID : Z) (p : packetPacker) : packetPacker :=
  match stopWaiting p !! pathID with
  | Some f =>
      p <| stopWaiting := <[pathID := mkStopWaitingFrame (sw_LeastUnacked f)
                              (hdr_PacketNumberLen publicHeader) (hdr_PacketNumber publicHeader)]>
                            (stopWaiting p) |>
  | None => p
  end.
(** The frames of a packet: a PING that is first in the queue alone, or what is composed. *)
Definition payloadOf {X : Type} (pop : popper X) (publicHeader : PublicHeader) (publicHeaderLength : Z)
    (encLevel : EncryptionLevel) (sealer : Sealer) (pathID : Z) (p : packetPacker) (x : X)
    : packetPacker * X * outcome (list Frame) :=
  match controlFrames p with
  | FPing ping :: rest => (p <| controlFrames := rest |>, x, Ret [FPing ping])
  | _ =>
      composeWith pop (MaxPacketSize -64 Overhead sealer -64 publicHeaderLength)
        (canSendData (pk_perspective p) encLevel) pathID p x
  end.

(** [p.stopWaiting[pth.pathID] = nil; p.ackFrame[pth.pathID] = nil] *)
Definition clearQueued (pathID : Z) (p : packetPacker) : packetPacker :=
  p <| stopWaiting := delete pathID (stopWaiting p) |> <| ackFrame := delete pathID (ackFrame p) |>.

(** [len(payloadFrames) == 0], or a single frame while a STOP_WAITING frame is queued *)
Definition nothingToSend (pathID : Z) (p : packetPacker) (payloadFrames : list Frame) : bool :=
  match payloadFrames with
  | [] => true
  | [_] => bool_decide (is_Some (stopWaiting p !! pathID))
  | _ => false
  end.

(** The body of [PackPacket] and of its variants. *)
Definition packWith {X : Type} (pop : popper X) (rand : option (Z * Z)) (p : packetPacker) (pth : packerPath)
    (x : X) : packetPacker * packerPath * X * outcome (option packedPacket) :=
  match Framer.HasCryptoStreamFrame (pk_parameters p) (pk_framer p) with
  | (f, Ret true) =>
      let '(p, pth, r) := packCryptoPacket rand (p <| pk_framer := f |>) pth in (p, pth, x, r)
  | (f, Ret false) =>
      let p := p <| pk_framer := f |> in
      let '(encLevel, sealer) := GetSealer cs in
      let publicHeader := getPublicHeader encLevel p pth in
      match Header.GetLength publicHeader (pk_perspective p) with
      | Ret publicHeaderLength =>
          let p := numberStopWaiting publicHeader (pth_pathID pth) p in
          match payloadOf pop publicHeader publicHeaderLength encLevel sealer (pth_pathID pth) p x with
          | (p, x, Ret payloadFrames) =>
              if nothingToSend (pth_pathID pth) p payloadFrames then (p, pth, x, Ret None)
              else
                let p := clearQueued (pth_pathID pth) p in
                let '(pth, raw) := writeAndSealPacket p publicHeader payloadFrames sealer rand pth in
                (p, pth, x,
                 raw ← raw;
                 Ret (Some (mkPackedPacket (hdr_PacketNumber publicHeader) raw payloadFrames encLevel)))
          | (p, x, Err e) => (p, pth, x, Err e)
          | (p, x, Panic why) => (p, pth, x, Panic why)
          end
      | Err e => (p, pth, x, Err e)
      | Panic why => (p, pth, x, Panic why)
      end
  | (f, Err e) => (p <| pk_framer := f |>, pth, x, Err e)
  | (f, Panic why) => (p <| pk_framer := f |>, pth, x, Panic why)
  end.

Definition PackPacket (rand : option (Z * Z)) (p : packetPacker) (pth : packerPath)
    : packetPacker * packerPath * unit * outcome (option packedPacket) :=
  packWith (popAny (pk_parameters p)) rand p pth tt.

Definition PackPacketOfStream (rand : option (Z * Z)) (streamID : Z) (p : packetPacker) (pth : packerPath)
    : packetPacker * packerPath * unit * outcome (option packedPacket) :=
  packWith (popOfStream (pk_parameters p) streamID) rand p pth tt.

(** [leastUnacked] is what the sent packet handler of the path reports. *)
Definition PackPing (rand : option (Z * Z)) (ping : PingFrame) (leastUnacked : Z) (p : packetPacker)
    (pth : packerPath) : packetPacker * packerPath * unit * outcome (option packedPacket) :=
  PackPacket rand (p <| controlFrames := FPing ping :: controlFrames p |>)
    (pth <| pth_leastUnacked := leastUnacked |>).

Definition PackConnectionClose (rand : option (Z * Z)) (ccf : ConnectionCloseFrame) (p : packetPacker)
    (pth : packerPath) : packetPacker * packerPath * outcome packedPacket :=
  let '(encLevel, sealer) := GetSealer cs in
  let ph := getPublicHeader encLevel p pth in
  let '(pth, raw) := writeAndSealPacket p ph [FConnectionClose ccf] sealer rand pth in
  (p, pth, raw ← raw; Ret (mkPackedPacket (hdr_PacketNumber ph) raw [FConnectionClose ccf] encLevel)).

Definition PackAckPacket (rand : option (Z * Z)) (p : packetPacker) (pth : packerPath)
    : packetPacker * packerPath * outcome packedPacket :=
  match ackFrame p !! pth_pathID pth with
  | None => (p, pth, Err errNoAckFrame)
  | Some ack =>
      let '(encLevel, sealer) := GetSealer cs in
      let ph := getPublicHeader encLevel p pth in
      let p := numberStopWaiting ph (pth_pathID pth) p in
      let frames := FAck ack :: match stopWaiting p !! pth_pathID pth with
                                | Some f => [FStopWaiting f]
                                | None => []
                                end in
      let '(pth, raw) := writeAndSealPacket p ph frames sealer rand pth in
      (clearQueued (pth_pathID pth) p, pth,
       raw ← raw; Ret (mkPackedPacket (hdr_PacketNumber ph) raw frames encLevel))
  end.

(** [packetFrames] and [level] are the fields of the packet sent before. *)
Definition PackHandshakeRetransmission (rand : option (Z * Z)) (packetFrames : list Frame)
    (level : EncryptionLevel) (p : packetPacker) (pth : packerPath)
    : packetPacker * packerPath * outcome packedPacket :=
  if bool_decide (level = EncryptionForwardSecure) then (p, pth, Err errForwardSecureRetransmission)
  else
    match GetSealerWithEncryptionLevel cs level with
    | Ret sealer =>
        match stopWaiting p !! pth_pathID pth with
        | None => (p, pth, Err errNoStopWaiting)
        | Some f =>
            let ph := getPublicHeader level p pth in
            let f := mkStopWaitingFrame (sw_LeastUnacked f) (hdr_PacketNumberLen ph) (hdr_PacketNumber ph) in
            let frames := FStopWaiting f :: packetFrames in
            let p := p <| stopWaiting := delete (pth_pathID pth) (stopWaiting p) |> in
            let '(pth, raw) := writeAndSealPacket p ph frames sealer rand pth in
            (p, pth, raw ← raw; Ret (mkPackedPacket (hdr_PacketNumber ph) raw frames level))
        end
    | Err e => (p, pth, Err e)
    | Panic why => (p, pth, Panic why)
    end.

(** *** Packets for the streams of a path *)
Section Path.
Context {F : Type} (positive : F -> bool) (minus : F -> Z -> F).
Context (pathScheduler : string) (streamIDs : list Z) (cid : Z).

Definition popOfPath (h : connectionParametersManager) : popper (Z -> F) := fun maxLen f volume =>
  Framer.PopStreamFramesOfPath (Parameters.flowControlView h) positive minus pathScheduler maxLen streamIDs
    cid volume f.

Definition composeNextPacketOfPath (maxFrameSize : Z) (canSendStreamFrames : bool) (pathID : Z)
    (p : packetPacker) (volume : Z -> F) : packetPacker * (Z -> F) * outcome (list Frame) :=
  composeWith (popOfPath (pk_parameters p)) maxFrameSize canSendStreamFrames pathID p volume.

Definition PackPacketOfPath (rand : option (Z * Z)) (p : packetPacker) (pth : packerPath) (volume : Z -> F)
    : packetPacker * packerPath * (Z -> F) * outcome (option packedPacket) :=
  packWith (popOfPath (pk_parameters p)) rand p pth volume.
End Path.
End Packer.
End Packer.

(** ** Lengths of frames *)

(** The frames whose [MinLength] is the number of bytes written. *)
Definition counted (f : Frame) : bool :=
  match f with FStream _ | FPaths _ => false | _ => true end.

Lemma codec_length {F} (wr : F -> Writer unit) len parse (f : F) o :
  codec_ok wr len parse f -> wr f = (o, Ret tt) -> len f = Ret (Z.of_nat (length o)).
Proof. intros (bs & Hw & _ & Hl & _) Hw'. rewrite Hw in Hw'. by injection Hw' as <-. Qed.

Section Lengths.
Context (parseIPv6 : list Z -> option (list Z)) (now version : Z) (hdr : PublicHeader) (level : EncryptionLevel).

Lemma counted_length f o :
  counted f = true -> wf_frame hdr level f -> writeFrame parseIPv6 now version f = (o, Ret tt) ->
  minLength f = Ret (Z.of_nat (length o)).
Proof.
  destruct f as [f|f|f|f|f|f|f|f|f|f|f|f]; intros Hc Hwf Hw; try done; cbn [minLength writeFrame wf_frame] in *.
  - destruct Hwf as (H1 & H2 & H3). destruct (ack_codec version now f H1 H2 H3) as (bs & Hw' & _ & _ & Hl & _).
    rewrite Hw in Hw'. by injection Hw' as ->.
  - destruct Hwf as (? & ? & ?). exact (codec_length _ _ _ f o (rst_stream_codec version f ltac:(done) ltac:(done) ltac:(done)) Hw).
  - destruct Hwf as (? & ? & ?). exact (codec_length _ _ _ f o (connection_close_codec version f ltac:(done) ltac:(done) ltac:(done)) Hw).
  - destruct Hwf as (? & ? & ? & ?). exact (codec_length _ _ _ f o (goaway_codec version f ltac:(done) ltac:(done) ltac:(done) ltac:(done)) Hw).
  - destruct Hwf as (? & ?). exact (codec_length _ _ _ f o (window_update_codec version f ltac:(done) ltac:(done)) Hw).
  - exact (codec_length _ _ _ f o (blocked_codec version f Hwf) Hw).
  - destruct Hwf as (_ & _ & H1 & H2 & H3 & H4).
    destruct (stop_waiting_roundtrip version f [] H1 H2 H3 H4) as (bs & Hw' & _ & Hl & _).
    rewrite Hw in Hw'. by injection Hw' as ->.
  - exact (codec_length _ _ _ f o (ping_codec version f) Hw).
  - exact (codec_length _ _ _ f o (add_address_codec version f Hwf) Hw).
  - destruct Hwf as (H1 & H2 & H3). destruct (close_path_codec version f H1 H2 H3) as (bs & Hw' & _ & Hl & _).
    rewrite Hw in Hw'. by injection Hw' as ->.
Qed.

Lemma ranges_length ranges largest lowest :
  wf_ranges ranges largest lowest -> first_gap_fits ranges ->
  0 <= getMissingSequenceNumberDeltaLen ranges largest lowest <= 6 /\
  (HasMissingRanges ranges = true -> 2 <= numWritableNackRanges ranges <= 255).
Proof.
  intros Hwf Hg. destruct (section_roundtrip true 0 Ack.errInconsistentNumber _ _ _ Hwf Hg) as [Hn _].
  destruct (deltaLen_spec _ _ _ Hwf) as [Hl _]. pose proof (valid_len_nat _ Hl). split; [lia|done].
Qed.

Lemma counted_bound f n :
  counted f = true -> wf_frame hdr level f -> minLength f = Ret n -> 0 < n < 4000.
Proof.
  assert (Hlen : forall p, 1 <= GetPacketNumberLength p <= 6)
    by (intros p; pose proof (valid_len_nat _ (GetPacketNumberLength_valid p)); lia).
  destruct f as [f|f|f|f|f|f|f|f|f|f|f|f]; intros Hc Hwf Hn; try done; cbn [minLength wf_frame] in *.
  - destruct Hwf as (_ & H1 & H2). unfold Ack.MinLength in Hn. injection Hn as <-.
    destruct (ranges_length _ _ _ H1 H2) as [Hd Hw]. specialize (Hlen (LargestAcked f)).
    set (dl := getMissingSequenceNumberDeltaLen _ _ _) in *. set (k := numWritableNackRanges _) in *.
    destruct (HasMissingRanges _); [specialize (Hw eq_refl)|].
    + assert (0 <= (1 + dl) * k <= 7 * 255) by nia. usmall. repeat case_match; usmall; lia.
    + repeat case_match; usmall; lia.
  - injection Hn as <-. lia.
  - injection Hn as <-. unfold MaxPacketSize in *. lia.
  - injection Hn as <-. unfold MaxPacketSize in *. lia.
  - injection Hn as <-. lia.
  - injection Hn as <-. lia.
  - destruct Hwf as (_ & _ & Hl & _). unfold StopWaiting.MinLength in Hn. case_match; [done|].
    injection Hn as <-. pose proof (valid_len_nat _ Hl). lia.
  - injection Hn as <-. lia.
  - destruct Hwf as (_ & _ & Hv). unfold AddAddress.MinLength in Hn.
    destruct Hv as [[Hv _]|[Hv _]]; rewrite Hv in Hn; injection Hn as <-; lia.
  - destruct Hwf as (_ & H1 & H2). unfold ClosePath.MinLength in Hn. injection Hn as <-.
    destruct (ranges_length _ _ _ H1 H2) as [Hd Hw]. specialize (Hlen (cp_LargestAcked f)).
    set (dl := getMissingSequenceNumberDeltaLen _ _ _) in *. set (k := numWritableNackRanges _) in *.
    destruct (HasMissingRanges _); [specialize (Hw eq_refl)|].
    + assert (0 <= (1 + dl) * k <= 7 * 255) by nia. usmall. lia.
    + usmall. lia.
Qed.

(** The frames are written, in [n] bytes, and can be read back. *)
Definition packs (fs : list Frame) (n : Z) : Prop :=
  exists bs, Packer.writeFrames parseIPv6 now version fs = (bs, Ret tt) /\
    payload parseIPv6 now version hdr level fs bs /\ Z.of_nat (length bs) = n.

Lemma packs_nil : packs [] 0.
Proof. exists []. split; [done|]. split; [constructor|done]. Qed.

Lemma packs_cons f fs o n :
  wf_frame hdr level f -> writeFrame parseIPv6 now version f = (o, Ret tt) ->
  delimited f = true \/ fs = [] -> packs fs n -> packs (f :: fs) (Z.of_nat (length o) + n).
Proof.
  intros Hwf Hw Hd (bs & Hbs & Hp & Hn). exists (o ++ bs). split; [|split].
  - cbn [Packer.writeFrames]. rewrite Hw. cbn. by rewrite Hbs.
  - apply payload_frame; [done..| |done]. destruct Hd as [Hd | ->]; [by left|right].
    cbn in Hbs. by injection Hbs as <-.
  - rewrite length_app. lia.
Qed.

Lemma writeFrames_app fs fs' :
  Packer.writeFrames parseIPv6 now version (fs ++ fs') =
  (Packer.writeFrames parseIPv6 now version fs;; Packer.writeFrames parseIPv6 now version fs').
Proof.
  induction fs as [|f fs IH]; cbn [app Packer.writeFrames].
  - by destruct (Packer.writeFrames parseIPv6 now version fs') as [o [[]| |]].
  - rewrite IH. unfold mbind, writer_bind. destruct (writeFrame _ _ _ f) as [o [[]| |]]; [|done..].
    destruct (Packer.writeFrames _ _ _ fs) as [o1 [[]| |]]; [|done..].
    destruct (Packer.writeFrames _ _ _ fs') as [o2 r]. by rewrite app_assoc.
Qed.

Lemma packs_app fs fs' n n' :
  Forall (fun f => delimited f = true) fs -> packs fs n -> packs fs' n' -> packs (fs ++ fs') (n + n').
Proof.
  intros Hd (bs & Hbs & Hp & Hn) (bs' & Hbs' & Hp' & Hn'). exists (bs ++ bs'). split; [|split].
  - rewrite writeFrames_app, Hbs. cbn. by rewrite Hbs'.
  - clear Hbs Hbs' Hn Hn'. induction Hp as [|fs bs Hp IH|f fs o bs Hwf Hw Hdel Hp IH]; [done| |].
    + apply payload_padding. by apply IH.
    + apply Forall_cons in Hd as [Hf Hd]. cbn [app]. rewrite <- app_assoc.
      apply payload_frame; [done..|by left|by apply IH].
  - rewrite length_app. lia.
Qed.

Lemma packs_one f n :
  counted f = true -> wf_frame hdr level f -> minLength f = Ret n -> packs [f] n /\ 0 < n < 4000.
Proof.
  intros Hc Hwf Hn. split; [|by eapply counted_bound].
  destruct (frame_codec (fun _ => EmptyString) parseIPv6 now version hdr level f Hwf) as (tb & bs & Hw & _).
  pose proof (counted_length f _ Hc Hwf Hw) as Hl. rewrite Hn in Hl. injection Hl as ->.
  rewrite <- (Z.add_0_r (Z.of_nat _)). exact (packs_cons f [] (tb :: bs) 0 Hwf Hw (or_intror eq_refl) packs_nil).
Qed.

Lemma counted_minLength f : counted f = true -> wf_frame hdr level f -> exists n, minLength f = Ret n.
Proof.
  intros Hc Hwf.
  destruct (frame_codec (fun _ => EmptyString) parseIPv6 now version hdr level f Hwf) as (tb & bs & Hw & _).
  eexists. by eapply counted_length.
Qed.

(** *** Control frames *)
Definition control_ok (f : Frame) : Prop := counted f = true /\ wf_frame hdr level f.

Lemma counted_delimited fs : Forall control_ok fs -> Forall (fun f => delimited f = true) fs.
Proof. intros H. eapply Forall_impl; [exact H|]. by intros [] [? _]. Qed.

Lemma takeControlFrames_spec maxFrameSize reversed : forall len,
  Forall control_ok reversed -> 0 <= len <= maxFrameSize -> maxFrameSize < 2 ^ 32 ->
  exists taken kept n,
    Packer.takeControlFrames maxFrameSize reversed len = (taken, kept, Ret (len + n)) /\
    reversed = taken ++ kept /\ packs taken n /\ len + n <= maxFrameSize.
Proof.
  induction reversed as [|f rest IH]; intros len Hall Hl Hm.
  - exists [], [], 0. rewrite Z.add_0_r. split; [done|]. split; [done|]. split; [apply packs_nil|lia].
  - apply Forall_cons in Hall as [[Hc Hwf] Hall]. destruct (counted_minLength f Hc Hwf) as [n Hn].
    destruct (packs_one f n Hc Hwf Hn) as [Hp Hb]. cbn [Packer.takeControlFrames]. rewrite Hn. usmall.
    destruct (Z.ltb_spec maxFrameSize (len + n)).
    + exists [], (f :: rest), 0. rewrite Z.add_0_r. split; [done|]. split; [done|]. split; [apply packs_nil|lia].
    + destruct (IH (len + n) Hall) as (taken & kept & k & -> & -> & Hpk & Hle); [lia..|].
      exists (f :: taken), kept, (n + k). rewrite Z.add_assoc. split; [done|]. split; [done|].
      split; [|lia]. apply (packs_app [f] taken n k); [|done..].
      apply counted_delimited. by repeat constructor.
Qed.

Lemma takeQueued_spec f fs n :
  (forall g, f = Some g -> control_ok g) -> packs fs n -> Forall control_ok fs -> 0 <= n < 2 ^ 32 ->
  exists fs' k, Packer.takeQueued f (fs, n) = Ret (fs', n + k) /\ packs fs' (n + k) /\ Forall control_ok fs' /\
    0 <= k < 4000 /\ fs' = fs ++ option_list f /\ (f = None -> k = 0) /\
    (forall g, f = Some g -> minLength g = Ret k).
Proof.
  intros Hf Hp Hall Hn. destruct f as [f|]; cbn [Packer.takeQueued option_list].
  - destruct (Hf f eq_refl) as [Hc Hwf]. destruct (counted_minLength f Hc Hwf) as [k Hk].
    destruct (packs_one f k Hc Hwf Hk) as [Hpk Hb]. rewrite Hk. cbn [mbind outcome_bind fst snd].
    exists (fs ++ [f]), k. usmall. split; [done|].
    split; [apply packs_app; [by apply counted_delimited|done..]|].
    split; [apply Forall_app_2; [done|by repeat constructor]|]. split; [lia|]. split; [done|]. split; [done|].
    by intros g [= ->].
  - exists fs, 0. rewrite Z.add_0_r, app_nil_r. split_and!; done || lia.
Qed.

(** *** Stream frames *)
Definition streamLen (fs : list StreamFrame) : Z := match fs with [] => 0 | _ => totalLen fs - 2 end.

Lemma stream_packs f fs n :
  wf_frame hdr level (FStream f) -> DataLenPresent f = true \/ fs = [] -> packs fs n ->
  packs (FStream f :: fs) (frameLen f + n).
Proof.
  intros Hwf Hd Hp. pose proof Hwf as [Hwf' _].
  destruct (stream_codec version f [] Hwf') as (bs & h & Hw & _ & _ & Hm & Hl & _); [by right|].
  assert (frameLen f = Z.of_nat (length bs)) as -> by (unfold frameLen, headerLen; rewrite Hm; lia).
  by apply packs_cons.
Qed.

Lemma dropLastLen_packs fs :
  Forall (fun f => DataLenPresent f = true) fs -> Forall (fun f => wf_frame hdr level (FStream f)) fs ->
  packs (map FStream (Packer.dropLastLen fs)) (streamLen fs) /\ 0 <= streamLen fs.
Proof.
  induction fs as [|f fs IH]; intros Hd Hwf; [split; [apply packs_nil|done]|].
  apply Forall_cons in Hd as [Hf Hd]. apply Forall_cons in Hwf as [Hw Hwf].
  destruct fs as [|f' fs].
  - cbn [Packer.dropLastLen map streamLen]. set (g := mkStreamFrame _ _ _ _ _).
    destruct (headerLen_eq f) as [Hh Hr]. destruct (headerLen_eq g) as [Hg Hgr]. rewrite Hf in Hh.
    assert (He : headerLen g = headerLen f - 2).
    { rewrite Hg, Hh. cbn [DataLenPresent g]. change (Frames.Stream.calculateStreamIDLength g) with
        (Frames.Stream.calculateStreamIDLength f). change (Frames.Stream.getOffsetLength g) with
        (Frames.Stream.getOffsetLength f). lia. }
    rewrite totalLen_cons. change (totalLen []) with 0.
    pose proof (stream_packs g [] 0) as Hp. split.
    + replace (headerLen f + DataLen f + 0 - 2) with (frameLen g + 0).
      * apply Hp; [|by right|apply packs_nil]. exact Hw.
      * unfold frameLen. rewrite He. unfold DataLen. cbn [Data g]. lia.
    + unfold DataLen in *. lia.
  - destruct (IH Hd Hwf) as [Hp Hn]. change (Packer.dropLastLen (f :: f' :: fs)) with
      (f :: Packer.dropLastLen (f' :: fs)). cbn [map]. change (streamLen (f :: f' :: fs)) with
      (totalLen (f :: f' :: fs) - 2). rewrite totalLen_cons.
    change (streamLen (f' :: fs)) with (totalLen (f' :: fs) - 2) in *.
    pose proof (headerLen_range f). split; [|unfold DataLen; lia].
    replace (headerLen f + DataLen f + totalLen (f' :: fs) - 2) with (frameLen f + (totalLen (f' :: fs) - 2))
      by (unfold frameLen; lia).
    apply stream_packs; [done|by left|done].
Qed.
End Lengths.

(** ** Composing a packet *)

(** What the packer needs of its state when it packs for the path [pth].  The control frames are well
    formed whatever packet carries them; [MinLength] of the queued ACK leaves room for the header. *)
Record packable (cs : CryptoSetup) (p : packetPacker) (pth : packerPath) : Prop := {
  pb_connID : 0 < pk_connectionID p < 2 ^ 64;
  pb_version : 0 <= pk_version p < 1000;
  pb_perspective : perspective (pk_parameters p) = pk_perspective p;
  pb_path : is_u8 (pth_pathID pth);
  pb_nonce : cs_DiversificationNonce cs = [] \/
    (length (cs_DiversificationNonce cs) = 32%nat /\ is_bytes (cs_DiversificationNonce cs));
  pb_least : 1 <= pth_leastUnacked pth <= Generator.Peek (pth_generator pth);
  pb_number : Generator.Peek (pth_generator pth) < 2 ^ 62 /\
    Generator.Peek (pth_generator pth) - pth_leastUnacked pth < 2 ^ 47;
  pb_control : Forall (fun f => counted f = true /\ forall hdr level, wf_frame hdr level f) (controlFrames p);
  pb_ack : forall a, ackFrame p !! pth_pathID pth = Some a ->
    (forall hdr level, wf_frame hdr level (FAck a)) /\ forall n, Ack.MinLength a = Ret n -> n <= 1200;
  pb_stop : forall s, stopWaiting p !! pth_pathID pth = Some s ->
    pth_leastUnacked pth <= sw_LeastUnacked s <= Generator.Peek (pth_generator pth)
}.

(** What a sealer promises: the sealed payload is longer by [Overhead], and [Open] at the peer gets the
    payload back. *)
Record sealer_ok (Open : list Z -> Z -> list Z -> outcome (list Z * EncryptionLevel)) (level : EncryptionLevel)
    (s : Sealer) : Prop := {
  so_overhead : 0 <= Overhead s <= 40;
  so_length : forall bs pn ad, Z.of_nat (length (Seal s bs pn ad)) = Z.of_nat (length bs) + Overhead s;
  so_open : forall bs pn ad, Open (Seal s bs pn ad) pn ad = Ret (bs, level)
}.

(** What taking stream frames promises. *)
Definition popper_ok {X : Type} (pop : Packer.popper X) : Prop :=
  forall maxLen f x hist W E, snd_inv f hist W E -> 0 <= maxLen < 2 ^ 63 ->
  exists f' x' res, pop maxLen f x = (f', x', Ret res) /\ snd_inv f' hist W (E ++ res) /\
    totalLen res <= maxLen /\ Forall (fun f => DataLenPresent f = true) res.

Lemma popAny_ok h : popper_ok (Packer.popAny h).
Proof.
  intros maxLen f [] hist W E Hi Hm. unfold Packer.popAny.
  pose proof (PopStreamFrames_pops (Parameters.flowControlView h) f hist W E maxLen Hi Hm) as Hp.
  destruct (Framer.PopStreamFrames _ maxLen f) as [f' res]. destruct Hp as [H1 H2 H3 _].
  exists f', tt, res. by split_and!.
Qed.

Lemma popOfStream_ok h sid : popper_ok (Packer.popOfStream h sid).
Proof.
  intros maxLen f [] hist W E Hi Hm. unfold Packer.popOfStream.
  pose proof (PopStreamFramesOfOneStream_pops (Parameters.flowControlView h) f hist W E maxLen sid Hi Hm)
    as Hp.
  destruct (Framer.PopStreamFramesOfOneStream _ maxLen sid f) as [f' res]. destruct Hp as [H1 H2 H3 _].
  exists f', tt, res. by split_and!.
Qed.

Lemma content_u8 w i : is_bytes w -> is_u8 (content w i).
Proof.
  intros Hw. unfold content. destruct (w !! Z.to_nat i) as [b|] eqn:E; cbn [default]; [|unfold in_range; lia].
  unfold is_bytes in Hw. rewrite Forall_forall in Hw. apply Hw, list_elem_of_lookup. eauto.
Qed.

Lemma frame_inv_wf f hist W E E' fr :
  snd_inv f hist W E -> frame_inv hist W E' fr -> (forall id, is_bytes (W id)) -> DataLen fr <= MaxPacketSize ->
  wf_StreamFrame fr.
Proof.
  intros Hi [Hh [[V1 V2 V3 _] Hd] _] HW Hm. pose proof (si_len _ _ _ _ Hi (StreamID fr)) as Hl.
  destruct (mo_range _ _ (si_map _ _ _ _ Hi) _ Hh) as [Hr _]. unfold DataLen in *.
  split; [unfold in_range; lia|]. split; [unfold in_range; lia|]. split; [|split; [done|split; [unfold DataLen; lia|done]]].
  apply Forall_forall. intros b Hb. apply list_elem_of_lookup in Hb as [i Hb].
  rewrite (V3 i b Hb). by apply content_u8.
Qed.

Lemma dataLen_total fs fr : fr ∈ fs -> DataLen fr <= totalLen fs - 2.
Proof.
  induction fs as [|g fs IH]; intros Hin; [by apply elem_of_nil in Hin|].
  rewrite totalLen_cons. pose proof (headerLen_range g). pose proof (totalLen_nonneg fs).
  apply elem_of_cons in Hin as [->|Hin]; [lia|]. specialize (IH Hin). unfold DataLen in *. lia.
Qed.

Section Compose.
Context (parseIPv6 : list Z -> option (list Z)) (now version : Z) (hdr : PublicHeader) (level : EncryptionLevel).

(** The queued frames of a path, first in a packet. *)
Definition queuedFirst (pathID : Z) (p : packetPacker) : list Frame :=
  option_list (FStopWaiting <$> stopWaiting p !! pathID) ++ option_list (FAck <$> ackFrame p !! pathID).

Lemma composeControl_spec maxFrameSize pathID p :
  (forall s, stopWaiting p !! pathID = Some s -> control_ok hdr level (FStopWaiting s)) ->
  (forall a, ackFrame p !! pathID = Some a ->
     control_ok hdr level (FAck a) /\ forall n, Ack.MinLength a = Ret n -> n <= 1200) ->
  Forall (control_ok hdr level) (controlFrames p) -> 1207 <= maxFrameSize < 2 ^ 32 ->
  exists taken kept n,
    Packer.composeControl maxFrameSize pathID p =
      (p <| controlFrames := kept |>, Ret (queuedFirst pathID p ++ taken, n)) /\
    controlFrames p = kept ++ reverse taken /\
    packs parseIPv6 now version hdr level (queuedFirst pathID p ++ taken) n /\ 0 <= n <= maxFrameSize /\
    Forall (control_ok hdr level) (queuedFirst pathID p ++ taken).
Proof.
  intros Hs Ha Hc Hm. unfold Packer.composeControl.
  destruct (takeQueued_spec parseIPv6 now version hdr level (FStopWaiting <$> stopWaiting p !! pathID) [] 0)
    as (fs1 & k1 & E1 & Hp1 & Ho1 & Hb1 & Hf1 & Hn1 & Hk1);
    [by intros g (s & Hg & ->)%fmap_Some_1; apply Hs|apply packs_nil|constructor|lia|].
  rewrite E1. cbn [mbind outcome_bind].
  destruct (takeQueued_spec parseIPv6 now version hdr level (FAck <$> ackFrame p !! pathID) fs1 (0 + k1))
    as (fs2 & k2 & E2 & Hp2 & Ho2 & Hb2 & Hf2 & Hn2 & Hk2);
    [by intros g (s & Hg & ->)%fmap_Some_1; apply Ha|done|done|lia|].
  rewrite E2. cbn [mbind outcome_bind].
  assert (Hk1' : k1 <= 7).
  { destruct (stopWaiting p !! pathID) as [s|] eqn:Es; cbn in Hn1, Hk1; [|rewrite Hn1 by done; lia].
    specialize (Hk1 _ eq_refl). destruct (Hs s eq_refl) as [_ (_ & _ & Hl & _)]. pose proof (valid_len_nat _ Hl).
    cbn [minLength] in Hk1. unfold StopWaiting.MinLength in Hk1. case_match; [done|]. injection Hk1 as <-. lia. }
  assert (Hk2' : k2 <= 1200).
  { destruct (ackFrame p !! pathID) as [a|] eqn:Ea; cbn in Hn2, Hk2; [|rewrite Hn2 by done; lia].
    specialize (Hk2 _ eq_refl). destruct (Ha a eq_refl) as [_ Hl]. by apply Hl. }
  destruct (takeControlFrames_spec parseIPv6 now version hdr level maxFrameSize (reverse (controlFrames p)) (0 + k1 + k2))
    as (taken & kept & k & -> & Hrev & Hpk & Hle); [by apply Forall_reverse|lia..|].
  cbn [mbind outcome_bind]. destruct (Z.ltb_spec maxFrameSize (0 + k1 + k2 + k)); [lia|].
  assert (Hq : queuedFirst pathID p = fs2) by (unfold queuedFirst; by rewrite Hf2, Hf1).
  exists taken, (reverse kept), (0 + k1 + k2 + k). rewrite Hq. split; [done|]. split.
  { rewrite <- reverse_app, <- Hrev. by rewrite reverse_involutive. }
  assert (Htk : Forall (control_ok hdr level) taken).
  { apply Forall_reverse in Hc. rewrite Hrev in Hc. by apply Forall_app in Hc as [? _]. }
  assert (0 <= k) by (destruct Hpk as (? & _ & _ & <-); lia).
  split; [|split; [lia|by apply Forall_app_2]]. apply packs_app; [by eapply counted_delimited|done..].
Qed.

(** The stream frames [res] are what the framer [f] handed out; the BLOCKED frames it queued are taken from it. *)
Definition took {X : Type} (pop : Packer.popper X) (can : bool) (f : streamFramer) (x : X) (res : list StreamFrame)
    (blocked : list BlockedFrame) (f' : streamFramer) (x' : X) : Prop :=
  if can then exists maxLen g, 0 <= maxLen <= MaxPacketSize + 2 /\ pop maxLen f x = (g, x', Ret res) /\ blocked = blockedFrameQueue g /\
    f' = g <| blockedFrameQueue := [] |>
  else res = [] /\ blocked = [] /\ f' = f /\ x' = x.

Lemma composeWith_spec {X : Type} (pop : Packer.popper X) maxFrameSize can pathID p x hist W E :
  popper_ok pop -> snd_inv (pk_framer p) hist W E -> (forall id, is_bytes (W id)) ->
  (can = true -> atMostUnencrypted level = false) ->
  (forall s, stopWaiting p !! pathID = Some s -> control_ok hdr level (FStopWaiting s)) ->
  (forall a, ackFrame p !! pathID = Some a ->
     control_ok hdr level (FAck a) /\ forall n, Ack.MinLength a = Ret n -> n <= 1200) ->
  Forall (control_ok hdr level) (controlFrames p) -> 1207 <= maxFrameSize <= MaxPacketSize ->
  exists p' x' taken kept res n,
    Packer.composeWith pop maxFrameSize can pathID p x =
      (p', x', Ret (queuedFirst pathID p ++ taken ++ map FStream (Packer.dropLastLen res))) /\
    controlFrames p = kept ++ reverse taken /\
    (exists blocked, controlFrames p' = kept ++ map FBlocked blocked /\ took pop can (pk_framer p) x res blocked (pk_framer p') x') /\
    stopWaiting p' = stopWaiting p /\ ackFrame p' = ackFrame p /\ pk_version p' = pk_version p /\
    pk_perspective p' = pk_perspective p /\ snd_inv (pk_framer p') hist W (E ++ res) /\
    packs parseIPv6 now version hdr level
      (queuedFirst pathID p ++ taken ++ map FStream (Packer.dropLastLen res)) n /\ n <= maxFrameSize.
Proof.
  intros Hpop Hi HW Hcan Hs Ha Hc Hm. unfold MaxPacketSize in Hm. unfold Packer.composeWith.
  destruct (composeControl_spec maxFrameSize pathID p Hs Ha Hc ltac:(lia))
    as (taken & kept & n & -> & Hk & Hp & Hn & Hall).
  destruct can; cbn [negb].
  - set (p1 := p <| controlFrames := kept |>). change (pk_framer p1) with (pk_framer p).
    replace (maxFrameSize +64 2 -64 n) with (maxFrameSize + 2 - n) by (usmall; lia).
    destruct (Hpop (maxFrameSize + 2 - n) (pk_framer p) x hist W E Hi ltac:(lia))
      as (f' & x' & res & Epop & Hi' & Hl & Hd). rewrite Epop.
    assert (Hwf : Forall (fun fr => wf_frame hdr level (FStream fr)) res).
    { apply Forall_forall. intros fr Hin. cbn [wf_frame]. rewrite (Hcan eq_refl). split; [|done].
      pose proof (si_frames _ _ _ _ Hi') as Hfr. rewrite Forall_forall in Hfr.
      eapply frame_inv_wf; [exact Hi'|apply Hfr, elem_of_app; by right|done|].
      pose proof (dataLen_total res fr Hin). unfold MaxPacketSize. lia. }
    destruct (dropLastLen_packs parseIPv6 now version hdr level res Hd Hwf) as [Hpr Hnr].
    eexists _, x', taken, kept, res, (n + streamLen res). split; [by rewrite <- app_assoc|].
    split; [done|]. split; [eexists; split; [done|]; exists (maxFrameSize + 2 - n), f'; split; [unfold MaxPacketSize; lia|done]|]. do 4 (split; [done|]).
    split; [by destruct Hi'; split|]. split.
    + rewrite app_assoc. apply packs_app; [by eapply counted_delimited|done..].
    + unfold streamLen in *. destruct res; [lia|]. lia.
  - eexists _, x, taken, kept, [], n. cbn [Packer.dropLastLen map]. rewrite !app_nil_r. split; [done|].
    split; [done|]. split; [exists []; cbn; by rewrite app_nil_r|]. do 4 (split; [done|]).
    split; [done|]. split; [done|lia].
Qed.
End Compose.

(** ** Packets *)
Section Pack.
Context (parseIPv6 : list Z -> option (list Z)) (now : Z) (cs : CryptoSetup).
Context (Open : list Z -> Z -> list Z -> outcome (list Z * EncryptionLevel)).

(** The header of a packet is a header of a regular packet, of at most 52 bytes, and its number can be
    told from its low bytes. *)
Lemma getPublicHeader_ok level p pth :
  packable cs p pth ->
  let hdr := Packer.getPublicHeader cs level p pth in
  wf_regular hdr (pk_version p) (pk_perspective p) /\
  Z.of_nat (length (header_bytes hdr (pk_version p))) <= 52 /\
  hdr_PacketNumber hdr = Generator.Peek (pth_generator pth) /\
  hdr_PacketNumberLen hdr = GetPacketNumberLengthForPublicHeader (hdr_PacketNumber hdr) (pth_leastUnacked pth) /\
  valid_len (hdr_PacketNumberLen hdr) /\
  2 * (hdr_PacketNumber hdr - pth_leastUnacked pth) < 2 ^ (8 * hdr_PacketNumberLen hdr).
Proof.
  intros [H1 H2 H3 H4 H5 H6 [H7 H7'] _ _ _] hdr.
  destruct (header_len_spec (Generator.Peek (pth_generator pth)) (pth_leastUnacked pth)) as [Hv Hd]; [lia..|].
  assert (Hwf : wf_regular hdr (pk_version p) (pk_perspective p)).
  { unfold hdr, Packer.getPublicHeader. split; cbn; try done.
    - intros Hvf. rewrite Hvf. apply andb_true_iff in Hvf as [Hc _].
      destruct (pk_perspective p); [done|]. split; [done|]. split; [lia|done].
    - unfold in_range. lia.
    - destruct (_ && (VersionMP <=? _)); [lia|]. unfold Parameters.TruncateConnectionID. rewrite H3.
      destruct (pk_perspective p); cbn; [|lia]. by destruct (truncateConnectionID _); [|lia].
    - unfold Header.hasNonce. cbn. destruct (isServer _ && _) eqn:E; [|done]. intros Hn.
      apply andb_true_iff in E as [Es _]. split; [by destruct (pk_perspective p)|].
      destruct H5 as [Hnil|H5]; [by rewrite Hnil in Hn|done].
    - by destruct (_ && (VersionMP <=? _)). }
  split; [done|]. split; [|done].
  destruct Hwf as [_ _ Hl _ _ Hn _]. pose proof (valid_len_nat _ Hl) as (_ & _ & Hl6).
  unfold header_bytes. cbn [length]. rewrite !length_app, !length_optField, length_enc, !length_le_bytes.
  assert ((if Header.hasNonce hdr then length (DiversificationNonce hdr) else 0) <= 32)%nat.
  { destruct (Header.hasNonce hdr); [|lia]. destruct (Hn eq_refl) as (_ & -> & _). lia. }
  cbn [length]. destruct (negb _), (VersionFlag hdr), (MultipathFlag hdr); lia.
Qed.

Lemma packs_nonempty version hdr level fs n bs :
  payload parseIPv6 now version hdr level fs bs -> Z.of_nat (length bs) = n -> fs <> [] -> bs <> [] /\ 0 < n.
Proof.
  intros Hp <- Hne. assert (Hbs : bs <> []).
  { destruct Hp as [|fs bs Hp|f fs o bs Hwf Hw _ Hp]; [done|done|].
    destruct (frame_codec (fun _ => EmptyString) parseIPv6 now version hdr level f Hwf) as (tb & o' & Hw' & _).
    rewrite Hw in Hw'. by injection Hw' as ->. }
  split; [done|]. destruct bs; [done|]. cbn [length]. lia.
Qed.

(** A packet that was packed: the header, the sealed payload and what they hold. *)
Record packed (p : packetPacker) (pth : packerPath) (rand : option (Z * Z)) (level : EncryptionLevel)
    (sealer : Sealer) (fs : list Frame) (pth' : packerPath) (k : packedPacket) : Prop := {
  pd_path : pth' = pth <| pth_generator := (Generator.Pop rand (pth_generator pth)).2 |>;
  pd_number : pkd_number k = Generator.Peek (pth_generator pth);
  pd_frames : pkd_frames k = fs;
  pd_level : pkd_encryptionLevel k = level;
  pd_raw : exists bs, let hdr := Packer.getPublicHeader cs level p pth in
    let ad := header_bytes hdr (pk_version p) in
    pkd_raw k = ad ++ Seal sealer bs (pkd_number k) ad /\ bs <> [] /\
    payload parseIPv6 now (pk_version p) hdr level fs bs /\
    Z.of_nat (length (pkd_raw k)) <= MaxPacketSize
}.

Lemma writeAndSeal_spec p p' pth rand level sealer fs n :
  packable cs p pth -> sealer_ok Open level sealer ->
  pk_version p' = pk_version p -> pk_perspective p' = pk_perspective p ->
  let hdr := Packer.getPublicHeader cs level p pth in
  packs parseIPv6 now (pk_version p) hdr level fs n -> fs <> [] ->
  Z.of_nat (length (header_bytes hdr (pk_version p))) + n + Overhead sealer <= MaxPacketSize ->
  exists raw pth',
    Packer.writeAndSealPacket parseIPv6 now p' hdr fs sealer rand pth = (pth', Ret raw) /\
    packed p pth rand level sealer fs pth' (mkPackedPacket (hdr_PacketNumber hdr) raw fs level).
Proof.
  intros Hp [Ho Hsl _] Hv Hpers hdr (bs & Hw & Hpay & Hn) Hne Hmax.
  destruct (getPublicHeader_ok level p pth Hp) as (Hwf & _ & Hpn & _). fold hdr in Hwf, Hpn.
  unfold Packer.writeAndSealPacket. rewrite Hv, Hpers, (regular_Write hdr _ _ Hwf). unfold write at 1. rewrite Hw.
  unfold MaxPacketSize in *.
  destruct (Z.ltb_spec 1350 (u64 (Z.of_nat (length (header_bytes hdr (pk_version p) ++ bs)) + Overhead sealer)))
    as [Hlt|_].
  { rewrite length_app in Hlt. usmall_in Hlt. lia. }
  destruct (Generator.Pop rand (pth_generator pth)) as [num gen] eqn:Epop.
  assert (num = Generator.Peek (pth_generator pth)) as -> by (unfold Generator.Pop in Epop; by injection Epop as <- _).
  rewrite Hpn, Z.eqb_refl. cbn [negb]. eexists _, _. split; [done|].
  split; cbn [pkd_number pkd_frames pkd_encryptionLevel pkd_raw]; try done.
  - by rewrite Epop.
  - exists bs. cbv zeta. fold hdr. split; [done|].
    split; [by eapply (packs_nonempty (pk_version p) hdr level fs n)|]. split; [done|].
    unfold MaxPacketSize. rewrite length_app, Nat2Z.inj_add, Hsl. lia.
Qed.

(** *** The crypto stream *)
Lemma cryptoStream_open h f s : streams (fr_streamsMap f) !! 1 = Some s -> Framer.cryptoStream h f = (f, Some s).
Proof.
  intros H1. unfold Framer.cryptoStream, StreamsMap.GetOrOpenStream. cbn. rewrite H1. cbn. rewrite H1.
  by destruct f.
Qed.

Lemma packCryptoPacket_spec level sealer rand p pth s hist W E :
  packable cs p pth -> GetSealerForCryptoStream cs = (level, sealer) -> sealer_ok Open level sealer ->
  snd_inv (pk_framer p) hist W E -> (forall id, is_bytes (W id)) ->
  streams (fr_streamsMap (pk_framer p)) !! 1 = Some s -> 0 < Stream.lenOfDataForWriting s ->
  exists f' fr pth' k hist',
    Packer.packCryptoPacket parseIPv6 now cs rand p pth = (p <| pk_framer := f' |>, pth', Ret (Some k)) /\
    packed p pth rand level sealer [FStream fr] pth' k /\ snd_inv f' hist' W (E ++ [fr]).
Proof.
  intros Hp Hs Hok Hi HW H1 Hl. unfold Packer.packCryptoPacket. rewrite Hs.
  destruct (getPublicHeader_ok level p pth Hp) as (Hwf & H52 & _).
  set (hdr := Packer.getPublicHeader cs level p pth) in *. rewrite (regular_length hdr _ _ Hwf).
  set (hl := Z.of_nat (length (header_bytes hdr (pk_version p)))) in *.
  pose proof (so_overhead _ _ _ Hok) as Hover.
  unfold MaxPacketSize, NonForwardSecurePacketSizeReduction.
  replace (1350 -64 Overhead sealer -64 50 -64 hl) with (1300 - Overhead sealer - hl) by (usmall; lia).
  pose proof (PopCryptoStreamFrame_pops (pk_parameters p) (pk_framer p) hist W E (1300 - Overhead sealer - hl) Hi
    ltac:(lia)) as Hpop.
  assert (Hr : exists f' fr, Framer.PopCryptoStreamFrame (pk_parameters p) (1300 - Overhead sealer - hl) (pk_framer p)
    = (f', Ret (Some fr))).
  { unfold Framer.PopCryptoStreamFrame, Framer.HasCryptoStreamFrame. rewrite !(cryptoStream_open _ _ s H1).
    destruct (Z.ltb_spec 0 (Stream.lenOfDataForWriting s)); [|lia].
    destruct (Stream.getDataForWriting _ s). by eexists _, _. }
  destruct Hr as (f' & fr & Hr). rewrite Hr in Hpop |- *. destruct Hpop as (Hi' & Hid & Hlen).
  pose proof (headerLen_range fr) as Hh. unfold frameLen in Hlen.
  assert (Hwff : wf_frame hdr level (FStream fr)).
  { split; [|done]. pose proof (si_frames _ _ _ _ Hi') as Hfr. rewrite Forall_forall in Hfr.
    eapply frame_inv_wf; [exact Hi'|apply Hfr, elem_of_app; right; by left|done|]. unfold MaxPacketSize. lia. }
  destruct (writeAndSeal_spec p p pth rand level sealer [FStream fr] (frameLen fr + 0) Hp Hok eq_refl eq_refl)
    as (raw & pth' & Hw & Hk).
  - apply stream_packs; [done|by right|apply packs_nil].
  - done.
  - fold hdr hl. unfold MaxPacketSize, frameLen. lia.
  - fold hdr in Hw, Hk. rewrite Hw. cbn [mbind outcome_bind]. by eexists f', fr, pth', _, _.
Qed.

(** *** Composed packets *)
Lemma numberStopWaiting_same hdr pathID p :
  controlFrames (Packer.numberStopWaiting hdr pathID p) = controlFrames p /\
  pk_framer (Packer.numberStopWaiting hdr pathID p) = pk_framer p /\
  pk_version (Packer.numberStopWaiting hdr pathID p) = pk_version p /\
  pk_perspective (Packer.numberStopWaiting hdr pathID p) = pk_perspective p /\
  ackFrame (Packer.numberStopWaiting hdr pathID p) = ackFrame p.
Proof. unfold Packer.numberStopWaiting. by destruct (stopWaiting p !! pathID). Qed.

Lemma numberStopWaiting_lookup hdr pathID p :
  stopWaiting (Packer.numberStopWaiting hdr pathID p) !! pathID =
  (fun f => mkStopWaitingFrame (sw_LeastUnacked f) (hdr_PacketNumberLen hdr) (hdr_PacketNumber hdr))
    <$> stopWaiting p !! pathID.
Proof.
  unfold Packer.numberStopWaiting. destruct (stopWaiting p !! pathID) as [f|] eqn:E; cbn.
  - by rewrite lookup_insert_eq.
  - by rewrite E.
Qed.

Lemma canSendData_level pers level : Packer.canSendData pers level = true -> atMostUnencrypted level = false.
Proof. by destruct pers, level. Qed.

Lemma stop_control_ok level p pth s :
  packable cs p pth -> let hdr := Packer.getPublicHeader cs level p pth in
  stopWaiting (Packer.numberStopWaiting hdr (pth_pathID pth) p) !! pth_pathID pth = Some s ->
  control_ok hdr level (FStopWaiting s).
Proof.
  intros Hp hdr Hs. destruct (getPublicHeader_ok level p pth Hp) as (_ & _ & Hpn & _ & Hv & Hd). fold hdr in Hpn, Hv, Hd.
  rewrite numberStopWaiting_lookup in Hs. apply fmap_Some_1 in Hs as (s0 & Hs0 & ->).
  pose proof (pb_stop _ _ _ Hp _ Hs0). pose proof (pb_least _ _ _ Hp). pose proof (pb_number _ _ _ Hp).
  split; [done|]. cbn [wf_frame sw_LeastUnacked sw_PacketNumber sw_PacketNumberLen].
  split; [done|]. split; [done|]. split; [done|]. rewrite Hpn in *. clearbody hdr. lia.
Qed.

(** The frames of a packet that is no crypto packet: a PING alone, or the queued frames, control frames
    from the end of the queue, and stream frames. *)
Record composed {X : Type} (pop : Packer.popper X) (level : EncryptionLevel) (x x' : X) (pathID : Z) (p p' : packetPacker) (payloadFrames : list Frame) (res : list StreamFrame) : Prop := {
  cd_same : stopWaiting p' = stopWaiting p /\ ackFrame p' = ackFrame p /\ pk_version p' = pk_version p /\
    pk_perspective p' = pk_perspective p;
  cd_frames :
    (exists ping, controlFrames p = FPing ping :: controlFrames p' /\ payloadFrames = [FPing ping] /\ res = []) \/
    exists taken kept blocked, controlFrames p = kept ++ reverse taken /\ controlFrames p' = kept ++ map FBlocked blocked /\
      took pop (Packer.canSendData (pk_perspective p) level) (pk_framer p) x res blocked (pk_framer p') x' /\
      payloadFrames = queuedFirst pathID p ++ taken ++ map FStream (Packer.dropLastLen res)
}.

Lemma payloadOf_spec {X : Type} (pop : Packer.popper X) level sealer p pth x hist W E :
  popper_ok pop -> packable cs p pth -> sealer_ok Open level sealer ->
  snd_inv (pk_framer p) hist W E -> (forall id, is_bytes (W id)) ->
  let hdr := Packer.getPublicHeader cs level p pth in
  let hl := Z.of_nat (length (header_bytes hdr (pk_version p))) in
  let p1 := Packer.numberStopWaiting hdr (pth_pathID pth) p in
  exists p' x' fs res n,
    Packer.payloadOf pop hdr hl level sealer (pth_pathID pth) p1 x = (p', x', Ret fs) /\
    composed pop level x x' (pth_pathID pth) p1 p' fs res /\ snd_inv (pk_framer p') hist W (E ++ res) /\
    packs parseIPv6 now (pk_version p) hdr level fs n /\ hl + n + Overhead sealer <= MaxPacketSize.
Proof.
  intros Hpop Hp Hok Hi HW hdr hl p1. destruct (getPublicHeader_ok level p pth Hp) as (_ & H52 & _). fold hdr hl in H52.
  pose proof (so_overhead _ _ _ Hok) as Hover. pose proof (pb_control _ _ _ Hp) as Hc.
  destruct (numberStopWaiting_same hdr (pth_pathID pth) p) as (Hcf & Hfr & Hv & Hpers & Hack). fold p1 in Hcf, Hfr, Hv, Hpers, Hack.
  assert (Hcomp : exists p' x' fs res n,
    Packer.composeWith pop (MaxPacketSize -64 Overhead sealer -64 hl)
      (Packer.canSendData (pk_perspective p1) level) (pth_pathID pth) p1 x = (p', x', Ret fs) /\
    composed pop level x x' (pth_pathID pth) p1 p' fs res /\ snd_inv (pk_framer p') hist W (E ++ res) /\
    packs parseIPv6 now (pk_version p) hdr level fs n /\ hl + n + Overhead sealer <= MaxPacketSize).
  { unfold MaxPacketSize.
    replace (1350 -64 Overhead sealer -64 hl) with (1350 - Overhead sealer - hl) by (usmall; lia).
    destruct (composeWith_spec parseIPv6 now (pk_version p) hdr level pop (1350 - Overhead sealer - hl)
      (Packer.canSendData (pk_perspective p1) level) (pth_pathID pth) p1 x hist W E)
      as (p' & x' & taken & kept & res & n & Heq & Hk & (bl & Hb & Ht) & H1 & H2 & H3 & H4 & Hi' & Hpk & Hn);
      [done|by rewrite Hfr|done|apply canSendData_level| | | |unfold MaxPacketSize; lia|].
    - intros s. by apply stop_control_ok.
    - intros a. rewrite Hack. intros Ha. destruct (pb_ack _ _ _ Hp a Ha) as [Hwa Hna]. split; [by split|done].
    - rewrite Hcf. eapply Forall_impl; [exact Hc|]. intros f [? ?]. by split.
    - eexists p', x', _, res, n. split; [exact Heq|]. split; [|split; [done|split; [done|lia]]].
      split; [done|]. right. by exists taken, kept, bl. }
  unfold Packer.payloadOf. destruct (controlFrames p1) as [|[] rest] eqn:Ec; try exact Hcomp.
  eexists _, x, [FPing f], [], _. split; [done|]. split; [|split; [|split]].
  - split; [done|]. left. exists f. by rewrite Ec.
  - rewrite app_nil_r. cbn. by rewrite Hfr.
  - by apply (packs_one parseIPv6 now (pk_version p) hdr level (FPing f) 1).
  - unfold MaxPacketSize. lia.
Qed.

(** *** Packing *)
Lemma hasCrypto h f s :
  streams (fr_streamsMap f) !! 1 = Some s ->
  Framer.HasCryptoStreamFrame h f = (f, Ret (0 <? Stream.lenOfDataForWriting s)).
Proof. intros H1. unfold Framer.HasCryptoStreamFrame. by rewrite (cryptoStream_open _ _ s H1). Qed.

Lemma packer_eta p : p <| pk_framer := pk_framer p |> = p.
Proof. by destruct p. Qed.

Lemma packWith_composed {X : Type} (pop : Packer.popper X) rand level sealer p pth x s hist W E :
  popper_ok pop -> packable cs p pth -> GetSealer cs = (level, sealer) -> sealer_ok Open level sealer ->
  snd_inv (pk_framer p) hist W E -> (forall id, is_bytes (W id)) ->
  streams (fr_streamsMap (pk_framer p)) !! 1 = Some s -> Stream.lenOfDataForWriting s = 0 ->
  let hdr := Packer.getPublicHeader cs level p pth in
  let p1 := Packer.numberStopWaiting hdr (pth_pathID pth) p in
  exists p2 x' fs res, composed pop level x x' (pth_pathID pth) p1 p2 fs res /\ snd_inv (pk_framer p2) hist W (E ++ res) /\
  if Packer.nothingToSend (pth_pathID pth) p2 fs
  then Packer.packWith parseIPv6 now cs pop rand p pth x = (p2, pth, x', Ret None)
  else exists pth' k,
    Packer.packWith parseIPv6 now cs pop rand p pth x
    = (Packer.clearQueued (pth_pathID pth) p2, pth', x', Ret (Some k)) /\
    packed p pth rand level sealer fs pth' k.
Proof.
  intros Hpop Hp Hs Hok Hi HW H1 Hl hdr p1.
  destruct (payloadOf_spec pop level sealer p pth x hist W E Hpop Hp Hok Hi HW)
    as (p2 & x' & fs & res & n & Hpl & Hcd & Hi' & Hpk & Hmax). fold hdr p1 in Hpl, Hcd, Hpk, Hmax.
  exists p2, x', fs, res. split; [done|]. split; [done|].
  unfold Packer.packWith. rewrite (hasCrypto _ _ s H1), Hl. cbn [Z.ltb Z.compare]. rewrite packer_eta, Hs. fold hdr.
  destruct (getPublicHeader_ok level p pth Hp) as (Hwf & _). fold hdr in Hwf.
  rewrite (regular_length hdr _ _ Hwf). fold p1. rewrite Hpl.
  destruct (Packer.nothingToSend (pth_pathID pth) p2 fs) eqn:En; [done|].
  destruct (cd_same _ _ _ _ _ _ _ _ _ Hcd) as (_ & _ & Hv & Hpers).
  destruct (numberStopWaiting_same hdr (pth_pathID pth) p) as (_ & _ & Hv1 & Hpers1 & _). fold p1 in Hv1, Hpers1.
  destruct (writeAndSeal_spec p (Packer.clearQueued (pth_pathID pth) p2) pth rand level sealer fs n Hp Hok)
    as (raw & pth' & Hw & Hk); [cbn; congruence|cbn; congruence|done|by destruct fs|done|].
  fold hdr in Hw, Hk. rewrite Hw. cbn [mbind outcome_bind]. by eexists pth', _.
Qed.

Lemma packWith_crypto {X : Type} (pop : Packer.popper X) rand level sealer p pth x s hist W E :
  packable cs p pth -> GetSealerForCryptoStream cs = (level, sealer) -> sealer_ok Open level sealer ->
  snd_inv (pk_framer p) hist W E -> (forall id, is_bytes (W id)) ->
  streams (fr_streamsMap (pk_framer p)) !! 1 = Some s -> 0 < Stream.lenOfDataForWriting s ->
  exists f' fr pth' k hist',
    Packer.packWith parseIPv6 now cs pop rand p pth x = (p <| pk_framer := f' |>, pth', x, Ret (Some k)) /\
    packed p pth rand level sealer [FStream fr] pth' k /\ snd_inv f' hist' W (E ++ [fr]).
Proof.
  intros Hp Hs Hok Hi HW H1 Hl.
  destruct (packCryptoPacket_spec level sealer rand p pth s hist W E Hp Hs Hok Hi HW H1 Hl)
    as (f' & fr & pth' & k & hist' & Hpack & Hk & Hi').
  exists f', fr, pth', k, hist'. split; [|done]. unfold Packer.packWith.
  rewrite (hasCrypto _ _ s H1). destruct (Z.ltb_spec 0 (Stream.lenOfDataForWriting s)); [|lia].
  by rewrite packer_eta, Hpack.
Qed.

(** A packed packet at the peer: the header is parsed, the full packet number inferred, the payload
    opened and cut into the frames. *)
Lemma packed_unpacks codeString p pth rand level sealer fs pth' k pv largest :
  packable cs p pth -> sealer_ok Open level sealer -> packed p pth rand level sealer fs pth' k ->
  let hdr := Packer.getPublicHeader cs level p pth in
  (VersionFlag hdr = false -> pv = pk_version p) ->
  pth_leastUnacked pth - 1 <= largest < 2 ^ 62 ->
  2 * (largest + 1 - pkd_number k) < 2 ^ (8 * hdr_PacketNumberLen hdr) ->
  exists ad data, pkd_raw k = ad ++ data /\
    Header.Parse (pk_perspective p) pv (pkd_raw k) = Ret (received hdr, data) /\
    InferPacketNumber (hdr_PacketNumberLen (received hdr)) largest (hdr_PacketNumber (received hdr)) = pkd_number k /\
    forall hdr', hdr_PacketNumber hdr' = pkd_number k -> hdr_PacketNumberLen hdr' = hdr_PacketNumberLen hdr ->
      Unpacker.Unpack codeString (pk_version p) Open ad hdr' data
      = Ret (mkUnpackedPacket level (map (receivedFrame now) (pkd_frames k))).
Proof.
  intros Hp Hok [_ Hnum Hfs _ (bs & Hraw & Hne & Hpay & _)] hdr Hpv Hlar Hahead.
  destruct (getPublicHeader_ok level p pth Hp) as (Hwf & _ & Hpn & Hlen & Hv & Hd).
  fold hdr in Hraw, Hpay, Hwf, Hpn, Hlen, Hv, Hd. set (ad := header_bytes hdr (pk_version p)) in *.
  exists ad, (Seal sealer bs (pkd_number k) ad). split; [done|].
  pose proof (pb_version _ _ _ Hp) as Hver. split; [|split].
  - rewrite Hraw. apply regular_Parse; [done|]. intros Hvf. specialize (Hpv Hvf).
    split; [done|]. unfold VersionUnknown. lia.
  - unfold received. cbn [hdr_PacketNumberLen hdr_PacketNumber].
    pose proof (pb_least _ _ _ Hp). pose proof (pb_number _ _ _ Hp). rewrite Hpn in *. rewrite Hnum in *.
    apply infer_correct; [done|lia..].
  - intros hdr' Hn' Hl'. unfold Unpacker.Unpack. rewrite Hn', (so_open _ _ _ Hok).
    assert (Hpay' : payload parseIPv6 now (pk_version p) hdr' level fs bs).
    { clear -Hpay Hn' Hl' Hpn Hnum. induction Hpay as [|fs bs Hp IH|f fs o bs Hwf Hw Hdel Hp IH]; [constructor| |].
      - by apply payload_padding.
      - apply payload_frame; [|done..]. destruct f; try exact Hwf. cbn [wf_frame] in *.
        rewrite Hn', Hl', Hnum, <- Hpn. exact Hwf. }
    destruct bs as [|b bs']; [done|].
    rewrite (readFrames_payload codeString _ _ _ _ _ _ _ Hpay' (length (b :: bs')) []) by lia. by rewrite Hfs.
Qed.
End Pack.

(** A packer over a framer that was used in any way, with the crypto stream [s] open, that packs for
    [pth] with sealers whose packets the peer opens with [Open]. *)
Record ready (cs : CryptoSetup) (Open : list Z -> Z -> list Z -> outcome (list Z * EncryptionLevel))
    (p : packetPacker) (pth : packerPath) (s : stream) : Prop := {
  rd_reachable : exists pers fc0 hist W E,
    rtc send_step (new_sender pers fc0) (pk_framer p, hist, W, E) /\ forall id, is_bytes (W id);
  rd_crypto : streams (fr_streamsMap (pk_framer p)) !! 1 = Some s;
  rd_packable : packable cs p pth;
  rd_sealer : sealer_ok Open (GetSealer cs).1 (GetSealer cs).2;
  rd_cryptoSealer : sealer_ok Open (GetSealerForCryptoStream cs).1 (GetSealerForCryptoStream cs).2
}.

(** *** An example: a server with data to retransmit, a WINDOW_UPDATE and an ACK queued *)
Definition ex_sealer : Sealer := mkSealer 2 (fun bs _ _ => [9; 9] ++ bs).
Definition ex_crypto : CryptoSetup :=
  mkCryptoSetup (EncryptionForwardSecure, ex_sealer) (fun _ => Ret ex_sealer) (EncryptionForwardSecure, ex_sealer) [] (fun _ => None).
Definition ex_path : packerPath := mkPackerPath 3 (newPacketNumberGenerator 500) 1 true.
Definition ex_ack : AckFrame := mkAckFrame 3 7 2 [] 0 0.
Definition ex_packer (control : list Frame) (stop : gmap Z StopWaitingFrame) : packetPacker :=
  mkPacketPacker 77 PerspectiveServer 512 example_parameters ex_lost control stop {[3 := ex_ack]}.

Lemma ex_ready control stop s :
  Forall (fun f => counted f = true /\ forall hdr level, wf_frame hdr level f) control ->
  (forall sw, stop !! 3 = Some sw -> sw_LeastUnacked sw = 1) ->
  streams (fr_streamsMap ex_lost) !! 1 = Some s ->
  ready ex_crypto example_open (ex_packer control stop) ex_path s.
Proof.
  intros Hc Hst Hs. split; [|exact Hs| | |].
  - exists PerspectiveServer, example_fc, [1; 3; 5], ex_W, [ex_first; ex_second]. split; [apply example_sender|].
    intros id. unfold ex_W, written. case_match; [|constructor]. unfold ex_data, is_bytes, in_range. repeat constructor; lia.
  - unfold ex_packer, ex_path, ex_crypto, Generator.Peek.
    split; cbn [pk_connectionID pk_version pk_parameters pk_perspective pth_pathID cs_DiversificationNonce pth_leastUnacked
      pth_generator Generator.Peek newPacketNumberGenerator png_next controlFrames ackFrame stopWaiting];
      [lia|lia|done|unfold in_range; lia|by left|lia|lia|exact Hc| |].
    + intros a Ha. rewrite lookup_singleton_eq in Ha. injection Ha as <-.
      split; [|intros n [= <-]; by vm_compute]. intros hdr level. cbn. unfold in_range. split; [lia|]. split; [|done].
      split; [unfold in_range; lia|lia].
    + intros sw Hsw. rewrite (Hst sw Hsw). lia.
  - split; [cbn; lia| |done]. intros bs pn ad. cbn [Seal ex_crypto GetSealer snd ex_sealer Overhead].
    rewrite length_app. cbn [length]. lia.
  - split; [cbn; lia| |done]. intros bs pn ad. cbn [Seal ex_crypto GetSealerForCryptoStream snd ex_sealer Overhead].
    rewrite length_app. cbn [length]. lia.
Qed.

Definition ex_control : list Frame := [FWindowUpdate (mkWindowUpdateFrame 5 70000)].
Definition ex_cstream : stream := newStream 1.
Lemma ex_cstream_open : streams (fr_streamsMap ex_lost) !! 1 = Some ex_cstream.
Proof. by vm_compute. Qed.

Lemma ex_no_stop sw : (∅ : gmap Z StopWaitingFrame) !! 3 = Some sw -> sw_LeastUnacked sw = 1.
Proof. by rewrite lookup_empty. Qed.

Lemma ex_control_ok : Forall (fun f => counted f = true /\ forall hdr level, wf_frame hdr level f) ex_control.
Proof. repeat constructor; cbn; unfold in_range; lia. Qed.

(** The retransmissions among the frames the framer handed out. *)
Lemma took_queue h can f res bl f' hist W E :
  snd_inv f hist W E -> took (Packer.popAny h) can f tt res bl f' tt ->
  exists again new, res = again ++ new /\
    flatAll (fr_retransmissionQueue f) = flatAll again ++ flatAll (fr_retransmissionQueue f').
Proof.
  intros Hi. unfold took. destruct can; [|intros (-> & _ & -> & _); by exists [], []].
  intros (maxLen & g & Hm & Epop & _ & ->). unfold MaxPacketSize in Hm. unfold Packer.popAny in Epop.
  destruct (Framer.PopStreamFrames _ maxLen f) as [g' fs] eqn:Ef. simplify_eq.
  destruct (PopStreamFrames_split _ f hist W E maxLen _ _ Hi ltac:(lia) Ef) as (again & new & -> & Hflat & _). by exists again, new.
Qed.

(** C5: A packet that is packed is read by the peer.  The conditions are [ready]: the framer is in a state
    that writes, pops and losses lead to; the queued control frames are well formed and neither STREAM nor PATHS
    frames; a queued ACK needs at most 1200 bytes; connection ID, version and packet numbers are in their
    ranges; the sealers add at most 40 bytes, and the peer can open what they seal.  Then [PackPacket] does
    not fail.  If it returns a packet, the packet has at most 1350 bytes and the next number of the path.
    Its receiver, whose largest packet number is not more than half a range away, parses the
    header, infers the full packet number from its low bytes, and gets the frames that were packed, in order, as
    [receivedFrame] describes them: the same but for what the wire does not carry, which is, in an ACK or a
    CLOSE_PATH frame, ranges beyond the limit of blocks and times finer than the 16-bit float, and, in a
    STOP_WAITING frame, the fields that only the writer uses.  An ACK or STOP_WAITING frame arrives
    in the packet whose number it was written for. *)
Theorem pack_unpack codeString parseIPv6 now cs Open rand p pth s :
  ready cs Open p pth s ->
  exists p' pth' r, Packer.PackPacket parseIPv6 now cs rand p pth = (p', pth', tt, Ret r) /\
  match r with
  | None => pth' = pth
  | Some k =>
      pth' = pth <| pth_generator := (Generator.Pop rand (pth_generator pth)).2 |> /\
      pkd_number k = Generator.Peek (pth_generator pth) /\
      Z.of_nat (length (pkd_raw k)) <= MaxPacketSize /\
      let hdr := Packer.getPublicHeader cs (pkd_encryptionLevel k) p pth in
      forall pv largest,
      (VersionFlag hdr = false -> pv = pk_version p) -> pth_leastUnacked pth - 1 <= largest < 2 ^ 62 ->
      2 * (largest + 1 - pkd_number k) < 2 ^ (8 * hdr_PacketNumberLen hdr) ->
      exists ad data, pkd_raw k = ad ++ data /\
        Header.Parse (pk_perspective p) pv (pkd_raw k) = Ret (received hdr, data) /\
        InferPacketNumber (hdr_PacketNumberLen (received hdr)) largest (hdr_PacketNumber (received hdr))
          = pkd_number k /\
        forall hdr', hdr_PacketNumber hdr' = pkd_number k -> hdr_PacketNumberLen hdr' = hdr_PacketNumberLen hdr ->
          Unpacker.Unpack codeString (pk_version p) Open ad hdr' data
          = Ret (mkUnpackedPacket (pkd_encryptionLevel k) (map (receivedFrame now) (pkd_frames k)))
  end.
Proof.
  intros [(pers & fc0 & hist & W & E & Hrun & HW) H1 Hp Hs Hcs]. pose proof (sender_reachable _ _ _ _ _ _ Hrun) as Hi.
  assert (Hfin : forall level sealer fs pth' k, sealer_ok Open level sealer ->
    packed parseIPv6 now cs p pth rand level sealer fs pth' k ->
    Z.of_nat (length (pkd_raw k)) <= MaxPacketSize /\ pkd_encryptionLevel k = level).
  { intros level sealer fs pth' k Hok [_ _ _ Hl (bs & _ & _ & _ & Hm)]. done. }
  unfold Packer.PackPacket. destruct (Z.eq_dec (Stream.lenOfDataForWriting s) 0) as [Hl|Hl].
  - destruct (GetSealer cs) as [level sealer] eqn:Eg. cbn [fst snd] in Hs.
    destruct (packWith_composed parseIPv6 now cs Open _ rand level sealer p pth tt s hist W E
      (popAny_ok (pk_parameters p)) Hp Eg Hs Hi HW H1 Hl) as (p2 & [] & fs & res & _ & _ & Hr).
    destruct (Packer.nothingToSend _ _ _); [by eexists _, _, None|]. destruct Hr as (pth' & k & -> & Hk).
    eexists _, pth', (Some k). split; [done|]. destruct (Hfin _ _ _ _ _ Hs Hk) as [Hm Hlv]. rewrite Hlv.
    split; [apply Hk|]. split; [apply Hk|]. split; [done|]. intros pv largest Hpv Hlar Hah.
    by eapply packed_unpacks.
  - assert (0 < Stream.lenOfDataForWriting s) by (unfold Stream.lenOfDataForWriting in *; repeat case_match; lia).
    destruct (GetSealerForCryptoStream cs) as [level sealer] eqn:Eg. cbn [fst snd] in Hcs.
    destruct (packWith_crypto parseIPv6 now cs Open (Packer.popAny (pk_parameters p)) rand level sealer p pth tt s hist W E Hp Eg Hcs Hi HW H1)
      as (f' & fr & pth' & k & hist' & -> & Hk & _); [done|].
    eexists _, pth', (Some k). split; [done|]. destruct (Hfin _ _ _ _ _ Hcs Hk) as [Hm Hlv]. rewrite Hlv.
    split; [apply Hk|]. split; [apply Hk|]. split; [done|]. intros pv largest Hpv Hlar Hah.
    by eapply packed_unpacks.
Qed.

Lemma pack_unpack_witness :
  exists p' pth' k,
    Packer.PackPacket (fun _ => None) 0 ex_crypto None (ex_packer ex_control ∅) ex_path = (p', pth', tt, Ret (Some k)) /\
    pkd_number k = 1 /\ Z.of_nat (length (pkd_raw k)) <= MaxPacketSize.
Proof.
  destruct (pack_unpack (fun _ => "") (fun _ => None) 0 ex_crypto example_open None (ex_packer ex_control ∅) ex_path
    ex_cstream (ex_ready ex_control ∅ ex_cstream ex_control_ok ex_no_stop ex_cstream_open))
    as (p' & pth' & r & E & H).
  assert (Hs : match (Packer.PackPacket (fun _ => None) 0 ex_crypto None (ex_packer ex_control ∅) ex_path).2 with
    | Ret (Some _) => true | _ => false end = true) by (by vm_compute).
  rewrite E in Hs. destruct r as [k|]; [|discriminate Hs]. destruct H as (_ & Hn & Hm & _).
  exact (ex_intro _ p' (ex_intro _ pth' (ex_intro _ k (conj E (conj Hn Hm))))).
Defined.

(** C29: Packing loses nothing.  Under the same conditions ([ready]), as long as no PING is first in the queue and the crypto
    stream has nothing to send, [PackPacket] returns without an error.  The frames of the packet are the
    STOP_WAITING and ACK frames queued for the path, control frames from the end of the queue, and, if data may be
    sent, exactly the frames that [PopStreamFrames] takes from the framer, which is left as [PopStreamFrames] leaves it;
    the last one loses its length field.  What the packet carries of retransmissions is gone from their queue, nothing else is.
    The other control frames stay queued, followed by the BLOCKED frames of the framer.  If nothing is packed, nothing was
    taken and the ACK and STOP_WAITING frames stay queued. *)
Theorem pack_conserves parseIPv6 now cs Open rand p pth s :
  ready cs Open p pth s -> Stream.lenOfDataForWriting s = 0 ->
  (forall ping, head (controlFrames p) <> Some (FPing ping)) ->
  let hdr := Packer.getPublicHeader cs (GetSealer cs).1 p pth in
  let queued := queuedFirst (pth_pathID pth) (Packer.numberStopWaiting hdr (pth_pathID pth) p) in
  let can := Packer.canSendData (pk_perspective p) (GetSealer cs).1 in
  exists p' pth' r taken kept blocked res,
    Packer.PackPacket parseIPv6 now cs rand p pth = (p', pth', tt, Ret r) /\
    controlFrames p = kept ++ reverse taken /\ controlFrames p' = kept ++ map FBlocked blocked /\
    took (Packer.popAny (pk_parameters p)) can (pk_framer p) tt res blocked (pk_framer p') tt /\
    (exists again new, res = again ++ new /\
      flatAll (fr_retransmissionQueue (pk_framer p)) = flatAll again ++ flatAll (fr_retransmissionQueue (pk_framer p'))) /\
    match r with
    | Some k => pkd_frames k = queued ++ taken ++ map FStream (Packer.dropLastLen res) /\
        stopWaiting p' !! pth_pathID pth = None /\ ackFrame p' !! pth_pathID pth = None
    | None => taken = [] /\ res = [] /\ ackFrame p' = ackFrame p /\
        dom (stopWaiting p') = dom (stopWaiting p)
    end.
Proof.
  intros [(pers & fc0 & hist & W & E & Hrun & HW) H1 Hp Hs _] Hl Hnp hdr queued can.
  pose proof (sender_reachable _ _ _ _ _ _ Hrun) as Hi. unfold Packer.PackPacket.
  destruct (GetSealer cs) as [level sealer] eqn:Eg. cbn [fst snd] in *.
  destruct (packWith_composed parseIPv6 now cs Open _ rand level sealer p pth tt s hist W E
    (popAny_ok (pk_parameters p)) Hp Eg Hs Hi HW H1 Hl) as (p2 & [] & fs & res & [Hsame Hfs] & _ & Hr).
  fold hdr in Hsame, Hfs. set (p1 := Packer.numberStopWaiting hdr (pth_pathID pth) p) in *.
  destruct (numberStopWaiting_same hdr (pth_pathID pth) p) as (Hcf & Hfr & _ & Hpers & Hack). fold p1 in Hcf, Hfr, Hpers, Hack.
  destruct Hsame as (Hstop & Hack2 & _). rewrite Hcf in Hfs. destruct Hfs as [(ping & Hc & _)|(taken & kept & bl & Hk & Hk' & Ht & Hfs)].
  { by specialize (Hnp ping); rewrite Hc in Hnp. }
  rewrite Hfr, Hpers in Ht. fold can in Ht. fold queued in Hfs.
  assert (Hq : exists again new, res = again ++ new /\
    flatAll (fr_retransmissionQueue (pk_framer p)) = flatAll again ++ flatAll (fr_retransmissionQueue (pk_framer p2))).
  { by apply (took_queue (pk_parameters p) can (pk_framer p) res bl (pk_framer p2) hist W E). }
  destruct (Packer.nothingToSend (pth_pathID pth) p2 fs) eqn:En.
  - eexists p2, pth, None, taken, kept, bl, res. do 5 (split; [done|]).
    assert (Hnil : taken ++ map FStream (Packer.dropLastLen res) = []).
    { unfold Packer.nothingToSend in En. rewrite Hstop in En. destruct fs as [|f [|]]; [|destruct queued as [|q qs] eqn:Eq|done].
      - symmetry in Hfs. by apply app_eq_nil in Hfs as [_ ?].
      - unfold queued, queuedFirst in Eq. fold p1 in Eq. apply bool_decide_eq_true in En as [sw Hsw].
        by rewrite Hsw in Eq.
      - injection Hfs as _ Hfs. symmetry in Hfs. by apply app_eq_nil in Hfs as [_ ?]. }
    apply app_eq_nil in Hnil as [-> Hnil]. apply map_eq_nil in Hnil.
    assert (res = []) as -> by (destruct res as [|? [|]]; [done|discriminate Hnil|discriminate Hnil]).
    split; [done|]. split; [done|]. split; [congruence|]. rewrite Hstop. unfold p1, Packer.numberStopWaiting.
    destruct (stopWaiting p !! pth_pathID pth) eqn:Es; [|done]. cbn. rewrite dom_insert_L.
    apply elem_of_dom_2 in Es. set_solver.
  - destruct Hr as (pth' & k & -> & Hk2). eexists _, pth', (Some k), taken, kept, bl, res.
    do 5 (split; [done|]). rewrite (pd_frames _ _ _ _ _ _ _ _ _ _ _ Hk2).
    split; [done|]. cbn. by rewrite !lookup_delete_eq.
Qed.

Lemma pack_conserves_witness :
  exists p' pth' r taken kept blocked res,
    Packer.PackPacket (fun _ => None) 0 ex_crypto None (ex_packer ex_control ∅) ex_path = (p', pth', tt, Ret r) /\
    ex_control = kept ++ reverse taken /\ controlFrames p' = kept ++ map FBlocked blocked /\
    match r with Some k => pkd_frames k = [FAck ex_ack] ++ taken ++ map FStream (Packer.dropLastLen res) | None => True end.
Proof.
  destruct (pack_conserves (fun _ => None) 0 ex_crypto example_open None (ex_packer ex_control ∅) ex_path
    ex_cstream (ex_ready ex_control ∅ ex_cstream ex_control_ok ex_no_stop ex_cstream_open) eq_refl ltac:(done))
    as (p' & pth' & r & taken & kept & bl & res & E & Hk & Hk' & _ & _ & Hr).
  exists p', pth', r, taken, kept, bl, res. refine (conj E (conj Hk (conj Hk' _))).
  destruct r as [k|]; [exact (proj1 Hr)|exact I].
Defined.

(** A PING that is first in the queue costs other frames.  If no STOP_WAITING frame is queued, the
    packet holds the PING alone and the queued ACK is dropped without being sent.  If one is queued,
    nothing is sent and the PING itself is gone from the queue. *)
Theorem ping_drops_frames parseIPv6 now cs Open rand p pth s ping rest :
  ready cs Open p pth s -> Stream.lenOfDataForWriting s = 0 -> controlFrames p = FPing ping :: rest ->
  exists p' pth' r, Packer.PackPacket parseIPv6 now cs rand p pth = (p', pth', tt, Ret r) /\
    controlFrames p' = rest /\
    match stopWaiting p !! pth_pathID pth with
    | None => exists k, r = Some k /\ pkd_frames k = [FPing ping] /\ ackFrame p' !! pth_pathID pth = None
    | Some _ => r = None
    end.
Proof.
  intros [_ H1 Hp Hs _] Hl Hc. unfold Packer.PackPacket, Packer.packWith. rewrite (hasCrypto _ _ s H1), Hl.
  cbn [Z.ltb Z.compare]. rewrite packer_eta. destruct (GetSealer cs) as [level sealer] eqn:Eg. cbn [fst snd] in Hs.
  destruct (getPublicHeader_ok cs level p pth Hp) as (Hwf & H52 & _). set (hdr := Packer.getPublicHeader cs level p pth) in *.
  rewrite (regular_length hdr _ _ Hwf).
  destruct (numberStopWaiting_same hdr (pth_pathID pth) p) as (Hcf & _ & Hv & Hpers & _).
  set (p1 := Packer.numberStopWaiting hdr (pth_pathID pth) p) in *. unfold Packer.payloadOf. rewrite Hcf, Hc.
  cbn [Packer.nothingToSend]. set (p2 := p1 <| controlFrames := rest |>).
  pose proof (numberStopWaiting_lookup hdr (pth_pathID pth) p) as Hsw. fold p1 in Hsw.
  change (stopWaiting p2) with (stopWaiting p1). rewrite Hsw.
  destruct (stopWaiting p !! pth_pathID pth) as [sw|]; cbn [fmap option_fmap option_map].
  - rewrite bool_decide_true by eauto. by eexists p2, pth, None.
  - rewrite bool_decide_false by (by intros []).
    destruct (writeAndSeal_spec parseIPv6 now cs Open p (Packer.clearQueued (pth_pathID pth) p2) pth rand level sealer
      [FPing ping] 1 Hp Hs) as (raw & pth' & Hw & Hk); [done|done| |done| |].
    + by apply (packs_one parseIPv6 now (pk_version p) hdr level (FPing ping) 1).
    + pose proof (so_overhead _ _ _ Hs). unfold MaxPacketSize. fold hdr. lia.
    + fold hdr in Hw, Hk. rewrite Hw. cbn [mbind outcome_bind]. eexists _, pth', _. split; [done|]. split; [done|].
      eexists. split; [done|]. split; [done|]. apply lookup_delete_eq.
Qed.

Lemma ping_drops_frames_witness :
  exists p' pth' k,
    Packer.PackPacket (fun _ => None) 0 ex_crypto None (ex_packer [FPing mkPingFrame] ∅) ex_path
      = (p', pth', tt, Ret (Some k)) /\ pkd_frames k = [FPing mkPingFrame] /\ ackFrame p' !! 3 = None.
Proof.
  destruct (ping_drops_frames (fun _ => None) 0 ex_crypto example_open None (ex_packer [FPing mkPingFrame] ∅) ex_path
    ex_cstream mkPingFrame []
    (ex_ready [FPing mkPingFrame] ∅ ex_cstream ltac:(by repeat constructor) ex_no_stop ex_cstream_open) eq_refl eq_refl)
    as (p' & pth' & r & E & _ & k & -> & Hf & Ha).
  exact (ex_intro _ p' (ex_intro _ pth' (ex_intro _ k (conj E (conj Hf Ha))))).
Defined.
