(* ===== verification/SentPackets.v ===== *)
(** * The sending side of the ACK handler

    Models package [ackhandler]: [packet.go], [retransmittable.go], [stop_waiting_manager.go] and
    [sent_packet_handler.go].  The congestion controller, the RTT statistics and the bandwidth
    statistics are reached through interfaces or shared pointers (the controller reads the same
    [RTTStats]); together they are one state of type [C] with the operations of the class
    [SendAlgorithm].  The linked list of sent packets is a list in sending order.  Every call of
    [time.Now()] is an argument. *)
From S2P Require Import Prelude ByteOrder PacketNumber Frames AckRanges AckFrame.
From S2P Require Import PathsFrame PublicHeader Unpacker.
From stdpp Require Import sorting.
Open Scope Z_scope.
Open Scope go_scope.

(** ** Constants (nanoseconds) *)
Definition Millisecond : Z := 1000000.
Definition defaultRTOTimeout : Z := 500 * Millisecond.
Definition minRTOTimeout : Z := 200 * Millisecond.
Definition maxRTOTimeout : Z := 60000 * Millisecond.
Definition maxTailLossProbes : Z := 2.
Definition minRetransmissionTime : Z := 200 * Millisecond.
Definition minTailLossProbeTimeout : Z := 10 * Millisecond.
Definition MaxTrackedSentPackets : Z := 2 * 2500.
Definition MaxTrackedSkippedPackets : Z := 10.
Definition MaxNonRetransmittablePackets : Z := 19.

Definition ErrDuplicateOrOutOfOrderAck : error :=
  ErrorString "SentPacketHandler: Duplicate or out-of-order ACK".
Definition ErrTooManyTrackedSentPackets : error :=
  ErrorString "Too many outstanding non-acked and non-retransmitted packets".
Definition ErrAckForSkippedPacket : error :=
  QuicError codes.InvalidAckData "Received an ACK for a skipped packet number".
Definition errAckForUnsentPacket : error :=
  QuicError codes.InvalidAckData "Received ACK for an unsent package".
Definition errPacketNumberNotIncreasing : error :=
  ErrorString "Already sent a packet with a higher packet number".
(** The text the source adds (the packet and the range) is left out. *)
Definition errWrongPacket : error := ErrorString "BUG: ackhandler would have acked wrong packet".

(** ** Packets *)
Record Packet := mkPacket {
  pkt_Number : Z;
  pkt_Frames : list Frame;
  pkt_Length : Z;
  pkt_EncryptionLevel : EncryptionLevel;
  pkt_SendTime : Z
}.

Definition IsFrameRetransmittable (f : Frame) : bool :=
  match f with FStopWaiting _ | FAck _ => false | _ => true end.

Fixpoint stripNonRetransmittableFrames (fs : list Frame) : list Frame :=
  match fs with
  | [] => []
  | f :: fs' =>
      if IsFrameRetransmittable f then f :: stripNonRetransmittableFrames fs'
      else stripNonRetransmittableFrames fs'
  end.

Definition HasRetransmittableFrames (fs : list Frame) : bool := existsb IsFrameRetransmittable fs.

(** [GetFramesForRetransmission] *)
Fixpoint framesForRetransmission (fs : list Frame) : list Frame :=
  match fs with
  | [] => []
  | FAck _ :: fs' => framesForRetransmission fs'
  | FStopWaiting _ :: fs' => framesForRetransmission fs'
  | f :: fs' => f :: framesForRetransmission fs'
  end.
Definition GetFramesForRetransmission (p : Packet) : list Frame :=
  framesForRetransmission (pkt_Frames p).

Definition IsRetransmittable (p : Packet) : bool :=
  existsb (fun f => match f with
    | FStream _ | FRstStream _ | FWindowUpdate _ | FBlocked _ | FPing _ | FGoaway _
    | FAddAddress _ | FPaths _ => true
    | FAck _ | FStopWaiting _ | FConnectionClose _ | FClosePath _ => false
    end) (pkt_Frames p).

(** ** STOP_WAITING frames *)
Record stopWaitingManager := mkStopWaiting {
  largestLeastUnackedSent : Z;
  nextLeastUnacked : Z;
  lastStopWaitingFrame : option StopWaitingFrame
}.

Module StopWaitingManager.
Definition GetStopWaitingFrame (s : stopWaitingManager) (force : bool)
    : stopWaitingManager * option StopWaitingFrame :=
  let swf := mkStopWaitingFrame (nextLeastUnacked s) 0 0 in
  if nextLeastUnacked s <=? largestLeastUnackedSent s then
    if force then
      let last :=
        match lastStopWaitingFrame s with
        | None => if 0 <? largestLeastUnackedSent s then Some swf else None
        | Some f => Some f
        end in
      (mkStopWaiting (largestLeastUnackedSent s) (nextLeastUnacked s) last, last)
    else (s, None)
  else (mkStopWaiting (nextLeastUnacked s) (nextLeastUnacked s) (Some swf), Some swf).

Definition ReceivedAck (s : stopWaitingManager) (ack : AckFrame) : stopWaitingManager :=
  if nextLeastUnacked s <=? LargestAcked ack
  then mkStopWaiting (largestLeastUnackedSent s) (LargestAcked ack +64 1) (lastStopWaitingFrame s)
  else s.

Definition QueuedRetransmissionForPacketNumber (s : stopWaitingManager) (p : Z)
    : stopWaitingManager :=
  if nextLeastUnacked s <=? p
  then mkStopWaiting (largestLeastUnackedSent s) (p +64 1) (lastStopWaitingFrame s)
  else s.
End StopWaitingManager.

(** ** The congestion controller and its statistics *)
Class SendAlgorithm (C : Type) := {
  OnPacketSent : C -> forall (sentTime bytesInFlight packetNumber bytes : Z)
    (isRetransmittable : bool), C;
  GetCongestionWindow : C -> Z;
  MaybeExitSlowStart : C -> C;
  OnPacketAcked : C -> forall (number ackedBytes bytesInFlight : Z), C;
  OnPacketLost : C -> forall (number lostBytes bytesInFlight : Z), C;
  OnRetransmissionTimeout : C -> bool -> C;
  RetransmissionDelay : C -> Z;
  cong_SmoothedRTT : C -> Z;
  rtt_UpdateRTT : C -> forall (sendDelta ackDelay now : Z), C;
  rtt_UpdateSessionRTT : C -> Z -> C;
  rtt_SmoothedRTT : C -> Z;
  rtt_LatestRTT : C -> Z;
  bdw_UpdateBDW : C -> forall (sentDelta sentDelay : Z), C;
  bdw_GetBandwidth : C -> Z
}.

(** ** The handler *)
Section State.
Context {C : Type}.

Record sentPacketHandler := mkSent {
  lastSentPacketNumber : Z;
  skippedPackets : list Z;
  sph_pathID : Z;
  numNonRetransmittablePackets : Z;
  sph_LargestAcked : Z;
  largestReceivedPacketWithAck : Z;
  packetHistory : list Packet;
  stopWaiting : stopWaitingManager;
  retransmissionQueue : list Packet;
  bytesInFlight : Z;
  congestion : C;
  rtoCount : Z;
  tlpCount : Z;
  lossTime : Z;
  lastSentTime : Z;
  alarm : Z;
  sph_packets : Z;
  retransmissions : Z;
  losses : Z
}.

Definition eta_sent (h : sentPacketHandler) : sentPacketHandler :=
  mkSent (lastSentPacketNumber h) (skippedPackets h) (sph_pathID h)
    (numNonRetransmittablePackets h) (sph_LargestAcked h) (largestReceivedPacketWithAck h)
    (packetHistory h) (stopWaiting h) (retransmissionQueue h) (bytesInFlight h) (congestion h)
    (rtoCount h) (tlpCount h) (lossTime h) (lastSentTime h) (alarm h) (sph_packets h)
    (retransmissions h) (losses h).

#[export] Instance set_lastSentPacketNumber : Setter lastSentPacketNumber := ltac:(field_setter eta_sent).
#[export] Instance set_skippedPackets : Setter skippedPackets := ltac:(field_setter eta_sent).
#[export] Instance set_sph_pathID : Setter sph_pathID := ltac:(field_setter eta_sent).
#[export] Instance set_numNonRetransmittablePackets : Setter numNonRetransmittablePackets := ltac:(field_setter eta_sent).
#[export] Instance set_sph_LargestAcked : Setter sph_LargestAcked := ltac:(field_setter eta_sent).
#[export] Instance set_largestReceivedPacketWithAck : Setter largestReceivedPacketWithAck := ltac:(field_setter eta_sent).
#[export] Instance set_packetHistory : Setter packetHistory := ltac:(field_setter eta_sent).
#[export] Instance set_stopWaiting : Setter stopWaiting := ltac:(field_setter eta_sent).
#[export] Instance set_retransmissionQueue : Setter retransmissionQueue := ltac:(field_setter eta_sent).
#[export] Instance set_bytesInFlight : Setter bytesInFlight := ltac:(field_setter eta_sent).
#[export] Instance set_congestion : Setter congestion := ltac:(field_setter eta_sent).
#[export] Instance set_rtoCount : Setter rtoCount := ltac:(field_setter eta_sent).
#[export] Instance set_tlpCount : Setter tlpCount := ltac:(field_setter eta_sent).
#[export] Instance set_lossTime : Setter lossTime := ltac:(field_setter eta_sent).
#[export] Instance set_lastSentTime : Setter lastSentTime := ltac:(field_setter eta_sent).
#[export] Instance set_alarm : Setter alarm := ltac:(field_setter eta_sent).
#[export] Instance set_sph_packets : Setter sph_packets := ltac:(field_setter eta_sent).
#[export] Instance set_retransmissions : Setter retransmissions := ltac:(field_setter eta_sent).
#[export] Instance set_losses : Setter losses := ltac:(field_setter eta_sent).
End State.
Arguments sentPacketHandler C : clear implicits.

Definition newStopWaitingManager : stopWaitingManager := mkStopWaiting 0 0 None.

(** [cong] is the congestion controller given or [congestion.NewCubicSender(...)]. *)
Definition NewSentPacketHandler {C} (pathID : Z) (cong : C) : sentPacketHandler C :=
  mkSent 0 [] pathID 0 0 0 [] newStopWaitingManager [] 0 cong 0 0 0 0 0 0 0 0.

(** ** The operations *)
Module Sent.
Section Operations.
Context {C : Type} `{!SendAlgorithm C}.
Abbreviation handler := (sentPacketHandler C).

Definition GetStatistics (h : handler) : Z * Z * Z :=
  (sph_packets h, retransmissions h, losses h).

Definition largestInOrderAcked (h : handler) : Z :=
  match packetHistory h with
  | f :: _ => pkt_Number f -64 1
  | [] => sph_LargestAcked h
  end.

Definition ShouldSendRetransmittablePacket (h : handler) : bool :=
  MaxNonRetransmittablePackets <=? numNonRetransmittablePackets h.

(** [h.packetHistory.Remove(el)]; an element is known by its packet number. *)
Fixpoint removePacket (number : Z) (l : list Packet) : list Packet :=
  match l with
  | [] => []
  | p :: l' => if pkt_Number p =? number then l' else p :: removePacket number l'
  end.

(** *** Timeouts *)
Definition computeRTOTimeout (h : handler) : Z :=
  let rto := RetransmissionDelay (congestion h) in
  let rto := if rto =? 0 then defaultRTOTimeout else rto in
  let rto := Z.max rto minRTOTimeout in
  let rto := i64 (Z.shiftl rto (rtoCount h)) in
  Z.min rto maxRTOTimeout.

Definition hasMultipleOutstandingRetransmittablePackets (h : handler) : bool :=
  match packetHistory h with _ :: _ :: _ => true | _ => false end.

Definition computeTLPTimeout (h : handler) : Z :=
  let rtt := cong_SmoothedRTT (congestion h) in
  if hasMultipleOutstandingRetransmittablePackets h
  then Z.max (i64 (2 * rtt)) (i64 (i64 (rtt * 3) `quot` 2 + minRetransmissionTime `quot` 2))
  else Z.max (i64 (2 * rtt)) minTailLossProbeTimeout.

(** The zero time is 0. *)
Definition updateLossDetectionAlarm (h : handler) : handler :=
  match packetHistory h with
  | [] => h <| alarm := 0 |>
  | _ =>
      if negb (lossTime h =? 0) then h <| alarm := lossTime h |>
      else if negb (rtt_SmoothedRTT (congestion h) =? 0) && (tlpCount h <? maxTailLossProbes)
      then h <| alarm := lastSentTime h + computeTLPTimeout h |>
      else h <| alarm := lastSentTime h + Z.max (computeRTOTimeout h) minRetransmissionTime |>
  end.

(** *** Sending *)

(** [for p := h.lastSentPacketNumber + 1; p < packet.PacketNumber; p++], [n] iterations *)
Fixpoint trackSkipped (skipped : list Z) (p : Z) (n : nat) : list Z :=
  match n with
  | O => skipped
  | S n' =>
      let skipped := skipped ++ [p] in
      let skipped :=
        if MaxTrackedSkippedPackets <? Z.of_nat (length skipped) then tail skipped else skipped in
      trackSkipped skipped (p + 1) n'
  end.

(** The part of [SentPacket] before the congestion controller is told. *)
Definition recordPacket (h : handler) (now : Z) (packet : Packet) (fs : list Frame)
    (isRetransmittable : bool) : handler :=
  let skipped := trackSkipped (skippedPackets h) (lastSentPacketNumber h + 1)
    (Z.to_nat (pkt_Number packet - (lastSentPacketNumber h + 1))) in
  let h := h <| skippedPackets := skipped |> <| lastSentPacketNumber := pkt_Number packet |>
    <| sph_packets := sph_packets h +64 1 |> <| lastSentTime := now |> in
  if isRetransmittable then
    h <| bytesInFlight := bytesInFlight h +64 pkt_Length packet |>
      <| packetHistory := packetHistory h ++
           [mkPacket (pkt_Number packet) fs (pkt_Length packet) (pkt_EncryptionLevel packet) now] |>
      <| numNonRetransmittablePackets := 0 |>
  else h <| numNonRetransmittablePackets := numNonRetransmittablePackets h + 1 |>.

Definition SentPacket (h : handler) (now : Z) (packet : Packet) : handler * outcome unit :=
  if pkt_Number packet <=? lastSentPacketNumber h then (h, Err errPacketNumberNotIncreasing)
  else if MaxTrackedSentPackets <?
            Z.of_nat (length (retransmissionQueue h) + length (packetHistory h) + 1)
  then (h, Err ErrTooManyTrackedSentPackets)
  else
    let fs := stripNonRetransmittableFrames (pkt_Frames packet) in
    let isRetransmittable := negb (Z.of_nat (length fs) =? 0) in
    let h := recordPacket h now packet fs isRetransmittable in
    let h := h <| congestion := OnPacketSent (congestion h) now (bytesInFlight h)
                    (pkt_Number packet) (pkt_Length packet) isRetransmittable |> in
    (updateLossDetectionAlarm h, Ret tt).

(** *** Retransmission *)
Definition queuePacketForRetransmission (h : handler) (packet : Packet) : handler :=
  h <| bytesInFlight := bytesInFlight h -64 pkt_Length packet |>
    <| retransmissionQueue := retransmissionQueue h ++ [packet] |>
    <| packetHistory := removePacket (pkt_Number packet) (packetHistory h) |>
    <| stopWaiting := StopWaitingManager.QueuedRetransmissionForPacketNumber (stopWaiting h)
                        (pkt_Number packet) |>.

(** [h.queuePacketForRetransmission(p)] and [h.congestion.OnPacketLost(...)] *)
Definition losePacket (h : handler) (p : Packet) : handler :=
  let h := queuePacketForRetransmission h p in
  h <| congestion := OnPacketLost (congestion h) (pkt_Number p) (pkt_Length p) (bytesInFlight h) |>.

(** The loop of [detectLostPackets] over the sent packets: the lost ones and the loss time. *)
Fixpoint collectLost (largestAcked now delayUntilLost lossTime : Z) (l : list Packet)
    : list Packet * Z :=
  match l with
  | [] => ([], lossTime)
  | p :: l' =>
      if largestAcked <? pkt_Number p then ([], lossTime)
      else
        let timeSinceSent := TimeSub now (pkt_SendTime p) in
        if delayUntilLost <? timeSinceSent then
          let '(lost, lossTime) := collectLost largestAcked now delayUntilLost lossTime l' in
          (p :: lost, lossTime)
        else
          collectLost largestAcked now delayUntilLost
            (if lossTime =? 0 then now + i64 (delayUntilLost - timeSinceSent) else lossTime) l'
  end.

(** The factor [1.0 + timeReorderingFraction] is 9/8; the product is exact in [float64] for times
    below 2^49 ns (6.5 days). *)
Definition delayUntilLost (h : handler) : Z :=
  (9 * Z.max (rtt_LatestRTT (congestion h)) (rtt_SmoothedRTT (congestion h))) `quot` 8.

Definition detectLostPackets (h : handler) (now : Z) : handler :=
  let '(lost, lossTime') :=
    collectLost (sph_LargestAcked h) now (delayUntilLost h) 0 (packetHistory h) in
  let h := h <| lossTime := lossTime' |>
             <| losses := losses h +64 Z.of_nat (length lost) |> in
  foldl losePacket h lost.

(** The packets up to [h.LargestAcked]. *)
Fixpoint upToLargestAcked (largestAcked : Z) (l : list Packet) : list Packet :=
  match l with
  | [] => []
  | p :: l' =>
      if largestAcked <? pkt_Number p then [] else p :: upToLargestAcked largestAcked l'
  end.

Definition SetInflightAsLost (h : handler) : handler :=
  let lost := upToLargestAcked (sph_LargestAcked h) (packetHistory h) in
  foldl losePacket (h <| losses := losses h +64 Z.of_nat (length lost) |>) lost.

Definition queueRTO (h : handler) (p : Packet) : handler :=
  let h := queuePacketForRetransmission h p in
  let h := h <| losses := losses h +64 1 |> in
  h <| congestion := OnPacketLost (congestion h) (pkt_Number p) (pkt_Length p) (bytesInFlight h) |>.

Definition retransmitTLP (h : handler) : handler :=
  match last (packetHistory h) with
  | Some p => queuePacketForRetransmission h p
  | None => h
  end.

Definition retransmitOldestPacket (h : handler) : handler :=
  match packetHistory h with p :: _ => queueRTO h p | [] => h end.

(** [for h.packetHistory.Len() > 0]: an iteration takes the first packet out, so the number of
    packets is enough fuel. *)
Fixpoint retransmitAll_loop (fuel : nat) (h : handler) : handler :=
  match fuel with
  | O => h
  | S fuel' =>
      match packetHistory h with
      | p :: _ => retransmitAll_loop fuel' (queueRTO h p)
      | [] => h
      end
  end.

Definition retransmitAllPackets (h : handler) : handler :=
  let h := retransmitAll_loop (length (packetHistory h)) h in
  h <| congestion := OnRetransmissionTimeout (congestion h) true |>.

Definition retransmitOldestTwoPackets (h : handler) : handler :=
  let h := retransmitOldestPacket (retransmitOldestPacket h) in
  h <| congestion := OnRetransmissionTimeout (congestion h) true |>.

Definition hasOutstandingRetransmittablePacket (h : handler) : bool :=
  existsb IsRetransmittable (packetHistory h).

(** [onRTO] is the callback the path installed, if any. *)
Definition OnAlarm (h : handler) (now : Z) (onRTO : option (Z -> bool)) : handler :=
  if negb (hasOutstandingRetransmittablePacket h) then h <| alarm := 0 |>
  else
    let h :=
      if negb (lossTime h =? 0) then detectLostPackets h now
      else if tlpCount h <? maxTailLossProbes then
        let h := retransmitTLP h in h <| tlpCount := u32 (tlpCount h + 1) |>
      else
        let potentiallyFailed :=
          match onRTO with Some f => f (lastSentTime h) | None => false end in
        let h := if potentiallyFailed then retransmitAllPackets h else retransmitOldestTwoPackets h in
        h <| rtoCount := u32 (rtoCount h + 1) |> in
    updateLossDetectionAlarm h.

Definition GetAlarmTimeout (h : handler) : Z := alarm h.

Definition DequeuePacketForRetransmission (h : handler) : handler * option Packet :=
  match retransmissionQueue h with
  | [] => (h, None)
  | p :: q =>
      (h <| retransmissionQueue := q |> <| retransmissions := retransmissions h +64 1 |>, Some p)
  end.

Definition DuplicatePacket (h : handler) (packet : Packet) : handler :=
  h <| retransmissionQueue := retransmissionQueue h ++ [packet] |>.

Definition GetLeastUnacked (h : handler) : Z := largestInOrderAcked h +64 1.

Definition GetStopWaitingFrame (h : handler) (force : bool) : handler * option StopWaitingFrame :=
  let '(s, f) := StopWaitingManager.GetStopWaitingFrame (stopWaiting h) force in
  (h <| stopWaiting := s |>, f).

Definition SendingAllowed (h : handler) : bool :=
  let congestionLimited := GetCongestionWindow (congestion h) <? bytesInFlight h in
  let maxTrackedLimited :=
    MaxTrackedSentPackets <=?
      Z.of_nat (length (retransmissionQueue h) + length (packetHistory h)) in
  let haveRetransmissions := 0 <? Z.of_nat (length (retransmissionQueue h)) in
  negb maxTrackedLimited && (negb congestionLimited || haveRetransmissions).

(** *** Acknowledgements *)
Definition onPacketAcked (h : handler) (p : Packet) : handler :=
  h <| bytesInFlight := bytesInFlight h -64 pkt_Length p |>
    <| rtoCount := 0 |> <| tlpCount := 0 |>
    <| packetHistory := removePacket (pkt_Number p) (packetHistory h) |>.

(** [h.onPacketAcked(p)] and [h.congestion.OnPacketAcked(...)] *)
Definition ackPacket (h : handler) (p : Packet) : handler :=
  let h := onPacketAcked h p in
  h <| congestion := OnPacketAcked (congestion h) (pkt_Number p) (pkt_Length p) (bytesInFlight h) |>.

(** [for packetNumber > ackRange.Last && ackRangeIndex < len(AckRanges)-1]: the cursor is the
    current range and the ranges above it, lowest first. *)
Fixpoint advance (number : Z) (cur : AckRange) (above : list AckRange)
    : AckRange * list AckRange :=
  match above with
  | r :: above' => if Last cur <? number then advance number r above' else (cur, above)
  | [] => (cur, above)
  end.

(** The loop over the sent packets; [cursor] holds the ranges from the current one up, and is empty
    when the frame has no missing ranges. *)
Fixpoint newlyAcked (largest lowest : Z) (cursor : list AckRange) (l : list Packet)
    : outcome (list Packet) :=
  match l with
  | [] => Ret []
  | p :: l' =>
      if pkt_Number p <? lowest then newlyAcked largest lowest cursor l'
      else if largest <? pkt_Number p then Ret []
      else
        match cursor with
        | [] => ps ← newlyAcked largest lowest [] l'; Ret (p :: ps)
        | cur :: above =>
            let '(cur, above) := advance (pkt_Number p) cur above in
            if First cur <=? pkt_Number p then
              if Last cur <? pkt_Number p then Err errWrongPacket
              else ps ← newlyAcked largest lowest (cur :: above) l'; Ret (p :: ps)
            else newlyAcked largest lowest (cur :: above) l'
        end
  end.

Definition determineNewlyAckedPackets (h : handler) (f : AckFrame) : outcome (list Packet) :=
  newlyAcked (LargestAcked f) (LowestAcked f) (reverse (AckRanges f)) (packetHistory h).

Definition determineNewlyAckedPacketsClosePath (h : handler) (f : ClosePathFrame)
    : outcome (list Packet) :=
  newlyAcked (cp_LargestAcked f) (cp_LowestAcked f) (reverse (cp_AckRanges f)) (packetHistory h).

Definition skippedPacketsAcked (h : handler) (f : AckFrame) : bool :=
  existsb (Ack.AcksPacket f) (skippedPackets h).

Definition skippedPacketsAckedClosePath (h : handler) (f : ClosePathFrame) : bool :=
  existsb (ClosePath.AcksPacket f) (skippedPackets h).

(** The search of [maybeUpdateRTT]. *)
Fixpoint findSent (number : Z) (l : list Packet) : option Packet :=
  match l with
  | [] => None
  | p :: l' =>
      if pkt_Number p =? number then Some p
      else if number <? pkt_Number p then None else findSent number l'
  end.

Definition maybeUpdateRTT (h : handler) (now largestAcked ackDelay rcvTime : Z) : handler * bool :=
  match findSent largestAcked (packetHistory h) with
  | Some p =>
      (h <| congestion := rtt_UpdateRTT (congestion h) (TimeSub rcvTime (pkt_SendTime p)) ackDelay now |>,
       true)
  | None => (h, false)
  end.

(** [deleteIndex] after the loop of [garbageCollectSkippedPackets]. *)
Fixpoint deleteIndex (lioa : Z) (i : nat) (acc : nat) (skipped : list Z) : nat :=
  match skipped with
  | [] => acc
  | p :: skipped' => deleteIndex lioa (S i) (if p <=? lioa then S i else acc) skipped'
  end.

Definition garbageCollectSkippedPackets (h : handler) : handler :=
  h <| skippedPackets :=
    drop (deleteIndex (largestInOrderAcked h) 0 0 (skippedPackets h)) (skippedPackets h) |>.

(** The delay [sentDelay] of the packet with the largest number, if it is newly acknowledged
    ([flag = 1]). *)
Definition sentDelayOf (f : AckFrame) (rcvTime : Z) (acked : list Packet) : option Z :=
  foldl (fun acc p =>
    if pkt_Number p =? LargestAcked f then
      let sentDelay := TimeSub rcvTime (pkt_SendTime p) in
      Some (if DelayTime f <? sentDelay then i64 (sentDelay - DelayTime f) else sentDelay)
    else acc) None acked.

(** The body of [if len(ackedPackets) > 0]. *)
Definition ackPackets (h : handler) (f : AckFrame) (rcvTime : Z) (acked : list Packet) : handler :=
  match acked with
  | [] => h
  | _ =>
      let preInflight := bytesInFlight h in
      let h := foldl ackPacket h acked in
      match sentDelayOf f rcvTime acked with
      | Some sentDelay =>
          h <| congestion := bdw_UpdateBDW (congestion h) (preInflight -64 bytesInFlight h) sentDelay |>
      | None => h
      end
  end.

(** The RTT sample of the packet with the largest number. *)
Definition sampleRTT (h : handler) (f : AckFrame) (rcvTime nowRTT : Z) : handler :=
  let '(h, rttUpdated) := maybeUpdateRTT h nowRTT (LargestAcked f) (DelayTime f) rcvTime in
  if (rttUpdated : bool) then h <| congestion := MaybeExitSlowStart (congestion h) |> else h.

(** [nowRTT] and [nowLoss] are the readings of the clock in [maybeUpdateRTT] and in
    [detectLostPackets]. *)
Definition ReceivedAck (h : handler) (f : AckFrame) (withPacketNumber rcvTime nowRTT nowLoss : Z)
    : handler * outcome unit :=
  if lastSentPacketNumber h <? LargestAcked f then (h, Err errAckForUnsentPacket)
  else if withPacketNumber <=? largestReceivedPacketWithAck h
  then (h, Err ErrDuplicateOrOutOfOrderAck)
  else
    let h := h <| largestReceivedPacketWithAck := withPacketNumber |> in
    if LargestAcked f <=? largestInOrderAcked h then (h, Ret tt)
    else
      let h := h <| sph_LargestAcked := LargestAcked f |> in
      if skippedPacketsAcked h f then (h, Err ErrAckForSkippedPacket)
      else
        let h := sampleRTT h f rcvTime nowRTT in
        match determineNewlyAckedPackets h f with
        | Err e => (h, Err e)
        | Panic s => (h, Panic s)
        | Ret acked =>
            let h := ackPackets h f rcvTime acked in
            let h := detectLostPackets h nowLoss in
            let h := updateLossDetectionAlarm h in
            let h := garbageCollectSkippedPackets h in
            (h <| stopWaiting := StopWaitingManager.ReceivedAck (stopWaiting h) f |>, Ret tt)
        end.

Definition ReceivedClosePath (h : handler) (f : ClosePathFrame) (withPacketNumber : Z)
    : handler * outcome unit :=
  if lastSentPacketNumber h <? cp_LargestAcked f then (h, Err errAckForUnsentPacket)
  else if withPacketNumber <=? largestReceivedPacketWithAck h
  then (h, Err ErrDuplicateOrOutOfOrderAck)
  else
    let h := h <| largestReceivedPacketWithAck := withPacketNumber |> in
    if skippedPacketsAckedClosePath h f then (h, Err ErrAckForSkippedPacket)
    else
      match determineNewlyAckedPacketsClosePath h f with
      | Err e => (h, Err e)
      | Panic s => (h, Panic s)
      | Ret acked =>
          let h := foldl ackPacket h acked in
          let h := SetInflightAsLost h in
          (garbageCollectSkippedPackets h, Ret tt)
      end.
End Operations.
End Sent.

(** ** Lists of sent packets *)
Definition sent_before (p q : Packet) : Prop := pkt_Number p < pkt_Number q.
Definition sumLen (l : list Packet) : Z := foldr (fun p acc => pkt_Length p + acc) 0 l.

#[export] Instance sent_before_antisymm : AntiSymm (=) sent_before.
Proof. intros p q. unfold sent_before. lia. Qed.

#[export] Instance sumLen_proper : Proper ((≡ₚ) ==> (=)) sumLen.
Proof. unfold sumLen. induction 1; cbn in *; lia. Qed.

Lemma sumLen_app l k : sumLen (l ++ k) = sumLen l + sumLen k.
Proof. unfold sumLen. induction l as [|p l IH]; cbn; [done|]. rewrite IH. lia. Qed.

Lemma sumLen_one p : sumLen [p] = pkt_Length p.
Proof. unfold sumLen. cbn. lia. Qed.

Lemma sorted_sublist l k :
  l `sublist_of` k -> StronglySorted sent_before k -> StronglySorted sent_before l.
Proof.
  induction 1 as [|p l k Hs IH|p l k Hs IH]; [done|..]; rewrite !StronglySorted_cons.
  - intros [Hp Hk]. split; [|by apply IH].
    rewrite Forall_forall in *. intros x Hx. by eapply Hp, elem_of_sublist.
  - intros [_ Hk]. by apply IH.
Qed.

Lemma filter_perm {A} (P : A -> Prop) `{!forall x, Decision (P x)} (l : list A) :
  l ≡ₚ filter P l ++ filter (fun x => ~ P x) l.
Proof.
  induction l as [|x l IH]; [done|]. rewrite !filter_cons.
  destruct (decide (P x)), (decide (~ P x)); try done; cbn.
  - by constructor.
  - rewrite IH at 1. apply Permutation_middle.
Qed.

Section Remove.
Import Sent.

Lemma removePacket_sublist n l : removePacket n l `sublist_of` l.
Proof. induction l as [|q l IH]; cbn; [done|]. case_match; by constructor. Qed.

Lemma removePacket_perm l p :
  StronglySorted sent_before l -> p ∈ l -> l ≡ₚ p :: removePacket (pkt_Number p) l.
Proof.
  induction l as [|q l IH]; intros Hs Hp; [by apply not_elem_of_nil in Hp|].
  apply StronglySorted_cons in Hs as [Hq Hs]. rewrite Forall_forall in Hq. cbn.
  apply elem_of_cons in Hp as [->|Hp]; [by rewrite Z.eqb_refl|].
  specialize (Hq p Hp). unfold sent_before in Hq.
  destruct (Z.eqb_spec (pkt_Number q) (pkt_Number p)); [lia|].
  rewrite (IH Hs Hp) at 1. apply Permutation_swap.
Qed.

Lemma removePacket_rest l p k :
  StronglySorted sent_before l -> p :: k `sublist_of` l ->
  k `sublist_of` removePacket (pkt_Number p) l.
Proof.
  intros Hs Hsub. apply sublist_cons_l in Hsub as (l1 & l2 & -> & Hk).
  induction l1 as [|q l1 IH]; cbn; [by rewrite Z.eqb_refl|].
  cbn in Hs. apply StronglySorted_cons in Hs as [Hq Hs]. rewrite Forall_forall in Hq.
  assert (sent_before q p) as Hlt by (apply Hq; set_solver). unfold sent_before in Hlt.
  destruct (Z.eqb_spec (pkt_Number q) (pkt_Number p)); [lia|]. by apply sublist_cons, IH.
Qed.

End Remove.

(** ** The acknowledged packets *)
Section Acked.
Import Sent.

Definition range_below (r s : AckRange) : Prop := Last r < First s.
Definition in_cursor (c : list AckRange) (n : Z) : Prop :=
  exists r, r ∈ c /\ First r <= n <= Last r.

(** The ranges a cursor goes through: ascending, disjoint, the last one ends at [largest]. *)
Record cursor_ok (largest : Z) (c : list AckRange) : Prop := {
  cu_sorted : StronglySorted range_below c;
  cu_ranges : Forall (fun r => First r <= Last r) c;
  cu_last : exists r, last c = Some r /\ Last r = largest
}.

Lemma sorted_below_snoc r rest :
  descending (First r) rest -> StronglySorted range_below (reverse rest) ->
  StronglySorted range_below (reverse rest ++ [r]).
Proof.
  intros Hd Hs. apply StronglySorted_app_2; [|done|repeat constructor]. intros x1 x2 Hx1 Hx2.
  apply list_elem_of_singleton in Hx2 as ->. rewrite elem_of_reverse in Hx1.
  apply (descending_In _ _ _ Hd) in Hx1. unfold range_below. lia.
Qed.

Lemma descending_cursor bound ranges :
  descending bound ranges ->
  StronglySorted range_below (reverse ranges) /\ Forall (fun r => First r <= Last r) (reverse ranges).
Proof.
  revert bound. induction ranges as [|r rest IH]; intros bound Hd; [repeat constructor|].
  destruct Hd as (Hr & _ & Hd). destruct (IH _ Hd) as [IH1 IH2]. rewrite reverse_cons.
  split; [by apply sorted_below_snoc|]. apply Forall_app_2; [done|]. repeat constructor. lia.
Qed.

Lemma wf_ranges_cursor ranges largest lowest :
  wf_ranges ranges largest lowest -> ranges <> [] -> cursor_ok largest (reverse ranges).
Proof.
  intros [_ Hwf] Hne. destruct ranges as [|r rest]; [done|]. destruct Hwf as (_ & Hl & Hr & Hd & _).
  destruct (descending_cursor _ _ Hd) as [H1 H2]. rewrite reverse_cons. split.
  - by apply sorted_below_snoc.
  - apply Forall_app_2; [done|]. by repeat constructor.
  - exists r. by rewrite last_snoc.
Qed.

Lemma in_cursor_cons r c n : in_cursor (r :: c) n <-> First r <= n <= Last r \/ in_cursor c n.
Proof. unfold in_cursor. set_solver. Qed.

Lemma advance_spec largest n cur above :
  cursor_ok largest (cur :: above) -> n <= largest ->
  let '(cur', above') := advance n cur above in
  cursor_ok largest (cur' :: above') /\ n <= Last cur' /\
  forall m, n <= m -> in_cursor (cur :: above) m <-> in_cursor (cur' :: above') m.
Proof.
  revert cur. induction above as [|r above IH]; intros cur Hc Hn; cbn [advance].
  - destruct (cu_last _ _ Hc) as (? & [= ->] & ->). done.
  - destruct (Z.ltb_spec (Last cur) n); [|by split].
    destruct Hc as [Hs Hr Hl]. apply StronglySorted_cons in Hs as [_ Hs].
    apply Forall_cons in Hr as [_ Hr]. specialize (IH r ltac:(by split) Hn).
    destruct (advance n r above) as [cur' above']. destruct IH as (? & ? & IH).
    do 2 (split; [done|]). intros m Hm. rewrite <- IH by done.
    rewrite (in_cursor_cons cur). split; [intros [?|?]; [lia|done]|by right].
Qed.

(** Below the end of the current range, the current range decides. *)
Lemma in_cursor_current largest cur above n :
  cursor_ok largest (cur :: above) -> n <= Last cur ->
  in_cursor (cur :: above) n <-> First cur <= n.
Proof.
  intros [Hs _ _] Hn. rewrite in_cursor_cons. split; [|lia]. intros [?|(s & Hs' & Hin)]; [lia|].
  apply StronglySorted_cons in Hs as [Hs _]. rewrite Forall_forall in Hs.
  specialize (Hs s Hs'). unfold range_below in Hs. lia.
Qed.

Lemma filter_none {A} (P : A -> Prop) `{!forall x, Decision (P x)} (l : list A) :
  (forall x, x ∈ l -> ~ P x) -> filter P l = [].
Proof.
  induction l as [|x l IH]; intros Hl; [done|].
  rewrite filter_cons_False by (apply Hl; set_solver). apply IH. set_solver.
Qed.

Section Loop.
Context (P : Z -> bool) (largest lowest : Z) (Hbound : forall n, P n = true -> lowest <= n <= largest).
Abbreviation ackedOf := (filter (fun p => P (pkt_Number p) = true)).

Lemma ackedOf_above p l :
  StronglySorted sent_before (p :: l) -> largest < pkt_Number p -> ackedOf (p :: l) = [].
Proof.
  intros [Hp _]%StronglySorted_cons Hn. rewrite Forall_forall in Hp.
  apply filter_none. intros q [->|Hq]%elem_of_cons Hq'; apply Hbound in Hq'; [lia|].
  apply Hp in Hq. unfold sent_before in Hq. lia.
Qed.

Lemma newlyAcked_all l :
  StronglySorted sent_before l -> (forall n, lowest <= n <= largest -> P n = true) ->
  newlyAcked largest lowest [] l = Ret (ackedOf l).
Proof.
  intros Hs HP. induction l as [|p l IH]; [done|]. pose proof Hs as Hs'.
  apply StronglySorted_cons in Hs' as [_ Hs']. specialize (IH Hs'). cbn [newlyAcked].
  destruct (Z.ltb_spec (pkt_Number p) lowest) as [Hlt|].
  { rewrite filter_cons_False by (intros ?%Hbound; lia). done. }
  destruct (Z.ltb_spec largest (pkt_Number p)); [by rewrite ackedOf_above|].
  rewrite IH, filter_cons_True by (apply HP; lia). done.
Qed.

Lemma newlyAcked_cursor c l :
  StronglySorted sent_before l -> cursor_ok largest c ->
  (forall p, p ∈ l -> lowest <= pkt_Number p <= largest ->
     P (pkt_Number p) = true <-> in_cursor c (pkt_Number p)) ->
  newlyAcked largest lowest c l = Ret (ackedOf l).
Proof.
  intros Hs. revert c. induction l as [|p l IH]; intros c Hc HP; [done|]. pose proof Hs as Hs'.
  apply StronglySorted_cons in Hs' as [Hp Hs']. rewrite Forall_forall in Hp. specialize (IH Hs').
  assert (HPl : forall q, q ∈ l -> lowest <= pkt_Number q <= largest ->
    P (pkt_Number q) = true <-> in_cursor c (pkt_Number q)) by (intros; apply HP; set_solver).
  cbn [newlyAcked]. destruct (Z.ltb_spec (pkt_Number p) lowest).
  { rewrite filter_cons_False by (intros ?%Hbound; lia). by apply IH. }
  destruct (Z.ltb_spec largest (pkt_Number p)); [by rewrite ackedOf_above|].
  specialize (HP p ltac:(set_solver) ltac:(lia)).
  destruct c as [|cur above]; [by destruct (cu_last _ _ Hc) as (? & ? & _)|].
  pose proof (advance_spec largest (pkt_Number p) cur above Hc ltac:(lia)) as Hadv.
  destruct (advance (pkt_Number p) cur above) as [cur' above'].
  destruct Hadv as (Hc' & Hle & Heq).
  rewrite Heq, (in_cursor_current largest) in HP by done || lia.
  assert (Hl : newlyAcked largest lowest (cur' :: above') l = Ret (ackedOf l)).
  { apply IH; [done|]. intros q Hq Hr. rewrite <- Heq; [by apply HPl|].
    apply Hp in Hq. unfold sent_before in Hq. lia. }
  destruct (Z.leb_spec (First cur') (pkt_Number p)).
  - destruct (Z.ltb_spec (Last cur') (pkt_Number p)); [lia|].
    rewrite Hl, filter_cons_True by (by apply HP). done.
  - rewrite filter_cons_False by (rewrite HP; lia). done.
Qed.
End Loop.

(** The loop finds exactly the packets the frame acknowledges. *)
Lemma newlyAcked_spec ranges largest lowest l :
  StronglySorted sent_before l -> accepted ranges largest lowest ->
  newlyAcked largest lowest (reverse ranges) l =
    Ret (filter (fun p => AckRanges.AcksPacket ranges largest lowest (pkt_Number p) = true) l).
Proof.
  intros Hs Hacc.
  assert (Hb : forall n, AckRanges.AcksPacket ranges largest lowest n = true -> lowest <= n <= largest).
  { intros n. unfold AckRanges.AcksPacket. case_match eqn:E; [done|]. lia. }
  destruct ranges as [|r rest] eqn:Hr.
  - apply newlyAcked_all; [done..|]. intros n Hn. by apply (AcksPacket_accepted []).
  - rewrite <- Hr in *. destruct Hacc as [Hwf|(? & _)]; [|by subst].
    apply newlyAcked_cursor; [done..|by eapply wf_ranges_cursor; [|subst]|].
    intros p Hp Hin. rewrite (AcksPacket_accepted ranges) by (by left).
    unfold acked, in_cursor. rewrite Hr. rewrite <- Hr. by setoid_rewrite elem_of_reverse.
Qed.
End Acked.

(** ** Effects on the packets in flight *)
Section Effects.
Import Sent.
Context {C : Type} `{!SendAlgorithm C}.
Abbreviation handler := (sentPacketHandler C).

(** Packet numbers are sent in at most six bytes. *)
Definition maxPacketNumber : Z := 2 ^ 48.

Record history_ok (h : handler) : Prop := {
  hi_sorted : StronglySorted sent_before (packetHistory h);
  hi_range : Forall (fun p => 1 <= pkt_Number p <= lastSentPacketNumber h) (packetHistory h);
  hi_last : 0 <= lastSentPacketNumber h < maxPacketNumber
}.

(** STOP_WAITING frames never point above the next packet. *)
Definition stop_ok (lastSent : Z) (s : stopWaitingManager) : Prop :=
  0 <= largestLeastUnackedSent s <= nextLeastUnacked s /\ nextLeastUnacked s <= lastSent + 1 /\
  forall f, lastStopWaitingFrame s = Some f -> 1 <= sw_LeastUnacked f <= nextLeastUnacked s.

(** From [h] to [h'] the packets [acked] were acknowledged and the packets [lost] queued for
    retransmission. *)
Record effect (h h' : handler) (acked lost : list Packet) : Prop := {
  ef_perm : packetHistory h ≡ₚ acked ++ lost ++ packetHistory h';
  ef_sub : packetHistory h' `sublist_of` packetHistory h;
  ef_queue : retransmissionQueue h' = retransmissionQueue h ++ lost;
  ef_bytes : forall x, bytesInFlight h = u64 x ->
    bytesInFlight h' = u64 (x - sumLen acked - sumLen lost);
  ef_last : lastSentPacketNumber h' = lastSentPacketNumber h;
  ef_skipped : exists n, skippedPackets h' = drop n (skippedPackets h);
  ef_stop : stop_ok (lastSentPacketNumber h) (stopWaiting h) ->
    stop_ok (lastSentPacketNumber h) (stopWaiting h')
}.

Lemma effect_history h h' a l : effect h h' a l -> history_ok h -> history_ok h'.
Proof.
  intros He [Hs Hr Hl]. pose proof (ef_sub _ _ _ _ He) as Hsub. split.
  - by eapply sorted_sublist.
  - rewrite (ef_last _ _ _ _ He), Forall_forall in *. intros p Hp. by eapply Hr, elem_of_sublist.
  - by rewrite (ef_last _ _ _ _ He).
Qed.

Lemma effect_trans h1 h2 h3 a1 a2 l1 l2 :
  effect h1 h2 a1 l1 -> effect h2 h3 a2 l2 -> effect h1 h3 (a1 ++ a2) (l1 ++ l2).
Proof.
  intros [P1 S1 Q1 B1 L1 [n1 K1] W1] [P2 S2 Q2 B2 L2 [n2 K2] W2]. split.
  - rewrite P1, P2. solve_Permutation.
  - by etrans.
  - by rewrite Q2, Q1, app_assoc.
  - intros x Hx. rewrite (B2 _ (B1 x Hx)). f_equal. rewrite !sumLen_app. lia.
  - by rewrite L2.
  - exists (n1 + n2)%nat. by rewrite K2, K1, drop_drop.
  - intros H. rewrite L1 in W2. by apply W2, W1.
Qed.

(** Assignments to the other fields have no effect on packets. *)
Lemma effect_none h h' :
  packetHistory h' = packetHistory h -> retransmissionQueue h' = retransmissionQueue h ->
  bytesInFlight h' = bytesInFlight h -> lastSentPacketNumber h' = lastSentPacketNumber h ->
  skippedPackets h' = skippedPackets h -> stopWaiting h' = stopWaiting h -> effect h h' [] [].
Proof.
  intros Hh Hq Hb Hl Hk Hw. split; rewrite ?Hh, ?Hq, ?Hb, ?Hl, ?Hk, ?Hw; try done.
  - by rewrite app_nil_r.
  - intros x ->. f_equal. cbn. lia.
  - by exists 0%nat.
Qed.

Lemma effect_ackPacket h p :
  history_ok h -> p ∈ packetHistory h -> effect h (ackPacket h p) [p] [].
Proof.
  intros [Hs _ _] Hp. split; cbn; try done.
  - by apply removePacket_perm.
  - apply removePacket_sublist.
  - by rewrite app_nil_r.
  - intros x ->. rewrite u64_sub_l. f_equal. unfold sumLen. cbn. lia.
  - by exists 0%nat.
Qed.

Lemma stop_ok_queued lastSent s p :
  stop_ok lastSent s -> 1 <= p <= lastSent -> lastSent < maxPacketNumber ->
  stop_ok lastSent (StopWaitingManager.QueuedRetransmissionForPacketNumber s p).
Proof.
  unfold stop_ok, maxPacketNumber, StopWaitingManager.QueuedRetransmissionForPacketNumber.
  intros (Ha & Hb & Hc) Hp Hl. destruct (Z.leb_spec (nextLeastUnacked s) p); [|done].
  cbn. usmall. split; [lia|]. split; [lia|]. intros f' Hf'. specialize (Hc f' Hf'). lia.
Qed.

Lemma effect_queue h p :
  history_ok h -> p ∈ packetHistory h -> effect h (queuePacketForRetransmission h p) [] [p].
Proof.
  intros [Hs Hr Hl] Hp. rewrite Forall_forall in Hr. split; cbn; try done.
  - by apply removePacket_perm.
  - apply removePacket_sublist.
  - intros x ->. rewrite u64_sub_l. f_equal. unfold sumLen. cbn. lia.
  - by exists 0%nat.
  - intros Hstop. apply stop_ok_queued; [done|by apply Hr|lia].
Qed.

(** An operation that changes other fields only, before or after. *)
Lemma effect_then_none h h' h'' a l : effect h h' a l -> effect h' h'' [] [] -> effect h h'' a l.
Proof. intros H1 H2. pose proof (effect_trans _ _ _ _ _ _ _ H1 H2). by rewrite !app_nil_r in *. Qed.

Lemma effect_losePacket h p :
  history_ok h -> p ∈ packetHistory h -> effect h (losePacket h p) [] [p].
Proof.
  intros Hh Hp. eapply effect_then_none; [by apply effect_queue|]. by apply effect_none.
Qed.

Lemma effect_queueRTO h p :
  history_ok h -> p ∈ packetHistory h -> effect h (queueRTO h p) [] [p].
Proof.
  intros Hh Hp. eapply effect_then_none; [by apply effect_queue|]. by apply effect_none.
Qed.

(** The two loops over a sublist of the history. *)
Lemma effect_foldl (step : handler -> Packet -> handler) (ack : bool) l h :
  (forall h p, history_ok h -> p ∈ packetHistory h ->
     effect h (step h p) (if ack then [p] else []) (if ack then [] else [p])) ->
  (forall h p, packetHistory (step h p) = removePacket (pkt_Number p) (packetHistory h)) ->
  history_ok h -> l `sublist_of` packetHistory h ->
  effect h (foldl step h l) (if ack then l else []) (if ack then [] else l).
Proof.
  intros Hstep Hrem. revert h. induction l as [|p l IH]; intros h Hh Hl.
  { destruct ack; by apply effect_none. }
  assert (Hp : p ∈ packetHistory h) by (eapply elem_of_sublist; [by left|done]).
  pose proof (Hstep h p Hh Hp) as H1.
  assert (H2 : l `sublist_of` packetHistory (step h p)).
  { rewrite Hrem. apply removePacket_rest; [apply Hh|done]. }
  pose proof (effect_trans _ _ _ _ _ _ _ H1 (IH _ (effect_history _ _ _ _ H1 Hh) H2)) as H3.
  by destruct ack.
Qed.

Lemma effect_acks l h :
  history_ok h -> l `sublist_of` packetHistory h -> effect h (foldl ackPacket h l) l [].
Proof. apply (effect_foldl ackPacket true); [apply effect_ackPacket|done]. Qed.

Lemma effect_losses l h :
  history_ok h -> l `sublist_of` packetHistory h -> effect h (foldl losePacket h l) [] l.
Proof. apply (effect_foldl losePacket false); [apply effect_losePacket|done]. Qed.

(** When the packets with [P] go, the others stay, in their order. *)
Lemma effect_filter (P : Packet -> Prop) `{!forall p, Decision (P p)} h h' a l :
  history_ok h -> effect h h' a l -> a ++ l ≡ₚ filter P (packetHistory h) ->
  packetHistory h' = filter (fun p => ~ P p) (packetHistory h).
Proof.
  intros Hh He Hal. apply (StronglySorted_unique sent_before).
  - eapply sorted_sublist; [by eapply ef_sub|apply Hh].
  - eapply sorted_sublist; [apply sublist_filter|apply Hh].
  - apply (Permutation_app_inv_l (filter P (packetHistory h))). rewrite <- filter_perm, <- Hal.
    by rewrite (ef_perm _ _ _ _ He), app_assoc.
Qed.

Lemma collectLost_spec largest now delay lt l :
  StronglySorted sent_before l ->
  (collectLost largest now delay lt l).1 =
    filter (fun p => pkt_Number p <= largest /\ delay < TimeSub now (pkt_SendTime p)) l.
Proof.
  intros Hs. revert lt. induction l as [|p l IH]; intros lt; [done|]. cbn [collectLost].
  apply StronglySorted_cons in Hs as [Hp Hs]. rewrite Forall_forall in Hp. specialize (IH Hs).
  destruct (Z.ltb_spec largest (pkt_Number p)).
  - symmetry. apply filter_none. intros q [->|Hq]%elem_of_cons [? _]; [lia|].
    apply Hp in Hq. unfold sent_before in Hq. lia.
  - rewrite filter_cons. destruct (Z.ltb_spec delay (TimeSub now (pkt_SendTime p))).
    + rewrite decide_True by lia. specialize (IH lt).
      destruct (collectLost largest now delay lt l) as [lost lt']. cbn in *. by rewrite IH.
    + by rewrite decide_False, IH by lia.
Qed.

Lemma upToLargestAcked_spec largest l :
  StronglySorted sent_before l ->
  upToLargestAcked largest l = filter (fun p => pkt_Number p <= largest) l.
Proof.
  intros Hs. induction l as [|p l IH]; [done|]. cbn [upToLargestAcked].
  apply StronglySorted_cons in Hs as [Hp Hs]. rewrite Forall_forall in Hp. specialize (IH Hs).
  destruct (Z.ltb_spec largest (pkt_Number p)).
  - symmetry. apply filter_none. intros q [->|Hq]%elem_of_cons ?; [lia|].
    apply Hp in Hq. unfold sent_before in Hq. lia.
  - by rewrite IH, filter_cons_True by lia.
Qed.

(** The packets time loss detection gives up at [now]. *)
Definition timedOut (h : handler) (now : Z) : list Packet :=
  filter (fun p => pkt_Number p <= sph_LargestAcked h /\
                   delayUntilLost h < TimeSub now (pkt_SendTime p)) (packetHistory h).

Lemma effect_detectLost h now :
  history_ok h -> effect h (detectLostPackets h now) [] (timedOut h now).
Proof.
  intros Hh. unfold detectLostPackets, timedOut.
  pose proof (collectLost_spec (sph_LargestAcked h) now (delayUntilLost h) 0 (packetHistory h)
    (hi_sorted _ Hh)) as Hl.
  destruct (collectLost _ _ _ _ _) as [lost lt]. cbn in Hl. rewrite Hl. clear Hl.
  set (l := filter _ _). set (h0 := _ <| losses := _ |>).
  assert (H0 : effect h h0 [] []) by (by apply effect_none).
  apply (effect_trans _ _ _ [] [] [] l H0). apply effect_losses; [by eapply effect_history|].
  apply sublist_filter.
Qed.

Lemma effect_SetInflightAsLost h :
  history_ok h ->
  effect h (SetInflightAsLost h) []
    (filter (fun p => pkt_Number p <= sph_LargestAcked h) (packetHistory h)).
Proof.
  intros Hh. unfold SetInflightAsLost. rewrite upToLargestAcked_spec by apply Hh.
  set (l := filter _ _). set (h0 := _ <| losses := _ |>).
  assert (H0 : effect h h0 [] []) by (by apply effect_none).
  apply (effect_trans _ _ _ [] [] [] l H0). apply effect_losses; [by eapply effect_history|].
  apply sublist_filter.
Qed.

Lemma effect_updateAlarm h : effect h (updateLossDetectionAlarm h) [] [].
Proof. unfold updateLossDetectionAlarm. repeat case_match; by apply effect_none. Qed.

(** *** Acknowledgements *)
Definition acksPacket (f : AckFrame) (p : Packet) : Prop := Ack.AcksPacket f (pkt_Number p) = true.
#[export] Instance acksPacket_dec f p : Decision (acksPacket f p).
Proof. unfold acksPacket. apply _. Defined.

(** The guards of [ReceivedAck] that let an ACK through. *)
Definition processed (h : handler) (f : AckFrame) (withPacketNumber : Z) : bool :=
  (LargestAcked f <=? lastSentPacketNumber h) &&
  (largestReceivedPacketWithAck h <? withPacketNumber) &&
  (largestInOrderAcked h <? LargestAcked f) && negb (skippedPacketsAcked h f).

Lemma effect_ackPackets h f rcvTime l :
  history_ok h -> l `sublist_of` packetHistory h ->
  effect h (ackPackets h f rcvTime l) l [] /\
  sph_LargestAcked (ackPackets h f rcvTime l) = sph_LargestAcked h.
Proof.
  intros Hh Hl. unfold ackPackets.
  assert (Hlargest : sph_LargestAcked (foldl ackPacket h l) = sph_LargestAcked h).
  { clear Hh Hl. revert h. induction l as [|p l IH]; intros h; [done|]. cbn. by rewrite IH. }
  destruct l as [|p l]; [split; [by apply effect_none|done]|].
  pose proof (effect_acks _ _ Hh Hl) as He. cbv zeta. case_match; [|done]. split; [|done].
  eapply effect_then_none; [done|by apply effect_none].
Qed.

Lemma stop_ok_ack lastSent s f :
  stop_ok lastSent s -> 0 <= LargestAcked f <= lastSent -> lastSent < maxPacketNumber ->
  stop_ok lastSent (StopWaitingManager.ReceivedAck s f).
Proof.
  unfold stop_ok, maxPacketNumber, StopWaitingManager.ReceivedAck.
  intros (Ha & Hb & Hc) Hp Hl. destruct (Z.leb_spec (nextLeastUnacked s) (LargestAcked f)); [|done].
  cbn. usmall. split; [lia|]. split; [lia|]. intros f' Hf'. specialize (Hc f' Hf'). lia.
Qed.

Lemma accepted_largest ranges largest lowest : accepted ranges largest lowest -> 0 <= largest.
Proof. intros [[Hl _]|(_ & -> & _)]; [unfold in_range in Hl|]; lia. Qed.

(** The end of [ReceivedAck]: garbage collection and the STOP_WAITING manager. *)
Lemma effect_ack_end h f :
  history_ok h -> 0 <= LargestAcked f <= lastSentPacketNumber h ->
  let h' := garbageCollectSkippedPackets (updateLossDetectionAlarm h) in
  effect h (h' <| stopWaiting := StopWaitingManager.ReceivedAck (stopWaiting h') f |>) [] [].
Proof.
  intros Hh Hf h'. eapply effect_then_none; [apply effect_updateAlarm|].
  assert (history_ok (updateLossDetectionAlarm h)) as [_ _ Hlast]
    by (eapply effect_history; [apply effect_updateAlarm|done]).
  assert (Hl : lastSentPacketNumber (updateLossDetectionAlarm h) = lastSentPacketNumber h)
    by apply (ef_last _ _ _ _ (effect_updateAlarm h)).
  split; subst h'; cbn; try done.
  - by rewrite app_nil_r.
  - intros x ->. f_equal. lia.
  - by eexists.
  - intros Hstop. rewrite Hl in *. apply stop_ok_ack; [done..|lia].
Qed.

Lemma sampleRTT_none h f rcvTime n :
  effect h (sampleRTT h f rcvTime n) [] [] /\
  packetHistory (sampleRTT h f rcvTime n) = packetHistory h /\
  sph_LargestAcked (sampleRTT h f rcvTime n) = sph_LargestAcked h.
Proof.
  unfold sampleRTT, maybeUpdateRTT. destruct (findSent _ _); (split; [by apply effect_none|done]).
Qed.

(** The delay after which a packet is late, when the losses of an ACK are detected. *)
Definition lossDelay (h : handler) (f : AckFrame) (rcvTime n : Z) : Z :=
  delayUntilLost (ackPackets (sampleRTT h f rcvTime n) f rcvTime (filter (acksPacket f) (packetHistory h))).

(** An ACK that passes the guards, from the RTT sample on. *)
Lemma effect_processAck h f rcvTime n1 n2 :
  history_ok h -> accepted (AckRanges f) (LargestAcked f) (LowestAcked f) ->
  sph_LargestAcked h = LargestAcked f -> LargestAcked f <= lastSentPacketNumber h ->
  let h1 := sampleRTT h f rcvTime n1 in
  determineNewlyAckedPackets h1 f = Ret (filter (acksPacket f) (packetHistory h)) /\
  let h2 := detectLostPackets
    (ackPackets h1 f rcvTime (filter (acksPacket f) (packetHistory h))) n2 in
  effect h h2 (filter (acksPacket f) (packetHistory h))
    (filter (fun p => pkt_Number p <= LargestAcked f /\ lossDelay h f rcvTime n1 < TimeSub n2 (pkt_SendTime p))
      (filter (fun p => ~ acksPacket f p) (packetHistory h))).
Proof.
  intros Hh Hacc Hlarge Hle. unfold lossDelay.
  destruct (sampleRTT_none h f rcvTime n1) as (E1 & Hist1 & L1).
  set (h1 := sampleRTT h f rcvTime n1) in *. set (acked := filter (acksPacket f) _).
  assert (Hh1 : history_ok h1) by (by eapply effect_history).
  assert (Hsub : acked `sublist_of` packetHistory h1) by (rewrite Hist1; apply sublist_filter).
  destruct (effect_ackPackets h1 f rcvTime acked Hh1 Hsub) as [E2 L2].
  cbv zeta. split.
  { unfold determineNewlyAckedPackets. rewrite Hist1. by apply newlyAcked_spec; [apply Hh|]. }
  pose proof (effect_history _ _ _ _ E2 Hh1) as Hh2.
  pose proof (effect_detectLost _ n2 Hh2) as E3. unfold timedOut in E3.
  rewrite L2, L1, Hlarge, (effect_filter (acksPacket f) h1 _ _ _ Hh1 E2), Hist1 in E3
    by (by rewrite app_nil_r, Hist1).
  pose proof (effect_trans _ _ _ _ _ _ _ E1 (effect_trans _ _ _ _ _ _ _ E2 E3)) as E.
  by rewrite app_nil_r in E.
Qed.

Lemma effect_ReceivedAck h f pn rcvTime n1 n2 :
  history_ok h -> accepted (AckRanges f) (LargestAcked f) (LowestAcked f) ->
  processed h f pn = true ->
  let delay := lossDelay (h <| largestReceivedPacketWithAck := pn |> <| sph_LargestAcked := LargestAcked f |>) f rcvTime n1 in
  (ReceivedAck h f pn rcvTime n1 n2).2 = Ret tt /\
  effect h (ReceivedAck h f pn rcvTime n1 n2).1 (filter (acksPacket f) (packetHistory h))
    (filter (fun p => pkt_Number p <= LargestAcked f /\ delay < TimeSub n2 (pkt_SendTime p))
      (filter (fun p => ~ acksPacket f p) (packetHistory h))).
Proof.
  intros Hh Hacc Hproc. unfold processed in Hproc.
  apply andb_true_iff in Hproc as [Hproc Hskip]. apply andb_true_iff in Hproc as [Hproc Hlarge].
  apply andb_true_iff in Hproc as [Hunsent Hdup]. rewrite negb_true_iff in Hskip.
  unfold ReceivedAck. destruct (Z.ltb_spec (lastSentPacketNumber h) (LargestAcked f)); [lia|].
  destruct (Z.leb_spec pn (largestReceivedPacketWithAck h)); [lia|]. cbv zeta.
  change (largestInOrderAcked (h <| largestReceivedPacketWithAck := pn |>)) with (largestInOrderAcked h).
  destruct (Z.leb_spec (LargestAcked f) (largestInOrderAcked h)); [lia|].
  set (h1 := h <| largestReceivedPacketWithAck := pn |> <| sph_LargestAcked := LargestAcked f |>).
  change (skippedPacketsAcked h1 f) with (skippedPacketsAcked h f). rewrite Hskip.
  assert (E1 : effect h h1 [] []) by (by apply effect_none).
  assert (Hh1 : history_ok h1) by (by eapply effect_history).
  destruct (effect_processAck h1 f rcvTime n1 n2) as (Hdet & E2); [done..|cbn; lia|].
  rewrite Hdet. split; [done|]. cbn [fst]. cbv zeta in E2.
  pose proof (effect_history _ _ _ _ E2 Hh1) as Hh2. set (h2 := detectLostPackets _ _) in *.
  pose proof (effect_trans _ _ _ _ _ _ _ E1 E2) as E. eapply effect_then_none; [apply E|].
  apply effect_ack_end; [done|]. rewrite (ef_last _ _ _ _ E2). apply accepted_largest in Hacc.
  cbn. lia.
Qed.

Lemma effect_ReceivedAck_ignored h f pn rcvTime n1 n2 :
  processed h f pn = false -> effect h (ReceivedAck h f pn rcvTime n1 n2).1 [] [].
Proof.
  unfold processed. intros Hproc. unfold ReceivedAck.
  destruct (Z.ltb_spec (lastSentPacketNumber h) (LargestAcked f)); [by apply effect_none|].
  destruct (Z.leb_spec pn (largestReceivedPacketWithAck h)); [by apply effect_none|]. cbv zeta.
  change (largestInOrderAcked (h <| largestReceivedPacketWithAck := pn |>)) with (largestInOrderAcked h).
  destruct (Z.leb_spec (LargestAcked f) (largestInOrderAcked h)); [by apply effect_none|].
  set (h1 := h <| largestReceivedPacketWithAck := pn |> <| sph_LargestAcked := LargestAcked f |>).
  change (skippedPacketsAcked h1 f) with (skippedPacketsAcked h f).
  destruct (skippedPacketsAcked h f); [by apply effect_none|].
  cbn [negb] in Hproc. rewrite andb_true_r in Hproc. lia.
Qed.

(** *** CLOSE_PATH *)
Definition closesPacket (f : ClosePathFrame) (p : Packet) : Prop :=
  ClosePath.AcksPacket f (pkt_Number p) = true.
#[export] Instance closesPacket_dec f p : Decision (closesPacket f p).
Proof. unfold closesPacket. apply _. Defined.

Definition processedClosePath (h : handler) (f : ClosePathFrame) (withPacketNumber : Z) : bool :=
  (cp_LargestAcked f <=? lastSentPacketNumber h) &&
  (largestReceivedPacketWithAck h <? withPacketNumber) && negb (skippedPacketsAckedClosePath h f).

Lemma foldl_ack_largest l h : sph_LargestAcked (foldl ackPacket h l) = sph_LargestAcked h.
Proof. revert h. induction l as [|p l IH]; intros h; [done|]. cbn. by rewrite IH. Qed.

Lemma effect_garbageCollect h : effect h (garbageCollectSkippedPackets h) [] [].
Proof.
  unfold garbageCollectSkippedPackets. split; cbn; try done.
  - by rewrite app_nil_r.
  - intros x ->. f_equal. lia.
  - by eexists.
Qed.

Lemma effect_ReceivedClosePath h f pn :
  history_ok h -> accepted (cp_AckRanges f) (cp_LargestAcked f) (cp_LowestAcked f) ->
  processedClosePath h f pn = true ->
  (ReceivedClosePath h f pn).2 = Ret tt /\
  effect h (ReceivedClosePath h f pn).1 (filter (closesPacket f) (packetHistory h))
    (filter (fun p => pkt_Number p <= sph_LargestAcked h)
      (filter (fun p => ~ closesPacket f p) (packetHistory h))).
Proof.
  intros Hh Hacc Hproc. unfold processedClosePath in Hproc.
  apply andb_true_iff in Hproc as [Hproc Hskip]. apply andb_true_iff in Hproc as [Hunsent Hdup].
  rewrite negb_true_iff in Hskip. unfold ReceivedClosePath.
  destruct (Z.ltb_spec (lastSentPacketNumber h) (cp_LargestAcked f)); [lia|].
  destruct (Z.leb_spec pn (largestReceivedPacketWithAck h)); [lia|]. cbv zeta.
  set (h1 := h <| largestReceivedPacketWithAck := pn |>).
  change (skippedPacketsAckedClosePath h1 f) with (skippedPacketsAckedClosePath h f). rewrite Hskip.
  unfold determineNewlyAckedPacketsClosePath.
  change (packetHistory h1) with (packetHistory h).
  rewrite newlyAcked_spec by (apply Hh || done). split; [done|]. cbn [fst].
  assert (E1 : effect h h1 [] []) by (by apply effect_none).
  assert (Hh1 : history_ok h1) by (by eapply effect_history).
  pose proof (effect_acks (filter (closesPacket f) (packetHistory h)) h1 Hh1 (sublist_filter _ _)) as E2.
  pose proof (effect_history _ _ _ _ E2 Hh1) as Hh2.
  pose proof (effect_SetInflightAsLost _ Hh2) as E3.
  rewrite foldl_ack_largest, (effect_filter (closesPacket f) h1 _ _ _ Hh1 E2) in E3
    by (by rewrite app_nil_r).
  eapply effect_then_none; [|apply effect_garbageCollect].
  pose proof (effect_trans _ _ _ _ _ _ _ E1 (effect_trans _ _ _ _ _ _ _ E2 E3)) as E.
  by rewrite app_nil_r in E.
Qed.

Lemma effect_ReceivedClosePath_ignored h f pn :
  processedClosePath h f pn = false -> effect h (ReceivedClosePath h f pn).1 [] [].
Proof.
  unfold processedClosePath. intros Hproc. unfold ReceivedClosePath.
  destruct (Z.ltb_spec (lastSentPacketNumber h) (cp_LargestAcked f)); [by apply effect_none|].
  destruct (Z.leb_spec pn (largestReceivedPacketWithAck h)); [by apply effect_none|]. cbv zeta.
  set (h1 := h <| largestReceivedPacketWithAck := pn |>).
  change (skippedPacketsAckedClosePath h1 f) with (skippedPacketsAckedClosePath h f).
  destruct (skippedPacketsAckedClosePath h f); [by apply effect_none|].
  cbn [negb] in Hproc. rewrite andb_true_r in Hproc. lia.
Qed.

(** *** Alarms *)
Lemma queueRTO_front h p l : packetHistory h = p :: l -> packetHistory (queueRTO h p) = l.
Proof. intros H. cbn. rewrite H. cbn. by rewrite Z.eqb_refl. Qed.

Lemma effect_retransmitAll fuel h :
  history_ok h -> (length (packetHistory h) <= fuel)%nat ->
  effect h (retransmitAll_loop fuel h) [] (packetHistory h).
Proof.
  revert h. induction fuel as [|fuel IH]; intros h Hh Hf; cbn [retransmitAll_loop].
  - destruct (packetHistory h) eqn:E; [by apply effect_none|cbn in Hf; lia].
  - destruct (packetHistory h) as [|p l] eqn:E; [by apply effect_none|].
    pose proof (effect_queueRTO h p Hh) as E1. rewrite E in E1. specialize (E1 ltac:(by left)).
    pose proof (queueRTO_front h p l E) as Hl.
    assert (E2 : effect (queueRTO h p) (retransmitAll_loop fuel (queueRTO h p)) [] l).
    { rewrite <- Hl. apply IH; [by eapply effect_history|]. rewrite Hl. cbn in Hf. lia. }
    exact (effect_trans _ _ _ _ _ _ _ E1 E2).
Qed.

Lemma effect_retransmitOldest h :
  history_ok h ->
  effect h (retransmitOldestPacket h) [] (take 1 (packetHistory h)) /\
  packetHistory (retransmitOldestPacket h) = drop 1 (packetHistory h).
Proof.
  intros Hh. unfold retransmitOldestPacket. destruct (packetHistory h) as [|p l] eqn:E.
  - split; [by apply effect_none|done].
  - split; [|by apply queueRTO_front]. apply effect_queueRTO; [done|]. rewrite E. by left.
Qed.

(** What an alarm queues: the packets found lost by time, the newest packet (TLP), every packet or
    the two oldest ones (RTO). *)
Definition alarmQueues (h : handler) (now : Z) (onRTO : option (Z -> bool)) : list Packet :=
  if negb (hasOutstandingRetransmittablePacket h) then []
  else if negb (lossTime h =? 0) then timedOut h now
  else if tlpCount h <? maxTailLossProbes
  then match last (packetHistory h) with Some p => [p] | None => [] end
  else if match onRTO with Some f => f (lastSentTime h) | None => false end
  then packetHistory h else take 2 (packetHistory h).

Lemma effect_OnAlarm h now onRTO :
  history_ok h -> effect h (OnAlarm h now onRTO) [] (alarmQueues h now onRTO).
Proof.
  intros Hh. unfold OnAlarm, alarmQueues.
  destruct (negb (hasOutstandingRetransmittablePacket h)); [by apply effect_none|].
  eapply effect_then_none; [|apply effect_updateAlarm].
  destruct (negb (lossTime h =? 0)); [by apply effect_detectLost|].
  destruct (tlpCount h <? maxTailLossProbes).
  - apply effect_then_none with (h' := retransmitTLP h); [|by apply effect_none]. unfold retransmitTLP.
    destruct (last (packetHistory h)) eqn:E; [|by apply effect_none].
    apply effect_queue; [done|]. by apply last_Some_elem_of.
  - destruct (match onRTO with Some _ => _ | None => _ end).
    + apply effect_then_none with (h' := retransmitAll_loop (length (packetHistory h)) h);
        [|by apply effect_none]. by apply effect_retransmitAll.
    + apply effect_then_none with (h' := retransmitOldestPacket (retransmitOldestPacket h));
        [|by apply effect_none].
      destruct (effect_retransmitOldest h Hh) as [E1 H1].
      destruct (effect_retransmitOldest (retransmitOldestPacket h)) as [E2 _];
        [by eapply effect_history|].
      rewrite H1 in E2. pose proof (effect_trans _ _ _ _ _ _ _ E1 E2) as E. cbn [app] in E.
      by destruct (packetHistory h) as [|? [|? ?]].
Qed.

(** *** Skipped packet numbers *)
Record skipped_ok (lastSent : Z) (l : list Z) : Prop := {
  sk_sorted : StronglySorted Z.lt l;
  sk_range : Forall (fun x => x <= lastSent) l;
  sk_length : Z.of_nat (length l) <= MaxTrackedSkippedPackets
}.

Lemma skipped_ok_drop lastSent l n : skipped_ok lastSent l -> skipped_ok lastSent (drop n l).
Proof.
  intros [Hs Hr Hl]. split; [| |rewrite length_drop; lia].
  - rewrite <- (take_drop n l) in Hs. by apply StronglySorted_app in Hs as (_ & _ & ?).
  - by apply Forall_drop.
Qed.

Lemma skipped_ok_mono a b l : skipped_ok a l -> a <= b -> skipped_ok b l.
Proof. intros [Hs Hr Hl] ?. split; [done| |done]. eapply Forall_impl; [done|]. cbn. lia. Qed.

Lemma trackSkipped_spec n l p :
  skipped_ok (p - 1) l ->
  skipped_ok (p + Z.of_nat n - 1) (trackSkipped l p n) /\
  forall x, x ∈ trackSkipped l p n -> x ∈ l \/ p <= x.
Proof.
  revert l p. induction n as [|n IH]; intros l p Hl; cbn [trackSkipped].
  { split; [by replace (p + Z.of_nat 0 - 1) with (p - 1) by lia|auto]. }
  set (l' := if _ <? _ then _ else _).
  assert (Hl' : skipped_ok p l' /\ forall x, x ∈ l' -> x ∈ l \/ p <= x).
  { destruct Hl as [Hs Hr Hlen].
    assert (Hs' : StronglySorted Z.lt (l ++ [p])).
    { apply StronglySorted_app_2; [|done|repeat constructor]. intros x y Hx Hy.
      apply list_elem_of_singleton in Hy as ->. rewrite Forall_forall in Hr. apply Hr in Hx. lia. }
    assert (Hr' : Forall (fun x => x <= p) (l ++ [p])).
    { apply Forall_app_2; [|repeat constructor; lia]. eapply Forall_impl; [done|]. cbn. lia. }
    assert (Hin : forall x, x ∈ l ++ [p] -> x ∈ l \/ p <= x).
    { intros x [?| ->%list_elem_of_singleton]%elem_of_app; [by left|right; lia]. }
    subst l'. destruct (Z.ltb_spec MaxTrackedSkippedPackets (Z.of_nat (length (l ++ [p])))).
    - split; [|intros x Hx; apply Hin; by destruct (l ++ [p]); [|right]].
      split; [by destruct Hs'|by destruct Hr'|]. rewrite length_app in *. cbn in *.
      destruct l; cbn in *; [lia|rewrite length_app; cbn; lia].
    - by split. }
  destruct Hl' as [Hok Hin]. destruct (IH l' (p + 1)) as [H1 H2].
  { by replace (p + 1 - 1) with p by lia. }
  split; [by replace (p + Z.of_nat (S n) - 1) with (p + 1 + Z.of_nat n - 1) by lia|].
  intros x Hx. destruct (H2 x Hx) as [?%Hin|]; [done|right; lia].
Qed.

(** ** Runs of the handler *)

(** The history of a run: the retransmittable packets sent, those acknowledged, those given up as
    lost, and the packets put into and taken out of the retransmission queue. *)
Record Ghost := mkGhost {
  g_sent : list Packet;
  g_acked : list Packet;
  g_lost : list Packet;
  g_queued : list Packet;
  g_dequeued : list Packet;
  g_duplicates : Z
}.

Definition ghost0 : Ghost := mkGhost [] [] [] [] [] 0.

Definition addEffect (g : Ghost) (acked lost : list Packet) : Ghost :=
  mkGhost (g_sent g) (g_acked g ++ acked) (g_lost g ++ lost) (g_queued g ++ lost) (g_dequeued g)
    (g_duplicates g).

(** The record [SentPacket] keeps of a packet. *)
Definition tracked (now : Z) (p : Packet) : list Packet :=
  match stripNonRetransmittableFrames (pkt_Frames p) with
  | [] => []
  | fs => [mkPacket (pkt_Number p) fs (pkt_Length p) (pkt_EncryptionLevel p) now]
  end.

Definition addSent (g : Ghost) (ps : list Packet) : Ghost :=
  mkGhost (g_sent g ++ ps) (g_acked g) (g_lost g) (g_queued g) (g_dequeued g) (g_duplicates g).

Record sent_ok (h : handler) (g : Ghost) : Prop := {
  so_history : history_ok h;
  so_content : Forall (fun p => pkt_Frames p <> [] /\
    Forall (fun f => IsFrameRetransmittable f = true) (pkt_Frames p)) (packetHistory h);
  so_bytes : bytesInFlight h = u64 (sumLen (packetHistory h));
  so_tracked : Z.of_nat (length (retransmissionQueue h) + length (packetHistory h)) <=
    MaxTrackedSentPackets + g_duplicates g;
  so_duplicates : 0 <= g_duplicates g;
  so_skipped : skipped_ok (lastSentPacketNumber h) (skippedPackets h);
  so_disjoint : forall p, p ∈ packetHistory h -> pkt_Number p ∉ skippedPackets h;
  so_stop : stop_ok (lastSentPacketNumber h) (stopWaiting h);
  so_conserved : g_sent g ≡ₚ packetHistory h ++ g_acked g ++ g_lost g;
  so_queue : g_queued g = g_dequeued g ++ retransmissionQueue h;
  so_sent : StronglySorted sent_before (g_sent g);
  so_sent_range : Forall (fun p => pkt_Number p <= lastSentPacketNumber h) (g_sent g)
}.

Lemma addEffect_none g : addEffect g [] [] = g.
Proof. destruct g. unfold addEffect. cbn. by rewrite !app_nil_r. Qed.

Lemma sent_ok_effect h h' g a l : sent_ok h g -> effect h h' a l -> sent_ok h' (addEffect g a l).
Proof.
  intros [] He. pose proof (ef_perm _ _ _ _ He) as Hp. pose proof (ef_sub _ _ _ _ He) as Hsub.
  destruct (ef_skipped _ _ _ _ He) as [n Hn]. split; cbn.
  - by eapply effect_history.
  - rewrite Forall_forall in *. intros p Hp'. by eapply so_content0, elem_of_sublist.
  - rewrite (ef_bytes _ _ _ _ He _ so_bytes0). f_equal. rewrite Hp, !sumLen_app. lia.
  - rewrite (ef_queue _ _ _ _ He), length_app. rewrite Hp, !length_app in so_tracked0. lia.
  - done.
  - rewrite Hn, (ef_last _ _ _ _ He). by apply skipped_ok_drop.
  - intros p Hp'. rewrite Hn. intros Hx. apply (so_disjoint0 p); [by eapply elem_of_sublist|].
    by eapply elem_of_sublist; [|apply sublist_drop].
  - rewrite (ef_last _ _ _ _ He). by apply (ef_stop _ _ _ _ He).
  - rewrite so_conserved0, Hp. solve_Permutation.
  - by rewrite (ef_queue _ _ _ _ He), so_queue0, app_assoc.
  - done.
  - by rewrite (ef_last _ _ _ _ He).
Qed.

Lemma sent_ok_none h h' g : sent_ok h g -> effect h h' [] [] -> sent_ok h' g.
Proof. intros Hok He. rewrite <- (addEffect_none g). by eapply sent_ok_effect. Qed.

Lemma strip_retransmittable fs :
  Forall (fun f => IsFrameRetransmittable f = true) (stripNonRetransmittableFrames fs).
Proof. induction fs as [|f fs IH]; cbn; [constructor|]. case_match; [by constructor|done]. Qed.

Lemma stop_ok_mono a b s : stop_ok a s -> a <= b -> stop_ok b s.
Proof. unfold stop_ok. intros (? & ? & ?) ?. split; [done|]. split; [lia|done]. Qed.

Lemma tracked_spec now p :
  Forall (fun q => pkt_Number q = pkt_Number p /\ pkt_Frames q <> [] /\
    Forall (fun f => IsFrameRetransmittable f = true) (pkt_Frames q)) (tracked now p).
Proof.
  unfold tracked. pose proof (strip_retransmittable (pkt_Frames p)) as H.
  destruct (stripNonRetransmittableFrames (pkt_Frames p)); [constructor|].
  apply Forall_singleton. by split.
Qed.

Lemma sorted_tracked now p l :
  StronglySorted sent_before l -> (forall x, x ∈ l -> pkt_Number x < pkt_Number p) ->
  StronglySorted sent_before (l ++ tracked now p).
Proof.
  intros Hs Hl. pose proof (tracked_spec now p) as Ht. rewrite Forall_forall in Ht.
  apply StronglySorted_app_2; [|done|].
  - intros x y Hx Hy. apply Hl in Hx. apply Ht in Hy as [Hy _]. unfold sent_before. lia.
  - unfold tracked. destruct (stripNonRetransmittableFrames _); repeat constructor.
Qed.

(** The handler after a packet is recorded, before the congestion controller and the alarm. *)
Lemma sent_ok_record h g now p (h' : handler) :
  sent_ok h g -> lastSentPacketNumber h < pkt_Number p < maxPacketNumber ->
  Z.of_nat (length (retransmissionQueue h) + length (packetHistory h) + 1) <= MaxTrackedSentPackets ->
  packetHistory h' = packetHistory h ++ tracked now p ->
  bytesInFlight h' = u64 (sumLen (packetHistory h ++ tracked now p)) ->
  retransmissionQueue h' = retransmissionQueue h -> stopWaiting h' = stopWaiting h ->
  lastSentPacketNumber h' = pkt_Number p ->
  skippedPackets h' = trackSkipped (skippedPackets h) (lastSentPacketNumber h + 1)
    (Z.to_nat (pkt_Number p - (lastSentPacketNumber h + 1))) ->
  sent_ok h' (addSent g (tracked now p)).
Proof.
  intros [[Hs Hr Hl] Hcont Hbytes Htr Hdup Hsk Hdis Hstop Hcons Hq Hsent Hsentr] Hpn Hmax Hh' Hb' Hq' Hw' Hl' Hsk'.
  destruct (trackSkipped_spec (Z.to_nat (pkt_Number p - (lastSentPacketNumber h + 1)))
    (skippedPackets h) (lastSentPacketNumber h + 1)) as [Hsk1 Hsk2].
  { by replace (lastSentPacketNumber h + 1 - 1) with (lastSentPacketNumber h) by lia. }
  rewrite Z2Nat.id in Hsk1 by lia. rewrite <- Hsk' in Hsk1, Hsk2.
  rewrite Forall_forall in Hr. pose proof (tracked_spec now p) as Ht. rewrite Forall_forall in Ht.
  assert (Hlen : (length (tracked now p) <= 1)%nat).
  { unfold tracked. destruct (stripNonRetransmittableFrames _); cbn; lia. }
  split.
  - split; rewrite ?Hh', ?Hl'; [| |lia].
    + apply sorted_tracked; [done|]. intros x Hx. apply Hr in Hx. lia.
    + rewrite Forall_forall. intros x [Hx|Hx]%elem_of_app; [apply Hr in Hx|apply Ht in Hx]; lia.
  - rewrite Hh'. apply Forall_app_2; [done|]. rewrite Forall_forall. intros x Hx. by apply Ht.
  - by rewrite Hb', Hh'.
  - rewrite Hq', Hh', length_app. cbn. lia.
  - done.
  - rewrite Hl'. eapply skipped_ok_mono; [done|]. lia.
  - rewrite Hh'. intros x [Hx|Hx]%elem_of_app Hin.
    + destruct (Hsk2 _ Hin) as [?|?]; [by eapply Hdis|]. apply Hr in Hx. lia.
    + apply Ht in Hx as [Hx _]. destruct Hsk1 as [_ Hsr _]. rewrite Forall_forall in Hsr.
      apply Hsr in Hin. lia.
  - rewrite Hw', Hl'. eapply stop_ok_mono; [done|lia].
  - rewrite Hh'. cbn. rewrite Hcons. solve_Permutation.
  - by rewrite Hq'.
  - rewrite Forall_forall in Hsentr. apply sorted_tracked; [done|]. intros x Hx.
    apply Hsentr in Hx. lia.
  - rewrite Hl'. apply Forall_app_2; [eapply Forall_impl; [done|]; cbn; lia|].
    rewrite Forall_forall. intros x Hx. apply Ht in Hx. lia.
Qed.

(** What [SentPacket] adds to the run. *)
Definition sentBy (h : handler) (now : Z) (p : Packet) : list Packet :=
  match (SentPacket h now p).2 with Ret _ => tracked now p | _ => [] end.

Lemma sent_ok_SentPacket h g now p :
  sent_ok h g -> pkt_Number p < maxPacketNumber ->
  sent_ok (SentPacket h now p).1 (addSent g (sentBy h now p)).
Proof.
  intros Hok Hp. assert (Hnone : addSent g [] = g).
  { destruct g. unfold addSent. cbn. by rewrite app_nil_r. }
  unfold sentBy, SentPacket.
  destruct (Z.leb_spec (pkt_Number p) (lastSentPacketNumber h)); [cbn; by rewrite Hnone|].
  destruct (Z.ltb_spec MaxTrackedSentPackets
    (Z.of_nat (length (retransmissionQueue h) + length (packetHistory h) + 1)));
    [cbn; by rewrite Hnone|].
  cbv zeta. cbn [fst snd].
  set (h1 := recordPacket _ _ _ _ _). apply sent_ok_none with (h := h1).
  2: { eapply effect_then_none; [|apply effect_updateAlarm]. by apply effect_none. }
  apply (sent_ok_record h g now p h1); [done|done|done|..]; subst h1; unfold tracked, recordPacket;
    destruct (stripNonRetransmittableFrames (pkt_Frames p)); cbn; try done.
  - by rewrite app_nil_r.
  - rewrite app_nil_r. apply Hok.
  - rewrite (so_bytes _ _ Hok), u64_add_idemp, sumLen_app, sumLen_one. done.
Qed.

Lemma sent_ok_stopWaiting h g force :
  sent_ok h g -> sent_ok (GetStopWaitingFrame h force).1 g.
Proof.
  intros Hok. unfold GetStopWaitingFrame.
  assert (Hstop : stop_ok (lastSentPacketNumber h)
    (StopWaitingManager.GetStopWaitingFrame (stopWaiting h) force).1).
  { destruct (so_stop _ _ Hok) as (Ha & Hb & Hc). unfold StopWaitingManager.GetStopWaitingFrame.
    destruct (Z.leb_spec (nextLeastUnacked (stopWaiting h)) (largestLeastUnackedSent (stopWaiting h))).
    - destruct force; [|done]. split; [done|]. split; [done|]. cbn. intros f Hf.
      destruct (lastStopWaitingFrame (stopWaiting h)) eqn:E; [by apply Hc|].
      destruct (Z.ltb_spec 0 (largestLeastUnackedSent (stopWaiting h))); [|done].
      injection Hf as <-. cbn. lia.
    - split; [cbn; lia|]. split; [done|]. cbn. intros f [= <-]. cbn. lia. }
  destruct (StopWaitingManager.GetStopWaitingFrame (stopWaiting h) force) as [s f]. cbn in *.
  destruct Hok as [[] ]. by repeat (split; try done).
Qed.

(** One operation of the handler, with what it adds to the run.  ACK and CLOSE_PATH frames are those
    the parsers accept. *)
Inductive sent_step : handler * Ghost -> handler * Ghost -> Prop :=
  | step_send h g now p :
      pkt_Number p < maxPacketNumber ->
      sent_step (h, g) ((SentPacket h now p).1, addSent g (sentBy h now p))
  | step_ack h g f pn rcvTime n1 n2 :
      accepted (AckRanges f) (LargestAcked f) (LowestAcked f) ->
      let h' := (ReceivedAck h f pn rcvTime n1 n2).1 in
      sent_step (h, g) (h', addEffect g
        (if processed h f pn then filter (acksPacket f) (packetHistory h) else [])
        (drop (length (retransmissionQueue h)) (retransmissionQueue h')))
  | step_close_path h g f pn :
      accepted (cp_AckRanges f) (cp_LargestAcked f) (cp_LowestAcked f) ->
      let h' := (ReceivedClosePath h f pn).1 in
      sent_step (h, g) (h', addEffect g
        (if processedClosePath h f pn then filter (closesPacket f) (packetHistory h) else [])
        (drop (length (retransmissionQueue h)) (retransmissionQueue h')))
  | step_alarm h g now onRTO :
      let h' := OnAlarm h now onRTO in
      sent_step (h, g) (h', addEffect g []
        (drop (length (retransmissionQueue h)) (retransmissionQueue h')))
  | step_inflight_lost h g :
      let h' := SetInflightAsLost h in
      sent_step (h, g) (h', addEffect g []
        (drop (length (retransmissionQueue h)) (retransmissionQueue h')))
  | step_dequeue h g :
      sent_step (h, g) ((DequeuePacketForRetransmission h).1,
        mkGhost (g_sent g) (g_acked g) (g_lost g) (g_queued g)
          (g_dequeued g ++ option_list (DequeuePacketForRetransmission h).2) (g_duplicates g))
  | step_duplicate h g p :
      sent_step (h, g) (DuplicatePacket h p,
        mkGhost (g_sent g) (g_acked g) (g_lost g) (g_queued g ++ [p]) (g_dequeued g)
          (g_duplicates g + 1))
  | step_stop_waiting h g force :
      sent_step (h, g) ((GetStopWaitingFrame h force).1, g).

Lemma effect_new h h' a l :
  effect h h' a l -> drop (length (retransmissionQueue h)) (retransmissionQueue h') = l.
Proof. intros He. by rewrite (ef_queue _ _ _ _ He), drop_app_length. Qed.

Lemma sent_ok_lost h h' g a l :
  sent_ok h g -> effect h h' a l ->
  sent_ok h' (addEffect g a (drop (length (retransmissionQueue h)) (retransmissionQueue h'))).
Proof. intros Hok He. rewrite (effect_new _ _ _ _ He). by eapply sent_ok_effect. Qed.

Lemma sent_ok_step s s' : sent_step s s' -> sent_ok s.1 s.2 -> sent_ok s'.1 s'.2.
Proof.
  intros Hstep Hok. pose proof (so_history _ _ Hok) as Hh.
  destruct Hstep as [h g now p Hp|h g f pn rcv n1 n2 Hf|h g f pn Hf|h g now cb|h g|h g|h g p|h g force];
    cbn [fst snd] in *.
  - by apply sent_ok_SentPacket.
  - destruct (processed h f pn) eqn:E.
    + destruct (effect_ReceivedAck h f pn rcv n1 n2 Hh Hf E) as (_ & He).
      by eapply sent_ok_lost.
    + eapply sent_ok_lost; [done|]. by apply effect_ReceivedAck_ignored.
  - destruct (processedClosePath h f pn) eqn:E; (eapply sent_ok_lost; [done|]).
    + by apply effect_ReceivedClosePath.
    + by apply effect_ReceivedClosePath_ignored.
  - eapply sent_ok_lost; [done|by apply effect_OnAlarm].
  - eapply sent_ok_lost; [done|by apply effect_SetInflightAsLost].
  - unfold DequeuePacketForRetransmission. destruct Hok.
    destruct (retransmissionQueue h) as [|p q] eqn:E; cbn.
    + split; try done; cbn; rewrite E; [done|by rewrite app_nil_r].
    + split; try done; cbn in *; [by destruct Hh|lia|]. by rewrite so_queue0, <- app_assoc.
  - destruct Hok. split; try done; cbn; [by destruct Hh|rewrite length_app; cbn; lia|lia|].
    by rewrite so_queue0, app_assoc.
  - by apply sent_ok_stopWaiting.
Qed.

Lemma sent_ok_reachable pathID cong h g :
  rtc sent_step (NewSentPacketHandler pathID cong, ghost0) (h, g) -> sent_ok h g.
Proof.
  intros Hr. change (sent_ok (h, g).1 (h, g).2). revert Hr. generalize (h, g).
  apply rtc_ind_r.
  - repeat (split; try done); cbn; try lia; try constructor; try set_solver.
  - intros s s' _ Hs IH. by eapply sent_ok_step.
Qed.
End Effects.

(** ** Example: a controller that keeps the last RTT sample and a fixed window *)
#[export] Instance demo_controller : SendAlgorithm Z := {|
  OnPacketSent c _ _ _ _ _ := c;
  GetCongestionWindow _ := 40000;
  MaybeExitSlowStart c := c;
  OnPacketAcked c _ _ _ := c;
  OnPacketLost c _ _ _ := c;
  OnRetransmissionTimeout c _ := c;
  RetransmissionDelay c := c;
  cong_SmoothedRTT c := c;
  rtt_UpdateRTT _ sendDelta _ _ := sendDelta;
  rtt_UpdateSessionRTT _ smoothedRTT := smoothedRTT;
  rtt_SmoothedRTT c := c;
  rtt_LatestRTT c := c;
  bdw_UpdateBDW c _ _ := c;
  bdw_GetBandwidth _ := 0
|}.

Definition demo_packet (n : Z) : Packet :=
  mkPacket n [FPing mkPingFrame] 100 EncryptionForwardSecure 0.
Definition demo_send (s : sentPacketHandler Z * Ghost) (now n : Z) : sentPacketHandler Z * Ghost :=
  ((Sent.SentPacket s.1 now (demo_packet n)).1, addSent s.2 (sentBy s.1 now (demo_packet n))).

(** Packets 1, 2, 4 and 5 are sent, number 3 is skipped. *)
Definition demo0 : sentPacketHandler Z * Ghost := (NewSentPacketHandler 1 0, ghost0).
Definition demo1 := demo_send demo0 1000 1.
Definition demo2 := demo_send demo1 2000 2.
Definition demo4 := demo_send demo2 3000 4.
Definition demo5 := demo_send demo4 900000 5.

Lemma demo_step s now n : n < maxPacketNumber -> sent_step s (demo_send s now n).
Proof. destruct s. intros. by apply step_send. Defined.

Lemma demo5_reachable : rtc sent_step demo0 demo5.
Proof.
  do 4 (eapply rtc_r; [|by apply demo_step]). apply rtc_refl.
Defined.

Lemma sorted_numbers l : StronglySorted sent_before l -> NoDup (map pkt_Number l).
Proof.
  induction 1 as [|p l Hs IH Hp]; [constructor|]. cbn. constructor; [|done].
  intros (q & Hq & Hin)%list_elem_of_fmap. rewrite Forall_forall in Hp.
  apply Hp in Hin. unfold sent_before in Hin. lia.
Qed.

Lemma filter_or_perm {A} (P Q : A -> Prop) `{!forall x, Decision (P x)} `{!forall x, Decision (Q x)}
    (l : list A) :
  filter P l ++ filter Q (filter (fun x => ~ P x) l) ≡ₚ filter (fun x => P x \/ Q x) l.
Proof.
  induction l as [|x l IH]; [done|]. rewrite !filter_cons.
  destruct (decide (P x)); [rewrite (decide_False (P := ~ P x)) by auto|
    rewrite (decide_True (P := ~ P x)) by done].
  - rewrite decide_True by auto. cbn. by rewrite IH.
  - rewrite filter_cons. destruct (decide (Q x)).
    + rewrite decide_True by auto. rewrite <- Permutation_middle. by rewrite IH.
    + by rewrite decide_False by tauto.
Qed.

(** ** Properties *)

(** C6: No packet is forgotten.  In every reachable state of a sent packet handler, over any
    congestion controller, the retransmittable packets sent are exactly, and without overlap, those
    in flight, those acknowledged by accepted ACK or CLOSE_PATH frames, and those queued for
    retransmission; the retransmission queue is first in, first out; [bytesInFlight] is the sum of
    the lengths in flight; the history is in sending order, holds only frames worth retransmitting
    and no skipped packet number. *)
Theorem sent_packets_conserved {C} `{!SendAlgorithm C} pathID (cong : C) h g :
  rtc sent_step (NewSentPacketHandler pathID cong, ghost0) (h, g) ->
  g_sent g ≡ₚ packetHistory h ++ g_acked g ++ g_lost g /\
  NoDup (map pkt_Number (g_sent g)) /\
  g_queued g = g_dequeued g ++ retransmissionQueue h /\
  bytesInFlight h = u64 (sumLen (packetHistory h)) /\
  StronglySorted sent_before (packetHistory h) /\
  forall p, p ∈ packetHistory h ->
    1 <= pkt_Number p <= lastSentPacketNumber h /\ pkt_Number p ∉ skippedPackets h /\
    pkt_Frames p <> [] /\ Forall (fun f => IsFrameRetransmittable f = true) (pkt_Frames p).
Proof.
  intros [[Hs Hr _] Hc Hb _ _ _ Hd _ Hp Hq Hsent _]%sent_ok_reachable.
  rewrite Forall_forall in Hr, Hc. split; [done|]. split; [by apply sorted_numbers|].
  do 3 (split; [done|]). intros p Hin. split; [by apply Hr|]. split; [by apply Hd|by apply Hc].
Qed.

Lemma sent_packets_conserved_witness :
  g_sent demo5.2 ≡ₚ packetHistory demo5.1 ++ g_acked demo5.2 ++ g_lost demo5.2 /\
  bytesInFlight demo5.1 = 400 /\ skippedPackets demo5.1 = [3].
Proof.
  split; [|by vm_compute].
  apply (sent_packets_conserved (C := Z) 1 0 demo5.1 demo5.2).
  rewrite <- surjective_pairing. exact demo5_reachable.
Defined.

(** *** The statistics of round-trip times

    The handler shares its statistics with the congestion controller; only a sample changes them. *)
Definition rtt_of {C} `{!SendAlgorithm C} (c : C) : Z * Z := (rtt_LatestRTT c, rtt_SmoothedRTT c).

Class RttLaws (C : Type) `{!SendAlgorithm C} : Prop := {
  exit_keeps_rtt (c : C) : rtt_of (MaybeExitSlowStart c) = rtt_of c;
  acked_keeps_rtt (c : C) number bytes inFlight : rtt_of (OnPacketAcked c number bytes inFlight) = rtt_of c;
  bdw_keeps_rtt (c : C) sentDelta sentDelay : rtt_of (bdw_UpdateBDW c sentDelta sentDelay) = rtt_of c
}.

#[export] Instance demo_rtt_laws : RttLaws Z.
Proof. by split. Qed.

(** The controller after the sample of an ACK: the packet with the largest number, if it is in flight *)
Definition sampled {C} `{!SendAlgorithm C} (h : sentPacketHandler C) (f : AckFrame) (rcvTime now : Z) : C :=
  match filter (fun p => pkt_Number p = LargestAcked f) (packetHistory h) with
  | p :: _ => rtt_UpdateRTT (congestion h) (TimeSub rcvTime (pkt_SendTime p)) (DelayTime f) now
  | [] => congestion h
  end.

(** A packet is late when it was sent 9/8 of a round trip ago. *)
Definition reorderingDelay {C} `{!SendAlgorithm C} (c : C) : Z := (9 * Z.max (rtt_LatestRTT c) (rtt_SmoothedRTT c)) `quot` 8.

Lemma findSent_filter number l :
  StronglySorted sent_before l -> Sent.findSent number l = head (filter (fun p => pkt_Number p = number) l).
Proof.
  induction l as [|p l IH]; intros Hs; [done|]. apply StronglySorted_cons in Hs as [Hp Hs]. cbn [Sent.findSent].
  rewrite filter_cons. destruct (Z.eqb_spec (pkt_Number p) number) as [->|Hne]; [by rewrite decide_True|].
  rewrite decide_False by done. destruct (Z.ltb_spec number (pkt_Number p)); [|by apply IH].
  destruct (filter (fun p => pkt_Number p = number) l) as [|q l'] eqn:E; [done|]. exfalso.
  assert (Hq : q ∈ filter (fun p => pkt_Number p = number) l) by (rewrite E; left).
  apply list_elem_of_filter in Hq as [Hn Hq]. rewrite Forall_forall in Hp. specialize (Hp q Hq). unfold sent_before in Hp. lia.
Qed.

Lemma acked_rtt {C} `{!SendAlgorithm C, !RttLaws C} (l : list Packet) (h : sentPacketHandler C) :
  rtt_of (congestion (foldl Sent.ackPacket h l)) = rtt_of (congestion h).
Proof. revert h. induction l as [|p l IH]; intros h; [done|]. cbn [foldl]. rewrite IH. cbn. apply acked_keeps_rtt. Qed.

Lemma lossDelay_spec {C} `{!SendAlgorithm C, !RttLaws C} (h : sentPacketHandler C) f pn rcvTime n :
  StronglySorted sent_before (packetHistory h) ->
  lossDelay (h <| largestReceivedPacketWithAck := pn |> <| sph_LargestAcked := LargestAcked f |>) f rcvTime n
  = reorderingDelay (sampled h f rcvTime n).
Proof.
  intros Hs. unfold lossDelay, Sent.delayUntilLost, reorderingDelay.
  match goal with |- (9 * Z.max (rtt_LatestRTT ?a) _) `quot` 8 = _ => set (c := a) end.
  assert (E : rtt_of c = rtt_of (sampled h f rcvTime n)); [|unfold rtt_of in E; by injection E as -> ->].
  subst c. unfold Sent.ackPackets. match goal with |- context [Sent.sampleRTT ?x _ _ _] => set (h1 := x) end.
  assert (E1 : rtt_of (congestion (Sent.sampleRTT h1 f rcvTime n)) = rtt_of (sampled h f rcvTime n)).
  { unfold Sent.sampleRTT, Sent.maybeUpdateRTT, sampled. rewrite findSent_filter by done.
    change (packetHistory h1) with (packetHistory h). destruct (filter _ _); [done|]. cbn. by rewrite exit_keeps_rtt. }
  rewrite <- E1. destruct (filter (acksPacket f) _) as [|p l]; [done|]. destruct (Sent.sentDelayOf _ _ _).
  - cbn [congestion setField set_congestion]. rewrite bdw_keeps_rtt. apply acked_rtt.
  - apply acked_rtt.
Qed.

(** C14: An ACK that passes the guards of [ReceivedAck] is processed without error: exactly the
    packets it acknowledges leave the history; of the others, exactly those up to the largest acknowledged
    number that were sent more than 9/8 of a round trip ago are queued for retransmission, in
    order; everything else stays in flight, and the bytes in flight are updated.  The round trip is the
    larger one of the latest and the smoothed round-trip time, after the sample that the ACK gives; the
    controller shares these statistics and leaves them alone ([RttLaws]). *)
Theorem received_ack_spec {C} `{!SendAlgorithm C, !RttLaws C} pathID (cong : C) h g f pn rcvTime n1 n2 :
  rtc sent_step (NewSentPacketHandler pathID cong, ghost0) (h, g) ->
  accepted (AckRanges f) (LargestAcked f) (LowestAcked f) -> processed h f pn = true ->
  let delay := reorderingDelay (sampled h f rcvTime n1) in
  let late p := pkt_Number p <= LargestAcked f /\ delay < TimeSub n2 (pkt_SendTime p) in
  let '(h', r) := Sent.ReceivedAck h f pn rcvTime n1 n2 in
  r = Ret tt /\
  packetHistory h' = filter (fun p => ~ (acksPacket f p \/ late p)) (packetHistory h) /\
  retransmissionQueue h' = retransmissionQueue h ++
    filter (fun p => late p /\ ~ acksPacket f p) (packetHistory h) /\
  bytesInFlight h' = u64 (sumLen (packetHistory h')).
Proof.
  intros Hok%sent_ok_reachable Hf Hproc. pose proof (so_history _ _ Hok) as Hh.
  destruct (effect_ReceivedAck h f pn rcvTime n1 n2 Hh Hf Hproc) as (Hr & He).
  rewrite lossDelay_spec in He by apply Hh. cbv zeta. destruct (Sent.ReceivedAck h f pn rcvTime n1 n2) as [h' r]. cbn in Hr, He.
  split; [done|]. split; [|split].
  - eapply effect_filter; [done|done|]. apply filter_or_perm.
  - rewrite (ef_queue _ _ _ _ He). by rewrite list_filter_filter.
  - apply (so_bytes _ _ (sent_ok_effect _ _ _ _ _ Hok He)).
Qed.

Definition demo_ack : AckFrame := mkAckFrame 1 4 2 [mkAckRange 4 4; mkAckRange 2 2] 0 0.

Lemma demo_ack_accepted :
  accepted (AckRanges demo_ack) (LargestAcked demo_ack) (LowestAcked demo_ack).
Proof.
  left. split; [by vm_compute|]. cbn. split_and!; try lia; try done. by exists (mkAckRange 2 2).
Defined.

Lemma received_ack_spec_witness :
  let delay := reorderingDelay (sampled demo5.1 demo_ack 900001 900002) in
  let late p := pkt_Number p <= 4 /\ delay < TimeSub 900003 (pkt_SendTime p) in
  let '(h', r) := Sent.ReceivedAck demo5.1 demo_ack 7 900001 900002 900003 in
  r = Ret tt /\
  packetHistory h' = filter (fun p => ~ (acksPacket demo_ack p \/ late p)) (packetHistory demo5.1) /\
  retransmissionQueue h' = retransmissionQueue demo5.1 ++
    filter (fun p => late p /\ ~ acksPacket demo_ack p) (packetHistory demo5.1) /\
  bytesInFlight h' = u64 (sumLen (packetHistory h')).
Proof.
  apply (received_ack_spec (C := Z) 1 0 demo5.1 demo5.2 demo_ack 7 900001 900002 900003).
  - rewrite <- surjective_pairing. exact demo5_reachable.
  - apply demo_ack_accepted.
  - by vm_compute.
Defined.

(** An ACK that does not pass the guards leaves every packet where it is, and its sender is
    told why: it acknowledges a packet not sent yet, it is a duplicate or out of order, or it
    acknowledges a packet number that was skipped on purpose; an ACK without news is ignored. *)
Theorem received_ack_guards {C} `{!SendAlgorithm C} (h : sentPacketHandler C) f pn rcvTime n1 n2 :
  processed h f pn = false ->
  let '(h', r) := Sent.ReceivedAck h f pn rcvTime n1 n2 in
  packetHistory h' = packetHistory h /\ retransmissionQueue h' = retransmissionQueue h /\
  bytesInFlight h' = bytesInFlight h /\
  r = (if lastSentPacketNumber h <? LargestAcked f then Err errAckForUnsentPacket
       else if pn <=? largestReceivedPacketWithAck h then Err ErrDuplicateOrOutOfOrderAck
       else if LargestAcked f <=? Sent.largestInOrderAcked h then Ret tt
       else Err ErrAckForSkippedPacket).
Proof.
  unfold processed. intros Hproc. unfold Sent.ReceivedAck.
  destruct (Z.ltb_spec (lastSentPacketNumber h) (LargestAcked f)); [done|].
  destruct (Z.leb_spec pn (largestReceivedPacketWithAck h)); [done|]. cbv zeta.
  change (Sent.largestInOrderAcked (h <| largestReceivedPacketWithAck := pn |>))
    with (Sent.largestInOrderAcked h).
  destruct (Z.leb_spec (LargestAcked f) (Sent.largestInOrderAcked h)); [done|].
  set (h1 := h <| largestReceivedPacketWithAck := pn |> <| sph_LargestAcked := LargestAcked f |>).
  change (Sent.skippedPacketsAcked h1 f) with (Sent.skippedPacketsAcked h f).
  destruct (Sent.skippedPacketsAcked h f); [done|].
  cbn [negb] in Hproc. rewrite andb_true_r in Hproc. lia.
Qed.

(** An optimistic ACK of packets 1 to 5, number 3 included. *)
Lemma received_ack_guards_witness :
  let f := mkAckFrame 1 5 1 [] 0 0 in
  (Sent.ReceivedAck demo5.1 f 7 900001 900002 900003).2 = Err ErrAckForSkippedPacket /\
  packetHistory (Sent.ReceivedAck demo5.1 f 7 900001 900002 900003).1 = packetHistory demo5.1.
Proof.
  intros f. pose proof (received_ack_guards demo5.1 f 7 900001 900002 900003) as H.
  destruct (Sent.ReceivedAck demo5.1 f 7 900001 900002 900003) as [h' r].
  destruct H as (Hh & _ & _ & Hr); [by vm_compute|]. cbn [fst snd]. rewrite Hr. by split.
Defined.

(** C35: An alarm retransmits.  When some packet in flight carries data that must arrive and no loss
    timer is running, [OnAlarm] moves at least one packet from the history to the end of the
    retransmission queue: the newest one for the first two alarms (tail loss probes), then all of
    them when the path callback reports a failure and the two oldest otherwise. *)
Theorem alarm_retransmits {C} `{!SendAlgorithm C} pathID (cong : C) h g now onRTO :
  rtc sent_step (NewSentPacketHandler pathID cong, ghost0) (h, g) ->
  Sent.hasOutstandingRetransmittablePacket h = true -> lossTime h = 0 ->
  let h' := Sent.OnAlarm h now onRTO in
  exists lost, lost <> [] /\ retransmissionQueue h' = retransmissionQueue h ++ lost /\
    packetHistory h ≡ₚ lost ++ packetHistory h' /\
    bytesInFlight h' = u64 (sumLen (packetHistory h')) /\
    lost = (if tlpCount h <? maxTailLossProbes then option_list (last (packetHistory h))
            else if match onRTO with Some f => f (lastSentTime h) | None => false end
            then packetHistory h else take 2 (packetHistory h)).
Proof.
  intros Hok%sent_ok_reachable Hout Hloss h'.
  pose proof (effect_OnAlarm h now onRTO (so_history _ _ Hok)) as He.
  assert (Hq : alarmQueues h now onRTO =
    (if tlpCount h <? maxTailLossProbes then option_list (last (packetHistory h))
     else if match onRTO with Some f => f (lastSentTime h) | None => false end
     then packetHistory h else take 2 (packetHistory h))).
  { unfold alarmQueues. rewrite Hout, Hloss. cbn [negb Z.eqb]. case_match; [|done].
    by destruct (last (packetHistory h)). }
  exists (alarmQueues h now onRTO). split; [|split; [|split; [|split]]].
  - rewrite Hq. unfold Sent.hasOutstandingRetransmittablePacket in Hout.
    destruct (packetHistory h) as [|p l] eqn:E; [done|]. case_match.
    + destruct (last (p :: l)) eqn:El; [done|]. by apply last_None in El.
    + by case_match.
  - apply (ef_queue _ _ _ _ He).
  - apply (ef_perm _ _ _ _ He).
  - apply (so_bytes _ _ (sent_ok_effect _ _ _ _ _ Hok He)).
  - done.
Qed.

Lemma alarm_retransmits_witness :
  exists lost, lost <> [] /\
    retransmissionQueue (Sent.OnAlarm demo5.1 950000 None) = retransmissionQueue demo5.1 ++ lost /\
    map pkt_Number lost = [5].
Proof.
  destruct (alarm_retransmits (C := Z) 1 0 demo5.1 demo5.2 950000 None) as (lost & Hne & Hq & _ & _ & Hl).
  - rewrite <- surjective_pairing. exact demo5_reachable.
  - by vm_compute.
  - by vm_compute.
  - exists lost. split; [done|]. split; [done|]. rewrite Hl. by vm_compute.
Defined.

(** The retransmission timeout backs off exponentially, from the controller's delay (at least
    200 ms, 500 ms when unknown) up to 60 s, as long as the shift fits 63 bits; whatever the
    number of timeouts, even when the shift overflows, the RTO alarm is set between 200 ms and 60 s
    after the last packet. *)
Theorem rto_backoff {C} `{!SendAlgorithm C} (h : sentPacketHandler C) :
  0 <= rtoCount h ->
  let base := Z.max (if RetransmissionDelay (congestion h) =? 0 then defaultRTOTimeout
                     else RetransmissionDelay (congestion h)) minRTOTimeout in
  (base * 2 ^ rtoCount h < 2 ^ 63 ->
   Sent.computeRTOTimeout h = Z.min (base * 2 ^ rtoCount h) maxRTOTimeout) /\
  (packetHistory h <> [] -> lossTime h = 0 -> maxTailLossProbes <= tlpCount h ->
   lastSentTime h + minRetransmissionTime <= alarm (Sent.updateLossDetectionAlarm h)
     <= lastSentTime h + maxRTOTimeout).
Proof.
  intros Hc base. split.
  - intros Hb. unfold Sent.computeRTOTimeout. fold base. rewrite Z.shiftl_mul_pow2 by done.
    rewrite i64_small; [done|]. unfold is_i64. split; [|done].
    assert (0 <= base) by (unfold base, minRTOTimeout, Millisecond; lia). nia.
  - intros Hne Hloss Htlp. unfold Sent.updateLossDetectionAlarm.
    destruct (packetHistory h); [done|]. rewrite Hloss. cbn [negb Z.eqb].
    destruct (Z.ltb_spec (tlpCount h) maxTailLossProbes); [lia|]. rewrite andb_false_r.
    cbn. unfold Sent.computeRTOTimeout, minRetransmissionTime, maxRTOTimeout, Millisecond. lia.
Qed.

Lemma rto_backoff_witness :
  Sent.computeRTOTimeout (demo5.1 <| rtoCount := 4 |>) = 8000 * Millisecond.
Proof.
  destruct (rto_backoff (demo5.1 <| rtoCount := 4 |>)) as [H _]; [cbn; lia|].
  rewrite H by (by vm_compute). by vm_compute.
Defined.

(** STOP_WAITING frames are always writable.  In every reachable state the frame the handler
    hands out asks for a packet number between 1 and the next one to be sent, so that [Write]
    accepts it in every later packet, for every length of the packet number. *)
Theorem stop_waiting_writable {C} `{!SendAlgorithm C} pathID (cong : C) h g force f pn len version :
  rtc sent_step (NewSentPacketHandler pathID cong, ghost0) (h, g) ->
  (Sent.GetStopWaitingFrame h force).2 = Some f -> lastSentPacketNumber h < pn ->
  valid_len len ->
  1 <= sw_LeastUnacked f <= lastSentPacketNumber h + 1 /\
  (StopWaiting.Write (mkStopWaitingFrame (sw_LeastUnacked f) len pn) version).2 = Ret tt.
Proof.
  intros Hok%sent_ok_reachable Hf Hpn Hlen.
  pose proof (hi_last _ (so_history _ _ Hok)) as Hl.
  assert (Hlu : 1 <= sw_LeastUnacked f <= lastSentPacketNumber h + 1).
  { destruct (so_stop _ _ Hok) as (Ha & Hb & Hc). revert Hf. unfold Sent.GetStopWaitingFrame.
    unfold StopWaitingManager.GetStopWaitingFrame.
    destruct (Z.leb_spec (nextLeastUnacked (stopWaiting h)) (largestLeastUnackedSent (stopWaiting h))).
    - destruct force; [|done]. cbn. destruct (lastStopWaitingFrame (stopWaiting h)) eqn:E.
      + intros [= ->]. specialize (Hc _ eq_refl). lia.
      + destruct (Z.ltb_spec 0 (largestLeastUnackedSent (stopWaiting h))); [|done].
        intros [= <-]. cbn. lia.
    - cbn. intros [= <-]. cbn. lia. }
  split; [done|]. unfold StopWaiting.Write. cbn [sw_PacketNumber sw_LeastUnacked sw_PacketNumberLen].
  destruct (Z.eqb_spec pn 0); [lia|]. destruct (Z.ltb_spec pn (sw_LeastUnacked f)); [lia|].
  destruct Hlen as [-> | [-> | [-> | ->]]]; cbn.
  - done.
  - by rewrite WriteUint16_enc.
  - by rewrite WriteUint32_enc.
  - change (2 ^ 48 - 1) with (Z.ones 48). rewrite Z.land_ones by lia.
    rewrite WriteUint48_enc; [done|]. apply Z.mod_pos_bound. lia.
Qed.

Definition demo_lost : sentPacketHandler Z * Ghost :=
  let h' := Sent.OnAlarm demo5.1 950000 None in
  (h', addEffect demo5.2 [] (drop (length (retransmissionQueue demo5.1)) (retransmissionQueue h'))).

Lemma demo_lost_reachable : rtc sent_step demo0 demo_lost.
Proof.
  eapply rtc_r; [exact demo5_reachable|]. rewrite (surjective_pairing demo5) at 1. apply step_alarm.
Defined.

Lemma stop_waiting_writable_witness :
  let f := mkStopWaitingFrame 6 0 0 in
  (Sent.GetStopWaitingFrame demo_lost.1 true).2 = Some f /\
  1 <= sw_LeastUnacked f <= 6 /\
  (StopWaiting.Write (mkStopWaitingFrame (sw_LeastUnacked f) 2 9) 512).2 = Ret tt.
Proof.
  intros f. split; [by vm_compute|].
  apply (stop_waiting_writable (C := Z) 1 0 demo_lost.1 demo_lost.2 true f 9 2 512).
  - rewrite <- surjective_pairing. exact demo_lost_reachable.
  - by vm_compute.
  - by vm_compute.
  - right. by left.
Defined.

(** When sending is allowed, a packet with a fresh number is accepted: the limit on tracked
    packets that [SendingAllowed] checks is the one [SentPacket] enforces. *)
Theorem sending_allowed_sends {C} `{!SendAlgorithm C} (h : sentPacketHandler C) now p :
  Sent.SendingAllowed h = true -> lastSentPacketNumber h < pkt_Number p ->
  (Sent.SentPacket h now p).2 = Ret tt /\
  lastSentPacketNumber (Sent.SentPacket h now p).1 = pkt_Number p /\
  (bytesInFlight h <= GetCongestionWindow (congestion h) \/ retransmissionQueue h <> []).
Proof.
  unfold Sent.SendingAllowed, Sent.SentPacket. cbv zeta. intros Hs Hp.
  apply andb_true_iff in Hs as [Hmax%negb_true_iff%Z.leb_gt Hs]. unfold MaxTrackedSentPackets in *.
  destruct (Z.leb_spec (pkt_Number p) (lastSentPacketNumber h)); [lia|].
  destruct (Z.ltb_spec (2 * 2500)
    (Z.of_nat (length (retransmissionQueue h) + length (packetHistory h) + 1))); [lia|].
  split; [done|]. split.
  - cbv zeta. cbn [fst]. rewrite (ef_last _ _ _ _ (effect_updateAlarm _)). cbn.
    unfold Sent.recordPacket. by case_match.
  - destruct (Z.ltb_spec (GetCongestionWindow (congestion h)) (bytesInFlight h)); [|by left].
    right. cbn in Hs. intros Hq. by rewrite Hq in Hs.
Qed.

Lemma sending_allowed_sends_witness :
  (Sent.SentPacket demo5.1 990000 (demo_packet 6)).2 = Ret tt.
Proof.
  apply (sending_allowed_sends demo5.1 990000 (demo_packet 6)); by vm_compute.
Defined.

(** Closing a path does not give back all its packets.  When a CLOSE_PATH frame is processed,
    a packet in flight that it does not acknowledge and whose number is above the largest number of
    the last ACK stays in flight on the closed path; it is not queued for retransmission. *)
Theorem close_path_keeps_inflight {C} `{!SendAlgorithm C} pathID (cong : C) h g f pn p :
  rtc sent_step (NewSentPacketHandler pathID cong, ghost0) (h, g) ->
  accepted (cp_AckRanges f) (cp_LargestAcked f) (cp_LowestAcked f) ->
  processedClosePath h f pn = true ->
  p ∈ packetHistory h -> ~ closesPacket f p -> sph_LargestAcked h < pkt_Number p ->
  let '(h', r) := Sent.ReceivedClosePath h f pn in
  r = Ret tt /\ p ∈ packetHistory h' /\
  exists lost, retransmissionQueue h' = retransmissionQueue h ++ lost /\ p ∉ lost.
Proof.
  intros Hok%sent_ok_reachable Hf Hproc Hp Hnot Hlarge. pose proof (so_history _ _ Hok) as Hh.
  destruct (effect_ReceivedClosePath h f pn Hh Hf Hproc) as [Hr He].
  destruct (Sent.ReceivedClosePath h f pn) as [h' r]. cbn in Hr, He. split; [done|].
  split; [|eexists; split; [apply (ef_queue _ _ _ _ He)|]].
  - rewrite (ef_perm _ _ _ _ He) in Hp. rewrite !elem_of_app, !list_elem_of_filter in Hp.
    destruct Hp as [[? _]|[[? _]|?]]; [done|lia|done].
  - rewrite list_elem_of_filter. lia.
Qed.

(** Nothing is acknowledged yet when the peer closes the path and reports packets 1 and 2. *)
Lemma close_path_keeps_inflight_witness :
  let f := mkClosePathFrame 1 2 1 [] in
  let p := mkPacket 5 [FPing mkPingFrame] 100 EncryptionForwardSecure 900000 in
  let '(h', r) := Sent.ReceivedClosePath demo5.1 f 7 in
  r = Ret tt /\ p ∈ packetHistory h' /\
  exists lost, retransmissionQueue h' = retransmissionQueue demo5.1 ++ lost /\ p ∉ lost.
Proof.
  intros f p. apply (close_path_keeps_inflight (C := Z) 1 0 demo5.1 demo5.2 f 7 p).
  - rewrite <- surjective_pairing. exact demo5_reachable.
  - left. split; [by vm_compute|cbn; lia].
  - by vm_compute.
  - change (packetHistory demo5.1) with
      [mkPacket 1 [FPing mkPingFrame] 100 EncryptionForwardSecure 1000;
       mkPacket 2 [FPing mkPingFrame] 100 EncryptionForwardSecure 2000;
       mkPacket 4 [FPing mkPingFrame] 100 EncryptionForwardSecure 3000; p].
    do 3 right. by left.
  - by vm_compute.
  - by vm_compute.
Defined.

(** A CLOSE_PATH frame that gets lost is never sent again on its own.  A packet with only that
    frame is tracked and counts as bytes in flight, but the alarm does not take it for a packet to
    retransmit: with no other packet in flight, [OnAlarm] just cancels the alarm. *)
Theorem close_path_not_retransmitted {C} `{!SendAlgorithm C} (h : sentPacketHandler C) now p f
    now' onRTO :
  Sent.SendingAllowed h = true -> lastSentPacketNumber h < pkt_Number p ->
  packetHistory h = [] -> pkt_Frames p = [FClosePath f] ->
  let h' := (Sent.SentPacket h now p).1 in
  packetHistory h' = tracked now p /\ bytesInFlight h' = bytesInFlight h +64 pkt_Length p /\
  Sent.OnAlarm h' now' onRTO = h' <| alarm := 0 |>.
Proof.
  intros Hs Hpn Hh Hfs h'. unfold Sent.SendingAllowed in Hs. cbv zeta in Hs. 
  apply andb_true_iff in Hs as [Hmax%negb_true_iff%Z.leb_gt _].
  assert (Hhist : packetHistory h' = tracked now p /\
    bytesInFlight h' = bytesInFlight h +64 pkt_Length p).
  { unfold h', Sent.SentPacket. unfold MaxTrackedSentPackets in *.
    destruct (Z.leb_spec (pkt_Number p) (lastSentPacketNumber h)); [lia|].
    destruct (Z.ltb_spec (2 * 2500)
      (Z.of_nat (length (retransmissionQueue h) + length (packetHistory h) + 1))); [lia|].
    unfold tracked, Sent.recordPacket. rewrite Hfs. cbn. unfold Sent.updateLossDetectionAlarm. cbn.
    rewrite Hh. cbn. repeat case_match; done. }
  destruct Hhist as [Hhist Hb]. split; [done|]. split; [done|].
  unfold Sent.OnAlarm, Sent.hasOutstandingRetransmittablePacket. rewrite Hhist.
  unfold tracked. rewrite Hfs. done.
Qed.

Lemma close_path_not_retransmitted_witness :
  let p := mkPacket 1 [FClosePath (mkClosePathFrame 1 2 1 [])] 60 EncryptionForwardSecure 0 in
  let h' := (Sent.SentPacket demo0.1 1000 p).1 in
  bytesInFlight h' = 60 /\ Sent.OnAlarm h' 600001000 None = h' <| alarm := 0 |>.
Proof.
  intros p h'.
  destruct (close_path_not_retransmitted demo0.1 1000 p (mkClosePathFrame 1 2 1 []) 600001000 None)
    as (_ & Hb & Ha); [by vm_compute..|]. by split.
Defined.
