(* ===== verification/PathController.v ===== *)
(** * The sent packets of a path under cubic congestion control

    Puts [ackhandler/sent_packet_handler.go] and [congestion/cubic_sender.go] together, as
    [NewSentPacketHandler] does for the first path of a connection: the controller the handler calls is a
    [cubicSender] that shares the round-trip times of the path.  [CongestionInvariant] is what a property
    of a controller has to satisfy to hold in every run of the handler. *)
From S2P Require Import Prelude MinMax Frames AckRanges AckFrame PublicHeader Unpacker Float32 RttStats Congestion SentPackets.
From stdpp Require Import relations sorting.

Open Scope Z_scope.
Open Scope go_scope.

Definition InitialCongestionWindow : Z := 32.
Definition DefaultMaxCongestionWindow : Z := 2500.

(** ** The controller *)

(** [clock n] is the [n]-th reading of the clock of the cubic function. *)
Record Controller := mkController {
  ctl_sender : cubicSender;
  ctl_rtt : RTTStats;
  ctl_bdw : BDWStats;
  ctl_clock : nat -> Z;
  ctl_reads : nat
}.

Definition withSender (c : Controller) (s : cubicSender) : Controller :=
  mkController s (ctl_rtt c) (ctl_bdw c) (ctl_clock c) (ctl_reads c).

#[export] Instance cubic_controller : SendAlgorithm Controller := {|
  OnPacketSent c _ _ pn bytes retransmittable :=
    withSender c (Sender.OnPacketSent pn bytes retransmittable (ctl_sender c)).1;
  GetCongestionWindow c := Sender.GetCongestionWindow (ctl_sender c);
  MaybeExitSlowStart c := withSender c (Sender.MaybeExitSlowStart (ctl_rtt c) (ctl_sender c));
  OnPacketAcked c pn bytes inFlight :=
    mkController (Sender.OnPacketAcked (ctl_clock c (ctl_reads c)) (ctl_rtt c) pn bytes inFlight (ctl_sender c))
      (ctl_rtt c) (ctl_bdw c) (ctl_clock c) (S (ctl_reads c));
  OnPacketLost c pn bytes inFlight := withSender c (Sender.OnPacketLost pn bytes inFlight (ctl_sender c));
  OnRetransmissionTimeout c retransmitted :=
    withSender c (Sender.OnRetransmissionTimeout retransmitted (ctl_sender c));
  RetransmissionDelay c := Sender.RetransmissionDelay (ctl_rtt c);
  cong_SmoothedRTT c := rs_smoothedRTT (ctl_rtt c);
  rtt_UpdateRTT c sendDelta ackDelay now :=
    mkController (ctl_sender c) (RTT.UpdateRTT sendDelta ackDelay now (ctl_rtt c)) (ctl_bdw c) (ctl_clock c) (ctl_reads c);
  rtt_UpdateSessionRTT c smoothedRTT :=
    mkController (ctl_sender c) (RTT.UpdateSessionRTT smoothedRTT (ctl_rtt c)) (ctl_bdw c) (ctl_clock c) (ctl_reads c);
  rtt_SmoothedRTT c := rs_smoothedRTT (ctl_rtt c);
  rtt_LatestRTT c := rs_latestRTT (ctl_rtt c);
  bdw_UpdateBDW c sentDelta sentDelay :=
    mkController (ctl_sender c) (ctl_rtt c) (UpdateBDW sentDelta sentDelay (ctl_bdw c)) (ctl_clock c) (ctl_reads c);
  bdw_GetBandwidth c := GetBandwidth (ctl_bdw c)
|}.

#[export] Instance cubic_rtt_laws : RttLaws Controller.
Proof. by split. Qed.

(** The controller of [NewSentPacketHandler] when it is given none. *)
Definition newController (rtt : RTTStats) (bdw : BDWStats) (clock : nat -> Z) : Controller :=
  mkController (NewCubicSender false InitialCongestionWindow DefaultMaxCongestionWindow) rtt bdw clock 0.

(** ** Properties of a controller in runs of the handler *)

(** [P n c]: after [n] acknowledged packets, [c] has the property. *)
Class CongestionInvariant {C} `{!SendAlgorithm C} (P : nat -> C -> Prop) : Prop := {
  ci_sent n c t f pn b r : P n c -> P n (OnPacketSent c t f pn b r);
  ci_exit n c : P n c -> P n (MaybeExitSlowStart c);
  ci_acked n c pn b f : P n c -> P (S n) (OnPacketAcked c pn b f);
  ci_lost n c pn b f : P n c -> P n (OnPacketLost c pn b f);
  ci_timeout n c r : P n c -> P n (OnRetransmissionTimeout c r);
  ci_rtt n c d a t : P n c -> P n (rtt_UpdateRTT c d a t);
  ci_bdw n c d t : P n c -> P n (bdw_UpdateBDW c d t)
}.

Section Runs.
Context {C : Type} `{!SendAlgorithm C} (P : nat -> C -> Prop) `{!CongestionInvariant P}.
Implicit Types h : sentPacketHandler C.

Lemma updateAlarm_congestion h : congestion (Sent.updateLossDetectionAlarm h) = congestion h.
Proof. unfold Sent.updateLossDetectionAlarm. by repeat case_match. Qed.

Lemma updateAlarm_bytes h : bytesInFlight (Sent.updateLossDetectionAlarm h) = bytesInFlight h.
Proof. unfold Sent.updateLossDetectionAlarm. by repeat case_match. Qed.

Lemma inv_SentPacket n h now p : P n (congestion h) -> P n (congestion (Sent.SentPacket h now p).1).
Proof.
  intros H. unfold Sent.SentPacket. do 2 (case_match; [done|]). cbn [fst]. rewrite updateAlarm_congestion. cbn.
  apply ci_sent. unfold Sent.recordPacket. by case_match.
Qed.

Lemma inv_losses n l : forall h, P n (congestion h) -> P n (congestion (foldl Sent.losePacket h l)).
Proof. induction l as [|p l IH]; intros h H; [done|]. cbn [foldl]. apply IH. cbn. by apply ci_lost. Qed.

Lemma inv_acks l : forall n h, P n (congestion h) -> P (n + length l) (congestion (foldl Sent.ackPacket h l)).
Proof.
  induction l as [|p l IH]; intros n h H; cbn [foldl length]; [by rewrite Nat.add_0_r|].
  rewrite <- Nat.add_succ_comm. apply IH. cbn. by apply ci_acked.
Qed.

Lemma inv_detectLost n h now : P n (congestion h) -> P n (congestion (Sent.detectLostPackets h now)).
Proof. intros H. unfold Sent.detectLostPackets. case_match. by apply inv_losses. Qed.

Lemma inv_inflightLost n h : P n (congestion h) -> P n (congestion (Sent.SetInflightAsLost h)).
Proof. intros H. unfold Sent.SetInflightAsLost. by apply inv_losses. Qed.

Lemma inv_sampleRTT n h f rcv now : P n (congestion h) -> P n (congestion (Sent.sampleRTT h f rcv now)).
Proof. intros H. unfold Sent.sampleRTT, Sent.maybeUpdateRTT. destruct (Sent.findSent _ _); [cbn; by apply ci_exit, ci_rtt|done]. Qed.

Lemma inv_ackPackets n h f rcv l : P n (congestion h) -> P (n + length l) (congestion (Sent.ackPackets h f rcv l)).
Proof.
  intros H. pose proof (inv_acks l n h H) as Ha. unfold Sent.ackPackets.
  destruct l as [|p l]; [by rewrite Nat.add_0_r|]. case_match; [cbn; by apply ci_bdw|done].
Qed.

Lemma inv_queueRTO n h p : P n (congestion h) -> P n (congestion (Sent.queueRTO h p)).
Proof. intros H. cbn. by apply ci_lost. Qed.

Lemma inv_OnAlarm n h now onRTO : P n (congestion h) -> P n (congestion (Sent.OnAlarm h now onRTO)).
Proof.
  intros H. unfold Sent.OnAlarm. case_match; [done|]. rewrite updateAlarm_congestion.
  case_match; [by apply inv_detectLost|]. case_match; [unfold Sent.retransmitTLP; by case_match|].
  cbn. case_match; cbn; apply ci_timeout.
  - assert (Ha : forall k h, P n (congestion h) -> P n (congestion (Sent.retransmitAll_loop k h))).
    { induction k as [|k IH]; intros h0 H0'; [done|]. cbn [Sent.retransmitAll_loop].
      destruct (packetHistory h0); [done|]. by apply IH, inv_queueRTO. }
    by apply Ha.
  - assert (Ho : forall h, P n (congestion h) -> P n (congestion (Sent.retransmitOldestPacket h))).
    { intros h0 Hp. unfold Sent.retransmitOldestPacket. destruct (packetHistory h0); [done|by apply inv_queueRTO]. }
    by apply Ho, Ho.
Qed.

Lemma inv_ReceivedAck n h f pn rcv n1 n2 :
  history_ok h -> accepted (AckRanges f) (LargestAcked f) (LowestAcked f) -> P n (congestion h) ->
  P (n + length (if processed h f pn then filter (acksPacket f) (packetHistory h) else []))
    (congestion (Sent.ReceivedAck h f pn rcv n1 n2).1).
Proof.
  intros Hh Hf H. unfold processed, Sent.ReceivedAck. rewrite Z.leb_antisym.
  destruct (Z.ltb_spec (lastSentPacketNumber h) (LargestAcked f)); cbn [negb andb]; [by rewrite Nat.add_0_r|].
  rewrite Z.ltb_antisym. destruct (pn <=? _); cbn [negb andb]; [by rewrite Nat.add_0_r|]. cbv zeta.
  set (h1 := h <| largestReceivedPacketWithAck := pn |>). change (Sent.largestInOrderAcked h1) with (Sent.largestInOrderAcked h).
  rewrite Z.ltb_antisym. destruct (LargestAcked f <=? _); cbn [negb andb]; [by rewrite Nat.add_0_r|].
  set (h2 := h1 <| sph_LargestAcked := LargestAcked f |>).
  change (Sent.skippedPacketsAcked h2 f) with (Sent.skippedPacketsAcked h f).
  destruct (Sent.skippedPacketsAcked h f); cbn [negb]; [by rewrite Nat.add_0_r|].
  assert (Hh2 : history_ok h2) by (destruct Hh; by split).
  destruct (effect_processAck h2 f rcv n1 n2) as (Hdet & _); [done|done|done|cbn; lia|].
  change (packetHistory h2) with (packetHistory h) in Hdet. rewrite Hdet. cbn [fst].
  change (P (n + length (filter (acksPacket f) (packetHistory h)))
    (congestion (Sent.updateLossDetectionAlarm (Sent.detectLostPackets
       (Sent.ackPackets (Sent.sampleRTT h2 f rcv n1) f rcv (filter (acksPacket f) (packetHistory h))) n2)))).
  rewrite updateAlarm_congestion. by apply inv_detectLost, inv_ackPackets, inv_sampleRTT.
Qed.

Lemma inv_ReceivedClosePath n h f pn :
  history_ok h -> accepted (cp_AckRanges f) (cp_LargestAcked f) (cp_LowestAcked f) -> P n (congestion h) ->
  P (n + length (if processedClosePath h f pn then filter (closesPacket f) (packetHistory h) else []))
    (congestion (Sent.ReceivedClosePath h f pn).1).
Proof.
  intros Hh Hf H. unfold processedClosePath, Sent.ReceivedClosePath. rewrite Z.leb_antisym.
  destruct (Z.ltb_spec (lastSentPacketNumber h) (cp_LargestAcked f)); cbn [negb andb]; [by rewrite Nat.add_0_r|].
  rewrite Z.ltb_antisym. destruct (pn <=? _); cbn [negb andb]; [by rewrite Nat.add_0_r|]. cbv zeta.
  set (h1 := h <| largestReceivedPacketWithAck := pn |>).
  change (Sent.skippedPacketsAckedClosePath h1 f) with (Sent.skippedPacketsAckedClosePath h f).
  destruct (Sent.skippedPacketsAckedClosePath h f); cbn [negb]; [by rewrite Nat.add_0_r|].
  unfold Sent.determineNewlyAckedPacketsClosePath. change (packetHistory h1) with (packetHistory h).
  rewrite newlyAcked_spec by (apply Hh || done). cbn [fst].
  change (P (n + length (filter (closesPacket f) (packetHistory h)))
    (congestion (Sent.SetInflightAsLost (foldl Sent.ackPacket h1 (filter (closesPacket f) (packetHistory h)))))).
  by apply inv_inflightLost, inv_acks.
Qed.

Lemma inv_step s s' :
  sent_step s s' -> sent_ok s.1 s.2 -> P (length (g_acked s.2)) (congestion s.1) ->
  P (length (g_acked s'.2)) (congestion s'.1).
Proof.
  intros Hstep Hok H. pose proof (so_history _ _ Hok) as Hh.
  destruct Hstep as [h g now p Hp|h g f pn rcv n1 n2 Hf|h g f pn Hf|h g now cb|h g|h g|h g p|h g force];
    cbn [fst snd] in *; unfold addEffect, addSent; cbn [g_acked]; rewrite ?app_nil_r, ?length_app.
  - by apply inv_SentPacket.
  - by apply inv_ReceivedAck.
  - by apply inv_ReceivedClosePath.
  - by apply inv_OnAlarm.
  - by apply inv_inflightLost.
  - unfold Sent.DequeuePacketForRetransmission. by destruct (retransmissionQueue h).
  - done.
  - unfold Sent.GetStopWaitingFrame. by destruct (StopWaitingManager.GetStopWaitingFrame _ _).
Qed.

(** Every packet number of the run is positive. *)
Lemma positive_step (s s' : sentPacketHandler C * Ghost) :
  sent_step s s' -> sent_ok s.1 s.2 -> Forall (fun p => 1 <= pkt_Number p) (g_sent s.2) ->
  Forall (fun p => 1 <= pkt_Number p) (g_sent s'.2).
Proof.
  intros Hstep Hok H. pose proof (hi_last _ (so_history _ _ Hok)) as Hl.
  destruct Hstep as [h g now p Hp|h g f pn rcv n1 n2 Hf|h g f pn Hf|h g now cb|h g|h g|h g p|h g force];
    cbn [fst snd] in *; unfold addEffect, addSent; cbn [g_sent]; try done.
  apply Forall_app_2; [done|]. unfold sentBy, Sent.SentPacket.
  destruct (Z.leb_spec (pkt_Number p) (lastSentPacketNumber h)); [constructor|].
  destruct (MaxTrackedSentPackets <? _); [constructor|]. cbn [snd]. unfold tracked. destruct (stripNonRetransmittableFrames _); [constructor|]. repeat constructor. cbn. lia.
Qed.

Lemma inv_reachable pathID cong h g :
  P 0 cong -> rtc sent_step (NewSentPacketHandler pathID cong, ghost0) (h, g) ->
  P (length (g_acked g)) (congestion h) /\ Forall (fun p => 1 <= pkt_Number p) (g_sent g).
Proof.
  intros H0 Hr. set (s0 := (NewSentPacketHandler pathID cong, ghost0)) in Hr.
  change (P (length (g_acked (h, g).2)) (congestion (h, g).1) /\ Forall (fun p => 1 <= pkt_Number p) (g_sent (h, g).2)).
  revert Hr. generalize (h, g). apply rtc_ind_r; [by split; [|constructor]|].
  intros [h1 g1] s' Hr1 Hs [IH1 IH2]. pose proof (sent_ok_reachable pathID cong h1 g1 Hr1) as Hok.
  split; [exact (inv_step _ _ Hs Hok IH1)|exact (positive_step _ _ Hs Hok IH2)].
Qed.
End Runs.

(** Packets of increasing numbers between 1 and [n] are at most [n]. *)
Lemma sorted_length lo n (l : list Packet) :
  StronglySorted sent_before l -> Forall (fun p => lo < pkt_Number p <= n) l -> Z.of_nat (length l) <= Z.max 0 (n - lo).
Proof.
  revert lo. induction l as [|p l IH]; intros lo Hs Hr; cbn [length]; [lia|].
  apply StronglySorted_cons in Hs as [Hp Hs]. apply Forall_cons in Hr as [Hrp Hr].
  specialize (IH (pkt_Number p) Hs). rewrite Nat2Z.inj_succ.
  assert (Hr' : Forall (fun q => pkt_Number p < pkt_Number q <= n) l).
  { rewrite Forall_forall in *. intros q Hq. split; [by apply Hp|by apply Hr]. }
  specialize (IH Hr'). lia.
Qed.

Lemma acked_count {C} `{!SendAlgorithm C} pathID (cong : C) h g :
  rtc sent_step (NewSentPacketHandler pathID cong, ghost0) (h, g) -> Forall (fun p => 1 <= pkt_Number p) (g_sent g) ->
  Z.of_nat (length (g_acked g)) < maxPacketNumber.
Proof.
  intros Hr Hpos. pose proof (sent_ok_reachable _ _ _ _ Hr) as Hok. pose proof (hi_last _ (so_history _ _ Hok)) as Hl.
  assert (Hn : Z.of_nat (length (g_sent g)) <= Z.max 0 (lastSentPacketNumber h - 0)).
  { apply sorted_length; [apply Hok|]. pose proof (so_sent_range _ _ Hok) as Hsr. rewrite Forall_forall in *.
    intros p Hp. specialize (Hpos p Hp). specialize (Hsr p Hp). lia. }
  rewrite (so_conserved _ _ Hok), !length_app in Hn. lia.
Qed.

(** ** Cubic *)
Definition cubic_invariant (n : nat) (c : Controller) : Prop :=
  Z.of_nat n < 2 ^ 50 ->
  sender_ok DefaultMaxCongestionWindow (DefaultMaxCongestionWindow + Z.of_nat n * (maxConnections + 1)) (ctl_sender c).

Lemma cubic_invariant_same n c s o :
  is_ack o = false -> op_ok o -> ctl_sender s = perform (ctl_sender c) o -> cubic_invariant n c -> cubic_invariant n s.
Proof. intros Ha Ho E H Hn. rewrite E. apply perform_same; [done|done|done|by apply H]. Qed.

#[export] Instance cubic_CongestionInvariant : CongestionInvariant cubic_invariant.
Proof.
  split; intros n c *; cbn.
  - by apply (cubic_invariant_same n c _ (OpSent pn b r)).
  - by apply (cubic_invariant_same n c _ (OpMaybeExit (ctl_rtt c))).
  - intros H Hn. unfold DefaultMaxCongestionWindow, maxConnections in *.
    apply (sender_ok_mono _ (2500 + Z.of_nat n * (100 + 1) + maxConnections + 1)); [|unfold maxConnections; lia].
    apply acked_ok; [lia|lia|unfold maxConnections; lia|apply H; lia].
  - by apply (cubic_invariant_same n c _ (OpLost pn b f)).
  - by apply (cubic_invariant_same n c _ (OpTimeout r)).
  - intros H. exact H.
  - intros H. exact H.
Qed.

Lemma cubic_path_window pathID rtt bdw clock h g :
  rtc sent_step (NewSentPacketHandler pathID (newController rtt bdw clock), ghost0) (h, g) ->
  2 * DefaultTCPMSS <= GetCongestionWindow (congestion h) <= DefaultMaxCongestionWindow * DefaultTCPMSS.
Proof.
  intros Hr. assert (H0 : cubic_invariant 0 (newController rtt bdw clock)).
  { intros _. cbn. unfold DefaultMaxCongestionWindow, InitialCongestionWindow. by apply sender_ok_new. }
  destruct (inv_reachable cubic_invariant pathID _ h g H0 Hr) as [H Hpos].
  pose proof (acked_count _ _ _ _ Hr Hpos) as Hn. unfold maxPacketNumber in Hn. specialize (H ltac:(lia)).
  destruct H. cbn. unfold Sender.GetCongestionWindow. rewrite (bytes_small 2500) by (unfold DefaultMaxCongestionWindow in *; lia).
  unfold DefaultTCPMSS, DefaultMaxCongestionWindow in *. lia.
Qed.

(** C7: on a path under cubic congestion control, in every reachable state of its sent packet handler the
    congestion window is between 2 and 2500 packets of 1460 bytes.  Hence the handler never blocks for
    good: with nothing in flight it allows to send, unless 5000 packets wait for retransmission; and a
    packet it allows, no retransmission waiting, never brings the bytes in flight above 2500 * 1460 plus
    the packet. *)
Theorem cubic_path_limits pathID rtt bdw clock h g now p
  (Hr : rtc sent_step (NewSentPacketHandler pathID (newController rtt bdw clock), ghost0) (h, g))
  (Hp : 0 <= pkt_Length p < 2 ^ 32) :
  2 * DefaultTCPMSS <= GetCongestionWindow (congestion h) <= DefaultMaxCongestionWindow * DefaultTCPMSS /\
  (packetHistory h = [] -> Z.of_nat (length (retransmissionQueue h)) < MaxTrackedSentPackets ->
   Sent.SendingAllowed h = true) /\
  (Sent.SendingAllowed h = true -> retransmissionQueue h = [] ->
   bytesInFlight (Sent.SentPacket h now p).1 <= DefaultMaxCongestionWindow * DefaultTCPMSS + pkt_Length p).
Proof.
  pose proof (cubic_path_window _ _ _ _ _ _ Hr) as Hw. pose proof (so_bytes _ _ (sent_ok_reachable _ _ _ _ Hr)) as Hb.
  split; [done|]. unfold Sent.SendingAllowed. split.
  - intros He Hq. rewrite Hb, He. cbn [length sumLen foldr]. change (u64 0) with 0. rewrite Nat.add_0_r.
    rewrite (proj2 (Z.leb_gt _ _)) by done. rewrite (proj2 (Z.ltb_ge _ 0)) by (unfold DefaultTCPMSS in *; lia). done.
  - intros Ha Hq. rewrite Hq in Ha. cbn [length] in Ha. apply andb_true_iff in Ha as [_ Ha].
    rewrite orb_false_r in Ha. apply negb_true_iff, Z.ltb_ge in Ha.
    assert (0 <= bytesInFlight h) by (rewrite Hb; apply u64_range).
    unfold Sent.SentPacket. case_match; [cbn [fst]; lia|]. case_match; [cbn [fst]; lia|]. cbn [fst].
    rewrite updateAlarm_bytes. cbn. unfold Sent.recordPacket. unfold DefaultTCPMSS, DefaultMaxCongestionWindow in *.
    case_match; cbn; [|lia]. rewrite uN_small by (unfold in_range; lia). lia.
Qed.

(** Two packets of 1400 bytes are sent on a new path. *)
Definition ex_controller : Controller := newController zeroRTTStats (NewBDWStats 0) (fun n => Z.of_nat n).
Definition ex_packet (n : Z) : Packet := mkPacket n [FPing mkPingFrame] 1400 EncryptionForwardSecure 0.
Definition ex_send (s : sentPacketHandler Controller * Ghost) (now n : Z) : sentPacketHandler Controller * Ghost :=
  ((Sent.SentPacket s.1 now (ex_packet n)).1, addSent s.2 (sentBy s.1 now (ex_packet n))).
Definition ex_path : sentPacketHandler Controller * Ghost :=
  ex_send (ex_send (NewSentPacketHandler 0 ex_controller, ghost0) 1000 1) 2000 2.

Lemma ex_send_step s now n : n < maxPacketNumber -> sent_step s (ex_send s now n).
Proof. destruct s. intros. by apply step_send. Qed.

Lemma ex_path_reachable : rtc sent_step (NewSentPacketHandler 0 ex_controller, ghost0) (ex_path.1, ex_path.2).
Proof.
  rewrite <- surjective_pairing. unfold ex_path.
  refine (rtc_l _ _ _ _ (ex_send_step _ 1000 1 _) (rtc_once _ _ (ex_send_step _ 2000 2 _))); unfold maxPacketNumber; lia.
Qed.

Lemma cubic_path_limits_witness :
  2 * DefaultTCPMSS <= GetCongestionWindow (congestion ex_path.1) <= DefaultMaxCongestionWindow * DefaultTCPMSS /\
  bytesInFlight (Sent.SentPacket ex_path.1 3000 (ex_packet 3)).1 <= DefaultMaxCongestionWindow * DefaultTCPMSS + 1400 /\
  bytesInFlight ex_path.1 = 2800 /\ GetCongestionWindow (congestion ex_path.1) = 32 * 1460.
Proof.
  destruct (cubic_path_limits 0 zeroRTTStats (NewBDWStats 0) (fun n => Z.of_nat n) ex_path.1 ex_path.2 3000 (ex_packet 3)
    ex_path_reachable) as (H1 & _ & H3); [cbn; lia|].
  split; [exact H1|]. split; [apply H3; vm_compute; reflexivity|]. vm_compute. split; reflexivity.
Defined.
