(* ===== verification/Session.v ===== *)
(** * Paths and the session

    Models [path.go], [path_manager.go], [conn.go] and the handlers of [session.go]: what a session does
    with a received packet and each of its frames, with the paths it opens and closes, with packets it
    cannot decrypt yet, and when it is closed.  The session's goroutine runs the handlers one at a time;
    a handler is a [Call] on the state of the session and runs at one instant [now].  The goroutine of a
    path only waits for the timer of the path and for the message that closes it; the latter is the step
    [Path.stop].  Blocking on a channel nobody reads is a [Panic].

    The round-trip times and the congestion controller of a path are inside its sent packet handler,
    behind the class [SendAlgorithm].  The crypto setup, the sockets, and the text of IPv6 addresses are
    arguments. *)
From S2P Require Import Prelude MinMax ByteOrder PacketNumber PacketNumberGenerator HandshakeMessage.
From S2P Require Import Frames AckRanges AckFrame PathsFrame PublicHeader Unpacker ReceivedPackets.
From S2P Require Import FrameSorter FlowControl ConnectionParameters StreamToPath StreamTree Stream StreamsMap.
From S2P Require Import Float64 StreamFramer PacketPacker SentPackets.
From stdpp Require Import pretty.

Open Scope Z_scope.
Open Scope go_scope.

Definition InitialPathID : Z := 0.
Definition SkipPacketAveragePeriodLength : Z := 500.
Definition MaxUndecryptablePackets : Z := 10.
Definition MaxSessionUnprocessedPackets : Z := 2500.
Definition PublicResetTimeout : Z := 500 * Millisecond.
Definition minPathTimer : Z := 10 * Millisecond.
Definition maxPathTimer : Z := 1 * Second.
Definition thirtyMinutes : Z := 1800 * Second.

Definition PeerGoingAway : Z := 16.
Definition NetworkIdleTimeout : Z := 25.
Definition HandshakeTimeout : Z := 67.
Definition InternalError : Z := 1.

Definition errRstStreamOnInvalidStream : error := ErrorString "RST_STREAM received for unknown stream".
Definition errWindowUpdateOnClosedStream : error :=
  ErrorString "WINDOW_UPDATE received for an already closed stream".
Definition errGoaway : error := ErrorString "unimplemented: handling GOAWAY frames".
Definition errUnknownPathToClose : error := ErrorString "Unknown path ID to close".
Definition errNoPathVolume : error :=
  ErrorString "nothing to delete in s.streamsMap.streams[streamID].pathVolume".
Definition errPathExists : error := ErrorString "trying to create already existing path".
Definition errOddPathID : error := ErrorString "server tries to create odd pathID".
Definition errEvenPathID : error := ErrorString "client tries to create even pathID".
Definition errParsingPort : error := ErrorString "error parsing port".
Definition errNoPing : error := ErrorString "Session BUG: expected ping packet not to be nil".
Definition errCloseSessionForNewVersion : error :=
  ErrorString "closing session in order to recreate it with a new version".
Definition ErrHOLExperiment : error := QuicError 34 "HOL experiment. Unsupported".
Definition ErrNSTPExperiment : error := QuicError 34 "NSTP experiment. Unsupported".
Definition errRemoteReset (code : Z) : error :=
  ErrorString ("RST_STREAM received with code " +:+ pretty code).

(** [string(b)] *)
Definition bytesString (b : list Z) : string :=
  foldr (fun c s => String (Ascii.ascii_of_N (Z.to_N c)) s) EmptyString b.

(** ** Sockets

    An address is its text, as [String()] gives it.  [conn_written] are the packets written so far, with
    the address they were sent to. *)
Record conn := mkConn {
  conn_local : list Z;
  conn_remote : list Z;
  conn_written : list (list Z * list Z)
}.

Module Conn.
Definition SetCurrentRemoteAddr (addr : list Z) (c : conn) : conn :=
  mkConn (conn_local c) addr (conn_written c).
Definition Write (p : list Z) (c : conn) : conn :=
  mkConn (conn_local c) (conn_remote c) (conn_written c ++ [(conn_remote c, p)]).
End Conn.

(** [net.UDPAddr] *)
Record UDPAddr := mkUDPAddr { ua_IP : list Z; ua_Port : Z }.

Definition getIPVersion (ip : list Z) : Z := match net.To4 ip with Some _ => 4 | None => 6 end.

Record receivedPacket := mkReceivedPacket {
  rp_remoteAddr : list Z;
  rp_publicHeader : PublicHeader;
  rp_data : list Z;
  rp_rcvTime : Z;
  rp_rcvPconn : list Z
}.

Record closeError := mkCloseError { ce_err : option error; ce_remote : bool }.

(** ** The state *)
Section State.
Context {C : Type}.

(** [pa_closing]: a message waits in [closeChan]; [pa_sentPacket]: one waits in [sentPacket]. *)
Record path := mkPath {
  pa_pathID : Z;
  pa_conn : conn;
  pa_streamIDs : list Z;
  pa_streamQuota : gmap Z Z;
  pa_streamOrder : list Z;
  pa_sent : sentPacketHandler C;
  pa_received : receivedPacketHandler;
  pa_open : bool;
  pa_closing : bool;
  pa_potentiallyFailed : bool;
  pa_sentPacket : bool;
  pa_generator : packetNumberGenerator;
  pa_lastRcvdPacketNumber : Z;
  pa_largestRcvdPacketNumber : Z;
  pa_leastUnacked : Z;
  pa_lastNetworkActivityTime : Z
}.

Definition eta_path_ (p : path) : path :=
  mkPath (pa_pathID p) (pa_conn p) (pa_streamIDs p) (pa_streamQuota p) (pa_streamOrder p) (pa_sent p)
    (pa_received p) (pa_open p) (pa_closing p) (pa_potentiallyFailed p) (pa_sentPacket p) (pa_generator p)
    (pa_lastRcvdPacketNumber p) (pa_largestRcvdPacketNumber p) (pa_leastUnacked p)
    (pa_lastNetworkActivityTime p).
#[export] Instance set_pa_conn : Setter pa_conn := ltac:(field_setter eta_path_).
#[export] Instance set_pa_streamIDs : Setter pa_streamIDs := ltac:(field_setter eta_path_).
#[export] Instance set_pa_streamQuota : Setter pa_streamQuota := ltac:(field_setter eta_path_).
#[export] Instance set_pa_streamOrder : Setter pa_streamOrder := ltac:(field_setter eta_path_).
#[export] Instance set_pa_sent : Setter pa_sent := ltac:(field_setter eta_path_).
#[export] Instance set_pa_received : Setter pa_received := ltac:(field_setter eta_path_).
#[export] Instance set_pa_open : Setter pa_open := ltac:(field_setter eta_path_).
#[export] Instance set_pa_closing : Setter pa_closing := ltac:(field_setter eta_path_).
#[export] Instance set_pa_potentiallyFailed : Setter pa_potentiallyFailed := ltac:(field_setter eta_path_).
#[export] Instance set_pa_sentPacket : Setter pa_sentPacket := ltac:(field_setter eta_path_).
#[export] Instance set_pa_generator : Setter pa_generator := ltac:(field_setter eta_path_).
#[export] Instance set_pa_lastRcvd : Setter pa_lastRcvdPacketNumber := ltac:(field_setter eta_path_).
#[export] Instance set_pa_largestRcvd : Setter pa_largestRcvdPacketNumber := ltac:(field_setter eta_path_).
#[export] Instance set_pa_leastUnacked : Setter pa_leastUnacked := ltac:(field_setter eta_path_).
#[export] Instance set_pa_activity : Setter pa_lastNetworkActivityTime := ltac:(field_setter eta_path_).

(** [pm_localAddrs] are the addresses of the sockets of the [pconnManager]. *)
Record pathManager := mkPathManager {
  nxtPathID : Z;
  remoteAddrs4 : list UDPAddr;
  remoteAddrs6 : list UDPAddr;
  advertisedLocAddrs : gset (list Z);
  pm_localAddrs : list UDPAddr
}.

Definition eta_pm (p : pathManager) : pathManager :=
  mkPathManager (nxtPathID p) (remoteAddrs4 p) (remoteAddrs6 p) (advertisedLocAddrs p) (pm_localAddrs p).
#[export] Instance set_nxtPathID : Setter nxtPathID := ltac:(field_setter eta_pm).
#[export] Instance set_remoteAddrs4 : Setter remoteAddrs4 := ltac:(field_setter eta_pm).
#[export] Instance set_remoteAddrs6 : Setter remoteAddrs6 := ltac:(field_setter eta_pm).
#[export] Instance set_advertised : Setter advertisedLocAddrs := ltac:(field_setter eta_pm).

(** The fields of a [stream] that only the scheduler and the stream tree use: the weight of its priority, the
    size that was detected, what is left of it for each path, and the path of an HTTP request. *)
Record streamInfo := mkStreamInfo {
  si_weight : Z;
  si_size : Z;
  si_checksize : bool;
  si_pathVolume : gmap Z float64;
  si_requestPath : list Z
}.

Definition eta_info (i : streamInfo) : streamInfo :=
  mkStreamInfo (si_weight i) (si_size i) (si_checksize i) (si_pathVolume i) (si_requestPath i).
#[export] Instance set_si_size : Setter si_size := ltac:(field_setter eta_info).
#[export] Instance set_si_checksize : Setter si_checksize := ltac:(field_setter eta_info).
#[export] Instance set_si_pathVolume : Setter si_pathVolume := ltac:(field_setter eta_info).
#[export] Instance set_si_requestPath : Setter si_requestPath := ltac:(field_setter eta_info).

(** [^uint8(0)] *)
Definition defaultWeight : Z := 255.
Definition newStreamInfo (weight : Z) : streamInfo := mkStreamInfo weight 0 false ∅ [].

(** [ss_info]: what the scheduler knows of each stream.  [ss_removed]: the streams that were removed from the
    map, which the tree still points to, and whether they had sent all their data.  [ss_closed]: the error that
    [closeOnce] let into [closeChan].  [ss_nonces]: the nonces passed to the crypto setup.  The last
    fields are those of the scheduler. *)
Record session := mkSession {
  ss_connectionID : Z;
  ss_perspective : Perspective;
  ss_version : Z;
  ss_handshakeTimeout : Z;
  ss_keepAlive : bool;
  ss_paths : gmap Z path;
  ss_openPaths : list Z;
  ss_closedPaths : gset Z;
  ss_streamToPath : gmap Z (list Z);
  ss_info : gmap Z streamInfo;
  ss_removed : gmap Z bool;
  ss_tree : streamTree;
  ss_createPaths : bool;
  ss_remoteRTTs : gmap Z Z;
  ss_lastPathsFrameSent : Z;
  ss_packer : packetPacker;
  ss_peerBlocked : bool;
  ss_receivedPackets : list receivedPacket;
  ss_sendingScheduled : bool;
  ss_closed : option closeError;
  ss_undecryptablePackets : list receivedPacket;
  ss_receivedTooManyTime : Z;
  ss_handshakeComplete : bool;
  ss_sessionCreationTime : Z;
  ss_lastNetworkActivityTime : Z;
  ss_keepAlivePingSent : bool;
  ss_pathManager : option pathManager;
  ss_nonces : list (list Z);
  ss_quotas : gmap Z Z;
  ss_numstreams : gmap Z Z;
  ss_roundRobinIndexPath : Z;
  ss_pathScheduler : string
}.

Definition eta_session (s : session) : session :=
  mkSession (ss_connectionID s) (ss_perspective s) (ss_version s) (ss_handshakeTimeout s) (ss_keepAlive s)
    (ss_paths s) (ss_openPaths s) (ss_closedPaths s) (ss_streamToPath s) (ss_info s)
    (ss_removed s) (ss_tree s) (ss_createPaths s) (ss_remoteRTTs s) (ss_lastPathsFrameSent s) (ss_packer s) (ss_peerBlocked s)
    (ss_receivedPackets s) (ss_sendingScheduled s) (ss_closed s) (ss_undecryptablePackets s)
    (ss_receivedTooManyTime s) (ss_handshakeComplete s) (ss_sessionCreationTime s)
    (ss_lastNetworkActivityTime s) (ss_keepAlivePingSent s) (ss_pathManager s) (ss_nonces s) (ss_quotas s)
    (ss_numstreams s) (ss_roundRobinIndexPath s) (ss_pathScheduler s).
#[export] Instance set_ss_paths : Setter ss_paths := ltac:(field_setter eta_session).
#[export] Instance set_ss_openPaths : Setter ss_openPaths := ltac:(field_setter eta_session).
#[export] Instance set_ss_closedPaths : Setter ss_closedPaths := ltac:(field_setter eta_session).
#[export] Instance set_ss_streamToPath : Setter ss_streamToPath := ltac:(field_setter eta_session).
#[export] Instance set_ss_info : Setter ss_info := ltac:(field_setter eta_session).
#[export] Instance set_ss_removed : Setter ss_removed := ltac:(field_setter eta_session).
#[export] Instance set_ss_tree : Setter ss_tree := ltac:(field_setter eta_session).
#[export] Instance set_ss_remoteRTTs : Setter ss_remoteRTTs := ltac:(field_setter eta_session).
#[export] Instance set_ss_lastPathsFrameSent : Setter ss_lastPathsFrameSent := ltac:(field_setter eta_session).
#[export] Instance set_ss_packer : Setter ss_packer := ltac:(field_setter eta_session).
#[export] Instance set_ss_peerBlocked : Setter ss_peerBlocked := ltac:(field_setter eta_session).
#[export] Instance set_ss_receivedPackets : Setter ss_receivedPackets := ltac:(field_setter eta_session).
#[export] Instance set_ss_sendingScheduled : Setter ss_sendingScheduled := ltac:(field_setter eta_session).
#[export] Instance set_ss_closed : Setter ss_closed := ltac:(field_setter eta_session).
#[export] Instance set_ss_undecryptable : Setter ss_undecryptablePackets := ltac:(field_setter eta_session).
#[export] Instance set_ss_tooMany : Setter ss_receivedTooManyTime := ltac:(field_setter eta_session).
#[export] Instance set_ss_handshakeComplete : Setter ss_handshakeComplete := ltac:(field_setter eta_session).
#[export] Instance set_ss_activity : Setter ss_lastNetworkActivityTime := ltac:(field_setter eta_session).
#[export] Instance set_ss_ping : Setter ss_keepAlivePingSent := ltac:(field_setter eta_session).
#[export] Instance set_ss_pathManager : Setter ss_pathManager := ltac:(field_setter eta_session).
#[export] Instance set_ss_nonces : Setter ss_nonces := ltac:(field_setter eta_session).
#[export] Instance set_ss_quotas : Setter ss_quotas := ltac:(field_setter eta_session).
#[export] Instance set_ss_numstreams : Setter ss_numstreams := ltac:(field_setter eta_session).
#[export] Instance set_ss_rrIndexPath : Setter ss_roundRobinIndexPath := ltac:(field_setter eta_session).
End State.
Arguments path : clear implicits.
Arguments session : clear implicits.

(** ** A path *)
Module Path.
Section Path.
Context {C : Type} `{!SendAlgorithm C}.
Notation path := (path C).

(** [setup] and [setupWithStatistics], which differ in the statistics [cong] starts with. *)
Definition setup (pathID : Z) (c : conn) (version : Z) (cong : C) (now : Z) : path :=
  mkPath pathID c [] ∅ [] (NewSentPacketHandler pathID cong) (NewReceivedPacketHandler version) true false
    false false (newPacketNumberGenerator SkipPacketAveragePeriodLength) 0 0 0 now.

(** The run loop reads the message in [closeChan], ends, and closes the path. *)
Definition stop (p : path) : path := p <| pa_closing := false |> <| pa_open := false |>.

(** The run loop reads [sentPacket] to reset the timer. *)
Definition drain (p : path) : path := p <| pa_sentPacket := false |>.

Definition SendingAllowed (p : path) : bool := pa_open p && Sent.SendingAllowed (pa_sent p).

Definition GetStopWaitingFrame (force : bool) (p : path) : path * option StopWaitingFrame :=
  let '(h, f) := Sent.GetStopWaitingFrame (pa_sent p) force in (p <| pa_sent := h |>, f).

(** [ack.PathID = p.pathID]: the handler keeps the same frame as [lastAck]. *)
Definition GetAckFrame (now : Z) (p : path) : path * outcome (option AckFrame) :=
  match Handler.GetAckFrame (pa_received p) now with
  | (h, Ret (Some ack)) =>
      let ack := mkAckFrame (pa_pathID p) (LargestAcked ack) (LowestAcked ack) (AckRanges ack)
                   (PacketReceivedTime ack) (DelayTime ack) in
      (p <| pa_received := mkHandler (largestObserved h) (lowerLimit h) (largestObservedReceivedTime h)
              (ReceivedPackets.packetHistory h) (ackSendDelay h) (packetsReceivedSinceLastAck h)
              (retransmittablePacketsReceivedSinceLastAck h) (ackQueued h) (ackAlarm h) (Some ack)
              (rp_version h) (packets h) |>, Ret (Some ack))
  | (h, r) => (p <| pa_received := h |>, r)
  end.

Definition GetClosePathFrame (p : path) : outcome ClosePathFrame :=
  f ← Handler.GetClosePathFrame (pa_received p);
  Ret (mkClosePathFrame (pa_pathID p) (cp_LargestAcked f) (cp_LowestAcked f) (cp_AckRanges f)).

(** [cryptoSetup]: the session has one; [handshakeComplete], [idle] and [handshakeTimeout] are the
    session's. *)
Definition idleTimeout (cryptoSetup handshakeComplete : bool) (idle handshakeTimeout : Z) (p : path) : Z :=
  if cryptoSetup then
    if pa_open p && (negb (pa_pathID p =? 0) || handshakeComplete) then idle else handshakeTimeout
  else Second.

(** The deadline [maybeResetTimer] sets the timer to. *)
Definition deadline (now idle : Z) (p : path) : Z :=
  let deadline := pa_lastNetworkActivityTime p + idle in
  let ackAlarm := Handler.GetAlarmTimeout (pa_received p) in
  let deadline := if negb (ackAlarm =? 0) then ackAlarm else deadline in
  let lossTime := Sent.GetAlarmTimeout (pa_sent p) in
  let deadline := if negb (lossTime =? 0) then utils.MinTime deadline lossTime else deadline in
  utils.MinTime (utils.MaxTime deadline (now + minPathTimer)) (now + maxPathTimer).

(** What [onRTO] returns; the session schedules a PATHS frame when it is [true]. *)
Definition onRTO (p : path) (lastSentTime : Z) : bool := pa_lastNetworkActivityTime p <? lastSentTime.

Definition SetLeastUnacked (n : Z) (p : path) : path := p <| pa_leastUnacked := n |>.

(** The path as the packer sees it. *)
Definition view (handshakeComplete : bool) (p : path) : packerPath :=
  mkPackerPath (pa_pathID p) (pa_generator p) (pa_leastUnacked p) handshakeComplete.
Definition fromView (v : packerPath) (p : path) : path :=
  p <| pa_generator := pth_generator v |> <| pa_leastUnacked := pth_leastUnacked v |>.

(** [pth.rttStats.SmoothedRTT()] *)
Definition SmoothedRTT (p : path) : Z := rtt_SmoothedRTT (congestion (pa_sent p)).

(** What a PATHS frame says of the path. *)
Definition info (p : path) : pathInfo :=
  mkPathInfo (pa_pathID p) (pa_potentiallyFailed p) (SmoothedRTT p) (conn_local (pa_conn p)).
End Path.
End Path.

(** ** What surrounds the session *)

Record environment (C : Type) := mkEnvironment {
  (** the text of an error code *)
  env_codeString : Z -> string;
  (** the IPv6 addresses of package [net] and their text *)
  env_parseIPv6 : list Z -> option (list Z);
  env_ipv6String : list Z -> list Z;
  (** the controller of a new path with a smoothed round-trip time and a bandwidth *)
  env_newController : forall (pathID rtt bandwidth : Z), C;
  (** the order in which a map with the given keys is iterated over *)
  env_order : gset Z -> list Z;
  (** the keys of the crypto setup *)
  env_crypto : CryptoSetup;
  (** the random bytes drawn when a packet number of a path is used *)
  env_rand : forall (pathID packetNumber : Z), option (Z * Z);
  (** what the socket at a local address answers to a packet for a remote address *)
  env_writeTo : forall (local remote packet : list Z), option error
}.
Arguments env_codeString {C}.
Arguments env_parseIPv6 {C}.
Arguments env_ipv6String {C}.
Arguments env_newController {C}.
Arguments env_order {C}.
Arguments env_crypto {C}.
Arguments env_rand {C}.
Arguments env_writeTo {C}.

(** ** The session *)
Module Sess.
Section Sess.
Context {C : Type} `{!SendAlgorithm C} (env : environment C).
Notation codeString := (env_codeString env).
Notation parseIPv6 := (env_parseIPv6 env).
Notation ipv6String := (env_ipv6String env).
Notation newController := (env_newController env).
Notation order := (env_order env).
Notation cs := (env_crypto env).
Notation rand := (env_rand env).
Notation writeTo := (env_writeTo env).
Context (now : Z).
Notation session := (session C).
Notation path := (path C).
Notation M := (Call session).

(** *** Parts of the state *)
Definition framer (s : session) : streamFramer := pk_framer (ss_packer s).
Definition sessionMap (s : session) : streamsMap := fr_streamsMap (framer s).
Definition flowControl (s : session) : flowControlManager := fr_flowControl (framer s).
Definition parameters (s : session) : connectionParametersManager := pk_parameters (ss_packer s).

Definition setFramer (f : streamFramer) (s : session) : session :=
  s <| ss_packer := ss_packer s <| pk_framer := f |> |>.
Definition setMapState (st : mapState) (s : session) : session :=
  setFramer (framer s <| fr_streamsMap := st.1 |> <| fr_flowControl := st.2 |>) s.
Definition setStream (id : Z) (str : stream) (s : session) : session :=
  setMapState (sessionMap s <| streams := <[id := str]> (streams (sessionMap s)) |>, flowControl s) s.

(** The fields of the stream [id] above. *)
Definition infoOf (s : session) (id : Z) : streamInfo := default (newStreamInfo defaultWeight) (ss_info s !! id).
Definition changeInfo (id : Z) (f : streamInfo -> streamInfo) (s : session) : session :=
  s <| ss_info := <[id := f (infoOf s id)]> (ss_info s) |>.

(** A call of the stream tree. *)
Definition onTree {A} (m : Call streamTree A) : M A := fun s =>
  let '(t, r) := m (ss_tree s) in (s <| ss_tree := t |>, r).

(** A call of the streams map: [putStream] adds each new stream to the tree. *)
Definition addStream (weight id : Z) : M unit :=
  update (fun s => s <| ss_info := <[id := newStreamInfo weight]> (ss_info s) |>);; onTree (Tree.addNode id).

Definition opening {A} (weight : Z) (f : mapState -> mapState * outcome A) : M A := fun s =>
  let '(st, r) := f (sessionMap s, flowControl s) in
  (forEach (drop (length (openStreams (sessionMap s))) (openStreams st.1)) (addStream weight);; lift r)
    (setMapState st s).

Definition withPath {A} (id : Z) (k : path -> M A) : M A :=
  s ← get; match ss_paths s !! id with Some p => k p | None => nilDereference end.
Definition setPath (id : Z) (p : path) : M unit := update (fun s => s <| ss_paths := <[id := p]> (ss_paths s) |>).
Definition changePath (id : Z) (f : path -> path) : M unit := withPath id (fun p => setPath id (f p)).

(** *** Queues *)
Definition scheduleSending (s : session) : session := s <| ss_sendingScheduled := true |>.

Definition QueueControlFrame (frame : Frame) (pathID : Z) (s : session) : session :=
  s <| ss_packer := Packer.QueueControlFrame frame pathID (ss_packer s) |>.

Definition queueResetStreamFrame (id offset : Z) (s : session) : session :=
  scheduleSending (QueueControlFrame (FRstStream (mkRstStreamFrame id 0 offset)) InitialPathID s).

(** The callbacks a call on a stream made. *)
Definition runCallback (s : session) (c : callback) : session :=
  match c with
  | OnData => scheduleSending s
  | OnReset id offset => queueResetStreamFrame id offset s
  end.
Definition runCallbacks (before after : stream) (s : session) : session :=
  foldl runCallback s (drop (length (callbacks before)) (callbacks after)).

(** [handlePacket]: a packet is dropped when the channel is full. *)
Definition handlePacket (p : receivedPacket) (s : session) : session :=
  if Z.of_nat (length (ss_receivedPackets s)) <? MaxSessionUnprocessedPackets
  then s <| ss_receivedPackets := ss_receivedPackets s ++ [p] |> else s.

Definition closeWith (e : closeError) (s : session) : session :=
  match ss_closed s with Some _ => s | None => s <| ss_closed := Some e |> end.
Definition closeLocal (e : error) : session -> session := closeWith (mkCloseError (Some e) false).
Definition closeRemote (e : error) : session -> session := closeWith (mkCloseError (Some e) true).

Definition tryQueueingUndecryptablePacket (p : receivedPacket) (s : session) : session :=
  if ss_handshakeComplete s then s
  else if MaxUndecryptablePackets <? Z.of_nat (length (ss_undecryptablePackets s)) + 1 then
    if ss_receivedTooManyTime s =? 0 then s <| ss_receivedTooManyTime := now |> else s
  else s <| ss_undecryptablePackets := ss_undecryptablePackets s ++ [p] |>.

Definition tryDecryptingQueuedPackets (s : session) : session :=
  foldl (fun s p => handlePacket p s) s (ss_undecryptablePackets s) <| ss_undecryptablePackets := [] |>.

(** *** Timers *)
Definition idleTimeout (s : session) : Z := Parameters.GetIdleConnectionStateLifetime (parameters s).

(** The deadline [maybeResetTimer] sets the timer to. *)
Definition deadline (s : session) : Z :=
  let deadline :=
    if ss_keepAlive s && ss_handshakeComplete s && negb (ss_keepAlivePingSent s)
    then ss_lastNetworkActivityTime s + Z.quot (idleTimeout s) 2
    else ss_lastNetworkActivityTime s + idleTimeout s in
  let deadline :=
    if negb (ss_handshakeComplete s)
    then utils.MinTime deadline (ss_sessionCreationTime s + ss_handshakeTimeout s) else deadline in
  if negb (ss_receivedTooManyTime s =? 0)
  then utils.MinTime deadline (ss_receivedTooManyTime s + PublicResetTimeout) else deadline.

(** *** PATHS frames *)
Definition pathInfos (s : session) : list pathInfo :=
  omap (fun id => Path.info <$> ss_paths s !! id) (order (dom (ss_paths s))).

Definition schedulePathsFrame : M unit :=
  update (fun s => s <| ss_lastPathsFrameSent := now |>);;
  s ← get;
  f ← lift (Framer.AddPathsFrameForTransmission (ss_perspective s) (pathInfos s) (framer s));
  update (setFramer f).

(** *** Sending *)

(** A call of the packer for a path. *)
Definition packing {A} (id : Z)
    (pack : packetPacker -> packerPath -> packetPacker * packerPath * outcome A) : M A :=
  withPath id (fun p s =>
    let '(pk, v, r) := pack (ss_packer s) (Path.view (ss_handshakeComplete s) p) in
    (forEach (drop (length (openStreams (sessionMap s))) (openStreams (fr_streamsMap (pk_framer pk))))
       (addStream defaultWeight);;
     lift r)
      (s <| ss_packer := pk |> <| ss_paths := <[id := Path.fromView v p]> (ss_paths s) |>)).

(** [pth.sentPacket <- struct{}{}]: while the path runs, its goroutine makes room in the channel. *)
Definition signalSentPacket (id : Z) : M unit :=
  withPath id (fun p =>
    if negb (pa_open p) && pa_sentPacket p then crash "blocked on a full channel"
    else setPath id (p <| pa_sentPacket := true |>)).

Definition writePacket (id : Z) (raw : list Z) : M unit :=
  withPath id (fun p =>
    match writeTo (conn_local (pa_conn p)) (conn_remote (pa_conn p)) raw with
    | None => setPath id (p <| pa_conn := Conn.Write raw (pa_conn p) |>)
    | Some e => raise e
    end).

(** [sendPackedPacket] and [sendPackedPacketOfStream] *)
Definition sendPackedPacket (packet : packedPacket) (id : Z) : M unit :=
  withPath id (fun p =>
    let '(h, r) := Sent.SentPacket (pa_sent p) now (mkPacket (pkd_number packet) (pkd_frames packet)
      (Z.of_nat (length (pkd_raw packet))) (pkd_encryptionLevel packet) 0) in
    setPath id (p <| pa_sent := h |>);; lift r;;
    signalSentPacket id;;
    writePacket id (pkd_raw packet)).

(** The random bytes for the next packet of a path. *)
Definition nextRand (v : packerPath) : option (Z * Z) :=
  rand (pth_pathID v) (Generator.Peek (pth_generator v)).

Definition sendPing (id : Z) : M unit :=
  packet ← withPath id (fun p => packing id (fun pk v =>
    let '(pk, v, _, r) := Packer.PackPing parseIPv6 now cs (nextRand v) mkPingFrame
                            (Sent.GetLeastUnacked (pa_sent p)) pk v in (pk, v, r)));
  match packet with
  | None => raise errNoPing
  | Some packet => sendPackedPacket packet id
  end.

Definition sendConnectionClose (e : error) : M unit :=
  let '(code, msg) := match e with QuicError code msg => (code, msg) | _ => (InternalError, ""%string) end in
  changePath 0 (fun p => Path.SetLeastUnacked (Sent.GetLeastUnacked (pa_sent p)) p);;
  packet ← packing 0 (fun pk v => Packer.PackConnectionClose parseIPv6 now cs (nextRand v)
    (mkConnectionCloseFrame code (map (fun b => Z.of_N (Ascii.N_of_ascii b)) (String.list_ascii_of_string msg)))
    pk v);
  writePacket InitialPathID (pkd_raw packet).

Definition sendPublicReset (rejectedPacketNumber : Z) : M unit :=
  s ← get;
  writePacket InitialPathID (WritePublicReset (ss_connectionID s) rejectedPacketNumber 0).1.

(** *** The path manager *)

(** [addr.IP.String()] and [addr.String()] *)
Definition ipString (ip : list Z) : list Z :=
  match net.To4 ip with
  | Some [a; b; c; d] => text.IPv4String a b c d
  | _ => ipv6String ip
  end.
Definition addrString (a : UDPAddr) : list Z :=
  if getIPVersion (ua_IP a) =? 4 then ipString (ua_IP a) ++ [text.colon] ++ text.FormatUint (ua_Port a)
  else [91] ++ ipString (ua_IP a) ++ [93; text.colon] ++ text.FormatUint (ua_Port a).

(** The round-trip time and the bandwidth a path starts with. *)
Definition initialStatistics (ip : list Z) : Z * Z :=
  if bool_decide (ip = text.IPv4String 10 0 0 1) then (1 * Millisecond, 1 * 1048576)
  else if bool_decide (ip = text.IPv4String 10 0 1 1) then (1 * Millisecond, 20 * 1048576)
  else (0, 0).

Definition parseIP (remoteAddr : list Z) : list Z := hd [] (Framer.splitColon [] remoteAddr).

(** [pth.setupWithStatistics(...)], and the path becomes one of the session's. *)
Definition addPath (pathID : Z) (c : conn) (ip : list Z) (s : session) : session :=
  let '(rtt, bandwidth) := initialStatistics ip in
  s <| ss_paths := <[pathID := Path.setup pathID c (ss_version s) (newController pathID rtt bandwidth) now]>
                     (ss_paths s) |>
    <| ss_openPaths := ss_openPaths s ++ [pathID] |>.

Definition withManager {A} (k : pathManager -> M A) : M A :=
  s ← get; match ss_pathManager s with Some pm => k pm | None => nilDereference end.

(** One round of the loop of [advertiseAddresses]. *)
Definition advertiseAddress (locAddr : UDPAddr) : M unit :=
  withManager (fun pm =>
    if bool_decide (addrString locAddr ∈ advertisedLocAddrs pm) then mret tt
    else
      update (fun s => setFramer (Framer.AddAddressForTransmission (getIPVersion (ua_IP locAddr))
                                   (ua_IP locAddr) (ua_Port locAddr) (framer s)) s
        <| ss_pathManager := Some (pm <| advertisedLocAddrs := {[addrString locAddr]} ∪ advertisedLocAddrs pm |>) |>)).

Definition advertiseAddresses : M unit :=
  withManager (fun pm => forEach (pm_localAddrs pm) advertiseAddress).

(** [paths[id]] runs between the two addresses. *)
Definition connects (locAddr remAddr : UDPAddr) (p : path) : bool :=
  bool_decide (addrString locAddr = conn_local (pa_conn p))
  && bool_decide (addrString remAddr = conn_remote (pa_conn p)).

Definition createPath (locAddr remAddr : UDPAddr) : M unit :=
  s ← get;
  if existsb (connects locAddr remAddr) (omap (ss_paths s !!.) (order (dom (ss_paths s)))) then mret tt
  else
    withManager (fun pm =>
      let id := nxtPathID pm in
      update (addPath id (mkConn (addrString locAddr) (addrString remAddr) []) (ipString (ua_IP locAddr)));;
      update (fun s => s <| ss_pathManager := Some (pm <| nxtPathID := u8 (id + 2) |>) |>);;
      sendPing id).

Definition createPaths : M unit :=
  s ← get;
  if isServer (ss_perspective s) then advertiseAddresses
  else
    withManager (fun pm =>
      forEach (pm_localAddrs pm) (fun locAddr => withManager (fun pm =>
        forEach (if getIPVersion (ua_IP locAddr) =? 4 then remoteAddrs4 pm else remoteAddrs6 pm)
          (createPath locAddr)));;
      schedulePathsFrame).

(** The parity of the path IDs a peer may use. *)
Definition checkParity (pers : Perspective) (pathID : Z) : outcome unit :=
  if isClient pers && negb (pathID `mod` 2 =? 0) then Err errOddPathID
  else if isServer pers && (pathID `mod` 2 =? 0) then Err errEvenPathID
  else Ret tt.

Definition createPathFromRemote (p : receivedPacket) : M unit :=
  withManager (fun _ =>
    let pathID := hdr_PathID (rp_publicHeader p) in
    s ← get;
    if bool_decide (is_Some (ss_paths s !! pathID)) then raise errPathExists
    else
      lift (checkParity (ss_perspective s) pathID);;
      update (addPath pathID (mkConn (rp_rcvPconn p) (rp_remoteAddr p) []) (parseIP (rp_remoteAddr p)))).

(** [strconv.Atoi] of a number without a sign, as the ports of a PATHS frame are written *)
Definition Atoi (s : list Z) : outcome Z :=
  match s with [] => Err text.errSyntax | _ => text.parseDigits (2 ^ 63 - 1) 0 s end.

(** The text of the address made from an address and a port of a PATHS frame, the empty address if the
    text is none. *)
Definition remoteAddrText (ip : list Z) (port : Z) : list Z :=
  match text.ParseIP parseIPv6 ip with
  | Some a => addrString (mkUDPAddr a port)
  | None => [text.colon] ++ text.FormatUint port
  end.

(** The loop of [createPathsFromRemotePathsFrame] over the path IDs and the addresses. *)
Fixpoint createPathsFromRemote (ids : list Z) (ips ports : list (list Z)) (localPconn : list Z) : M unit :=
  match ids with
  | [] => mret tt
  | pathID :: ids' =>
      match ips, ports with
      | remoteIP :: ips', remotePort :: ports' =>
          port ← onError (lift (Atoi remotePort)) (fun _ => raise errParsingPort);
          s ← get;
          (if bool_decide (is_Some (ss_paths s !! pathID)) then mret tt
           else
             lift (checkParity (ss_perspective s) pathID);;
             update (addPath pathID (mkConn localPconn (remoteAddrText remoteIP port) []) remoteIP));;
          createPathsFromRemote ids' ips' ports' localPconn
      | _, _ => crash "index out of range"
      end
  end.

Definition handleAddAddressFrame (f : AddAddressFrame) : M unit :=
  withManager (fun pm =>
    let addr := mkUDPAddr (aa_IP f) (aa_Port f) in
    (if aa_IPVersion f =? 4
     then update (fun s => s <| ss_pathManager := Some (pm <| remoteAddrs4 := remoteAddrs4 pm ++ [addr] |>) |>)
     else if aa_IPVersion f =? 6
     then update (fun s => s <| ss_pathManager := Some (pm <| remoteAddrs6 := remoteAddrs6 pm ++ [addr] |>) |>)
     else raise AddAddress.ErrUnknownIPVersion);;
    s ← get;
    when (ss_createPaths s) createPaths).

(** [pathManager.closePath] and the body of the loop of [closePaths]: [closeChan <- nil]. *)
Definition askToClose (id : Z) (s : session) : session :=
  match ss_paths s !! id with
  | Some p => if pa_open p then s <| ss_paths := <[id := p <| pa_closing := true |>]> (ss_paths s) |> else s
  | None => s
  end.

(** *** Frames *)
(** [GetOrOpenStreamPriority] and [GetOrOpenStreamPrioritySize] of the streams map, which repeat [GetOrOpenStream] with
    the priority of the new streams. *)
Definition getOrOpenWith (weight id : Z) : M (option Z) :=
  s ← get; opening weight (StreamsMap.GetOrOpenStream (parameters s) id).

Definition printTree : M unit := _ ← onTree Tree.printTree; mret tt.

(** [GetOrOpenStream] of the streams map; it prints the tree when it opened streams. *)
Definition getOrOpen (id : Z) : M (option Z) :=
  s ← get;
  str ← getOrOpenWith defaultWeight id;
  when (bool_decide (streams (sessionMap s) !! id = None) && bool_decide (is_Some str)) printTree;;
  mret str.

Definition GetOrOpenStream (id : Z) : M (option Z) := getOrOpen id.

(** A call on the stream [id] that uses flow control. *)
Definition onStream {A} (id : Z) (f : stream -> flowControlManager -> stream * flowControlManager * outcome A)
    : M A := fun s =>
  match streams (sessionMap s) !! id with
  | None => nilDereference s
  | Some str =>
      let '(str', fc, r) := f str (flowControl s) in
      (runCallbacks str str' (setMapState (sessionMap (setStream id str' s), fc) s), r)
  end.

Definition handleStreamFrame (frame : StreamFrame) : M unit :=
  str ← GetOrOpenStream (StreamID frame);
  match str with
  | None => mret tt
  | Some id => onStream id (Stream.AddStreamFrame frame)
  end.

Definition onFlowControl {A} (f : flowControlManager -> flowControlManager * outcome A) : M A := fun s =>
  let '(fc, r) := f (flowControl s) in (setMapState (sessionMap s, fc) s, r).

Definition handleWindowUpdateFrame (frame : WindowUpdateFrame) : M unit :=
  (if wu_StreamID frame =? 0 then mret tt
   else
     str ← GetOrOpenStream (wu_StreamID frame);
     match str with None => raise errWindowUpdateOnClosedStream | Some _ => mret tt end);;
  onFlowControl (fun fc => Manager.UpdateWindow fc (wu_StreamID frame) (wu_ByteOffset frame));;
  mret tt.

Definition handleRstStreamFrame (frame : RstStreamFrame) : M unit :=
  str ← GetOrOpenStream (rst_StreamID frame);
  match str with
  | None => raise errRstStreamOnInvalidStream
  | Some id =>
      onStream id (fun str fc =>
        (Stream.RegisterRemoteError (Some (errRemoteReset (rst_ErrorCode frame))) str, fc, Ret tt));;
      onFlowControl (fun fc => Manager.ResetStream fc (rst_StreamID frame) (rst_ByteOffset frame))
  end.

(** [s.rttStats] are the statistics of the initial path. *)
Definition updateSessionRTT (smoothedRTT : Z) : M unit :=
  withPath InitialPathID (fun p0 =>
    if Path.SmoothedRTT p0 <? smoothedRTT
    then setPath InitialPathID (p0 <| pa_sent := pa_sent p0
           <| congestion := rtt_UpdateSessionRTT (congestion (pa_sent p0)) smoothedRTT |> |>)
    else mret tt).

Definition handleAckFrame (frame : AckFrame) : M unit :=
  let id := PathID frame in
  withPath id (fun p =>
    let '(h, r) := Sent.ReceivedAck (pa_sent p) frame (pa_lastRcvdPacketNumber p)
                     (pa_lastNetworkActivityTime p) now now in
    setPath id (p <| pa_sent := h |>);; lift r;;
    updateSessionRTT (rtt_SmoothedRTT (congestion h))).

(** One stream of a path that is closed. *)
Definition unassign (pthID streamID : Z) : M unit :=
  s ← get;
  let '(m, r) := Assignment.DeleteOne (ss_streamToPath s) streamID pthID in
  update (fun s => s <| ss_streamToPath := m |>);; lift r;;
  match streams (sessionMap s) !! streamID with
  | None => nilDereference
  | Some _ =>
      if bool_decide (is_Some (si_pathVolume (infoOf s streamID) !! pthID))
      then update (changeInfo streamID (fun i => i <| si_pathVolume := delete pthID (si_pathVolume i) |>))
      else raise errNoPathVolume
  end.

Definition closePath (pthID : Z) (sendClosePathFrame : bool) : M unit :=
  s ← get;
  match ss_paths s !! pthID with
  | None => raise errUnknownPathToClose
  | Some p =>
      if bool_decide (pthID ∈ ss_closedPaths s) then mret tt
      else
        when (bool_decide (is_Some (ss_pathManager s))) (update (askToClose pthID));;
        update (fun s => s <| ss_closedPaths := {[pthID]} ∪ ss_closedPaths s |>);;
        forEach (pa_streamIDs p) (unassign pthID);;
        update (fun s => s <| ss_numstreams := delete pthID (ss_numstreams s) |>);;
        when sendClosePathFrame (
          changePath pthID (fun p => p <| pa_sent := Sent.SetInflightAsLost (pa_sent p) |>);;
          withPath pthID (fun p =>
            frame ← lift (Path.GetClosePathFrame p);
            update (fun s => setFramer (Framer.AddClosePathFrameForTransmission frame (framer s)) s)))
  end.

Definition handleClosePathFrame (frame : ClosePathFrame) : M unit :=
  let id := cp_PathID frame in
  closePath id false;;
  withPath id (fun p =>
    let '(h, r) := Sent.ReceivedClosePath (pa_sent p) frame (pa_lastRcvdPacketNumber p) in
    setPath id (p <| pa_sent := h |>);; lift r).

(** The loop over the first [NumPaths] entries of a PATHS frame. *)
Fixpoint learnPaths (n : nat) (ids rtts : list Z) : M unit :=
  match n with
  | O => mret tt
  | S n' =>
      match ids, rtts with
      | id :: ids', rtt :: rtts' =>
          update (fun s => s <| ss_remoteRTTs := <[id := rtt]> (ss_remoteRTTs s) |>);;
          when (thirtyMinutes <=? rtt) (changePath id (fun p => p <| pa_potentiallyFailed := true |>));;
          learnPaths n' ids' rtts'
      | _, _ => crash "index out of range"
      end
  end.

(** The error of [createPathsFromRemotePathsFrame] is ignored. *)
Definition handlePathsFrame (frame : PathsFrame) (localPconn : list Z) : M unit :=
  learnPaths (Z.to_nat (pf_NumPaths frame)) (pf_PathIDs frame) (pf_RemoteRTTs frame);;
  s ← get;
  when (isServer (ss_perspective s)) (onError
    (withManager (fun _ => createPathsFromRemote (pf_PathIDs frame) (pf_RemoteAddrsIP frame)
       (pf_RemoteAddrsPort frame) localPconn)) (fun _ => mret tt)).

(** One frame of a packet received on the path [id]. *)
Definition handleFrame (id : Z) (localPconn : list Z) (ff : Frame) : M unit :=
  match ff with
  | FStream frame => handleStreamFrame frame
  | FAck frame => handleAckFrame frame
  | FConnectionClose frame =>
      update (closeRemote (QuicError (cc_ErrorCode frame) (bytesString (cc_ReasonPhrase frame))))
  | FGoaway _ => raise errGoaway
  | FStopWaiting frame =>
      changePath id (fun p => p <| pa_received := Handler.SetLowerLimit (pa_received p) (sw_LeastUnacked frame -64 1) |>)
  | FRstStream frame => handleRstStreamFrame frame
  | FWindowUpdate frame => handleWindowUpdateFrame frame
  | FBlocked _ => update (fun s => s <| ss_peerBlocked := true |>)
  | FPing _ => mret tt
  | FAddAddress frame => fun s =>
      match ss_pathManager s with
      | None => (s, Ret tt)
      | Some _ =>
          match handleAddAddressFrame frame s with
          | (s, Panic why) => (s, Panic why)
          | (s, r) => (schedulePathsFrame;; lift r) s
          end
      end
  | FClosePath frame => onError (handleClosePathFrame frame) (fun _ => mret tt)
  | FPaths frame => handlePathsFrame frame localPconn
  end.

(** The errors that do not end the connection. *)
Definition ignored (e : error) : bool :=
  bool_decide (e = ErrDuplicateOrOutOfOrderAck) || bool_decide (e = errRstStreamOnInvalidStream)
  || bool_decide (e = errWindowUpdateOnClosedStream).

(** [handleFramesNew] *)
Definition handleFrames (fs : list Frame) (id : Z) (localPconn : list Z) : M unit :=
  forEach fs (fun ff =>
    onError (handleFrame id localPconn ff) (fun e => if ignored e then mret tt else raise e)).

(** *** Packets *)
Definition withNumber (hdr : PublicHeader) (pn : Z) : PublicHeader :=
  mkPublicHeader (Raw hdr) (hdr_ConnectionID hdr) (hdr_PathID hdr) (VersionFlag hdr) (ResetFlag hdr)
    (TruncateConnectionID hdr) (MultipathFlag hdr) (hdr_PacketNumberLen hdr) pn (VersionNumber hdr)
    (SupportedVersions hdr) (DiversificationNonce hdr).

Definition withHeader (p : receivedPacket) (hdr : PublicHeader) : receivedPacket :=
  mkReceivedPacket (rp_remoteAddr p) hdr (rp_data p) (rp_rcvTime p) (rp_rcvPconn p).
Definition withRcvTime (p : receivedPacket) (t : Z) : receivedPacket :=
  mkReceivedPacket (rp_remoteAddr p) (rp_publicHeader p) (rp_data p) t (rp_rcvPconn p).

Definition isDecryptionFailure (e : error) : bool :=
  match e with QuicError code _ => code =? codes.DecryptionFailure | _ => false end.

(** [Open] is what the crypto setup can decrypt at this time. *)
Context (Open : list Z -> Z -> list Z -> outcome (list Z * EncryptionLevel)).

(** The rest of [path.handlePacketImpl] once the packet is unpacked. *)
Definition handleUnpacked (id pn : Z) (packet : unpackedPacket) (localPconn : list Z) : M unit :=
  withPath id (fun p =>
    let p := p <| pa_lastRcvdPacketNumber := pn |>
               <| pa_largestRcvdPacketNumber := utils.MaxPacketNumber (pa_largestRcvdPacketNumber p) pn |> in
    let '(h, r) := Handler.ReceivedPacket (pa_received p) now pn (HasRetransmittableFrames (frames packet)) in
    setPath id (p <| pa_received := h |>);; lift r;;
    handleFrames (frames packet) id localPconn).

(** [path.handlePacketImpl].  The packet number is completed in the header the packet points to: the
    second result is the packet with that header. *)
Definition handleOnPath (id : Z) (pkt : receivedPacket) (s : session)
    : session * receivedPacket * outcome unit :=
  match ss_paths s !! id with
  | None => (s, pkt, Panic "invalid memory address or nil pointer dereference")
  | Some p =>
      if negb (pa_open p) then (s, pkt, Ret tt)
      else
        let p := if negb (rp_rcvTime pkt =? 0) then p <| pa_lastNetworkActivityTime := rp_rcvTime pkt |> else p in
        let p := p <| pa_potentiallyFailed := false |> in
        let hdr := rp_publicHeader pkt in
        let pn := InferPacketNumber (hdr_PacketNumberLen hdr) (pa_largestRcvdPacketNumber p) (hdr_PacketNumber hdr) in
        let pkt := withHeader pkt (withNumber hdr pn) in
        let unpacked := Unpacker.Unpack codeString (ss_version s) Open (Raw hdr) (withNumber hdr pn) (rp_data pkt) in
        let moved := if isServer (ss_perspective s)
                     then p <| pa_conn := Conn.SetCurrentRemoteAddr (rp_remoteAddr pkt) (pa_conn p) |> else p in
        let store p := s <| ss_paths := <[id := p]> (ss_paths s) |> in
        match unpacked with
        | Ret packet =>
            let '(s, r) := handleUnpacked id pn packet (rp_rcvPconn pkt) (store moved) in (s, pkt, r)
        | Err e => (store (if isDecryptionFailure e then p else moved), pkt, Err e)
        | Panic why => (store p, pkt, Panic why)
        end
  end.

(** [session.handlePacketImpl] *)
Definition handlePacketImpl (p : receivedPacket) (s : session) : session * receivedPacket * outcome unit :=
  let nonce := DiversificationNonce (rp_publicHeader p) in
  let hasNonce := isClient (ss_perspective s) && (0 <? Z.of_nat (length nonce)) in
  let s := if hasNonce then s <| ss_nonces := ss_nonces s ++ [nonce] |> else s in
  match (if hasNonce then SetDiversificationNonce cs nonce else None) with
  | Some why => (s, p, Panic why)
  | None =>
      let p := if rp_rcvTime p =? 0 then withRcvTime p now else p in
      let s := s <| ss_lastNetworkActivityTime := rp_rcvTime p |> <| ss_keepAlivePingSent := false |> in
      let id := hdr_PathID (rp_publicHeader p) in
      match ss_paths s !! id with
      | Some _ => handleOnPath id p s
      | None =>
          match createPathFromRemote p s with
          | (s, Ret _) => handleOnPath id p s
          | (s, Err e) => (s, p, Err e)
          | (s, Panic why) => (s, p, Panic why)
          end
      end
  end.

(** The case of the run loop for a received packet: the error of a packet closes the session, unless the
    packet could not be decrypted. *)
Definition receivePacket (p : receivedPacket) : M unit := fun s =>
  match handlePacketImpl p s with
  | (s, p, Err e) =>
      ((if isDecryptionFailure e then tryQueueingUndecryptablePacket p s else closeLocal e s), Ret tt)
  | (s, _, r) => (s, r)
  end.

(** *** Streams that are finished *)

(** The first occurrence of [id] is removed. *)
Definition removeFirst (id : Z) (l : list Z) : list Z :=
  match StreamsMap.indexOf id l with Some i => StreamsMap.removeAt i l | None => l end.

(** The records of the stream [id] on the path [pthID]. *)
Definition forgetOnPath (id pthID : Z) : M unit :=
  changePath pthID (fun p =>
    p <| pa_streamIDs := removeFirst id (pa_streamIDs p) |>
      <| pa_streamOrder := removeFirst id (pa_streamOrder p) |>
      <| pa_streamQuota := delete id (pa_streamQuota p) |>);;
  update (fun s => s <| ss_numstreams := <[pthID := default 0 (ss_numstreams s !! pthID) -64 1]> (ss_numstreams s) |>).

Definition collectStream (id : Z) : M unit :=
  s ← get;
  match streams (sessionMap s) !! id with
  | None => raise sm_errMapAccess
  | Some str =>
      if negb (Stream.finished str) then mret tt
      else
        let '(m, r) := StreamsMap.RemoveStream id (sessionMap s) in
        let pthIDs := pathsOf (ss_streamToPath s) id in
        update (fun s => setMapState (m, flowControl s) s
          <| ss_removed := <[id := Stream.finishedWriteAndSentFin str]> (ss_removed s) |>
          <| ss_streamToPath := (Assignment.Delete (ss_streamToPath s) id).1 |>);;
        forEach pthIDs (forgetOnPath id);;
        lift r;;
        update (fun s => setMapState (sessionMap s, Manager.RemoveStream (flowControl s) id) s)
  end.

(** The error of the iteration is ignored. *)
Definition garbageCollectStreams : M unit :=
  s ← get;
  onError (forEach (openStreams (sessionMap s)) collectStream) (fun _ => mret tt).

(** *** Window updates *)

(** The iteration over the controllers of the streams and that over the remote round-trip times. *)
Definition getWindowUpdateFrames (force : bool) : M (list WindowUpdateFrame) :=
  withPath InitialPathID (fun p0 s =>
    let rtts := omap (ss_remoteRTTs s !!.) (order (dom (ss_remoteRTTs s))) in
    let '(fc, updates) := Manager.GetWindowUpdates (flowControl s) force now (Path.SmoothedRTT p0) rtts
                            (order (dom (streamFlowController (flowControl s)))) in
    (setMapState (sessionMap s, fc) s,
     Ret (map (fun u => mkWindowUpdateFrame (upd_StreamID u) (upd_Offset u)) updates))).

(** *** The alarm of a path *)

(** [OnAlarm] reaches the call of [onRTO]. *)
Definition retransmissionTimeout (h : sentPacketHandler C) : bool :=
  Sent.hasOutstandingRetransmittablePacket h && (lossTime h =? 0) && negb (tlpCount h <? maxTailLossProbes).

(** The timer of the path [id]; [onRTO] marks the path and schedules a PATHS frame before the packets
    are queued. *)
Definition onPathTimer (id : Z) : M unit :=
  withPath id (fun p =>
    let timeout := Sent.GetAlarmTimeout (pa_sent p) in
    when (negb (timeout =? 0) && (timeout <? now)) (
      when (retransmissionTimeout (pa_sent p) && Path.onRTO p (lastSentTime (pa_sent p))) (
        setPath id (p <| pa_potentiallyFailed := true |>);; schedulePathsFrame);;
      changePath id (fun q => q <| pa_sent := Sent.OnAlarm (pa_sent q) now (Some (Path.onRTO q)) |>))).

(** *** Closing *)

(** The paths are asked to close and stop. *)
Definition closePaths (s : session) : session :=
  let s := foldl (fun s id => askToClose id s) s (order (dom (ss_paths s))) in
  s <| ss_paths := (fun p => if pa_closing p then Path.stop p else p) <$> ss_paths s |>.

(** [qerr.ToQuicError] *)
Definition ToQuicError (e : error) : error :=
  match e with
  | QuicError code msg => e
  | ErrorCode code => QuicError code ""
  | _ => QuicError InternalError (Unpacker.errorText codeString e)
  end.

(** The errors of the package are variables, compared by identity: no other error of the program has the text of one of
    these, and an error of the peer is remote. *)
Definition handleCloseError (c : closeError) : M unit :=
  let err := default (ErrorCode PeerGoingAway) (ce_err c) in
  let quicErr := ToQuicError err in
  s ← get;
  let '(m, r) := StreamsMap.CloseWithError quicErr (sessionMap s) in
  update (setMapState (m, flowControl s));; lift r;;
  if bool_decide (err = errCloseSessionForNewVersion) then mret tt
  else
    update closePaths;;
    if ce_remote c then mret tt
    else if isDecryptionFailure quicErr || bool_decide (quicErr = ErrHOLExperiment)
            || bool_decide (quicErr = ErrNSTPExperiment)
    then withPath 0 (fun p => sendPublicReset (pa_lastRcvdPacketNumber p))
    else sendConnectionClose quicErr.

(** *** A new session *)

(** [pathManager.setup]: the even path IDs are left to the server. *)
Definition newPathManager (pers : Perspective) (remote : UDPAddr) (localAddrs : list UDPAddr) : pathManager :=
  let v4 := getIPVersion (ua_IP remote) =? 4 in
  mkPathManager (if isClient pers then 1 else 2) (if v4 then [remote] else []) (if v4 then [] else [remote]) ∅ localAddrs.

(** The fields [newSession], [newClientSession] and [setup] fill in; [c] is the connection of the initial
    path. *)
Definition initialSession (pers : Perspective) (version connectionID handshakeTimeout : Z) (keepAlive createPaths : bool)
    (pathScheduler : string) (h : connectionParametersManager) (c : conn) (pm : pathManager) : session :=
  let fc := NewFlowControlManager (Parameters.flowControlView h) in
  mkSession connectionID pers version handshakeTimeout keepAlive
    {[InitialPathID := Path.setup InitialPathID c version (newController InitialPathID 0 0) now]} [InitialPathID]
    ∅ ∅ ∅ ∅ newStreamTree createPaths ∅ 0
    (newPacketPacker connectionID h (newStreamFramer (newStreamsMapTree pers) fc) pers version) false [] false None [] 0
    false now now false (Some pm) [] ∅ ∅ 0 pathScheduler.

Definition OpenStream : M Z := s ← get; opening defaultWeight (StreamsMap.OpenStream (parameters s)).

(** [SetStreamPriority] and [SetStreamActive] *)
Definition SetStreamPriority (id : Z) (priority : Priority) : M unit :=
  onTree (Tree.maybeSetWeight id (Weight priority));;
  onTree (Tree.maybeSetParent id (Dependency priority) (Exclusive priority)).

Definition SetStreamActive (id : Z) : M unit := onError (onTree (Tree.setActive id)) (fun _ => mret tt).

(** The variants of the calls that open a stream with a priority: those with a size print the tree, and one of them
    notes the path of a request. *)
Inductive priorityCall := OfPriority | OfPrioritySize | OfPrioritySizePath (requestPath : list Z).
Definition prints (call : priorityCall) : bool := match call with OfPriority => false | _ => true end.

(** [GetOrOpenStreamPriority], [GetOrOpenStreamPrioritySize] and [GetOrOpenStreamPrioritySizePath]; the error of
    [SetStreamPriority] is ignored. *)
Definition GetOrOpenStreamPriority (call : priorityCall) (id : Z) (priority : Priority) : M (option Z) :=
  str ← getOrOpenWith (Weight priority) id;
  match str with
  | None => mret None
  | Some _ =>
      onError (SetStreamPriority id priority) (fun _ => mret tt);;
      when (prints call) printTree;;
      match call with
      | OfPrioritySizePath requestPath => update (changeInfo id (fun i => i <| si_requestPath := requestPath |>))
      | _ => mret tt
      end;;
      mret str
  end.

(** [openStreamPriorityImpl] and [openStreamPrioritySizeImpl]: the priority is set for the stream in the tree, which
    the latter prints. *)
Definition openStreamPriorityImpl (call : priorityCall) (priority : Priority) : M Z :=
  s ← get;
  let id := nextStream (sessionMap s) in
  opening (Weight priority) (StreamsMap.openStreamImpl (parameters s));;
  SetStreamPriority id priority;;
  when (prints call) printTree;;
  mret id.

(** One round of the loops of [OpenStreamSync] and, with a priority, of [OpenStreamPrioritySync] and
    [OpenStreamPrioritySizeSync]; [None]: the call waits for a stream to be closed. *)
Definition OpenStreamSync (priority : option (priorityCall * Priority)) : M (option Z) :=
  s ← get;
  match closeErr (sessionMap s) with
  | Some e => raise e
  | None =>
      onError
        (id ← match priority with
              | Some (call, priority) => openStreamPriorityImpl call priority
              | None => opening defaultWeight (StreamsMap.openStreamImpl (parameters s))
              end;
         mret (Some id))
        (fun e => if decide (e = TooManyOpenStreams) then mret None else raise e)
  end.

(** One round of the loop of [AcceptStream]. *)
Definition AcceptStream (s : session) : session * option (outcome Z) :=
  let '(m, r) := StreamsMap.AcceptStream (sessionMap s) in (setMapState (m, flowControl s) s, r).

(** The crypto stream: a server opens it as if the client had and does not hand it to the application; the
    errors are ignored. *)
Definition openCryptoStream (s : session) : session :=
  if isServer (ss_perspective s) then (AcceptStream (GetOrOpenStream 1 s).1).1 else (OpenStream s).1.

Definition newSession (pers : Perspective) (version connectionID handshakeTimeout : Z) (keepAlive createPaths : bool)
    (pathScheduler : string) (h : connectionParametersManager) (c : conn) (pm : pathManager) : session :=
  openCryptoStream (initialSession pers version connectionID handshakeTimeout keepAlive createPaths pathScheduler h c pm).
End Sess.
End Sess.
