(* ===== verification/Scheduler.v ===== *)
(** * The scheduler

    Models the functions of [scheduler.go] that have callers, with [sortStreamPriorityOrder],
    [RoundRobinIterateSchedule] and [fetchFlow] of [streams_map.go]: streams that wait in the stream tree are
    put on paths, by their weight and by the round-trip times of the paths or as an external agent says; then
    every path with streams sends packets in turn until no path can; then the ACKs that are left are sent.
    The scheduler has no state of its own besides fields of the session. *)
From S2P Require Import Prelude MinMax Float32 Float64 ByteOrder PacketNumber PacketNumberGenerator.
From S2P Require Import HandshakeMessage Frames AckRanges AckFrame PathsFrame PublicHeader Unpacker ReceivedPackets.
From S2P Require Import FrameSorter FlowControl ConnectionParameters StreamToPath StreamTree Stream StreamsMap.
From S2P Require Import StreamFramer PacketPacker SentPackets Session.
From Stdlib Require Import QArith.

Open Scope Z_scope.
Open Scope go_scope.

(** What a request to the agent says of a path *)
Record PathStats := mkPathStats {
  st_PathID : Z;
  st_SmoothedRTT : float64;
  st_Bandwidth : Z;
  st_Packets : Z;
  st_Retransmissions : Z;
  st_Losses : Z
}.

Record Request := mkRequest {
  rq_StreamID : Z;
  rq_RequestPath : list Z;
  rq_Path1 : PathStats;
  rq_Path2 : PathStats
}.

(** What surrounds the scheduler *)
Record surroundings := mkSurroundings {
  (** the path ID in the answer of the agent, 0 when it does not answer in time *)
  sr_agent : Request -> Z;
  (** the number below 100000 that [fetchFlow] draws for a packet *)
  sr_randInt : forall (pathID packetNumber : Z), Z;
  (** [sort.Slice] by descending weight, which may reorder equal elements *)
  sr_sort : list (Z * Z) -> list (Z * Z)
}.

Module Sched.
Section Sched.
Context {C : Type} `{!SendAlgorithm C} (env : environment C) (around : surroundings) (now : Z).
Notation order := (env_order env).
Notation parseIPv6 := (env_parseIPv6 env).
Notation cs := (env_crypto env).
Notation session := (session C).
Notation path := (path C).
Notation M := (Call session).

Definition queue (frame : Frame) (id : Z) : M unit := update (Sess.QueueControlFrame frame id).

(** *** Retransmissions *)
Definition requeueFrame (id : Z) (frame : Frame) : M unit :=
  match frame with
  | FStream f => update (fun s => Sess.setFramer (Framer.AddFrameForRetransmission f (Sess.framer s)) s)
  | FWindowUpdate f =>
      s ← get;
      match Manager.GetReceiveWindow (Sess.flowControl s) (wu_StreamID f) with
      | Ret currentOffset => when (currentOffset <=? wu_ByteOffset f) (queue frame id)
      | _ => mret tt
      end
  | FPaths _ => Sess.schedulePathsFrame env now
  | _ => queue frame id
  end.

(** The loop of [getRetransmissionOfPath]; [fuel] bounds the packets that wait for retransmission. *)
Fixpoint getRetransmissionOfPath (fuel : nat) (id : Z) (hasRetransmission : bool) : M (bool * option Packet) :=
  match fuel with
  | O => crash "fuel"
  | S fuel' =>
      Sess.withPath id (fun p =>
        let '(h, retransmitPacket) := Sent.DequeuePacketForRetransmission (pa_sent p) in
        Sess.setPath id (p <| pa_sent := h |>);;
        match retransmitPacket with
        | None => mret (hasRetransmission, None)
        | Some packet =>
            s ← get;
            if negb (bool_decide (pkt_EncryptionLevel packet = EncryptionForwardSecure)) then
              if ss_handshakeComplete s then getRetransmissionOfPath fuel' id true
              else mret (true, Some packet)
            else
              forEach (GetFramesForRetransmission packet) (requeueFrame id);;
              getRetransmissionOfPath fuel' id true
        end)
  end.

(** *** Choosing a path *)

(** The loops over the paths pass over these. *)
Definition unusable (id : Z) (p : path) : bool :=
  negb (Path.SendingAllowed p) || pa_potentiallyFailed p || (id =? InitialPathID).

(** One round of the loop of [findPathLowLatency]: the path selected before, its round-trip time, and the
    quotas. *)
Definition lowLatencyStep (paths : gmap Z path) (acc : option Z * Z * gmap Z Z) (id : Z)
    : option Z * Z * gmap Z Z :=
  let '(selected, lowerRTT, quotas) := acc in
  match paths !! id with
  | None => acc
  | Some p =>
      if unusable id p then acc
      else
        let currentRTT := Path.SmoothedRTT p in
        if negb (lowerRTT =? 0) && (currentRTT =? 0) then acc
        else
          let quotas := if (currentRTT =? 0) && bool_decide (quotas !! id = None) then <[id := 0]> quotas else quotas in
          let quotaOf id := default 0 (quotas !! id) in
          if (currentRTT =? 0) && bool_decide (is_Some selected) && (quotaOf (default 255 selected) <? quotaOf id)
          then (selected, lowerRTT, quotas)
          else if negb (currentRTT =? 0) && negb (lowerRTT =? 0) && bool_decide (is_Some selected) && (lowerRTT <=? currentRTT)
          then (selected, lowerRTT, quotas)
          else (Some id, currentRTT, quotas)
  end.

(** [if len(s.paths) <= 1]: the initial path, if it may send. *)
Definition onlyPath : M (option Z) :=
  Sess.withPath InitialPathID (fun p => mret (if Path.SendingAllowed p then Some InitialPathID else None)).

Definition findPathLowLatency : M (option Z) :=
  s ← get;
  if Z.of_nat (size (ss_paths s)) <=? 1 then onlyPath
  else
    let '(selected, _, quotas) :=
      foldl (lowLatencyStep (ss_paths s)) (None, 0, ss_quotas s) (order (dom (ss_paths s))) in
    update (fun s => s <| ss_quotas := quotas |>);; mret selected.

(** The weights of the streams of a path, the streams 1 and 3 apart. *)
Fixpoint prioritySum (ids : list Z) (sum : f32.t) (s : session) : outcome f32.t :=
  match ids with
  | [] => Ret sum
  | sid :: ids' =>
      if (sid =? 1) || (sid =? 3) then prioritySum ids' sum s
      else
        match streams (Sess.sessionMap s) !! sid with
        | None => Panic "invalid memory address or nil pointer dereference"
        | Some _ => prioritySum ids' (f32.add sum (f32.ofZ (si_weight (Sess.infoOf s sid)))) s
        end
  end.

(** The time to send [size] bytes with the weight [priority] on a path, in seconds. *)
Definition estimatedTime (size priority : Z) (sum : f32.t) (p : path) : float64 :=
  let w := f64.ofZ priority in
  let bandwidthShare := f64.mul (f64.div w (f64.add w (f64.of32 sum))) (f64.ofZ (bdw_GetBandwidth (congestion (pa_sent p)))) in
  f64.add (f64.div (f64.mul (f64.ofZ size) (f64.ofZ 8)) (f64.mul bandwidthShare (f64.ofZ 1048576)))
    (f64.div (f64.seconds (Path.SmoothedRTT p)) (f64.ofZ 2)).

(** The loop of [choosePath]: the path selected before and its time. *)
Fixpoint fastestPath (ids : list Z) (size priority : Z) (selected : option Z) (lowerTime : float64) (s : session)
    : outcome (option Z) :=
  match ids with
  | [] => Ret selected
  | id :: ids' =>
      match ss_paths s !! id with
      | None => fastestPath ids' size priority selected lowerTime s
      | Some p =>
          if unusable id p then fastestPath ids' size priority selected lowerTime s
          else
            sum ← prioritySum (pa_streamIDs p) (f32.ofZ 0) s;
            let currentTime := estimatedTime size priority sum p in
            if negb (f64.eqb currentTime f64.zero) && negb (f64.eqb lowerTime f64.zero)
               && bool_decide (is_Some selected) && f64.leb lowerTime currentTime
            then fastestPath ids' size priority selected lowerTime s
            else fastestPath ids' size priority (Some id) currentTime s
      end
  end.

(** The size of a stream is the data that waits the first time there is any. *)
Definition detectSize (sid : Z) : M bool :=
  s ← get;
  match streams (Sess.sessionMap s) !! sid with
  | None => nilDereference
  | Some str =>
      if si_checksize (Sess.infoOf s sid) then mret true
      else
        let size := Stream.lenOfDataForWriting str in
        update (Sess.changeInfo sid (fun i => i <| si_size := size |> <| si_checksize := negb (size =? 0) |>));;
        mret (negb (size =? 0))
  end.

Definition choosePath (sid priority : Z) : M (option Z) :=
  s ← get;
  if Z.of_nat (size (ss_paths s)) <=? 1 then onlyPath
  else
    known ← detectSize sid;
    if negb known then mret None
    else
      s ← get;
      lift (fastestPath (order (dom (ss_paths s))) (si_size (Sess.infoOf s sid)) priority None f64.zero s).

Definition statsOf (p : path) : PathStats :=
  let '(sntPkts, sntRetrans, sntLost) := Sent.GetStatistics (pa_sent p) in
  mkPathStats (u8 (pa_pathID p)) (f64.seconds (Path.SmoothedRTT p)) (bdw_GetBandwidth (congestion (pa_sent p)))
    sntPkts sntRetrans sntLost.

(** The path the agent answers, for a request with the first two paths that are usable; the volume, the size of
    the stream, is not used by the caller. *)
Definition choosePathsRL (sid : Z) : M (option Z) :=
  s ← get;
  if Z.of_nat (size (ss_paths s)) <=? 1 then onlyPath
  else
    let avalPaths := omap (fun id =>
      p ← ss_paths s !! id; if unusable id p then None else Some (statsOf p)) (order (dom (ss_paths s))) in
    match avalPaths with
    | path1 :: path2 :: _ =>
        mret (Some (sr_agent around (mkRequest sid (si_requestPath (Sess.infoOf s sid)) path1 path2)))
    | _ => mret None
    end.

(** *** Packets of a path *)

(** [fetchFlow]: the first stream at which the sum of the probabilities exceeds a random number. *)
Fixpoint fetchFlow (randInt : Z) (probability : list (Z * f32.t)) (sumPro : f32.t) : Z :=
  match probability with
  | [] => 0
  | (sid, p) :: probability' =>
      let sumPro := f32.add sumPro p in
      if negb (Qle_bool (f32.mul (f32.ofZ 100000) sumPro) (f32.ofZ randInt)) then sid
      else fetchFlow randInt probability' sumPro
  end.

(** The stream [PriorityIteratePopOfPath] selects: the weight of the crypto stream counts for the sum. *)
Definition selectFlow (p : path) (s : session) : Z :=
  let weight sid := f32.ofZ (si_weight (Sess.infoOf s sid)) in
  let sum := foldl (fun sum sid => if sid =? 3 then sum else f32.add sum (weight sid)) (f32.ofZ 0) (pa_streamIDs p) in
  let flows := order (list_to_set (filter (fun sid => sid <> 1 /\ sid <> 3) (pa_streamIDs p))) in
  fetchFlow (sr_randInt around (pa_pathID p) (Generator.Peek (pa_generator p)))
    (map (fun sid => (sid, f32.div (weight sid) sum)) flows) (f32.ofZ 0).

(** What is left of the streams for a path; a volume that is absent counts as 0. *)
Definition volumesOn (id : Z) (s : session) (sid : Z) : option float64 :=
  si_pathVolume (Sess.infoOf s sid) !! id.
Definition volumePositive (v : option float64) : bool := f64.positive (default f64.zero v).
Definition volumeMinus (v : option float64) (n : Z) : option float64 :=
  Some (f64.sub (default f64.zero v) (f64.ofZ n)).
Definition setVolume (id : Z) (volume : Z -> option float64) (s : session) (sid : Z) : session :=
  match volume sid with
  | None => s
  | Some v => Sess.changeInfo sid (fun i => i <| si_pathVolume := <[id := v]> (si_pathVolume i) |>) s
  end.

Definition packPacketOfPath (id : Z) : M (option packedPacket) :=
  Sess.withPath id (fun p =>
    s ← get;
    '(volume, r) ← Sess.packing id (fun pk v =>
      let '(pk, v, volume, r) :=
        Packer.PackPacketOfPath parseIPv6 now cs volumePositive volumeMinus (ss_pathScheduler s) (pa_streamIDs p)
          (selectFlow p s) (Sess.nextRand env v) pk v (volumesOn id s) in
      (pk, v, Ret (volume, r)));
    update (fun s => foldl (setVolume id volume) s (pa_streamIDs p));;
    lift r).

Definition getAckFrame (id : Z) : M (option AckFrame) :=
  Sess.withPath id (fun p =>
    let '(p, ack) := Path.GetAckFrame now p in Sess.setPath id p;; lift ack).

Definition getStopWaitingFrame (id : Z) (force : bool) : M (option StopWaitingFrame) :=
  Sess.withPath id (fun p =>
    let '(p, swf) := Path.GetStopWaitingFrame force p in Sess.setPath id p;; mret swf).

Definition queueStopWaiting (id : Z) (force : bool) : M unit :=
  swf ← getStopWaitingFrame id force;
  match swf with Some swf => queue (FStopWaiting swf) id | None => mret tt end.

(** [QueueControlFrame] with an ACK frame that may be nil, which replaces the one queued before. *)
Definition queueAck (ack : option AckFrame) (id : Z) : M unit :=
  match ack with
  | Some ack => queue (FAck ack) id
  | None => update (fun s => s <| ss_packer := ss_packer s <| ackFrame := delete id (ackFrame (ss_packer s)) |> |>)
  end.

(** *** The ACKs that are left *)

(** The body of the loop of [ackRemainingPaths].  [locked]: the caller holds the mutex of the streams map, which
    [PackPacketOfPath] waits for. *)
Definition ackPath (locked : bool) (windowUpdateFrames : list WindowUpdateFrame) (id : Z) : M unit :=
  ack ← getAckFrame id;
  forEach windowUpdateFrames (fun wuf => queue (FWindowUpdate wuf) id);;
  match ack, windowUpdateFrames with
  | None, [] => mret tt
  | _, _ =>
      if (id =? InitialPathID) && bool_decide (ack = None) then mret tt
      else
        queueStopWaiting id false;;
        queueAck ack id;;
        packet ← match ack with
                 | Some _ => packed ← Sess.packing id (fun pk v => Packer.PackAckPacket parseIPv6 now cs (Sess.nextRand env v) pk v);
                             mret (Some packed)
                 | None => if locked then crash "deadlock" else packPacketOfPath id
                 end;
        match packet with
        | None => nilDereference
        | Some packet => Sess.sendPackedPacket env now packet id
        end
  end.

Definition ackRemainingPaths (locked : bool) (total : list WindowUpdateFrame) : M unit :=
  s ← get;
  windowUpdateFrames ← match total with
                       | [] => Sess.getWindowUpdateFrames env now (ss_peerBlocked s)
                       | _ => mret total
                       end;
  s ← get;
  forEach (order (dom (ss_paths s))) (ackPath locked windowUpdateFrames);;
  update (fun s => s <| ss_peerBlocked := false |>).

(** *** Putting streams on paths *)

(** [counted]: the stream counts for the quota of the path. *)
Definition assign (counted : bool) (sid pid : Z) : M unit :=
  Sess.withPath pid (fun p =>
    update (fun s => s <| ss_streamToPath := Assignment.Add (ss_streamToPath s) sid pid |>);;
    update (Sess.changeInfo sid (fun i => i <| si_pathVolume := <[pid := f64.zero]> (si_pathVolume i) |>));;
    Sess.setPath pid (p <| pa_streamIDs := pa_streamIDs p ++ [sid] |>);;
    when counted (update (fun s =>
      s <| ss_numstreams := <[pid := default 0 (ss_numstreams s !! pid) +64 1]> (ss_numstreams s) |>))).

(** No path was found. *)
Definition noPath : M bool :=
  windowUpdateFrames ← Sess.getWindowUpdateFrames env now false;
  ackRemainingPaths true windowUpdateFrames;;
  mret false.

Definition assignTo (counted : bool) (sid : Z) (choice : option Z) : M bool :=
  match choice with
  | None => noPath
  | Some pid => assign counted sid pid;; mret true
  end.

(** [assignPath] of [scheduleToSinglePath], or of [scheduleToMultiplePaths] if [multiple]: whether to go on with
    the next stream. *)
Definition assignPath (multiple : bool) (sid : Z) : M bool :=
  s ← get;
  if bool_decide (is_Some (ss_streamToPath s !! sid)) then mret true
  else
    let special := (sid =? 1) || (sid =? 3) in
    if isClient (ss_perspective s) then
      pth ← findPathLowLatency; assignTo (negb special) sid pth
    else if special then
      pth ← findPathLowLatency; assignTo false sid pth
    else if Z.of_nat (size (ss_paths s)) <? 3 then mret true
    else if multiple then
      pth ← choosePathsRL sid; assignTo true sid pth
    else
      pth ← choosePath sid (si_weight (Sess.infoOf s sid));
      s ← get;
      if bool_decide (pth = None) && negb (si_checksize (Sess.infoOf s sid)) then mret true
      else assignTo true sid pth.

(** The streams that wait, by descending weight; [false] if there are none. *)
Definition streamFinished (s : session) (id : Z) : bool :=
  match streams (Sess.sessionMap s) !! id with
  | Some str => Stream.finishedWriteAndSentFin str
  | None => default false (ss_removed s !! id)
  end.

Definition setPriorityOrder (ids : list Z) (s : session) : session :=
  Sess.setMapState (Sess.sessionMap s <| priorityOrder := ids |>, Sess.flowControl s) s.

Definition sortStreamPriorityOrder : M bool :=
  s ← get;
  waiting ← Sess.onTree (Tree.schedule (streamFinished s) (fun id => si_checksize (Sess.infoOf s id)));
  match waiting with
  | [] => mret false
  | _ =>
      let orders := map (fun id => (id, si_weight (Sess.infoOf s id))) waiting in
      update (setPriorityOrder (map fst (sr_sort around orders)));;
      mret true
  end.

(** [RoundRobinIterateSchedule] over the streams [ids] *)
Fixpoint iterateSchedule (multiple : bool) (ids : list Z) : M bool :=
  match ids with
  | [] => mret true
  | id :: ids' =>
      s ← get;
      match streams (Sess.sessionMap s) !! id with
      | None => raise sm_errMapAccess
      | Some _ => cont ← assignPath multiple id; if (cont : bool) then iterateSchedule multiple ids' else mret false
      end
  end.

(** [scheduleToSinglePath] and [scheduleToMultiplePaths] *)
Definition scheduleTo (multiple : bool) : M bool :=
  ok ← sortStreamPriorityOrder;
  if negb ok then mret true
  else s ← get; iterateSchedule multiple (priorityOrder (Sess.sessionMap s)).

(** [setup] leaves the field nil for another name. *)
Definition pathScheduler : M bool :=
  s ← get;
  if String.eqb (ss_pathScheduler s) "SinglePath" then scheduleTo false
  else if String.eqb (ss_pathScheduler s) "MultiPath" then scheduleTo true
  else nilDereference.

(** *** Sending *)
Definition performPacketSending (windowUpdateFrames : list WindowUpdateFrame) (id : Z) : M bool :=
  Sess.withPath id (fun p =>
    when (Sent.ShouldSendRetransmittablePacket (pa_sent p)) (queue (FPing mkPingFrame) id));;
  packet ← packPacketOfPath id;
  match packet with
  | None => mret false
  | Some packet =>
      Sess.sendPackedPacket env now packet id;;
      forEach windowUpdateFrames (fun f => queue (FWindowUpdate f) id);;
      update (fun s => s <| ss_quotas := <[id := default 0 (ss_quotas s !! id) +64 1]> (ss_quotas s) |>);;
      mret true
  end.

(** A handshake packet that was lost is sent at once. *)
Definition resendHandshake (packet : Packet) (id : Z) : M unit :=
  swf ← getStopWaitingFrame id true;
  match swf with
  | Some swf => queue (FStopWaiting swf) id
  | None => update (fun s => s <| ss_packer := ss_packer s <| PacketPacker.stopWaiting :=
      delete id (PacketPacker.stopWaiting (ss_packer s)) |> |>)
  end;;
  packed ← Sess.packing id (fun pk v =>
    Packer.PackHandshakeRetransmission parseIPv6 now cs (Sess.nextRand env v) (pkt_Frames packet) (pkt_EncryptionLevel packet) pk v);
  Sess.sendPackedPacket env now packed id.

(** [for f := pop(); f != nil; f = pop() { QueueControlFrame(f, path) }]; [fuel] bounds the frames. *)
Fixpoint queueAll {F} (fuel : nat) (pop : streamFramer -> streamFramer * option F) (frame : F -> Frame) (id : Z) : M unit :=
  match fuel with
  | O => crash "fuel"
  | S fuel' =>
      s ← get;
      let '(fr, f) := pop (Sess.framer s) in
      update (Sess.setFramer fr);;
      match f with
      | None => mret tt
      | Some f => queue (frame f) id;; queueAll fuel' pop frame id
      end
  end.

(** The CLOSE_PATH, ADD_ADDRESS and PATHS frames that wait. *)
Definition queueFrames (id : Z) : M unit :=
  s ← get;
  queueAll (S (length (closePathFrameQueue (Sess.framer s)))) Framer.PopClosePathFrame FClosePath id;;
  queueAll (S (length (addAddressFrameQueue (Sess.framer s)))) Framer.PopAddAddressFrame FAddAddress id;;
  queueAll 2 Framer.PopPathsFrame FPaths id.

(** What is known after some packets: a path had room in its window, a packet was sent, and the window updates that
    are still to be sent. *)
Record progress := mkProgress {
  hasWindows : bool;
  pathsent : bool;
  pendingUpdates : list WindowUpdateFrame
}.

(** [for streamNum > 0], for a path with [n] streams *)
Fixpoint sendStreams (n : nat) (id : Z) (st : progress) : M progress :=
  match n with
  | O => mret st
  | S n' =>
      Sess.withPath id (fun p =>
        if negb (Path.SendingAllowed p) then mret st
        else
          '(hasRetransmission, handshake) ←
            getRetransmissionOfPath (S (length (retransmissionQueue (pa_sent p)))) id false;
          s ← get;
          let hasStreamRetransmission := Framer.HasFramesForRetransmission (Sess.framer s) in
          match handshake with Some packet => resendHandshake packet id | None => mret tt end;;
          ack ← getAckFrame id;
          match ack with Some ack => queue (FAck ack) id | None => mret tt end;;
          when (bool_decide (is_Some ack) || hasStreamRetransmission) (queueStopWaiting id hasStreamRetransmission);;
          queueFrames id;;
          sent ← performPacketSending (pendingUpdates st) id;
          let st := mkProgress true (pathsent st || sent) [] in
          if negb sent then mret st else sendStreams n' id st)
  end.

(** The body of [PATHLOOP], which always moves the index on. *)
Definition sendOnPath (numOfPath id : Z) (st : progress) : M progress :=
  Sess.changePath id (fun p => Path.SetLeastUnacked (Sent.GetLeastUnacked (pa_sent p)) p);;
  st ← Sess.withPath id (fun p => sendStreams (length (pa_streamIDs p)) id st);
  update (fun s => s <| ss_roundRobinIndexPath := u32 (ss_roundRobinIndexPath s + 1) `mod` numOfPath |>);;
  mret st.

(** [for i := uint32(0); i < numOfPath; i++], with [n] paths left *)
Fixpoint pathLoop (n : nat) (i numOfPath startIndex : Z) (st : progress) : M progress :=
  match n with
  | O => mret st
  | S n' =>
      s ← get;
      match ss_openPaths s !! Z.to_nat (u32 (i + startIndex) `mod` numOfPath) with
      | None => crash "index out of range"
      | Some pid => st ← sendOnPath numOfPath pid st; pathLoop n' (i + 1) numOfPath startIndex st
      end
  end.

(** The loop of [sendPacket], for at most [fuel] rounds. *)
Fixpoint sendRounds (fuel : nat) (numOfPath startIndex : Z) (updates : list WindowUpdateFrame) : M unit :=
  match fuel with
  | O => crash "fuel"
  | S fuel' =>
      st ← pathLoop (Z.to_nat numOfPath) 0 numOfPath startIndex (mkProgress false false updates);
      if negb (pathsent st) || negb (hasWindows st) then ackRemainingPaths false (pendingUpdates st)
      else sendRounds fuel' numOfPath startIndex (pendingUpdates st)
  end.

(** A window update is queued for no path in particular. *)
Definition sendPacket (fuel : nat) : M unit :=
  pathScheduler;;
  windowUpdateFrames ← Sess.getWindowUpdateFrames env now false;
  forEach windowUpdateFrames (fun wuf => queue (FWindowUpdate wuf) InitialPathID);;
  s ← get;
  sendRounds fuel (u32 (Z.of_nat (size (ss_paths s)))) (ss_roundRobinIndexPath s) windowUpdateFrames.

(** *** The end of a round of the run loop *)
Definition pingPaths : M unit :=
  s ← get;
  when (ss_keepAlive s && ss_handshakeComplete s && (Z.quot (Sess.idleTimeout s) 2 <=? now - ss_lastNetworkActivityTime s)) (
    forEach (order (dom (ss_paths s))) (fun id => queue (FPing mkPingFrame) id);;
    update (fun s => s <| ss_keepAlivePingSent := true |>)).

Definition closeIf (b : session -> bool) (e : error) : M unit :=
  update (fun s => if b s then Sess.closeLocal e s else s).

(** A PATHS frame every 200 ms. *)
Definition pathsFrameDue (s : session) : bool :=
  ss_handshakeComplete s && (VersionMP <=? ss_version s) && (200 * Millisecond <=? now - ss_lastPathsFrameSent s)
  && (2 <? Z.of_nat (length (openStreams (Sess.sessionMap s)))).

(** What the run loop of the session does after each event. *)
Definition afterEvent (fuel : nat) : M unit :=
  pingPaths;;
  onError (sendPacket fuel) (fun e => update (Sess.closeLocal e));;
  closeIf (fun s => negb (ss_receivedTooManyTime s =? 0) && (ss_receivedTooManyTime s + PublicResetTimeout <? now)
                    && negb (length (ss_undecryptablePackets s) =? 0)%nat)
    (QuicError codes.DecryptionFailure "too many undecryptable packets received");;
  closeIf (fun s => negb (ss_handshakeComplete s) && (ss_handshakeTimeout s <=? now - ss_sessionCreationTime s))
    (QuicError HandshakeTimeout "Crypto handshake did not complete in time.");;
  closeIf (fun s => ss_handshakeComplete s && (Sess.idleTimeout s <=? now - ss_lastNetworkActivityTime s))
    (QuicError NetworkIdleTimeout "No recent network activity.");;
  s ← get;
  when (pathsFrameDue s) (Sess.schedulePathsFrame env now);;
  Sess.garbageCollectStreams.
End Sched.
End Sched.
