(* ===== verification/SessionSafety.v ===== *)
(** * The state of a session stays well formed

    The invariant of a session puts the invariants of its components together: every path has a well
    formed sent and received packet handler, the streams map and flow control know the same streams, and
    the assignment of streams to paths agrees with what the paths, the streams and their volumes record.
    Every handler of [Session] keeps it, whatever a peer sends; the only frames that make the session
    panic are named by [frame_ok]. *)
From S2P Require Import Prelude MinMax ByteOrder PacketNumber PacketNumberGenerator HandshakeMessage.
From S2P Require Import Frames AckRanges AckFrame PathsFrame PublicHeader Unpacker ReceivedPackets.
From S2P Require Import FrameSorter FlowControl ConnectionParameters StreamToPath StreamTree Stream StreamsMap.
From S2P Require Import StreamFramer PacketPacker SentPackets Session.

Open Scope Z_scope.
Open Scope go_scope.

(** ** Components *)
Section Sent.
Context {C : Type} `{!SendAlgorithm C}.
Implicit Types h : sentPacketHandler C.

Definition sent_inv h : Prop := exists g, sent_ok h g.

Lemma sent_inv_step h g h' g' : sent_ok h g -> sent_step (h, g) (h', g') -> sent_inv h'.
Proof. intros Hok Hstep. exists g'. by apply (sent_ok_step _ _ Hstep). Qed.

Lemma sent_inv_new id (cong : C) : sent_inv (NewSentPacketHandler id cong).
Proof. exists ghost0. by eapply sent_ok_reachable. Qed.

Lemma sent_inv_congestion h c : sent_inv h -> sent_inv (h <| congestion := c |>).
Proof. intros [g Hg]. exists g. eapply sent_ok_none; [done|]. by apply effect_none. Qed.

Lemma sent_inv_ack h f pn rcv n1 n2 :
  accepted (AckRanges f) (LargestAcked f) (LowestAcked f) -> sent_inv h ->
  sent_inv (Sent.ReceivedAck h f pn rcv n1 n2).1 /\ forall why, (Sent.ReceivedAck h f pn rcv n1 n2).2 <> Panic why.
Proof.
  intros Hf [g Hg]. split; [eapply sent_inv_step; [exact Hg|by apply step_ack]|].
  intros why. destruct (processed h f pn) eqn:E.
  - destruct (effect_ReceivedAck h f pn rcv n1 n2 (so_history _ _ Hg) Hf E) as (-> & _). done.
  - pose proof (received_ack_guards h f pn rcv n1 n2 E) as H.
    destruct (Sent.ReceivedAck h f pn rcv n1 n2) as [h' r]. destruct H as (_ & _ & _ & ->). by repeat case_match.
Qed.

Lemma sent_inv_close_path h f pn :
  accepted (cp_AckRanges f) (cp_LargestAcked f) (cp_LowestAcked f) -> sent_inv h ->
  sent_inv (Sent.ReceivedClosePath h f pn).1 /\ forall why, (Sent.ReceivedClosePath h f pn).2 <> Panic why.
Proof.
  intros Hf [g Hg]. split; [eapply sent_inv_step; [exact Hg|by apply step_close_path]|].
  intros why. destruct (processedClosePath h f pn) eqn:E.
  - by destruct (effect_ReceivedClosePath h f pn (so_history _ _ Hg) Hf E) as [-> _].
  - unfold processedClosePath in E. unfold Sent.ReceivedClosePath.
    destruct (Z.ltb_spec (lastSentPacketNumber h) (cp_LargestAcked f)); [done|].
    destruct (Z.leb_spec pn (largestReceivedPacketWithAck h)); [done|]. cbv zeta.
    set (h1 := h <| largestReceivedPacketWithAck := pn |>).
    change (Sent.skippedPacketsAckedClosePath h1 f) with (Sent.skippedPacketsAckedClosePath h f).
    destruct (Sent.skippedPacketsAckedClosePath h f); [done|].
    cbn [negb] in E. rewrite andb_true_r in E. lia.
Qed.

Lemma sent_inv_alarm h now cb : sent_inv h -> sent_inv (Sent.OnAlarm h now cb).
Proof. intros [g Hg]. eapply sent_inv_step; [exact Hg|apply step_alarm]. Qed.

Lemma sent_inv_inflight h : sent_inv h -> sent_inv (Sent.SetInflightAsLost h).
Proof. intros [g Hg]. eapply sent_inv_step; [exact Hg|apply step_inflight_lost]. Qed.
End Sent.

Definition received_inv (h : receivedPacketHandler) : Prop := exists rs, handler_ok h rs.

Lemma received_inv_new version : received_inv (NewReceivedPacketHandler version).
Proof. exists ∅. apply handler_ok_new. Qed.

Lemma received_inv_limit h p : 0 <= p < largestObserved h -> received_inv h -> received_inv (Handler.SetLowerLimit h p).
Proof. intros Hp [rs H]. eexists. by apply limit_ok. Qed.

(** A packet that was accepted is not above the largest one observed. *)
Lemma received_inv_packet h now p b :
  0 <= p < 2 ^ 48 -> received_inv h ->
  match Handler.ReceivedPacket h now p b with
  | (h', Ret _) => received_inv h' /\ 1 <= p <= largestObserved h'
  | (_, Err _) => True
  | (_, Panic _) => False
  end.
Proof.
  intros Hp [rs Hok]. pose proof (receive_ok h rs now p b) as Hrec.
  unfold Handler.ReceivedPacket in *. destruct (Z.eqb_spec p 0); [done|]. cbv zeta in *.
  set (h1 := mkHandler _ _ _ _ _ _ _ _ _ _ _ _) in *.
  assert (Hlarge : p <= largestObserved h1).
  { subst h1. cbn. destruct (Z.ltb_spec (largestObserved h) p); lia. }
  destruct (p <=? lowerLimit h1).
  - split; [|lia]. eexists. apply Hrec; [done|lia|done].
  - destruct (History.ReceivedPacket (ReceivedPackets.packetHistory h1) p) as [hist|e|why] eqn:E; [|done|].
    + split; [eexists; apply Hrec; [done|lia|done]|]. split; [lia|].
      match goal with |- _ <= largestObserved (Handler.maybeQueueAck ?h ?n ?q ?c) =>
        destruct (maybeQueueAck_frame h n q c) as (_ & -> & _) end. done.
    + unfold History.ReceivedPacket in E. by repeat case_match.
Qed.

(** The error of a packet that is not accepted closes the session. *)
Lemma received_error h now p b e :
  (Handler.ReceivedPacket h now p b).2 = Err e -> Sess.isDecryptionFailure e = false.
Proof.
  unfold Handler.ReceivedPacket. destruct (p =? 0); [by intros [= <-]|]. cbv zeta.
  set (h1 := mkHandler _ _ _ _ _ _ _ _ _ _ _ _). destruct (p <=? lowerLimit h1); [done|].
  destruct (History.ReceivedPacket (ReceivedPackets.packetHistory h1) p) eqn:E; [done| |done]. cbn [snd]. intros [= <-].
  unfold History.ReceivedPacket in E. repeat case_match; by simplify_eq.
Qed.

(** *** Streams and flow control *)

(** Flow control has a controller for each open stream and for no other. *)
Definition same_dom (st : mapState) : Prop := dom (streamFlowController st.2) = dom (streams st.1).

Lemma onBoth_dom f id g : dom (streamFlowController (Manager.onBoth f id g).1) = dom (streamFlowController f).
Proof. unfold Manager.onBoth. repeat case_match; cbn; try done; apply dom_insert_lookup_L; eauto. Qed.

Lemma same_dom_put h id st m :
  same_dom st -> streams m = streams st.1 ->
  same_dom (StreamsMap.putStream (newStream id) m, StreamsMap.newStreamFor h st.2 id).
Proof.
  unfold same_dom, StreamsMap.putStream, StreamsMap.newStreamFor, Manager.NewStream. cbn [str_id newStream fst snd].
  intros Hd E. rewrite <- E in Hd. assert (Hi : is_Some (streamFlowController st.2 !! id) <-> is_Some (streams m !! id)).
  { rewrite <- !elem_of_dom, Hd. done. }
  destruct (streamFlowController st.2 !! id), (streams m !! id); cbn; try done.
  - destruct Hi as [Hi _]. by destruct Hi.
  - destruct Hi as [_ Hi]. by destruct Hi.
  - by rewrite !dom_insert_L, Hd.
Qed.

Lemma same_dom_openRemote h id st : same_dom st -> same_dom (StreamsMap.openRemoteStream h id st).1.
Proof.
  destruct st as [m f]. intros Hd. unfold StreamsMap.openRemoteStream. do 2 (case_match; [done|]). cbn [fst].
  apply (same_dom_put h id (m, f)); [done|]. by repeat case_match.
Qed.

Lemma same_dom_openUpTo h id : forall fuel sid st,
  same_dom st -> same_dom (StreamsMap.openUpTo h fuel sid id st).1.
Proof.
  induction fuel as [|fuel IH]; intros sid st Hd; [done|]. cbn [StreamsMap.openUpTo]. case_match; [|done].
  pose proof (same_dom_openRemote h sid st Hd) as H1.
  destruct (StreamsMap.openRemoteStream h sid st) as [st1 [[]|e|]]; [by apply IH|done..].
Qed.

Lemma same_dom_get h id st : same_dom st -> same_dom (StreamsMap.GetOrOpenStream h id st).1.
Proof.
  intros Hd. unfold StreamsMap.GetOrOpenStream. repeat (case_match; try done).
  all: match goal with H : StreamsMap.openUpTo ?h ?fu ?sid ?i ?s = _ |- _ =>
         pose proof (same_dom_openUpTo h i fu sid s Hd) as Hrr; rewrite H in Hrr end; exact Hrr.
Qed.

Lemma dom_checkReceived f id off fc inc n c :
  streamFlowController f !! id = Some c ->
  dom (streamFlowController (Manager.checkReceived f id off fc inc n).1) = dom (streamFlowController f).
Proof. intros Hid. unfold Manager.checkReceived. repeat case_match; cbn; apply dom_insert_lookup_L; eauto. Qed.

Lemma dom_UpdateHighestReceived f id off :
  dom (streamFlowController (Manager.UpdateHighestReceived f id off).1) = dom (streamFlowController f).
Proof.
  unfold Manager.UpdateHighestReceived. destruct (streamFlowController f !! id) eqn:E; [|done].
  repeat case_match; by eapply dom_checkReceived.
Qed.

Lemma dom_ResetStream f id off :
  dom (streamFlowController (Manager.ResetStream f id off).1) = dom (streamFlowController f).
Proof.
  unfold Manager.ResetStream. destruct (streamFlowController f !! id) eqn:E; [|done].
  repeat case_match; try done; by eapply dom_checkReceived.
Qed.

Lemma dom_UpdateWindow f id off :
  dom (streamFlowController (Manager.UpdateWindow f id off).1) = dom (streamFlowController f).
Proof.
  unfold Manager.UpdateWindow. repeat case_match; cbn; try done. apply dom_insert_lookup_L; eauto.
Qed.

Lemma checkReceived_no_panic f id off fc inc n why : (Manager.checkReceived f id off fc inc n).2 <> Panic why.
Proof. unfold Manager.checkReceived. by repeat case_match. Qed.

Lemma flow_control_no_panic f id off why :
  (Manager.UpdateHighestReceived f id off).2 <> Panic why /\ (Manager.ResetStream f id off).2 <> Panic why /\
  (Manager.UpdateWindow f id off).2 <> Panic why.
Proof.
  unfold Manager.UpdateHighestReceived, Manager.ResetStream, Manager.UpdateWindow.
  split; [|split]; repeat case_match; try done; apply checkReceived_no_panic.
Qed.

Lemma findGap_no_panic start end_ gs why : Sorter.findGap start end_ gs <> Panic why.
Proof. induction gs as [|g gs IH]; cbn; repeat case_match; congruence. Qed.

Lemma Push_no_panic q f why : (Sorter.Push q f).2 <> Panic why.
Proof.
  assert (Hd : forall g, (Sorter.pushData q g).2 <> Panic why).
  { intros g. unfold Sorter.pushData. pose proof (findGap_no_panic (Offset g) (Offset g +64 DataLen g) (gaps q)) as H.
    destruct (Sorter.findGap _ _ _) as [[[pre gap] post]|e|]; [|done|by edestruct H].
    by repeat case_match. }
  unfold Sorter.Push. repeat case_match; try done; apply Hd.
Qed.

(** What a call on a stream leaves alone. *)
Definition stream_call_ok {A} (r : stream * flowControlManager * outcome A) (str : stream) (f : flowControlManager)
    : Prop :=
  str_id r.1.1 = str_id str /\ dom (streamFlowController r.1.2) = dom (streamFlowController f) /\
  forall why, r.2 <> Panic why.

Lemma AddStreamFrame_call frame str f : stream_call_ok (Stream.AddStreamFrame frame str f) str f.
Proof.
  unfold Stream.AddStreamFrame, stream_call_ok.
  pose proof (dom_UpdateHighestReceived f (str_id str) (Offset frame +64 DataLen frame)) as Hd.
  pose proof (fun why => proj1 (flow_control_no_panic f (str_id str) (Offset frame +64 DataLen frame) why)) as Hp.
  destruct (Manager.UpdateHighestReceived f (str_id str) _) as [f1 [[]|e|]]; cbn in Hd, Hp; [| |by edestruct Hp].
  - pose proof (Push_no_panic (frameQueue str) frame) as Hq. destruct (Sorter.Push (frameQueue str) frame) as [q r].
    cbn in Hq. repeat case_match; cbn; try done.
  - done.
Qed.

Lemma RegisterRemoteError_id e str : str_id (Stream.RegisterRemoteError e str) = str_id str.
Proof.
  unfold Stream.RegisterRemoteError, Stream.sendReset, Stream.onReset, Stream.signalWrite. by repeat case_match.
Qed.

(** ** The invariant *)

(** The text of an address with a port. *)
Definition has_port (a : list Z) : Prop := text.colon ∈ a.

Section Invariant.
Context {C : Type} `{!SendAlgorithm C}.
Notation session := (session C).
Notation path := (path C).
Implicit Types s : session.
Implicit Types p : path.

Record path_ok (id : Z) p : Prop := {
  po_id : pa_pathID p = id;
  po_port : has_port (conn_local (pa_conn p));
  po_sent : sent_inv (pa_sent p);
  po_received : received_inv (pa_received p)
}.

(** [N] bounds the streams the session may open itself. *)
Record session_ok (N : Z) s : Prop := {
  sk_initial : is_Some (ss_paths s !! InitialPathID);
  sk_paths : map_Forall path_ok (ss_paths s);
  sk_open : Forall (fun id => is_Some (ss_paths s !! id)) (ss_openPaths s);
  sk_closed : forall id, id ∈ ss_closedPaths s -> is_Some (ss_paths s !! id);
  sk_manager : is_Some (ss_pathManager s);
  sk_map : exists hist, map_inv N (ss_perspective s) ((Sess.sessionMap s, Sess.flowControl s), hist);
  sk_flow : same_dom (Sess.sessionMap s, Sess.flowControl s);
  sk_tree : ordered (ss_tree s);
  sk_assign : assignment_ok (ss_streamToPath s);
  (** a stream that is on a path is open, has a volume there, and is listed by the path *)
  sk_assigned : forall sid pid, pid ∈ pathsOf (ss_streamToPath s) sid ->
    is_Some (streams (Sess.sessionMap s) !! sid) /\ is_Some (si_pathVolume (Sess.infoOf s sid) !! pid) /\
    exists p, ss_paths s !! pid = Some p /\ sid ∈ pa_streamIDs p;
  (** a path that was not closed lists the streams that are on it *)
  sk_streamIDs : forall pid p, ss_paths s !! pid = Some p -> pid ∉ ss_closedPaths s ->
    NoDup (pa_streamIDs p) /\ forall sid, sid ∈ pa_streamIDs p -> pid ∈ pathsOf (ss_streamToPath s) sid
}.

(** What handling a frame does to the paths: there may be more of them, none has seen another packet. *)
Record grows s s' : Prop := {
  gr_perspective : ss_perspective s' = ss_perspective s;
  gr_create : ss_createPaths s' = ss_createPaths s;
  gr_paths : forall id p, ss_paths s !! id = Some p ->
    exists p', ss_paths s' !! id = Some p' /\ largestObserved (pa_received p') = largestObserved (pa_received p)
}.

#[export] Instance grows_preorder : PreOrder grows.
Proof.
  split.
  - intros s. split; [done..|]. eauto.
  - intros s1 s2 s3 [A1 B1 H1] [A2 B2 H2]. split; [congruence..|]. intros id p Hp.
    destruct (H1 id p Hp) as (p2 & Hp2 & E2). destruct (H2 id p2 Hp2) as (p3 & Hp3 & E3).
    exists p3. split; [done|congruence].
Qed.

Context (N : Z) (s0 : session).

(** The invariant while the frames of a packet are handled; [s0] is the state when it arrived. *)
Definition during s : Prop := session_ok N s /\ grows s0 s.

(** The parts of the state the invariant depends on. *)
Definition core s :=
  (ss_perspective s, ss_createPaths s, ss_paths s, ss_openPaths s, ss_closedPaths s,
   match ss_pathManager s with Some _ => true | None => false end, Sess.sessionMap s, Sess.flowControl s, ss_streamToPath s,
   ss_info s, ss_tree s).

Lemma during_core s s' : core s' = core s -> during s -> during s'.
Proof.
  intros E [[] [G1 G2 G3]]. unfold core in E. injection E as E1 E2 E3 E4 E5 E6 E7 E8 E9 E10 E11.
  assert (Hm : is_Some (ss_pathManager s')).
  { destruct sk_manager0 as [pm Hm]. rewrite Hm in E6. destruct (ss_pathManager s'); [eauto|done]. }
  unfold Sess.infoOf in *. split; split; unfold Sess.infoOf; rewrite ?E1, ?E2, ?E3, ?E4, ?E5, ?E7, ?E8, ?E9, ?E10, ?E11; done.
Qed.

(** A path is changed, but not its streams. *)
Lemma session_ok_path s id p p' :
  session_ok N s -> ss_paths s !! id = Some p -> path_ok id p' -> pa_streamIDs p' = pa_streamIDs p ->
  session_ok N (s <| ss_paths := <[id := p']> (ss_paths s) |>).
Proof.
  intros [] Hp Hp' Hids.
  assert (Hsome : forall x, is_Some (ss_paths s !! x) -> is_Some (<[id := p']> (ss_paths s) !! x)).
  { intros x Hx. destruct (decide (id = x)) as [->|]; [rewrite lookup_insert_eq|rewrite lookup_insert_ne by done]; eauto. }
  split; cbn; auto.
  - by apply map_Forall_insert_2.
  - eapply Forall_impl; [done|auto].
  - intros sid pid Hin. destruct (sk_assigned0 sid pid Hin) as (H1 & H2 & q & Hq & H3). do 2 (split; [done|]).
    destruct (decide (id = pid)) as [->|].
    + exists p'. rewrite lookup_insert_eq. split; [done|]. rewrite Hids. congruence.
    + exists q. by rewrite lookup_insert_ne.
  - intros pid q Hq Hc. destruct (decide (id = pid)) as [->|].
    + rewrite lookup_insert_eq in Hq. simplify_eq. rewrite Hids. by apply sk_streamIDs0.
    + rewrite lookup_insert_ne in Hq by done. by apply sk_streamIDs0.
Qed.

Lemma during_path s id p p' :
  during s -> ss_paths s !! id = Some p -> path_ok id p' -> pa_streamIDs p' = pa_streamIDs p ->
  largestObserved (pa_received p') = largestObserved (pa_received p) ->
  during (s <| ss_paths := <[id := p']> (ss_paths s) |>).
Proof.
  intros [Hok [G1 G2 G3]] Hp Hp' Hids Hl. split; [by eapply session_ok_path|]. split; [done..|].
  intros x q Hx. destruct (G3 x q Hx) as (q' & Hq' & E). cbn. destruct (decide (id = x)) as [->|].
  - exists p'. rewrite lookup_insert_eq. split; [done|]. congruence.
  - exists q'. by rewrite lookup_insert_ne.
Qed.

(** The streams change, none is removed. *)
Lemma during_streams s st hist :
  during s -> map_inv N (ss_perspective s) (st, hist) -> same_dom st ->
  (forall id, is_Some (streams (Sess.sessionMap s) !! id) -> is_Some (streams st.1 !! id)) ->
  during (Sess.setMapState st s).
Proof.
  intros [[] [G1 G2 G3]] Hinv Hd Hsome. destruct st as [m f].
  split; split; cbn; auto; [by exists hist|].
  intros sid pid Hin. destruct (sk_assigned0 sid pid Hin) as (H1 & H2 & H3). auto.
Qed.

(** A path is added. *)
Lemma during_new_path s id p :
  during s -> ss_paths s !! id = None -> path_ok id p -> pa_streamIDs p = [] ->
  during (s <| ss_paths := <[id := p]> (ss_paths s) |> <| ss_openPaths := ss_openPaths s ++ [id] |>).
Proof.
  intros [[] [G1 G2 G3]] Hid Hp Hids.
  assert (Hsome : forall x, is_Some (ss_paths s !! x) -> is_Some (<[id := p]> (ss_paths s) !! x)).
  { intros x Hx. destruct (decide (id = x)) as [->|]; [rewrite lookup_insert_eq|rewrite lookup_insert_ne by done]; eauto. }
  split; split; cbn; auto.
  - by apply map_Forall_insert_2.
  - apply Forall_app_2; [eapply Forall_impl; [done|auto]|]. apply Forall_singleton. rewrite lookup_insert_eq. eauto.
  - intros sid pid Hin. destruct (sk_assigned0 sid pid Hin) as (H1 & H2 & q & Hq & H3). do 2 (split; [done|]).
    exists q. by rewrite lookup_insert_ne by congruence.
  - intros pid q Hq Hc. destruct (decide (id = pid)) as [->|].
    + rewrite lookup_insert_eq in Hq. simplify_eq. rewrite Hids. split; [constructor|set_solver].
    + rewrite lookup_insert_ne in Hq by done. by apply sk_streamIDs0.
  - intros x q Hx. destruct (G3 x q Hx) as (q' & Hq' & E). exists q'. by rewrite lookup_insert_ne by congruence.
Qed.

(** ** The handlers of frames *)
Context (env : environment C) (now : Z).

(** A call that keeps the invariant, also when it fails. *)
Notation keeps m := (call_ok during m (fun _ => during) (fun _ => during)).

Lemma during_known s id : during s -> is_Some (ss_paths s0 !! id) -> exists p, ss_paths s !! id = Some p /\ path_ok id p.
Proof.
  intros [Hok [_ _ Hg]] [p0 Hp0]. destruct (Hg id p0 Hp0) as (p & Hp & _). exists p. split; [done|].
  by apply (sk_paths _ _ Hok).
Qed.

Lemma during_initial s : during s -> exists p, ss_paths s !! InitialPathID = Some p /\ path_ok InitialPathID p.
Proof. intros [Hok _]. destruct (sk_initial _ _ Hok) as [p Hp]. exists p. split; [done|]. by apply (sk_paths _ _ Hok). Qed.

Lemma path_ok_sent id p h : path_ok id p -> sent_inv h -> path_ok id (p <| pa_sent := h |>).
Proof. by intros [] ?. Qed.

Lemma path_ok_received id p h : path_ok id p -> received_inv h -> path_ok id (p <| pa_received := h |>).
Proof. by intros [] ?. Qed.

Lemma withPath_eq {A} s id p (k : path -> Call session A) :
  ss_paths s !! id = Some p -> Sess.withPath id k s = k p s.
Proof. intros Hp. unfold Sess.withPath, mbind, call_bind, get. by rewrite Hp. Qed.

Lemma updateSessionRTT_keeps rtt : keeps (Sess.updateSessionRTT rtt).
Proof.
  intros s Hs. destruct (during_initial s Hs) as (p & Hp & Hok). unfold Sess.updateSessionRTT.
  rewrite (withPath_eq _ _ p) by done. destruct (_ <? _); [|done].
  eapply during_path; [done..| |done|done]. apply path_ok_sent; [done|]. apply sent_inv_congestion, Hok.
Qed.

Lemma ack_keeps f :
  accepted (AckRanges f) (LargestAcked f) (LowestAcked f) -> is_Some (ss_paths s0 !! PathID f) ->
  keeps (Sess.handleAckFrame now f).
Proof.
  intros Hf Hid s Hs. destruct (during_known s _ Hs Hid) as (p & Hp & Hok). unfold Sess.handleAckFrame.
  rewrite (withPath_eq _ _ p) by done.
  destruct (sent_inv_ack (pa_sent p) f (pa_lastRcvdPacketNumber p) (pa_lastNetworkActivityTime p) now now Hf
    (po_sent _ _ Hok)) as [Hinv Hpanic].
  destruct (Sent.ReceivedAck _ _ _ _ _ _) as [h r]. cbn in Hinv, Hpanic.
  assert (Hd : during (s <| ss_paths := <[PathID f := p <| pa_sent := h |>]> (ss_paths s) |>)).
  { eapply during_path; [done..| |done|done]. by apply path_ok_sent. }
  unfold mbind, call_bind, Sess.setPath, update, lift. destruct r as [[]|e|why]; [|done|by edestruct Hpanic].
  by apply (updateSessionRTT_keeps (rtt_SmoothedRTT (congestion h))).
Qed.

Lemma stop_waiting_keeps f id pn :
  is_Some (ss_paths s0 !! id) ->
  (forall p, ss_paths s0 !! id = Some p -> pn <= largestObserved (pa_received p)) ->
  1 <= sw_LeastUnacked f <= pn -> pn < 2 ^ 48 ->
  keeps (Sess.changePath id (fun p => p <| pa_received := Handler.SetLowerLimit (pa_received p) (sw_LeastUnacked f -64 1) |>)).
Proof.
  intros [p0 Hp0] Hl Hf Hpn s Hs. destruct (proj2 Hs) as [_ _ Hg]. destruct (Hg id p0 Hp0) as (p & Hp & E).
  pose proof (sk_paths _ _ (proj1 Hs) id p Hp) as Hok. specialize (Hl p0 Hp0).
  unfold Sess.changePath. rewrite (withPath_eq _ _ p) by done. cbn.
  eapply during_path; [done..| |done|done]. apply path_ok_received; [done|].
  rewrite (uN_small 64) by (unfold in_range; lia). apply received_inv_limit; [lia|apply Hok].
Qed.

(** *** Frames of streams *)

(** A new stream has no paths. *)
Lemma add_stream_keeps weight id s :
  rootID < id -> pathsOf (ss_streamToPath s) id = [] -> during s ->
  exists s', Sess.addStream weight id s = (s', Ret tt) /\ during s' /\ Sess.sessionMap s' = Sess.sessionMap s /\
    ss_streamToPath s' = ss_streamToPath s.
Proof.
  intros Hid Hnone [Hok Hg]. unfold Sess.addStream, Sess.onTree, mbind, call_bind, update. cbn [ss_tree setField set_ss_info].
  destruct (addNode_ordered id (ss_tree s) Hid (sk_tree _ _ Hok)) as (t & E & Ht). cbn. rewrite E. eexists. split; [done|].
  split; [|done]. destruct Hok. split; [|by destruct Hg]. split; cbn; auto.
  intros sid pid Hin. destruct (sk_assigned0 sid pid Hin) as (H1 & H2 & H3). split; [done|]. split; [|done].
  unfold Sess.infoOf in *. cbn. rewrite lookup_insert_ne; [done|]. intros ->. rewrite Hnone in Hin. set_solver.
Qed.

Lemma add_streams_keeps weight ids : forall s,
  Forall (fun id => rootID < id /\ pathsOf (ss_streamToPath s) id = []) ids -> during s ->
  exists s', forEach ids (Sess.addStream weight) s = (s', Ret tt) /\ during s' /\ Sess.sessionMap s' = Sess.sessionMap s /\
    ss_streamToPath s' = ss_streamToPath s.
Proof.
  induction ids as [|id ids IH]; intros s Hids Hs; cbn [forEach]; [by exists s|].
  apply Forall_cons in Hids as [[Hid Hnone] Hids].
  destruct (add_stream_keeps weight id s Hid Hnone Hs) as (s1 & E & Hs1 & Em & Ea).
  rewrite (call_bind_ret _ _ _ _ _ E). destruct (IH s1) as (s2 & E2 & Hs2 & Em2 & Ea2); [by rewrite Ea|done|].
  exists s2. split; [done|]. split; [done|]. split; congruence.
Qed.

(** The streams that were opened. *)
Lemma new_streams_free s st hist :
  during s -> map_inv N (ss_perspective s) (st, hist) ->
  openStreams (Sess.sessionMap s) `prefix_of` openStreams st.1 ->
  Forall (fun id => rootID < id /\ pathsOf (ss_streamToPath s) id = [])
    (drop (length (openStreams (Sess.sessionMap s))) (openStreams st.1)).
Proof.
  intros [Hok _] (Hmap & _) [new Enew]. cbn [fst snd] in Hmap. rewrite Enew, drop_app_length.
  apply Forall_forall. intros id Hin. assert (Hopen : id ∈ openStreams st.1) by (rewrite Enew; set_solver). split.
  - pose proof (mo_range _ _ Hmap id (mo_sub _ _ Hmap id Hopen)) as [? _]. unfold rootID. lia.
  - destruct (pathsOf (ss_streamToPath s) id) as [|pid l] eqn:E; [done|]. exfalso.
    destruct (sk_assigned _ _ Hok id pid) as (Hs & _); [rewrite E; set_solver|].
    destruct (sk_map _ _ Hok) as (h0 & Hmap0 & _). apply (mo_streams _ _ Hmap0) in Hs.
    pose proof (mo_nodup _ _ Hmap) as Hnd. rewrite Enew in Hnd. apply NoDup_app in Hnd as (_ & Hnd & _). set_solver.
Qed.

(** A call that opens streams. *)
Lemma opening_keeps {A} weight (f : mapState -> mapState * outcome A) s hist :
  during s ->
  (let st := (Sess.sessionMap s, Sess.flowControl s) in
   map_inv N (ss_perspective s) ((f st).1, hist) /\ same_dom (f st).1 /\
   openStreams (Sess.sessionMap s) `prefix_of` openStreams (f st).1.1 /\
   (forall id, is_Some (streams (Sess.sessionMap s) !! id) -> is_Some (streams (f st).1.1 !! id))) ->
  exists s', Sess.opening weight f s = (s', (f (Sess.sessionMap s, Sess.flowControl s)).2) /\ during s' /\
    Sess.sessionMap s' = (f (Sess.sessionMap s, Sess.flowControl s)).1.1.
Proof.
  intros Hs (Hinv & Hdom & Hpre & Hsome). unfold Sess.opening.
  destruct (f (Sess.sessionMap s, Sess.flowControl s)) as [st r]. cbn [fst snd] in *.
  pose proof (during_streams s st hist Hs Hinv Hdom Hsome) as Hd.
  destruct (add_streams_keeps weight (drop (length (openStreams (Sess.sessionMap s))) (openStreams st.1))
    (Sess.setMapState st s)) as (s' & E & Hs' & Em & _); [by apply (new_streams_free s st hist)|done|].
  rewrite (call_bind_ret _ _ _ _ _ E). exists s'. split; [done|]. split; [done|]. rewrite Em. done.
Qed.

Lemma get_weighted_keeps weight id :
  0 <= id < 2 ^ 32 - 2 ->
  call_ok during (Sess.getOrOpenWith weight id)
    (fun r s => during s /\ forall x, r = Some x -> is_Some (streams (Sess.sessionMap s) !! x))
    (fun _ => during).
Proof.
  intros Hid s Hs. unfold Sess.getOrOpenWith. rewrite (call_bind_ret get _ s s s) by done.
  destruct (sk_map _ _ (proj1 Hs)) as [hist Hmap]. pose proof (sk_flow _ _ (proj1 Hs)) as Hflow.
  pose proof (same_dom_get (Sess.parameters s) id _ Hflow) as Hdom.
  pose proof (GetOrOpenStream_extends (Sess.parameters s) id (Sess.sessionMap s, Sess.flowControl s)) as Hext.
  pose proof (GetOrOpenStream_ok (Sess.parameters s) (Sess.sessionMap s) (Sess.flowControl s) hist id) as Hget.
  destruct (StreamsMap.GetOrOpenStream (Sess.parameters s) id (Sess.sessionMap s, Sess.flowControl s)) as [st r] eqn:E.
  pose proof (step_inv N (ss_perspective s) _ _ (step_get N _ _ _ _ hist st r Hid E) Hmap) as Hinv.
  specialize (Hget (proj1 Hmap) Hid). cbn [fst snd] in Hdom, Hext.
  destruct (opening_keeps weight (StreamsMap.GetOrOpenStream (Sess.parameters s) id) s
    (hist ++ drop (length (openStreams (Sess.sessionMap s))) (openStreams st.1)) Hs) as (s' & -> & Hd & Em).
  { cbv zeta. rewrite E. cbn [fst]. split; [done|]. split; [done|]. split.
    - destruct r; [apply Hget|apply Hget|by destruct Hget].
    - intros x Hx. destruct (Hext x) as [->|[Hn _]]; [done|]. cbn in Hn. rewrite Hn in Hx. by destruct Hx. }
  rewrite E in Em |- *. cbn [fst snd] in *. destruct r as [r| |]; [|done|by destruct Hget].
  split; [done|]. intros x ->. destruct Hget as (Hg & _ & [[[= ->] Hin]|[[=] _]]).
  apply (mo_streams _ _ (gr_ok _ _ _ Hg)) in Hin. by rewrite Em.
Qed.

(** The tree is printed: it has no cycles. *)
Lemma print_tree_keeps s :
  during s -> exists s', Sess.printTree s = (s', Ret tt) /\ during s' /\ Sess.sessionMap s' = Sess.sessionMap s.
Proof.
  intros [Hok Hg]. destruct (print_ordered (ss_tree s) (sk_tree _ _ Hok)) as (t & res & E & Ht & _).
  unfold Sess.printTree, Sess.onTree, mbind, call_bind. rewrite E. eexists. split; [done|]. split; [|done].
  split; [|by destruct Hg]. by destruct Hok; split.
Qed.

Lemma get_stream_keeps id :
  0 <= id < 2 ^ 32 - 2 ->
  call_ok during (Sess.GetOrOpenStream id)
    (fun r s => during s /\ forall x, r = Some x -> is_Some (streams (Sess.sessionMap s) !! x))
    (fun _ => during).
Proof.
  intros Hid. unfold Sess.GetOrOpenStream, Sess.getOrOpen. apply call_ok_with. intros s1 Hs1.
  eapply call_ok_weaken with (P' := during); [|by intros ? ->|intros ? ? H; exact H..].
  eapply call_ok_bind; [by apply get_weighted_keeps|]. intros r. eapply call_ok_bind with
    (Q := fun _ s => during s /\ forall x, r = Some x -> is_Some (streams (Sess.sessionMap s) !! x)).
  - destruct (_ && _); cbn [when]; [|by apply call_ok_ret]. intros s [Hs Hr].
    destruct (print_tree_keeps s Hs) as (s' & -> & Hs' & Em). rewrite Em. done.
  - intros []. by apply call_ok_ret.
Qed.

Lemma core_runCallbacks before after s : core (Sess.runCallbacks before after s) = core s.
Proof.
  unfold Sess.runCallbacks. generalize (drop (length (callbacks before)) (callbacks after)). intros cbs.
  revert s. induction cbs as [|c cbs IH]; intros s; [done|]. cbn [foldl]. rewrite IH. by destruct c.
Qed.

Lemma on_stream_keeps id (f : stream -> flowControlManager -> stream * flowControlManager * outcome unit) :
  (forall str fc, stream_call_ok (f str fc) str fc) ->
  call_ok (fun s => during s /\ is_Some (streams (Sess.sessionMap s) !! id)) (Sess.onStream id f)
    (fun _ => during) (fun _ => during).
Proof.
  intros Hf s [Hs [str Hstr]]. unfold Sess.onStream. rewrite Hstr.
  destruct (Hf str (Sess.flowControl s)) as (Hid & Hdom & Hpanic).
  destruct (f str (Sess.flowControl s)) as [[str' fc] r]. cbn in Hid, Hdom, Hpanic.
  assert (Hd : during (Sess.runCallbacks str str' (Sess.setMapState (Sess.sessionMap (Sess.setStream id str' s), fc) s))).
  { eapply during_core; [apply core_runCallbacks|]. destruct (sk_map _ _ (proj1 Hs)) as [hist Hmap].
    pose proof (sk_flow _ _ (proj1 Hs)) as Hflow. unfold same_dom in Hflow. cbn [fst snd] in Hflow.
    eapply (during_streams _ _ hist Hs).
    - eapply step_inv; [apply step_flow_control|]. eapply step_inv; [|exact Hmap]. by apply step_stream with (s := str).
    - unfold same_dom. cbn. rewrite Hdom, Hflow. symmetry. apply dom_insert_lookup_L. eauto.
    - intros x Hx. cbn. destruct (decide (id = x)) as [->|];
        [rewrite lookup_insert_eq; eauto|by rewrite lookup_insert_ne]. }
  destruct r; [done..|by edestruct Hpanic].
Qed.

Lemma on_flow_control_keeps {A} (f : flowControlManager -> flowControlManager * outcome A) :
  (forall fc, dom (streamFlowController (f fc).1) = dom (streamFlowController fc) /\ forall why, (f fc).2 <> Panic why) ->
  call_ok during (Sess.onFlowControl f) (fun _ => during) (fun _ => during).
Proof.
  intros Hf s Hs. unfold Sess.onFlowControl. destruct (Hf (Sess.flowControl s)) as [Hdom Hpanic].
  destruct (f (Sess.flowControl s)) as [fc r]. cbn in Hdom, Hpanic.
  destruct (sk_map _ _ (proj1 Hs)) as [hist Hmap]. pose proof (sk_flow _ _ (proj1 Hs)) as Hflow.
  assert (Hd : during (Sess.setMapState (Sess.sessionMap s, fc) s)).
  { eapply (during_streams _ _ hist Hs); [|by unfold same_dom in *; cbn in *; rewrite Hdom|done].
    eapply step_inv; [apply step_flow_control|exact Hmap]. }
  destruct r; [done..|by edestruct Hpanic].
Qed.

Lemma stream_frame_keeps f : 0 <= StreamID f < 2 ^ 32 - 2 -> keeps (Sess.handleStreamFrame f).
Proof.
  intros Hid. unfold Sess.handleStreamFrame. eapply call_ok_bind; [by apply get_stream_keeps|].
  intros [x|]; [|apply call_ok_ret; naive_solver].
  eapply call_ok_weaken; [apply on_stream_keeps, AddStreamFrame_call|naive_solver|done..].
Qed.

Lemma window_update_keeps f : 0 <= wu_StreamID f < 2 ^ 32 - 2 -> keeps (Sess.handleWindowUpdateFrame f).
Proof.
  intros Hid. unfold Sess.handleWindowUpdateFrame.
  eapply call_ok_bind with (Q := fun _ => during).
  - destruct (_ =? 0); [by apply call_ok_ret|]. eapply call_ok_bind; [by apply get_stream_keeps|].
    intros [x|]; [apply call_ok_ret|apply call_ok_raise]; naive_solver.
  - intros _. eapply call_ok_bind; [apply on_flow_control_keeps|by intros ?; apply call_ok_ret].
    intros fc. split; [apply dom_UpdateWindow|apply flow_control_no_panic].
Qed.

Lemma rst_stream_keeps f : 0 <= rst_StreamID f < 2 ^ 32 - 2 -> keeps (Sess.handleRstStreamFrame f).
Proof.
  intros Hid. unfold Sess.handleRstStreamFrame.
  eapply call_ok_bind; [by apply get_stream_keeps|].
  intros [x|]; [|apply call_ok_raise; naive_solver]. eapply call_ok_bind.
  - eapply call_ok_weaken; [apply on_stream_keeps|naive_solver|done..].
    intros str fc. split; [apply RegisterRemoteError_id|done].
  - intros []. apply on_flow_control_keeps. intros fc. split; [apply dom_ResetStream|apply flow_control_no_panic].
Qed.

(** *** PATHS frames *)
Lemma splitColon_nonempty cur a : exists x l, Framer.splitColon cur a = x :: l.
Proof. revert cur. induction a as [|c a IH]; intros cur; cbn; [eauto|]. case_match; eauto. Qed.

Lemma parseIPAndPort_port a : has_port a -> exists r, Framer.parseIPAndPort a = Ret r.
Proof.
  intros Ha. assert (H : exists x y l, Framer.splitColon [] a = x :: y :: l).
  { revert Ha. generalize (@nil Z). induction a as [|c a IH]; intros cur Ha; [by apply elem_of_nil in Ha|]. cbn.
    destruct (Z.eqb_spec c text.colon).
    - destruct (splitColon_nonempty [] a) as (x & l & ->). eauto.
    - apply IH. apply elem_of_cons in Ha as [?|]; [congruence|done]. }
  unfold Framer.parseIPAndPort. destruct H as (x & y & l & ->). eauto.
Qed.

Lemma mapM_Ret {A B} (f : A -> outcome B) (l : list A) :
  Forall (fun x => exists y, f x = Ret y) l -> exists ys, mapM f l = Ret ys.
Proof.
  induction 1 as [|x l [y Hy] _ [ys IH]]; [by exists []|]. exists (y :: ys). cbn [mapM]. rewrite Hy.
  cbn [mbind outcome_bind]. by rewrite IH.
Qed.

Lemma AddPathsFrame_ok pers infos f :
  Forall (fun i => has_port (pi_localAddr i)) infos ->
  exists pf, Framer.AddPathsFrameForTransmission pers infos f = Ret (f <| fr_pathsFrame := Some pf |>).
Proof.
  intros Hall. unfold Framer.AddPathsFrameForTransmission.
  assert (Haddr : exists addrs, (if isClient pers then mapM (fun i => Framer.parseIPAndPort (pi_localAddr i)) infos
    else Ret []) = Ret addrs).
  { destruct (isClient pers); [|eauto]. apply mapM_Ret. eapply Forall_impl; [exact Hall|].
    intros i. apply parseIPAndPort_port. }
  destruct Haddr as [addrs ->]. eexists. reflexivity.
Qed.

Lemma schedule_paths_ret s :
  during s -> exists s', Sess.schedulePathsFrame env now s = (s', Ret tt) /\ core s' = core s.
Proof.
  intros Hs. unfold Sess.schedulePathsFrame, mbind, call_bind, update, get, lift.
  set (s1 := s <| ss_lastPathsFrameSent := now |>).
  destruct (AddPathsFrame_ok (ss_perspective s1) (Sess.pathInfos env s1) (Sess.framer s1)) as [pf ->]; [|by eexists].
  apply Forall_forall. intros i Hi. unfold Sess.pathInfos in Hi. apply list_elem_of_omap in Hi as (id & _ & Hi).
  apply fmap_Some in Hi as (p & Hp & ->). apply (po_port id). by apply (sk_paths _ _ (proj1 Hs)).
Qed.

Lemma schedule_paths_keeps : keeps (Sess.schedulePathsFrame env now).
Proof. intros s Hs. destruct (schedule_paths_ret s Hs) as (s' & -> & E). by apply (during_core s). Qed.

Lemma learn_paths_keeps n ids rtts :
  (n <= length ids)%nat -> (n <= length rtts)%nat ->
  (forall i id rtt, ids !! i = Some id -> rtts !! i = Some rtt -> thirtyMinutes <= rtt -> is_Some (ss_paths s0 !! id)) ->
  keeps (Sess.learnPaths n ids rtts).
Proof.
  revert ids rtts. induction n as [|n IH]; intros [|id ids] [|rtt rtts] H1 H2 Hk; cbn in H1, H2; try lia;
    cbn [Sess.learnPaths]; try by apply call_ok_ret.
  eapply call_ok_bind with (Q := fun _ => during).
  { apply call_ok_update. intros s Hs. by apply (during_core s). }
  intros _. eapply call_ok_bind; [apply call_ok_when|intros []; apply IH; [lia..|intros i; apply (Hk (S i))]].
  intros Hrtt s Hs. destruct (during_known s id Hs) as (p & Hp & Hok); [apply (Hk 0%nat id rtt); [done..|lia]|].
  unfold Sess.changePath. rewrite (withPath_eq _ _ p) by done. eapply during_path; [done..| |done|done]. by destruct Hok.
Qed.

Lemma add_path_keeps s id c ip :
  during s -> ss_paths s !! id = None -> has_port (conn_local c) -> during (Sess.addPath env now id c ip s).
Proof.
  intros Hs Hid Hc. unfold Sess.addPath. destruct (Sess.initialStatistics ip). apply during_new_path; [done..| |done].
  split; [done..|apply sent_inv_new|apply received_inv_new].
Qed.

Lemma parseDigits_no_panic max n l why : text.parseDigits max n l <> Panic why.
Proof. revert n. induction l as [|c l IH]; intros n; cbn; [done|]. by repeat case_match. Qed.

Lemma create_from_remote_keeps ids ips ports local :
  (length ids <= length ips)%nat -> (length ids <= length ports)%nat -> has_port local ->
  keeps (Sess.createPathsFromRemote env now ids ips ports local).
Proof.
  revert ips ports. induction ids as [|id ids IH]; intros [|ip ips] [|port ports] H1 H2 Hl; cbn in H1, H2; try lia;
    cbn [Sess.createPathsFromRemote]; try by apply call_ok_ret.
  eapply call_ok_bind with (Q := fun _ => during).
  { eapply call_ok_onError with (E' := fun _ => during); [|intros e; by apply call_ok_raise].
    apply call_ok_lift. intros s Hs. unfold Sess.Atoi. destruct port; [done|].
    destruct (text.parseDigits _ _ _) eqn:E; [done..|]. by apply parseDigits_no_panic in E. }
  intros n. apply call_ok_with. intros s Hs. eapply call_ok_bind with (Q := fun _ => during); [|intros _; apply IH; [lia..|done]].
  case_bool_decide as Hid; [apply call_ok_ret; naive_solver|].
  eapply call_ok_bind with (Q := fun _ s' => s' = s).
  - apply call_ok_lift. intros s' ->. unfold Sess.checkParity. by repeat case_match.
  - intros _. apply call_ok_update. intros s' ->. apply add_path_keeps; [done| |done]. by apply eq_None_not_Some.
Qed.

Lemma paths_frame_keeps f local :
  parsed_paths f -> has_port local ->
  (forall i id rtt, pf_PathIDs f !! i = Some id -> pf_RemoteRTTs f !! i = Some rtt -> thirtyMinutes <= rtt ->
     is_Some (ss_paths s0 !! id)) ->
  (isServer (ss_perspective s0) = true -> pf_NumPaths f = 0 \/ 0 < pf_NumIPs f) ->
  keeps (Sess.handlePathsFrame env now f local).
Proof.
  intros [Hn [H1 H2 H3 _]] Hl Hk Hips. unfold Sess.handlePathsFrame.
  eapply call_ok_bind; [apply learn_paths_keeps; [lia..|done]|]. intros []. apply call_ok_with. intros s Hs.
  eapply call_ok_weaken with (P' := during) (Q' := fun _ => during) (E' := fun _ => during); [|by intros ? ->|done..].
  apply call_ok_when. intros Hserv. rewrite (gr_perspective _ _ (proj2 Hs)) in Hserv.
  eapply call_ok_onError with (E' := fun _ => during); [|intros e; by apply call_ok_ret].
  intros s1 Hs1. unfold Sess.withManager, mbind, call_bind, get. destruct (sk_manager _ _ (proj1 Hs1)) as [pm ->].
  apply (create_from_remote_keeps (pf_PathIDs f)); [..|done|done]; destruct (Hips Hserv) as [E|E];
    try (destruct (H3 E); lia); rewrite E in H1; lia.
Qed.

(** *** CLOSE_PATH frames *)
Lemma during_closed s id :
  during s -> is_Some (ss_paths s !! id) -> during (s <| ss_closedPaths := {[id]} ∪ ss_closedPaths s |>).
Proof.
  intros [[] [G1 G2 G3]] Hid. split; split; cbn; auto.
  - intros x [->%elem_of_singleton|Hx]%elem_of_union; auto.
  - intros pid p Hp Hc. apply sk_streamIDs0; [done|set_solver].
Qed.

Lemma unassign_ok s pid sid :
  during s -> pid ∈ ss_closedPaths s -> pid ∈ pathsOf (ss_streamToPath s) sid ->
  exists s', Sess.unassign pid sid s = (s', Ret tt) /\ during s' /\ ss_closedPaths s' = ss_closedPaths s /\
    forall x, x <> sid -> pathsOf (ss_streamToPath s') x = pathsOf (ss_streamToPath s) x.
Proof.
  intros Hs Hc He. destruct Hs as [[] [G1 G2 G3]]. destruct (sk_assigned0 sid pid He) as ([str Hstr] & Hvol & Hp).
  unfold Sess.unassign, mbind, call_bind, get, update, lift.
  pose proof (DeleteOne_spec (ss_streamToPath s) sid pid sk_assign0) as Hdel.
  destruct (Assignment.DeleteOne (ss_streamToPath s) sid pid) as [m r]. destruct Hdel as (Hm & -> & Hpo).
  rewrite decide_True by done. rewrite Hstr, bool_decide_eq_true_2 by done.
  eexists. split; [reflexivity|]. split; [|split; [done|intros x Hx; cbn; by rewrite Hpo, decide_False]].
  assert (Hedge : forall x y, y ∈ pathsOf m x -> y ∈ pathsOf (ss_streamToPath s) x /\ (x = sid -> y <> pid)).
  { intros x y. rewrite Hpo. case_decide; [subst; rewrite list_elem_of_filter|]; naive_solver. }
  split; split; cbn; auto.
  - intros x y Hxy. apply Hedge in Hxy as [Hxy Hne]. destruct (sk_assigned0 x y Hxy) as (H1 & H2 & H3).
    split; [done|]. split; [|done]. unfold Sess.infoOf at 1. cbn. destruct (decide (sid = x)) as [->|].
    + rewrite lookup_insert_eq. cbn. rewrite lookup_delete_ne; [done|]. intros ->. by apply Hne.
    + by rewrite lookup_insert_ne.
  - intros y p Hy Hcy. destruct (sk_streamIDs0 y p Hy Hcy) as [Hnd Hin]. split; [done|]. intros x Hx.
    rewrite Hpo. case_decide; [subst|by apply Hin]. apply list_elem_of_filter. split; [|by apply Hin]. set_solver.
Qed.

Lemma unassign_all pid l : forall s,
  during s -> pid ∈ ss_closedPaths s -> NoDup l -> (forall sid, sid ∈ l -> pid ∈ pathsOf (ss_streamToPath s) sid) ->
  exists s', forEach l (Sess.unassign pid) s = (s', Ret tt) /\ during s' /\ ss_closedPaths s' = ss_closedPaths s.
Proof.
  induction l as [|sid l IH]; intros s Hs Hc Hnd Hl; cbn [forEach]; [by exists s|].
  apply NoDup_cons in Hnd as [Hni Hnd].
  destruct (unassign_ok s pid sid Hs Hc) as (s1 & E & Hs1 & Hc1 & Hpo); [apply Hl; set_solver|].
  unfold mbind, call_bind. rewrite E, <- Hc1. apply IH; [done|by rewrite Hc1|done|].
  intros x Hx. rewrite Hpo by congruence. apply Hl. set_solver.
Qed.

Lemma ask_to_close_during s id : during s -> during (Sess.askToClose id s).
Proof.
  intros Hs. unfold Sess.askToClose. destruct (ss_paths s !! id) as [p|] eqn:Hp; [|done].
  destruct (pa_open p); [|done]. eapply during_path; [done..| |done|done].
  by destruct (sk_paths _ _ (proj1 Hs) id p Hp).
Qed.

Lemma ask_to_close_same s id :
  ss_closedPaths (Sess.askToClose id s) = ss_closedPaths s /\ ss_streamToPath (Sess.askToClose id s) = ss_streamToPath s /\
  forall x, is_Some (ss_paths s !! x) -> is_Some (ss_paths (Sess.askToClose id s) !! x).
Proof.
  unfold Sess.askToClose. repeat case_match; [|done..]. cbn. do 2 (split; [done|]). intros x Hx.
  destruct (decide (id = x)) as [->|]; [rewrite lookup_insert_eq; eauto|by rewrite lookup_insert_ne].
Qed.

(** Closing a path without telling the peer never fails half way. *)
Lemma close_path_keeps id :
  call_ok during (Sess.closePath id false) (fun _ s => during s /\ is_Some (ss_paths s !! id)) (fun _ => during).
Proof.
  intros s Hs. unfold Sess.closePath, mbind, call_bind, get. destruct (ss_paths s !! id) as [p|] eqn:Hp; [|done].
  case_bool_decide as Hc; [by split; eauto|]. destruct (sk_manager _ _ (proj1 Hs)) as [pm Hpm].
  rewrite (bool_decide_eq_true_2 (is_Some (ss_pathManager s))) by eauto. cbn [when update].
  destruct (ask_to_close_same s id) as (E1 & E2 & E3). set (s1 := Sess.askToClose id s) in *.
  assert (Hs2 : during (s1 <| ss_closedPaths := {[id]} ∪ ss_closedPaths s1 |>)).
  { apply during_closed; [by apply ask_to_close_during|eauto]. }
  destruct (sk_streamIDs _ _ (proj1 Hs) id p Hp Hc) as [Hnd Hin].
  destruct (unassign_all id (pa_streamIDs p) _ Hs2) as (s3 & E & Hs3 & Ec); [set_solver|done|cbn; by rewrite E2|].
  rewrite E. split; [by apply (during_core s3)|]. apply (sk_closed _ _ (proj1 Hs3)). rewrite Ec. set_solver.
Qed.

Lemma close_path_frame_keeps f :
  accepted (cp_AckRanges f) (cp_LargestAcked f) (cp_LowestAcked f) -> keeps (Sess.handleClosePathFrame f).
Proof.
  intros Hf. unfold Sess.handleClosePathFrame. eapply call_ok_bind; [apply close_path_keeps|].
  intros [] s [Hs [p Hp]]. pose proof (sk_paths _ _ (proj1 Hs) _ p Hp) as Hok. rewrite (withPath_eq _ _ p) by done.
  destruct (sent_inv_close_path (pa_sent p) f (pa_lastRcvdPacketNumber p) Hf (po_sent _ _ Hok)) as [Hinv Hpanic].
  destruct (Sent.ReceivedClosePath _ _ _) as [h r]. cbn in Hinv, Hpanic.
  assert (Hd : during (s <| ss_paths := <[cp_PathID f := p <| pa_sent := h |>]> (ss_paths s) |>)).
  { eapply during_path; [done..| |done|done]. by apply path_ok_sent. }
  unfold mbind, call_bind, Sess.setPath, update, lift. destruct r; [done..|by edestruct Hpanic].
Qed.

(** *** ADD_ADDRESS frames *)
Lemma with_manager_keeps (k : pathManager -> Call session unit) :
  (forall pm, keeps (k pm)) -> keeps (Sess.withManager k).
Proof.
  intros Hk s Hs. unfold Sess.withManager, mbind, call_bind, get.
  destruct (sk_manager _ _ (proj1 Hs)) as [pm ->]. by apply Hk.
Qed.

Lemma advertise_keeps : keeps (Sess.advertiseAddresses env).
Proof.
  unfold Sess.advertiseAddresses. apply with_manager_keeps. intros pm. apply call_ok_forEach. intros a _.
  unfold Sess.advertiseAddress. intros s Hs. unfold Sess.withManager, mbind, call_bind, get.
  destruct (sk_manager _ _ (proj1 Hs)) as [pm' Hpm]. rewrite Hpm. case_bool_decide; [done|].
  apply (during_core s); [|done]. unfold core. by rewrite Hpm.
Qed.

Lemma add_address_keeps f :
  isServer (ss_perspective s0) = true \/ ss_createPaths s0 = false -> keeps (Sess.handleAddAddressFrame env now f).
Proof.
  intros Hc s Hs. unfold Sess.handleAddAddressFrame, Sess.withManager, mbind, call_bind, get.
  destruct (sk_manager _ _ (proj1 Hs)) as [pm Hpm]. rewrite Hpm.
  assert (Hd : forall pm', during (s <| ss_pathManager := Some pm' |>)).
  { intros pm'. apply (during_core s); [|done]. unfold core. by rewrite Hpm. }
  assert (Hk : forall s1, during s1 -> match when (ss_createPaths s1) (Sess.createPaths env now) s1 with
    | (s', Ret _) => during s' | (s', Err _) => during s' | (_, Panic _) => False end).
  { intros s1 Hs1. destruct (proj2 Hs1) as [E1 E2 _]. unfold when.
    destruct Hc as [Hc|Hc]; [|rewrite E2, Hc; done]. destruct (ss_createPaths s1); [|done].
    unfold Sess.createPaths, mbind, call_bind, get. rewrite E1, Hc. by apply advertise_keeps. }
  destruct (aa_IPVersion f =? 4); [apply Hk, Hd|]. destruct (aa_IPVersion f =? 6); [apply Hk, Hd|done].
Qed.

(** *** All frames *)

(** What a frame of a packet on the path [own] must not do for the session to survive it: name a path the
    session does not know in an ACK frame or as a failed path in a PATHS frame, or send a server paths
    without their addresses.  The IDs of streams are far from a wrap-around; a client that creates paths
    when it learns an address is left out. *)
Definition known s (own id : Z) : Prop := id = own \/ is_Some (ss_paths s !! id).

Definition frame_ok s (own : Z) (f : Frame) : Prop :=
  match f with
  | FStream f => StreamID f < 2 ^ 32 - 2
  | FRstStream f => rst_StreamID f < 2 ^ 32 - 2
  | FWindowUpdate f => wu_StreamID f < 2 ^ 32 - 2
  | FAck f => known s own (PathID f)
  | FAddAddress _ => isServer (ss_perspective s) = true \/ ss_createPaths s = false
  | FPaths f =>
      (forall i id rtt, pf_PathIDs f !! i = Some id -> pf_RemoteRTTs f !! i = Some rtt -> thirtyMinutes <= rtt ->
         known s own id) /\
      (isServer (ss_perspective s) = true -> pf_NumPaths f = 0 \/ 0 < pf_NumIPs f)
  | _ => True
  end.

Lemma frame_ok_mono s s' own f :
  frame_ok s own f -> ss_perspective s' = ss_perspective s -> ss_createPaths s' = ss_createPaths s ->
  (forall id, is_Some (ss_paths s !! id) -> is_Some (ss_paths s' !! id)) -> frame_ok s' own f.
Proof. unfold frame_ok, known. intros Hf E1 E2 Hk. rewrite E1, E2. destruct f; naive_solver. Qed.

Section Frames.
Context (hdr : PublicHeader) (level : EncryptionLevel) (id : Z) (p0 : path) (local : list Z).
Context (Hid : ss_paths s0 !! id = Some p0) (Hl : hdr_PacketNumber hdr <= largestObserved (pa_received p0)).
Context (Hpn : hdr_PacketNumber hdr < 2 ^ 48) (Hlocal : has_port local).

Lemma known_paths x : known s0 id x -> is_Some (ss_paths s0 !! x).
Proof. intros [->|]; eauto. Qed.

Lemma handle_frame_keeps f : parsed_frame hdr level f -> frame_ok s0 id f -> keeps (Sess.handleFrame env now id local f).
Proof.
  destruct f as [f|f|f|f|f|f|f|f|f|f|f|f]; intros Hp Hf; cbn [Sess.handleFrame parsed_frame frame_ok] in *.
  - destruct Hp as [[] _]. apply stream_frame_keeps. unfold in_range in *. lia.
  - destruct Hp as (_ & Hacc & _). apply ack_keeps; [done|by apply known_paths].
  - destruct Hp. apply rst_stream_keeps. unfold in_range in *. lia.
  - apply call_ok_update. intros s Hs. apply (during_core s); [|done]. unfold Sess.closeRemote, Sess.closeWith.
    by destruct (ss_closed s).
  - by apply call_ok_raise.
  - destruct Hp. apply window_update_keeps. unfold in_range in *. lia.
  - apply call_ok_update. intros s Hs. by apply (during_core s).
  - apply (stop_waiting_keeps f id (hdr_PacketNumber hdr)); [eauto|naive_solver|done..].
  - by apply call_ok_ret.
  - intros s Hs. destruct (sk_manager _ _ (proj1 Hs)) as [pm ->]. pose proof (add_address_keeps f Hf s Hs) as Ha.
    destruct (Sess.handleAddAddressFrame env now f s) as [s1 r]. pose proof (schedule_paths_keeps s1) as Hsp.
    unfold mbind, call_bind, lift. destruct r; [| |done]; specialize (Hsp Ha);
      destruct (Sess.schedulePathsFrame env now s1) as [s2 [[]| |]]; done.
  - destruct Hp. eapply call_ok_onError with (E' := fun _ => during); [by apply close_path_frame_keeps|].
    intros e. by apply call_ok_ret.
  - destruct Hf as [Hk Hf]. apply paths_frame_keeps; [done..| |done]. intros i x rtt H1 H2 H3. by eapply known_paths, Hk.
Qed.

Lemma frames_keep fs :
  Forall (parsed_frame hdr level) fs -> Forall (frame_ok s0 id) fs -> keeps (Sess.handleFrames env now fs id local).
Proof.
  intros Hp Hf. unfold Sess.handleFrames. rewrite !Forall_forall in *. apply call_ok_forEach. intros f Hin.
  eapply call_ok_onError; [apply handle_frame_keeps; auto|]. intros e. cbv beta. destruct (Sess.ignored e);
    [by apply call_ok_ret|by apply call_ok_raise].
Qed.
End Frames.
End Invariant.

(** ** Packets *)
Section Packets.
Context {C : Type} `{!SendAlgorithm C} (N : Z) (env : environment C) (now : Z).
Context (Open : list Z -> Z -> list Z -> outcome (list Z * EncryptionLevel)).
Notation session := (session C).
Notation path := (path C).
Implicit Types s : session.
Implicit Types p : path.

(** Decryption yields bytes. *)
Definition opens_bytes : Prop := forall data pn ad,
  match Open data pn ad with
  | Ret (payload, _) => is_bytes payload
  | Err _ => True
  | Panic _ => False
  end.

(** The number of a packet that arrives, and what it is unpacked to. *)
Definition packetNumber s (pkt : receivedPacket) : Z :=
  let hdr := rp_publicHeader pkt in
  InferPacketNumber (hdr_PacketNumberLen hdr) (from_option pa_largestRcvdPacketNumber 0 (ss_paths s !! hdr_PathID hdr))
    (hdr_PacketNumber hdr).

Definition unpacked s (pkt : receivedPacket) : outcome unpackedPacket :=
  let hdr := rp_publicHeader pkt in
  Unpacker.Unpack (env_codeString env) (ss_version s) Open (Raw hdr) (Sess.withNumber hdr (packetNumber s pkt)) (rp_data pkt).

(** A packet that is well formed and harmless in the sense of [frame_ok]. *)
Record packet_ok s (pkt : receivedPacket) : Prop := {
  pk_port : has_port (rp_rcvPconn pkt);
  pk_len : 0 <= hdr_PacketNumberLen (rp_publicHeader pkt) <= 8;
  pk_number : 0 <= packetNumber s pkt < 2 ^ 48;
  pk_nonce : let nonce := DiversificationNonce (rp_publicHeader pkt) in
    ss_perspective s = PerspectiveClient -> nonce <> [] -> SetDiversificationNonce (env_crypto env) nonce = None;
  pk_frames : forall packet, unpacked s pkt = Ret packet ->
    Forall (frame_ok s (hdr_PathID (rp_publicHeader pkt))) (frames packet)
}.

(** How a handler for a packet ends: well formed, or with an error that closes the session. *)
Definition packet_result (r : session * receivedPacket * outcome unit) : Prop :=
  (forall why, r.2 <> Panic why) /\
  (session_ok N r.1.1 \/ exists e, r.2 = Err e /\ Sess.isDecryptionFailure e = false).

Lemma session_ok_core s s' : core s' = core s -> session_ok N s -> session_ok N s'.
Proof. intros E Hs. by apply (during_core N s s s' E). Qed.

Lemma unpacked_ok id packet level hdr local s p :
  session_ok N s -> ss_paths s !! id = Some p -> has_port local -> 0 <= hdr_PacketNumber hdr < 2 ^ 48 ->
  Forall (frame_ok s id) (frames packet) -> Forall (parsed_frame hdr level) (frames packet) ->
  let '(s', r) := Sess.handleUnpacked env now id (hdr_PacketNumber hdr) packet local s in
  (forall why, r <> Panic why) /\ (session_ok N s' \/ exists e, r = Err e /\ Sess.isDecryptionFailure e = false).
Proof.
  intros Hs Hp Hl Hpn Hf Hparsed. pose proof (sk_paths _ _ Hs id p Hp) as Hok. unfold Sess.handleUnpacked.
  rewrite (withPath_eq _ _ p) by done. set (p1 := p <| pa_lastRcvdPacketNumber := _ |> <| pa_largestRcvdPacketNumber := _ |>).
  pose proof (received_inv_packet (pa_received p1) now (hdr_PacketNumber hdr) (HasRetransmittableFrames (frames packet))
    Hpn (po_received _ _ Hok)) as Hr. pose proof (received_error (pa_received p1) now (hdr_PacketNumber hdr)
    (HasRetransmittableFrames (frames packet))) as He.
  destruct (Handler.ReceivedPacket _ _ _ _) as [h r]. unfold mbind, call_bind, Sess.setPath, update, lift.
  destruct r as [[]|e|]; [|by split; eauto|done]. destruct Hr as [Hinv Hlarge].
  set (s1 := s <| ss_paths := _ |>).
  assert (Hs1 : session_ok N s1).
  { eapply session_ok_path; [done..| |done]. apply path_ok_received; [by destruct Hok|done]. }
  assert (Hp1 : ss_paths s1 !! id = Some (p1 <| pa_received := h |>)) by (cbn; by rewrite lookup_insert_eq).
  pose proof (frames_keep N s1 env now hdr level id (p1 <| pa_received := h |>) local Hp1 ltac:(cbn; lia) ltac:(lia) Hl
    (frames packet) Hparsed) as Hkeep.
  assert (Hd : during N s1 s1) by (by split).
  specialize (fun H => Hkeep H s1 Hd). destruct (Sess.handleFrames env now (frames packet) id local s1) as [s2 r].
  assert (Hf1 : Forall (frame_ok s1 id) (frames packet)).
  { eapply Forall_impl; [exact Hf|]. intros f Hff. eapply frame_ok_mono; [exact Hff|done..|]. intros x Hx. cbn.
    destruct (decide (id = x)) as [->|]; [rewrite lookup_insert_eq; eauto|by rewrite lookup_insert_ne]. }
  specialize (Hkeep Hf1). destruct r; [..|done]; destruct Hkeep; by split; [|left].
Qed.

Lemma path_ok_moved id p a : path_ok id p -> path_ok id (p <| pa_conn := Conn.SetCurrentRemoteAddr a (pa_conn p) |>).
Proof. by intros []. Qed.

Lemma on_path_ok s pkt p :
  session_ok N s -> opens_bytes -> packet_ok s pkt -> ss_paths s !! hdr_PathID (rp_publicHeader pkt) = Some p ->
  packet_result (Sess.handleOnPath env now Open (hdr_PathID (rp_publicHeader pkt)) pkt s).
Proof.
  intros Hs Hopen [Hport Hlen Hnum _ Hframes] Hp. unfold unpacked, packetNumber in *. rewrite Hp in Hnum, Hframes.
  cbn [from_option] in Hnum, Hframes. unfold Sess.handleOnPath. rewrite Hp.
  destruct (pa_open p); [|by split; [|left]]. cbn [negb]. cbv zeta.
  set (id := hdr_PathID (rp_publicHeader pkt)) in *.
  set (p1 := (if negb (rp_rcvTime pkt =? 0) then _ else p) <| pa_potentiallyFailed := false |>).
  pose proof (sk_paths _ _ Hs _ _ Hp) as Hok.
  assert (Hok1 : path_ok id p1 /\ pa_streamIDs p1 = pa_streamIDs p /\
    pa_largestRcvdPacketNumber p1 = pa_largestRcvdPacketNumber p).
  { subst p1. destruct (negb _); (split; [by destruct Hok|done]). }
  destruct Hok1 as (Hok1 & Hids & ->).
  set (hdr := Sess.withNumber (rp_publicHeader pkt) _) in *.
  set (moved := if isServer _ then _ else p1).
  assert (Hok2 : path_ok id moved /\ pa_streamIDs moved = pa_streamIDs p).
  { subst moved. destruct (isServer _); [|done]. split; [by apply path_ok_moved|done]. }
  change (rp_data (Sess.withHeader pkt hdr)) with (rp_data pkt).
  change (rp_rcvPconn (Sess.withHeader pkt hdr)) with (rp_rcvPconn pkt).
  assert (Hstore : forall q, path_ok id q /\ pa_streamIDs q = pa_streamIDs p ->
    session_ok N (s <| ss_paths := <[id := q]> (ss_paths s) |>)).
  { intros q [Hq Hqids]. by eapply session_ok_path. }
  specialize (Hopen (rp_data pkt) (hdr_PacketNumber hdr) (Raw (rp_publicHeader pkt))).
  destruct (Open (rp_data pkt) (hdr_PacketNumber hdr) (Raw (rp_publicHeader pkt))) as [[payload level]|e|] eqn:Eo; [| |done].
  - pose proof (Unpack_parsed (env_codeString env) (ss_version s) Open (Raw (rp_publicHeader pkt)) hdr (rp_data pkt)
      payload level ltac:(unfold in_range; cbn; lia) Hlen Eo Hopen) as Hparsed.
    destruct (Unpacker.Unpack _ _ _ _ _ _) as [packet|e|]; [| |done].
    + destruct Hparsed as [_ Hparsed]. specialize (Hframes packet eq_refl).
      pose proof (unpacked_ok id packet level hdr (rp_rcvPconn pkt) _ moved (Hstore moved Hok2)
        ltac:(cbn; by rewrite lookup_insert_eq) Hport Hnum) as H.
      change (hdr_PacketNumber hdr) with (InferPacketNumber (hdr_PacketNumberLen (rp_publicHeader pkt))
        (pa_largestRcvdPacketNumber p) (hdr_PacketNumber (rp_publicHeader pkt))) in H.
      destruct (Sess.handleUnpacked _ _ _ _ _ _ _) as [s' r]. apply H; [|done].
      eapply Forall_impl; [exact Hframes|]. intros f Hf. eapply frame_ok_mono; [exact Hf|done..|]. intros x Hx. cbn.
      destruct (decide (id = x)) as [->|]; [rewrite lookup_insert_eq; eauto|by rewrite lookup_insert_ne].
    + split; [done|]. left. apply Hstore. by destruct (Sess.isDecryptionFailure e).
  - unfold Unpacker.Unpack. rewrite Eo. split; [done|]. left. apply Hstore. by destruct (Sess.isDecryptionFailure _).
Qed.

(** The state in which the packet is handled on its path. *)
Lemma packet_ok_ext s s' pkt :
  packet_ok s pkt -> ss_perspective s' = ss_perspective s -> ss_createPaths s' = ss_createPaths s ->
  ss_version s' = ss_version s -> (forall id, is_Some (ss_paths s !! id) -> is_Some (ss_paths s' !! id)) ->
  packetNumber s' pkt = packetNumber s pkt -> packet_ok s' pkt.
Proof.
  intros [] E1 E2 E3 Hk E4. split; [done..|by rewrite E4|by rewrite E1|]. unfold unpacked. rewrite E3, E4. intros packet Hu.
  eapply Forall_impl; [by apply pk_frames0|]. intros f Hf. by eapply frame_ok_mono.
Qed.

Lemma nonce_accepted s pkt :
  packet_ok s pkt -> let nonce := DiversificationNonce (rp_publicHeader pkt) in
  (if isClient (ss_perspective s) && (0 <? Z.of_nat (length nonce)) then SetDiversificationNonce (env_crypto env) nonce else None)
  = None.
Proof.
  intros Hpkt nonce. destruct (isClient (ss_perspective s)) eqn:Ec; [|done]. cbn [andb].
  destruct (Z.ltb_spec 0 (Z.of_nat (length nonce))); [|done]. apply (pk_nonce _ _ Hpkt); [by destruct (ss_perspective s)|].
  intros E. fold nonce in E. rewrite E in *. cbn in *. lia.
Qed.

Lemma impl_ok s pkt :
  session_ok N s -> opens_bytes -> packet_ok s pkt -> packet_result (Sess.handlePacketImpl env now Open pkt s).
Proof.
  intros Hs Hopen Hpkt. unfold Sess.handlePacketImpl. cbv zeta. rewrite nonce_accepted by done.
  set (s1 := (if isClient _ && _ then _ else s) <| ss_lastNetworkActivityTime := _ |> <| ss_keepAlivePingSent := false |>).
  set (pkt1 := if rp_rcvTime pkt =? 0 then _ else pkt).
  assert (Hs1 : session_ok N s1). { eapply session_ok_core; [|exact Hs]. subst s1. by destruct (isClient _ && _). }
  assert (Hpkt1 : packet_ok s1 pkt1).
  { eapply (packet_ok_ext s); [subst pkt1; by destruct (rp_rcvTime pkt =? 0), Hpkt|..]; subst s1; by destruct (isClient _ && _). }
  clearbody s1 pkt1. clear Hs Hpkt. set (id := hdr_PathID (rp_publicHeader pkt1)).
  destruct (ss_paths s1 !! id) as [p|] eqn:Hp; [by eapply on_path_ok|].
  unfold Sess.createPathFromRemote, Sess.withManager, mbind, call_bind, get.
  destruct (sk_manager _ _ Hs1) as [pm ->]. fold id. rewrite bool_decide_eq_false_2 by (rewrite Hp; by intros []).
  unfold lift. destruct (Sess.checkParity (ss_perspective s1) id) as [[]|e|] eqn:Epar.
  - cbn [update]. set (s2 := Sess.addPath env now id _ _ s1).
    assert (Hs2 : during N s1 s2) by (apply add_path_keeps; [by split|done|apply Hpkt1]).
    assert (Hp2 : exists p, ss_paths s2 !! id = Some p /\ pa_largestRcvdPacketNumber p = 0).
    { subst s2. unfold Sess.addPath. destruct (Sess.initialStatistics _). cbn. rewrite lookup_insert_eq. eauto. }
    destruct Hp2 as (p & Hp2 & El). apply (on_path_ok s2 pkt1 p (proj1 Hs2) Hopen); [|done].
    eapply packet_ok_ext; [exact Hpkt1|apply Hs2|apply Hs2|subst s2; unfold Sess.addPath; by destruct (Sess.initialStatistics _)|..].
    + intros x [q Hq]. destruct (gr_paths _ _ (proj2 Hs2) x q Hq) as (q' & -> & _). eauto.
    + unfold packetNumber. fold id. rewrite Hp2, Hp. cbn. by rewrite El.
  - split; [done|]. by left.
  - unfold Sess.checkParity in Epar. by repeat case_match.
Qed.

End Packets.
