(* ===== verification/SchedulerSafety.v ===== *)
(** * What sending does to a session

    [Walk] goes once through all that [sendPacket] does and lists the changes of the session it is made of:
    a relation that allows each of these changes allows a whole call of [sendPacket], however it ends.  It is
    used with the invariant of the session, with the assignment of streams to paths, and with streams
    that are stuck. *)
From S2P Require Import Prelude MinMax Float32 Float64 ByteOrder PacketNumber PacketNumberGenerator.
From S2P Require Import HandshakeMessage Frames AckRanges AckFrame PathsFrame PublicHeader Unpacker ReceivedPackets.
From S2P Require Import FrameSorter FlowControl ConnectionParameters StreamToPath StreamTree Stream StreamsMap.
From S2P Require Import StreamFramer PacketPacker SentPackets Session Scheduler SessionSafety.

Open Scope Z_scope.
Open Scope go_scope.

(** ** Flow control *)
Lemma streamUpdates_dom force now rtt rtts ids : forall f,
  dom (streamFlowController (Manager.streamUpdates force now rtt rtts ids f).1) = dom (streamFlowController f).
Proof.
  induction ids as [|id ids IH]; intros f; [done|]. cbn [Manager.streamUpdates].
  destruct (streamFlowController f !! id) as [fc|] eqn:E; [|apply IH].
  destruct (Controller.MaybeUpdateWindow fc now rtt rtts) as [fc' [[necessary incr] offset]].
  set (f' := mkManager _ _ _). specialize (IH f'). destruct (Manager.streamUpdates _ _ _ _ ids f') as [f2 l].
  transitivity (dom (streamFlowController f')); [by destruct (_ || _)|]. cbn. apply dom_insert_lookup_L. eauto.
Qed.

Section Choice.
Context {C : Type} `{!SendAlgorithm C} (env : environment C) (around : surroundings) (now : Z).
Notation session := (session C).
Notation path := (path C).
Implicit Types s : session.
Implicit Types p : path.

(** What the relations are about. *)
Definition sendCore s := (core s, Sess.parameters s, ss_pathScheduler s).

Context (R : session -> session -> Prop) `{!PreOrder R}.
Context (R_core : forall s s', sendCore s' = sendCore s -> R s s').
Context (R_size : forall s sid size b,
  R s (Sess.changeInfo sid (fun i => i <| si_size := size |> <| si_checksize := b |>) s)).

Lemma walk_get {A} (k : session -> Call session A) : (forall s, within R (k s)) -> within R (mbind k get).
Proof. intros Hk. apply (within_get _). intros s. apply Hk. Qed.

Lemma walk_with {A} id (k : path -> Call session A) :
  (forall s p, ss_paths s !! id = Some p -> R s (k p s).1) -> within R (Sess.withPath id k).
Proof. intros Hk s. unfold Sess.withPath, mbind, call_bind, get. destruct (_ !! _) eqn:E; [by apply Hk|apply (within_nil R)]. Qed.

Lemma walk_with_any {A} id (k : path -> Call session A) : (forall p, within R (k p)) -> within R (Sess.withPath id k).
Proof. intros Hk. apply walk_with. intros s p _. apply Hk. Qed.

Lemma walk_core (f : session -> session) : (forall s, sendCore (f s) = sendCore s) -> within R (update f).
Proof. intros Hf s. apply R_core, Hf. Qed.

(** *** Choosing a path *)
Lemma walk_only_path : within R Sched.onlyPath.
Proof. apply walk_with_any. auto with within. Qed.

Lemma walk_low_latency : within R (Sched.findPathLowLatency env).
Proof.
  apply walk_get. intros s. destruct (_ <=? _); [apply walk_only_path|]. destruct (foldl _ _ _) as [[sel rtt] q].
  apply (within_bind R); [by apply walk_core|auto with within].
Qed.

Lemma walk_choose sid priority : within R (Sched.choosePath env sid priority).
Proof.
  apply walk_get. intros s. destruct (_ <=? _); [apply walk_only_path|]. apply (within_bind R).
  - apply walk_get. intros s1. destruct (_ !! _); auto with within. destruct (si_checksize _); auto with within.
    apply (within_bind R); [|auto with within]. intros s2. apply R_size.
  - intros known. destruct (negb known); auto with within. apply walk_get. auto with within.
Qed.

Lemma walk_choose_rl sid : within R (Sched.choosePathsRL env around sid).
Proof.
  apply walk_get. intros s. destruct (_ <=? _); [apply walk_only_path|]. cbv zeta. match goal with |- within R (match ?l with _ => _ end) => destruct l as [|? []] end; auto with within.
Qed.

End Choice.

(** The choice of a path leaves the streams and their assignment alone. *)
Definition same_assignment {C} (s s' : session C) : Prop :=
  streams (Sess.sessionMap s') = streams (Sess.sessionMap s) /\ ss_streamToPath s' = ss_streamToPath s.

#[export] Instance same_assignment_preorder {C} : PreOrder (@same_assignment C).
Proof. split; [by intros s|]. intros s1 s2 s3 [] []. split; congruence. Qed.

Lemma same_assignment_core {C} (s s' : session C) : sendCore s' = sendCore s -> same_assignment s s'.
Proof. intros [= E1 E2 E3 E4 E5 E6 E7 E8 E9 E10 E11 E12 E13]. split; congruence. Qed.

Section Walk.
Context {C : Type} `{!SendAlgorithm C} (env : environment C) (around : surroundings) (now : Z).
Notation session := (session C).
Notation path := (path C).
Implicit Types s : session.
Implicit Types p : path.

(** A path while it sends. *)
Inductive path_step : path -> path -> Prop :=
  | ps_dequeue p : path_step p (p <| pa_sent := (Sent.DequeuePacketForRetransmission (pa_sent p)).1 |>)
  | ps_stop_waiting p force : path_step p (Path.GetStopWaitingFrame force p).1
  | ps_sent p t packet : path_step p (p <| pa_sent := (Sent.SentPacket (pa_sent p) t packet).1 |>)
  | ps_ack p t : path_step p (Path.GetAckFrame t p).1
  | ps_write p raw : path_step p (p <| pa_conn := Conn.Write raw (pa_conn p) |>)
  | ps_signal p : path_step p (p <| pa_sentPacket := true |>)
  | ps_least_unacked p n : path_step p (Path.SetLeastUnacked n p)
  | ps_packed p v : path_step p (Path.fromView v p).

Context (R : session -> session -> Prop) `{!PreOrder R}.
Context (R_core : forall s s', sendCore s' = sendCore s -> R s s').
Context (R_path : forall s id p p', ss_paths s !! id = Some p -> path_step p p' ->
  R s (s <| ss_paths := <[id := p']> (ss_paths s) |>)).
Context (R_flow : forall s fc, dom (streamFlowController fc) = dom (streamFlowController (Sess.flowControl s)) ->
  R s (Sess.setMapState (Sess.sessionMap s, fc) s)).
Context (R_order : forall s ids, R s (Sched.setPriorityOrder ids s)).
Context (R_tree : forall s fin checked, R s (s <| ss_tree := (Tree.schedule fin checked (ss_tree s)).1 |>)).
Context (R_size : forall s sid size b,
  R s (Sess.changeInfo sid (fun i => i <| si_size := size |> <| si_checksize := b |>) s)).
Context (R_assign : forall counted sid pid s, is_Some (streams (Sess.sessionMap s) !! sid) ->
  ss_streamToPath s !! sid = None -> R s (Sched.assign counted sid pid s).1).
Context (R_pack : forall id, within R (Sched.packPacketOfPath env around now id)).

(** A path is changed and the call goes on. *)
Lemma walk_set {A} id p p' (k : unit -> Call session A) s :
  ss_paths s !! id = Some p -> path_step p p' -> (forall u, within R (k u)) -> R s (mbind k (Sess.setPath id p') s).1.
Proof. intros Hp Hs Hk. apply (within_bind_post R); [by apply (R_path s id p)|]. intros s' [] _. apply Hk. Qed.

Lemma walk_queue f id : within R (Sched.queue f id).
Proof. apply (walk_core R R_core). intros s. by destruct f. Qed.

#[local] Hint Resolve walk_queue : within.

(** The steps of a call that are the same everywhere. *)
#[local] Ltac walk := repeat first
  [ progress auto with within
  | apply (within_bind R); [|intros ?]
  | apply (within_when R); intros _
  | apply (within_forEach R); intros ? ].

Lemma walk_schedule_paths : within R (Sess.schedulePathsFrame env now).
Proof.
  apply (within_bind R); [by apply (walk_core R R_core)|]. intros []. apply (within_get R). intros s.
  apply (within_bind_post R); [apply (within_lift R)|]. intros s' f [= <- E]. apply R_core.
  unfold Framer.AddPathsFrameForTransmission, mbind, outcome_bind in E. by case_match; simplify_eq.
Qed.

Lemma walk_window_updates force : within R (Sess.getWindowUpdateFrames env now force).
Proof.
  apply (walk_with R). intros s p _. cbv beta zeta. destruct (Manager.GetWindowUpdates _ _ _ _ _ _) as [fc ups] eqn:E. cbn [fst].
  apply R_flow. unfold Manager.GetWindowUpdates in E.
  pose proof (streamUpdates_dom force now (Path.SmoothedRTT p) (omap (ss_remoteRTTs s !!.) (env_order env (dom (ss_remoteRTTs s))))
    (env_order env (dom (streamFlowController (Sess.flowControl s)))) (Sess.flowControl s)) as Hd.
  destruct (Manager.streamUpdates _ _ _ _ _ _) as [f res].
  destruct (Controller.MaybeUpdateWindow _ _ _ _) as [conn [[necessary incr] offset]]. by simplify_eq.
Qed.

(** *** Retransmissions *)
Lemma walk_requeue id f : within R (Sched.requeueFrame env now id f).
Proof.
  destruct f; cbn [Sched.requeueFrame]; auto with within.
  - by apply (walk_core R R_core).
  - apply (walk_get R). intros s. destruct (Manager.GetReceiveWindow _ _); walk.
  - apply walk_schedule_paths.
Qed.

Lemma walk_retransmission id : forall fuel has, within R (Sched.getRetransmissionOfPath env now fuel id has).
Proof.
  induction fuel as [|fuel IH]; intros has; cbn [Sched.getRetransmissionOfPath]; auto with within.
  apply (walk_with R). intros s p Hp. pose proof (ps_dequeue p) as Hstep.
  destruct (Sent.DequeuePacketForRetransmission (pa_sent p)) as [h packet]. apply (walk_set id p); [done..|].
  intros []. destruct packet as [packet|]; auto with within. apply (walk_get R). intros s1.
  destruct (negb _); [destruct (ss_handshakeComplete s1); auto with within|]. walk. apply walk_requeue.
Qed.

(** *** Frames of a path *)
Lemma walk_ack id : within R (Sched.getAckFrame now id).
Proof.
  apply (walk_with R). intros s p Hp. pose proof (ps_ack p now) as Hstep.
  destruct (Path.GetAckFrame now p) as [p' r]. apply (walk_set id p); [done..|]. auto with within.
Qed.

Lemma walk_get_stop_waiting id force : within R (Sched.getStopWaitingFrame id force).
Proof.
  apply (walk_with R). intros s p Hp. pose proof (ps_stop_waiting p force) as Hstep.
  destruct (Path.GetStopWaitingFrame force p) as [p' r]. apply (walk_set id p); [done..|]. auto with within.
Qed.

Lemma walk_stop_waiting id force : within R (Sched.queueStopWaiting id force).
Proof. apply (within_bind R); [apply walk_get_stop_waiting|]. intros []; auto with within. Qed.

Lemma walk_queue_ack ack id : within R (Sched.queueAck ack id).
Proof. destruct ack; cbn [Sched.queueAck]; auto with within. by apply (walk_core R R_core). Qed.

#[local] Hint Resolve walk_schedule_paths walk_window_updates walk_retransmission walk_ack walk_get_stop_waiting
  walk_stop_waiting walk_queue_ack : within.

(** *** Packets *)

(** A call of the packer that leaves the framer alone. *)
Lemma walk_packing {A} id (pack : packetPacker -> packerPath -> packetPacker * packerPath * outcome A) :
  (forall pk v, let '(pk', _, _) := pack pk v in pk_framer pk' = pk_framer pk /\ pk_parameters pk' = pk_parameters pk) ->
  within R (Sess.packing id pack).
Proof.
  intros Hpack. apply (walk_with R). intros s p Hp. specialize (Hpack (ss_packer s) (Path.view (ss_handshakeComplete s) p)).
  destruct (pack _ _) as [[pk v] r]. destruct Hpack as [Ef Eh]. rewrite Ef. fold (Sess.framer s). fold (Sess.sessionMap s).
  rewrite drop_all. cbn [forEach]. unfold mbind, call_bind, mret, call_ret, lift. cbn [fst].
  transitivity (s <| ss_packer := pk |>).
  - apply R_core. unfold sendCore, core, Sess.sessionMap, Sess.flowControl, Sess.framer, Sess.parameters. cbn. by rewrite Ef, Eh.
  - match goal with |- R ?x _ => exact (R_path x id p _ Hp (ps_packed p v)) end.
Qed.

Lemma walk_pack_ack id :
  within R (Sess.packing id (fun pk v =>
    Packer.PackAckPacket (env_parseIPv6 env) now (env_crypto env) (Sess.nextRand env v) pk v)).
Proof.
  apply walk_packing. intros pk v. unfold Packer.PackAckPacket, Packer.numberStopWaiting. by repeat case_match; simplify_eq.
Qed.

Lemma walk_send packet id : within R (Sess.sendPackedPacket env now packet id).
Proof.
  apply (walk_with R). intros s p Hp. set (x := mkPacket _ _ _ _ _). pose proof (ps_sent p now x) as Hstep.
  destruct (Sent.SentPacket (pa_sent p) now x) as [h r]. apply (walk_set id p); [done..|]. intros [].
  apply (within_bind R); [auto with within|]. intros []. apply (within_bind R).
  - apply (walk_with R). intros s1 p1 Hp1. destruct (_ && _); [apply (within_crash R)|].
    exact (R_path s1 id p1 _ Hp1 (ps_signal p1)).
  - intros []. apply (walk_with R). intros s1 p1 Hp1. destruct (env_writeTo _ _ _ _); [apply (within_raise R)|].
    exact (R_path s1 id p1 _ Hp1 (ps_write p1 _)).
Qed.

#[local] Hint Resolve walk_pack_ack walk_send R_pack : within.

Lemma walk_ack_path locked wufs id : within R (Sched.ackPath env around now locked wufs id).
Proof.
  apply (within_bind R); [auto with within|]. intros ack. apply (within_bind R); [walk|]. intros [].
  assert (Hsend : within R (
    if (id =? InitialPathID) && bool_decide (ack = None) then mret tt
    else
      Sched.queueStopWaiting id false;;
      Sched.queueAck ack id;;
      packet ← match ack with
               | Some _ => packed ← Sess.packing id (fun pk v => Packer.PackAckPacket (env_parseIPv6 env) now (env_crypto env)
                             (Sess.nextRand env v) pk v); mret (Some packed)
               | None => if locked then crash "deadlock" else Sched.packPacketOfPath env around now id
               end;
      match packet with None => nilDereference | Some packet => Sess.sendPackedPacket env now packet id end)).
  { destruct (_ && _); [auto with within|]. walk.
    - destruct ack; [walk|destruct locked; auto with within].
    - match goal with |- within R (match ?x with _ => _ end) => destruct x; auto with within end. }
  destruct ack, wufs; try exact Hsend. auto with within.
Qed.

#[local] Hint Resolve walk_ack_path : within.

Lemma walk_ack_remaining locked total : within R (Sched.ackRemainingPaths env around now locked total).
Proof.
  apply (walk_get R). intros s. apply (within_bind R); [destruct total; auto with within|]. intros wufs. apply (walk_get R). intros s1.
  walk. by apply (walk_core R R_core).
Qed.

#[local] Hint Resolve walk_ack_remaining : within.


(** *** Putting streams on paths *)
Lemma walk_no_path : within R (Sched.noPath env around now).
Proof. apply (within_bind R); [auto with within|]. intros wufs. walk. Qed.

Lemma walk_assign_to counted sid choice s :
  is_Some (streams (Sess.sessionMap s) !! sid) -> ss_streamToPath s !! sid = None ->
  R s (Sched.assignTo env around now counted sid choice s).1.
Proof.
  intros Hs Ha. destruct choice as [pid|]; [|apply walk_no_path].
  apply (within_bind_post R); [by apply R_assign|]. intros s' [] _. apply (within_ret R).
Qed.

(** A path is chosen for a stream that has none. *)
Lemma walk_chosen (m : Call session (option Z)) (k : option Z -> Call session bool) s sid :
  within R m -> within same_assignment m ->
  is_Some (streams (Sess.sessionMap s) !! sid) -> ss_streamToPath s !! sid = None ->
  (forall s' choice, is_Some (streams (Sess.sessionMap s') !! sid) -> ss_streamToPath s' !! sid = None -> R s' (k choice s').1) ->
  R s (mbind k m s).1.
Proof.
  intros HR Hsame Hs Ha Hk. apply (within_bind_post R); [apply HR|]. intros s' choice E.
  pose proof (Hsame s) as [E1 E2]. rewrite E in E1, E2. cbn [fst] in E1, E2. apply Hk; [by rewrite E1|by rewrite E2].
Qed.

Lemma walk_assign_path multiple sid s :
  is_Some (streams (Sess.sessionMap s) !! sid) -> R s (Sched.assignPath env around now multiple sid s).1.
Proof.
  intros Hs. unfold Sched.assignPath. rewrite (call_bind_ret get _ s s s) by done.
  case_bool_decide as Ha; [apply (within_ret R)|]. apply eq_None_not_Some in Ha.
  assert (Hlow : forall counted, R s ((pth ← Sched.findPathLowLatency env; Sched.assignTo env around now counted sid pth) s).1).
  { intros counted. apply (walk_chosen _ _ _ sid); [by apply walk_low_latency| |done..|intros; by apply walk_assign_to].
    apply (walk_low_latency env same_assignment), same_assignment_core. }
  destruct (isClient _); [apply Hlow|]. destruct (_ || _); [apply Hlow|]. destruct (_ <? _); [apply (within_ret R)|].
  destruct multiple.
  - apply (walk_chosen _ _ _ sid); [by apply walk_choose_rl|by apply (walk_choose_rl env around same_assignment)|done..|]. intros. by apply walk_assign_to.
  - apply (walk_chosen _ _ _ sid); [by apply walk_choose| |done..|].
    + by apply (walk_choose env same_assignment).
    + intros s' choice Hs' Ha'. rewrite (call_bind_ret get _ s' s' s') by done.
      destruct (_ && _); [apply (within_ret R)|by apply walk_assign_to].
Qed.

Lemma walk_iterate multiple : forall ids, within R (Sched.iterateSchedule env around now multiple ids).
Proof.
  induction ids as [|id ids IH]; cbn [Sched.iterateSchedule]; [auto with within|]. apply (within_get R). intros s.
  destruct (streams (Sess.sessionMap s) !! id) eqn:E; [|apply (within_raise R)].
  apply (within_bind_post R); [apply walk_assign_path; eauto|]. intros s' [] _; [apply IH|apply (within_ret R)].
Qed.

Lemma walk_schedule_to multiple : within R (Sched.scheduleTo env around now multiple).
Proof.
  apply (within_bind R).
  - apply (within_get R). intros s. apply (within_bind_post R).
    + unfold Sess.onTree. pose proof (R_tree s) as Ht.
      match goal with |- context [Tree.schedule ?f ?c (ss_tree s)] => specialize (Ht f c); destruct (Tree.schedule f c (ss_tree s)) end.
      exact Ht.
    + intros s' [|x l] _; [apply (within_ret R)|]. apply (within_bind_post R); [apply R_order|]. intros s2 [] _. apply (within_ret R).
  - intros ok. destruct (negb ok); [auto with within|]. apply (walk_get R). intros s. apply walk_iterate.
Qed.

Lemma walk_path_scheduler : within R (Sched.pathScheduler env around now).
Proof. apply (walk_get R). intros s. repeat case_match; auto with within; apply walk_schedule_to. Qed.

(** *** Sending *)
Lemma walk_perform wufs id : within R (Sched.performPacketSending env around now wufs id).
Proof.
  apply (within_bind R); [apply (walk_with_any R); intros p; walk|]. intros []. apply (within_bind R); [auto with within|].
  intros [packet|]; walk. by apply (walk_core R R_core).
Qed.

Lemma walk_resend packet id : within R (Sched.resendHandshake env now packet id).
Proof.
  apply (within_bind R); [auto with within|]. intros swf. apply (within_bind R).
  { destruct swf; [auto with within|by apply (walk_core R R_core)]. }
  intros []. apply (within_bind R); [|auto with within]. apply walk_packing. intros pk v.
  unfold Packer.PackHandshakeRetransmission. by repeat case_match; simplify_eq.
Qed.

Lemma walk_queue_all {F} (pop : streamFramer -> streamFramer * option F) frame id :
  (forall f, fr_streamsMap (pop f).1 = fr_streamsMap f /\ fr_flowControl (pop f).1 = fr_flowControl f) ->
  forall fuel, within R (Sched.queueAll fuel pop frame id).
Proof.
  intros Hpop. induction fuel as [|fuel IH]; cbn [Sched.queueAll]; [auto with within|]. apply (within_get R). intros s.
  specialize (Hpop (Sess.framer s)). destruct (pop (Sess.framer s)) as [fr f]. destruct Hpop as [E1 E2].
  apply (within_bind_post R).
  - apply R_core. unfold sendCore, core, Sess.sessionMap, Sess.flowControl, Sess.framer, Sess.parameters. cbn in *.
    by rewrite E1, E2.
  - intros s' [] _. destruct f as [f|]; [|apply (within_ret R)]. apply (within_bind R); auto with within.
Qed.

Lemma walk_queue_frames id : within R (Sched.queueFrames id).
Proof.
  apply (walk_get R). intros s. apply (within_bind R); [|intros []; apply (within_bind R); [|intros []]]; apply walk_queue_all;
    intros f; unfold Framer.PopClosePathFrame, Framer.PopAddAddressFrame, Framer.PopPathsFrame; by case_match.
Qed.

#[local] Hint Resolve walk_perform walk_resend walk_queue_frames : within.

Lemma walk_send_streams id : forall n st, within R (Sched.sendStreams env around now n id st).
Proof.
  induction n as [|n IH]; intros st; cbn [Sched.sendStreams]; [auto with within|]. apply (walk_with_any R). intros p.
  destruct (negb _); [auto with within|]. apply (within_bind R); [auto with within|]. intros [has handshake].
  apply (walk_get R). intros s. apply (within_bind R); [destruct handshake; auto with within|]. intros [].
  apply (within_bind R); [auto with within|]. intros ack. apply (within_bind R); [destruct ack; auto with within|]. intros [].
  apply (within_bind R); [walk|]. intros []. apply (within_bind R); [auto with within|]. intros [].
  apply (within_bind R); [auto with within|]. intros sent. destruct (negb sent); auto with within.
Qed.

Lemma walk_path_loop num start : forall n i st, within R (Sched.pathLoop env around now n i num start st).
Proof.
  induction n as [|n IH]; intros i st; cbn [Sched.pathLoop]; [auto with within|]. apply (walk_get R). intros s.
  destruct (_ !! _) as [pid|]; [|auto with within]. apply (within_bind R); [|intros st'; apply IH].
  apply (within_bind R); [apply (walk_with R); intros s1 p Hp; by apply (R_path s1 pid p); [|apply ps_least_unacked]|].
  intros []. apply (within_bind R); [apply (walk_with_any R); intros p; apply walk_send_streams|]. intros st'.
  apply (within_bind R); [by apply (walk_core R R_core)|auto with within].
Qed.

Lemma walk_rounds num start : forall fuel ups, within R (Sched.sendRounds env around now fuel num start ups).
Proof.
  induction fuel as [|fuel IH]; intros ups; cbn [Sched.sendRounds]; [auto with within|].
  apply (within_bind R); [apply walk_path_loop|]. intros st. destruct (_ || _); auto with within.
Qed.

(** Whatever [sendPacket] does to the session is allowed by the relation. *)
Lemma walk_send_packet fuel : within R (Sched.sendPacket env around now fuel).
Proof.
  apply (within_bind R); [apply walk_path_scheduler|]. intros _. apply (within_bind R); [auto with within|]. intros wufs.
  apply (within_bind R); [walk|]. intros []. apply (walk_get R). intros s. apply walk_rounds.
Qed.

Lemma closeLocal_core e s : sendCore (Sess.closeLocal e s) = sendCore s.
Proof. unfold Sess.closeLocal, Sess.closeWith. by destruct (ss_closed s). Qed.

Lemma walk_close_if b e : within R (Sched.closeIf b e).
Proof. apply (walk_core R R_core). intros s. destruct (b s); [apply closeLocal_core|done]. Qed.

(** The same for the end of a round of the run loop. *)
Lemma walk_after_event fuel : within R Sess.garbageCollectStreams -> within R (Sched.afterEvent env around now fuel).
Proof.
  intros Hgc. apply (within_bind R).
  - apply (walk_get R). intros s. apply (within_when R). intros _. apply (within_bind R); [apply (within_forEach R); intros id; apply walk_queue|].
    intros []. by apply (walk_core R R_core).
  - intros []. apply (within_bind R); [|intros []].
    { apply (within_onError R); [apply walk_send_packet|]. intros e. apply (walk_core R R_core), closeLocal_core. }
    do 3 (apply (within_bind R); [apply walk_close_if|intros []]). apply (walk_get R). intros s.
    apply (within_bind R); [apply (within_when R); intros _; apply walk_schedule_paths|by intros []].
Qed.
End Walk.
