(* ===== verification/SendSafety.v ===== *)
(** * Sending keeps the session well formed

    Taking frames from the framer changes streams and flow control but no stream is lost or renamed; the crypto stream
    may be opened.  With [SchedulerSafety] a call of [sendPacket] keeps the invariant of the session, as long as the
    packet numbers stay below 2^48. *)
From S2P Require Import Prelude MinMax Float32 Float64 ByteOrder PacketNumber PacketNumberGenerator.
From S2P Require Import HandshakeMessage Frames AckRanges AckFrame PathsFrame PublicHeader Unpacker ReceivedPackets.
From S2P Require Import FrameSorter FlowControl ConnectionParameters StreamToPath StreamTree Stream StreamsMap.
From S2P Require Import StreamFramer PacketPacker SentPackets Session Scheduler SessionSafety SchedulerSafety.

Open Scope Z_scope.
Open Scope go_scope.

(** ** The framer *)
Section Framer.
Context (N : Z) (pers : Perspective).

Definition framer_ok (f : streamFramer) : Prop :=
  (exists hist, map_inv N pers ((fr_streamsMap f, fr_flowControl f), hist)) /\ same_dom (fr_streamsMap f, fr_flowControl f).

(** Streams are added at most. *)
Definition framer_grows (f f' : streamFramer) : Prop :=
  framer_ok f -> framer_ok f' /\ openStreams (fr_streamsMap f) `prefix_of` openStreams (fr_streamsMap f') /\
  forall id, is_Some (streams (fr_streamsMap f) !! id) -> is_Some (streams (fr_streamsMap f') !! id).

#[export] Instance framer_grows_preorder : PreOrder framer_grows.
Proof.
  split; [by intros f|]. intros f1 f2 f3 H1 H2 Hf. destruct (H1 Hf) as (Hf2 & P1 & S1).
  destruct (H2 Hf2) as (Hf3 & P2 & S2). split; [done|]. split; [by etrans|auto].
Qed.

(** Only the queues or flow control change. *)
Lemma framer_grows_fc f f' :
  fr_streamsMap f' = fr_streamsMap f ->
  dom (streamFlowController (fr_flowControl f')) = dom (streamFlowController (fr_flowControl f)) -> framer_grows f f'.
Proof.
  intros Em Ed [[hist Hmap] Hd]. unfold framer_ok, same_dom in *. rewrite Em. cbn [fst snd] in *. split; [|done]. split.
  - exists hist. eapply step_inv; [apply step_flow_control|exact Hmap].
  - by rewrite Ed.
Qed.

(** A stream changes, but not its ID. *)
Lemma framer_grows_stream f m fc id str str' :
  streams (fr_streamsMap f) !! id = Some str -> str_id str' = str_id str ->
  m = fr_streamsMap f <| streams := <[id := str']> (streams (fr_streamsMap f)) |> ->
  dom (streamFlowController fc) = dom (streamFlowController (fr_flowControl f)) ->
  framer_grows f (f <| fr_streamsMap := m |> <| fr_flowControl := fc |>).
Proof.
  intros Hs Hid -> Ed [[hist Hmap] Hd]. unfold framer_ok, same_dom in *. cbn in *. split; [split|split].
  - exists hist. eapply step_inv; [apply step_flow_control|]. eapply step_inv; [|exact Hmap]. by eapply step_stream.
  - rewrite Ed, Hd. symmetry. apply dom_insert_lookup_L. eauto.
  - done.
  - intros x Hx. destruct (decide (id = x)) as [->|]; [rewrite lookup_insert_eq; eauto|by rewrite lookup_insert_ne].
Qed.

(** *** The crypto stream *)
Lemma cryptoStream_grows h f : framer_grows f (Framer.cryptoStream h f).1.
Proof.
  intros [[hist Hmap] Hd]. unfold Framer.cryptoStream.
  pose proof (same_dom_get h 1 _ Hd) as Hdom.
  pose proof (GetOrOpenStream_extends h 1 (fr_streamsMap f, fr_flowControl f)) as Hext.
  pose proof (GetOrOpenStream_ok h (fr_streamsMap f) (fr_flowControl f) hist 1 (proj1 Hmap) ltac:(lia)) as Hget.
  destruct (StreamsMap.GetOrOpenStream h 1 _) as [[m fc] r] eqn:E. cbn [fst snd] in *.
  pose proof (step_inv N pers _ _ (step_get N h 1 _ _ hist (m, fc) r ltac:(lia) E) Hmap) as Hinv. cbn.
  split; [split; [by eexists|done]|]. split.
  - destruct r; [apply Hget|apply Hget|by destruct Hget].
  - intros x Hx. destruct (Hext x) as [->|[Hn _]]; [done|]. rewrite Hn in Hx. by destruct Hx.
Qed.

Lemma hasCrypto_grows h f : framer_grows f (Framer.HasCryptoStreamFrame h f).1.
Proof.
  pose proof (cryptoStream_grows h f) as H. unfold Framer.HasCryptoStreamFrame.
  destruct (Framer.cryptoStream h f) as [f' []]; exact H.
Qed.

Lemma getDataForWriting_id n s : str_id (Stream.getDataForWriting n s).2 = str_id s.
Proof. unfold Stream.getDataForWriting. repeat case_match; by simplify_eq. Qed.

Lemma cryptoStream_lookup h f f' cs :
  Framer.cryptoStream h f = (f', Some cs) -> streams (fr_streamsMap f') !! 1 = Some cs.
Proof.
  unfold Framer.cryptoStream, StreamsMap.GetOrOpenStream. intros E.
  repeat (case_match; simplify_eq; cbn in *; try done).
Qed.

Lemma popCrypto_grows h maxLen f : framer_grows f (Framer.PopCryptoStreamFrame h maxLen f).1.
Proof.
  unfold Framer.PopCryptoStreamFrame. pose proof (hasCrypto_grows h f) as H1.
  destruct (Framer.HasCryptoStreamFrame h f) as [f1 [[]| |]]; [|exact H1..]. cbn [fst] in H1.
  pose proof (cryptoStream_grows h f1) as H2. destruct (Framer.cryptoStream h f1) as [f2 [cs|]] eqn:E2; cbn [fst] in H2;
    [|etrans; [exact H1|exact H2]].
  destruct (Stream.getDataForWriting _ cs) as [data cs'] eqn:Ed. cbn [fst]. etrans; [exact H1|]. etrans; [exact H2|].
  apply cryptoStream_lookup in E2. pose proof (getDataForWriting_id (maxLen -64 headerLen (mkStreamFrame 1 false false (writeOffset cs) [])) cs) as Hid.
  rewrite Ed in Hid. by eapply (framer_grows_stream f2 _ (fr_flowControl f2) 1 cs cs').
Qed.

(** *** Streams of a path *)
Lemma popRetransmissions_dom wanted maxLen : forall queue fc len,
  dom (streamFlowController (Framer.popRetransmissions wanted maxLen queue fc len).1.2) = dom (streamFlowController fc).
Proof.
  induction queue as [|frame queue IH]; intros fc len; [done|]. cbn [Framer.popRetransmissions].
  destruct (negb (wanted frame)).
  - specialize (IH fc len). by destruct (Framer.popRetransmissions wanted maxLen queue fc len) as [[[]]].
  - cbv zeta. destruct (_ <=? _); [done|]. destruct (maybeSplitOffFrame _ _) as [[]|].
    + apply onBoth_dom.
    + match goal with |- context [Framer.popRetransmissions _ _ _ ?fc' ?l] => specialize (IH fc' l);
        destruct (Framer.popRetransmissions wanted maxLen queue fc' l) as [[[]]] end. cbn in *. rewrite IH. apply onBoth_dom.
Qed.

Lemma popRetransmissionsOf_grows wanted maxLen f : framer_grows f (Framer.popRetransmissionsOf wanted maxLen f).1.1.
Proof.
  unfold Framer.popRetransmissionsOf.
  pose proof (popRetransmissions_dom wanted maxLen (fr_retransmissionQueue f) (fr_flowControl f) 0) as Hd.
  destruct (Framer.popRetransmissions _ _ _ _ _) as [[[]]]. by apply framer_grows_fc.
Qed.

Lemma popFrame_frame cp mayTake maxBytes s x :
  let '(s', x', _, _) := Framer.popFrame cp mayTake maxBytes s x in
  str_id s' = str_id s /\ dom (streamFlowController (ps_fc x')) = dom (streamFlowController (ps_fc x)).
Proof.
  unfold Framer.popFrame. destruct (_ =? 1); [done|]. cbv zeta. destruct (_ <? _); [done|].
  match goal with |- context [if ?b then (s, x, None, true) else _] => destruct b; [done|] end.
  match goal with |- context [if ?b then Stream.getDataForWriting ?n s else (None, s)] =>
    assert (Hid : str_id (if b then Stream.getDataForWriting n s else (None, s)).2 = str_id s)
      by (destruct b; [apply getDataForWriting_id|done]);
    destruct (if b then Stream.getDataForWriting n s else (None, s)) as [data s1] end. cbn [snd] in Hid.
  destruct (_ && _); [done|]. cbn. split; [by destruct (Stream.shouldSendFin s1)|]. apply onBoth_dom.
Qed.

(** An iteration over streams with a function that keeps their IDs and the controllers of flow control. *)
Section Iterate.
Context {X : Type} (fc : X -> flowControlManager) (fn : @StreamsMap.streamLambda X).
Context (Hfn : forall s x, let '(s', x', _) := fn s x in
  str_id s' = str_id s /\ dom (streamFlowController (fc x')) = dom (streamFlowController (fc x))).

(** The framer as it would be after the iteration. *)
Notation at_ f m x := (f <| fr_streamsMap := m |> <| fr_flowControl := fc x |>).

Lemma iterateFunc_grows f id m x :
  let '(m', x', _) := StreamsMap.iterateFunc id fn m x in framer_grows (at_ f m x) (at_ f m' x').
Proof.
  unfold StreamsMap.iterateFunc. destruct (streams m !! id) as [s|] eqn:E; [|reflexivity].
  specialize (Hfn s x). destruct (fn s x) as [[s' x'] r]. destruct Hfn as [Hid Hd].
  by apply (framer_grows_stream (at_ f m x) _ (fc x') id s s').
Qed.

Lemma popHeaderStream_grows f : forall ids m x,
  let '(m', x', _) := StreamsMap.popHeaderStream ids fn m x in framer_grows (at_ f m x) (at_ f m' x').
Proof.
  induction ids as [|id ids IH]; intros m x; cbn [StreamsMap.popHeaderStream]; [reflexivity|].
  destruct (id =? 3).
  - pose proof (iterateFunc_grows f id m x) as H. destruct (StreamsMap.iterateFunc id fn m x) as [[m1 x1] [cont e]].
    specialize (IH m1 x1). destruct (StreamsMap.popHeaderStream ids fn m1 x1) as [[m2 x2] r].
    destruct e as [e|]; [destruct (bool_decide _)|]; [destruct cont|..|destruct cont]; try exact H; etrans; [exact H|exact IH|exact H|exact IH].
  - destruct (streams m !! id); [apply IH|reflexivity].
Qed.

Lemma priorityIterate_grows f ids cid m x :
  let '(m', x', _) := StreamsMap.PriorityIteratePopOfPath ids cid fn m x in framer_grows (at_ f m x) (at_ f m' x').
Proof.
  unfold StreamsMap.PriorityIteratePopOfPath. pose proof (popHeaderStream_grows f ids m x) as H.
  destruct (StreamsMap.popHeaderStream ids fn m x) as [[m1 x1] [[]| |]]; [|exact H..]. destruct (cid =? 0); [exact H|].
  pose proof (iterateFunc_grows f cid m1 x1) as H2. destruct (StreamsMap.iterateFunc cid fn m1 x1) as [[m2 x2] [cont []]];
    (etrans; [exact H|exact H2]).
Qed.
End Iterate.

Lemma popOfPath_grows {F} cp (positive : F -> bool) (minus : F -> Z -> F) sched maxLen ids cid volume f :
  framer_grows f (Framer.PopStreamFramesOfPath cp positive minus sched maxLen ids cid volume f).1.1.
Proof.
  unfold Framer.PopStreamFramesOfPath, Framer.maybePopFramesForRetransmissionOfPath.
  pose proof (popRetransmissionsOf_grows (fun frame => existsb (Z.eqb (StreamID frame)) ids) maxLen f) as H1.
  destruct (Framer.popRetransmissionsOf _ _ f) as [[f1 fs] len]. cbn [fst] in H1. unfold Framer.maybePopNormalFramesOfPath.
  set (fn := Framer.popLambdaOfPath cp positive minus sched (maxLen -64 len)).
  assert (Hfn : forall str x, let '(s', x', _) := fn str x in str_id s' = str_id str /\
    dom (streamFlowController (ps_fc x'.1)) = dom (streamFlowController (ps_fc x.1))).
  { intros str [x vol]. unfold fn, Framer.popLambdaOfPath.
    match goal with |- context [Framer.popFrame cp ?may ?n str x] =>
      pose proof (popFrame_frame cp may n str x) as Hp; destruct (Framer.popFrame cp may n str x) as [[[s' x'] frame] cont] end.
    exact Hp. }
  pose proof (priorityIterate_grows (fun x => ps_fc x.1) fn Hfn f1 ids cid (fr_streamsMap f1) (Framer.startPop f1, volume)) as H2.
  destruct (StreamsMap.PriorityIteratePopOfPath ids cid fn _ _) as [[m [x vol]] r]. cbn [fst]. etrans; [exact H1|].
  etrans; [|etrans; [exact H2|]]; by apply framer_grows_fc.
Qed.

End Framer.

(** ** The packer *)
Section Pop.
Context {X : Type} (G : streamFramer * X -> streamFramer * X -> Prop) `{!PreOrder G}.
Context (pop : Packer.popper X) (cs : CryptoSetup) (room : Z -> Prop).
Context (G_pop : forall maxLen f x, room maxLen -> G (f, x) (pop maxLen f x).1).
Context (G_queue : forall f x q, G (f, x) (f <| blockedFrameQueue := q |>, x)).
Context (G_crypto : forall h f x, G (f, x) ((Framer.HasCryptoStreamFrame h f).1, x)).
Context (G_cryptoData : forall h maxLen f x, G (f, x) ((Framer.PopCryptoStreamFrame h maxLen f).1, x)).

(** The room for the frames of a packet whose header has [n] bytes *)
Definition frameRoom (n : Z) : Z := MaxPacketSize -64 Overhead (GetSealer cs).2 -64 n.
Context (G_room : forall p pth n len,
  Header.GetLength (Packer.getPublicHeader cs (GetSealer cs).1 p pth) (pk_perspective p) = Ret n ->
  0 <= len <= frameRoom n -> room (frameRoom n +64 2 -64 len)).

Definition packs_by (p : packetPacker) (x : X) (p' : packetPacker) (x' : X) : Prop :=
  G (pk_framer p, x) (pk_framer p', x') /\ pk_parameters p' = pk_parameters p.

Lemma packs_by_same p p' x : pk_framer p' = pk_framer p -> pk_parameters p' = pk_parameters p -> packs_by p x p' x.
Proof. intros E1 E2. split; [rewrite E1; reflexivity|done]. Qed.

Lemma packs_by_trans p1 x1 p2 x2 p3 x3 : packs_by p1 x1 p2 x2 -> packs_by p2 x2 p3 x3 -> packs_by p1 x1 p3 x3.
Proof. intros [H1 E1] [H2 E2]. split; [etrans; [exact H1|exact H2]|congruence]. Qed.

Lemma takeControlFrames_len maxFrameSize : forall reversed len,
  0 <= len -> match (Packer.takeControlFrames maxFrameSize reversed len).2 with Ret n => 0 <= n | _ => True end.
Proof.
  induction reversed as [|f fs IH]; intros len Hlen; cbn [Packer.takeControlFrames]; [done|].
  destruct (minLength f) as [n| |]; [|done..]. destruct (_ <? _); [done|].
  specialize (IH (len +64 n) (proj1 (u64_range _))).
  by destruct (Packer.takeControlFrames maxFrameSize fs (len +64 n)) as [[taken kept] r].
Qed.

Lemma takeQueued_len f acc fs n : 0 <= acc.2 -> Packer.takeQueued f acc = Ret (fs, n) -> 0 <= n.
Proof.
  intros Hacc. destruct f as [f|]; cbn; [|by intros [= ->]]. destruct (minLength f); cbn; [|done..].
  intros [= _ <-]. apply u64_range.
Qed.

Lemma composeControl_len maxFrameSize id p p' fs n :
  Packer.composeControl maxFrameSize id p = (p', Ret (fs, n)) ->
  0 <= n <= maxFrameSize /\ pk_framer p' = pk_framer p /\ pk_parameters p' = pk_parameters p.
Proof.
  unfold Packer.composeControl. destruct (Packer.takeQueued (FStopWaiting <$> _) _) as [acc| |] eqn:E1; cbn; [|done..].
  destruct (Packer.takeQueued (FAck <$> _) acc) as [[fs' n']| |] eqn:E2; [|done..].
  assert (Hacc : 0 <= acc.2) by (destruct acc; by eapply takeQueued_len in E1).
  apply takeQueued_len in E2; [|done]. pose proof (takeControlFrames_len maxFrameSize (reverse (controlFrames p)) n' E2) as Hl.
  destruct (Packer.takeControlFrames _ _ _) as [[taken kept] [len| |]]; cbn; [|done..]. cbn in Hl.
  destruct (Z.ltb_spec maxFrameSize len); [done|]. intros E. simplify_eq. done.
Qed.

Lemma composeControl_same maxFrameSize id p :
  pk_framer (Packer.composeControl maxFrameSize id p).1 = pk_framer p /\
  pk_parameters (Packer.composeControl maxFrameSize id p).1 = pk_parameters p.
Proof. unfold Packer.composeControl. repeat case_match; done. Qed.

Lemma composeWith_by size can id p x :
  (forall len, 0 <= len <= size -> room (size +64 2 -64 len)) ->
  packs_by p x (Packer.composeWith pop size can id p x).1.1 (Packer.composeWith pop size can id p x).1.2.
Proof.
  intros Hroom. unfold Packer.composeWith. destruct (composeControl_same size id p) as [E1 E2].
  destruct (Packer.composeControl size id p) as [p1 [[fs len]| |]] eqn:Ec; cbn [fst snd] in *; [|by apply packs_by_same..].
  destruct (negb can); [by apply packs_by_same|]. apply composeControl_len in Ec as [Hlen _].
  pose proof (G_pop _ (pk_framer p1) x (Hroom len Hlen)) as Hg.
  destruct (pop _ (pk_framer p1) x) as [[f x'] r]. cbn [fst] in Hg.
  eapply packs_by_trans; [by apply (packs_by_same p p1)|].
  destruct r; (split; [|done]); cbn; [etrans; [exact Hg|]; apply G_queue|exact Hg..].
Qed.

Lemma packCrypto_by parseIPv6 now rand p pth x :
  packs_by p x (Packer.packCryptoPacket parseIPv6 now cs rand p pth).1.1 x.
Proof.
  unfold Packer.packCryptoPacket. destruct (GetSealerForCryptoStream cs) as [level sealer]. cbv zeta.
  destruct (Header.GetLength _ _) as [n| |]; [|by apply packs_by_same..].
  match goal with |- context [Framer.PopCryptoStreamFrame ?h ?n ?f] =>
    pose proof (G_cryptoData h n f x) as H; destruct (Framer.PopCryptoStreamFrame h n f) as [f' [[]| |]] end; cbn [fst] in H |- *.
  2-4: by split.
  destruct (Packer.writeAndSealPacket _ _ _ _ _ _ _ _) as [pth' raw]. by split.
Qed.

Lemma payloadOf_by h n level id p x :
  (forall len, 0 <= len <= frameRoom n -> room (frameRoom n +64 2 -64 len)) ->
  let r := Packer.payloadOf pop h n level (GetSealer cs).2 id p x in packs_by p x r.1.1 r.1.2.
Proof.
  intros Hroom. unfold Packer.payloadOf. cbv zeta. repeat case_match; try (by apply composeWith_by). by apply packs_by_same.
Qed.

(** What a call of the packer does to the framer and the volumes is allowed by the relation. *)
Lemma packWith_by parseIPv6 now rand p pth x :
  let r := Packer.packWith parseIPv6 now cs pop rand p pth x in packs_by p x r.1.1.1 r.1.2.
Proof.
  unfold Packer.packWith. cbv zeta. pose proof (G_crypto (pk_parameters p) (pk_framer p) x) as Hc.
  destruct (Framer.HasCryptoStreamFrame _ _) as [f [[]| |]]; cbn [fst] in Hc; [| |by split..].
  - pose proof (packCrypto_by parseIPv6 now rand (p <| pk_framer := f |>) pth x) as Hp.
    destruct (Packer.packCryptoPacket _ _ _ _ _ _) as [[p' pth'] r]. eapply packs_by_trans; [|exact Hp]. by split.
  - pose proof (G_room (p <| pk_framer := f |>) pth) as Hroom. pose proof payloadOf_by as Hpay. revert Hroom Hpay.
    unfold frameRoom. destruct (GetSealer cs) as [level sealer]. cbn [fst snd]. intros Hroom Hpay.
    set (p1 := p <| pk_framer := f |>) in *. assert (H1 : packs_by p x p1 x) by (by split).
    destruct (Header.GetLength _ _) as [n| |]; [|exact H1..]. specialize (Hroom n).
    match goal with |- context [Packer.numberStopWaiting ?h ?i p1] => set (p2 := Packer.numberStopWaiting h i p1) end.
    assert (H2 : packs_by p x p2 x).
    { eapply packs_by_trans; [exact H1|]. unfold p2, Packer.numberStopWaiting. case_match; by apply packs_by_same. }
    match goal with |- context [Packer.payloadOf pop ?a ?b ?c ?d ?e p2 x] => specialize (Hpay a b c e p2 x); cbv zeta in Hpay;
      destruct (Packer.payloadOf pop a b c d e p2 x) as [[p3 x'] r] end. cbn [fst snd] in Hpay.
    assert (H3 : packs_by p x p3 x') by (eapply packs_by_trans; [exact H2|]; apply Hpay; intros len; by apply Hroom).
    destruct r as [fs| |]; [|exact H3..]. destruct (Packer.nothingToSend _ _ _); [exact H3|].
    destruct (Packer.writeAndSealPacket _ _ _ _ _ _ _ _) as [pth' raw]. eapply packs_by_trans; [exact H3|]. by apply packs_by_same.
Qed.
End Pop.

(** The packer only adds streams. *)
Definition packer_grows (N : Z) (pers : Perspective) (p p' : packetPacker) : Prop :=
  framer_grows N pers (pk_framer p) (pk_framer p') /\ pk_parameters p' = pk_parameters p.

Lemma packOfPath_grows {F} N pers parseIPv6 now cs (positive : F -> bool) (minus : F -> Z -> F) sched ids cid rand p pth volume :
  packer_grows N pers p (Packer.PackPacketOfPath parseIPv6 now cs positive minus sched ids cid rand p pth volume).1.1.1.
Proof.
  set (G := fun a b : streamFramer * (Z -> F) => framer_grows N pers a.1 b.1).
  assert (PreOrder G) by (split; [intros ?; unfold G; reflexivity|intros x y z H1 H2; unfold G in *; by etrans]).
  apply (packWith_by G _ cs (fun _ => True)); try done.
  all: intros; unfold G; cbn [fst].
  - apply popOfPath_grows.
  - apply hasCrypto_grows.
  - apply popCrypto_grows.
Qed.

(** ** The paths *)
Section Sending.
Context {C : Type} `{!SendAlgorithm C} (N : Z) (env : environment C) (around : surroundings) (now : Z).
Notation session := (session C).
Notation path := (path C).
Implicit Types s : session.
Implicit Types p : path.

(** Packet numbers are not used up. *)
Definition numbers_left s : Prop :=
  forall id p, ss_paths s !! id = Some p -> lastSentPacketNumber (pa_sent p) < maxPacketNumber.

(** Packet numbers grow, and the session stays well formed while they last. *)
Definition numbers_grow s s' : Prop :=
  forall id p, ss_paths s !! id = Some p -> exists p', ss_paths s' !! id = Some p' /\
    lastSentPacketNumber (pa_sent p) <= lastSentPacketNumber (pa_sent p').

Definition sending s s' : Prop := numbers_grow s s' /\ (session_ok N s -> numbers_left s' -> session_ok N s').

#[export] Instance numbers_grow_preorder : PreOrder numbers_grow.
Proof.
  split; [intros s id p Hp; eauto with lia|]. intros s1 s2 s3 L1 L2 id p Hp.
  destruct (L1 id p Hp) as (p2 & Hp2 & ?). destruct (L2 id p2 Hp2) as (p3 & Hp3 & ?). exists p3. split; [done|lia].
Qed.

#[export] Instance sending_preorder : PreOrder sending.
Proof.
  split.
  - intros s. by split.
  - intros s1 s2 s3 [L1 H1] [L2 H2]. split.
    + by etrans.
    + intros Hs Hn. apply H2; [|done]. apply H1; [done|]. intros id p Hp. destruct (L2 id p Hp) as (p3 & Hp3 & ?).
      specialize (Hn id p3 Hp3). lia.
Qed.

(** The paths do not change. *)
Lemma sending_same s s' : ss_paths s' = ss_paths s -> (session_ok N s -> session_ok N s') -> sending s s'.
Proof. intros E H. split; [|auto]. intros id p. rewrite E. eauto with lia. Qed.

Lemma sent_last (h : sentPacketHandler C) t packet :
  let h' := (Sent.SentPacket h t packet).1 in
  h' = h \/ lastSentPacketNumber h < pkt_Number packet /\ lastSentPacketNumber h' = pkt_Number packet.
Proof.
  unfold Sent.SentPacket. destruct (Z.leb_spec (pkt_Number packet) (lastSentPacketNumber h)); [by left|].
  destruct (_ <? _); [by left|]. right. split; [lia|]. cbn [fst]. unfold Sent.updateLossDetectionAlarm, Sent.recordPacket.
  by repeat case_match.
Qed.

Lemma received_inv_ack h t : received_inv h -> received_inv (Handler.GetAckFrame h t).1.
Proof.
  intros [rs Hok]. destruct (Handler.GetAckFrame h t) as [h' [ack| |]] eqn:E.
  - exists rs. by eapply ack_ok.
  - unfold Handler.GetAckFrame in E. repeat case_match; simplify_eq. by exists rs.
  - unfold Handler.GetAckFrame in E. repeat case_match; simplify_eq. by exists rs.
Qed.

Lemma path_step_ok id p p' : path_step p p' ->
  pa_streamIDs p' = pa_streamIDs p /\ lastSentPacketNumber (pa_sent p) <= lastSentPacketNumber (pa_sent p') /\
  (lastSentPacketNumber (pa_sent p') < maxPacketNumber -> path_ok id p -> path_ok id p').
Proof.
  intros Hstep. destruct Hstep as [p|p force|p t packet|p t|p raw|p|p n|p v].
  - split; [done|]. unfold Sent.DequeuePacketForRetransmission.
    destruct (retransmissionQueue (pa_sent p)) eqn:E; (split; [cbn; lia|]); intros _ [H1 H2 [g Hg] H4]; split; try done; cbn.
    + by exists g.
    + eapply (sent_inv_step (pa_sent p) g); [exact Hg|]. pose proof (step_dequeue (pa_sent p) g) as Hs.
      unfold Sent.DequeuePacketForRetransmission in Hs. rewrite E in Hs. exact Hs.
  - unfold Path.GetStopWaitingFrame. split; [by destruct (Sent.GetStopWaitingFrame _ _)|].
    pose proof (fun g => step_stop_waiting (pa_sent p) g force) as Hs.
    assert (El : lastSentPacketNumber (Sent.GetStopWaitingFrame (pa_sent p) force).1 = lastSentPacketNumber (pa_sent p)).
    { unfold Sent.GetStopWaitingFrame. by destruct (StopWaitingManager.GetStopWaitingFrame _ _). }
    destruct (Sent.GetStopWaitingFrame (pa_sent p) force) as [h f]. cbn in *. split; [lia|].
    intros _ [H1 H2 [g Hg] H4]. split; try done. by eapply sent_inv_step.
  - split; [done|]. cbn. destruct (sent_last (pa_sent p) t packet) as [E|[Hl E]].
    + rewrite E. split; [lia|]. intros _ []. by split.
    + rewrite E. split; [lia|]. intros Hn [H1 H2 [g Hg] H4]. split; try done. cbn.
      eapply sent_inv_step; [exact Hg|by apply step_send].
  - unfold Path.GetAckFrame. pose proof (received_inv_ack (pa_received p) t) as Hr.
    destruct (Handler.GetAckFrame (pa_received p) t) as [h [[ack|]| |]]; cbn in *; (split; [done|]); (split; [lia|]);
      intros _ []; split; auto. destruct (Hr po_received) as [rs []]. exists rs. by split.
  - split; [done|]. split; [cbn; lia|]. intros _ []. by split.
  - split; [done|]. split; [cbn; lia|]. intros _ []. by split.
  - split; [done|]. split; [cbn; lia|]. intros _ []. by split.
  - split; [done|]. split; [cbn; lia|]. intros _ []. by split.
Qed.

Lemma sending_path s id p p' :
  ss_paths s !! id = Some p -> path_step p p' -> sending s (s <| ss_paths := <[id := p']> (ss_paths s) |>).
Proof.
  intros Hp Hstep. destruct (path_step_ok id p p' Hstep) as (Hids & Hl & Hok). split.
  - intros x q Hq. cbn. destruct (decide (id = x)) as [->|].
    + exists p'. rewrite lookup_insert_eq. split; [done|]. congruence.
    + exists q. rewrite lookup_insert_ne by done. split; [done|lia].
  - intros Hs Hn. eapply session_ok_path; [exact Hs|exact Hp| |done]. apply Hok; [|by apply (sk_paths _ _ Hs)].
    apply (Hn id). cbn. apply lookup_insert_eq.
Qed.

Lemma sending_core s s' : sendCore s' = sendCore s -> sending s s'.
Proof.
  intros E. assert (Ec : core s' = core s) by exact (f_equal (fun x => x.1.1) E). apply sending_same.
  - exact (f_equal (fun x => x.1.1.1.1.1.1.1.1.2) Ec).
  - by apply (session_ok_core N s s').
Qed.

Lemma sending_flow s fc :
  dom (streamFlowController fc) = dom (streamFlowController (Sess.flowControl s)) ->
  sending s (Sess.setMapState (Sess.sessionMap s, fc) s).
Proof.
  intros Hd. apply sending_same; [done|]. intros Hs. destruct (sk_map _ _ Hs) as [hist Hmap].
  eapply (during_streams N s s _ hist); [by split|eapply step_inv; [apply step_flow_control|exact Hmap]| |done].
  pose proof (sk_flow _ _ Hs) as Hf. unfold same_dom in *. cbn in *. congruence.
Qed.

Lemma sending_order s ids : sending s (Sched.setPriorityOrder ids s).
Proof.
  apply sending_same; [done|]. intros Hs. destruct (sk_map _ _ Hs) as [hist Hmap].
  eapply (during_streams N s s _ hist); [by split| |apply Hs|done].
  eapply same_inv; [| |exact Hmap]; [by split|]. apply Hmap.
Qed.

Lemma sending_tree s fin checked : sending s (s <| ss_tree := (Tree.schedule fin checked (ss_tree s)).1 |>).
Proof.
  apply sending_same; [done|]. intros []. split; try done. cbn. by apply ordered_schedule.
Qed.

Lemma info_ok s sid f :
  (forall i pid, is_Some (si_pathVolume i !! pid) -> is_Some (si_pathVolume (f i) !! pid)) ->
  session_ok N s -> session_ok N (Sess.changeInfo sid f s).
Proof.
  intros Hf []. split; try done. intros x pid Hin.
  destruct (sk_assigned x pid Hin) as (H1 & H2 & H3). split; [done|]. split; [|done].
  unfold Sess.infoOf at 1. cbn. destruct (decide (sid = x)) as [->|].
  - rewrite lookup_insert_eq. by apply Hf.
  - by rewrite lookup_insert_ne.
Qed.

Lemma sending_info s sid f :
  (forall i pid, is_Some (si_pathVolume i !! pid) -> is_Some (si_pathVolume (f i) !! pid)) ->
  sending s (Sess.changeInfo sid f s).
Proof. intros Hf. apply sending_same; [done|]. by apply info_ok. Qed.

(** *** A stream is put on a path *)
Lemma assign_eq counted sid pid s p :
  ss_paths s !! pid = Some p ->
  exists n, Sched.assign counted sid pid s =
    (Sess.changeInfo sid (fun i => i <| si_pathVolume := <[pid := f64.zero]> (si_pathVolume i) |>)
       (s <| ss_streamToPath := Assignment.Add (ss_streamToPath s) sid pid |>)
       <| ss_paths := <[pid := p <| pa_streamIDs := pa_streamIDs p ++ [sid] |>]> (ss_paths s) |> <| ss_numstreams := n |>, Ret tt).
Proof.
  intros Hp. unfold Sched.assign. rewrite (withPath_eq _ _ p) by done.
  unfold mbind, call_bind, update, Sess.setPath. destruct counted; cbn [when]; eexists; reflexivity.
Qed.

Lemma Add_None m sid pid : m !! sid = None -> Assignment.Add m sid pid = <[sid := [pid]]> m.
Proof. intros E. unfold Assignment.Add, pathsOf. by rewrite E. Qed.

Lemma sending_assign counted sid pid s :
  is_Some (streams (Sess.sessionMap s) !! sid) -> ss_streamToPath s !! sid = None ->
  sending s (Sched.assign counted sid pid s).1.
Proof.
  intros Hopen Hnone. destruct (ss_paths s !! pid) as [p|] eqn:Hp.
  2: { unfold Sched.assign, Sess.withPath, mbind, call_bind, get. rewrite Hp. reflexivity. }
  destruct (assign_eq counted sid pid s p Hp) as [n ->]. cbn [fst]. rewrite (Add_None _ _ _ Hnone). split.
  { intros x q Hq. cbn. destruct (decide (pid = x)) as [->|].
    - rewrite lookup_insert_eq. eexists. split; [done|]. simplify_eq. cbn. lia.
    - rewrite lookup_insert_ne by done. eauto with lia. }
  intros [] _. assert (Hpath : forall x, is_Some (ss_paths s !! x) ->
    is_Some (<[pid := p <| pa_streamIDs := pa_streamIDs p ++ [sid] |>]> (ss_paths s) !! x)).
  { intros x Hx. destruct (decide (pid = x)) as [->|]; [rewrite lookup_insert_eq; eauto|by rewrite lookup_insert_ne]. }
  assert (Hfree : pathsOf (ss_streamToPath s) sid = []) by (unfold pathsOf; by rewrite Hnone).
  split; cbn; auto.
  - apply map_Forall_insert_2; [|done]. by destruct (sk_paths pid p Hp).
  - eapply Forall_impl; [done|auto].
  - apply assignment_ok_insert; [done|done|apply NoDup_singleton].
  - intros x y. rewrite pathsOf_insert. unfold Sess.infoOf at 1. cbn. case_decide as Hx.
    + subst. intros ->%list_elem_of_singleton. split; [done|]. rewrite lookup_insert_eq. cbn. rewrite !lookup_insert_eq.
      split; [eauto|]. eexists. split; [done|]. cbn. set_solver.
    + intros Hin. destruct (sk_assigned x y Hin) as (H1 & H2 & q & Hq & H3). split; [done|].
      rewrite lookup_insert_ne by done. split; [done|]. destruct (decide (pid = y)) as [->|].
      * rewrite lookup_insert_eq. eexists. split; [done|]. cbn. simplify_eq. set_solver.
      * rewrite lookup_insert_ne by done. eauto.
  - intros y q Hq Hc. assert (Hlisted : forall q0 x, ss_paths s !! y = Some q0 -> x ∈ pa_streamIDs q0 ->
      x <> sid /\ y ∈ pathsOf (ss_streamToPath s) x).
    { intros q0 x Hq0 Hx. destruct (sk_streamIDs y q0 Hq0 Hc) as [_ Hin]. specialize (Hin x Hx). split; [|done].
      intros ->. rewrite Hfree in Hin. set_solver. }
    destruct (decide (pid = y)) as [->|].
    + rewrite lookup_insert_eq in Hq. simplify_eq. cbn. destruct (sk_streamIDs y p Hp Hc) as [Hnd _]. split.
      * apply NoDup_app. split; [done|]. split; [|apply NoDup_singleton]. intros x Hx ->%list_elem_of_singleton.
        by destruct (Hlisted p sid Hp Hx).
      * intros x [Hx| ->%list_elem_of_singleton]%elem_of_app; rewrite pathsOf_insert.
        -- destruct (Hlisted p x Hp Hx). by rewrite decide_False.
        -- rewrite decide_True by done. set_solver.
    + rewrite lookup_insert_ne in Hq by done. destruct (sk_streamIDs y q Hq Hc) as [Hnd _]. split; [done|].
      intros x Hx. rewrite pathsOf_insert. destruct (Hlisted q x Hq Hx). by rewrite decide_False.
Qed.

(** *** Packets with data *)
Lemma bind_lift_state {St A B} (m : Call St A) (r : outcome B) (x : St) : ((m ≫= fun _ => lift r) x).1 = (m x).1.
Proof. unfold mbind, call_bind. by destruct (m x) as [x' []]. Qed.

Lemma add_streams_paths weight ids s : ss_paths (forEach ids (Sess.addStream weight) s).1 = ss_paths s.
Proof.
  assert (H : within (fun s s' => ss_paths s' = ss_paths s) (forEach ids (Sess.addStream (C := C) weight))); [|apply H].
  assert (PreOrder (fun s s' : session => ss_paths s' = ss_paths s)) by (split; [done|intros ?????; congruence]).
  apply (within_forEach _). intros id. apply (within_bind _); [done|]. intros [] s1. unfold Sess.onTree.
  by destruct (Tree.addNode id (ss_tree s1)).
Qed.

(** A call of the packer that may take data from the streams. *)
Lemma packed_ok s id p pk v :
  ss_paths s !! id = Some p -> packer_grows N (ss_perspective s) (ss_packer s) pk -> session_ok N s ->
  let s1 := s <| ss_packer := pk |> <| ss_paths := <[id := Path.fromView v p]> (ss_paths s) |> in
  let new := drop (length (openStreams (Sess.sessionMap s))) (openStreams (fr_streamsMap (pk_framer pk))) in
  session_ok N s1 /\ session_ok N (forEach new (Sess.addStream defaultWeight) s1).1.
Proof.
  intros Hp [Hg _] Hs s1 new. set (st := (fr_streamsMap (pk_framer pk), fr_flowControl (pk_framer pk))).
  destruct Hg as ([[hist Hmap] Hd] & Hpre & Hsome); [split; [apply Hs|apply Hs]|].
  assert (Hs1 : session_ok N s1).
  { cut (session_ok N (s <| ss_packer := pk |> <| ss_paths := <[id := Path.fromView v p]> (ss_paths (s <| ss_packer := pk |>)) |>)); [intros Hok; exact Hok|].
    eapply session_ok_path; [|exact Hp| |done].
    - eapply session_ok_core; [|apply (during_streams N s s st hist); [by split|done|done|done]]. done.
    - destruct (sk_paths _ _ Hs id p Hp). by split. }
  split; [done|]. destruct (add_streams_keeps N s1 defaultWeight new s1) as (s2 & -> & Hs2 & _); [|by split|apply Hs2].
  apply (new_streams_free N s s st hist); [by split|done|done].
Qed.

Lemma sending_packing {A} id (pack : packetPacker -> packerPath -> packetPacker * packerPath * outcome A) :
  (forall pers pk v, packer_grows N pers pk (pack pk v).1.1) -> within sending (Sess.packing id pack).
Proof.
  intros Hpack s. unfold Sess.packing, Sess.withPath. rewrite (call_bind_ret get _ s s s) by done.
  destruct (ss_paths s !! id) as [p|] eqn:Hp; [|reflexivity]. cbv beta.
  specialize (Hpack (ss_perspective s) (ss_packer s) (Path.view (ss_handshakeComplete s) p)).
  destruct (pack _ _) as [[pk v] r]. cbn [fst] in Hpack.
  pose proof (packed_ok s id p pk v Hp Hpack) as Hok. cbv zeta in Hok.
  match goal with |- context [forEach ?l ?m] => pose proof (add_streams_paths defaultWeight l) as Hpaths end.
  match goal with |- sending s (mbind _ _ ?x).1 => set (s1 := x) in * end. specialize (Hpaths s1).
  rewrite bind_lift_state. split.
  - intros x q Hq. rewrite Hpaths. cbn. destruct (decide (id = x)) as [->|].
    + rewrite lookup_insert_eq. eexists. split; [done|]. simplify_eq. cbn. lia.
    + rewrite lookup_insert_ne by done. eauto with lia.
  - intros Hs _. by apply Hok.
Qed.

Lemma sending_volumes id volume ids : forall s, sending s (foldl (Sched.setVolume id volume) s ids).
Proof.
  induction ids as [|sid ids IH]; intros s; [reflexivity|]. cbn [foldl]. etrans; [|apply IH]. unfold Sched.setVolume.
  destruct (volume sid); [|reflexivity]. apply sending_info. intros i pid Hpid. cbn.
  destruct (decide (id = pid)) as [->|]; [rewrite lookup_insert_eq; eauto|by rewrite lookup_insert_ne].
Qed.

Lemma sending_pack id : within sending (Sched.packPacketOfPath env around now id).
Proof.
  apply (walk_with_any sending). intros p. apply (walk_get sending). intros s. apply (within_bind sending).
  - apply sending_packing. intros pers pk v.
    pose proof (packOfPath_grows N pers (env_parseIPv6 env) now (env_crypto env) Sched.volumePositive Sched.volumeMinus
      (ss_pathScheduler s) (pa_streamIDs p) (Sched.selectFlow env around p s) (Sess.nextRand env v) pk v
      (Sched.volumesOn id s)) as Hg.
    by destruct (Packer.PackPacketOfPath _ _ _ _ _ _ _ _ _ _ _ _) as [[[pk' v'] volume] r].
  - intros [volume r]. apply (within_bind sending); [|auto with within]. intros s1. apply sending_volumes.
Qed.

(** *** Streams are collected *)
Lemma sending_gc :
  (forall s, session_ok N s -> session_ok N (Sess.garbageCollectStreams s).1) ->
  within sending (Sess.garbageCollectStreams (C := C)).
Proof.
  intros Hgc s. split; [|auto]. revert s. change (within numbers_grow (Sess.garbageCollectStreams (C := C))).
  apply (walk_get numbers_grow). intros s. apply (within_onError numbers_grow); [|intros; auto with within].
  apply (within_forEach numbers_grow). intros id. apply (walk_get numbers_grow). intros s1.
  destruct (streams (Sess.sessionMap s1) !! id) as [str|]; [|auto with within].
  destruct (negb _); [auto with within|]. destruct (StreamsMap.RemoveStream _ _) as [m r].
  apply (within_bind numbers_grow); [intros s2 x p; eauto with lia|]. intros [].
  apply (within_bind numbers_grow); [|intros []; apply (within_bind numbers_grow); [auto with within|]].
  - apply (within_forEach numbers_grow). intros pid. apply (within_bind numbers_grow); [|intros [] s2 x p; eauto with lia].
    apply walk_with; [apply _|]. intros s2 p Hp x q Hq. cbn. destruct (decide (pid = x)) as [->|].
    + rewrite lookup_insert_eq. eexists. split; [done|]. simplify_eq. cbn. lia.
    + rewrite lookup_insert_ne by done. eauto with lia.
  - intros [] s2 x p. eauto with lia.
Qed.

(** A round of the run loop keeps the session well formed. *)
Lemma sending_keeps fuel :
  (forall s, session_ok N s -> session_ok N (Sess.garbageCollectStreams s).1) ->
  within sending (Sched.afterEvent env around now fuel).
Proof.
  intros Hgc. apply walk_after_event.
  - apply _.
  - apply sending_core.
  - apply sending_path.
  - apply sending_flow.
  - apply sending_order.
  - apply sending_tree.
  - intros s sid size b. by apply sending_info.
  - apply sending_assign.
  - apply sending_pack.
  - by apply sending_gc.
Qed.
End Sending.
