(* ===== verification/SessionRun.v ===== *)
(** * Runs of a session

    What happens to a session while its run loop runs: packets arrive, the timers of the paths expire, packets
    are sent, finished streams are collected, the keys change, the application uses its streams and sets their
    priorities, and the goroutines of the paths stop.  In every state that is reached the session is well formed, and a packet that is
    well formed and harmless never makes it panic. *)
From S2P Require Import Prelude MinMax ByteOrder PacketNumber PacketNumberGenerator HandshakeMessage.
From S2P Require Import Frames AckRanges AckFrame PathsFrame PublicHeader Unpacker ReceivedPackets.
From S2P Require Import FrameSorter FlowControl ConnectionParameters StreamToPath StreamTree Stream StreamsMap.
From S2P Require Import StreamFramer PacketPacker SentPackets Session Scheduler SessionSafety SchedulerSafety SendSafety.

Open Scope Z_scope.
Open Scope go_scope.

(** ** Streams *)
Lemma RemoveStream_streams id m : streams (StreamsMap.RemoveStream id m).1 = delete id (streams m).
Proof.
  unfold StreamsMap.RemoveStream. destruct (streams m !! id) eqn:E; [|cbn; by rewrite delete_id].
  repeat case_match; done.
Qed.

Lemma readLoop_frame now len : forall fuel bytes s f,
  let '(s', f', _) := Stream.readLoop fuel now len bytes s f in
  str_id s' = str_id s /\ dom (streamFlowController f') = dom (streamFlowController f).
Proof.
  induction fuel as [|fuel IH]; intros bytes s f; [done|]. cbn [Stream.readLoop].
  repeat (case_match; try done).
  all: try match goal with H : Stream.readFrame _ _ _ _ = _ |- _ => unfold Stream.readFrame in H end; simplify_eq.
  all: try match goal with H : Stream.readLoop ?n ?t ?l ?b ?s1 ?f1 = _ |- _ =>
         specialize (IH b s1 f1); rewrite H in IH; destruct IH as [-> ->] end.
  all: unfold Manager.AddBytesRead; split; [done|]; repeat case_match; rewrite ?onBoth_dom; done.
Qed.

(** The calls of the application on a stream; [Read] is the call up to the point where it returns or
    waits, and what it does when it goes on. *)
Inductive app_call :=
  | AppCall (c : stream_call)
  | AppRead (now len : Z)
  | AppResume (now len : Z).

Definition callApp (c : app_call) (str : stream) (f : flowControlManager) : stream * flowControlManager * outcome unit :=
  match c with
  | AppCall c => (callStream c str, f, Ret tt)
  | AppRead now len => let '(str, f, _) := Stream.Read now len str f in (str, f, Ret tt)
  | AppResume now len => let '(str, f, _) := Stream.readResume now len str f in (str, f, Ret tt)
  end.

Lemma callStream_id c str : str_id (callStream c str) = str_id str.
Proof.
  destruct c; cbn [callStream]; unfold Stream.Write, Stream.SetReadDeadline, Stream.SetWriteDeadline, Stream.Cancel,
    Stream.Reset, Stream.RegisterRemoteError, Stream.sendReset, Stream.getDataForWriting, Stream.signalRead,
    Stream.signalWrite, Stream.onData, Stream.onReset; by repeat (case_match; cbn; simplify_eq).
Qed.

Lemma callApp_ok c str f : stream_call_ok (callApp c str f) str f.
Proof.
  assert (Hread : forall now len, let '(s', f', _) := Stream.readResume now len str f in
    str_id s' = str_id str /\ dom (streamFlowController f') = dom (streamFlowController f)).
  { intros now len. apply readLoop_frame. }
  destruct c as [c|now len|now len]; cbn [callApp].
  - split; [apply callStream_id|done].
  - unfold Stream.Read. specialize (Hread now len). unfold Stream.readResume in Hread.
    repeat case_match; simplify_eq; try done; by destruct Hread.
  - specialize (Hread now len). destruct (Stream.readResume _ _ _ _) as [[? ?] ?]. by destruct Hread.
Qed.

(** ** Finished streams *)
Lemma removeFirst_spec id l :
  (forall x, x <> id -> x ∈ Sess.removeFirst id l <-> x ∈ l) /\
  (NoDup l -> NoDup (Sess.removeFirst id l) /\ id ∉ Sess.removeFirst id l).
Proof.
  unfold Sess.removeFirst. destruct (StreamsMap.indexOf id l) as [i|] eqn:E.
  - destruct (indexOf_Some _ _ _ E) as (l1 & l2 & -> & ->). split; [set_solver|].
    intros H%NoDup_app. destruct H as (H1 & H2 & H3). apply NoDup_cons in H3 as [H3 H4].
    split; [apply NoDup_app; set_solver|set_solver].
  - apply indexOf_None in E. done.
Qed.

Section Runs.
Context {C : Type} `{!SendAlgorithm C} (N : Z) (env : environment C).
Notation session := (session C).
Notation path := (path C).
Implicit Types s : session.
Implicit Types p : path.

(** The path [p] became [p'] when the stream [id] was removed; [listed]: it was one of its paths. *)
Record forgot (id : Z) (listed : Prop) (p p' : path) : Prop := {
  fg_id : pa_pathID p' = pa_pathID p;
  fg_conn : pa_conn p' = pa_conn p;
  fg_sent : pa_sent p' = pa_sent p;
  fg_received : pa_received p' = pa_received p;
  fg_others : forall x, x <> id -> x ∈ pa_streamIDs p' <-> x ∈ pa_streamIDs p;
  fg_nodup : NoDup (pa_streamIDs p) -> NoDup (pa_streamIDs p') /\ (listed -> id ∉ pa_streamIDs p') /\
    (id ∉ pa_streamIDs p -> id ∉ pa_streamIDs p')
}.

Lemma forgot_refl id p : forgot id False p p.
Proof. by split. Qed.

Lemma forgot_step id (l : Prop) p p' :
  forgot id l (p <| pa_streamIDs := Sess.removeFirst id (pa_streamIDs p) |>
    <| pa_streamOrder := Sess.removeFirst id (pa_streamOrder p) |>
    <| pa_streamQuota := delete id (pa_streamQuota p) |>) p' -> forgot id True p p'.
Proof.
  destruct (removeFirst_spec id (pa_streamIDs p)) as [H1 H2]. intros [? ? ? ? Ho Hn]. split; cbn in *; try done.
  - intros x Hx. by rewrite Ho, H1.
  - intros Hnd. destruct (H2 Hnd) as [Hnd' Hni]. destruct (Hn Hnd') as (? & ? & ?). auto.
Qed.

Lemma forgot_weaken id (l l' : Prop) p p' : (l' -> l) -> forgot id l p p' -> forgot id l' p p'.
Proof. intros Hl []. split; try done. naive_solver. Qed.

(** What the loop over the paths of the stream changes. *)
Lemma forget_all id l : forall s,
  Forall (fun pid => is_Some (ss_paths s !! pid)) l ->
  exists paths n, forEach l (Sess.forgetOnPath id) s = (s <| ss_paths := paths |> <| ss_numstreams := n |>, Ret tt) /\
    forall pid, option_Forall2 (forgot id (pid ∈ l)) (ss_paths s !! pid) (paths !! pid).
Proof.
  induction l as [|pid l IH]; intros s Hl; cbn [forEach].
  - exists (ss_paths s), (ss_numstreams s). split; [by destruct s|]. intros x.
    destruct (ss_paths s !! x); constructor. eapply forgot_weaken; [|apply forgot_refl]. set_solver.
  - apply Forall_cons in Hl as [[p Hp] Hl]. unfold mbind, call_bind, Sess.forgetOnPath at 1. unfold Sess.changePath.
    unfold mbind, call_bind. rewrite (withPath_eq _ _ p) by done. cbn [Sess.setPath update].
    match goal with |- context [forEach l _ ?s1] => destruct (IH s1) as (paths & n & E & Hf) end.
    { eapply Forall_impl; [exact Hl|]. intros x Hx. cbn. destruct (decide (pid = x)) as [->|];
        [rewrite lookup_insert_eq; eauto|by rewrite lookup_insert_ne]. }
    rewrite E. exists paths, n. split; [done|]. intros x. specialize (Hf x). cbn in Hf.
    destruct (decide (pid = x)) as [->|].
    + rewrite lookup_insert_eq in Hf. rewrite Hp. inversion Hf as [? q Hq|]; subst. constructor.
      eapply forgot_weaken; [|by eapply forgot_step]. done.
    + rewrite lookup_insert_ne in Hf by done. inversion Hf as [? q Hq|]; subst; constructor.
      eapply forgot_weaken; [|exact Hq]. set_solver.
Qed.

(** A stream is gone when all records of it are. *)
Lemma session_ok_without s s' id :
  session_ok N s ->
  ss_openPaths s' = ss_openPaths s -> ss_closedPaths s' = ss_closedPaths s -> ss_pathManager s' = ss_pathManager s ->
  (exists hist, map_inv N (ss_perspective s') ((Sess.sessionMap s', Sess.flowControl s'), hist)) ->
  streams (Sess.sessionMap s') = delete id (streams (Sess.sessionMap s)) ->
  streamFlowController (Sess.flowControl s') = delete id (streamFlowController (Sess.flowControl s)) ->
  assignment_ok (ss_streamToPath s') ->
  (forall x, pathsOf (ss_streamToPath s') x = if decide (x = id) then [] else pathsOf (ss_streamToPath s) x) ->
  ss_info s' = ss_info s -> ss_tree s' = ss_tree s ->
  (forall pid, option_Forall2 (forgot id (pid ∈ pathsOf (ss_streamToPath s) id)) (ss_paths s !! pid) (ss_paths s' !! pid)) ->
  session_ok N s'.
Proof.
  intros [? Hok ? ? ? ? Hdom ? ? Hassigned Hids] E1 E2 E3 Hmap Es Ef Ha Ep Ev Et Hpaths.
  assert (Hsome : forall x, is_Some (ss_paths s !! x) -> is_Some (ss_paths s' !! x)).
  { intros x [p Hp]. specialize (Hpaths x). rewrite Hp in Hpaths. inversion Hpaths; eauto. }
  assert (Hback : forall x p', ss_paths s' !! x = Some p' -> exists p, ss_paths s !! x = Some p /\
    forgot id (x ∈ pathsOf (ss_streamToPath s) id) p p').
  { intros x p' Hp'. specialize (Hpaths x). rewrite Hp' in Hpaths. inversion Hpaths; eauto. }
  split; rewrite ?E1, ?E2, ?E3, ?Et; auto.
  - intros x p' Hp'. destruct (Hback x p' Hp') as (p & Hp & []). destruct (Hok x p Hp). split; congruence.
  - eapply Forall_impl; [done|auto].
  - unfold same_dom in *. cbn [fst snd] in *. by rewrite Es, Ef, !dom_delete_L, Hdom.
  - intros sid pid Hin. rewrite Ep in Hin. case_decide as Hne; [set_solver|].
    destruct (Hassigned sid pid Hin) as (H1 & H2 & p & Hp & H3). unfold Sess.infoOf. rewrite Es, Ev, lookup_delete_ne by done.
    do 2 (split; [done|]). specialize (Hpaths pid). rewrite Hp in Hpaths. inversion Hpaths as [? p' Hf|]; subst.
    exists p'. split; [done|]. by apply (fg_others _ _ _ _ Hf).
  - intros pid p' Hp' Hc. destruct (Hback pid p' Hp') as (p & Hp & Hf). destruct (Hids pid p Hp Hc) as [Hnd Hin].
    destruct (fg_nodup _ _ _ _ Hf Hnd) as (Hnd' & Hni & Hni'). split; [done|]. intros sid Hsid. rewrite Ep.
    case_decide as Hsid'; [subst|by apply Hin, (fg_others _ _ _ _ Hf)]. exfalso.
    destruct (decide (id ∈ pa_streamIDs p)) as [Hl|Hl]; [|by apply Hni']. by apply Hni; [apply Hin|].
Qed.

Notation ok := (session_ok (C := C) N).
Notation keeps m := (call_ok ok m (fun _ => ok) (fun _ => ok)).

Lemma collect_keeps id : keeps (Sess.collectStream id).
Proof.
  intros s Hs. unfold Sess.collectStream, mbind, call_bind, get.
  destruct (streams (Sess.sessionMap s) !! id) as [str|] eqn:Hstr; [|done]. destruct (Stream.finished str); [|done].
  cbn [negb]. destruct (StreamsMap.RemoveStream id (Sess.sessionMap s)) as [m r] eqn:Er.
  assert (Hr : r = Ret tt). { unfold StreamsMap.RemoveStream in Er. rewrite Hstr in Er. by simplify_eq. }
  pose proof (RemoveStream_streams id (Sess.sessionMap s)) as Em. rewrite Er in Em. cbn [fst] in Em.
  cbn [update lift]. match goal with |- context [forEach _ _ ?x] => set (s1 := x) end.
  destruct (forget_all id (pathsOf (ss_streamToPath s) id) s1) as (paths & n & -> & Hf).
  { apply Forall_forall. intros pid Hpid. destruct (sk_assigned _ _ Hs id pid Hpid) as (_ & _ & p & Hp & _). eauto. }
  subst r. cbn [update]. destruct (sk_map _ _ Hs) as [hist Hmap].
  eapply (session_ok_without s _ id Hs); try done.
  - exists hist. eapply step_inv; [apply step_flow_control|]. eapply step_inv; [|exact Hmap]. by eapply step_remove.
  - cbn. unfold Assignment.Delete. case_match; [apply Hs|]. apply assignment_ok_delete, Hs.
  - intros x. cbn. unfold Assignment.Delete. case_match eqn:E; cbn; [|apply pathsOf_delete]. case_decide; congruence.
Qed.

Lemma gc_keeps : keeps Sess.garbageCollectStreams.
Proof.
  unfold Sess.garbageCollectStreams. apply call_ok_with. intros s Hs.
  eapply call_ok_weaken with (P' := ok) (Q' := fun _ => ok) (E' := fun _ => ok);
    [|by intros ? ->|done..].
  eapply call_ok_onError with (E' := fun _ => ok); [|intros e; by apply call_ok_ret].
  apply call_ok_forEach. intros id _. apply collect_keeps.
Qed.

Lemma gc_ok s : session_ok N s -> session_ok N (Sess.garbageCollectStreams s).1.
Proof. intros Hs. pose proof (gc_keeps s Hs) as Hg. by destruct (Sess.garbageCollectStreams s) as [? []]. Qed.

(** ** Other events *)
Lemma timer_keeps now id s :
  session_ok N s -> is_Some (ss_paths s !! id) ->
  let '(s', r) := Sess.onPathTimer env now id s in r = Ret tt /\ session_ok N s'.
Proof.
  intros Hs [p Hp]. unfold Sess.onPathTimer. rewrite (withPath_eq _ _ p) by done. destruct (_ && _); [|done].
  cbn [when]. pose proof (sk_paths _ _ Hs id p Hp) as Hok.
  assert (Hmark : exists s1 q, when (Sess.retransmissionTimeout (pa_sent p) && Path.onRTO p (lastSentTime (pa_sent p)))
      (Sess.setPath id (p <| pa_potentiallyFailed := true |>);; Sess.schedulePathsFrame env now) s = (s1, Ret tt) /\
      session_ok N s1 /\ ss_paths s1 !! id = Some q).
  { destruct (_ && _); [|by exists s, p]. cbn [when]. unfold mbind, call_bind, Sess.setPath, update.
    match goal with |- context [Sess.schedulePathsFrame env now ?x] => set (s1 := x) end.
    assert (Hs1 : session_ok N s1). { apply (session_ok_path N s id p); [done..| |done]. by destruct Hok. }
    destruct (schedule_paths_ret N s1 env now s1 ltac:(by split)) as (s2 & -> & E). eexists s2, _. split; [done|].
    split; [by apply (session_ok_core N s1)|]. unfold core in E. simplify_eq E. intros.
    replace (ss_paths s2) with (ss_paths s1) by congruence. cbn. apply lookup_insert_eq. }
  destruct Hmark as (s1 & q & E & Hs1 & Hq). unfold mbind, call_bind in E |- *. rewrite E. unfold Sess.changePath.
  rewrite (withPath_eq _ _ q) by done. cbn. split; [done|]. apply (session_ok_path N s1 id q); [done..| |done].
  pose proof (sk_paths _ _ Hs1 id q Hq) as Hokq. apply path_ok_sent; [done|]. apply sent_inv_alarm, Hokq.
Qed.

Lemma handlePacket_core pkt s : core (Sess.handlePacket pkt s) = core s.
Proof. unfold Sess.handlePacket. by case_match. Qed.

Lemma replay_core s : core (Sess.tryDecryptingQueuedPackets s) = core s.
Proof.
  unfold Sess.tryDecryptingQueuedPackets.
  transitivity (core (foldl (fun s pkt => Sess.handlePacket pkt s) s (ss_undecryptablePackets s))); [done|].
  generalize (ss_undecryptablePackets s). intros l. revert s. induction l as [|pkt l IH]; intros s; [done|].
  cbn [foldl]. by rewrite IH, handlePacket_core.
Qed.

Lemma queueing_core now pkt s : core (Sess.tryQueueingUndecryptablePacket now pkt s) = core s.
Proof. unfold Sess.tryQueueingUndecryptablePacket. by repeat case_match. Qed.

(** A packet ends well, or closes the session. *)
Lemma receive_ok_or_closed now Open pkt s :
  session_ok N s -> opens_bytes Open -> packet_ok env Open s pkt ->
  let '(s', r) := Sess.receivePacket env now Open pkt s in r = Ret tt /\ (session_ok N s' \/ is_Some (ss_closed s')).
Proof.
  intros Hs Hopen Hpkt. pose proof (impl_ok N env now Open s pkt Hs Hopen Hpkt) as [Hpanic Hok].
  unfold Sess.receivePacket. destruct (Sess.handlePacketImpl env now Open pkt s) as [[s' pkt'] r]. cbn in Hpanic, Hok.
  destruct r as [[]|e|why]; [| |by edestruct Hpanic].
  - split; [done|]. left. destruct Hok as [|(e & [=] & _)]; done.
  - split; [done|]. destruct (Sess.isDecryptionFailure e) eqn:E.
    + left. destruct Hok as [Hok|(e' & [= <-] & E')]; [|congruence].
      eapply session_ok_core; [apply queueing_core|done].
    + right. unfold Sess.closeLocal, Sess.closeWith. destruct (ss_closed s') eqn:Ec; [by rewrite Ec|by cbn].
Qed.

Lemma map_state_ok s st hist :
  session_ok N s -> map_inv N (ss_perspective s) (st, hist) -> same_dom st ->
  (forall id, is_Some (streams (Sess.sessionMap s) !! id) -> is_Some (streams st.1 !! id)) ->
  session_ok N (Sess.setMapState st s).
Proof. intros. by eapply (during_streams N s s st hist). Qed.

Lemma same_dom_open h st : same_dom st -> same_dom (StreamsMap.OpenStream h st).1.
Proof.
  destruct st as [m f]. intros Hd. unfold StreamsMap.OpenStream, StreamsMap.openStreamImpl. cbn [fst].
  destruct (closeErr m); [done|]. destruct (_ <=? _); [done|]. cbn [fst].
  apply (same_dom_put h (nextStream m) (m, f)); [done|]. by case_match.
Qed.

Lemma open_prefix h m f st r :
  StreamsMap.OpenStream h (m, f) = (st, r) -> openStreams m `prefix_of` openStreams st.1.
Proof.
  unfold StreamsMap.OpenStream, StreamsMap.openStreamImpl, StreamsMap.putStream. cbn [fst].
  repeat (case_match; cbn in *); intros; simplify_eq; try done; cbn; by apply prefix_app_r.
Qed.

Lemma opening_ok weight s :
  session_ok N s -> Parameters.GetMaxOutgoingStreams (Sess.parameters s) <= N ->
  nextStream (Sess.sessionMap s) < 2 ^ 32 - 2 ->
  session_ok N (Sess.opening weight (StreamsMap.OpenStream (Sess.parameters s)) s).1.
Proof.
  intros Hs HN Hnext. destruct (sk_map _ _ Hs) as [hist Hmap].
  pose proof (same_dom_open (Sess.parameters s) _ (sk_flow _ _ Hs)) as Hdom.
  assert (Hext : extends (streams (Sess.sessionMap s))
    (streams (StreamsMap.OpenStream (Sess.parameters s) (Sess.sessionMap s, Sess.flowControl s)).1.1)).
  { unfold StreamsMap.OpenStream. cbn [fst]. destruct (closeErr _); [done|]. apply openStreamImpl_extends. }
  destruct (StreamsMap.OpenStream (Sess.parameters s) (Sess.sessionMap s, Sess.flowControl s)) as [st r] eqn:E. cbn [fst] in *.
  edestruct (opening_keeps N s weight (StreamsMap.OpenStream (Sess.parameters s)) s) as (s' & -> & Hd & _); [by split| |apply Hd].
  cbv zeta. rewrite E. cbn [fst]. split; [eapply step_inv; [by eapply step_open|exact Hmap]|]. split; [done|]. split.
  - by eapply open_prefix.
  - intros x Hx. destruct (Hext x) as [->|[Hn _]]; [done|]. rewrite Hn in Hx. by destruct Hx.
Qed.

Lemma open_ok s :
  session_ok N s -> Parameters.GetMaxOutgoingStreams (Sess.parameters s) <= N ->
  nextStream (Sess.sessionMap s) < 2 ^ 32 - 2 -> session_ok N (Sess.OpenStream s).1.
Proof. apply opening_ok. Qed.

(** *** Priorities *)
Lemma on_tree_ok {A} (m : Call streamTree A) : always ordered m -> always ok (Sess.onTree m).
Proof.
  intros Hm s Hs. unfold Sess.onTree. specialize (Hm (ss_tree s)). destruct (m (ss_tree s)) as [t r]. cbn in *.
  destruct Hs. split; auto.
Qed.

Lemma set_priority_ok id priority : forward id priority -> always ok (Sess.SetStreamPriority id priority).
Proof.
  intros Hf. apply (within_bind _); [apply on_tree_ok, ordered_maybeSetWeight|]. intros [].
  by apply on_tree_ok, ordered_maybeSetParent.
Qed.

Lemma set_active_ok id : always ok (Sess.SetStreamActive id).
Proof. apply (within_onError _); [apply on_tree_ok, ordered_setActive|]. intros e. auto with within. Qed.

Lemma print_ok : always ok Sess.printTree.
Proof. intros s Hs. destruct (print_tree_keeps N s s ltac:(by split)) as (s' & -> & [Hs' _] & _). done. Qed.

Lemma get_ok id s : 0 <= id < 2 ^ 32 - 2 -> session_ok N s -> session_ok N (Sess.GetOrOpenStream id s).1.
Proof.
  intros Hid Hs. pose proof (get_stream_keeps N s id Hid s ltac:(by split)) as Hk.
  destruct (Sess.GetOrOpenStream id s) as [s' []]; [apply Hk|apply Hk|done].
Qed.

Lemma get_priority_ok call id priority s :
  0 <= id < 2 ^ 32 - 2 -> forward id priority -> session_ok N s ->
  session_ok N (Sess.GetOrOpenStreamPriority call id priority s).1.
Proof.
  intros Hid Hf Hs. pose proof (get_weighted_keeps N s (Weight priority) id Hid s ltac:(by split)) as Hk.
  unfold Sess.GetOrOpenStreamPriority. unfold mbind at 1, call_bind at 1.
  destruct (Sess.getOrOpenWith _ _ s) as [s1 [r| |]]; [|by destruct Hk..]. destruct Hk as [[Hs1 _] _].
  destruct r as [sid|]; [|done]. revert s1 Hs1.
  match goal with |- forall s1, session_ok N s1 -> session_ok N (?m s1).1 => change (always ok m) end.
  apply (within_bind _); [apply (within_onError _); [by apply set_priority_ok|intros; auto with within]|]. intros [].
  apply (within_bind _); [apply (within_when _); intros _; apply print_ok|]. intros [].
  apply (within_bind _); [|intros []; auto with within]. destruct call as [| |path]; [auto with within..|].
  intros s1 Hs1. by apply (info_ok N s1 id).
Qed.

Lemma open_sync_ok priority s :
  session_ok N s -> Parameters.GetMaxOutgoingStreams (Sess.parameters s) <= N ->
  nextStream (Sess.sessionMap s) < 2 ^ 32 - 2 ->
  (forall call prio, priority = Some (call, prio) -> forward (nextStream (Sess.sessionMap s)) prio) ->
  session_ok N (Sess.OpenStreamSync priority s).1.
Proof.
  intros Hs HN Hnext Hp. unfold Sess.OpenStreamSync. rewrite (call_bind_ret get _ s s s) by done.
  destruct (closeErr (Sess.sessionMap s)) eqn:Ec; [done|].
  match goal with |- context [onError ?m _] => assert (Hm : session_ok N (m s).1) end.
  - assert (Ho : forall weight, session_ok N (Sess.opening weight (StreamsMap.openStreamImpl (Sess.parameters s)) s).1).
    { intros weight. pose proof (opening_ok weight s Hs HN Hnext) as Ho. unfold Sess.opening, StreamsMap.OpenStream in Ho |- *.
      cbn [fst] in Ho. by rewrite Ec in Ho. }
    revert Hs. apply (within_bind_post (stays ok)); [|by intros s' id _ Hs']. destruct priority as [[call p]|]; [|by intros _].
    unfold Sess.openStreamPriorityImpl. rewrite (call_bind_ret get _ s s s) by done. cbv zeta.
    specialize (Hp call p eq_refl). apply (within_bind_post (stays ok)); [by intros _|]. intros s' id _. revert s'.
    apply (within_bind (stays ok)); [by apply set_priority_ok|]. intros [].
    apply (within_bind (stays ok)); [|intros []; auto with within]. apply (within_when (stays ok)). intros _. apply print_ok.
  - unfold onError. match type of Hm with session_ok N (?x).1 => destruct x as [s1 [r|e|why]] end; [done| |done].
    by case_decide.
Qed.

Lemma accept_ok s : session_ok N s -> session_ok N (Sess.AcceptStream s).1.
Proof.
  intros Hs. unfold Sess.AcceptStream. destruct (sk_map _ _ Hs) as [hist Hmap].
  assert (E : streams (StreamsMap.AcceptStream (Sess.sessionMap s)).1 = streams (Sess.sessionMap s)).
  { unfold StreamsMap.AcceptStream. by repeat case_match. }
  destruct (StreamsMap.AcceptStream (Sess.sessionMap s)) as [m r] eqn:Em. cbn [fst] in *.
  eapply map_state_ok; [done|eapply step_inv; [by eapply step_accept|exact Hmap]|..].
  - pose proof (sk_flow _ _ Hs) as Hd. unfold same_dom in *. cbn in *. by rewrite E.
  - cbn. by rewrite E.
Qed.

Lemma stream_ok s id c :
  session_ok N s -> is_Some (streams (Sess.sessionMap s) !! id) -> session_ok N (Sess.onStream id (callApp c) s).1.
Proof.
  intros Hs Hid. pose proof (on_stream_keeps N s id (callApp c) (callApp_ok c) s) as Hk.
  destruct (Sess.onStream id (callApp c) s) as [s' [[]| |]]; (destruct Hk as [Hk _] || destruct Hk); try done; by split.
Qed.

(** ** Runs *)

(** What happens to a session that is not closed; a packet that is received is harmless, what the session sends
    leaves packet numbers for the next packets, and a stream depends on none or, not exclusively, on one with a smaller ID. *)
Inductive session_step : session -> session -> Prop :=
  | run_queue pkt s : session_step s (Sess.handlePacket pkt s)
  | run_receive now Open pkt s :
      opens_bytes Open -> packet_ok env Open s pkt -> session_step s (Sess.receivePacket env now Open pkt s).1
  | run_timer now id s : is_Some (ss_paths s !! id) -> session_step s (Sess.onPathTimer env now id s).1
  | run_collect s : session_step s (Sess.garbageCollectStreams s).1
  | run_keys s : session_step s (Sess.tryDecryptingQueuedPackets s)
  | run_handshake s : session_step s (s <| ss_handshakeComplete := true |>)
  | run_paths now s : session_step s (Sess.schedulePathsFrame env now s).1
  | run_stop id p s :
      ss_paths s !! id = Some p -> session_step s (s <| ss_paths := <[id := Path.stop p]> (ss_paths s) |>)
  | run_drain id p s :
      ss_paths s !! id = Some p -> session_step s (s <| ss_paths := <[id := Path.drain p]> (ss_paths s) |>)
  | run_close_path id s : session_step s (Sess.closePath id false s).1
  | run_open s :
      Parameters.GetMaxOutgoingStreams (Sess.parameters s) <= N -> nextStream (Sess.sessionMap s) < 2 ^ 32 - 2 ->
      session_step s (Sess.OpenStream s).1
  | run_accept s : session_step s (Sess.AcceptStream s).1
  | run_stream id c s :
      is_Some (streams (Sess.sessionMap s) !! id) -> session_step s (Sess.onStream id (callApp c) s).1
  | run_get id s : 0 <= id < 2 ^ 32 - 2 -> session_step s (Sess.GetOrOpenStream id s).1
  | run_priority id priority s : forward id priority -> session_step s (Sess.SetStreamPriority id priority s).1
  | run_active id s : session_step s (Sess.SetStreamActive id s).1
  | run_get_priority call id priority s :
      0 <= id < 2 ^ 32 - 2 -> forward id priority -> session_step s (Sess.GetOrOpenStreamPriority call id priority s).1
  | run_open_sync priority s :
      Parameters.GetMaxOutgoingStreams (Sess.parameters s) <= N -> nextStream (Sess.sessionMap s) < 2 ^ 32 - 2 ->
      (forall call prio, priority = Some (call, prio) -> forward (nextStream (Sess.sessionMap s)) prio) ->
      session_step s (Sess.OpenStreamSync priority s).1
  | run_send around now fuel s :
      numbers_left (Sched.afterEvent env around now fuel s).1 -> session_step s (Sched.afterEvent env around now fuel s).1
  | run_close e s : session_step s (Sess.closeLocal e s).

(** The run loop ends when the session is closed. *)
Definition runs s s' : Prop := ss_closed s = None /\ session_step s s'.

Lemma run_inv s s' : session_ok N s -> session_step s s' -> session_ok N s' \/ is_Some (ss_closed s').
Proof.
  intros Hs Hstep. destruct Hstep.
  - left. eapply session_ok_core; [apply handlePacket_core|done].
  - pose proof (receive_ok_or_closed now Open pkt s Hs) as Hr. destruct (Sess.receivePacket env now Open pkt s).
    by apply Hr.
  - left. pose proof (timer_keeps now id s Hs) as Ht. destruct (Sess.onPathTimer env now id s). by apply Ht.
  - left. by apply gc_ok.
  - left. eapply session_ok_core; [apply replay_core|done].
  - left. by eapply session_ok_core; [|exact Hs].
  - left. destruct (schedule_paths_ret N s env now s ltac:(by split)) as (s' & -> & E). by apply (session_ok_core N s).
  - left. apply (session_ok_path N s id p); [done..| |done]. by destruct (sk_paths _ _ Hs id p H).
  - left. apply (session_ok_path N s id p); [done..| |done]. by destruct (sk_paths _ _ Hs id p H).
  - left. pose proof (close_path_keeps N s id s ltac:(by split)) as Hc. destruct (Sess.closePath id false s) as [s' []];
      [apply Hc|apply Hc|done].
  - left. by apply open_ok.
  - left. by apply accept_ok.
  - left. by apply stream_ok.
  - left. by apply get_ok.
  - left. by apply set_priority_ok.
  - left. by apply set_active_ok.
  - left. by apply get_priority_ok.
  - left. by apply open_sync_ok.
  - left. by apply (sending_keeps N env around now fuel gc_ok s).
  - right. unfold Sess.closeLocal, Sess.closeWith. destruct (ss_closed s) eqn:E; [by rewrite E|by cbn].
Qed.

(** *** The first state *)
Context (now0 : Z) (pers : Perspective) (version connectionID handshakeTimeout : Z) (keepAlive createPaths : bool) (pathScheduler : string).
Context (h : connectionParametersManager) (c : conn) (pm : pathManager).
Notation start := (Sess.newSession env now0 pers version connectionID handshakeTimeout keepAlive createPaths pathScheduler h c pm).

Lemma initial_ok :
  0 <= N -> has_port (conn_local c) ->
  session_ok N (Sess.initialSession env now0 pers version connectionID handshakeTimeout keepAlive createPaths pathScheduler h c pm).
Proof.
  intros HN Hc. set (s := Sess.initialSession _ _ _ _ _ _ _ _ _ _ _ _).
  set (p := Path.setup InitialPathID c version (env_newController env InitialPathID 0 0) now0).
  assert (Ep : ss_paths s = {[InitialPathID := p]}) by done.
  assert (Hempty : forall sid, pathsOf (ss_streamToPath s) sid = []) by done.
  split; rewrite ?Ep; try done.
  - apply map_Forall_singleton. split; [done..|apply sent_inv_new|apply received_inv_new].
  - apply Forall_singleton. rewrite lookup_singleton_eq. eauto.
  - exists []. by eapply map_inv_reachable.
  - unfold same_dom, s. by destruct pers.
  - apply ordered_new.
  - intros sid pid. rewrite Hempty. set_solver.
  - intros pid q Hq _. apply lookup_singleton_Some in Hq as [<- <-]. split; [constructor|]. set_solver.
Qed.

Lemma start_ok :
  0 <= N -> Parameters.GetMaxOutgoingStreams h <= N -> has_port (conn_local c) -> session_ok N start.
Proof.
  intros HN Hmax Hc. pose proof (initial_ok HN Hc) as Hi. unfold Sess.newSession, Sess.openCryptoStream.
  set (s := Sess.initialSession _ _ _ _ _ _ _ _ _ _ _ _) in *. destruct (isServer (ss_perspective s)) eqn:E.
  - apply accept_ok. pose proof (get_stream_keeps N s 1 ltac:(lia) s ltac:(by split)) as Hg.
    destruct (Sess.GetOrOpenStream 1 s) as [s' []]; [apply Hg|apply Hg|done].
  - apply open_ok; [done|done|]. subst s. cbn in E |- *. by destruct pers.
Qed.

Lemma runs_ok s :
  0 <= N -> Parameters.GetMaxOutgoingStreams h <= N -> has_port (conn_local c) -> rtc runs start s ->
  ss_closed s = None -> session_ok N s.
Proof.
  intros HN Hmax Hc Hr Hopen. assert (H0 : session_ok N start \/ is_Some (ss_closed start)) by (left; by apply start_ok).
  revert Hopen. assert (Hinv : session_ok N s \/ is_Some (ss_closed s)).
  { induction Hr as [x|x y z [Hx Hxy] _ IH]; [done|]. apply IH.
    destruct H0 as [Hok|Hcl]; [by eapply run_inv|]. rewrite Hx in Hcl. by destruct Hcl. }
  intros Hopen. destruct Hinv as [|Hcl]; [done|]. rewrite Hopen in Hcl. by destruct Hcl.
Qed.
End Runs.

(** ** Theorems *)

(** C1: In every state a session reaches from its creation through packets, timers, rounds of
    the run loop in which the scheduler assigns streams to paths and sends, collected streams, closed paths and calls
    of the application, which makes no stream depend exclusively on another or on one with a larger ID, its parts fit together: each path has well formed
    packet handlers, the streams map and flow control know the same streams, and the assignment of streams to
    paths agrees with the lists of the paths.  A packet that arrives then, with any contents but the frames
    that [frame_ok] excludes, and whose diversification nonce the crypto setup of a client takes, never makes the run loop panic, and afterwards the session is as well formed as
    before or was closed. *)
Theorem session_survives {C : Type} `{!SendAlgorithm C} (env : environment C) N now0 pers version connectionID
    handshakeTimeout keepAlive createPaths pathScheduler h c pm s now Open pkt :
  0 <= N -> Parameters.GetMaxOutgoingStreams h <= N -> has_port (conn_local c) ->
  rtc (runs N env)
    (Sess.newSession env now0 pers version connectionID handshakeTimeout keepAlive createPaths pathScheduler h c pm) s ->
  ss_closed s = None -> opens_bytes Open -> packet_ok env Open s pkt ->
  session_ok N s /\
  (let '(s', r) := Sess.receivePacket env now Open pkt s in
   r = Ret tt /\ (ss_closed s' = None -> session_ok N s')).
Proof.
  intros HN Hmax Hc Hr Hopen Ho Hpkt. assert (Hs : session_ok N s) by (by eapply runs_ok). split; [done|].
  pose proof (receive_ok_or_closed N env now Open pkt s Hs Ho Hpkt) as H.
  destruct (Sess.receivePacket env now Open pkt s) as [s' r]. destruct H as [-> [H|H]]; [done|].
  split; [done|]. intros E. rewrite E in H. by destruct H.
Qed.

(** C37: Three frames make the session panic, whatever follows them in the packet: an ACK frame for a path
    the session does not have, a PATHS frame that reports such a path as failed, and, on a server, a PATHS
    frame that names a path without an address for it. *)
Theorem hostile_frames_panic {C : Type} `{!SendAlgorithm C} (env : environment C) now id local fs (s : session C)
    (ack : AckFrame) (failed bare : PathsFrame) pid rtt pid' rtt' :
  ss_paths s !! PathID ack = None ->
  0 < pf_NumPaths failed -> head (pf_PathIDs failed) = Some pid -> head (pf_RemoteRTTs failed) = Some rtt ->
  thirtyMinutes <= rtt -> ss_paths s !! pid = None ->
  pf_NumPaths bare = 1 -> pf_PathIDs bare = [pid'] -> pf_RemoteRTTs bare = [rtt'] -> rtt' < thirtyMinutes ->
  pf_RemoteAddrsIP bare = [] ->
  isServer (ss_perspective s) = true -> is_Some (ss_pathManager s) ->
  (exists why, (Sess.handleFrames env now (FAck ack :: fs) id local s).2 = Panic why) /\
  (exists why, (Sess.handleFrames env now (FPaths failed :: fs) id local s).2 = Panic why) /\
  (exists why, (Sess.handleFrames env now (FPaths bare :: fs) id local s).2 = Panic why).
Proof.
  intros Hack Hn Hid Hrtt H30 Hpid Hb0 Hb1 Hb2 Hb3 Hb4 Hserv [pm Hpm]. unfold Sess.handleFrames. cbn [forEach].
  unfold mbind at 1, call_bind at 1, onError. split; [|split].
  - unfold Sess.handleFrame, Sess.handleAckFrame, Sess.withPath, mbind, call_bind, get. rewrite Hack. by eexists.
  - cbn [Sess.handleFrame]. unfold Sess.handlePathsFrame. destruct (Z.to_nat (pf_NumPaths failed)) as [|n] eqn:En; [lia|].
    destruct (pf_PathIDs failed) as [|x ids]; [done|]. destruct (pf_RemoteRTTs failed) as [|y rtts]; [done|].
    cbn in Hid, Hrtt. simplify_eq. cbn [Sess.learnPaths]. unfold mbind, call_bind, update.
    rewrite (proj2 (Z.leb_le thirtyMinutes rtt)) by done. cbn [when]. unfold Sess.changePath, Sess.withPath, mbind, call_bind, get.
    cbn. rewrite Hpid. by eexists.
  - cbn [Sess.handleFrame]. unfold Sess.handlePathsFrame. rewrite Hb0, Hb1, Hb2, Hb4. change (Z.to_nat 1) with 1%nat.
    cbn [Sess.learnPaths]. unfold mbind, call_bind, update, get. rewrite (proj2 (Z.leb_gt thirtyMinutes rtt')) by done.
    cbn [when mret call_ret]. unfold mret, call_ret. cbn [ss_perspective setField set_ss_remoteRTTs]. rewrite Hserv. cbn [when].
    unfold onError, Sess.withManager, mbind, call_bind, get. cbn [ss_pathManager setField set_ss_remoteRTTs]. rewrite Hpm.
    by eexists.
Qed.

Lemma adds_streams {C : Type} weight ids : forall (s : session C) t,
  forEach ids Tree.addNode (ss_tree s) = (t, Ret tt) ->
  exists s', forEach ids (Sess.addStream weight) s = (s', Ret tt) /\ ss_tree s' = t.
Proof.
  induction ids as [|id ids IH]; intros s t E; cbn [forEach] in *; [injection E as <-; by exists s|].
  unfold mbind at 1, call_bind at 1 in E. destruct (Tree.addNode id (ss_tree s)) as [t1 [[]| |]] eqn:E1; [|done..].
  unfold mbind at 1, call_bind at 1.
  assert (Ea : exists s1, Sess.addStream weight id s = (s1, Ret tt) /\ ss_tree s1 = t1).
  { unfold Sess.addStream, Sess.onTree, mbind, call_bind, update. cbn. rewrite E1. by eexists. }
  destruct Ea as (s1 & -> & <-). by apply IH.
Qed.

(** C38: A cycle of dependencies kills the process.  Let the stream tree have a set of nodes, the root among them, each
    with a child in the set, so that there is a cycle below the root, as [SetStreamPriority] and [SetStreamActive] can
    build one.  Then the next STREAM frame of the peer that opens a stream makes [GetOrOpenStream] print the tree, which never
    ends: the stack overflows, however deep the recursion may go ([fuel]). *)
Theorem dependency_cycle_panics {C : Type} (s : session C) (frame : StreamFrame) st :
  rooted (ss_tree s) -> cyclic (ss_tree s) -> streams (Sess.sessionMap s) !! StreamID frame = None ->
  StreamsMap.GetOrOpenStream (Sess.parameters s) (StreamID frame) (Sess.sessionMap s, Sess.flowControl s)
    = (st, Ret (Some (StreamID frame))) ->
  let new := drop (length (openStreams (Sess.sessionMap s))) (openStreams st.1) in
  Forall (fun id => id <> rootID /\ nodes (ss_tree s) !! id = None) new -> NoDup new ->
  (forall r, nodes (ss_tree s) !! rootID = Some r -> Z.of_nat (length (children r) + length new) < 2 ^ 16) ->
  (Sess.handleStreamFrame frame s).2 = Panic "stack overflow" /\
  let opened := (Sess.getOrOpenWith defaultWeight (StreamID frame) s).1 in
  forall fuel, (Tree.printNode fuel 0 rootID ∅ (ss_tree opened)).2 = Panic "stack overflow".
Proof.
  intros Ht Hc Hnone Hget new Hnew Hnd Hlen.
  destruct (addNodes_cyclic new (ss_tree s) Hnew Hnd Ht Hc Hlen) as (t1 & E1 & Ht1 & Hc1).
  destruct (adds_streams defaultWeight new (Sess.setMapState st s) t1 E1) as (s1 & Es1 & Et).
  assert (Eo : Sess.getOrOpenWith defaultWeight (StreamID frame) s = (s1, Ret (Some (StreamID frame)))).
  { unfold Sess.getOrOpenWith, mbind, call_bind, get, Sess.opening. rewrite Hget. fold new. unfold mbind, call_bind. by rewrite Es1. }
  split.
  - unfold Sess.handleStreamFrame, Sess.GetOrOpenStream, Sess.getOrOpen, mbind, call_bind, get. rewrite Eo.
    rewrite !bool_decide_eq_true_2 by (done || by eexists). cbn [andb when].
    destruct (print_cyclic t1 (Tree.depth t1) Ht1 Hc1) as (t2 & E2).
    unfold Sess.printTree, Sess.onTree, Tree.printTree, mbind, call_bind, get. rewrite Et, E2. done.
  - rewrite Eo. cbn [fst]. rewrite Et. intros fuel. destruct (print_cyclic t1 fuel Ht1 Hc1) as (t2 & ->). done.
Qed.

Section Example.
Definition demo_env : environment Z :=
  mkEnvironment Z (fun _ => ""%string) (fun _ => None) (fun ip => ip) (fun _ _ _ => 0) elements ex_crypto
    (fun _ _ => None) (fun _ _ _ => None).
Definition demo_conn : conn := mkConn [49; text.colon; 50] [51; text.colon; 52] [].
Definition demo_pm : pathManager := Sess.newPathManager PerspectiveServer (mkUDPAddr [10; 0; 0; 1] 443) [].
Definition demo_session : session Z :=
  Sess.newSession demo_env 1 PerspectiveServer 512 77 0 false false "SinglePath" example_parameters demo_conn demo_pm.
(** A WINDOW_UPDATE frame for stream 5 in the clear *)
Definition demo_Open (data : list Z) (_ : Z) (_ : list Z) : outcome (list Z * EncryptionLevel) :=
  Ret (map (fun b => b `mod` 256) data, EncryptionForwardSecure).
Definition demo_packet : receivedPacket :=
  mkReceivedPacket [51; text.colon; 52] (mkPublicHeader [] 77 0 false false false false 4 1 0 [] [])
    [4; 0; 0; 0; 5; 0; 0; 0; 0; 0; 1; 0; 0] 2 [49; text.colon; 50].

Lemma demo_opens : opens_bytes demo_Open.
Proof.
  intros data pn ad. cbn. apply Forall_forall. intros x Hx. apply list_elem_of_fmap in Hx as (b & -> & _).
  unfold in_range. pose proof (Z.mod_pos_bound b 256). lia.
Qed.

Lemma demo_packet_ok : packet_ok demo_env demo_Open demo_session demo_packet.
Proof.
  split.
  - unfold has_port. cbn. set_solver.
  - cbn. lia.
  - vm_compute. split; [done|reflexivity].
  - done.
  - intros packet Hu. assert (E : unpacked demo_env demo_Open demo_session demo_packet = Ret (mkUnpackedPacket
      EncryptionForwardSecure [FWindowUpdate (mkWindowUpdateFrame 5 65536)])) by (vm_compute; reflexivity).
    rewrite E in Hu. injection Hu as <-. cbn [frames]. apply Forall_singleton. cbn. lia.
Qed.

Lemma session_survives_witness :
  session_ok 100 demo_session /\
  (let '(s', r) := Sess.receivePacket demo_env 3 demo_Open demo_packet demo_session in
   r = Ret tt /\ (ss_closed s' = None -> session_ok 100 s')).
Proof.
  apply (session_survives demo_env 100 1 PerspectiveServer 512 77 0 false false "SinglePath" example_parameters demo_conn demo_pm
    demo_session 3 demo_Open demo_packet).
  - lia.
  - vm_compute. discriminate.
  - unfold has_port. cbn. set_solver.
  - apply rtc_refl.
  - vm_compute. reflexivity.
  - apply demo_opens.
  - apply demo_packet_ok.
Defined.

Definition demo_ack : AckFrame := mkAckFrame 4 1 1 [] 0 0.
Definition demo_failed : PathsFrame := mkPathsFrame 0 1 0 [4] [thirtyMinutes] [] [].
Definition demo_bare : PathsFrame := mkPathsFrame 0 1 0 [1] [0] [] [].

Lemma hostile_frames_panic_witness :
  (exists why, (Sess.handleFrames demo_env 3 [FAck demo_ack] 0 [] demo_session).2 = Panic why).
Proof.
  destruct (hostile_frames_panic demo_env 3 0 [] [] demo_session demo_ack demo_failed demo_bare 4 thirtyMinutes 1 0)
    as (H & _); try (vm_compute; reflexivity).
  - vm_compute. discriminate.
  - eexists. reflexivity.
  - exact H.
Defined.

(** The application of a server with the streams 3 to 15 sets priorities for them and sets two of them active. *)
Definition demo_dependencies : Call (session Z) unit :=
  _ ← Sess.GetOrOpenStream 15;
  forEach [7; 9; 11] (fun id => Sess.SetStreamPriority id (mkPriority 5 15 false));;
  Sess.SetStreamPriority 13 (mkPriority 5 15 true);;
  Sess.SetStreamPriority 11 (mkPriority 9 15 false);;
  Sess.SetStreamPriority 13 (mkPriority 11 15 false);;
  Sess.SetStreamActive 9;; Sess.SetStreamActive 5.
Definition demo_cycle : session Z := (demo_dependencies demo_session).1.
Definition demo_new : StreamFrame := mkStreamFrame 17 false true 0 [1].

Lemma tree_rooted {A} (m : Call streamTree A) :
  always rooted m -> always (fun s : session Z => rooted (ss_tree s)) (Sess.onTree m).
Proof. intros Hm s Hs. unfold Sess.onTree. specialize (Hm _ Hs). by destruct (m (ss_tree s)). Qed.

Lemma priority_rooted id p : always (fun s : session Z => rooted (ss_tree s)) (Sess.SetStreamPriority id p).
Proof.
  apply (within_bind _); [apply tree_rooted, rooted_always; intros D; apply rooted_maybeSetWeight|].
  intros []. apply tree_rooted, rooted_maybeSetParent.
Qed.

Lemma active_rooted id : always (fun s : session Z => rooted (ss_tree s)) (Sess.SetStreamActive id).
Proof.
  apply (within_onError _); [apply tree_rooted, rooted_always; intros D; apply rooted_setActive|].
  intros e. apply (within_ret _).
Qed.

Lemma demo_session_ok : session_ok 100 demo_session.
Proof. apply start_ok; [lia|vm_compute; discriminate|unfold has_port; cbn; set_solver]. Qed.

Lemma dependencies_rooted s : session_ok 100 s -> rooted (ss_tree (demo_dependencies s).1).
Proof.
  intros Hs. assert (H0 : rooted (ss_tree (Sess.GetOrOpenStream 15 s).1)).
  { apply ordered_rooted, (sk_tree 100), get_ok; [lia|done]. }
  unfold demo_dependencies. unfold mbind at 1, call_bind at 1.
  destruct (Sess.GetOrOpenStream 15 s) as [s0 [r| |]]; [|exact H0..]. revert s0 H0. cbn [fst].
  match goal with |- forall s0, rooted (ss_tree s0) -> rooted (ss_tree (?m s0).1) =>
    change (always (fun s : session Z => rooted (ss_tree s)) m) end.
  apply (within_bind _); [apply (within_forEach _); intros id; apply priority_rooted|]. intros [].
  do 3 (apply (within_bind _); [apply priority_rooted|intros []]).
  apply (within_bind _); [apply active_rooted|intros []]. apply active_rooted.
Qed.

Lemma demo_cycle_rooted : rooted (ss_tree demo_cycle).
Proof. exact (dependencies_rooted demo_session demo_session_ok). Qed.

Lemma demo_cycle_children :
  (fun id => children <$> nodes (ss_tree demo_cycle) !! id) <$> [0; 5; 9; 11; 13]
  = [Some [3; 15; 5]; Some [9]; Some [11]; Some [13]; Some [7; 11]].
Proof. vm_compute. reflexivity. Qed.

Lemma demo_cycle_cyclic : cyclic (ss_tree demo_cycle).
Proof.
  generalize demo_cycle_children. generalize (ss_tree demo_cycle). intros t [= H1 H2 H3 H4 H5].
  apply (cyclic_lists t [0; 5; 9; 11; 13]); [set_solver|]. repeat (apply Forall_cons; split); [..|constructor].
  - exists 5, [3; 15; 5]. split; [done|]. split; [done|]. set_solver.
  - exists 9, [9]. split; [done|]. split; [done|]. set_solver.
  - exists 11, [11]. split; [done|]. split; [done|]. set_solver.
  - exists 13, [13]. split; [done|]. split; [done|]. set_solver.
  - exists 11, [7; 11]. split; [done|]. split; [done|]. set_solver.
Qed.

Lemma dependency_cycle_panics_witness :
  (demo_dependencies demo_session).2 = Ret tt /\ (Sess.handleStreamFrame demo_new demo_cycle).2 = Panic "stack overflow".
Proof.
  split; [vm_compute; reflexivity|].
  set (get := StreamsMap.GetOrOpenStream (Sess.parameters demo_cycle) 17 (Sess.sessionMap demo_cycle, Sess.flowControl demo_cycle)).
  assert (Eget : get = (get.1, Ret (Some 17))) by (rewrite (surjective_pairing get) at 1; f_equal; vm_compute; reflexivity).
  assert (Enew : drop (length (openStreams (Sess.sessionMap demo_cycle))) (openStreams get.1.1) = [17]) by (vm_compute; reflexivity).
  apply (dependency_cycle_panics demo_cycle demo_new get.1 demo_cycle_rooted demo_cycle_cyclic); [vm_compute; reflexivity|exact Eget|..];
    rewrite Enew.
  - apply Forall_singleton. split; [done|vm_compute; reflexivity].
  - apply NoDup_singleton.
  - intros r Hr. assert (E : children <$> nodes (ss_tree demo_cycle) !! rootID = Some [3; 15; 5]) by (vm_compute; reflexivity).
    rewrite Hr in E. injection E as ->. done.
Defined.
End Example.
