(* ===== verification/SchedulerLaws.v ===== *)
(** * What the scheduler does with streams

    Theorems on the scheduler: the path it chooses for a stream, what sending does to the assignment of streams to
    paths, and two states in which a session makes no progress any more. *)
From S2P Require Import Prelude MinMax Float32 Float64 ByteOrder PacketNumber PacketNumberGenerator.
From S2P Require Import HandshakeMessage Frames AckRanges AckFrame PathsFrame PublicHeader Unpacker ReceivedPackets.
From S2P Require Import FrameSorter FlowControl ConnectionParameters StreamToPath StreamTree Stream StreamsMap.
From S2P Require Import StreamFramer PacketPacker SentPackets Session Scheduler SessionSafety SchedulerSafety SendSafety.
From S2P Require Import SessionRun.

Open Scope Z_scope.
Open Scope go_scope.

(** ** The path with the lowest latency *)
Section LowLatency.
Context {C : Type} `{!SendAlgorithm C}.
Notation session := (session C).
Notation path := (path C).
Implicit Types paths : gmap Z path.

(** [id] is as good as [id']: a round-trip time that is known and lower, or none at all and fewer packets. *)
Definition as_good (quotas : gmap Z Z) (rtt : Z) (id : Z) (rtt' : Z) (id' : Z) : Prop :=
  (rtt <> 0 -> rtt' = 0 \/ rtt <= rtt') /\
  (rtt = 0 -> rtt' = 0 /\ default 0 (quotas !! id) <= default 0 (quotas !! id')).

(** The state of the loop when the paths [l] are done. *)
Definition chosen paths (q0 : gmap Z Z) (l : list Z) (acc : option Z * Z * gmap Z Z) : Prop :=
  let '(selected, lowerRTT, quotas) := acc in
  (forall id, default 0 (quotas !! id) = default 0 (q0 !! id)) /\
  match selected with
  | None => lowerRTT = 0 /\ forall id p, id ∈ l -> paths !! id = Some p -> Sched.unusable id p = true
  | Some id => exists p, paths !! id = Some p /\ Sched.unusable id p = false /\ lowerRTT = Path.SmoothedRTT p /\
      forall id' p', id' ∈ l -> paths !! id' = Some p' -> Sched.unusable id' p' = false ->
        as_good q0 lowerRTT id (Path.SmoothedRTT p') id'
  end.

(** The path selected stays; the one just seen is not better. *)
Lemma chosen_keep paths q0 l selected lowerRTT quotas quotas' id :
  chosen paths q0 l (selected, lowerRTT, quotas) ->
  (forall x, default 0 (quotas' !! x) = default 0 (quotas !! x)) ->
  (forall p, paths !! id = Some p -> Sched.unusable id p = false ->
     exists sel, selected = Some sel /\ as_good q0 lowerRTT sel (Path.SmoothedRTT p) id) ->
  chosen paths q0 (l ++ [id]) (selected, lowerRTT, quotas').
Proof.
  intros [Hq Hsel] Hq' Hid. split; [intros x; by rewrite Hq', Hq|].
  destruct selected as [sel|].
  - destruct Hsel as (p & Hp & Hu & Hr & Hall). exists p. split; [done|]. split; [done|]. split; [done|].
    intros id' p' [Hin| ->%list_elem_of_singleton]%elem_of_app Hp' Hu'; [by eapply Hall|].
    destruct (Hid p' Hp' Hu') as (sel' & [= <-] & H). done.
  - destruct Hsel as [-> Hall]. split; [done|].
    intros id' p' [Hin| ->%list_elem_of_singleton]%elem_of_app Hp'; [by eapply Hall|].
    destruct (Sched.unusable id p') eqn:E; [done|]. by destruct (Hid p' Hp' E) as (? & [=] & _).
Qed.

(** The path just seen is selected. *)
Lemma chosen_take paths q0 l selected lowerRTT quotas quotas' id p :
  chosen paths q0 l (selected, lowerRTT, quotas) ->
  (forall x, default 0 (quotas' !! x) = default 0 (quotas !! x)) ->
  paths !! id = Some p -> Sched.unusable id p = false ->
  (forall sel rtt id', selected = Some sel -> as_good q0 lowerRTT sel rtt id' -> as_good q0 (Path.SmoothedRTT p) id rtt id') ->
  chosen paths q0 (l ++ [id]) (Some id, Path.SmoothedRTT p, quotas').
Proof.
  intros [Hq Hsel] Hq' Hp Hu Hbetter. split; [intros x; by rewrite Hq', Hq|]. exists p. do 3 (split; [done|]).
  intros id' p' [Hin| ->%list_elem_of_singleton]%elem_of_app Hp' Hu'.
  - destruct selected as [sel|].
    + destruct Hsel as (q & _ & _ & _ & Hall). eapply Hbetter; [done|]. by eapply Hall.
    + destruct Hsel as [_ Hall]. specialize (Hall id' p' Hin Hp'). congruence.
  - simplify_eq. split; intros; [lia|]. split; [done|lia].
Qed.

Lemma chosen_step paths q0 l acc id :
  chosen paths q0 l acc -> chosen paths q0 (l ++ [id]) (Sched.lowLatencyStep paths acc id).
Proof.
  destruct acc as [[selected lowerRTT] quotas]. intros Hc. unfold Sched.lowLatencyStep.
  destruct (paths !! id) as [p|] eqn:Hp; [|by eapply chosen_keep; [exact Hc|done|congruence]].
  destruct (Sched.unusable id p) eqn:Hu; [by eapply chosen_keep; [exact Hc|done|congruence]|].
  assert (Hnone : selected = None -> lowerRTT = 0). { intros ->. by destruct Hc as [_ [-> _]]. }
  assert (Hq0 : forall x, default 0 (q0 !! x) = default 0 (quotas !! x)) by (intros x; symmetry; apply Hc).
  set (rtt := Path.SmoothedRTT p).
  destruct (Z.eqb_spec lowerRTT 0) as [El|El], (Z.eqb_spec rtt 0) as [Er|Er]; cbn [negb andb].
  - (* neither is known *)
    set (quotas' := if _ : bool then _ else quotas).
    assert (Hq' : forall x, default 0 (quotas' !! x) = default 0 (quotas !! x)).
    { intros x. subst quotas'. case_bool_decide as E; [|done]. destruct (decide (id = x)) as [->|];
        [by rewrite lookup_insert_eq, E|by rewrite lookup_insert_ne]. }
    rewrite !Hq'. destruct selected as [sel|].
    + change (default 255 (Some sel)) with sel. rewrite bool_decide_eq_true_2 by eauto. cbn [andb].
      destruct (Z.ltb_spec (default 0 (quotas !! sel)) (default 0 (quotas !! id))).
      * eapply chosen_keep; [exact Hc|done|]. intros p' Hp' _. assert (p' = p) as -> by congruence. exists sel. split; [done|].
        split; [done|]. intros _. split; [done|]. rewrite !Hq0. lia.
      * eapply chosen_take; [exact Hc|done..|]. intros sel' r id' [= <-] [_ H2]. fold rtt. rewrite Er. split; [done|].
        intros _. destruct (H2 El) as [-> H3]. split; [done|]. rewrite !Hq0 in H3 |- *. lia.
    + eapply chosen_take; [exact Hc|done..|]. by intros sel r id' [=].
  - (* the path just seen is the first that is known *)
    eapply chosen_take; [exact Hc|done..|]. intros sel r id' -> [_ H2]. destruct (H2 El) as [-> _]. split; [by left|done].
  - (* only the path selected is known *)
    eapply chosen_keep; [exact Hc|done|]. intros p' Hp' _. assert (p' = p) as -> by congruence. destruct selected as [sel|]; [|by destruct El; auto].
    exists sel. split; [done|]. fold rtt. rewrite Er. split; [by left|done].
  - destruct selected as [sel|]; [|by destruct El; auto]. rewrite bool_decide_eq_true_2 by eauto. cbn [andb].
    destruct (Z.leb_spec lowerRTT rtt).
    + eapply chosen_keep; [exact Hc|done|]. intros p' Hp' _. assert (p' = p) as -> by congruence. exists sel. split; [done|].
      split; [by right|done].
    + eapply chosen_take; [exact Hc|done..|]. intros sel' r id' [= <-] [H1 _]. fold rtt. split; [|done].
      intros _. destruct (H1 El); [by left|right; lia].
Qed.

Lemma chosen_all paths q0 l : chosen paths q0 l (foldl (Sched.lowLatencyStep paths) (None, 0, q0) l).
Proof.
  induction l as [|id l IH] using rev_ind; cbn; [split; [done|]; split; [done|]; set_solver|].
  rewrite foldl_snoc. by apply chosen_step.
Qed.

(** No path is found when none is usable. *)
Lemma find_none (env : environment C) (s : session) :
  1 < Z.of_nat (size (ss_paths s)) -> (forall id p, ss_paths s !! id = Some p -> Sched.unusable id p = true) ->
  exists q, Sched.findPathLowLatency env s = (s <| ss_quotas := q |>, Ret None).
Proof.
  intros Hsize Hall. unfold Sched.findPathLowLatency, mbind, call_bind, get. rewrite (proj2 (Z.leb_gt _ _)) by done.
  pose proof (chosen_all (ss_paths s) (ss_quotas s) (env_order env (dom (ss_paths s)))) as Hc.
  destruct (foldl _ _ _) as [[[id|] rtt] quotas]; [|by eexists]. destruct Hc as (_ & p & Hp & Hu & _).
  by rewrite (Hall id p Hp) in Hu.
Qed.

(** Of two paths one is not the initial one. *)
Lemma other_path paths : 1 < Z.of_nat (size paths) -> Exists (fun id => id <> InitialPathID) (elements (dom paths)).
Proof.
  intros Hsize. rewrite <-size_dom in Hsize. unfold size, set_size in Hsize. cbn in Hsize.
  pose proof (NoDup_elements (dom paths)) as Hnd. destruct (elements (dom paths)) as [|x [|y l]]; [cbn in Hsize; lia..|].
  destruct (decide (x = InitialPathID)) as [->|]; [|by apply Exists_cons_hd]. apply Exists_cons_tl, Exists_cons_hd.
  apply NoDup_cons in Hnd as [Hni _]. set_solver.
Qed.
End LowLatency.

(** C20: With more than one path, the path a stream is put on is one that may send, has not failed and is not the
    initial one, whatever the order in which the map of paths is iterated over.  When the round-trip time of some of
    these paths is known it has the lowest of the known ones; when none is known, no other path has sent fewer
    packets.  No path is returned only if there is none.  Neither the paths nor their numbers of packets change. *)
Theorem low_latency_choice {C : Type} `{!SendAlgorithm C} (env : environment C) (s : session C) :
  (forall X, env_order env X ≡ₚ elements X) -> 1 < Z.of_nat (size (ss_paths s)) ->
  exists s' choice, Sched.findPathLowLatency env s = (s', Ret choice) /\
    ss_paths s' = ss_paths s /\ (forall id, default 0 (ss_quotas s' !! id) = default 0 (ss_quotas s !! id)) /\
    match choice with
    | None => forall id p, ss_paths s !! id = Some p -> Sched.unusable id p = true
    | Some id => exists p, ss_paths s !! id = Some p /\
        pa_open p = true /\ Path.SendingAllowed p = true /\ pa_potentiallyFailed p = false /\ id <> InitialPathID /\
        forall id' p', ss_paths s !! id' = Some p' -> Sched.unusable id' p' = false ->
          as_good (ss_quotas s) (Path.SmoothedRTT p) id (Path.SmoothedRTT p') id'
    end.
Proof.
  intros Horder Hsize. unfold Sched.findPathLowLatency, mbind, call_bind, get. rewrite (proj2 (Z.leb_gt _ _)) by done.
  assert (Hin : forall id p, ss_paths s !! id = Some p -> id ∈ env_order env (dom (ss_paths s))).
  { intros id p Hp. rewrite Horder. apply elem_of_elements, elem_of_dom. eauto. }
  pose proof (chosen_all (ss_paths s) (ss_quotas s) (env_order env (dom (ss_paths s)))) as Hc.
  destruct (foldl _ _ _) as [[selected rtt] quotas]. destruct Hc as [Hq Hsel]. cbn.
  eexists _, selected. split; [done|]. split; [done|]. split; [done|]. destruct selected as [id|].
  - destruct Hsel as (p & Hp & Hu & -> & Hall). exists p. split; [done|].
    pose proof Hu as Hu'. unfold Sched.unusable, Path.SendingAllowed in Hu'.
    apply orb_false_iff in Hu' as [[Ha Hf]%orb_false_iff Hi]. apply negb_false_iff in Ha.
    split; [by destruct (pa_open p)|]. split; [done|]. split; [done|]. split; [lia|].
    intros id' p' Hp' Hu''. by eapply Hall; [eapply Hin|..].
  - destruct Hsel as [_ Hall]. intros id p Hp. by eapply Hall; [eapply Hin|].
Qed.

(** ** A stream that is never served *)

(** The room for stream frames in a packet *)
Definition fits_packet (n : Z) : Prop := 0 <= n <= MaxPacketSize + 2.

Lemma popRetransmissions_len wanted maxLen : forall queue fc cur,
  0 <= cur <= maxLen -> maxLen < 2 ^ 63 -> 0 <= (Framer.popRetransmissions wanted maxLen queue fc cur).2 <= maxLen.
Proof.
  induction queue as [|frame rest IH]; intros fc cur Hcur Hmax; cbn [Framer.popRetransmissions]; [done|].
  destruct (negb (wanted frame)).
  { specialize (IH fc cur Hcur Hmax). by destruct (Framer.popRetransmissions wanted maxLen rest fc cur) as [[[]]]. }
  cbv zeta. pose proof (headerLen_range (withDataLen frame)) as Hh. set (n := headerLen (withDataLen frame)) in *.
  assert (E : cur +64 n = cur + n) by (usmall; done). rewrite E.
  destruct (Z.leb_spec maxLen (cur + n)); [done|]. assert (E2 : maxLen -64 (cur + n) = maxLen - (cur + n)) by (usmall; done).
  rewrite E2. unfold maybeSplitOffFrame. destruct (Z.leb_spec (DataLen (withDataLen frame)) (maxLen - (cur + n))) as [Hle|Hle].
  - assert (0 <= DataLen (withDataLen frame)) by (unfold DataLen; lia).
    assert (E3 : cur + n +64 DataLen (withDataLen frame) = cur + n + DataLen (withDataLen frame)) by (usmall; done). rewrite E3.
    match goal with |- context [Framer.popRetransmissions wanted maxLen rest ?fc' ?c] =>
      specialize (IH fc' c ltac:(lia) Hmax); destruct (Framer.popRetransmissions wanted maxLen rest fc' c) as [[[]]] end. exact IH.
  - cbn [snd]. unfold DataLen in *. cbn [Data withDataLen] in *. rewrite length_take, Nat.min_l by lia.
    rewrite Z2Nat.id by lia. assert (E3 : cur + n +64 (maxLen - (cur + n)) = maxLen) by (rewrite Zplus_minus; usmall; done).
    rewrite E3. lia.
Qed.

Section Stalled.
Context (sid : Z) (str : stream) (Hid : str_id str = sid) (Hsid : sid <> 1).
Context (Hlen : MaxPacketSize + 2 <= Stream.lenOfDataForWriting str).
Notation spent v := (notPositive (default f64.zero v)).

Lemma spent_minus (v : option float64) n : 0 <= n -> spent v -> spent (Sched.volumeMinus v n).
Proof. intros Hn Hv. by apply notPositive_sub. Qed.

(** *** The framer *)
Lemma stalled_waits : Stream.shouldSendFin str = false.
Proof.
  unfold Stream.shouldSendFin, Stream.lenOfDataForWriting in *. unfold MaxPacketSize in Hlen.
  destruct (str_err str); [cbn in Hlen; lia|]. destruct (dataForWriting str); [|cbn in Hlen; lia].
  rewrite (bool_decide_eq_false_2 (Some _ = None)) by done. apply andb_false_r.
Qed.

Lemma stalled_pop cp maxBytes x volume :
  fits_packet maxBytes -> spent (volume sid) ->
  exists cont, Framer.popLambdaOfPath cp Sched.volumePositive Sched.volumeMinus "MultiPath" maxBytes str (x, volume) =
    (str, (x, volume), (cont, None)).
Proof.
  intros Hfit Hv. unfold Framer.popLambdaOfPath, Framer.popFrame. rewrite Hid. rewrite (proj2 (Z.eqb_neq sid 1)) by done.
  set (n := headerLen _). destruct (Z.ltb_spec maxBytes (ps_currentLen x +64 n)) as [|Hn]; [by eexists|].
  assert (Hm : maxBytes -64 ps_currentLen x -64 n <= maxBytes).
  { assert (E : maxBytes -64 ps_currentLen x -64 n = maxBytes -64 (ps_currentLen x +64 n)).
    { unfold u64, uN. rewrite Zminus_mod_idemp_l, Zminus_mod_idemp_r. f_equal. lia. }
    rewrite E. pose proof (u64_range (ps_currentLen x + n)) as [H0 _]. unfold fits_packet, MaxPacketSize in Hfit.
    rewrite (uN_small 64 (maxBytes - _)) by (unfold in_range; lia). lia. }
  set (room := maxBytes -64 ps_currentLen x -64 n) in *. unfold fits_packet, MaxPacketSize in *.
  rewrite (proj2 (Z.eqb_neq (Stream.lenOfDataForWriting str) 0)) by lia. cbn [negb andb]. set (w := match _ with Ret w => w | _ => 0 end).
  destruct (_ =? 0); [by eexists|].
  assert (Hbig : (Stream.lenOfDataForWriting str <? utils.MinByteCount room w) = false).
  { apply Z.ltb_ge. unfold utils.MinByteCount. destruct (Z.ltb_spec room w); lia. }
  rewrite Hbig. unfold Sched.volumePositive. rewrite (notPositive_spec _ Hv). change (String.eqb "MultiPath" "MultiPath") with true.
  change (String.eqb "MultiPath" "SinglePath") with false. cbn [orb andb]. rewrite stalled_waits. by eexists.
Qed.

(** The stream and its volume *)
Definition held (ss : gmap Z stream) (x : popState * (Z -> option float64)) : Prop :=
  ss !! sid = Some str /\ spent (x.2 sid).

Lemma held_pop cp maxBytes ss x id s :
  fits_packet maxBytes -> held ss x -> ss !! id = Some s ->
  let r := Framer.popLambdaOfPath cp Sched.volumePositive Sched.volumeMinus "MultiPath" maxBytes s x in
  held (<[id := r.1.1]> ss) r.1.2.
Proof.
  intros Hfit [Hss Hv] Hs. destruct x as [x volume]. destruct (decide (id = sid)) as [->|Hne].
  - rewrite Hss in Hs. injection Hs as <-. destruct (stalled_pop cp maxBytes x volume Hfit Hv) as [cont ->]. cbn.
    split; [apply lookup_insert_eq|done].
  - cbv zeta. split; [by rewrite lookup_insert_ne|]. unfold Framer.popLambdaOfPath.
    destruct (Framer.popFrame _ _ _ _ _) as [[[s' x'] [frame|]] cont]; cbn in *; [|done].
    destruct (sid =? str_id s'); [|done]. apply spent_minus; [unfold DataLen; lia|done].
Qed.

Definition held_framer (a b : streamFramer * (Z -> option float64)) : Prop :=
  (streams (fr_streamsMap a.1) !! sid = Some str /\ spent (a.2 sid)) ->
  streams (fr_streamsMap b.1) !! sid = Some str /\ spent (b.2 sid).

Lemma held_popOfPath cp maxLen ids cid f volume :
  fits_packet maxLen ->
  held_framer (f, volume)
    (Framer.PopStreamFramesOfPath cp Sched.volumePositive Sched.volumeMinus "MultiPath" maxLen ids cid volume f).1.
Proof.
  intros Hfit Hheld. unfold Framer.PopStreamFramesOfPath, Framer.maybePopFramesForRetransmissionOfPath, Framer.popRetransmissionsOf.
  unfold fits_packet, MaxPacketSize in Hfit.
  match goal with |- context [Framer.popRetransmissions ?w maxLen ?q ?fc 0] =>
    pose proof (popRetransmissions_len w maxLen q fc 0 ltac:(lia) ltac:(lia)) as Hcur;
    destruct (Framer.popRetransmissions w maxLen q fc 0) as [[[res queue] fc'] cur] end. cbn [snd] in Hcur.
  assert (Hroom : fits_packet (maxLen -64 cur)) by (unfold fits_packet, MaxPacketSize; usmall; lia).
  unfold Framer.maybePopNormalFramesOfPath.
  match goal with |- context [StreamsMap.PriorityIteratePopOfPath ids cid ?fn ?m ?x] =>
    pose proof (PriorityIteratePopOfPath_inv fn held (fun ss y id s => held_pop cp _ ss y id s Hroom) ids cid m x Hheld) as Hi;
    destruct (StreamsMap.PriorityIteratePopOfPath ids cid fn m x) as [[m' [x' volume']] r] end.
  exact (proj1 Hi).
Qed.

Lemma held_crypto h f volume : held_framer (f, volume) ((Framer.cryptoStream h f).1, volume).
Proof.
  intros [Hs Hv]. unfold Framer.cryptoStream. pose proof (GetOrOpenStream_extends h 1 (fr_streamsMap f, fr_flowControl f) sid) as Hext.
  destruct (StreamsMap.GetOrOpenStream h 1 _) as [[m fc] r]. cbn in *. split; [|done].
  destruct Hext as [->|[Hn _]]; [done|]. congruence.
Qed.

Lemma held_hasCrypto h f volume : held_framer (f, volume) ((Framer.HasCryptoStreamFrame h f).1, volume).
Proof.
  pose proof (held_crypto h f volume) as H. unfold Framer.HasCryptoStreamFrame. destruct (Framer.cryptoStream h f) as [f' []]; exact H.
Qed.

Lemma held_popCrypto h maxLen f volume : held_framer (f, volume) ((Framer.PopCryptoStreamFrame h maxLen f).1, volume).
Proof.
  unfold Framer.PopCryptoStreamFrame. pose proof (held_hasCrypto h f volume) as H1.
  destruct (Framer.HasCryptoStreamFrame h f) as [f1 [[]| |]]; [|exact H1..]. cbn [fst] in H1.
  pose proof (held_crypto h f1 volume) as H2. destruct (Framer.cryptoStream h f1) as [f2 [cs|]]; cbn [fst] in H2;
    [|intros H; by apply H2, H1].
  destruct (Stream.getDataForWriting _ cs) as [data cs']. intros H. destruct (H2 (H1 H)) as [Hs Hv]. cbn in *.
  by rewrite lookup_insert_ne.
Qed.

(** *** The packer *)
Section Packing.
Context (cs : CryptoSetup) (Hoverhead : 0 <= Overhead (GetSealer cs).2 <= 1000).
Context (Hnonce : (length (cs_DiversificationNonce cs) <= 32)%nat).

Lemma header_len level p pth n :
  Header.GetLength (Packer.getPublicHeader cs level p pth) (pk_perspective p) = Ret n -> 0 <= n <= 52.
Proof.
  unfold Header.GetLength, Packer.getPublicHeader. cbn [VersionFlag ResetFlag hdr_PacketNumberLen TruncateConnectionID
    DiversificationNonce MultipathFlag].
  assert (Hl : forall b, (length (if b : bool then cs_DiversificationNonce cs else []) <= 32)%nat)
    by (intros []; [done|cbn; lia]).
  match goal with |- context [if ?b then cs_DiversificationNonce cs else []] => specialize (Hl b);
    set (nonce := if b then cs_DiversificationNonce cs else []) in * end. clearbody nonce.
  match goal with |- context [GetPacketNumberLengthForPublicHeader ?a ?b] =>
    set (l := GetPacketNumberLengthForPublicHeader a b) end.
  assert (0 <= l <= 6) by (unfold l, GetPacketNumberLengthForPublicHeader, PacketNumberLen1, PacketNumberLen2,
    PacketNumberLen4, PacketNumberLen6; repeat case_match; lia).
  clearbody l. repeat case_match; intros [= <-]; lia.
Qed.

Lemma held_pack parseIPv6 now h ids cid rand p pth volume :
  let r := Packer.packWith parseIPv6 now cs
    (Packer.popOfPath Sched.volumePositive Sched.volumeMinus "MultiPath" ids cid h) rand p pth volume in
  held_framer (pk_framer p, volume) (pk_framer r.1.1.1, r.1.2).
Proof.
  assert (PreOrder held_framer) by (split; [by intros a H|intros a b c H1 H2 H; auto]).
  apply (packWith_by held_framer _ cs fits_packet).
  - intros. by apply held_popOfPath.
  - intros f x q H1. exact H1.
  - intros. apply held_hasCrypto.
  - intros. apply held_popCrypto.
  - intros p' pth' n len Hn Hl. apply header_len in Hn. unfold fits_packet, frameRoom, MaxPacketSize in *.
    set (o := Overhead (GetSealer cs).2) in *. clearbody o. usmall_in Hl. usmall. lia.
Qed.
End Packing.

(** *** The session *)
Section Session.
Context {C : Type} `{!SendAlgorithm C} (env : environment C) (around : surroundings) (now : Z).
Context (Hoverhead : 0 <= Overhead (GetSealer (env_crypto env)).2 <= 1000).
Context (Hnonce : (length (cs_DiversificationNonce (env_crypto env)) <= 32)%nat).
Notation session := (session C).
Implicit Types s : session.

Definition stalled s : Prop :=
  ss_pathScheduler s = "MultiPath"%string /\ streams (Sess.sessionMap s) !! sid = Some str /\
  forall pid, spent (si_pathVolume (Sess.infoOf s sid) !! pid).

Lemma stalled_info s id f :
  (id = sid -> forall i pid, (forall x, spent (si_pathVolume i !! x)) -> spent (si_pathVolume (f i) !! pid)) ->
  stalled s -> stalled (Sess.changeInfo id f s).
Proof.
  intros Hf (H1 & H2 & H3). split; [done|]. split; [done|]. intros pid. unfold Sess.infoOf. cbn.
  destruct (decide (id = sid)) as [->|]; [rewrite lookup_insert_eq; by apply Hf|by rewrite lookup_insert_ne].
Qed.

Lemma stalled_add weight ids : always stalled (forEach ids (Sess.addStream (C := C) weight)).
Proof.
  apply (within_forEach _). intros id. apply (within_bind _).
  - intros s (H1 & H2 & H3). split; [done|]. split; [done|]. intros pid. unfold Sess.infoOf. cbn.
    destruct (decide (id = sid)) as [->|]; [by rewrite lookup_insert_eq|by rewrite lookup_insert_ne].
  - intros [] s Hs. unfold Sess.onTree. by destruct (Tree.addNode id (ss_tree s)).
Qed.

Lemma stalled_volumes id volume ids : spent (volume sid) -> forall s, stalled s -> stalled (foldl (Sched.setVolume id volume) s ids).
Proof.
  intros Hv. induction ids as [|x ids IH]; intros s Hs; [done|]. cbn [foldl]. apply IH. unfold Sched.setVolume.
  destruct (volume x) as [v|] eqn:E; [|done]. apply stalled_info; [|done]. intros -> i pid Hi. cbn.
  destruct (decide (id = pid)) as [->|]; [rewrite lookup_insert_eq; by rewrite E in Hv|by rewrite lookup_insert_ne].
Qed.

Lemma stalled_pack id : always stalled (Sched.packPacketOfPath env around now id).
Proof.
  intros s Hs. unfold Sched.packPacketOfPath, Sess.withPath. rewrite (call_bind_ret get _ s s s) by done.
  destruct (ss_paths s !! id) as [p|] eqn:Hp; [|done]. rewrite (call_bind_ret get _ s s s) by done.
  unfold Sess.packing, Sess.withPath. unfold mbind at 1, call_bind at 1. rewrite (call_bind_ret get _ s s s) by done. rewrite Hp.
  pose proof Hs as (Hm & Hstr & Hv). rewrite Hm.
  pose proof (held_pack (env_crypto env) Hoverhead Hnonce (env_parseIPv6 env) now (pk_parameters (ss_packer s)) (pa_streamIDs p)
    (Sched.selectFlow env around p s) (Sess.nextRand env (Path.view (ss_handshakeComplete s) p)) (ss_packer s)
    (Path.view (ss_handshakeComplete s) p) (Sched.volumesOn id s) (conj Hstr (Hv id))) as [Hstr' Hv'].
  fold (Packer.PackPacketOfPath (env_parseIPv6 env) now (env_crypto env) Sched.volumePositive Sched.volumeMinus "MultiPath"
    (pa_streamIDs p) (Sched.selectFlow env around p s) (Sess.nextRand env (Path.view (ss_handshakeComplete s) p)) (ss_packer s)
    (Path.view (ss_handshakeComplete s) p) (Sched.volumesOn id s)) in Hstr', Hv'.
  destruct (Packer.PackPacketOfPath _ _ _ _ _ _ _ _ _ _ _ _) as [[[pk v] volume] r]. cbn [fst snd] in Hstr', Hv'.
  unfold mbind, call_bind. match goal with |- context [forEach ?l ?m ?x] => pose proof (stalled_add defaultWeight l x) as Ha;
    destruct (forEach l m x) as [s2 o] end. cbn [fst] in Ha.
  assert (Hs2 : stalled s2) by (apply Ha; done). destruct o as [[]| |]; [|done..].
  cbn. by apply stalled_volumes.
Qed.

Lemma stalled_send fuel : always stalled (Sched.sendPacket env around now fuel).
Proof.
  apply walk_send_packet.
  - apply _.
  - intros s s' [= E1 E2 E3 E4 E5 E6 E7 E8 E9 E10 E11 E12 E13] (H1 & H2 & H3). unfold stalled, Sess.infoOf in *.
    split; [congruence|]. split; [congruence|]. by rewrite E10.
  - intros s id p p' _ _ Hs. exact Hs.
  - intros s fc _ Hs. exact Hs.
  - intros s ids Hs. exact Hs.
  - intros s fin checked Hs. exact Hs.
  - intros s id size b Hs. by apply stalled_info.
  - intros counted id pid s _ _ Hs. unfold Sched.assign, Sess.withPath. rewrite (call_bind_ret get _ s s s) by done.
    destruct (ss_paths s !! pid) as [p|]; [|done].
    assert (Ha : stalled (Sess.changeInfo id (fun i => i <| si_pathVolume := <[pid := f64.zero]> (si_pathVolume i) |>)
      (s <| ss_streamToPath := Assignment.Add (ss_streamToPath s) id pid |>))).
    { apply stalled_info; [|exact Hs]. intros -> i x Hi. cbn.
      destruct (decide (pid = x)) as [->|]; [by rewrite lookup_insert_eq|by rewrite lookup_insert_ne]. }
    destruct counted; exact Ha.
  - apply stalled_pack.
Qed.
End Session.
End Stalled.

(** Calls of [sendPacket], at any times and with any answers of the agent *)
Definition sends {C : Type} `{!SendAlgorithm C} (env : environment C) (s s' : session C) : Prop :=
  exists around now fuel, s' = (Sched.sendPacket env around now fuel s).1.

(** C39: With the scheduler "MultiPath", which is the default, a stream with more data than a packet has room for is
    never served: no call of [sendPacket] takes any of its data, whatever the paths, the agent, the time and the other
    streams do.  A stream is put on a path with volume 0 and data is only subtracted from it, so that the volume is never
    positive, and without it only data that fits into the rest of the packet is taken. *)
Theorem multipath_stalls {C : Type} `{!SendAlgorithm C} (env : environment C) (s s' : session C) sid str :
  0 <= Overhead (GetSealer (env_crypto env)).2 <= 1000 -> (length (cs_DiversificationNonce (env_crypto env)) <= 32)%nat ->
  ss_pathScheduler s = "MultiPath"%string -> streams (Sess.sessionMap s) !! sid = Some str -> str_id str = sid -> sid <> 1 ->
  MaxPacketSize + 2 <= Stream.lenOfDataForWriting str ->
  (forall pid, notPositive (default f64.zero (si_pathVolume (Sess.infoOf s sid) !! pid))) ->
  rtc (sends env) s s' -> streams (Sess.sessionMap s') !! sid = Some str.
Proof.
  intros Ho Hn Hm Hs Hid Hsid Hlen Hv Hr. assert (Hst : stalled sid str s) by done. clear Hm Hs Hv.
  induction Hr as [s|s1 s2 s3 (around & now & fuel & ->) _ IH]; [apply Hst|]. apply IH. by apply stalled_send.
Qed.

(** ** Assignments *)
Section Assignments.
Context {C : Type} `{!SendAlgorithm C} (env : environment C) (around : surroundings) (now : Z).
Notation session := (session C).
Implicit Types s : session.

(** A path stays what it is; streams may be added to its list. *)
Record path_kept (p p' : path C) : Prop := {
  kp_id : pa_pathID p' = pa_pathID p;
  kp_open : pa_open p' = pa_open p;
  kp_closing : pa_closing p' = pa_closing p;
  kp_local : conn_local (pa_conn p') = conn_local (pa_conn p);
  kp_remote : conn_remote (pa_conn p') = conn_remote (pa_conn p);
  kp_streams : pa_streamIDs p `prefix_of` pa_streamIDs p'
}.

Lemma path_kept_refl p : path_kept p p.
Proof. by split. Qed.

(** The stream [sid] is on the path [pid] only, which lists it. *)
Definition on_path s (sid pid : Z) : Prop :=
  ss_streamToPath s !! sid = Some [pid] /\ exists p, ss_paths s !! pid = Some p /\ sid ∈ pa_streamIDs p.

Record assigned_once s s' : Prop := {
  ao_open : ss_openPaths s' = ss_openPaths s;
  ao_closed : ss_closedPaths s' = ss_closedPaths s;
  ao_paths : forall id, option_Forall2 path_kept (ss_paths s !! id) (ss_paths s' !! id);
  ao_streams : forall sid, ss_streamToPath s' !! sid = ss_streamToPath s !! sid \/
    ss_streamToPath s !! sid = None /\ exists pid, on_path s' sid pid
}.

Lemma kept_path s s' id p :
  (forall id, option_Forall2 path_kept (ss_paths s !! id) (ss_paths s' !! id)) -> ss_paths s !! id = Some p ->
  exists p', ss_paths s' !! id = Some p' /\ path_kept p p'.
Proof. intros H E. specialize (H id). rewrite E in H. inversion H; subst; eauto. Qed.

Lemma kept_trans (m1 m2 m3 : gmap Z (path C)) :
  (forall id, option_Forall2 path_kept (m1 !! id) (m2 !! id)) -> (forall id, option_Forall2 path_kept (m2 !! id) (m3 !! id)) ->
  forall id, option_Forall2 path_kept (m1 !! id) (m3 !! id).
Proof.
  intros H1 H2 id. specialize (H1 id). specialize (H2 id).
  destruct (m1 !! id), (m2 !! id), (m3 !! id); inversion H1 as [? ? [] |]; inversion H2 as [? ? [] |]; subst; constructor.
  split; try congruence. by etrans.
Qed.

#[export] Instance assigned_once_preorder : PreOrder assigned_once.
Proof.
  split.
  { intros s. split; [done|done| |by left]. intros id. destruct (ss_paths s !! id); constructor. apply path_kept_refl. }
  intros s1 s2 s3 [O1 C1 P1 A1] [O2 C2 P2 A2]. split; [congruence..|by eapply kept_trans|]. intros sid.
  destruct (A1 sid) as [E1|(N1 & pid & E1 & p & Hp & Hin)], (A2 sid) as [E2|(N2 & E2)].
  - left. congruence.
  - right. split; [congruence|done].
  - right. split; [done|]. exists pid. split; [congruence|]. destruct (kept_path s2 s3 pid p P2 Hp) as (p' & Hp' & []).
    exists p'. split; [done|]. by eapply elem_of_prefix.
  - congruence.
Qed.

Lemma assigned_same s s' :
  ss_openPaths s' = ss_openPaths s -> ss_closedPaths s' = ss_closedPaths s -> ss_paths s' = ss_paths s ->
  ss_streamToPath s' = ss_streamToPath s -> assigned_once s s'.
Proof.
  intros E1 E2 E3 E4. split; [done..| |intros sid; left; by rewrite E4]. intros id. rewrite E3.
  destruct (ss_paths s !! id); constructor. apply path_kept_refl.
Qed.

Lemma kept_insert s id p p' : ss_paths s !! id = Some p -> path_kept p p' ->
  forall x, option_Forall2 path_kept (ss_paths s !! x) (<[id := p']> (ss_paths s) !! x).
Proof.
  intros Hp Hk x. destruct (decide (id = x)) as [<-|]; [rewrite lookup_insert_eq, Hp; by constructor|].
  rewrite lookup_insert_ne by done. destruct (ss_paths s !! x); constructor. apply path_kept_refl.
Qed.

Lemma assigned_path s id p p' :
  ss_paths s !! id = Some p -> path_kept p p' -> assigned_once s (s <| ss_paths := <[id := p']> (ss_paths s) |>).
Proof. intros Hp Hk. split; [done..| |by left]. by apply (kept_insert s id p). Qed.

Lemma path_step_kept p p' : path_step p p' -> path_kept p p'.
Proof.
  intros []; try (by split); unfold Path.GetStopWaitingFrame, Path.GetAckFrame.
  - by destruct (Sent.GetStopWaitingFrame _ _).
  - destruct (Handler.GetAckFrame _ _) as [h [[ack|]| |]]; by split.
Qed.

Lemma assigned_packing {A} id (pack : packetPacker -> packerPath -> packetPacker * packerPath * outcome A) :
  within assigned_once (Sess.packing id pack).
Proof.
  apply (walk_with assigned_once). intros s p Hp. destruct (pack _ _) as [[pk v] r].
  etrans; [apply (assigned_path s id p (Path.fromView v p) Hp); by split|]. etrans; [by apply (assigned_same _
    (s <| ss_packer := pk |> <| ss_paths := <[id := Path.fromView v p]> (ss_paths s) |>))|].
  match goal with |- assigned_once ?x _ => generalize x end. intros s1.
  match goal with |- assigned_once s1 (?m s1).1 => revert s1; change (within assigned_once m) end.
  apply (within_bind assigned_once); [|intros []; auto with within]. apply (within_forEach assigned_once). intros sid.
  apply (within_bind assigned_once); [intros s1; by apply assigned_same|]. intros [] s1. unfold Sess.onTree.
  destruct (Tree.addNode sid (ss_tree s1)). by apply assigned_same.
Qed.

Lemma assigned_volumes id volume ids : forall s, assigned_once s (foldl (Sched.setVolume id volume) s ids).
Proof.
  induction ids as [|sid ids IH]; intros s; [reflexivity|]. cbn [foldl]. etrans; [|apply IH]. unfold Sched.setVolume.
  destruct (volume sid); [by apply assigned_same|reflexivity].
Qed.

Lemma assigned_assign counted sid pid s :
  ss_streamToPath s !! sid = None -> assigned_once s (Sched.assign counted sid pid s).1.
Proof.
  intros Hnone. destruct (ss_paths s !! pid) as [p|] eqn:Hp.
  2: { unfold Sched.assign, Sess.withPath, mbind, call_bind, get. rewrite Hp. reflexivity. }
  destruct (assign_eq counted sid pid s p Hp) as [n ->]. cbn [fst]. rewrite (Add_None _ _ _ Hnone). split; [done..| |].
  - cbn. eapply (kept_insert s pid p); [done|]. split; try done. cbn. by apply prefix_app_r.
  - intros x. cbn. destruct (decide (sid = x)) as [->|]; [right|left; by rewrite lookup_insert_ne].
    split; [done|]. exists pid. split; [cbn; by rewrite lookup_insert_eq|]. eexists. split; [cbn; apply lookup_insert_eq|].
    cbn. set_solver.
Qed.
End Assignments.

(** C18: Sending never moves a stream: a call of [sendPacket] keeps the paths each stream is assigned to, and a stream
    that had none gets at most one, a path of the session that lists it afterwards.  Sending opens and closes no path: there
    are the same paths, open or closing as before, with the same addresses, and the lists of open and closed paths are
    unchanged; a path only gets more streams. *)
Theorem sending_assigns {C : Type} `{!SendAlgorithm C} (env : environment C) around now fuel (s : session C) :
  assigned_once s (Sched.sendPacket env around now fuel s).1.
Proof.
  revert s. change (within assigned_once (Sched.sendPacket env around now fuel)). apply walk_send_packet.
  - apply _.
  - intros s s' [= E1 E2 E3 E4 E5 E6 E7 E8 E9 E10 E11 E12 E13]. apply assigned_same; congruence.
  - intros s id p p' Hp Hs. apply (assigned_path s id p); [done|]. by apply path_step_kept.
  - intros. by apply assigned_same.
  - intros. by apply assigned_same.
  - intros. by apply assigned_same.
  - intros. by apply assigned_same.
  - intros counted sid pid s _. apply assigned_assign.
  - intros id. apply (walk_with_any assigned_once). intros p. apply (walk_get assigned_once). intros s.
    apply (within_bind assigned_once); [apply assigned_packing|]. intros [volume r].
    apply (within_bind assigned_once); [|auto with within]. intros s1. apply assigned_volumes.
Qed.

(** ** Retransmissions *)

(** The data of the packets that are retransmitted *)
Definition streamFramesOf (fs : list Frame) : list StreamFrame :=
  omap (fun f => match f with FStream f => Some f | _ => None end) fs.
Definition dataOf (packet : Packet) : list StreamFrame :=
  if bool_decide (pkt_EncryptionLevel packet = EncryptionForwardSecure)
  then streamFramesOf (GetFramesForRetransmission packet) else [].

Section Retransmissions.
Context {C : Type} `{!SendAlgorithm C} (N : Z) (env : environment C) (now : Z) (id : Z).
Notation session := (session C).
Implicit Types s : session.
Notation lost s := (fr_retransmissionQueue (Sess.framer s)).

Lemma schedule_paths_lost s :
  session_ok N s -> exists s', Sess.schedulePathsFrame env now s = (s', Ret tt) /\ core s' = core s /\
    ss_handshakeComplete s' = ss_handshakeComplete s /\ lost s' = lost s.
Proof.
  intros Hs. destruct (schedule_paths_ret N s env now s ltac:(by split)) as (s' & E & Ec). exists s'. split; [done|].
  split; [done|]. revert E. unfold Sess.schedulePathsFrame, mbind, call_bind, update, get, lift.
  destruct (Framer.AddPathsFrameForTransmission _ _ _) as [f| |] eqn:Ef; intros E; simplify_eq. split; [done|].
  unfold Framer.AddPathsFrameForTransmission in Ef. revert Ef.
  match goal with |- mbind _ ?m = _ -> _ => destruct m end; intros Ef; by simplify_eq/=.
Qed.

Lemma requeue_ret f s :
  session_ok N s -> exists s', Sched.requeueFrame env now id f s = (s', Ret tt) /\ core s' = core s /\
    ss_handshakeComplete s' = ss_handshakeComplete s /\ lost s' = lost s ++ streamFramesOf [f].
Proof.
  intros Hs. destruct f; cbn [Sched.requeueFrame streamFramesOf omap list_omap]; rewrite ?app_nil_r; try (by eexists).
  - unfold mbind, call_bind, get. destruct (Manager.GetReceiveWindow _ _); [|by eexists..]. destruct (_ <=? _); by eexists.
  - by apply schedule_paths_lost.
Qed.

Lemma requeue_all fs : forall s,
  session_ok N s -> exists s', forEach fs (Sched.requeueFrame env now id) s = (s', Ret tt) /\ core s' = core s /\
    ss_handshakeComplete s' = ss_handshakeComplete s /\ lost s' = lost s ++ streamFramesOf fs.
Proof.
  induction fs as [|f fs IH]; intros s Hs; cbn [forEach]; [exists s; by rewrite app_nil_r|].
  destruct (requeue_ret f s Hs) as (s1 & E1 & C1 & H1 & L1). rewrite (call_bind_ret _ _ _ _ _ E1).
  destruct (IH s1) as (s2 & E2 & C2 & H2 & L2); [by apply (session_ok_core N s)|]. exists s2. split; [done|].
  split; [congruence|]. split; [congruence|]. rewrite L2, L1, <-app_assoc. f_equal. unfold streamFramesOf.
  cbn [omap list_omap]. by case_match.
Qed.

(** Packets are taken until the queue is empty or, before the handshake is complete, until a handshake packet. *)
Definition taken (complete : bool) (queue : list Packet) (done : list Packet) (out : option Packet) (rest : list Packet) : Prop :=
  queue = done ++ from_option (fun k => [k]) [] out ++ rest /\
  Forall (fun k => complete || bool_decide (pkt_EncryptionLevel k = EncryptionForwardSecure) = true) done /\
  match out with
  | Some k => complete = false /\ pkt_EncryptionLevel k <> EncryptionForwardSecure
  | None => rest = []
  end.

Lemma dequeue_ok s p : session_ok N s -> ss_paths s !! id = Some p ->
  session_ok N (s <| ss_paths := <[id := p <| pa_sent := (Sent.DequeuePacketForRetransmission (pa_sent p)).1 |>]> (ss_paths s) |>).
Proof.
  intros Hs Hp. destruct (path_step_ok id p _ (ps_dequeue p)) as (Hids & _ & Hok).
  eapply session_ok_path; [exact Hs|exact Hp| |done].
  pose proof (sk_paths _ _ Hs id p Hp) as Hpok. destruct Hpok as [H1 H2 [g Hg] H4]. split; try done. cbn.
  eapply sent_inv_step; [exact Hg|]. apply step_dequeue.
Qed.

Lemma retransmission_ret fuel : forall has s p,
  session_ok N s -> ss_paths s !! id = Some p -> (length (retransmissionQueue (pa_sent p)) < fuel)%nat ->
  exists s' p' done out rest,
    Sched.getRetransmissionOfPath env now fuel id has s =
      (s', Ret (has || negb (length (done ++ from_option (fun k => [k]) [] out) =? 0)%nat, out)) /\
    session_ok N s' /\ ss_paths s' !! id = Some p' /\ retransmissionQueue (pa_sent p') = rest /\
    taken (ss_handshakeComplete s) (retransmissionQueue (pa_sent p)) done out rest /\
    lost s' = lost s ++ flat_map dataOf done.
Proof.
  induction fuel as [|fuel IH]; intros has s p Hs Hp Hfuel; [lia|]. cbn [Sched.getRetransmissionOfPath].
  rewrite (withPath_eq _ _ p) by done. pose proof (dequeue_ok s p Hs Hp) as Hs1. revert Hs1.
  unfold Sent.DequeuePacketForRetransmission. destruct (retransmissionQueue (pa_sent p)) as [|k q] eqn:Eq; cbn [fst]; intros Hs1.
  { unfold mbind, call_bind, Sess.setPath, update. eexists _, _, [], None, []. split; [cbn; by rewrite orb_false_r|].
    split; [exact Hs1|]. cbn. rewrite lookup_insert_eq, app_nil_r. by repeat split. }
  match type of Hs1 with session_ok N ?x => set (s1 := x) in * end.
  set (p1 := p <| pa_sent := pa_sent p <| retransmissionQueue := q |> <| retransmissions := retransmissions (pa_sent p) +64 1 |> |>) in *.
  assert (Hp1 : ss_paths s1 !! id = Some p1) by apply lookup_insert_eq.
  rewrite (call_bind_ret (Sess.setPath id p1) _ s s1 tt) by done. rewrite (call_bind_ret get _ s1 s1 s1) by done.
  assert (Hgo : forall s2, session_ok N s2 -> core s2 = core s1 -> ss_handshakeComplete s2 = ss_handshakeComplete s ->
    ss_handshakeComplete s || bool_decide (pkt_EncryptionLevel k = EncryptionForwardSecure) = true ->
    lost s2 = lost s ++ dataOf k ->
    exists s' p' done out rest, Sched.getRetransmissionOfPath env now fuel id true s2 =
      (s', Ret (has || negb (length (done ++ from_option (fun k => [k]) [] out) =? 0)%nat, out)) /\
    session_ok N s' /\ ss_paths s' !! id = Some p' /\ retransmissionQueue (pa_sent p') = rest /\
    taken (ss_handshakeComplete s) (k :: q) done out rest /\ lost s' = lost s ++ flat_map dataOf done).
  { intros s2 Hs2 Ec Hc Hk Hl. assert (Hp2 : ss_paths s2 !! id = Some p1).
    { pose proof (f_equal (fun x => x.1.1.1.1.1.1.1.1.2) Ec) as Epaths. cbn in Epaths. by rewrite Epaths. }
    destruct (IH true s2 p1 Hs2 Hp2) as (s' & p' & done & out & rest & E & Hs' & Hp' & Hr & (T1 & T2 & T3) & L); [cbn in *; lia|].
    exists s', p', (k :: done), out, rest. rewrite E. cbn [app length]. rewrite orb_true_r. split; [done|]. do 3 (split; [done|]).
    rewrite Hc in T2, T3. split; [|cbn [flat_map]; by rewrite L, Hl, app_assoc]. split; [cbn in T1; by rewrite T1|].
    split; [by constructor|done]. }
  change (ss_handshakeComplete s1) with (ss_handshakeComplete s).
  destruct (bool_decide (pkt_EncryptionLevel k = EncryptionForwardSecure)) eqn:El; cbn [negb].
  - destruct (requeue_all (GetFramesForRetransmission k) s1 Hs1) as (s2 & E2 & C2 & H2 & L2).
    rewrite (call_bind_ret _ _ _ _ _ E2). apply Hgo; [by apply (session_ok_core N s1)|done|by rewrite H2|by rewrite orb_true_r|].
    unfold dataOf. by rewrite El, L2.
  - destruct (ss_handshakeComplete s) eqn:Ehs.
    + apply Hgo; try done. unfold dataOf. by rewrite El, app_nil_r.
    + eexists s1, p1, [], (Some k), q. split; [cbn; by rewrite orb_true_r|]. cbn. rewrite app_nil_r.
      apply bool_decide_eq_false in El. split; [done|]. split; [apply lookup_insert_eq|]. by repeat split.
Qed.
End Retransmissions.

(** The packets of one encryption level that are requeued. *)
Definition forwardSecure (packet : Packet) : Prop := pkt_EncryptionLevel packet = EncryptionForwardSecure.
#[export] Instance forwardSecure_dec packet : Decision (forwardSecure packet).
Proof. unfold forwardSecure. apply _. Defined.

Lemma dataOf_filter l :
  flat_map dataOf l = flat_map (fun k => streamFramesOf (GetFramesForRetransmission k)) (filter forwardSecure l).
Proof.
  induction l as [|k l IH]; [done|]. rewrite filter_cons. cbn [flat_map]. rewrite IH. unfold dataOf at 1.
  destruct (decide (forwardSecure k)) as [H|H]; [by rewrite bool_decide_eq_true_2|by rewrite bool_decide_eq_false_2].
Qed.

(** C19: When a path sends, the packets that wait on it for retransmission are all taken, in order, up to the first
    packet that is not forward-secure while the handshake is not complete, which the call returns.  The call always returns, and the
    session stays well formed.  The STREAM frames of the forward-secure packets that were taken go to the end of the framer's
    queue in order, none of them lost or doubled.  Nothing else goes there: once the handshake is complete,
    the packets that are not forward-secure are dropped with the data they carry. *)
Theorem retransmissions_requeued {C : Type} `{!SendAlgorithm C} N (env : environment C) now id (s : session C) p :
  session_ok N s -> ss_paths s !! id = Some p ->
  let queue := retransmissionQueue (pa_sent p) in
  exists s' p' done out rest,
    Sched.getRetransmissionOfPath env now (S (length queue)) id false s =
      (s', Ret (negb (length (done ++ from_option (fun k => [k]) [] out) =? 0)%nat, out)) /\
    session_ok N s' /\ ss_paths s' !! id = Some p' /\ retransmissionQueue (pa_sent p') = rest /\
    taken (ss_handshakeComplete s) queue done out rest /\
    fr_retransmissionQueue (Sess.framer s') = fr_retransmissionQueue (Sess.framer s) ++
      flat_map (fun k => streamFramesOf (GetFramesForRetransmission k)) (filter forwardSecure done).
Proof.
  intros Hs Hp queue. destruct (retransmission_ret N env now id (S (length queue)) false s p Hs Hp) as
    (s' & p' & done & out & rest & H1 & H2 & H3 & H4 & H5 & H6); [subst queue; lia|].
  exists s', p', done, out, rest. rewrite <- dataOf_filter. by repeat (split; [done|]).
Qed.

(** ** A deadlock *)
Section Deadlock.
Context {C : Type} `{!SendAlgorithm C} (env : environment C) (around : surroundings) (now : Z).
Notation session := (session C).
Implicit Types s : session.

(** A path without an ACK to send *)
Definition no_ack s (id : Z) : Prop := exists p, ss_paths s !! id = Some p /\ (Path.GetAckFrame now p).2 = Ret None.

Lemma no_ack_get s id : no_ack s id ->
  exists s', Sched.getAckFrame now id s = (s', Ret None) /\ is_Some (ss_paths s' !! id) /\
    forall x, x <> id -> ss_paths s' !! x = ss_paths s !! x.
Proof.
  intros (p & Hp & Ha). unfold Sched.getAckFrame. rewrite (withPath_eq _ _ p) by done.
  destruct (Path.GetAckFrame now p) as [p' r]. cbn in Ha. subst r. eexists. split; [done|]. cbn. split.
  - rewrite lookup_insert_eq. eauto.
  - intros x Hx. by rewrite lookup_insert_ne.
Qed.

Lemma queue_updates (wufs : list WindowUpdateFrame) id : forall s,
  exists s', forEach wufs (fun wuf => Sched.queue (FWindowUpdate wuf) id) s = (s', Ret tt) /\ ss_paths s' = ss_paths s.
Proof.
  induction wufs as [|wuf wufs IH]; intros s; cbn [forEach]; [by exists s|].
  unfold mbind, call_bind, Sched.queue at 1, update at 1. destruct (IH (Sess.QueueControlFrame (FWindowUpdate wuf) id s)) as (s' & E & Hp).
  by exists s'.
Qed.

Lemma ack_path_stuck wufs id s :
  wufs <> [] -> no_ack s id ->
  if id =? InitialPathID
  then exists s', Sched.ackPath env around now true wufs id s = (s', Ret tt) /\ forall x, x <> id -> ss_paths s' !! x = ss_paths s !! x
  else (Sched.ackPath env around now true wufs id s).2 = Panic "deadlock".
Proof.
  intros Hw Hn. destruct (no_ack_get s id Hn) as (s1 & E1 & [p1 Hp1] & Hx). unfold Sched.ackPath.
  rewrite (call_bind_ret _ _ _ _ _ E1). destruct (queue_updates wufs id s1) as (s2 & E2 & Hp2).
  rewrite (call_bind_ret _ _ _ _ _ E2). destruct wufs as [|wuf wufs]; [done|]. destruct (id =? InitialPathID); cbn [andb].
  - exists s2. split; [done|]. intros x Hne. rewrite Hp2. by apply Hx.
  - assert (Hswf : exists s3, Sched.queueStopWaiting id false s2 = (s3, Ret tt)).
    { unfold Sched.queueStopWaiting, Sched.getStopWaitingFrame. unfold mbind at 1, call_bind at 1.
      rewrite (withPath_eq _ _ p1) by (by rewrite Hp2). destruct (Path.GetStopWaitingFrame false p1) as [p' [swf|]]; by eexists. }
    destruct Hswf as [s3 E3]. by rewrite (call_bind_ret _ _ _ _ _ E3).
Qed.

Lemma acks_stuck wufs : wufs <> [] -> forall ids s,
  NoDup ids -> Forall (no_ack s) ids -> Exists (fun id => id <> InitialPathID) ids ->
  (forEach ids (Sched.ackPath env around now true wufs) s).2 = Panic "deadlock".
Proof.
  intros Hw. induction ids as [|id ids IH]; intros s Hnd Hn Hex; [by apply Exists_nil in Hex|]. cbn [forEach].
  apply NoDup_cons in Hnd as [Hni Hnd]. apply Forall_cons in Hn as [Hid Hn]. pose proof (ack_path_stuck wufs id s Hw Hid) as Hst.
  destruct (Z.eqb_spec id InitialPathID) as [->|Hne].
  - destruct Hst as (s' & E & Hx). rewrite (call_bind_ret _ _ _ _ _ E). apply Exists_cons in Hex as [|Hex]; [done|].
    apply IH; [done| |done]. apply Forall_forall. intros x Hxin. rewrite Forall_forall in Hn.
    destruct (Hn x Hxin) as (p & Hp & Ha). exists p. rewrite Hx; [done|]. intros ->. done.
  - unfold mbind, call_bind. destruct (Sched.ackPath env around now true wufs id s) as [s' r]. cbn in Hst. by subst r.
Qed.

Lemma updates_eq s p0 updates :
  ss_paths s !! InitialPathID = Some p0 -> (Sess.getWindowUpdateFrames env now false s).2 = Ret updates ->
  forall q, exists s', Sess.getWindowUpdateFrames env now false (s <| ss_quotas := q |>) = (s', Ret updates) /\ ss_paths s' = ss_paths s.
Proof.
  intros Hp Hu q. unfold Sess.getWindowUpdateFrames in *. rewrite (withPath_eq _ _ p0) in Hu by done.
  rewrite (withPath_eq _ _ p0) by done. revert Hu. unfold Sess.flowControl, Sess.sessionMap, Sess.framer. cbn.
  destruct (Manager.GetWindowUpdates _ _ _ _ _ _) as [fc us]. cbn. intros [= <-]. by eexists.
Qed.
End Deadlock.

(** C40: A client whose paths are all congested or failed stops for good when it has a stream to assign and window updates
    to send but no ACK: the scheduler finds no path, and packs the window updates while it holds the mutex of the streams
    map, which the packer needs, whatever the order in which the paths are visited. *)
Theorem congestion_deadlock {C : Type} `{!SendAlgorithm C} (env : environment C) around now multiple sid (s : session C) updates :
  (forall X, env_order env X ≡ₚ elements X) -> 1 < Z.of_nat (size (ss_paths s)) -> is_Some (ss_paths s !! InitialPathID) ->
  (forall id p, ss_paths s !! id = Some p -> Sched.unusable id p = true /\ (Path.GetAckFrame now p).2 = Ret None) ->
  isClient (ss_perspective s) = true -> ss_streamToPath s !! sid = None ->
  (Sess.getWindowUpdateFrames env now false s).2 = Ret updates -> updates <> [] ->
  (Sched.assignPath env around now multiple sid s).2 = Panic "deadlock".
Proof.
  intros Horder Hsize [p0 Hp0] Hall Hclient Hnone Hu Hne. unfold Sched.assignPath. rewrite (call_bind_ret get _ s s s) by done.
  rewrite Hnone, (bool_decide_eq_false_2 (is_Some None)) by (by intros [? ?]). rewrite Hclient.
  destruct (find_none env s Hsize) as [q E]; [intros id p Hp; by apply (Hall id p)|]. rewrite (call_bind_ret _ _ _ _ _ E).
  cbn [Sched.assignTo]. unfold Sched.noPath. destruct (updates_eq env now s p0 updates Hp0 Hu q) as (s' & E' & Hp').
  rewrite (call_bind_ret _ _ _ _ _ E'). unfold mbind at 1, call_bind at 1. unfold Sched.ackRemainingPaths.
  rewrite (call_bind_ret get _ s' s' s') by done. destruct updates as [|u us]; [done|]. rewrite (call_bind_ret _ _ s' s' (u :: us)) by done.
  rewrite (call_bind_ret get _ s' s' s') by done. unfold mbind at 1, call_bind at 1.
  pose proof (acks_stuck env around now (u :: us) Hne (env_order env (dom (ss_paths s'))) s') as Hs.
  destruct (forEach _ _ s') as [s2 r]. cbn in Hs |- *. rewrite Hp' in Hs. rewrite Hs; [done|..].
  - rewrite Horder. apply NoDup_elements.
  - rewrite Horder. apply Forall_forall. intros id Hid%elem_of_elements%elem_of_dom. destruct Hid as [p Hp]. exists p.
    rewrite Hp'. split; [done|]. by apply (Hall id p).
  - rewrite Horder. by apply other_path.
Qed.

(** ** Streams that were removed *)
Section Removed.
Context {C : Type} `{!SendAlgorithm C} (env : environment C) (around : surroundings) (now : Z).
Notation session := (session C).
Implicit Types s : session.

Lemma iterate_assigned multiple id ids : forall s,
  id ∈ ids -> streams (Sess.sessionMap s) !! id = None ->
  (forall x, x ∈ ids -> x <> id -> is_Some (ss_streamToPath s !! x)) ->
  Sched.iterateSchedule env around now multiple ids s = (s, Err sm_errMapAccess).
Proof.
  induction ids as [|x ids IH]; intros s Hin Hid Hothers; [by apply not_elem_of_nil in Hin|]. cbn [Sched.iterateSchedule].
  rewrite (call_bind_ret get _ s s s) by done. destruct (streams (Sess.sessionMap s) !! x) as [str|] eqn:Ex; [|done].
  assert (Hx : is_Some (ss_streamToPath s !! x)). { apply Hothers; [set_solver|]. intros ->. congruence. }
  assert (E : Sched.assignPath env around now multiple x s = (s, Ret true)).
  { unfold Sched.assignPath. rewrite (call_bind_ret get _ s s s) by done. by rewrite bool_decide_eq_true_2. }
  rewrite (call_bind_ret _ _ _ _ _ E). apply IH; [|done|set_solver]. apply elem_of_cons in Hin as [->|]; [congruence|done].
Qed.
End Removed.

(** A stream that is removed from the streams map stays in the stream tree.  When the tree names such a stream as
    one that waits for a path, and the others that wait have one, [sendPacket] fails with the error of the access to
    the map, before anything is sent; the run loop then closes the session. *)
Theorem removed_stream_fails {C : Type} `{!SendAlgorithm C} (env : environment C) around now fuel (s : session C) t waiting id :
  (forall l, sr_sort around l ≡ₚ l) ->
  ss_pathScheduler s = "SinglePath"%string \/ ss_pathScheduler s = "MultiPath"%string ->
  Tree.schedule (Sched.streamFinished s) (fun x => si_checksize (Sess.infoOf s x)) (ss_tree s) = (t, Ret waiting) ->
  id ∈ waiting -> streams (Sess.sessionMap s) !! id = None ->
  (forall x, x ∈ waiting -> x <> id -> is_Some (ss_streamToPath s !! x)) ->
  exists s', Sched.sendPacket env around now fuel s = (s', Err sm_errMapAccess) /\ ss_paths s' = ss_paths s.
Proof.
  intros Hsort Hsched Ht Hin Hid Hothers.
  set (order := map fst (sr_sort around (map (fun x => (x, si_weight (Sess.infoOf s x))) waiting))).
  set (s1 := Sched.setPriorityOrder order (s <| ss_tree := t |>)).
  assert (Horder : order ≡ₚ waiting) by (unfold order; rewrite Hsort, map_map; by rewrite map_id).
  assert (E : forall multiple, Sched.scheduleTo env around now multiple s = (s1, Err sm_errMapAccess)).
  { intros multiple. unfold Sched.scheduleTo, Sched.sortStreamPriorityOrder, mbind, call_bind, get, Sess.onTree. rewrite Ht.
    destruct waiting as [|w ws]; [by apply not_elem_of_nil in Hin|]. cbn [update mret call_ret negb].
    apply (iterate_assigned env around now multiple id order s1); [by rewrite Horder|done|].
    intros x. rewrite Horder. apply Hothers. }
  exists s1. split; [|done]. unfold Sched.sendPacket. unfold mbind at 1, call_bind at 1. unfold Sched.pathScheduler.
  rewrite (call_bind_ret get _ s s s) by done. destruct Hsched as [->| ->].
  - change (String.eqb "SinglePath" "SinglePath") with true. cbv iota. by rewrite E.
  - change (String.eqb "MultiPath" "SinglePath") with false. change (String.eqb "MultiPath" "MultiPath") with true.
    cbv iota. by rewrite E.
Qed.

(** ** Examples *)
Section Example.
Definition demo_around : surroundings := mkSurroundings (fun _ => 0) (fun _ _ => 0) (fun l => l).

(** A path of the demo session with the number [id] *)
Definition demo_path (id : Z) : path Z := Path.setup id demo_conn 512 0 1.

(** Two paths besides the initial one *)
Definition demo_paths : session Z :=
  demo_session <| ss_paths := <[1 := demo_path 1]> (<[3 := demo_path 3]> (ss_paths demo_session)) |>.

Lemma demo_paths_size : 1 < Z.of_nat (size (ss_paths demo_paths)).
Proof. vm_compute. reflexivity. Qed.

Lemma low_latency_choice_witness :
  exists s' choice, Sched.findPathLowLatency demo_env demo_paths = (s', Ret choice) /\ ss_paths s' = ss_paths demo_paths.
Proof.
  destruct (low_latency_choice demo_env demo_paths (fun X => reflexivity _) demo_paths_size) as (s' & choice & E & Hp & _).
  exists s', choice. split; [exact E|exact Hp].
Defined.

(** The stream 5 with 2000 bytes to send, and the scheduler that is the default *)
Definition demo_data : stream := newStream 5 <| dataForWriting := Some (repeat 7 2000) |>.
Definition demo_start : session Z :=
  Sess.newSession demo_env 1 PerspectiveServer 512 77 0 false false "MultiPath" example_parameters demo_conn demo_pm.
Definition demo_multipath : session Z :=
  Sess.setMapState (Sess.sessionMap demo_start <| streams := {[5 := demo_data]} |>, Sess.flowControl demo_start) demo_start.

Lemma multipath_stalls_witness :
  streams (Sess.sessionMap (Sched.sendPacket demo_env demo_around 5 3 demo_multipath).1) !! 5 = Some demo_data.
Proof.
  apply (multipath_stalls demo_env demo_multipath _ 5 demo_data).
  - vm_compute. split; discriminate.
  - cbn. lia.
  - reflexivity.
  - reflexivity.
  - reflexivity.
  - discriminate.
  - vm_compute. discriminate.
  - intros pid. assert (E : ss_info demo_multipath !! 5 = None) by (vm_compute; reflexivity).
    unfold Sess.infoOf. rewrite E. exact I.
  - eapply rtc_l; [by exists demo_around, 5, 3%nat|apply rtc_refl].
Defined.

(** A packet with data that was lost on the initial path *)
Definition demo_lost_packet : Packet :=
  mkPacket 7 [FStream (mkStreamFrame 5 false true 0 [1; 2; 3])] 40 EncryptionForwardSecure 3.

Definition demo_initial : path Z := default (demo_path 0) (ss_paths demo_session !! InitialPathID).
Definition demo_lossy : session Z :=
  demo_session <| ss_paths := <[InitialPathID := demo_initial
    <| pa_sent := Sent.DuplicatePacket (pa_sent demo_initial) demo_lost_packet |>]> (ss_paths demo_session) |>.

Lemma demo_lossy_ok : session_ok 100 demo_lossy.
Proof.
  pose proof demo_session_ok as Hs.
  assert (Hp : ss_paths demo_session !! InitialPathID = Some demo_initial) by (vm_compute; reflexivity).
  apply (session_ok_path 100 demo_session InitialPathID demo_initial); [done|done| |done].
  destruct (sk_paths _ _ Hs InitialPathID demo_initial Hp) as [H1 H2 [g Hg] H4]. split; try done.
  eapply sent_inv_step; [exact Hg|apply step_duplicate].
Qed.

Lemma retransmissions_requeued_witness :
  exists s' done out, Sched.getRetransmissionOfPath demo_env 5 2 InitialPathID false demo_lossy =
    (s', Ret (negb (length (done ++ from_option (fun k => [k]) [] out) =? 0)%nat, out)) /\ session_ok 100 s'.
Proof.
  assert (Hp : ss_paths demo_lossy !! InitialPathID =
    Some (demo_initial <| pa_sent := Sent.DuplicatePacket (pa_sent demo_initial) demo_lost_packet |>)) by apply lookup_insert_eq.
  destruct (retransmissions_requeued 100 demo_env 5 InitialPathID demo_lossy _ demo_lossy_ok Hp)
    as (s' & p' & done & out & rest & E & Hs & _).
  exists s', done, out. split; [exact E|exact Hs].
Defined.

(** A client whose two paths failed, and which read all it may receive *)
Definition demo_read : flowControlManager := mkManager ∅ (mkFlowController 0 false 0 0 0 0 100 100 100 100 1000) 0.
Definition demo_failed_path (id : Z) : path Z := demo_path id <| pa_potentiallyFailed := true |>.
Definition demo_client : session Z :=
  Sess.newSession demo_env 1 PerspectiveClient 512 77 0 false false "MultiPath" example_parameters demo_conn demo_pm.
Definition demo_congested : session Z :=
  Sess.setMapState (Sess.sessionMap demo_client, demo_read) demo_client
    <| ss_paths := <[1 := demo_failed_path 1]> {[InitialPathID := demo_failed_path InitialPathID]} |>.

Lemma congestion_deadlock_witness : (Sched.assignPath demo_env demo_around 5 true 3 demo_congested).2 = Panic "deadlock".
Proof.
  apply (congestion_deadlock demo_env demo_around 5 true 3 demo_congested [mkWindowUpdateFrame 0 200]).
  - intros X. reflexivity.
  - vm_compute. reflexivity.
  - eexists. vm_compute. reflexivity.
  - intros id p Hp. change ((<[1 := demo_failed_path 1]> {[InitialPathID := demo_failed_path InitialPathID]} : gmap Z (path Z)) !! id = Some p) in Hp.
    apply lookup_insert_Some in Hp as [[<- <-]|[_ [<- <-]%lookup_singleton_Some]]; vm_compute; done.
  - reflexivity.
  - vm_compute. reflexivity.
  - vm_compute. reflexivity.
  - discriminate.
Defined.

(** The tree knows the stream 5, which is not open any more. *)
Definition demo_removed : session Z :=
  demo_session <| ss_tree := (Tree.addNode 5 (ss_tree demo_session)).1 |> <| ss_streamToPath := {[1 := [InitialPathID]]} |>.

Lemma removed_stream_fails_witness :
  exists s', Sched.sendPacket demo_env demo_around 5 3 demo_removed = (s', Err sm_errMapAccess) /\
    ss_paths s' = ss_paths demo_removed.
Proof.
  eapply (removed_stream_fails demo_env demo_around 5 3 demo_removed
    (Tree.schedule (Sched.streamFinished demo_removed) (fun x => si_checksize (Sess.infoOf demo_removed x))
       (ss_tree demo_removed)).1 [1; 5] 5).
  - intros l. reflexivity.
  - left. reflexivity.
  - vm_compute. reflexivity.
  - set_solver.
  - vm_compute. reflexivity.
  - intros x [->| ->%list_elem_of_singleton]%elem_of_cons Hx; [eexists; reflexivity|done].
Defined.
End Example.
