(* ===== verification/Endpoints.v ===== *)
(** * Servers and clients

    Models [server.go] and [client.go]: the configurations, what a server does with a datagram (find or create the
    session, negotiate the version, answer with a public reset), what a client does with one (public resets, the
    answer to its version), and the end of sessions.  The goroutines around them, which read sockets and wait for
    events, are left out: each of their events is an operation. *)
From S2P Require Import Prelude MinMax ByteOrder PacketNumber PacketNumberGenerator HandshakeMessage.
From S2P Require Import Frames AckRanges AckFrame PathsFrame PublicHeader Unpacker ReceivedPackets.
From S2P Require Import FrameSorter FlowControl ConnectionParameters StreamToPath StreamTree Stream StreamsMap.
From S2P Require Import StreamFramer PacketPacker SentPackets Session Scheduler SessionSafety SchedulerSafety SendSafety.
From S2P Require Import SessionRun.

From Stdlib Require HexString.

Open Scope Z_scope.
Open Scope go_scope.

(** ** Configurations *)

(** [AcceptCookie] is part of the handshake. *)
Record Config := mkConfig {
  cfg_Versions : list Z;
  cfg_RequestConnectionIDTruncation : bool;
  cfg_HandshakeTimeout : Z;
  cfg_IdleTimeout : Z;
  cfg_MaxReceiveStreamFlowControlWindow : Z;
  cfg_MaxReceiveConnectionFlowControlWindow : Z;
  cfg_KeepAlive : bool;
  cfg_CacheHandshake : bool;
  cfg_CreatePaths : bool;
  cfg_PathScheduler : string
}.

Module protocol.
Definition SupportedVersions : list Z := [VersionMP; 39; 38; 37].
Definition DefaultHandshakeTimeout : Z := 10 * Second.
Definition DefaultIdleTimeout : Z := 30 * Second.
Definition DefaultMaxReceiveStreamFlowControlWindowServer : Z := 2 ^ 20.
Definition DefaultMaxReceiveConnectionFlowControlWindowServer : Z := 3 * 2 ^ 19.
Definition DefaultMaxReceiveStreamFlowControlWindowClient : Z := 16 * 2 ^ 20.
Definition DefaultMaxReceiveConnectionFlowControlWindowClient : Z := 24 * 2 ^ 20.
Definition DefaultPathScheduler : string := "MultiPath".
Definition ClientHelloMinimumSize : Z := 1024.
End protocol.

Definition orDefault (d x : Z) : Z := if x =? 0 then d else x.
Definition populateVersions (versions : list Z) : list Z := match versions with [] => protocol.SupportedVersions | _ => versions end.
Definition populateScheduler (s : string) : string := if String.eqb s "" then protocol.DefaultPathScheduler else s.

(** The configuration without any value set *)
Definition emptyConfig (createPaths : bool) : Config := mkConfig [] false 0 0 0 0 false false createPaths "".

(** The configuration that is returned has no [CreatePaths]. *)
Definition populateServerConfig (config : option Config) : Config :=
  let config := default (emptyConfig true) config in
  mkConfig (populateVersions (cfg_Versions config)) false
    (orDefault protocol.DefaultHandshakeTimeout (cfg_HandshakeTimeout config))
    (orDefault protocol.DefaultIdleTimeout (cfg_IdleTimeout config))
    (orDefault protocol.DefaultMaxReceiveStreamFlowControlWindowServer (cfg_MaxReceiveStreamFlowControlWindow config))
    (orDefault protocol.DefaultMaxReceiveConnectionFlowControlWindowServer (cfg_MaxReceiveConnectionFlowControlWindow config))
    (cfg_KeepAlive config) false false (populateScheduler (cfg_PathScheduler config)).

Definition populateClientConfig (config : option Config) : Config :=
  let config := default (emptyConfig false) config in
  mkConfig (populateVersions (cfg_Versions config)) (cfg_RequestConnectionIDTruncation config)
    (orDefault protocol.DefaultHandshakeTimeout (cfg_HandshakeTimeout config))
    (orDefault protocol.DefaultIdleTimeout (cfg_IdleTimeout config))
    (orDefault protocol.DefaultMaxReceiveStreamFlowControlWindowClient (cfg_MaxReceiveStreamFlowControlWindow config))
    (orDefault protocol.DefaultMaxReceiveConnectionFlowControlWindowClient (cfg_MaxReceiveConnectionFlowControlWindow config))
    (cfg_KeepAlive config) (cfg_CacheHandshake config) (cfg_CreatePaths config)
    (populateScheduler (cfg_PathScheduler config)).

(** A datagram: the local address of the socket it came on, and the address it came from, as text and resolved *)
Record receivedRawPacket := mkReceivedRawPacket {
  rr_rcvPconn : list Z;
  rr_remoteAddr : list Z;
  rr_remoteUDP : UDPAddr;
  rr_data : list Z;
  rr_rcvTime : Z
}.

(** [hdr.Raw = packet[:len(packet)-r.Len()]] *)
Definition withRaw (packet rest : list Z) (hdr : PublicHeader) : PublicHeader :=
  mkPublicHeader (take (length packet - length rest) packet) (hdr_ConnectionID hdr) (hdr_PathID hdr) (VersionFlag hdr)
    (ResetFlag hdr) (TruncateConnectionID hdr) (MultipathFlag hdr) (hdr_PacketNumberLen hdr) (hdr_PacketNumber hdr)
    (VersionNumber hdr) (SupportedVersions hdr) (DiversificationNonce hdr).

(** The packet that is handed to the session *)
Definition packetFor (rcv : receivedRawPacket) (hdr : PublicHeader) (rest : list Z) : receivedPacket :=
  mkReceivedPacket (rr_remoteAddr rcv) hdr rest (rr_rcvTime rcv) (rr_rcvPconn rcv).

(** ** The server *)
Section State.
Context {C : Type}.

(** The state of a server: its configuration, the addresses of the host for the path managers, the sessions ([None]: it
    is closed, late packets are ignored), and the datagrams the server itself sent: from, to, contents. *)
Record server := mkServer {
  sv_config : Config;
  sv_localAddrs : list UDPAddr;
  sv_sessions : gmap Z (option (session C));
  sv_written : list (list Z * list Z * list Z)
}.

Definition eta_server (s : server) : server := mkServer (sv_config s) (sv_localAddrs s) (sv_sessions s) (sv_written s).
#[export] Instance set_sv_sessions : Setter sv_sessions := ltac:(field_setter eta_server).
#[export] Instance set_sv_written : Setter sv_written := ltac:(field_setter eta_server).

(** The state of a client; [cl_session] is nil when a session could not be created. *)
Record client := mkClient {
  cl_config : Config;
  cl_localAddrs : list UDPAddr;
  cl_versionNegotiated : bool;
  cl_receivedVersionNegotiationPacket : bool;
  cl_connectionID : Z;
  cl_version : Z;
  cl_session : option (session C);
  cl_oldSessions : list (session C)
}.

Definition eta_client (c : client) : client :=
  mkClient (cl_config c) (cl_localAddrs c) (cl_versionNegotiated c) (cl_receivedVersionNegotiationPacket c)
    (cl_connectionID c) (cl_version c) (cl_session c) (cl_oldSessions c).
#[export] Instance set_cl_versionNegotiated : Setter cl_versionNegotiated := ltac:(field_setter eta_client).
#[export] Instance set_cl_receivedVersionNegotiationPacket : Setter cl_receivedVersionNegotiationPacket :=
  ltac:(field_setter eta_client).
#[export] Instance set_cl_connectionID : Setter cl_connectionID := ltac:(field_setter eta_client).
#[export] Instance set_cl_version : Setter cl_version := ltac:(field_setter eta_client).
#[export] Instance set_cl_session : Setter cl_session := ltac:(field_setter eta_client).
#[export] Instance set_cl_oldSessions : Setter cl_oldSessions := ltac:(field_setter eta_client).
End State.
Arguments server C : clear implicits.
Arguments client C : clear implicits.

Module Server.
Section Server.
Context {C : Type} `{!SendAlgorithm C} (env : environment C) (now : Z).
(** Whether the crypto setup of a session can be created *)
Context (newCryptoSetup : forall (version connectionID : Z), outcome unit).
Notation M := (Call (server C)).

Definition errSmallPacket : error := ErrorString "dropping small packet with unknown version".
Definition errVersionNotSupported : error := ErrorString "Server BUG: negotiated version not supported".

Definition invalidHeader (e : error) : error :=
  QuicError qerr.InvalidPacketHeader (Unpacker.errorText (env_codeString env) e).

(** [pconn.WriteTo(packet, remoteAddr)] *)
Definition writeTo (rcv : receivedRawPacket) (packet : list Z) : M unit :=
  update (fun s => s <| sv_written := sv_written s ++ [(rr_rcvPconn rcv, rr_remoteAddr rcv, packet)] |>);;
  match env_writeTo env (rr_rcvPconn rcv) (rr_remoteAddr rcv) packet with
  | None => mret tt
  | Some e => raise e
  end.

(** [s.newSession] *)
Definition newSession (rcv : receivedRawPacket) (version connectionID : Z) (s : server C) : session C :=
  let config := sv_config s in
  Sess.newSession env now PerspectiveServer version connectionID (cfg_HandshakeTimeout config) (cfg_KeepAlive config)
    (cfg_CreatePaths config) (cfg_PathScheduler config)
    (NewConnectionParamatersManager PerspectiveServer version (cfg_MaxReceiveStreamFlowControlWindow config)
       (cfg_MaxReceiveConnectionFlowControlWindow config) (cfg_IdleTimeout config))
    (mkConn (rr_rcvPconn rcv) (rr_remoteAddr rcv) [])
    (Sess.newPathManager PerspectiveServer (rr_remoteUDP rcv) (sv_localAddrs s)).

Definition setSession (id : Z) (session : option (session C)) : M unit :=
  update (fun s => s <| sv_sessions := <[id := session]> (sv_sessions s) |>).

Definition IsSupported (s : server C) (v : Z) : bool := IsSupportedVersion (cfg_Versions (sv_config s)) v.

(** The session of the connection, which is created for the first packet. *)
Definition getSession (rcv : receivedRawPacket) (connID : Z) (hdr : PublicHeader) (known : option (session C)) : M (session C) :=
  match known with
  | Some session => mret session
  | None =>
      s ← get;
      if negb (IsSupported s (VersionNumber hdr)) then raise errVersionNotSupported
      else
        lift (newCryptoSetup (VersionNumber hdr) (hdr_ConnectionID hdr));;
        let session := newSession rcv (VersionNumber hdr) (hdr_ConnectionID hdr) s in
        setSession connID (Some session);;
        mret session
  end.

(** What is done with a header that was parsed; [known] is the session of the connection.  A public reset is only
    parsed for the log. *)
Definition handleHeader (rcv : receivedRawPacket) (connID : Z) (known : option (session C)) (hdr : PublicHeader)
    (rest : list Z) : M unit :=
  s ← get;
  let unsupported := VersionFlag hdr && negb (IsSupported s (VersionNumber hdr)) in
  if ResetFlag hdr then mret tt
  else if bool_decide (is_Some known) && unsupported then mret tt
  else if unsupported then
    if Z.of_nat (length (rr_data rcv)) <? protocol.ClientHelloMinimumSize + Z.of_nat (length (Raw hdr)) then raise errSmallPacket
    else writeTo rcv (ComposeVersionNegotiation (hdr_ConnectionID hdr) (cfg_Versions (sv_config s)))
  else
    session ← getSession rcv connID hdr known;
    setSession connID (Some (Sess.handlePacket (packetFor rcv hdr rest) session)).

(** The session of the connection, if there is one, determines how the header is read. *)
Definition handleKnown (rcv : receivedRawPacket) (connID : Z) (known : option (session C)) : M unit :=
  match Header.Parse PerspectiveClient (from_option ss_version VersionUnknown known) (rr_data rcv) with
  | Ret (hdr, rest) => handleHeader rcv connID known (withRaw (rr_data rcv) rest hdr) rest
  | Err e =>
      if decide (e = ErrPacketWithUnknownVersion) then writeTo rcv (WritePublicReset connID 0 0).1
      else raise (invalidHeader e)
  | Panic why => crash why
  end.

Definition handlePacket (rcv : receivedRawPacket) : M unit :=
  match Header.PeekConnectionID PerspectiveClient (rr_data rcv) with
  | Err e => raise (invalidHeader e)
  | Panic why => crash why
  | Ret connID =>
      s ← get;
      match sv_sessions s !! connID with
      | Some None => mret tt
      | Some (Some session) => handleKnown rcv connID (Some session)
      | None => handleKnown rcv connID None
      end
  end.

(** The session [id] ended: its packets are ignored, and forgotten after a minute. *)
Definition removeConnection (id : Z) : M unit := setSession id None.
Definition deleteConnection (id : Z) : M unit := update (fun s => s <| sv_sessions := delete id (sv_sessions s) |>).

(** [Close] closes every session; the end of each is [removeConnection]. *)
Definition Close : M unit :=
  update (fun s => s <| sv_sessions := fmap (M := option) (Sess.closeWith (mkCloseError None false)) <$> sv_sessions s |>).
End Server.
End Server.

(** ** The client *)
Definition PublicResetReceived : Z := 19.
Definition InvalidVersion : error := ErrorCode 20.
Definition errCloseSessionForNewVersion : error := ErrorString "closing session in order to recreate it with a new version".

Module Client.
Section Client.
Context {C : Type} `{!SendAlgorithm C} (env : environment C) (now : Z).
Context (newCryptoSetup : forall (version connectionID : Z), outcome unit).
(** [GenerateConnectionID], which fails without random bytes *)
Context (GenerateConnectionID : outcome Z).
Notation M := (Call (client C)).

(** [newClientSession] *)
Definition newSession (local remote : list Z) (remoteUDP : UDPAddr) (c : client C) : session C :=
  let config := cl_config c in
  Sess.newSession env now PerspectiveClient (cl_version c) (cl_connectionID c) (cfg_HandshakeTimeout config)
    (cfg_KeepAlive config) (cfg_CreatePaths config) (cfg_PathScheduler config)
    (NewConnectionParamatersManager PerspectiveClient (cl_version c) (cfg_MaxReceiveStreamFlowControlWindow config)
       (cfg_MaxReceiveConnectionFlowControlWindow config) (cfg_IdleTimeout config))
    (mkConn local remote []) (Sess.newPathManager PerspectiveClient remoteUDP (cl_localAddrs c)).

(** [createNewSession]: the field is overwritten whether or not there is an error. *)
Definition createNewSession (local remote : list Z) (remoteUDP : UDPAddr) : M unit :=
  c ← get;
  match newCryptoSetup (cl_version c) (cl_connectionID c) with
  | Ret _ => update (fun c => c <| cl_session := Some (newSession local remote remoteUDP c) |>)
  | Err e => update (fun c => c <| cl_session := None |>);; raise e
  | Panic why => crash why
  end.

(** A method of the session *)
Definition onSession (f : session C -> session C) : M unit :=
  c ← get;
  match cl_session c with
  | Some s => update (fun c => c <| cl_session := Some (f s) |>)
  | None => nilDereference
  end.

(** [Close] of the session *)
Definition closeSession (e : error) : M unit := onSession (Sess.closeLocal e).

(** [c.connectionID, err = utils.GenerateConnectionID()]: the field is overwritten in both cases. *)
Definition setConnectionID : M unit :=
  match GenerateConnectionID with
  | Ret id => update (fun c => c <| cl_connectionID := id |>)
  | Err e => update (fun c => c <| cl_connectionID := 0 |>);; raise e
  | Panic why => crash why
  end.

(** [handlePacketWithVersionFlag]; [local] is the address of the socket.  The close of the old session is deferred to
    the end, whether or not the new one can be created; the two do not share state. *)
Definition handlePacketWithVersionFlag (hdr : PublicHeader) (local remote : list Z) (remoteUDP : UDPAddr) : M unit :=
  c ← get;
  if existsb (Z.eqb (cl_version c)) (SupportedVersions hdr) then mret tt
  else
    update (fun c => c <| cl_receivedVersionNegotiationPacket := true |>);;
    let newVersion := ChooseSupportedVersion (cfg_Versions (cl_config c)) (SupportedVersions hdr) in
    if newVersion =? VersionUnsupported then raise InvalidVersion
    else
      update (fun c => c <| cl_version := newVersion |>);;
      setConnectionID;;
      match cl_session c with
      | None => nilDereference
      | Some oldSession =>
          update (fun c => c <| cl_oldSessions := cl_oldSessions c ++ [Sess.closeLocal errCloseSessionForNewVersion oldSession] |>);;
          createNewSession local remote remoteUDP
      end.

(** [c.session.RemoteAddr()] *)
Definition remoteAddrOf (s : session C) : option (list Z) := (fun p => conn_remote (pa_conn p)) <$> ss_paths s !! InitialPathID.

Definition handlePublicReset (rcv : receivedRawPacket) (hdr : PublicHeader) (rest : list Z) : M unit :=
  c ← get;
  match cl_session c ≫= remoteAddrOf with
  | None => nilDereference
  | Some cr =>
      if negb (bool_decide (cr = rr_remoteAddr rcv)) || negb (hdr_ConnectionID hdr =? cl_connectionID c) then mret tt
      else
        match ParsePublicReset rest with
        | Ret (pr, _) =>
            onSession (Sess.closeRemote (QuicError PublicResetReceived
              ("Received a Public Reset for packet number " ++ HexString.of_Z (RejectedPacketNumber pr))))
        | Err _ => mret tt
        | Panic why => crash why
        end
  end.

(** [pconnAny] is the socket of the client. *)
Definition handlePacket (pconnAny : list Z) (rcv : receivedRawPacket) : M unit :=
  c ← get;
  match Header.Parse PerspectiveServer (cl_version c) (rr_data rcv) with
  | Err _ => mret tt
  | Panic why => crash why
  | Ret (hdr, rest) =>
      let hdr := withRaw (rr_data rcv) rest hdr in
      if TruncateConnectionID hdr && negb (cfg_RequestConnectionIDTruncation (cl_config c)) then mret tt
      else if negb (TruncateConnectionID hdr) && negb (hdr_ConnectionID hdr =? cl_connectionID c) then mret tt
      else if ResetFlag hdr then handlePublicReset rcv hdr rest
      else if (cl_receivedVersionNegotiationPacket c || cl_versionNegotiated c) && VersionFlag hdr then mret tt
      else if VersionFlag hdr then
        onError (handlePacketWithVersionFlag hdr pconnAny (rr_remoteAddr rcv) (rr_remoteUDP rcv)) closeSession
      else
        update (fun c => c <| cl_versionNegotiated := true |>);;
        onSession (Sess.handlePacket (packetFor rcv hdr rest))
  end.
End Client.
End Client.

(** ** Starting *)

(** The server that [ListenImpl] returns, on a host with these addresses *)
Definition newServer {C} (config : option Config) (localAddrs : list UDPAddr) : server C :=
  mkServer (populateServerConfig config) localAddrs ∅ [].

(** The client of [DialNonFWSecure] before its first session *)
Definition newClient {C} (config : option Config) (localAddrs : list UDPAddr) (connID : Z) : client C :=
  let clientConfig := populateClientConfig config in
  mkClient clientConfig localAddrs false false connID (hd VersionUnknown (cfg_Versions clientConfig)) None [].

(** ** Headers *)
Lemma psafe_readVersions fuel : psafe (Header.readVersions fuel) (fun _ => True).
Proof.
  induction fuel as [|fuel IH]; intros bs Hbs; [done|]. cbn [Header.readVersions].
  pose proof (psafe_ReadUint32 0 bs Hbs) as Hr. change (GetByteOrder 0) with LittleEndian in Hr.
  destruct (ReadUint32 LittleEndian bs) as [[tag rest]| |]; [| |done].
  - destruct Hr as (_ & Hrest & Hsuf). specialize (IH rest Hrest).
    destruct (Header.readVersions fuel rest) as [[vs rest']| |]; [|done..]. destruct IH as (_ & ? & ?).
    split; [done|]. split; [done|]. by etrans.
  - split; [done|]. split; [apply Forall_nil_2|]. apply suffix_nil.
Qed.

Lemma psafe_opt {A} (present : bool) (p : Parser A) (d : A) :
  psafe p (fun _ => True) -> psafe (if present then p else mret d) (fun _ => True).
Proof. intros Hp. destruct present; [done|by apply psafe_ret]. Qed.

Lemma psafe_ParseTail hdr pers version :
  0 <= hdr_PacketNumberLen hdr <= 8 -> psafe (Header.ParseTail hdr pers version) (fun _ => True).
Proof.
  intros Hlen. unfold Header.ParseTail.
  eapply psafe_bind; [apply psafe_opt; eapply psafe_weaken; [apply psafe_ReadByte|done]|]. intros pid _.
  eapply psafe_bind; [|intros pn _; by apply psafe_ret].
  apply psafe_opt. eapply psafe_weaken; [apply psafe_ReadUintN; usmall; lia|done].
Qed.

Lemma lenOf_range bits :
  0 <= match bits with
       | 0x30 => PacketNumberLen6
       | 0x20 => PacketNumberLen4
       | 0x10 => PacketNumberLen2
       | 0x00 => PacketNumberLen1
       | _ => 0
       end <= 8.
Proof. destruct bits as [|q|q]; [done| |done]. do 6 (destruct q as [q|q|]; try done). Qed.

(** No datagram makes the parser of headers panic. *)
Lemma psafe_Header pers version : psafe (Header.Parse pers version) (fun _ => True).
Proof.
  unfold Header.Parse. eapply psafe_bind; [apply psafe_ReadByte|]. intros b _. cbv zeta.
  destruct (_ && _); [apply psafe_fail|]. destruct (_ && isClient pers); [apply psafe_fail|].
  eapply psafe_bind; [apply psafe_opt|].
  { eapply psafe_bind; [apply (psafe_ReadUint64 0)|]. intros id _.
    destruct (id =? 0); [apply psafe_fail|by apply psafe_ret]. }
  intros id _. eapply psafe_bind; [apply psafe_opt; eapply psafe_weaken; [apply psafe_ReadFull|done]|]. intros nonce _.
  match goal with |- context [mkPublicHeader [] id 0 ?vf ?rf ?tr ?mp ?len 0 _ _ nonce] => set (pnLen := len) end.
  assert (Hlen : 0 <= pnLen <= 8) by (subst pnLen; destruct (hasPacketNumber _ _ _); [apply lenOf_range|lia]).
  destruct (negb _ && _); [|by apply psafe_ParseTail]. destruct (isServer pers).
  - eapply psafe_bind; [apply psafe_Len|]. intros len _. destruct (negb _); [apply psafe_fail|].
    eapply psafe_bind; [apply psafe_readVersions|]. intros vs _. by apply psafe_ret.
  - eapply psafe_bind; [apply (psafe_ReadUint32 0)|]. intros tag _. by apply psafe_ParseTail.
Qed.

Lemma peek_no_panic pers bs why : is_bytes bs -> Header.PeekConnectionID pers bs <> Panic why.
Proof.
  intros Hbs. unfold Header.PeekConnectionID. pose proof (psafe_ReadByte bs Hbs) as Hb.
  destruct (ReadByte bs) as [[b rest]| |]; [|done..]. destruct Hb as (_ & Hrest & _).
  destruct (_ && _); [done|]. destruct (negb _); [|done].
  pose proof (psafe_ReadUint64 0 rest Hrest) as Hr. change (GetByteOrder 0) with LittleEndian in Hr.
  by destruct (ReadUint64 LittleEndian rest) as [[]| |].
Qed.

Lemma ParseTail_connID hdr pers version bs hdr' rest :
  Header.ParseTail hdr pers version bs = Ret (hdr', rest) -> hdr_ConnectionID hdr' = hdr_ConnectionID hdr.
Proof.
  unfold Header.ParseTail, mbind, parser_bind. destruct ((if MultipathFlag hdr then ReadByte else mret 0) bs) as [[pid bs']| |]; [|done..].
  match goal with |- context [match ?x with _ => _ end] => destruct x as [[pn bs'']| |]; [|done..] end.
  by intros [= <- <-].
Qed.

(** The connection ID that is peeked is the one of the header. *)
Lemma parse_peek version bs hdr rest id :
  Header.Parse PerspectiveClient version bs = Ret (hdr, rest) ->
  Header.PeekConnectionID PerspectiveClient bs = Ret id -> hdr_ConnectionID hdr = id.
Proof.
  unfold Header.Parse, Header.PeekConnectionID, mbind, parser_bind. cbn [isClient isServer andb]. cbv zeta.
  destruct (ReadByte bs) as [[b bs']| |]; [|done..]. rewrite !andb_true_r.
  destruct (_ && _); [done|]. destruct (Z.land b 8 =? 0); [done|]. cbn [negb andb].
  destruct (ReadUint64 LittleEndian bs') as [[x bs2]| |]; [|done..]. cbv iota beta.
  destruct (x =? 0); [done|]. unfold mret, parser_ret. cbv iota beta.
  intros Hp [= <-]. destruct (negb _ && _); [|by apply ParseTail_connID in Hp].
  destruct (ReadUint32 LittleEndian bs2) as [[tag bs3]| |]; [|done..]. by apply ParseTail_connID in Hp.
Qed.

(** ** What a datagram does to a server *)
Section ServerLaws.
Context {C : Type} `{!SendAlgorithm C} (env : environment C) (newCryptoSetup : forall (version connectionID : Z), outcome unit).
Implicit Types s : server C.

(** The session of the connection [id] is open, or it is created for one of the versions of the server. *)
Definition serves (now : Z) (rcv : receivedRawPacket) s (id : Z) (x : session C) : Prop :=
  sv_sessions s !! id = Some (Some x) \/
  sv_sessions s !! id = None /\ exists version, version ∈ cfg_Versions (sv_config s) /\ x = Server.newSession env now rcv version id s.

(** The server [s] became [s'] when it got the datagram: nothing happened; it was answered with a public reset, or, when
    it was large enough and not of a known connection, with the versions of the server; or the session got a packet. *)
Inductive served (now : Z) (rcv : receivedRawPacket) s (id : Z) : server C -> Prop :=
  | served_nothing : served now rcv s id s
  | served_answer answer :
      answer = (WritePublicReset id 0 0).1 \/
      answer = ComposeVersionNegotiation id (cfg_Versions (sv_config s)) /\ sv_sessions s !! id = None /\
      protocol.ClientHelloMinimumSize <= Z.of_nat (length (rr_data rcv)) ->
      served now rcv s id (s <| sv_written := sv_written s ++ [(rr_rcvPconn rcv, rr_remoteAddr rcv, answer)] |>)
  | served_session x hdr rest :
      serves now rcv s id x ->
      served now rcv s id (s <| sv_sessions := <[id := Some (Sess.handlePacket (packetFor rcv hdr rest) x)]> (sv_sessions s) |>).

Lemma IsSupported_spec supported v : IsSupportedVersion supported v = true <-> v ∈ supported.
Proof.
  induction supported as [|t rest IH]; cbn [IsSupportedVersion]; [set_solver|].
  destruct (Z.eqb_spec t v); [set_solver|]. rewrite IH. set_solver.
Qed.

Lemma writeTo_spec rcv packet s :
  exists r, Server.writeTo env rcv packet s =
    (s <| sv_written := sv_written s ++ [(rr_rcvPconn rcv, rr_remoteAddr rcv, packet)] |>, r) /\ (forall why, r <> Panic why).
Proof. unfold Server.writeTo, mbind, call_bind, update. destruct (env_writeTo _ _ _ _); by eexists. Qed.

Lemma set_sessions_twice s id x y :
  (s <| sv_sessions := <[id := x]> (sv_sessions s) |>)
    <| sv_sessions := <[id := y]> (sv_sessions (s <| sv_sessions := <[id := x]> (sv_sessions s) |>)) |>
  = s <| sv_sessions := <[id := y]> (sv_sessions s) |>.
Proof. unfold setField. cbn. by rewrite insert_insert_eq. Qed.

Hypothesis Hcrypto : forall version id why, newCryptoSetup version id <> Panic why.

(** The session gets the packet, if there is a session for it. *)
Lemma getSession_spec now rcv id hdr rest s known :
  hdr_ConnectionID hdr = id -> sv_sessions s !! id = Some <$> known ->
  let '(s', r) := (session ← Server.getSession env now newCryptoSetup rcv id hdr known;
    Server.setSession id (Some (Sess.handlePacket (packetFor rcv hdr rest) session))) s in
  served now rcv s id s' /\ (forall why, r <> Panic why).
Proof.
  intros Hid Hknown. unfold Server.getSession, mbind, call_bind. destruct known as [x|]; cbn in Hknown.
  - cbn. split; [|done]. apply served_session. by left.
  - cbn [get]. destruct (Server.IsSupported s (VersionNumber hdr)) eqn:Hsup; cbn [negb].
    2: { cbn. split; [apply served_nothing|done]. }
    unfold lift. pose proof (Hcrypto (VersionNumber hdr) (hdr_ConnectionID hdr)) as Hc.
    destruct (newCryptoSetup _ _) as [[]|e|why]; [|split; [apply served_nothing|done]|by edestruct Hc].
    unfold Server.setSession, update. cbv iota beta. split; [|done]. rewrite set_sessions_twice. apply served_session.
    right. split; [done|]. exists (VersionNumber hdr). split; [by apply IsSupported_spec|by rewrite Hid].
Qed.

Lemma handleHeader_spec now rcv id hdr rest s known :
  hdr_ConnectionID hdr = id -> sv_sessions s !! id = Some <$> known ->
  let '(s', r) := Server.handleHeader env now newCryptoSetup rcv id known hdr rest s in
  served now rcv s id s' /\ (forall why, r <> Panic why).
Proof.
  intros Hid Hknown. unfold Server.handleHeader. unfold mbind at 1, call_bind at 1. cbn [get].
  destruct (ResetFlag hdr); [split; [apply served_nothing|done]|].
  destruct (bool_decide (is_Some known) && _) eqn:E1; [split; [apply served_nothing|done]|].
  destruct (VersionFlag hdr && _) eqn:E2; [|by apply getSession_spec].
  destruct (Z.ltb_spec (Z.of_nat (length (rr_data rcv))) (protocol.ClientHelloMinimumSize + Z.of_nat (length (Raw hdr)))) as [|Hl];
    [split; [apply served_nothing|done]|].
  destruct known as [x|]; [done|]. destruct (writeTo_spec rcv (ComposeVersionNegotiation (hdr_ConnectionID hdr)
    (cfg_Versions (sv_config s))) s) as (r & -> & Hr). split; [|done]. apply served_answer. right.
  split; [by rewrite Hid|]. split; [done|lia].
Qed.

Lemma handlePacket_known now rcv s id known :
  Header.PeekConnectionID PerspectiveClient (rr_data rcv) = Ret id -> sv_sessions s !! id = Some <$> known ->
  Server.handlePacket env now newCryptoSetup rcv s = Server.handleKnown env now newCryptoSetup rcv id known s.
Proof.
  intros Hp Hk. unfold Server.handlePacket. rewrite Hp. unfold mbind at 1, call_bind at 1. cbn [get]. rewrite Hk.
  by destruct known.
Qed.

Lemma handlePacket_spec now rcv s :
  is_bytes (rr_data rcv) ->
  let '(s', r) := Server.handlePacket env now newCryptoSetup rcv s in
  (forall why, r <> Panic why) /\
  (s' = s \/ exists id, Header.PeekConnectionID PerspectiveClient (rr_data rcv) = Ret id /\ sv_sessions s !! id <> Some None /\
    served now rcv s id s').
Proof.
  intros Hbs. pose proof (peek_no_panic PerspectiveClient (rr_data rcv)) as Hpeek.
  destruct (Header.PeekConnectionID _ _) as [id|e|why] eqn:Ep; [| |by edestruct Hpeek].
  2: { unfold Server.handlePacket. rewrite Ep. split; [done|by left]. }
  assert (Hcase : sv_sessions s !! id = Some None \/ exists known, sv_sessions s !! id = Some <$> known).
  { destruct (sv_sessions s !! id) as [[x|]|]; [right; by exists (Some x)|by left|right; by exists None]. }
  destruct Hcase as [E|[known Hk]].
  { unfold Server.handlePacket. rewrite Ep. unfold mbind, call_bind. cbn [get]. rewrite E. split; [done|by left]. }
  assert (Hn : sv_sessions s !! id <> Some None) by (rewrite Hk; by destruct known).
  rewrite (handlePacket_known now rcv s id known) by done. unfold Server.handleKnown.
  pose proof (psafe_Header PerspectiveClient (from_option ss_version VersionUnknown known) _ Hbs) as Hp.
  destruct (Header.Parse _ _ _) as [[hdr rest]|e|why] eqn:Eh; [| |done].
  - pose proof (handleHeader_spec now rcv id (withRaw (rr_data rcv) rest hdr) rest s known) as Hh.
    destruct (Server.handleHeader _ _ _ _ _ _ _ _ s) as [s' r]. destruct Hh as [Hsv Hr]; [exact (parse_peek _ _ _ _ _ Eh Ep)|done|].
    split; [done|]. right. by exists id.
  - case_decide; [|split; [done|by left]]. destruct (writeTo_spec rcv (WritePublicReset id 0 0).1 s) as (r & -> & Hr).
    split; [done|]. right. exists id. split; [done|]. split; [done|]. apply served_answer. by left.
Qed.

(** *** The life of a server *)

(** A datagram arrives, a session runs, it ends and is forgotten, or the server is closed. *)
Inductive server_step (N : Z) : server C -> server C -> Prop :=
  | serve_datagram now rcv s :
      is_bytes (rr_data rcv) -> has_port (rr_rcvPconn rcv) ->
      server_step N s (Server.handlePacket env now newCryptoSetup rcv s).1
  | serve_session id x x' s :
      sv_sessions s !! id = Some (Some x) -> runs N env x x' ->
      server_step N s (s <| sv_sessions := <[id := Some x']> (sv_sessions s) |>)
  | serve_removed id s : server_step N s (Server.removeConnection id s).1
  | serve_deleted id s : server_step N s (Server.deleteConnection id s).1
  | serve_closed s : server_step N s (Server.Close s).1.

(** Every session that is open is well formed. *)
Definition sessions_ok (N : Z) s : Prop :=
  forall id x, sv_sessions s !! id = Some (Some x) -> ss_closed x = None -> session_ok N x.

Lemma handlePacket_closed pkt (x : session C) : ss_closed (Sess.handlePacket pkt x) = ss_closed x.
Proof. unfold Sess.handlePacket. by case_match. Qed.

Lemma closeWith_closed e (x : session C) : ss_closed (Sess.closeWith e x) <> None.
Proof. unfold Sess.closeWith. destruct (ss_closed x) eqn:E; [by rewrite E|done]. Qed.

Lemma newSession_ok N now rcv version id s :
  100 <= N -> has_port (rr_rcvPconn rcv) -> session_ok N (Server.newSession env now rcv version id s).
Proof. intros HN Hport. apply start_ok; [lia|cbn; unfold MaxStreamsPerConnection; lia|done]. Qed.

Lemma sessions_ok_insert N s id o :
  sessions_ok N s -> (forall x, o = Some x -> ss_closed x = None -> session_ok N x) ->
  sessions_ok N (s <| sv_sessions := <[id := o]> (sv_sessions s) |>).
Proof. intros Hs Ho i x Hi. cbn in Hi. apply lookup_insert_Some in Hi as [[_ ->]|[_ Hi]]; [by apply Ho|by eapply Hs]. Qed.

Lemma served_ok N now rcv s id s' :
  100 <= N -> has_port (rr_rcvPconn rcv) -> sessions_ok N s -> served now rcv s id s' -> sessions_ok N s'.
Proof.
  intros HN Hport Hs Hsv. destruct Hsv as [|answer _|x hdr rest Hx]; [done..|].
  apply sessions_ok_insert; [done|]. intros y [= <-]. rewrite handlePacket_closed. intros Hopen.
  eapply session_ok_core; [apply handlePacket_core|].
  destruct Hx as [Hx|(_ & v & _ & ->)]; [by eapply Hs|by apply newSession_ok].
Qed.

Lemma server_step_ok N s s' : 100 <= N -> sessions_ok N s -> server_step N s s' -> sessions_ok N s'.
Proof.
  intros HN Hs Hstep. destruct Hstep as [now rcv s Hbs Hport|id x x' s Hx [Hopen Hrun]|id s|id s|s].
  - pose proof (handlePacket_spec now rcv s Hbs) as Hp. destruct (Server.handlePacket _ _ _ _ s) as [s' r]. cbn [fst].
    destruct Hp as [_ [->|(id & _ & _ & Hsv)]]; [done|by eapply served_ok].
  - apply sessions_ok_insert; [done|]. intros y [= <-] Hy. destruct (run_inv N env x x') as [|Hcl]; [by eapply Hs|done..|].
    rewrite Hy in Hcl. by destruct Hcl.
  - by apply sessions_ok_insert.
  - intros i x Hi. cbn in Hi. apply lookup_delete_Some in Hi as [_ Hi]. by eapply Hs.
  - intros i x Hi Hopen. cbn in Hi. rewrite lookup_fmap in Hi. destruct (sv_sessions s !! i) as [[y|]|]; simplify_eq/=.
    by apply closeWith_closed in Hopen.
Qed.

Lemma server_runs_ok N config localAddrs s :
  100 <= N -> rtc (server_step N) (newServer config localAddrs) s -> sessions_ok N s.
Proof.
  intros HN Hr. assert (H0 : sessions_ok N (newServer config localAddrs)) by (intros i x Hi; cbn in Hi; by rewrite lookup_empty in Hi).
  induction Hr as [|x y z Hxy _ IH]; [done|]. by apply IH, (server_step_ok N x y).
Qed.
End ServerLaws.

(** ** Versions *)
Definition first_common (ours theirs : list Z) (v : Z) : Prop :=
  v ∈ theirs /\ exists pre post, ours = pre ++ v :: post /\ forall u, u ∈ pre -> u ∉ theirs.

Lemma choose_common ours theirs :
  (exists v, v ∈ ours /\ v ∈ theirs) -> VersionUnsupported ∉ theirs ->
  let v := ChooseSupportedVersion ours theirs in first_common ours theirs v /\ v <> VersionUnsupported.
Proof.
  intros (u & Hu & Hu') Hun. destruct (ChooseSupportedVersion_first ours theirs) as [(pre & v & post & E & Hv & Hpre & ->)|[Hno _]];
    [|by edestruct Hno].
  cbv zeta. split; [split; [done|by exists pre, post]|]. by intros ->.
Qed.

Section Negotiation.
Context {C : Type} `{!SendAlgorithm C} (env : environment C) (newCryptoSetup : forall (version connectionID : Z), outcome unit).
Implicit Types s : server C.
Implicit Types c : client C.

(** A header with which a client offers [version] for the connection [id]. *)
Record offers (h : PublicHeader) (id version : Z) : Prop := {
  of_wf : wf_regular h version PerspectiveClient;
  of_flag : VersionFlag h = true;
  of_id : hdr_ConnectionID h = id
}.

(** The server reads such a header the way it was written. *)
Lemma offer_known now rcv s h id version hdrBytes payload :
  offers h id version -> Header.Write h version PerspectiveClient = (hdrBytes, Ret tt) ->
  rr_data rcv = hdrBytes ++ payload -> sv_sessions s !! id = None ->
  Server.handlePacket env now newCryptoSetup rcv s
  = Server.handleHeader env now newCryptoSetup rcv id None
      (withRaw (hdrBytes ++ payload) payload (received h)) payload s.
Proof.
  intros [Hwf Hflag Hid] Hw Hd Hs. assert (hdrBytes = header_bytes h version) as ->
    by (pose proof (regular_Write h version PerspectiveClient Hwf) as Hw2; rewrite Hw2 in Hw; by injection Hw).
  assert (Htr : TruncateConnectionID h = false).
  { destruct (TruncateConnectionID h) eqn:E; [|done]. pose proof (wf_connid _ _ _ Hwf) as Hc. by rewrite E in Hc. }
  rewrite (handlePacket_known env newCryptoSetup now rcv s id None); [|by rewrite Hd, regular_peek, Htr, Hid by done|done].
  unfold Server.handleKnown. rewrite Hd. cbn [from_option]. rewrite (regular_Parse h version PerspectiveClient Hwf); [done|].
  by rewrite Hflag.
Qed.

Lemma length_withRaw bs payload hdr : length (Raw (withRaw (bs ++ payload) payload hdr)) = length bs.
Proof. cbn. rewrite length_take, length_app. lia. Qed.

(** The fields of the header that decide what the server does *)
Lemma offer_fields h id version packet rest :
  offers h id version ->
  let hdr := withRaw packet rest (received h) in
  ResetFlag hdr = false /\ VersionFlag hdr = true /\ VersionNumber hdr = version /\ hdr_ConnectionID hdr = id.
Proof.
  intros [Hwf Hflag Hid]. cbn. rewrite Hflag. destruct (wf_version _ _ _ Hwf Hflag) as (_ & _ & ->).
  split; [done|]. split; [done|]. split; [done|]. pose proof (wf_connid _ _ _ Hwf) as Hc.
  by destruct (TruncateConnectionID h).
Qed.

(** A server that does not support the version answers with those it supports. *)
Lemma server_answers now rcv s h id version hdrBytes payload :
  offers h id version -> Header.Write h version PerspectiveClient = (hdrBytes, Ret tt) ->
  rr_data rcv = hdrBytes ++ payload -> protocol.ClientHelloMinimumSize <= Z.of_nat (length payload) ->
  sv_sessions s !! id = None -> version ∉ cfg_Versions (sv_config s) ->
  Server.handlePacket env now newCryptoSetup rcv s
  = Server.writeTo env rcv (ComposeVersionNegotiation id (cfg_Versions (sv_config s))) s.
Proof.
  intros Ho Hw Hd Hsize Hs Hv. rewrite (offer_known now rcv s h id version hdrBytes payload) by done.
  destruct (offer_fields h id version (hdrBytes ++ payload) payload Ho) as (Er & Ef & En & Ei).
  unfold Server.handleHeader. unfold mbind at 1, call_bind at 1. cbn [get]. rewrite Er, Ef, En, Ei, length_withRaw, Hd, length_app.
  assert (Hu : Server.IsSupported s version = false)
    by (apply not_true_is_false; unfold Server.IsSupported; by rewrite IsSupported_spec).
  rewrite Hu. cbn [negb andb]. by rewrite (proj2 (Z.ltb_ge _ _)) by lia.
Qed.

(** A server that supports it opens a session. *)
Lemma server_opens now rcv s h id version hdrBytes payload :
  offers h id version -> Header.Write h version PerspectiveClient = (hdrBytes, Ret tt) ->
  rr_data rcv = hdrBytes ++ payload -> sv_sessions s !! id = None -> version ∈ cfg_Versions (sv_config s) ->
  newCryptoSetup version id = Ret tt ->
  exists pkt, Server.handlePacket env now newCryptoSetup rcv s
  = (s <| sv_sessions := <[id := Some (Sess.handlePacket pkt (Server.newSession env now rcv version id s))]> (sv_sessions s) |>, Ret tt).
Proof.
  intros Ho Hw Hd Hs Hv Hc. rewrite (offer_known now rcv s h id version hdrBytes payload) by done.
  destruct (offer_fields h id version (hdrBytes ++ payload) payload Ho) as (Er & Ef & En & Ei).
  exists (packetFor rcv (withRaw (hdrBytes ++ payload) payload (received h)) payload).
  unfold Server.handleHeader, Server.getSession, mbind, call_bind. cbn [get]. rewrite Er, Ef, En, Ei.
  assert (Hu : Server.IsSupported s version = true) by (by apply IsSupported_spec).
  rewrite Hu. cbn [negb andb]. rewrite andb_false_r. unfold lift. rewrite Hc.
  unfold Server.setSession, update, mret, call_ret. cbv iota beta. rewrite Hu. cbn [negb].
  cbv beta iota. by rewrite set_sessions_twice.
Qed.


(** What becomes of the client when it gets the versions of a server and [v] is the first of its own among them; the
    new session is not there yet. *)
Context (GenerateConnectionID : outcome Z).

Definition switched c (v id : Z) (old : session C) : client C :=
  c <| cl_receivedVersionNegotiationPacket := true |> <| cl_version := v |> <| cl_connectionID := id |>
    <| cl_oldSessions := cl_oldSessions c ++ [Sess.closeLocal errCloseSessionForNewVersion old] |>.

Lemma client_switches now pconnAny rcv c versions v id old :
  cl_receivedVersionNegotiationPacket c = false -> cl_versionNegotiated c = false -> cl_session c = Some old ->
  0 < cl_connectionID c < 2 ^ 64 -> Forall (fun v => 0 <= v < 1000) versions ->
  rr_data rcv = ComposeVersionNegotiation (cl_connectionID c) versions -> cl_version c ∉ versions ->
  ChooseSupportedVersion (cfg_Versions (cl_config c)) versions = v -> v <> VersionUnsupported ->
  GenerateConnectionID = Ret id ->
  Client.handlePacket env now newCryptoSetup GenerateConnectionID pconnAny rcv c
  = onError (Client.createNewSession env now newCryptoSetup pconnAny (rr_remoteAddr rcv) (rr_remoteUDP rcv)) Client.closeSession
      (switched c v id old).
Proof.
  intros Hr Hn Hold Hid Hvs Hd Hver Hv Hsup Hgen. unfold Client.handlePacket. unfold mbind at 1, call_bind at 1. cbn [get].
  rewrite Hd, version_negotiation_roundtrip by done. unfold withRaw.
  cbn [TruncateConnectionID hdr_ConnectionID ResetFlag VersionFlag SupportedVersions andb negb]. rewrite Z.eqb_refl, Hr, Hn.
  cbn [negb orb andb]. unfold onError, Client.handlePacketWithVersionFlag, mbind, call_bind. cbn [get SupportedVersions].
  assert (He : existsb (Z.eqb (cl_version c)) versions = false).
  { apply not_true_is_false. rewrite existsb_exists. intros (x & Hx & Ex%Z.eqb_eq). subst x. by apply Hver, list_elem_of_In. }
  rewrite He, Hv, (proj2 (Z.eqb_neq _ _) Hsup). cbn [update]. unfold Client.setConnectionID. rewrite Hgen, Hold. done.
Qed.

(** *** Any datagram *)

(** The session gets a packet, is closed, or nothing happens to it. *)
Definition session_gets (x x' : session C) : Prop :=
  x' = x \/ (exists pkt, x' = Sess.handlePacket pkt x) \/ (exists e, x' = Sess.closeRemote e x) \/ exists e, x' = Sess.closeLocal e x.

(** The client [c] with the session [x] became [c'] within the same version ... *)
Record same_version (x : session C) c c' : Prop := {
  kv_config : cl_config c' = cl_config c;
  kv_version : cl_version c' = cl_version c;
  kv_connection : cl_connectionID c' = cl_connectionID c;
  kv_old : cl_oldSessions c' = cl_oldSessions c;
  kv_received : cl_receivedVersionNegotiationPacket c = true -> cl_receivedVersionNegotiationPacket c' = true;
  kv_negotiated : cl_versionNegotiated c = true -> cl_versionNegotiated c' = true;
  kv_session : exists x', cl_session c' = Some x' /\ session_gets x x'
}.

(** ... or it switched: the old session is closed, and there is one for the new version, unless it cannot be
    created; without a new connection ID the old session stays and is closed with the error. *)
Record new_version (x : session C) c c' : Prop := {
  nv_config : cl_config c' = cl_config c;
  nv_before : cl_receivedVersionNegotiationPacket c = false /\ cl_versionNegotiated c = false;
  nv_after : cl_receivedVersionNegotiationPacket c' = true;
  nv_version : cl_version c' ∈ cfg_Versions (cl_config c) /\ cl_version c' <> cl_version c;
  nv_session :
    (GenerateConnectionID = Ret (cl_connectionID c') /\
     cl_oldSessions c' = cl_oldSessions c ++ [Sess.closeLocal errCloseSessionForNewVersion x] /\
     match newCryptoSetup (cl_version c') (cl_connectionID c') with
     | Ret _ => exists x', cl_session c' = Some x' /\ ss_version x' = cl_version c' /\ ss_connectionID x' = cl_connectionID c'
     | _ => cl_session c' = None
     end) \/
    (exists e, GenerateConnectionID = Err e /\ cl_connectionID c' = 0 /\ cl_oldSessions c' = cl_oldSessions c /\
     cl_session c' = Some (Sess.closeLocal e x))
}.
Definition no_session c : Prop := exists e, newCryptoSetup (cl_version c) (cl_connectionID c) = Err e.

Lemma onSession_ret c x f : cl_session c = Some x -> Client.onSession f c = (c <| cl_session := Some (f x) |>, Ret tt).
Proof. intros E. unfold Client.onSession, mbind, call_bind. cbn [get]. by rewrite E. Qed.

Definition same_peer (x x' : session C) : Prop := ss_version x' = ss_version x /\ ss_connectionID x' = ss_connectionID x.

#[local] Instance same_peer_preorder : PreOrder same_peer.
Proof. split; [done|]. intros x y z [? ?] [? ?]. split; congruence. Qed.

Lemma adds_same_peer weight ids : within same_peer (forEach ids (Sess.addStream weight)).
Proof.
  apply (within_forEach _). intros id. apply (within_bind _); [by intros x|]. intros [] x. unfold Sess.onTree.
  by destruct (Tree.addNode id (ss_tree x)).
Qed.

Lemma new_session_fields now local remote remoteUDP c :
  let x := Client.newSession env now local remote remoteUDP c in
  ss_version x = cl_version c /\ ss_connectionID x = cl_connectionID c.
Proof.
  cbv zeta. unfold Client.newSession, Sess.newSession, Sess.openCryptoStream. cbn [ss_perspective Sess.initialSession isServer].
  match goal with |- context [Sess.OpenStream ?y] => set (y0 := y) end.
  assert (H : same_peer y0 (Sess.OpenStream y0).1); [|exact H].
  unfold Sess.OpenStream, mbind, call_bind. cbn [get]. unfold Sess.opening. destruct (StreamsMap.OpenStream _ _) as [st r].
  apply (within_bind_post same_peer _ _ (Sess.setMapState st y0)); [apply adds_same_peer|]. intros y [] _. by destruct r.
Qed.

Hypothesis Hcrypto : forall version id why, newCryptoSetup version id <> Panic why.
Hypothesis Hgenerate : forall why, GenerateConnectionID <> Panic why.

Lemma version_flag_spec now hdr local remote remoteUDP c x :
  cl_session c = Some x -> cl_receivedVersionNegotiationPacket c = false -> cl_versionNegotiated c = false ->
  let '(c', r) := onError (Client.handlePacketWithVersionFlag env now newCryptoSetup GenerateConnectionID hdr local remote remoteUDP)
    Client.closeSession c in
  (r = Ret tt \/ no_session c') /\ (same_version x c c' \/ new_version x c c').
Proof.
  intros Hx Hr Hn. unfold onError, Client.handlePacketWithVersionFlag, mbind, call_bind. cbn [get].
  destruct (existsb _ _) eqn:Eex. { split; [by left|]. left. split; try done. exists x. by split; [|left]. }
  cbn [update]. destruct (ChooseSupportedVersion_first (cfg_Versions (cl_config c)) (SupportedVersions hdr))
    as [(pre & v & post & E & Hin & _ & Ev)|[_ Ev]]; rewrite Ev.
  2: { rewrite Z.eqb_refl. unfold raise, lift. cbv beta iota. unfold Client.closeSession. rewrite (onSession_ret _ x) by done.
    split; [by left|]. left. split; try done. eexists. split; [done|]. unfold session_gets. eauto. }
  assert (Hv : v ∈ cfg_Versions (cl_config c)) by (rewrite E; set_solver).
  assert (Hne : v <> cl_version c).
  { intros ->. apply not_true_iff_false in Eex. apply Eex, existsb_exists. exists (cl_version c).
    split; [by apply list_elem_of_In|apply Z.eqb_refl]. }
  destruct (v =? VersionUnsupported).
  { unfold raise, lift. cbv beta iota. unfold Client.closeSession. rewrite (onSession_ret _ x) by done. split; [by left|].
    left. split; try done. eexists. split; [done|]. unfold session_gets. eauto. }
  unfold Client.setConnectionID. destruct GenerateConnectionID as [id|e|why] eqn:Egen; [| |by edestruct Hgenerate].
  - cbn [update]. rewrite Hx. unfold Client.createNewSession, mbind, call_bind. cbn [get update].
    match goal with |- context [newCryptoSetup ?a ?b] => pose proof (Hcrypto a b) as Hc; destruct (newCryptoSetup a b) as [[]|e|why] eqn:En end.
    + split; [by left|]. right. split; [done..|]. left. split; [done|]. split; [done|].
      cbn [cl_version cl_connectionID setField set_cl_session set_cl_oldSessions set_cl_connectionID] in En |- *. rewrite En.
      eexists. split; [reflexivity|]. match goal with |- ss_version (Client.newSession _ _ _ _ _ ?d) = _ /\ _ =>
        destruct (new_session_fields now local remote remoteUDP d) as [E1 E2] end. rewrite E1, E2. done.
    + split; [right; by exists e|]. right. split; [done..|]. left. split; [done|]. split; [done|].
      cbn [cl_version cl_connectionID setField set_cl_session set_cl_oldSessions set_cl_connectionID] in En |- *. by rewrite En.
    + by edestruct Hc.
  - unfold update, raise, lift, mbind, call_bind. cbv beta iota. unfold Client.closeSession. rewrite (onSession_ret _ x) by done.
    split; [by left|]. right. split; [done..|]. right. by exists e.
Qed.

Lemma reset_spec rcv hdr rest c x :
  is_bytes rest -> cl_session c = Some x -> is_Some (ss_paths x !! InitialPathID) ->
  let '(c', r) := Client.handlePublicReset rcv hdr rest c in r = Ret tt /\ same_version x c c'.
Proof.
  intros Hbs Hx [p Hp]. assert (Hsame : same_version x c c) by (split; try done; exists x; by split; [|left]).
  unfold Client.handlePublicReset. unfold mbind at 1, call_bind at 1. cbn [get]. rewrite Hx. cbn [mbind option_bind].
  unfold Client.remoteAddrOf. rewrite Hp. cbn [fmap option_fmap option_map]. destruct (_ || _); [done|].
  pose proof (psafe_ParsePublicReset rest Hbs) as Hr. destruct (ParsePublicReset rest) as [[pr rest']|e|why]; [|done..].
  rewrite (onSession_ret _ x) by done. split; [done|]. split; try done. eexists. split; [done|]. unfold session_gets. eauto.
Qed.

Lemma client_spec now pconnAny rcv c x :
  is_bytes (rr_data rcv) -> cl_session c = Some x -> is_Some (ss_paths x !! InitialPathID) ->
  let '(c', r) := Client.handlePacket env now newCryptoSetup GenerateConnectionID pconnAny rcv c in
  (r = Ret tt \/ no_session c') /\ (same_version x c c' \/ new_version x c c').
Proof.
  intros Hbs Hx Hp. assert (Hsame : same_version x c c) by (split; try done; exists x; by split; [|left]).
  unfold Client.handlePacket. unfold mbind at 1, call_bind at 1. cbn [get].
  pose proof (psafe_Header PerspectiveServer (cl_version c) (rr_data rcv) Hbs) as Hh.
  destruct (Header.Parse _ _ _) as [[hdr rest]|e|why]; [|by split; left|done]. destruct Hh as (_ & Hrest & _).
  cbv zeta. destruct (_ && negb (cfg_RequestConnectionIDTruncation _)); [by split; left|].
  destruct (negb _ && negb _); [by split; left|]. destruct (ResetFlag _).
  { pose proof (reset_spec rcv (withRaw (rr_data rcv) rest hdr) rest c x Hrest Hx Hp) as H.
    destruct (Client.handlePublicReset _ _ _ c). destruct H. by split; left. }
  destruct (cl_receivedVersionNegotiationPacket c) eqn:Er; [destruct (VersionFlag _)|
    destruct (cl_versionNegotiated c) eqn:En; destruct (VersionFlag _)].
  all: cbn [orb andb]; try (by split; left).
  all: try (unfold mbind, call_bind; cbn [update]; rewrite (onSession_ret _ x) by done; split; [by left|left];
    split; try done; eexists; split; [done|]; unfold session_gets; eauto).
  by apply (version_flag_spec now _ _ _ _ c x).
Qed.
End Negotiation.

(** ** Theorems *)

(** C15: No datagram makes a server panic.  What it does is confined to the connection ID in its first bytes: a closed
    connection is left alone; a public reset or, for a connection that is not known and a datagram of at least
    1024 bytes, the list of versions is sent back to where it came from; or the session of the connection gets the packet,
    where a new session is only created for a version of the server. *)
Theorem server_datagram {C : Type} `{!SendAlgorithm C} (env : environment C) newCryptoSetup now rcv (s : server C) :
  (forall version id why, newCryptoSetup version id <> Panic why) -> is_bytes (rr_data rcv) ->
  let '(s', r) := Server.handlePacket env now newCryptoSetup rcv s in
  (forall why, r <> Panic why) /\
  (s' = s \/ exists id, Header.PeekConnectionID PerspectiveClient (rr_data rcv) = Ret id /\ sv_sessions s !! id <> Some None /\
    served env now rcv s id s').
Proof. intros Hc Hbs. by apply handlePacket_spec. Qed.

(** C3: A server keeps its sessions well formed.  In every state it reaches from its start, by datagrams with any
    contents, runs of its sessions ([session_step], whose applications build no exclusive dependencies and none on a stream
    with a larger ID), the end and the removal of sessions and its own close, each session that is not
    closed satisfies the invariant of sessions; so the run loop of none of them panics on a packet that
    [packet_ok] admits. *)
Theorem server_survives {C : Type} `{!SendAlgorithm C} (env : environment C) newCryptoSetup N config localAddrs (s : server C) :
  (forall version id why, newCryptoSetup version id <> Panic why) -> 100 <= N ->
  rtc (server_step env newCryptoSetup N) (newServer config localAddrs) s ->
  forall id x, sv_sessions s !! id = Some (Some x) -> ss_closed x = None ->
  session_ok N x /\
  forall now Open pkt, opens_bytes Open -> packet_ok env Open x pkt -> (Sess.receivePacket env now Open pkt x).2 = Ret tt.
Proof.
  intros Hc HN Hr id x Hx Hopen. assert (Hok : session_ok N x) by (by eapply server_runs_ok).
  split; [done|]. intros now Open pkt Ho Hp. pose proof (receive_ok_or_closed N env now Open pkt x Hok Ho Hp) as H.
  destruct (Sess.receivePacket _ _ _ _ x). by destruct H.
Qed.

(** C4: Client and server agree on a version.  A client offers a version that the server does not support: the server
    sends its versions and opens no session.  When the client gets that answer it closes its session and opens one with
    the first of its own versions that the server supports, under a new connection ID; the first packet of
    the new connection then opens a session of that version at the server. *)
Theorem versions_negotiated {C : Type} `{!SendAlgorithm C} (env : environment C) newCryptoSetup id' now now' now''
    (s : server C) (c : client C) old rcv h hdrBytes payload :
  (forall version id, newCryptoSetup version id = Ret tt) ->
  cl_receivedVersionNegotiationPacket c = false -> cl_versionNegotiated c = false -> cl_session c = Some old ->
  Forall (fun v => 0 <= v < 1000) (cfg_Versions (sv_config s)) ->
  cl_version c ∉ cfg_Versions (sv_config s) ->
  (exists v, v ∈ cfg_Versions (cl_config c) /\ v ∈ cfg_Versions (sv_config s)) ->
  offers h (cl_connectionID c) (cl_version c) -> sv_sessions s !! cl_connectionID c = None -> sv_sessions s !! id' = None ->
  Header.Write h (cl_version c) PerspectiveClient = (hdrBytes, Ret tt) -> rr_data rcv = hdrBytes ++ payload ->
  protocol.ClientHelloMinimumSize <= Z.of_nat (length payload) ->
  exists answer, let s' := (Server.handlePacket env now newCryptoSetup rcv s).1 in
    s' = s <| sv_written := sv_written s ++ [(rr_rcvPconn rcv, rr_remoteAddr rcv, answer)] |> /\
    forall local rcv', rr_data rcv' = answer ->
    let '(c', r) := Client.handlePacket env now' newCryptoSetup (Ret id') local rcv' c in
    r = Ret tt /\ cl_connectionID c' = id' /\ first_common (cfg_Versions (cl_config c)) (cfg_Versions (sv_config s)) (cl_version c') /\
    cl_session c' = Some (Client.newSession env now' local (rr_remoteAddr rcv') (rr_remoteUDP rcv') c') /\
    cl_oldSessions c' = cl_oldSessions c ++ [Sess.closeLocal errCloseSessionForNewVersion old] /\
    forall h' rcv'' hdrBytes' payload', offers h' id' (cl_version c') ->
      Header.Write h' (cl_version c') PerspectiveClient = (hdrBytes', Ret tt) -> rr_data rcv'' = hdrBytes' ++ payload' ->
      exists pkt, sv_sessions (Server.handlePacket env now'' newCryptoSetup rcv'' s').1 !! id'
        = Some (Some (Sess.handlePacket pkt (Server.newSession env now'' rcv'' (cl_version c') id' s'))).
Proof.
  intros Hc Hr Hn Hold Hvs Hver Hcommon Ho Hs Hs' Hw Hd Hsize.
  exists (ComposeVersionNegotiation (cl_connectionID c) (cfg_Versions (sv_config s))). cbv zeta.
  rewrite (server_answers env newCryptoSetup now rcv s h _ _ hdrBytes payload) by done.
  destruct (writeTo_spec env rcv (ComposeVersionNegotiation (cl_connectionID c) (cfg_Versions (sv_config s))) s) as (r & -> & _).
  cbn [fst]. split; [done|]. intros local rcv' Hd'.
  assert (Hun : VersionUnsupported ∉ cfg_Versions (sv_config s)).
  { intros Hin. rewrite Forall_forall in Hvs. specialize (Hvs _ Hin). unfold VersionUnsupported in Hvs. lia. }
  destruct (choose_common (cfg_Versions (cl_config c)) (cfg_Versions (sv_config s)) Hcommon Hun) as [H1 H2].
  erewrite client_switches; [|try done..].
  2: { destruct Ho as [Hwf Hf <-]. pose proof (wf_connid _ _ _ Hwf). by destruct (TruncateConnectionID h). }
  unfold onError, Client.createNewSession, mbind, call_bind. cbn [get].
  match goal with |- context [newCryptoSetup ?a ?b] => rewrite (Hc a b) end. cbn [update].
  set (v := ChooseSupportedVersion _ _) in *. split; [done|]. split; [done|]. split; [exact H1|].
  split; [done|]. split; [done|]. intros h' rcv'' hdrBytes' payload' Ho' Hw' Hd''.
  match goal with |- context [Server.handlePacket env now'' newCryptoSetup rcv'' ?s'] =>
    destruct (server_opens env newCryptoSetup now'' rcv'' s' h' id' v hdrBytes' payload') as [pkt ->]; [done..|exact (proj1 H1)|done|] end.
  exists pkt. apply lookup_insert_eq.
Qed.

(** C16: No datagram makes a client with a well formed session panic, unless the switch to another version fails to create
    a session.  The client switches only if it got neither a version negotiation packet nor another answer of the
    server before, to another one of its versions; the old session is closed, and the new one has the new version and
    connection ID.  It remembers the switch, so there is no second one.  Otherwise it keeps its version, its connection ID
    and its old sessions, and its session gets the packet, is closed, or is left alone.  A datagram for another
    connection ID does nothing. *)
Theorem client_datagram {C : Type} `{!SendAlgorithm C} (env : environment C) newCryptoSetup GenerateConnectionID now pconnAny
    rcv N (c : client C) x :
  (forall version id why, newCryptoSetup version id <> Panic why) -> (forall why, GenerateConnectionID <> Panic why) ->
  is_bytes (rr_data rcv) -> cl_session c = Some x -> session_ok N x ->
  let '(c', r) := Client.handlePacket env now newCryptoSetup GenerateConnectionID pconnAny rcv c in
  (r = Ret tt \/ no_session newCryptoSetup c') /\
  (same_version x c c' \/ new_version newCryptoSetup GenerateConnectionID x c c') /\
  forall hdr rest, Header.Parse PerspectiveServer (cl_version c) (rr_data rcv) = Ret (hdr, rest) ->
    TruncateConnectionID hdr = false -> hdr_ConnectionID hdr <> cl_connectionID c -> c' = c.
Proof.
  intros Hc Hg Hbs Hx Hok.
  pose proof (client_spec env newCryptoSetup GenerateConnectionID Hc Hg now pconnAny rcv c x Hbs Hx (sk_initial _ _ Hok)) as H.
  destruct (Client.handlePacket _ _ _ _ _ _ c) as [c' r] eqn:E. destruct H as [H1 H2]. split; [done|]. split; [done|].
  intros hdr rest Hp Ht Hid. unfold Client.handlePacket in E. unfold mbind at 1, call_bind at 1 in E. cbn [get] in E.
  rewrite Hp in E. cbn [withRaw TruncateConnectionID hdr_ConnectionID] in E.
  rewrite Ht, (proj2 (Z.eqb_neq _ _) Hid) in E. cbn in E. unfold mret, call_ret in E. by simplify_eq.
Qed.

(** A client with a session gets a datagram, or something happens to its session. *)
Inductive client_step {C : Type} `{!SendAlgorithm C} (env : environment C) newCryptoSetup : client C -> client C -> Prop :=
  | step_datagram now gen pconnAny rcv c x :
      is_bytes (rr_data rcv) -> cl_session c = Some x -> is_Some (ss_paths x !! InitialPathID) -> (forall why, gen <> Panic why) ->
      client_step env newCryptoSetup c (Client.handlePacket env now newCryptoSetup gen pconnAny rcv c).1
  | step_session c x : client_step env newCryptoSetup c (c <| cl_session := x |>).

Lemma client_step_kept {C : Type} `{!SendAlgorithm C} (env : environment C) newCryptoSetup (c c' : client C) :
  (forall version id why, newCryptoSetup version id <> Panic why) -> client_step env newCryptoSetup c c' ->
  cl_receivedVersionNegotiationPacket c = true ->
  cl_receivedVersionNegotiationPacket c' = true /\ cl_version c' = cl_version c.
Proof.
  intros Hc Hs Hr. destruct Hs as [now gen pconnAny rcv c x Hbs Hx Hp Hg|]; [|done].
  pose proof (client_spec env newCryptoSetup gen Hc Hg now pconnAny rcv c x Hbs Hx Hp) as H.
  destruct (Client.handlePacket _ _ _ _ _ _ c) as [c' r]. destruct H as [_ [[]|[_ [Hf _] _ _ _]]]; [|congruence]. split; auto.
Qed.

(** A client changes its version at most once, whatever datagrams arrive afterwards. *)
Theorem client_switches_once {C : Type} `{!SendAlgorithm C} (env : environment C) newCryptoSetup (c1 c2 c3 : client C) :
  (forall version id why, newCryptoSetup version id <> Panic why) ->
  client_step env newCryptoSetup c1 c2 -> cl_version c2 <> cl_version c1 -> rtc (client_step env newCryptoSetup) c2 c3 ->
  cl_version c3 = cl_version c2.
Proof.
  intros Hc H12 Hne H23. assert (Hr : cl_receivedVersionNegotiationPacket c2 = true).
  { destruct H12 as [now gen pconnAny rcv c x Hbs Hx Hp Hg|]; [|done].
    pose proof (client_spec env newCryptoSetup gen Hc Hg now pconnAny rcv c x Hbs Hx Hp) as H.
    destruct (Client.handlePacket _ _ _ _ _ _ c) as [c' r]. by destruct H as [_ [[]|[]]]. }
  clear Hne H12. induction H23 as [|a b d Hab _ IH]; [done|].
  destruct (client_step_kept env newCryptoSetup a b Hc Hab Hr) as [Hb Ev]. by rewrite (IH Hb).
Qed.

(** When the session of the new version cannot be created, the client loses its session and the goroutine that reads
    its packets panics: the error is reported to the session that is not there. *)
Theorem failed_switch_panics {C : Type} `{!SendAlgorithm C} (env : environment C) newCryptoSetup id' now pconnAny rcv
    (c : client C) versions old e :
  cl_receivedVersionNegotiationPacket c = false -> cl_versionNegotiated c = false -> cl_session c = Some old ->
  0 < cl_connectionID c < 2 ^ 64 -> Forall (fun v => 0 <= v < 1000) versions ->
  rr_data rcv = ComposeVersionNegotiation (cl_connectionID c) versions -> cl_version c ∉ versions ->
  (exists v, v ∈ cfg_Versions (cl_config c) /\ v ∈ versions) ->
  newCryptoSetup (ChooseSupportedVersion (cfg_Versions (cl_config c)) versions) id' = Err e ->
  let '(c', r) := Client.handlePacket env now newCryptoSetup (Ret id') pconnAny rcv c in
  cl_session c' = None /\ exists why, r = Panic why.
Proof.
  intros Hr Hn Hold Hid Hvs Hd Hver Hcommon He.
  assert (Hun : VersionUnsupported ∉ versions).
  { intros Hin. rewrite Forall_forall in Hvs. specialize (Hvs _ Hin). unfold VersionUnsupported in Hvs. lia. }
  destruct (choose_common _ _ Hcommon Hun) as [_ Hs]. erewrite client_switches by done.
  unfold onError, Client.createNewSession, mbind, call_bind. cbn [get].
  match goal with |- context [newCryptoSetup ?a ?b] =>
    replace (newCryptoSetup a b) with (Err (A := unit) e) by (symmetry; exact He) end.
  cbn. split; [done|by eexists].
Qed.

(** ** Examples *)
Section Example.
Definition ex_crypto_ok (version connectionID : Z) : outcome unit := Ret tt.
Definition ex_crypto_fails (version connectionID : Z) : outcome unit :=
  if version =? 39 then Err (ErrorString "no session") else Ret tt.

(** A server that only knows version 39, and a client that offers version 512 first *)
Definition ex_config (versions : list Z) : option Config := Some (mkConfig versions false 0 0 0 0 false false false "").
Definition ex_server : server Z := newServer (ex_config [39]) [].
Definition ex_from : list Z := [51; text.colon; 52].
Definition ex_local : list Z := [49; text.colon; 50].
Definition ex_udp : UDPAddr := mkUDPAddr [10; 0; 0; 1] 443.
Definition ex_fresh : client Z := newClient (ex_config [512; 39]) [] 77.
Definition ex_client : client Z := (Client.createNewSession demo_env 1 ex_crypto_ok ex_local ex_from ex_udp ex_fresh).1.
Definition ex_session : session Z := Client.newSession demo_env 1 ex_local ex_from ex_udp ex_fresh.
Definition ex_offer : PublicHeader := mkPublicHeader [] 77 0 true false false false 1 1 512 [] [].
Definition ex_payload : list Z := replicate 1100 0.
Definition ex_datagram (data : list Z) : receivedRawPacket := mkReceivedRawPacket ex_local ex_from ex_udp data 5.
Definition ex_first : receivedRawPacket := ex_datagram ((Header.Write ex_offer 512 PerspectiveClient).1 ++ ex_payload).
Definition ex_answer : receivedRawPacket := ex_datagram (ComposeVersionNegotiation 77 [39]).

Lemma ex_offers : offers ex_offer 77 512.
Proof. split; [|done..]. split; cbn; try done. by left. Qed.

Lemma ex_first_bytes : is_bytes (rr_data ex_first).
Proof. apply Forall_forall. intros x Hx. assert (H : forallb (fun x => (0 <=? x) && (x <? 256)) (rr_data ex_first) = true)
  by (vm_compute; reflexivity). rewrite forallb_forall in H. apply list_elem_of_In in Hx. specialize (H x Hx). unfold in_range. lia. Qed.

Lemma server_datagram_witness :
  let '(s', r) := Server.handlePacket demo_env 2 ex_crypto_ok ex_first ex_server in (forall why, r <> Panic why).
Proof.
  pose proof (server_datagram demo_env ex_crypto_ok 2 ex_first ex_server) as H.
  destruct (Server.handlePacket demo_env 2 ex_crypto_ok ex_first ex_server) as [s' r].
  apply H; [done|apply ex_first_bytes].
Defined.

Lemma server_survives_witness :
  exists s : server Z, rtc (server_step demo_env ex_crypto_ok 100) (newServer (ex_config [512]) []) s /\
  exists x, sv_sessions s !! 77 = Some (Some x) /\ session_ok 100 x.
Proof.
  set (s := (Server.handlePacket demo_env 2 ex_crypto_ok ex_first (newServer (ex_config [512]) [])).1).
  assert (Hr : rtc (server_step demo_env ex_crypto_ok 100) (newServer (ex_config [512]) []) s).
  { apply rtc_once, serve_datagram; [apply ex_first_bytes|unfold has_port; cbn; set_solver]. }
  destruct (server_opens demo_env ex_crypto_ok 2 ex_first (newServer (ex_config [512]) []) ex_offer 77 512
    (Header.Write ex_offer 512 PerspectiveClient).1 ex_payload) as [pkt E];
    [apply ex_offers|vm_compute; reflexivity|reflexivity|reflexivity|cbn; set_solver|reflexivity|].
  exists s. split; [exact Hr|]. eexists.
  assert (Hx : sv_sessions s !! 77 = Some (Some (Sess.handlePacket pkt (Server.newSession demo_env 2 ex_first 512 77 (newServer (ex_config [512]) []))))).
  { unfold s. rewrite E. apply lookup_insert_eq. }
  split; [exact Hx|].
  refine (proj1 (server_survives demo_env ex_crypto_ok 100 (ex_config [512]) [] s _ _ Hr 77 _ Hx _)).
  - done.
  - lia.
  - rewrite handlePacket_closed. vm_compute. reflexivity.
Defined.

Lemma versions_negotiated_witness :
  exists answer, (Server.handlePacket demo_env 2 ex_crypto_ok ex_first ex_server).1
    = ex_server <| sv_written := [(ex_local, ex_from, answer)] |>.
Proof.
  destruct (versions_negotiated demo_env ex_crypto_ok 78 2 3 4 ex_server ex_client ex_session ex_first ex_offer
    (Header.Write ex_offer 512 PerspectiveClient).1 ex_payload) as (answer & E & _).
  - done.
  - reflexivity.
  - reflexivity.
  - reflexivity.
  - repeat constructor; lia.
  - cbn. set_solver.
  - exists 39. cbn. set_solver.
  - apply ex_offers.
  - reflexivity.
  - reflexivity.
  - vm_compute. reflexivity.
  - reflexivity.
  - vm_compute. discriminate.
  - exists answer. exact E.
Defined.

Lemma ex_answer_bytes : is_bytes (rr_data ex_answer).
Proof. repeat constructor; vm_compute; discriminate. Qed.

Lemma ex_session_ok : session_ok 100 ex_session.
Proof. apply start_ok; [lia|cbn; unfold MaxStreamsPerConnection; lia|unfold has_port; cbn; set_solver]. Qed.

Lemma client_datagram_witness :
  let '(c', r) := Client.handlePacket demo_env 3 ex_crypto_ok (Ret 78) ex_local ex_answer ex_client in
  same_version ex_session ex_client c' \/ new_version ex_crypto_ok (Ret 78) ex_session ex_client c'.
Proof.
  pose proof (client_datagram demo_env ex_crypto_ok (Ret 78) 3 ex_local ex_answer 100 ex_client ex_session) as H.
  destruct (Client.handlePacket demo_env 3 ex_crypto_ok (Ret 78) ex_local ex_answer ex_client) as [c' r].
  apply H; [done|done|apply ex_answer_bytes|reflexivity|apply ex_session_ok].
Defined.

Lemma failed_switch_panics_witness :
  let '(c', r) := Client.handlePacket demo_env 3 ex_crypto_fails (Ret 78) ex_local ex_answer ex_client in
  cl_session c' = None /\ exists why, r = Panic why.
Proof.
  apply (failed_switch_panics demo_env ex_crypto_fails 78 3 ex_local ex_answer ex_client [39] ex_session (ErrorString "no session")).
  - reflexivity.
  - reflexivity.
  - reflexivity.
  - vm_compute. split; reflexivity.
  - repeat constructor; lia.
  - reflexivity.
  - cbn. set_solver.
  - exists 39. cbn. set_solver.
  - reflexivity.
Defined.
End Example.
